(* ===== verification/_CoqProject ===== *)
-Q . S2P
Prelude.v
GoFloat.v
UpstreamErrors.v
Channel.v
Account.v
AccountPolicy.v
AccountMerge.v
Redis.v
AccountCodec.v
AccountStore.v
AccountChanges.v
RetryWait.v
ConnTracker.v
KeySlots.v
LoadBalancer.v
AccountReservation.v
RequestAttempts.v
Json.v
Pricing.v
KeyBilling.v
BillingLedger.v
BillingMiddleware.v
ApiKeys.v
ApiKeysCorrect.v
Interleaving.v
Admission.v
AdmissionCorrect.v
RefreshQueue.v
SseFrame.v
SseFrameCorrect.v
Tokens.v
OpenAISSE.v
OpenAISSECorrect.v
AppErrors.v
StreamHandler.v
StreamProtocol.v
StreamQuiet.v
StreamCorrect.v
StreamBlocks.v
StreamEnd.v
StreamAnswer.v
WholeAnswer.v
EgressNodes.v
EgressAssign.v
EgressPool.v
AccountUnique.v
ProviderStream.v
WorkBuddyStream.v
WorkBuddyRestriction.v
ClineSplitter.v
ClineCalls.v
ClineStream.v
ClineCall.v
