(* ===== verification/Prelude.v ===== *)
(** * The account pool, request path, streamed answers and client billing of the API console

    The program ([src/], Go) is a gateway: clients call it with their own API
    keys, it serves each request with one of a pool of upstream accounts
    (channels WorkBuddy, Cline and Grok), keeps that pool healthy, and meters and
    limits what each client key spends.  Its state lives in Redis, shared by any
    number of replicas, and in the memory of each process.  This library models
    the parts that decide: which account serves a request, what a failure does to
    an account, when a request ends, who may call, and what they are charged.

    ** How the parts interact

    A request passes the gates of Admission: a slot of the gateway, a slot of its
    provider, its key ([AuthorizeApiKey], ApiKeys), a slot of the key
    (ConnTracker), and the billing gate (BillingMiddleware), which prices it
    (Pricing) and holds the price on the key's ledger (KeyBilling); the handler
    reserves an account
    (AccountReservation over LoadBalancer, Account, AccountPolicy and
    ConnTracker), calls upstream, classifies a failure (UpstreamErrors), applies
    the policy's verdict to the account (AccountPolicy), waits or switches
    (RequestAttempts, RetryWait) and persists the account (AccountMerge in
    AccountStore over AccountCodec and Redis), which publishes the change
    (AccountChanges) that invalidates the pool's snapshot (LoadBalancer).  A Grok
    request leaves through an exit chosen by EgressPool among those EgressNodes
    has loaded, by preference the one EgressAssign bound its account to.  What
    the upstream sends is translated into the client's answer (StreamHandler over
    SseFrame, OpenAISSE, Tokens and AppErrors).  The
    finished request settles its price through the outbox (BillingLedger) into
    the ledger (KeyBilling).

    ** Files, in dependency order, and what they correspond to under
    src/internal/

    - Prelude: Go's machine integers, byte strings, times, errors and record
      update; the shared tactics ([to_prop], [zcases], [time_prop]) and hints.
    - GoFloat: [float64] over the core library's executable binary64.
    - UpstreamErrors: errors/*.go.  Error texts to status, category, client
      status and client text; the regular expressions are executable matchers.
    - Channel: channel/channel.go.  Channels, prefixes, path parsing.
    - Account: store/store.go, quota_snapshots.go, account_cooldown.go, ...  The
      account row with its snapshots and cooldowns.
    - AccountPolicy: accountpolicy/*.go.  [Classify], [Apply], [AccountHeld].
    - AccountMerge: store/account_merge.go, credential_patch.go,
      account_quality.go.  The partial-update merge and the narrow mutations.
    - Redis: the server as a class ([Redis], [RedisLaws]) with an in-memory
      instance.
    - AccountCodec: store/credential_cipher.go, over classes for AES-GCM, base64
      and JSON.
    - AccountStore: store/redis_store.go.  Row operations; the optimistic update
      loop as a step relation over any number of writers.
    - AccountChanges: store/account_changes.go.
    - RetryWait: config/inference_limits.go, handler/refusal_wait.go,
      util/retry_wait.go, upstream/attempt_budget.go.
    - ConnTracker: loadbalancer/conn_tracker.go, conn_counts.go.  The interface
      (class), [Memory] (interleaved atomics) and [Leases] (Redis scripts).
    - KeySlots: what the key gate relies on of a tracker ([KeySlots]): the slots
      this process holds and those taken in all.  Any tracker that counts exactly
      has it ([exact_KeySlots]), and so has the Redis tracker, whichever of its
      calls fail, while the leases held are renewed in time ([Shared.slots]).
    - LoadBalancer: loadbalancer/loadbalancer.go, in a state monad with a heap of
      account pointers, against the classes [PoolStore] and [ConnTracker].
    - AccountReservation: handler/account_selection.go,
      provider/capabilities.go, against [SlotLaws] of a tracker.
    - RequestAttempts: handler/request_attempts.go, turn by turn.
    - Pricing: pricing/pricing.go, media.go.
    - KeyBilling: billingledger/event.go, the billing scripts of
      store/redis_scripts.go and their callers in store/redis_api_keys.go.
    - BillingLedger: billingledger/outbox.go, alone and as a system over the
      ledgers of all keys with crashes.
    - BillingMiddleware: middleware/billing.go, and the ledger of a key under all
      its requests.
    - ApiKeys: store/redis_api_keys.go, store_api_keys.go, api_key_secrets.go and
      the row scripts of store/redis_scripts.go.  A call is a sequence of Redis
      commands; before each, an arbitrary function [other] acts on the world.
    - ApiKeysCorrect: a small program logic for such calls ([post] with its
      rules) and the theorems of ApiKeys.
    - Interleaving: programs made of atomic actions, their interleavings, and a
      program logic in which a request carries a ticket of what it holds; its
      [adequacy] makes an invariant of every interleaving out of a proof about
      one request.
    - Admission: cmd/server/routes.go, middleware/session.go, concurrency.go,
      provider_admission.go, flow.go.  [inferenceAuth] composes the gates as each
      route does: limiter, provider counters and tracker are shared by the routes,
      the counters of keys kept without a tracker are each route's own; what the
      code guards by a mutex or does in one atomic
      operation is one action.
    - AdmissionCorrect: the ticket and the invariant of each gate, the sequential
      specification [fate_of], and the theorems.
    - RefreshQueue: refreshqueue/credentials.go, refreshqueue.go.  The gate of each
      credential with its users and token, and the leases of account checks, over
      Interleaving; [gates_ok] is the invariant, [wp_AcquireCredential] and
      [wp_release] are the rules for a client of the gate.

    - EgressNodes: store/grok_egress.go, grok/egressnodes/registry.go, runtime.go.
      The records of the Grok exits, the store's tables with their version
      counter, the snapshot built from them, and instances whose reloads are five
      separate reads ([cluster_step]).
    - EgressAssign: grok/egressnodes/assign.go.  [Rebalance] over whole tables and
      [AutoBind] at request time with the goroutines that save its choices
      ([binder_step], each step labelled with the accounts it lost sight of).
    - EgressPool: grok/egresspool/*.go.  Health scores as binary64, cooldowns,
      recovery probes, [Pick], and the health entries kept over a restart.
    - AccountUnique: store/account_unique.go.  The optimistic creation as a step
      relation whose steps are single commands ([own_step]), among any transactions
      of other clients ([create_step]).

    - Json: UTF-8 as Go decodes it, JSON values with a printer (as
      [json.Marshal]) and a parser, and [parse_encode], that one undoes the other.
    - SseFrame, SseFrameCorrect: handler/sse_frame.go.  The payloads of the
      Anthropic events and the word-at-a-time string encoder, against [quoted].
    - Tokens: tiktoken/tokenizer.go.
    - OpenAISSE, OpenAISSECorrect: adapter/openai_sse.go.  The chat-completion
      chunk of an event's payload, by marker scan or by decoding.
    - AppErrors: errors/errors.go.
    - StreamHandler: handler/stream_*.go, response_projection.go and
      request_completion.go.  The handler's fields as a record with the wire
      ([wire]) and the connection ([io_left], the writes and flushes left in it);
      [lock] is the mutex, where the keep-alives of [sched] run first; [run_op]
      is what the request's goroutine does with the handler.
    - ProviderStream: util/toolstream.go, upstream/emit.go, tool_deltas.go.  The
      lines of a response body ([scan_body]), decoding into Go values, the
      accumulator that puts tool calls together ([Add], [CompleteAll]) and the
      events every provider reports ([sink]).
    - WorkBuddyStream: workbuddy/stream.go, the typed errors of auth.go and the
      response side of client.go.  [consumeStream] line by line.
    - WorkBuddyRestriction: workbuddy/restriction.go and the gate in client.go.
    - ClineSplitter: the thinking splitter of cline/stream.go, with the split of a
      whole text as its reference ([split_think]).
    - ClineCalls: the calls a list of chunks means, followed fragment by fragment
      and closing by closing ([call_groups]), and what a repair changes of one
      ([repair]); the accumulator keeps to it ([kept_complete]).
    - ClineStream: cline/stream.go and control_tool_recovery.go.
    - ClineCall: [runChat] and [attemptChat] of cline/client.go, the refusals and
      repairs of request.go, the inference cap of auth.go.
    - StreamProtocol: the client of a stream as an automaton over events
      ([client_step]), their rendering on the wire ([render_log]) and a reader
      of server-sent events ([read_stream]).
    - StreamQuiet: what every operation keeps of the connection ([keeper]).
    - StreamCorrect, StreamBlocks, StreamEnd: the invariant [live] of a stream,
      one lemma per operation, and the run of a request ([request_stands]).
    - StreamAnswer, WholeAnswer: the theorems of streamed and of whole answers.

    Definitions keep the Go names where they can; a prefix marks record fields
    whose names recur ([r_] of a key row, [k_] of a key, [l_] of a ledger).

    ** What the theorems show

    - Concurrency.  Updates of account rows and of key rows are atomic under any
      interleaving and lost replies ([updates_are_atomic],
      [mutation_is_atomic]); connection slots and leases never exceed their
      limit ([slots_never_exceed_limit], [leases_within_limit]); attempt budgets
      hold ([attempt_budget_holds]).
    - Admission.  Whatever requests run side by side, slots, handlers at work and
      keys stay within their limits ([admission_limits_hold],
      [handlers_within_limits]), everything taken is given back
      ([admission_is_returned]), and one request alone does what the
      specification says ([lone_request_meets_its_fate], [key_verdicts]).
    - Refreshes.  One request at a time is behind the gate of a credential
      ([credential_gate_excludes]), one check of an account runs
      ([one_check_per_account]).
    - Selection.  What is handed out is fit, least loaded, and found whenever it
      exists ([selected_account_is_admissible], [selection_is_least_loaded],
      [suitable_account_is_reached], [empty_pool_reason],
      [invalidation_forces_a_read]).
    - The request.  It ends, and gives back its slot
      ([request_ends_and_returns_its_slot], [reservation_ends_with_its_slot]);
      a request-specific refusal does not walk the pool
      ([identical_refusal_stops_the_walk]).
    - The answer.  A stream is one its client can follow, whatever happens
      ([stream_follows_protocol]); it ends, and as recorded
      ([stream_outcome_is_recorded]); its text is the upstream's
      ([stream_delivers_text], [whole_answer_text]); its bytes read back as its
      events ([client_reads_the_stream], [payload_reads_back],
      [openai_chunk_of_event], [appendJSONBytes_is_Marshal]); estimates do not
      depend on how it is cut ([estimate_ignores_fragments]).
    - The providers.  What is reported of an upstream's answer is the answer, whole
      and once ([workbuddy_answer_is_whole], [whole_answer_is_accepted],
      [cline_text_is_the_content], [splitter_ignores_fragments]); a call ends, sends
      nothing again once the client has seen an event, and repairs one field of a
      refused request ([cline_call_is_sent_once],
      [repaired_request_differs_in_one_field]); a cap's wait is read as shown
      ([shown_wait_is_read_back]); a restricted account is left alone
      ([restricted_account_is_left_alone]).
    - The account.  Verdicts are coherent and hold as long as they should
      ([Classify_coherent], [AccountHeld_window]); merges lose nothing newer
      ([restriction_survives_updates], [stale_merge_never_rewinds]); rows, index
      sets, ciphertexts and codec agree ([index_sets_follow_rows],
      [account_codec_roundtrip], [no_credential_in_clear]).
    - The client key.  [authorization_is_current], [valid_secret_is_admitted],
      [rotated_secret_is_refused], [rotated_secret_is_recoverable],
      [keys_stay_consistent], [minute_limit_holds], [one_reset_per_period].
    - Money.  The reservation covers the settlement
      ([reservation_covers_settlement]), is granted by the rule
      ([reserve_refines_spec]) before the handler runs
      ([gate_holds_before_the_handler]), ends once
      ([hold_is_released_or_settled]), is charged once
      ([settled_exactly_once], [no_settlement_lost],
      [restart_reloads_the_outbox], [replay_drains_the_outbox]) and never
      overspends the key ([spending_stays_within_limit]).
    - The exits of Grok.  Instances route by what the store holds
      ([instance_routes_by_the_store]); accounts are spread within capacities,
      evenly, and stay where they are ([rebalance_places_accounts],
      [rebalance_is_stable], [autobind_respects_capacity]); a request leaves
      through an exit of its scope that is not kept out, one a probe brought back,
      or by the configured fallback only ([pick_fails_closed]); a failed exit comes back ([exclusion_is_bounded]) and
      its record survives a restart ([health_survives_restart]).
    - Uniqueness.  No unique creation makes two accounts match, whatever other
      clients do in between ([accounts_stay_unique]).
    - Behaviour that departs from its comments is stated as lemmas that hold,
      such as [stale_snapshot_rewinds_grok_oauth],
      [full_window_hides_idle_account], [other_case_passes_unheld],
      [strict_stream_is_not_checked], [status_after_the_opening],
      [media_result_changes_the_price], [stale_update_reenables_a_key],
      [refused_settlement_blocks_admission],
      [tolerated_failure_starts_cooldown_later], [binding_change_goes_unnoticed],
      [stale_choice_exceeds_capacity], [unlisted_scope_is_dropped],
      [failed_reload_exceeds_capacity], [key_limit_is_per_route],
      [refusal_is_lost] and [overflow_drops_text].

    ** Bounds and fuel

    Go's [int] and [int64] wrap at 64 bits ([i64]); instants and durations are
    nanoseconds, durations saturating where Go's do.  Loops that are not
    structural carry fuel with a theorem that it is enough: the reservation loop
    9(n+1) turns over n account ids, the request loop retries + 1 turns, account
    updates and creations 32 attempts and key mutations 8 (the code's own bounds),
    the balancing loop of an assignment its own ten thousand rounds, enough for as
    many accounts in a scope because no account moves twice ([moves_suffice]), a Cline
    call five attempts (one refresh and one repair of each kind), the thinking
    splitter and the parser of a repaired call one step per byte, the status
    scan, the string encoder and the JSON parser one step per byte.  Lua numbers are doubles printed with 14 digits, so
    ledger theorems assume ticks below 10^14 or 2^53 as they state.

    ** What is not modelled, and why

    - One clock reading per operation; ASCII case mapping and space;
      [reflect.DeepEqual], SHA-256, [%q], time parsing and Lua's re-encoding of
      integers are parameters, with the laws a theorem needs as hypotheses.
    - JSON syntax, base64, AES-GCM, the Redis server and its client are classes or
      structured states with their documented laws; map iteration order is
      arbitrary wherever it shows.
    - Admission: the weighted semaphore (golang.org/x/sync) is a class with its
      laws; the handler is any program over the store; the usage samples of the
      flow tracker, deadlines running out and the admin session gate are left
      out.  The limits theorems take any tracker that keeps [KeySlots]: for Redis,
      a process not shut down whose leases are alive; what becomes of leases that
      do expire is the subject of ConnTracker.  The reservation and request loop
      take a tracker whose counts are exact ([SlotLaws]), as the one in memory.
    - StreamHandler: the upstream's calls to the handler come one at a time, as
      its callers make them; only keep-alives interleave, at every acquisition of
      the mutex.  Write deadlines, buffer reuse and logs are left out; encoding
      the whole answer's JSON is one write of the value.
    - The exits: whether a proxy address is valid and what address a running
      tunnel has are parameters ([ValidateProxyURL], [tunnelRoutable]), so are the
      order in which Go visits the node index ([visit]) and the HTTP answer of a
      probe; sources, subscriptions, probe jobs and the tunnels themselves are left
      out.  In AccountUnique the caller's identity rule is a parameter ([same]).
    - RefreshQueue: the grants made behind the gate are not modelled, and a request
      releases its gate once, as its callers do.  The owner's type and address are
      the strings they print as.
    - LoadBalancer runs one request at a time (its mutexes); the provider client
      cache, logs, metrics and contexts other than their cancellation are left
      out.
    - The providers' streams: the identifiers and signatures minted, the text of a
      decoding error and the rendering of a time are parameters; so are, in
      ClineCall, what the upstream answers to each request, the credentials at
      hand then and the outcome of a refresh.  Idle cut-offs are connections that
      break ([body]).  Of a credential only its two tokens are kept.
    - Building the providers' requests, their logins, quota and
      catalogs; protocol translation of grok, responses and chatwire, the HTTP and admin handlers, the grants and schedulers of the token
      refreshers, the metrics
      and tooling packages and the web console: I/O and wire formats around the
      parts above, listed component by component in the manifest. *)

From Stdlib Require Export ZArith Lia Bool.
From Stdlib Require Import Ascii.
From stdpp Require Export base tactics numbers list gmap strings pretty sorting.

#[global] Set Default Goal Selector "!".
#[global] Set Warnings "-clear-no-such-hyp".

(** ** Scope, hint databases and tactics *)

Declare Scope go_scope.
Delimit Scope go_scope with go.

Create Rewrite HintDb gotime.
Create Rewrite HintDb gostr.

(** Case analysis on every [if] and [match] of the goal, closing the branches
    that are immediate. *)
Ltac destr_all :=
  repeat (case_match; simplify_eq/=); try done.

(** Turn boolean tests in the hypotheses into propositions. *)
Ltac to_prop :=
  repeat match goal with
  | H : (_ && _) = true |- _ => apply andb_true_iff in H as [? ?]
  | H : (_ && _) = false |- _ => apply andb_false_iff in H
  | H : (_ || _) = true |- _ => apply orb_true_iff in H
  | H : (_ || _) = false |- _ => apply orb_false_iff in H as [? ?]
  | H : negb _ = true |- _ => apply negb_true_iff in H
  | H : negb _ = false |- _ => apply negb_false_iff in H
  | H : (_ =? _)%Z = true |- _ => apply Z.eqb_eq in H
  | H : (_ =? _)%Z = false |- _ => apply Z.eqb_neq in H
  | H : (_ <? _)%Z = true |- _ => apply Z.ltb_lt in H
  | H : (_ <? _)%Z = false |- _ => apply Z.ltb_ge in H
  | H : (_ <=? _)%Z = true |- _ => apply Z.leb_le in H
  | H : (_ <=? _)%Z = false |- _ => apply Z.leb_gt in H
  | H : String.eqb _ _ = true |- _ => apply String.eqb_eq in H
  | H : String.eqb _ _ = false |- _ => apply String.eqb_neq in H
  | H : bool_decide _ = true |- _ => apply bool_decide_eq_true_1 in H
  | H : bool_decide _ = false |- _ => apply bool_decide_eq_false_1 in H
  end.

(** Case analysis on the boolean tests followed by linear arithmetic. *)
Ltac zcases := repeat case_match; to_prop; simplify_eq/=; try lia.

(** Prove a closed decidable proposition by evaluation. *)
Ltac closed_decide := apply (bool_decide_unpack _); vm_compute; exact I.

(** ** Record update

    [r <| f := v |>] is the struct assignment [r.f = v].  [Eta] rebuilds a
    record from its projections; the setter of a field is obtained from it by
    abstracting that projection. *)

Class Eta (R : Type) := eta : R -> R.
#[global] Hint Mode Eta ! : typeclass_instances.

Class Updater {R T : Type} (f : R -> T) := update_with : (T -> T) -> R -> R.
#[global] Hint Mode Updater - - ! : typeclass_instances.

Ltac build_updater :=
  match goal with
  | |- @Updater ?R ?T ?f =>
    let g := constr:(ltac:(
      let u := fresh "u" in let r := fresh "r" in intros u r;
      let e := constr:(_ : Eta R) in
      let body := eval hnf in e in
      let t := eval cbv beta in (body r) in
      match eval pattern (f r) in t with
      | ?h _ => let v := eval cbv beta in (h (u (f r))) in exact v
      end) : (T -> T) -> R -> R) in
    exact g
  end.

#[export] Hint Extern 0 (Updater _) => build_updater : typeclass_instances.

Definition set_field {R T} (f : R -> T) {U : Updater f} (v : T) (r : R) : R :=
  update_with (f := f) (fun _ => v) r.
Arguments set_field {R T} f {U} v r /.
Arguments update_with {R T} f {Updater} _ _ /.

Notation "r <| f := v |>" := (set_field f v r)
  (at level 1, f at level 200, v at level 200, left associativity,
   format "r  <| f  :=  v |>") : go_scope.
#[global] Open Scope go_scope.

#[global] Open Scope Z_scope.

(** ** Machine integers

    [int] and [int64] are two's complement 64 bit numbers, [uint64] is taken
    modulo [2^64]. *)

Definition max_int64 : Z := 9223372036854775807.
Definition min_int64 : Z := -9223372036854775808.
Definition i64 (z : Z) : Z := (z + 2^63) mod 2^64 - 2^63.
Definition u64 (z : Z) : Z := z mod 2^64.
Definition in_i64 (z : Z) : Prop := min_int64 <= z <= max_int64.

Lemma i64_range z : in_i64 (i64 z).
Proof.
  unfold in_i64, i64, min_int64, max_int64.
  pose proof (Z.mod_pos_bound (z + 2^63) (2^64) ltac:(lia)). lia.
Qed.

Lemma i64_small z : in_i64 z -> i64 z = z.
Proof.
  unfold in_i64, i64, min_int64, max_int64. intros.
  rewrite Z.mod_small by lia. lia.
Qed.

Lemma i64_add_l a b : i64 (i64 a + b) = i64 (a + b).
Proof.
  unfold i64. replace ((a + 2^63) mod 2^64 - 2^63 + b + 2^63) with ((a + 2^63) mod 2^64 + b) by lia.
  rewrite Z.add_mod_idemp_l by lia. do 2 f_equal. lia.
Qed.

Lemma i64_add_r a b : i64 (a + i64 b) = i64 (a + b).
Proof. by rewrite Z.add_comm, i64_add_l, Z.add_comm. Qed.

Lemma i64_add_inner a b c : i64 (i64 a + i64 b + c) = i64 (a + b + c).
Proof. rewrite <- Z.add_assoc, i64_add_l, Z.add_assoc, (Z.add_comm a), <- Z.add_assoc, i64_add_l. f_equal. lia. Qed.

Lemma u64_range z : 0 <= u64 z < 2^64.
Proof. apply Z.mod_pos_bound. lia. Qed.

Lemma u64_small z : 0 <= z < 2^64 -> u64 z = z.
Proof. intros. by apply Z.mod_small. Qed.

Definition one_if (b : bool) : Z := if b then 1 else 0.

(** ** Strings

    A Go [string] is a byte string.  Case mapping and white space are those of
    the ASCII range; bytes above 127 are left alone.  (Go's Unicode tables
    differ only on strings holding U+0130, U+212A or U+017F, or trimmed at a
    non-ASCII blank; no text the program compares against holds one.) *)

Definition to_lower_byte (c : ascii) : ascii :=
  let n := N_of_ascii c in
  if (65 <=? n)%N && (n <=? 90)%N then ascii_of_N (n + 32) else c.

Fixpoint ToLower (s : string) : string :=
  match s with
  | EmptyString => EmptyString
  | String c s' => String (to_lower_byte c) (ToLower s')
  end.

Definition EqualFold (a b : string) : bool := String.eqb (ToLower a) (ToLower b).

Definition is_space (c : ascii) : bool :=
  let n := N_of_ascii c in (n =? 32)%N || ((9 <=? n)%N && (n <=? 13)%N).

Fixpoint TrimLeft (s : string) : string :=
  match s with
  | EmptyString => EmptyString
  | String c s' => if is_space c then TrimLeft s' else s
  end.

Fixpoint TrimRight (s : string) : string :=
  match s with
  | EmptyString => EmptyString
  | String c s' =>
      match TrimRight s' with
      | EmptyString => if is_space c then EmptyString else String c EmptyString
      | t => String c t
      end
  end.

Definition TrimSpace (s : string) : string := TrimRight (TrimLeft s).

Fixpoint HasPrefix (s p : string) {struct p} : bool :=
  match p, s with
  | EmptyString, _ => true
  | String a p', String b s' => Ascii.eqb a b && HasPrefix s' p'
  | String _ _, EmptyString => false
  end.

Fixpoint drop_bytes (n : nat) (s : string) : string :=
  match n, s with
  | S n', String _ s' => drop_bytes n' s'
  | _, _ => s
  end.

Fixpoint contains (s p : string) : bool :=
  HasPrefix s p ||
  match s with
  | EmptyString => false
  | String _ s' => contains s' p
  end.

Fixpoint HasSuffix (s p : string) : bool :=
  String.eqb s p ||
  match s with
  | EmptyString => false
  | String _ s' => HasSuffix s' p
  end.

(** [strings.Index]: the first position at which [p] occurs. *)
Fixpoint Index (s p : string) : option nat :=
  if HasPrefix s p then Some 0%nat else
  match s with
  | EmptyString => None
  | String _ s' => S <$> Index s' p
  end.

(** [strings.ReplaceAll] for a non-empty [old]; [skip] counts the bytes of a
    match that are still to be dropped. *)
Fixpoint replace_go (skip : nat) (s old new : string) : string :=
  match s with
  | EmptyString => EmptyString
  | String c s' =>
      match skip with
      | S k => replace_go k s' old new
      | O => if HasPrefix s old
             then String.append new (replace_go (pred (String.length old)) s' old new)
             else String c (replace_go 0 s' old new)
      end
  end.
Definition ReplaceAll (s old new : string) : string := replace_go 0 s old new.

Definition is_empty (s : string) : bool := String.eqb s EmptyString.

Lemma is_empty_true s : is_empty s = true <-> s = ""%string.
Proof. apply String.eqb_eq. Qed.

Lemma is_empty_false s : is_empty s = false <-> s <> ""%string.
Proof. apply String.eqb_neq. Qed.

(** Membership of a string in a literal list, as a boolean. *)
Definition str_in (s : string) (l : list string) : bool := existsb (String.eqb s) l.

Lemma str_in_elem s l : str_in s l = true <-> s ∈ l.
Proof.
  unfold str_in. rewrite existsb_exists, list_elem_of_In. split.
  - intros (x & Hx & ->%String.eqb_eq). done.
  - intros H. exists s. split; [done|]. apply String.eqb_refl.
Qed.

Lemma to_lower_byte_idemp c : to_lower_byte (to_lower_byte c) = to_lower_byte c.
Proof. by destruct c as [[] [] [] [] [] [] [] []]. Qed.

Lemma ToLower_idemp s : ToLower (ToLower s) = ToLower s.
Proof. induction s as [|c s IH]; [done|]. simpl. by rewrite to_lower_byte_idemp, IH. Qed.

Lemma is_space_lower c : is_space (to_lower_byte c) = is_space c.
Proof. by destruct c as [[] [] [] [] [] [] [] []]. Qed.

Lemma TrimLeft_lower s : TrimLeft (ToLower s) = ToLower (TrimLeft s).
Proof.
  induction s as [|c s IH]; [done|]. simpl. rewrite is_space_lower.
  by destruct (is_space c).
Qed.

Lemma TrimRight_lower s : TrimRight (ToLower s) = ToLower (TrimRight s).
Proof.
  induction s as [|c s IH]; [done|]. simpl. rewrite IH, is_space_lower.
  destruct (TrimRight s); [|done]. by destruct (is_space c).
Qed.

Lemma TrimSpace_lower s : TrimSpace (ToLower s) = ToLower (TrimSpace s).
Proof. unfold TrimSpace. by rewrite TrimLeft_lower, TrimRight_lower. Qed.

Lemma TrimRight_idemp s : TrimRight (TrimRight s) = TrimRight s.
Proof.
  induction s as [|c s IH]; [done|]. simpl.
  destruct (TrimRight s) as [|d t] eqn:E.
  - destruct (is_space c) eqn:Es; [done|]. simpl. by rewrite Es.
  - simpl in *. rewrite IH. done.
Qed.

(** The first byte of a left-trimmed string is not a blank. *)
Lemma TrimLeft_head s c t : TrimLeft s = String c t -> is_space c = false.
Proof.
  induction s as [|d s IH]; simpl; [done|].
  destruct (is_space d) eqn:E; [done|]. by intros [= -> ->].
Qed.

Lemma TrimRight_head c s :
  is_space c = false -> exists t, TrimRight (String c s) = String c t.
Proof. intros H. simpl. destruct (TrimRight s); [rewrite H|]; eauto. Qed.

Lemma TrimSpace_idemp s : TrimSpace (TrimSpace s) = TrimSpace s.
Proof.
  unfold TrimSpace. destruct (TrimLeft s) as [|c t] eqn:E; [done|].
  pose proof (TrimLeft_head _ _ _ E) as Hc.
  destruct (TrimRight_head c t Hc) as [u Hu]. rewrite Hu.
  assert (TrimLeft (String c u) = String c u) as -> by (simpl; by rewrite Hc).
  rewrite <- Hu. apply TrimRight_idemp.
Qed.

Lemma sapp_cons c (a b : string) : String c a +:+ b = String c (a +:+ b).
Proof. done. Qed.

Lemma sapp_assoc (a b c : string) : (a +:+ b) +:+ c = a +:+ b +:+ c.
Proof. induction a as [|x a IH]; [done|]. by rewrite !sapp_cons, IH. Qed.

#[export] Hint Rewrite ToLower_idemp TrimSpace_lower TrimSpace_idemp : gostr.

Lemma HasPrefix_refl s : HasPrefix s s = true.
Proof. induction s as [|c s IH]; [done|]. simpl. by rewrite Ascii.eqb_refl. Qed.

Lemma HasPrefix_spec s p :
  HasPrefix s p = true <-> exists t, s = (p +:+ t)%string.
Proof.
  revert s. induction p as [|c p IH]; intros s.
  - split; [intros _; by exists s | by destruct s].
  - destruct s as [|d s]; simpl.
    + split; [done|]. by intros [t [=]].
    + rewrite andb_true_iff, Ascii.eqb_eq, IH. split.
      * intros [-> [t ->]]. by exists t.
      * intros [t [= -> ->]]. split; [done|]. by exists t.
Qed.

Lemma HasPrefix_app_self p s : HasPrefix (p +:+ s) p = true.
Proof. apply HasPrefix_spec. by exists s. Qed.

Lemma drop_bytes_app p s : drop_bytes (String.length p) (p +:+ s) = s.
Proof. induction p as [|c p IH]; [by destruct s|]. apply IH. Qed.

Lemma sapp_nil_r s : s +:+ "" = s.
Proof. induction s as [|c s IH]; [done|]. by rewrite sapp_cons, IH. Qed.

Lemma eqb_sapp p a b : String.eqb (p +:+ a) (p +:+ b) = String.eqb a b.
Proof. induction p as [|c p IH]; [done|]. rewrite !sapp_cons. cbn. by rewrite Ascii.eqb_refl. Qed.

Lemma HasPrefix_sapp p a b : HasPrefix (p +:+ a) (p +:+ b) = HasPrefix a b.
Proof. induction p as [|c p IH]; [done|]. rewrite !sapp_cons. cbn. by rewrite Ascii.eqb_refl. Qed.

Lemma HasPrefix_app s p t : HasPrefix s p = true -> HasPrefix (s +:+ t) p = true.
Proof. rewrite !HasPrefix_spec. intros [u ->]. exists (u +:+ t). by rewrite sapp_assoc. Qed.

Lemma contains_spec s p :
  contains s p = true <-> exists a b, s = (a +:+ p +:+ b)%string.
Proof.
  induction s as [|c s IH]; cbn [contains].
  - rewrite orb_true_iff, HasPrefix_spec. split.
    + intros [[t H]|]; [|done]. exists ""%string, t. done.
    + intros (a & b & H). left. destruct a; [|done]. by exists b.
  - rewrite orb_true_iff, HasPrefix_spec, IH. split.
    + intros [[t H]|(a & b & ->)].
      * exists ""%string, t. done.
      * by exists (String c a), b.
    + intros (a & b & H). destruct a as [|d a].
      * left. by exists b.
      * right. injection H as -> ->. by exists a, b.
Qed.

Lemma contains_app_l a s p : contains s p = true -> contains (a +:+ s) p = true.
Proof.
  rewrite !contains_spec. intros (x & y & ->). exists (a +:+ x), y. by rewrite sapp_assoc.
Qed.

Lemma contains_app_r a s p : contains a p = true -> contains (a +:+ s) p = true.
Proof.
  rewrite !contains_spec. intros (x & y & ->). exists x, (y +:+ s).
  by rewrite !sapp_assoc.
Qed.

(** Decimal rendering of [fmt.Sprintf("%d", n)]. *)
Definition Itoa (n : Z) : string := pretty n.

(** ** Time

    An instant is the number of nanoseconds since January 1, year 1 UTC, so the
    zero [time.Time] is [0]; a duration is an [int64] number of nanoseconds.
    Every operation of the development reads the clock once and takes that
    instant as the argument [now]. *)

Abbreviation instant := Z (only parsing).
Abbreviation duration := Z (only parsing).

Definition Nanosecond : duration := 1.
Definition Millisecond : duration := 1000000.
Definition Second : duration := 1000000000.
Definition Minute : duration := 60000000000.
Definition Hour : duration := 3600000000000.

Module Time.
Definition zero : instant := 0.
Definition IsZero (t : instant) : bool := t =? 0.
Definition After (t u : instant) : bool := u <? t.
Definition Before (t u : instant) : bool := t <? u.
Definition Equal (t u : instant) : bool := t =? u.
Definition Add (t : instant) (d : duration) : instant := t + d.
(** [Sub] saturates at the range of [time.Duration]. *)
Definition Sub (t u : instant) : duration := Z.max min_int64 (Z.min max_int64 (t - u)).
(** Seconds between the zero time and January 1, 1970 UTC. *)
Definition epoch : Z := 62135596800.
(** Seconds since January 1, 1970 UTC, and the instant of such a second
    ([time.Unix]; the internal count of seconds wraps). *)
Definition Unix (t : instant) : Z := t / Second - epoch.
Definition FromUnix (seconds : Z) : instant := i64 (seconds + epoch) * Second.
(** Milliseconds since January 1, 1970 UTC. *)
Definition UnixMilli (t : instant) : Z := (t - 62135596800 * Second) / Millisecond.

Lemma After_true t u : After t u = true <-> u < t.
Proof. apply Z.ltb_lt. Qed.
Lemma After_false t u : After t u = false <-> t <= u.
Proof. apply Z.ltb_ge. Qed.
Lemma Before_true t u : Before t u = true <-> t < u.
Proof. apply Z.ltb_lt. Qed.
Lemma Before_false t u : Before t u = false <-> u <= t.
Proof. apply Z.ltb_ge. Qed.
Lemma IsZero_true t : IsZero t = true <-> t = 0.
Proof. apply Z.eqb_eq. Qed.
Lemma IsZero_false t : IsZero t = false <-> t <> 0.
Proof. apply Z.eqb_neq. Qed.

Lemma Sub_ge t u d : 0 <= d <= max_int64 -> (d <= Sub t u <-> d <= t - u).
Proof. unfold Sub, max_int64, min_int64. lia. Qed.
End Time.

#[export] Hint Rewrite Time.After_true Time.After_false Time.Before_true
  Time.Before_false Time.IsZero_true Time.IsZero_false : gotime.

(** Turn instant comparisons into inequalities, in the hypotheses and the goal. *)
Ltac time_prop :=
  unfold Time.After, Time.Before, Time.IsZero, Time.Equal, Time.Add, Time.zero in *;
  to_prop.

(** ** Errors

    A Go [error]: its text and, when some error of its chain implements
    [RetryAfter() time.Duration], the hint it returns. *)
Record go_error := mkErr { err_text : string; err_retry_after : option duration }.

Definition Errorf (msg : string) : go_error := mkErr msg None.

(** [store.ErrNoRows]. *)
Definition ErrNoRows : go_error := Errorf "no rows in result set".

#[export] Instance go_error_eq_dec : EqDecision go_error.
Proof. solve_decision. Defined.

Definition newline : string := String (ascii_of_N 10) "".

(** [errors.Join]: nil when every error is nil, else the texts on their own
    lines. *)
Definition errors_Join (errs : list (option go_error)) : option go_error :=
  match omap id errs with
  | [] => None
  | e :: rest => Some (Errorf (foldl (fun t e => t +:+ newline +:+ err_text e) (err_text e) rest))
  end.

(** The first [n] bytes. *)
Fixpoint take_bytes (n : nat) (s : string) : string :=
  match n, s with
  | S n', String c s' => String c (take_bytes n' s')
  | _, _ => EmptyString
  end.

Lemma take_bytes_app a b : take_bytes (String.length a) (a +:+ b) = a.
Proof. induction a as [|c a IH]; [by destruct b|]. rewrite sapp_cons. cbn. by rewrite IH. Qed.

Lemma string_length_app a b : String.length (a +:+ b) = (String.length a + String.length b)%nat.
Proof. induction a as [|c a IH]; [done|]. rewrite sapp_cons. cbn. by rewrite IH. Qed.

(** ** Suffixes of a string *)

Lemma drop_bytes_add n m s : drop_bytes (n + m) s = drop_bytes m (drop_bytes n s).
Proof.
  revert s. induction n as [|n IH]; intros s; [done|].
  destruct s as [|c s]; [by destruct m|]. apply IH.
Qed.

Lemma drop_bytes_length n s : String.length (drop_bytes n s) = (String.length s - n)%nat.
Proof.
  revert s. induction n as [|n IH]; intros s; [by destruct s|].
  destruct s as [|c s]; [done|]. apply IH.
Qed.

Lemma drop_bytes_nil n s : (String.length s <= n)%nat -> drop_bytes n s = ""%string.
Proof.
  intros H. pose proof (drop_bytes_length n s).
  destruct (drop_bytes n s); [done|]. simpl in *. lia.
Qed.

(** ** Replacing does not destroy a text that shares no byte with the pattern *)

Definition has_byte (c : ascii) (s : string) : bool :=
  existsb (Ascii.eqb c) (String.list_ascii_of_string s).

Lemma has_byte_cons c d s : has_byte c (String d s) = Ascii.eqb c d || has_byte c s.
Proof. done. Qed.

Definition byte_disjoint (p old : string) : bool :=
  forallb (fun c => negb (has_byte c old)) (String.list_ascii_of_string p).

Lemma replace_emits p old new s :
  old <> ""%string -> byte_disjoint p old = true ->
  HasPrefix s p = true -> HasPrefix (replace_go 0 s old new) p = true.
Proof.
  intros Hold. revert s. induction p as [|c p IH]; intros s Hd Hp; [done|].
  destruct s as [|d s]; [done|]. cbn in Hd, Hp.
  apply andb_true_iff in Hd as [Hc Hd]. apply andb_true_iff in Hp as [->%Ascii.eqb_eq Hp].
  cbn [replace_go]. destruct old as [|o old]; [done|].
  assert (Ascii.eqb o d = false) as Ho.
  { apply negb_true_iff in Hc. cbn in Hc. apply orb_false_iff in Hc as [Hc _].
    rewrite Ascii.eqb_sym. exact Hc. }
  cbn [HasPrefix]. rewrite Ho. cbn. rewrite Ascii.eqb_refl. by apply IH.
Qed.

(** The next [skip] bytes of [s] are bytes of [old]. *)
Definition pending (skip : nat) (s old : string) : Prop :=
  exists u, String.length u = skip /\ HasPrefix s u = true
            /\ forall c, has_byte c u = true -> has_byte c old = true.

Lemma pending_0 s old : pending 0 s old.
Proof. by exists ""%string. Qed.

Lemma pending_S skip c s old :
  pending (S skip) (String c s) old -> pending skip s old /\ has_byte c old = true.
Proof.
  intros (u & Hl & Hp & Hb). destruct u as [|d u]; [done|]. cbn in Hl, Hp.
  apply andb_true_iff in Hp as [->%Ascii.eqb_eq Hp]. split.
  - exists u. split; [lia|]. split; [done|]. intros e He. apply Hb.
    unfold has_byte in *. cbn. rewrite He. by rewrite orb_true_r.
  - apply Hb. unfold has_byte. cbn. by rewrite Ascii.eqb_refl.
Qed.

Lemma replace_keeps p old new skip s :
  old <> ""%string -> p <> ""%string -> byte_disjoint p old = true -> pending skip s old ->
  contains s p = true -> contains (replace_go skip s old new) p = true.
Proof.
  intros Hold Hp Hd. revert skip. induction s as [|c s IH]; intros skip Hpend Hc.
  - cbn in Hc. by destruct p.
  - cbn [contains] in Hc. apply orb_true_iff in Hc as [Hc|Hc].
    + destruct skip as [|skip].
      * pose proof (replace_emits p old new (String c s) Hold Hd Hc) as He.
        destruct (replace_go 0 (String c s) old new); cbn [contains]; by rewrite He.
      * apply pending_S in Hpend as [_ Hb]. destruct p as [|d p]; [done|].
        cbn in Hc, Hd. apply andb_true_iff in Hc as [->%Ascii.eqb_eq _].
        by rewrite Hb in Hd.
    + destruct skip as [|skip]; cbn [replace_go].
      * destruct (HasPrefix (String c s) old) eqn:E.
        -- apply contains_app_l, IH; [|done]. destruct old as [|o old]; [done|].
           cbn in E. apply andb_true_iff in E as [_ E]. exists old. split; [done|].
           split; [done|]. intros e He. unfold has_byte in *. cbn. rewrite He. by rewrite orb_true_r.
        -- cbn [contains]. rewrite (IH 0%nat (pending_0 s old) Hc). by rewrite orb_true_r.
      * apply pending_S in Hpend as [Hpend _]. by apply IH.
Qed.

Lemma ReplaceAll_keeps p old new s :
  old <> ""%string -> p <> ""%string -> byte_disjoint p old = true ->
  contains s p = true -> contains (ReplaceAll s old new) p = true.
Proof. intros Ho Hp Hd. apply replace_keeps; [done..|apply pending_0]. Qed.

(** ** Decimal numbers *)

Definition digit_value (c : ascii) : option Z :=
  let n := Z.of_N (N_of_ascii c) in
  if (48 <=? n) && (n <=? 57) then Some (n - 48) else None.

Fixpoint parse_digits (acc : Z) (s : string) : option Z :=
  match s with
  | EmptyString => Some acc
  | String c s' => d ← digit_value c; parse_digits (acc * 10 + d) s'
  end.

Definition parse_nonempty (s : string) : option Z :=
  match s with EmptyString => None | _ => parse_digits 0 s end.

(** [strconv.ParseInt(s, 10, 64)]; [None] is any of its errors. *)
Definition ParseInt (s : string) : option Z :=
  match s with
  | String "-" s' => n ← parse_nonempty s'; guard (n <= 2^63);; Some (- n)
  | String "+" s' => n ← parse_nonempty s'; guard (n < 2^63);; Some n
  | _ => n ← parse_nonempty s; guard (n < 2^63);; Some n
  end.

Ltac digit_cases d :=
  assert (d = 0 \/ d = 1 \/ d = 2 \/ d = 3 \/ d = 4 \/ d = 5 \/ d = 6 \/ d = 7 \/ d = 8 \/ d = 9)%N
    as Hdig by lia;
  repeat (destruct Hdig as [->|Hdig]; [done|]); subst; done.

Lemma digit_value_char d : (d < 10)%N -> digit_value (pretty_N_char d) = Some (Z.of_N d).
Proof.
  intros H. digit_cases d.
Qed.

Lemma parse_pretty_go x s : parse_digits 0 (pretty_N_go x s) = parse_digits (Z.of_N x) s.
Proof.
  revert s. induction (N.lt_wf_0 x) as [x _ IH]. intros s.
  destruct (decide (0 < x)%N) as [Hx|Hx].
  - rewrite pretty_N_go_step by done. rewrite IH by (apply N.div_lt; lia).
    cbn [parse_digits]. rewrite digit_value_char by (apply N.mod_lt; lia). cbn.
    f_equal. rewrite N2Z.inj_div, N2Z.inj_mod. pose proof (Z.div_mod (Z.of_N x) 10 ltac:(lia)). lia.
  - assert (x = 0)%N as -> by lia. by rewrite pretty_N_go_0.
Qed.

Lemma pretty_N_go_head x s : (0 < x)%N ->
  exists d t, pretty_N_go x s = String (pretty_N_char d) t /\ (0 < d < 10)%N.
Proof.
  revert s. induction (N.lt_wf_0 x) as [x _ IH]. intros s Hx.
  rewrite pretty_N_go_step by done.
  destruct (decide (0 < x `div` 10)%N) as [Hd|Hd].
  - apply IH; [apply N.div_lt; lia|done].
  - apply N.nlt_ge, N.le_0_r in Hd. rewrite Hd, pretty_N_go_0.
    exists (x mod 10)%N, s. split; [done|]. apply N.div_small_iff in Hd; [|done].
    rewrite N.mod_small by done. lia.
Qed.

Lemma pretty_N_head x :
  exists d t, pretty x = String (pretty_N_char d) t /\ (d < 10)%N /\ parse_nonempty (pretty x) = Some (Z.of_N x).
Proof.
  unfold pretty, pretty_N. case_decide as H; [subst; by exists 0%N, ""%string|].
  destruct (pretty_N_go_head x "" ltac:(lia)) as (d & t & E & Hd).
  exists d, t. rewrite E. split_and!; [done|lia|]. cbn [parse_nonempty]. rewrite <- E. apply parse_pretty_go.
Qed.

Lemma ParseInt_unsigned d t : (d < 10)%N ->
  ParseInt (String (pretty_N_char d) t)
  = (n ← parse_nonempty (String (pretty_N_char d) t); guard (n < 2^63);; Some n).
Proof.
  intros H. digit_cases d.
Qed.

Lemma ParseInt_Itoa n : in_i64 n -> ParseInt (Itoa n) = Some n.
Proof.
  unfold in_i64, min_int64, max_int64, Itoa. intros H.
  destruct (decide (0 ≤ n)%Z) as [Hn|Hn].
  - destruct n as [|p|p]; [done| |lia].
    change (ParseInt (pretty (N.pos p)) = Some (Z.pos p)).
    destruct (pretty_N_head (N.pos p)) as (d & t & E & Hd & Hp). rewrite E in Hp |- *.
    rewrite ParseInt_unsigned by done. rewrite Hp. cbn. case_guard; [done|lia].
  - destruct n as [|p|p]; [lia|lia|].
    destruct (pretty_N_head (N.pos p)) as (d & t & E & Hd & Hp).
    change (ParseInt (String "-" (pretty (N.pos p))) = Some (Z.neg p)).
    cbn -[pretty parse_nonempty]. rewrite Hp. cbn. case_guard; [done|lia].
Qed.

Lemma Itoa_inj n m : Itoa n = Itoa m -> n = m.
Proof. apply (inj pretty). Qed.

(** A decimal number holds no blank, so trimming leaves it alone. *)
Fixpoint no_space (s : string) : bool :=
  match s with EmptyString => true | String c s' => negb (is_space c) && no_space s' end.

Lemma TrimRight_no_space s : no_space s = true -> TrimRight s = s.
Proof.
  induction s as [|c s IH]; [done|]. cbn [no_space TrimRight].
  intros [Hc Hs]%andb_true_iff. rewrite (IH Hs). apply negb_true_iff in Hc.
  destruct s; [by rewrite Hc|done].
Qed.

Lemma TrimSpace_no_space s : no_space s = true -> TrimSpace s = s.
Proof.
  intros H. unfold TrimSpace. replace (TrimLeft s) with s; [by apply TrimRight_no_space|].
  destruct s as [|c s]; [done|]. cbn in H |- *. apply andb_true_iff in H as [H _].
  apply negb_true_iff in H. by rewrite H.
Qed.

Lemma digit_no_space d : (d < 10)%N -> is_space (pretty_N_char d) = false.
Proof. intros H. digit_cases d. Qed.

Lemma pretty_N_go_no_space x s : no_space s = true -> no_space (pretty_N_go x s) = true.
Proof.
  revert s. induction (N.lt_wf_0 x) as [x _ IH]. intros s Hs.
  destruct (decide (0 < x)%N) as [Hx|Hx].
  - rewrite pretty_N_go_step by done. apply IH; [apply N.div_lt; lia|].
    cbn [no_space]. rewrite digit_no_space by (apply N.mod_lt; lia). done.
  - apply N.nlt_ge, N.le_0_r in Hx. by rewrite Hx, pretty_N_go_0.
Qed.

Lemma pretty_N_no_space (x : N) : no_space (pretty x) = true.
Proof.
  unfold pretty, pretty_N. case_decide; [done|]. by apply pretty_N_go_no_space.
Qed.

Lemma Itoa_no_space n : no_space (Itoa n) = true.
Proof.
  destruct n as [|p|p]; [done|apply (pretty_N_no_space (N.pos p))|].
  change (no_space (String "-" (pretty (N.pos p))) = true). cbn [no_space].
  by rewrite pretty_N_no_space.
Qed.

Lemma ParseInt_Trim_Itoa n : in_i64 n -> ParseInt (TrimSpace (Itoa n)) = Some n.
Proof. intros. rewrite TrimSpace_no_space by apply Itoa_no_space. by apply ParseInt_Itoa. Qed.
