(* ===== verification/GoFloat.v ===== *)
(** Go's [float64]: IEEE 754 binary64 over the executable [spec_float] of the
    core library, with the conversions and comparisons the program uses, and
    the order lemmas the selection proofs need. *)

From Corelib Require Import SpecFloat.
From S2P Require Import Prelude.

Definition f64_prec : Z := 53.
Definition f64_emax : Z := 1024.

Abbreviation float64 := spec_float.

(** [float64(n)] for an integer [n], rounded to nearest even. *)
Definition f64_of_int (n : Z) : float64 := binary_normalize f64_prec f64_emax n 0 false.
Definition f64_div : float64 -> float64 -> float64 := SFdiv f64_prec f64_emax.
Definition f64_sub : float64 -> float64 -> float64 := SFsub f64_prec f64_emax.
Definition f64_add : float64 -> float64 -> float64 := SFadd f64_prec f64_emax.
Definition f64_mul : float64 -> float64 -> float64 := SFmul f64_prec f64_emax.

(** [int64(x)]: towards zero; what the language leaves to the machine (a value
    out of range, an infinity, a NaN) is amd64's indefinite integer. *)
Definition f64_to_int64 (x : float64) : Z :=
  match x with
  | S754_zero _ => 0
  | S754_infinity _ | S754_nan => min_int64
  | S754_finite neg m e =>
      let mag := if 0 <=? e then Z.pos m * 2 ^ e else Z.pos m / 2 ^ (- e) in
      let v := if neg then - mag else mag in
      if (min_int64 <=? v) && (v <=? max_int64) then v else min_int64
  end.

Definition f64_ltb : float64 -> float64 -> bool := SFltb.
Definition f64_leb : float64 -> float64 -> bool := SFleb.
Definition f64_eqb : float64 -> float64 -> bool := SFeqb.
Definition f64_zero : float64 := S754_zero false.

(** [max(0, x)] of Go: a NaN argument gives NaN. *)
Definition f64_max0 (x : float64) : float64 :=
  match x with
  | S754_nan => S754_nan
  | _ => if f64_ltb f64_zero x then x else f64_zero
  end.

#[export] Instance spec_float_eq_dec : EqDecision spec_float.
Proof. solve_decision. Defined.

(** ** Order on the floats that are not NaN *)

Definition not_nan (x : float64) : bool :=
  match x with S754_nan => false | _ => true end.

(** The comparison of two finite mantissas at their exponents. *)
Definition mag_compare (m1 : positive) (e1 : Z) (m2 : positive) (e2 : Z) : comparison :=
  match e1 ?= e2 with
  | Lt => Lt
  | Gt => Gt
  | Eq => Pos.compare_cont Eq m1 m2
  end.

Definition mag_le (m1 : positive) (e1 : Z) (m2 : positive) (e2 : Z) : Prop :=
  e1 < e2 \/ (e1 = e2 /\ (m1 <= m2)%positive).

Lemma mag_compare_le m1 e1 m2 e2 :
  mag_compare m1 e1 m2 e2 <> Gt <-> mag_le m1 e1 m2 e2.
Proof.
  unfold mag_compare, mag_le. change (Pos.compare_cont Eq m1 m2) with (m1 ?= m2)%positive.
  destruct (Z.compare_spec e1 e2); [destruct (Pos.compare_spec m1 m2)|..];
    (split; [intros Hc|intros Hm Hc]); try done; lia.
Qed.

Lemma mag_compare_flip m1 e1 m2 e2 :
  mag_compare m2 e2 m1 e1 = CompOpp (mag_compare m1 e1 m2 e2).
Proof.
  unfold mag_compare. rewrite (Z.compare_antisym e1 e2).
  destruct (e1 ?= e2); simpl; [|done..].
  change (Pos.compare_cont Eq) with Pos.compare. apply Pos.compare_antisym.
Qed.

(** [x <= y] as a proposition: the sign class first, then the magnitude. *)
Definition sf_le (x y : float64) : Prop :=
  match x, y with
  | S754_nan, _ | _, S754_nan => False
  | S754_infinity true, _ | _, S754_infinity false => True
  | S754_infinity false, _ | _, S754_infinity true => False
  | S754_zero _, S754_zero _ => True
  | S754_finite s _ _, S754_zero _ => s = true
  | S754_zero _, S754_finite s _ _ => s = false
  | S754_finite true _ _, S754_finite false _ _ => True
  | S754_finite false _ _, S754_finite true _ _ => False
  | S754_finite false m1 e1, S754_finite false m2 e2 => mag_le m1 e1 m2 e2
  | S754_finite true m1 e1, S754_finite true m2 e2 => mag_le m2 e2 m1 e1
  end.

Lemma f64_leb_spec x y : f64_leb x y = true <-> sf_le x y.
Proof.
  unfold f64_leb, SFleb.
  destruct x as [[]|[]| |[] m1 e1], y as [[]|[]| |[] m2 e2]; simpl; try done.
  - change (match e1 ?= e2 with Eq => CompOpp (Pos.compare_cont Eq m1 m2) | Lt => Gt | Gt => Lt end)
      with (match e1 ?= e2 with Eq => CompOpp (Pos.compare_cont Eq m1 m2) | Lt => CompOpp Lt | Gt => CompOpp Gt end).
    rewrite <- mag_compare_le, (mag_compare_flip m1 e1). unfold mag_compare.
    destruct (e1 ?= e2); simpl; [|done..].
    destruct (Pos.compare_cont Eq m1 m2); done.
  - rewrite <- mag_compare_le. unfold mag_compare.
    destruct (e1 ?= e2); [|done..].
    destruct (Pos.compare_cont Eq m1 m2); done.
Qed.

Lemma f64_leb_trans x y z : f64_leb x y = true -> f64_leb y z = true -> f64_leb x z = true.
Proof.
  rewrite !f64_leb_spec.
  destruct x as [[]|[]| |[] m1 e1], y as [[]|[]| |[] m2 e2], z as [[]|[]| |[] m3 e3];
    simpl; try done; unfold mag_le; lia.
Qed.

Lemma f64_leb_total x y :
  not_nan x = true -> not_nan y = true -> f64_leb x y = true \/ f64_leb y x = true.
Proof.
  rewrite !f64_leb_spec.
  destruct x as [[]|[]| |[] m1 e1], y as [[]|[]| |[] m2 e2]; simpl; try naive_solver;
    unfold mag_le; lia.
Qed.

Lemma f64_leb_refl x : not_nan x = true -> f64_leb x x = true.
Proof. intros H. by destruct (f64_leb_total x x H H). Qed.

(** On numbers, [x < y] is the negation of [y <= x]. *)
Lemma f64_ltb_leb x y :
  not_nan x = true -> not_nan y = true -> f64_ltb x y = negb (f64_leb y x).
Proof.
  unfold f64_ltb, f64_leb, SFltb, SFleb. intros Hx Hy.
  destruct x as [[]|[]| |[] m1 e1], y as [[]|[]| |[] m2 e2]; simpl; try done.
  all: rewrite (Z.compare_antisym e1 e2); destruct (e1 ?= e2); simpl; try done.
  all: change (Pos.compare_cont Eq) with Pos.compare; rewrite (Pos.compare_antisym m1 m2);
    by destruct (m1 ?= m2)%positive.
Qed.

Lemma f64_eqb_leb x y : f64_eqb x y = true -> f64_leb x y = true /\ f64_leb y x = true.
Proof.
  unfold f64_eqb, f64_leb, SFeqb, SFleb. intros H.
  destruct x as [[]|[]| |[] m1 e1], y as [[]|[]| |[] m2 e2]; simpl in *; try done.
  all: rewrite (Z.compare_antisym e1 e2); destruct (e1 ?= e2); simpl in *; try done.
  all: revert H; change (Pos.compare_cont Eq) with Pos.compare; rewrite (Pos.compare_antisym m1 m2);
    by destruct (m1 ?= m2)%positive.
Qed.

(** ** Strict order, NaN included *)

Lemma f64_ltb_not_nan x y : f64_ltb x y = true -> not_nan x = true /\ not_nan y = true.
Proof. by destruct x as [[]|[]| |[] m1 e1], y as [[]|[]| |[] m2 e2]. Qed.

Lemma f64_leb_not_nan x y : f64_leb x y = true -> not_nan x = true /\ not_nan y = true.
Proof. by destruct x as [[]|[]| |[] m1 e1], y as [[]|[]| |[] m2 e2]. Qed.

Lemma f64_ltb_leb_trans x y z : f64_ltb x y = true -> f64_leb y z = true -> f64_ltb x z = true.
Proof.
  intros Hxy Hyz. destruct (f64_ltb_not_nan _ _ Hxy) as [Hx Hy].
  destruct (f64_leb_not_nan _ _ Hyz) as [_ Hz].
  rewrite f64_ltb_leb in * by done. apply negb_true_iff in Hxy. apply negb_true_iff.
  destruct (f64_leb z x) eqn:E; [|done]. by rewrite (f64_leb_trans y z x Hyz E) in Hxy.
Qed.

Lemma f64_leb_ltb_trans x y z : f64_leb x y = true -> f64_ltb y z = true -> f64_ltb x z = true.
Proof.
  intros Hxy Hyz. destruct (f64_ltb_not_nan _ _ Hyz) as [Hy Hz].
  destruct (f64_leb_not_nan _ _ Hxy) as [Hx _].
  rewrite f64_ltb_leb in * by done. apply negb_true_iff in Hyz. apply negb_true_iff.
  destruct (f64_leb z x) eqn:E; [|done]. by rewrite (f64_leb_trans z x y E Hxy) in Hyz.
Qed.

Lemma f64_ltb_leb_weak x y : f64_ltb x y = true -> f64_leb x y = true.
Proof.
  intros H. destruct (f64_ltb_not_nan _ _ H) as [Hx Hy]. rewrite f64_ltb_leb in H by done.
  apply negb_true_iff in H. by destruct (f64_leb_total x y Hx Hy) as [|E]; [|rewrite E in H].
Qed.

Lemma f64_ltb_irrefl_leb x y : f64_ltb x y = true -> f64_leb y x = false.
Proof.
  intros H. destruct (f64_ltb_not_nan _ _ H) as [Hx Hy]. rewrite f64_ltb_leb in H by done.
  by apply negb_true_iff in H.
Qed.

Lemma f64_leb_eqb x y : f64_leb x y = true -> f64_leb y x = true -> f64_eqb x y = true.
Proof.
  unfold f64_eqb, f64_leb, SFeqb, SFleb. intros H1 H2.
  destruct x as [[]|[]| |[] m1 e1], y as [[]|[]| |[] m2 e2]; simpl in *; try done.
  all: revert H1 H2; rewrite (Z.compare_antisym e1 e2); destruct (e1 ?= e2); simpl; try done.
  all: change (Pos.compare_cont Eq) with Pos.compare; rewrite (Pos.compare_antisym m1 m2);
    by destruct (m1 ?= m2)%positive.
Qed.

Lemma f64_eqb_trans x y z : f64_eqb x y = true -> f64_eqb y z = true -> f64_eqb x z = true.
Proof.
  intros [H1 H2]%f64_eqb_leb [H3 H4]%f64_eqb_leb.
  apply f64_leb_eqb; eapply f64_leb_trans; eassumption.
Qed.

Lemma f64_eqb_sym x y : f64_eqb x y = true -> f64_eqb y x = true.
Proof. intros [H1 H2]%f64_eqb_leb. by apply f64_leb_eqb. Qed.
