(* ===== verification/UpstreamErrors.v ===== *)
(** The upstream error classifiers of [internal/errors]: which account status,
    category, client status and client text an error message stands for. *)

From Stdlib Require Import Ascii.
From S2P Require Import Prelude.

(** ** [classify.go]: explicit status codes *)

Definition explicit_status_patterns (code : string) : list string :=
  [ "http " +:+ code; "http/1.1 " +:+ code; "http/2 " +:+ code;
    "status " +:+ code; "status=" +:+ code; "status:" +:+ code;
    "statuscode " +:+ code; "statuscode=" +:+ code; "status code " +:+ code;
    "code " +:+ code; "code=" +:+ code; "code:" +:+ code;
    "response status " +:+ code; "response code " +:+ code ].

Definition HasExplicitHTTPStatus (lower code : string) : bool :=
  let code := TrimSpace code in
  if is_empty code || is_empty lower then false
  else existsb (fun p => contains lower p) (explicit_status_patterns code).

Definition statusCodePrefixes : list string := ["401"; "402"; "403"; "404"; "429"].

(** The test of one code at the head of [lower[start:]]. *)
Definition delimited_code (tail code : string) : bool :=
  HasPrefix tail code &&
  (let rest := drop_bytes (String.length code) tail in
   is_empty rest || HasPrefix rest ":" || HasPrefix rest " ").

Fixpoint first_code (tail : string) (codes : list string) : option string :=
  match codes with
  | [] => None
  | code :: codes' => if delimited_code tail code then Some code else first_code tail codes'
  end.

Definition codeAtDelimiter (lower : string) (start : nat) : option string :=
  if (String.length lower <=? start)%nat then None
  else first_code (drop_bytes start lower) statusCodePrefixes.

(** The inner loop of [scanStatusCode]: the number of blanks at the head. *)
Fixpoint count_spaces (s : string) : nat :=
  match s with
  | String " "%char s' => S (count_spaces s')
  | _ => 0
  end.

(** The outer loop; [None] when [fuel] iterations were not enough. *)
Fixpoint scan_loop (fuel : nat) (lower : string) (offset : nat) : option string :=
  match fuel with
  | O => None
  | S fuel' =>
      match Index (drop_bytes offset lower) ":" with
      | None => Some ""
      | Some index =>
          let position := (offset + index + 1)%nat in
          let trimmed := (position + count_spaces (drop_bytes position lower))%nat in
          match codeAtDelimiter lower trimmed with
          | Some code => Some code
          | None => scan_loop fuel' lower position
          end
      end
  end.

Definition scanStatusCode (lower : string) : string :=
  default "" (scan_loop (S (String.length lower)) lower 0).

Definition LeadingStatusCode (errStr : string) : string :=
  let trimmed := TrimSpace (ToLower errStr) in
  default "" (codeAtDelimiter trimmed 0).

(** ** [provider_phrases.go], [content_refusal.go], [workbuddy_restricted.go] *)

Definition IsClineInferenceCap (lower : string) : bool :=
  contains lower "cline inference cap reached".

Definition IsClineProductSurface (lower : string) : bool :=
  contains lower "only available via cline product surfaces".

Definition IsUpstreamModelRefusal (lower : string) : bool :=
  if negb (contains lower "failed to invoke model")
     && negb (contains lower "failed to generate stream from") then false
  else HasExplicitHTTPStatus lower "401" || HasExplicitHTTPStatus lower "403"
       || HasExplicitHTTPStatus lower "404".

Definition content_policy_markers : list string :=
  [ "content policy rejected"; "content_policy_violation"; "datainspectionfailed";
    "input text data may contain"; "i can't help with that request";
    "i cannot help with that request" ].

Definition IsContentPolicyRefusal (text : string) : bool :=
  let text := ReplaceAll (ToLower text) "’" "'" in
  existsb (fun marker => contains text marker) content_policy_markers.

(** The regular expression [(?:^|[ ,(])code=11140(?:$|[ ,)])]; [boundary] says
    that the text starts here or the previous byte is one of [ ,(]. *)
Fixpoint restricted_code_from (boundary : bool) (s : string) : bool :=
  (boundary && HasPrefix s "code=11140" &&
   match drop_bytes 10 s with
   | EmptyString => true
   | String c _ => Ascii.eqb c " "%char || Ascii.eqb c ","%char || Ascii.eqb c ")"%char
   end)
  || match s with
     | EmptyString => false
     | String c s' =>
         restricted_code_from (Ascii.eqb c " "%char || Ascii.eqb c ","%char || Ascii.eqb c "("%char) s'
     end.

Definition workBuddyRestrictedCode (lower : string) : bool := restricted_code_from true lower.

Definition IsWorkBuddyRestricted (message : string) : bool :=
  let lower := ToLower message in
  contains lower "workbuddy" && HasExplicitHTTPStatus lower "403"
  && workBuddyRestrictedCode lower.

(** ** [classify.go]: account status *)

Definition isClineModelEntitlement (lower : string) : bool :=
  if negb (HasExplicitHTTPStatus lower "403") then false
  else contains lower "entitlement"
       || contains lower "not subscribed to required model plan"
       || IsClineProductSurface lower.

Definition credit_exhaustion_phrases : list string :=
  [ "no ai credits remaining"; "insufficient_funds"; "insufficient funding";
    "available funding is insufficient"; "out of credits"; "credits exhausted";
    "run out of credits" ].

Definition IsCreditExhaustion (errStr : string) : bool :=
  let lower := ToLower errStr in
  existsb (fun phrase => contains lower phrase) credit_exhaustion_phrases.

Definition isSharedUpstreamQueueRefusal (text : string) : bool :=
  let text := ToLower text in
  contains text "available upstream accounts are rate-limited"
  || contains text "available upstream accounts are rate limited".

Definition ClassifyAccountStatus (errStr : string) : string :=
  let lower := ToLower errStr in
  if contains lower "model is not found" || contains lower "model not found" then ""
  else if isClineModelEntitlement lower then ""
  else if IsUpstreamModelRefusal lower then ""
  else if negb (is_empty (LeadingStatusCode lower)) then LeadingStatusCode lower
  else if negb (is_empty (scanStatusCode lower)) then scanStatusCode lower
  else if HasExplicitHTTPStatus lower "401"
       || contains lower "refresh token is expired"
       || contains lower "new browser login is required"
       || contains lower "sign in again"
       || contains lower "signed out"
       || contains lower "signed_out"
       || contains lower "unauthenticated"
       || contains lower "no active sessions found" then "401"
  else if HasExplicitHTTPStatus lower "403" || contains lower "forbidden" then "403"
  else if HasExplicitHTTPStatus lower "404" then "404"
  else if HasExplicitHTTPStatus lower "402"
       || IsCreditExhaustion lower
       || contains lower "quota_limit" then "402"
  else if HasExplicitHTTPStatus lower "429"
       || contains lower "too many requests"
       || contains lower "rate limit"
       || contains lower "rate_limit"
       || contains lower "no remaining quota"
       || contains lower "quota exceeded" then "429"
  else "".

(** ** [classify.go]: retry class *)

Record UpstreamErrorClass := mkClass {
  Category : string;
  Retryable : bool;
  SwitchAccount : bool
}.

Definition class_only (category : string) : UpstreamErrorClass := mkClass category false false.
Definition class_rotate (category : string) : UpstreamErrorClass := mkClass category true true.

Definition ClassifyUpstreamError (errStr : string) : UpstreamErrorClass :=
  let lower := ToLower errStr in
  if contains lower "context canceled" || contains lower "canceled" then class_only "canceled"
  else if contains lower " is not configured"
       || contains lower "configuration error"
       || contains lower "client is nil" then class_only "configuration"
  else if HasExplicitHTTPStatus lower "426" then class_only "upstream_upgrade_required"
  else if IsContentPolicyRefusal lower then class_only "client"
  else if contains lower "empty upstream stream" then class_only "protocol"
  else if contains lower "rejected the request parameters" then class_only "client"
  else if contains lower "protocol error" || contains lower "no usable stream events" then
    class_only "protocol"
  else if contains lower "pacing registry capacity reached" then
    mkClass "local_overload" true false
  else if contains lower "model is not found"
       || contains lower "model not found"
       || contains lower "model is not supported"
       || contains lower "model is not allowed"
       || contains lower "no_implementation_available"
       || contains lower "context_window_exceeded"
       || contains lower "max_token_limit"
       || contains lower "duplicate request" then class_only "client"
  else if isSharedUpstreamQueueRefusal lower then class_only "rate_limit"
  else if HasExplicitHTTPStatus lower "401"
       || contains lower "refresh token is expired"
       || contains lower "new browser login is required"
       || contains lower "sign in again"
       || contains lower "signed out"
       || contains lower "signed_out"
       || contains lower "invalid_api_key" then class_rotate "auth"
  else if IsUpstreamModelRefusal lower then class_only "model_unavailable"
  else if isClineModelEntitlement lower then class_rotate "model_unavailable"
  else if HasExplicitHTTPStatus lower "403" then
    if IsWorkBuddyRestricted lower then class_rotate "account_restricted"
    else class_rotate "auth_blocked"
  else if HasExplicitHTTPStatus lower "404" then class_only "auth_blocked"
  else if contains lower "input is too long" || HasExplicitHTTPStatus lower "400" then
    class_only "client"
  else if HasExplicitHTTPStatus lower "402"
       || IsCreditExhaustion lower
       || contains lower "quota_limit" then class_rotate "quota_exhausted"
  else if contains lower "code=6004" then class_rotate "rate_limit"
  else if HasExplicitHTTPStatus lower "429"
       || IsClineInferenceCap lower
       || contains lower "available upstream accounts are rate-limited"
       || contains lower "too many requests"
       || contains lower "rate limit"
       || contains lower "rate_limit"
       || contains lower "no remaining quota"
       || contains lower "quota exceeded" then class_rotate "rate_limit"
  else if contains lower "timeout" || contains lower "deadline exceeded"
       || contains lower "context deadline" then class_rotate "timeout"
  else if contains lower "connection reset" || contains lower "connection refused"
       || contains lower "unexpected eof" || contains lower "use of closed"
       || contains lower "broken pipe" || HasSuffix lower ": eof"
       || String.eqb lower "eof" then class_rotate "network"
  else if HasExplicitHTTPStatus lower "500" || HasExplicitHTTPStatus lower "502"
       || HasExplicitHTTPStatus lower "503" || HasExplicitHTTPStatus lower "504"
       || contains lower "llm_unavailable"
       || contains lower "internal_error" then class_rotate "server"
  else class_rotate "unknown".

(** ** [public.go]: what the client sees *)

Definition publicStatusForCategory : gmap string Z := list_to_map [
  ("quota_exhausted", 429); ("rate_limit", 429); ("auth", 401);
  ("auth_blocked", 401); ("account_restricted", 403); ("client", 400);
  ("client_closed", 499); ("model_unavailable", 404); ("configuration", 503);
  ("upstream_upgrade_required", 503); ("timeout", 504); ("network", 502);
  ("server", 502); ("protocol", 502); ("local_overload", 502);
  ("schema_mismatch", 502) ].

Definition StatusForCategory (category : string) : Z :=
  match publicStatusForCategory !! TrimSpace category with
  | Some status => status
  | None => 502
  end.

Definition messageForCategoryTable : gmap string string := list_to_map [
  ("configuration", "This provider is not configured correctly. Contact the gateway administrator.");
  ("upstream_upgrade_required", "The upstream requires a newer Build client version. Contact the gateway administrator to update the Build client identity.");
  ("auth", "The upstream account session has expired. Re-authenticate the account and retry.");
  ("auth_blocked", "The upstream account is not allowed to use this feature. Check its plan and permissions.");
  ("account_restricted", "The upstream account is restricted due to unusual activity. Requests are skipped during its restriction window; check the account in the official client or submit an appeal.");
  ("quota_exhausted", "The available upstream accounts have exhausted their quota. Retry after the quota resets or add capacity.");
  ("rate_limit", "The available upstream accounts are rate-limited. Retry after the cooldown.");
  ("model_unavailable", "The requested model is unavailable for the selected upstream accounts.");
  ("client", "The upstream rejected the request parameters or model. Check the request and model selection.");
  ("client_closed", "The client closed the request before the upstream answered.");
  ("timeout", "The upstream stream timed out while waiting for generated output.");
  ("network", "The gateway lost its connection to the upstream service. Retry later.");
  ("server", "The upstream service is temporarily unavailable. Retry later.");
  ("protocol", "The upstream returned an unsupported stream format. Use the request ID to inspect diagnostics.");
  ("local_overload", "The gateway is temporarily overloaded. Retry later.");
  ("schema_mismatch", "The model's answer did not match the schema this strict request declared. Relax the schema or retry.");
  ("canceled", "The request was canceled.") ].

Definition messageForCategory (category : string) : string :=
  match messageForCategoryTable !! TrimSpace category with
  | Some message => message
  | None =>
      if is_empty (TrimSpace category) then "The upstream request failed."
      else "The upstream request failed. Use the request ID to inspect diagnostics."
  end.

Definition CategoryMessage (category : string) : string := messageForCategory category.

Definition PublicMessage (errText : string) : string :=
  messageForCategory (Category (ClassifyUpstreamError errText)).

(** ** [pool.go]: a pool that cannot take the request *)

Definition PoolAllowanceMessage : string := "Request failed: every account for this channel has exhausted its allowance. Add credits or accounts, or wait for the quota reset.".
Definition PoolModelCooldownMessage : string := "Request failed: the requested model is cooling down on this channel. Please retry after its cooldown or choose another model.".
Definition PoolClineInferenceCapMessage : string := "Request failed: this Cline account reached its inference cap and is cooling down. Please wait for the cap window to pass or add another Cline account.".
Definition PoolRateLimitedMessage : string := "Request failed: all available accounts for this channel are currently rate-limited. Please wait for cooldown or add another valid account.".
Definition PoolBusyMessage : string := "Request failed: every account for this channel is busy with other requests. Please retry shortly.".
Definition PoolModelUnavailableMessage : string := "Request failed: the requested model is not available on this channel's accounts. Choose another model or add an account that supports it.".
Definition PoolNoAccountsMessage : string := "Request failed: no account in this channel can serve the request. Please check the account pool in Admin UI or add valid accounts.".
Definition PoolRetriesExhaustedMessage : string := "Request failed: retries exhausted and no available accounts. Please check account statuses in Admin UI or add valid accounts.".

Record PoolExhaustion := mkPool { pool_category : string; pool_message : string }.

Definition PoolExhaustion_Empty (p : PoolExhaustion) : bool :=
  is_empty (TrimSpace (pool_category p)).

Definition ClassifyPoolExhaustion (selectErr : option go_error) (lastErr : string) : PoolExhaustion :=
  let lowerLastErr := ToLower (TrimSpace lastErr) in
  let lowerSelect := match selectErr with Some e => ToLower (err_text e) | None => "" end in
  if IsWorkBuddyRestricted lowerLastErr || IsWorkBuddyRestricted lowerSelect then
    mkPool "account_restricted" (CategoryMessage "account_restricted")
  else if IsCreditExhaustion lowerLastErr || contains lowerSelect "exhausted their allowance" then
    mkPool "quota_exhausted" PoolAllowanceMessage
  else if contains lowerLastErr "not subscribed to required model plan" then
    mkPool "model_unavailable" PoolModelUnavailableMessage
  else if IsClineInferenceCap lowerLastErr then
    mkPool "rate_limit" PoolClineInferenceCapMessage
  else if contains lowerLastErr "model cooldown"
       || contains lowerSelect "cooling down for the requested model" then
    mkPool "rate_limit" PoolModelCooldownMessage
  else if contains lowerSelect "not covered by any matching account's plan" then
    mkPool "model_unavailable" PoolModelUnavailableMessage
  else if contains lowerSelect "cooling down on some matching accounts" then
    mkPool "rate_limit" PoolModelCooldownMessage
  else if contains lowerSelect "rate-limited or cooling down" then
    mkPool "rate_limit" PoolRateLimitedMessage
  else if contains lowerSelect "concurrency limit" then
    mkPool "rate_limit" PoolBusyMessage
  else if contains lowerSelect "is not available in the current"
       && contains lowerSelect "account pool" then
    mkPool "model_unavailable" PoolModelUnavailableMessage
  else if String.eqb (Category (ClassifyUpstreamError lastErr)) "rate_limit" then
    mkPool "rate_limit" PoolRateLimitedMessage
  else mkPool "" "".

(** * Properties *)

(** ** Locating a status code *)

(** The reference reading of [scanStatusCode]: walk the text once and stop at
    the first colon that a delimited code follows. *)
Fixpoint code_after_colon (s : string) : string :=
  match s with
  | EmptyString => ""
  | String c s' =>
      if Ascii.eqb c ":" then
        match first_code (drop_bytes (count_spaces s') s') statusCodePrefixes with
        | Some code => code
        | None => code_after_colon s'
        end
      else code_after_colon s'
  end.

Lemma codeAtDelimiter_tail lower n :
  codeAtDelimiter lower n = first_code (drop_bytes n lower) statusCodePrefixes.
Proof.
  unfold codeAtDelimiter. destruct (Nat.leb_spec (String.length lower) n); [|done].
  by rewrite drop_bytes_nil.
Qed.

Lemma HasPrefix_colon c s : HasPrefix (String c s) ":" = Ascii.eqb c ":".
Proof. by destruct c as [[] [] [] [] [] [] [] []]. Qed.

Lemma code_after_colon_index s :
  code_after_colon s =
  match Index s ":" with
  | None => ""
  | Some i =>
      let t := drop_bytes (i + 1) s in
      match first_code (drop_bytes (count_spaces t) t) statusCodePrefixes with
      | Some code => code
      | None => code_after_colon t
      end
  end.
Proof.
  induction s as [|c s IH]; [done|]. cbn [Index]. rewrite HasPrefix_colon.
  destruct (Ascii.eqb c ":") eqn:E; cbn [code_after_colon]; rewrite E.
  - by destruct s.
  - rewrite IH. by destruct (Index s ":").
Qed.

Lemma Index_bound s p i : p <> "" -> Index s p = Some i -> (i < String.length s)%nat.
Proof.
  intros Hp. revert i. induction s as [|c s IH]; intros i; cbn [Index].
  - by destruct p.
  - destruct (HasPrefix _ _); [intros [= <-]; simpl; lia|].
    destruct (Index s p) as [j|]; [|done]. intros [= <-]. specialize (IH j eq_refl). simpl. lia.
Qed.

Lemma scan_loop_reference fuel lower offset :
  (String.length lower - offset < fuel)%nat ->
  scan_loop fuel lower offset = Some (code_after_colon (drop_bytes offset lower)).
Proof.
  revert offset. induction fuel as [|fuel IH]; intros offset Hf; [lia|].
  cbn [scan_loop]. rewrite (code_after_colon_index (drop_bytes offset lower)).
  destruct (Index (drop_bytes offset lower) ":") as [i|] eqn:Ei; [|done].
  apply Index_bound in Ei; [|done]. rewrite drop_bytes_length in Ei.
  rewrite codeAtDelimiter_tail, <- drop_bytes_add. cbn zeta.
  replace (offset + i + 1)%nat with (offset + (i + 1))%nat by lia.
  rewrite <- (drop_bytes_add _ _ lower).
  destruct (first_code _ _); [done|]. apply IH. lia.
Qed.

(** [scanStatusCode] terminates on every text and returns the code that
    follows the leftmost colon behind which a delimited code stands, or the
    empty string when there is none. *)
Theorem scanStatusCode_leftmost (lower : string) :
  scan_loop (S (String.length lower)) lower 0 = Some (code_after_colon lower)
  /\ scanStatusCode lower = code_after_colon lower.
Proof.
  assert (scan_loop (S (String.length lower)) lower 0 = Some (code_after_colon lower)) as H
    by (apply scan_loop_reference; lia).
  split; [exact H|]. unfold scanStatusCode. by rewrite H.
Qed.

Lemma first_code_elem tail codes code :
  first_code tail codes = Some code -> code ∈ codes /\ delimited_code tail code = true.
Proof.
  induction codes as [|c codes IH]; simpl; [done|].
  destruct (delimited_code tail c) eqn:E.
  - intros [= <-]. split; [left|done].
  - intros H. destruct (IH H). split; [by right|done].
Qed.

Lemma code_after_colon_elem s :
  code_after_colon s <> "" -> code_after_colon s ∈ statusCodePrefixes.
Proof.
  induction s as [|c s IH]; cbn [code_after_colon]; [done|].
  destruct (Ascii.eqb c ":"); [|done].
  destruct (first_code _ _) eqn:E; [|done]. by apply first_code_elem in E as [? _].
Qed.

Lemma LeadingStatusCode_elem s :
  LeadingStatusCode s <> "" -> LeadingStatusCode s ∈ statusCodePrefixes.
Proof.
  unfold LeadingStatusCode. rewrite codeAtDelimiter_tail.
  destruct (first_code _ _) eqn:E; [|done]. by apply first_code_elem in E as [? _].
Qed.

Lemma scanStatusCode_elem s :
  scanStatusCode s <> "" -> scanStatusCode s ∈ statusCodePrefixes.
Proof.
  unfold scanStatusCode. rewrite scan_loop_reference by lia. apply code_after_colon_elem.
Qed.

(** ** Account status *)

Lemma ClassifyAccountStatus_range s :
  ClassifyAccountStatus s ∈ "" :: statusCodePrefixes.
Proof.
  unfold ClassifyAccountStatus. cbn zeta.
  repeat match goal with
  | |- (if negb (is_empty ?x) then _ else _) ∈ _ =>
      destruct (is_empty x) eqn:?; cbn [negb]
  | |- (if ?b then _ else _) ∈ _ => destruct b
  end; try lazymatch goal with
       | |- String _ _ ∈ _ => closed_decide
       | |- EmptyString ∈ _ => closed_decide
       end.
  - right. apply scanStatusCode_elem. by apply is_empty_false.
  - right. apply LeadingStatusCode_elem. by apply is_empty_false.
Qed.

(** An error text yields one of the five account statuses or none,
    whatever its letter case; and a text that blames a model (unknown model,
    plan entitlement, the model's own provider) never yields one. *)
Theorem ClassifyAccountStatus_sound (s : string) :
  ClassifyAccountStatus s ∈ ["" ; "401"; "402"; "403"; "404"; "429"]
  /\ ClassifyAccountStatus (ToLower s) = ClassifyAccountStatus s
  /\ (contains (ToLower s) "model not found" = true
      \/ isClineModelEntitlement (ToLower s) = true
      \/ IsUpstreamModelRefusal (ToLower s) = true ->
      ClassifyAccountStatus s = "").
Proof.
  split; [apply ClassifyAccountStatus_range|]. split.
  - unfold ClassifyAccountStatus. by rewrite ToLower_idemp.
  - unfold ClassifyAccountStatus. cbn zeta. intros [-> | [-> | ->]].
    + by rewrite orb_true_r.
    + by case_match.
    + by repeat case_match.
Qed.

(** ** Retry class *)

Definition upstream_categories : list string :=
  [ "canceled"; "configuration"; "upstream_upgrade_required"; "client"; "protocol";
    "local_overload"; "rate_limit"; "auth"; "model_unavailable"; "account_restricted";
    "auth_blocked"; "quota_exhausted"; "timeout"; "network"; "server"; "unknown" ].

(** The retry and rotation flags a category may carry. *)
Definition class_allowed (c : UpstreamErrorClass) : bool :=
  match Retryable c, SwitchAccount c with
  | false, false =>
      str_in (Category c) ["canceled"; "configuration"; "upstream_upgrade_required";
        "client"; "protocol"; "rate_limit"; "model_unavailable"; "auth_blocked"]
  | true, false => String.eqb (Category c) "local_overload"
  | true, true =>
      str_in (Category c) ["auth"; "model_unavailable"; "account_restricted";
        "auth_blocked"; "quota_exhausted"; "rate_limit"; "timeout"; "network"; "server";
        "unknown"]
  | false, true => false
  end.

(** Every branch of the classifier ends in a literal class, so a closed test on
    classes holds of all results as soon as it holds of the literals. *)
Lemma ClassifyUpstreamError_test (P : UpstreamErrorClass -> bool) :
  forallb P ((class_only <$> ["canceled"; "configuration"; "upstream_upgrade_required";
                "client"; "protocol"; "rate_limit"; "model_unavailable"; "auth_blocked"])
             ++ mkClass "local_overload" true false
             :: (class_rotate <$> ["auth"; "model_unavailable"; "account_restricted";
                  "auth_blocked"; "quota_exhausted"; "rate_limit"; "timeout"; "network";
                  "server"; "unknown"])) = true ->
  forall s, P (ClassifyUpstreamError s) = true.
Proof.
  cbn -[class_only class_rotate]. intros H s. to_prop.
  unfold ClassifyUpstreamError. cbn zeta.
  repeat match goal with |- P (if ?b then _ else _) = true => destruct b end; assumption.
Qed.

(** Every error text falls into one of sixteen categories with flags
    that fit it; in particular rotating to another account is only ever proposed
    together with a retry, and the class does not depend on letter case. *)
Theorem ClassifyUpstreamError_flags (s : string) :
  Category (ClassifyUpstreamError s) ∈ upstream_categories
  /\ class_allowed (ClassifyUpstreamError s) = true
  /\ (SwitchAccount (ClassifyUpstreamError s) = true ->
      Retryable (ClassifyUpstreamError s) = true)
  /\ ClassifyUpstreamError (ToLower s) = ClassifyUpstreamError s.
Proof.
  split; [|split; [|split]].
  - apply str_in_elem.
    by apply (ClassifyUpstreamError_test (fun c => str_in (Category c) upstream_categories)).
  - by apply (ClassifyUpstreamError_test class_allowed).
  - pose proof (ClassifyUpstreamError_test (fun c => implb (SwitchAccount c) (Retryable c)) eq_refl s).
    intros E. simpl in *. by rewrite E in H.
  - unfold ClassifyUpstreamError. by rewrite ToLower_idemp.
Qed.

(** ** Client-visible answers *)

Definition public_texts : list string :=
  (snd <$> map_to_list messageForCategoryTable) ++
  [ "The upstream request failed.";
    "The upstream request failed. Use the request ID to inspect diagnostics." ].

Lemma messageForCategory_public c : messageForCategory c ∈ public_texts.
Proof.
  unfold messageForCategory, public_texts.
  destruct (messageForCategoryTable !! TrimSpace c) as [m|] eqn:E.
  - apply elem_of_app. left. apply list_elem_of_fmap. exists (TrimSpace c, m).
    split; [done|]. by apply elem_of_map_to_list.
  - apply elem_of_app. right. destruct (is_empty _); [left|right; left].
Qed.

Definition pool_texts : list string :=
  [ PoolAllowanceMessage; PoolModelCooldownMessage; PoolClineInferenceCapMessage;
    PoolRateLimitedMessage; PoolBusyMessage; PoolModelUnavailableMessage;
    messageForCategory "account_restricted"; "" ].

(** The text a client sees for an upstream error or for an exhausted
    pool is one of finitely many constants: no part of the upstream's response
    body or of the pool's diagnostic reaches it. *)
Theorem public_texts_are_constants (s : string) (e : option go_error) :
  PublicMessage s ∈ public_texts
  /\ pool_message (ClassifyPoolExhaustion e s) ∈ pool_texts.
Proof.
  split; [apply messageForCategory_public|].
  unfold ClassifyPoolExhaustion. cbn zeta.
  repeat match goal with |- pool_message (if ?b then _ else _) ∈ _ => destruct b end;
    closed_decide.
Qed.

Definition pool_answer_ok (p : PoolExhaustion) : bool :=
  if PoolExhaustion_Empty p then is_empty (pool_category p) && is_empty (pool_message p)
  else existsb (Z.eqb (StatusForCategory (pool_category p))) [429; 404; 403].

Lemma ClassifyPoolExhaustion_ok e s : pool_answer_ok (ClassifyPoolExhaustion e s) = true.
Proof.
  unfold ClassifyPoolExhaustion. cbn zeta.
  repeat match goal with |- pool_answer_ok (if ?b then _ else _) = true => destruct b end;
    vm_compute; reflexivity.
Qed.

(** A recognised pool exhaustion is answered as a capacity, plan or
    restriction problem (429, 404 or 403), never as a server fault, and the
    answer is the entrance's default exactly when nothing was recognised. *)
Theorem pool_exhaustion_status (s : string) (e : option go_error) :
  let p := ClassifyPoolExhaustion e s in
  (PoolExhaustion_Empty p = true <-> p = mkPool "" "")
  /\ (PoolExhaustion_Empty p = false -> StatusForCategory (pool_category p) ∈ [429; 404; 403]).
Proof.
  pose proof (ClassifyPoolExhaustion_ok e s) as H. cbn zeta.
  destruct (ClassifyPoolExhaustion e s) as [cat msg]. unfold pool_answer_ok in H.
  destruct (PoolExhaustion_Empty (mkPool cat msg)) eqn:E; cbn in H.
  - apply andb_true_iff in H as [->%is_empty_true ->%is_empty_true]. done.
  - split; [split; [done|]|].
    + intros [= -> ->]. done.
    + intros _. rewrite !orb_true_iff, !Z.eqb_eq in H. set_solver.
Qed.
