(* ===== verification/Channel.v ===== *)
(** Provider identity and path routing of [internal/channel/channel.go]. *)

From Stdlib Require Import Ascii.
From S2P Require Import Prelude.

Definition WorkBuddy : string := "workbuddy".
Definition Cline : string := "cline".
Definition Grok : string := "grok".

Record ChannelDef := mkChannelDef {
  chan_ID : string;
  chan_Label : string;
  chan_APIPrefix : string;
  chan_Generic : bool;
  chan_Default : bool;
  chan_Theme : string;
  chan_AccountCreate : string
}.

Definition definitions : list ChannelDef :=
  [ mkChannelDef WorkBuddy "WorkBuddy" "/workbuddy/v1" true true "orange" "browser";
    mkChannelDef Cline "Cline" "/cline/v1" true false "blue" "browser";
    mkChannelDef Grok "Grok" "/grok/v1" false false "red" "browser" ].

(** The loop of [Parse] over the definitions. *)
Fixpoint parse_in (value : string) (defs : list ChannelDef) : option string :=
  match defs with
  | [] => None
  | d :: defs' =>
      if String.eqb value (chan_ID d) || EqualFold value (chan_Label d) then Some (chan_ID d)
      else parse_in value defs'
  end.

Definition Parse (value : string) : option string :=
  parse_in (ToLower (TrimSpace value)) definitions.

Definition IsSupported (value : string) : bool :=
  match Parse value with Some _ => true | None => false end.

Fixpoint definition_in (id : string) (defs : list ChannelDef) : option ChannelDef :=
  match defs with
  | [] => None
  | d :: defs' => if String.eqb (chan_ID d) id then Some d else definition_in id defs'
  end.

Definition DefinitionFor (id : string) : option ChannelDef := definition_in id definitions.

Fixpoint default_in (defs : list ChannelDef) : option ChannelDef :=
  match defs with
  | [] => None
  | d :: defs' => if chan_Default d then Some d else default_in defs'
  end.

(** [Default]: the flagged definition, or the first one. *)
Definition Default : option ChannelDef :=
  match default_in definitions with Some d => Some d | None => head definitions end.

(** [strings.TrimSuffix]. *)
Fixpoint TrimSuffix (s suffix : string) : string :=
  if String.eqb s suffix then "" else
  match s with
  | EmptyString => EmptyString
  | String c s' => String c (TrimSuffix s' suffix)
  end.

Definition PrefixesFor (id : string) : list string :=
  match DefinitionFor id with
  | None => []
  | Some d => [chan_APIPrefix d; TrimSuffix (chan_APIPrefix d) "/v1"]
  end.

Definition GenericPrefixes : list string :=
  flat_map (fun d => if chan_Generic d then PrefixesFor (chan_ID d) else []) definitions.

Definition AllPrefixes : list string :=
  flat_map (fun d => PrefixesFor (chan_ID d)) definitions.

(** [strings.CutPrefix]. *)
Definition CutPrefix (s p : string) : option string :=
  if HasPrefix s p then Some (drop_bytes (String.length p) s) else None.

(** The inner loop of [EndpointFromPath] over the two bases of one channel. *)
Fixpoint endpoint_under (path : string) (prefixes : list string) : option string :=
  match prefixes with
  | [] => None
  | p :: prefixes' =>
      if String.eqb path p then Some ""
      else match CutPrefix path (p +:+ "/") with
           | Some endpoint => Some endpoint
           | None => endpoint_under path prefixes'
           end
  end.

Fixpoint endpoint_in (path : string) (defs : list ChannelDef) : option (string * string) :=
  match defs with
  | [] => None
  | d :: defs' =>
      match endpoint_under path (PrefixesFor (chan_ID d)) with
      | Some endpoint => Some (chan_ID d, endpoint)
      | None => endpoint_in path defs'
      end
  end.

Definition EndpointFromPath (path : string) : option (string * string) :=
  endpoint_in path definitions.

Definition FromPath (path : string) : option string := fst <$> EndpointFromPath path.

Definition TrimModelPath (path : string) : option (string * string) :=
  match EndpointFromPath path with
  | None => None
  | Some (id, endpoint) =>
      match CutPrefix endpoint "models/" with
      | Some model => Some (id, model)
      | None => None
      end
  end.

(** * Properties *)

Lemma CutPrefix_app p s : CutPrefix (p +:+ s) p = Some s.
Proof. unfold CutPrefix. by rewrite HasPrefix_app_self, drop_bytes_app. Qed.

Lemma CutPrefix_Some s p t : CutPrefix s p = Some t -> s = p +:+ t.
Proof.
  unfold CutPrefix. destruct (HasPrefix s p) eqn:E; [|done]. intros [= <-].
  apply HasPrefix_spec in E as [u ->]. by rewrite drop_bytes_app.
Qed.

(** The versioned base never hides an unversioned endpoint it does not own. *)
Definition is_versioned (endpoint : string) : bool :=
  String.eqb endpoint "v1" || HasPrefix endpoint "v1/".

Lemma endpoint_under_versioned b e :
  endpoint_under (b +:+ "/v1/" +:+ e) [b +:+ "/v1"; b] = Some e.
Proof.
  cbn [endpoint_under]. rewrite eqb_sapp. rewrite sapp_assoc.
  change (String.eqb ("/v1/" +:+ e) "/v1") with false. cbn iota.
  rewrite <- sapp_assoc. change ("/v1" +:+ "/") with "/v1/". by rewrite CutPrefix_app.
Qed.

Lemma endpoint_under_unversioned b e :
  is_versioned e = false -> endpoint_under (b +:+ "/" +:+ e) [b +:+ "/v1"; b] = Some e.
Proof.
  unfold is_versioned. intros [Hv Hp]%orb_false_iff. cbn [endpoint_under].
  rewrite eqb_sapp. change (String.eqb ("/" +:+ e) "/v1") with (String.eqb e "v1").
  rewrite Hv. unfold CutPrefix at 1.
  rewrite sapp_assoc. change ("/v1" +:+ "/") with "/v1/". rewrite HasPrefix_sapp.
  change (HasPrefix ("/" +:+ e) "/v1/") with (HasPrefix e "v1/"). rewrite Hp.
  assert (String.eqb (b +:+ "/" +:+ e) b = false) as ->.
  { rewrite <- (sapp_nil_r b) at 2. by rewrite eqb_sapp. }
  rewrite <- sapp_assoc. by rewrite CutPrefix_app.
Qed.

Lemma endpoint_under_Some path ps e :
  endpoint_under path ps = Some e ->
  exists base, base ∈ ps /\ (path = base /\ e = "" \/ path = base +:+ "/" +:+ e).
Proof.
  induction ps as [|p ps IH]; cbn [endpoint_under]; [done|].
  destruct (String.eqb_spec path p) as [->|_].
  - intros [= <-]. exists p. split; [left|]. by left.
  - destruct (CutPrefix path (p +:+ "/")) as [t|] eqn:E.
    + intros [= <-]. apply CutPrefix_Some in E as ->. exists p. split; [left|].
      right. by rewrite sapp_assoc.
    + intros (b & Hb & H)%IH. exists b. split; [by right|done].
Qed.

Lemma endpoint_in_Some path ds id e :
  endpoint_in path ds = Some (id, e) -> endpoint_under path (PrefixesFor id) = Some e.
Proof.
  induction ds as [|d ds IH]; cbn [endpoint_in]; [done|].
  destruct (endpoint_under path (PrefixesFor (chan_ID d))) eqn:E; [|done].
  by intros [= <- <-].
Qed.

(** Every inference path splits into its channel and endpoint in one
    way only: the versioned base is preferred, the unversioned base serves every
    other endpoint, and a path that matches is the base, or the base, a slash
    and the endpoint. *)
Theorem EndpointFromPath_roundtrip (id endpoint path : string) :
  (id ∈ [WorkBuddy; Cline; Grok] ->
     EndpointFromPath (("/" +:+ id) +:+ "/v1/" +:+ endpoint) = Some (id, endpoint)
     /\ (is_versioned endpoint = false ->
         EndpointFromPath (("/" +:+ id) +:+ "/" +:+ endpoint) = Some (id, endpoint)))
  /\ (EndpointFromPath path = Some (id, endpoint) ->
      exists base, base ∈ PrefixesFor id
        /\ (path = base /\ endpoint = "" \/ path = base +:+ "/" +:+ endpoint)).
Proof.
  split; [|intros H%endpoint_in_Some; by apply endpoint_under_Some].
  intros Hid. set_unfold in Hid. unfold EndpointFromPath. cbn [definitions endpoint_in chan_ID].
  destruct Hid as [->|[->|[->|[]]]]; split; [|intros Hv| |intros Hv| |intros Hv];
    lazymatch goal with
    | |- context [endpoint_under (("/" +:+ ?c) +:+ _) (PrefixesFor ?c)] =>
        change (PrefixesFor c) with [("/" +:+ c) +:+ "/v1"; "/" +:+ c]
    end;
    first [rewrite endpoint_under_versioned | rewrite endpoint_under_unversioned by exact Hv];
    reflexivity.
Qed.
