(* ===== verification/Account.v ===== *)
(** The account row of [internal/store]: its data, the quota snapshots, the
    credential and restriction tests and the per-model cooldowns. *)

From S2P Require Import Prelude GoFloat UpstreamErrors.

(** ** Snapshots ([quota_snapshots.go], [grok_refresh_state.go]) *)

Record WorkBuddyQuotaSnapshot := mkWBQuota {
  wb_Limit : float64;
  wb_Remaining : float64;
  wb_Used : float64;
  wb_PackageRemaining : float64;
  wb_LastConsumedUnits : Z;
  wb_ResetAt : instant;
  wb_PeriodEnd : instant;
  wb_PackageName : string;
  wb_Unit : string;
  wb_SyncedAt : instant
}.

Definition ResyncAt (s : WorkBuddyQuotaSnapshot) : instant :=
  if Time.IsZero (wb_SyncedAt s) then Time.zero
  else if Time.IsZero (wb_ResetAt s) then wb_SyncedAt s
  else wb_ResetAt s.

Record GrokQuotaWindow := mkWindow {
  qw_Limit : float64;
  qw_Remaining : float64;
  qw_UsagePercent : float64;
  qw_HasLimit : bool;
  qw_HasRemaining : bool;
  qw_HasUsage : bool;
  qw_ResetAt : instant;
  qw_WindowSeconds : Z
}.

Record GrokBillingSnapshot := mkBilling {
  gb_Weekly : GrokQuotaWindow;
  gb_Monthly : GrokQuotaWindow;
  gb_SyncedAt : instant;
  gb_Source : string;
  gb_ProfileKnown : bool;
  gb_MonthlyUsed : float64;
  gb_OnDemandCap : float64;
  gb_OnDemandUsed : float64;
  gb_PrepaidBalance : float64;
  gb_NextProbeAt : instant;
  gb_LastProbeAt : instant
}.

Definition GrokPaidQuotaProbeInterval : duration := 15 * Minute.

Definition HasPaidEntitlement (b : GrokBillingSnapshot) : bool :=
  f64_ltb f64_zero (qw_Limit (gb_Monthly b)) || f64_ltb f64_zero (gb_OnDemandCap b)
  || f64_ltb f64_zero (gb_OnDemandUsed b) || f64_ltb f64_zero (gb_PrepaidBalance b).

Definition HasZeroProfile (b : GrokBillingSnapshot) : bool :=
  gb_ProfileKnown b && negb (Time.IsZero (gb_SyncedAt b)) && negb (HasPaidEntitlement b)
  && f64_eqb (gb_MonthlyUsed b) f64_zero && f64_eqb (qw_UsagePercent (gb_Weekly b)) f64_zero.

Definition IsExhausted (b : GrokBillingSnapshot) : bool :=
  let m := gb_Monthly b in
  let w := gb_Weekly b in
  if qw_HasLimit m && f64_ltb f64_zero (qw_Limit m) && qw_HasRemaining m
     && f64_leb (qw_Remaining m) f64_zero then true
  else qw_HasUsage w && f64_leb (f64_of_int 100) (qw_UsagePercent w)
       && negb (Time.IsZero (qw_ResetAt w)).

Definition PeriodEnd (b : GrokBillingSnapshot) : instant :=
  if Time.After (qw_ResetAt (gb_Monthly b)) (qw_ResetAt (gb_Weekly b))
  then qw_ResetAt (gb_Monthly b)
  else qw_ResetAt (gb_Weekly b).

Record GrokRateLimitSnapshot := mkRateLimits {
  rl_Requests : GrokQuotaWindow;
  rl_Tokens : GrokQuotaWindow;
  rl_Model : string;
  rl_ObservedAt : instant
}.

Record GrokMediaWindow := mkMedia {
  mw_Known : bool;
  mw_Available : bool;
  mw_Metered : bool;
  mw_Remaining : Z;
  mw_WindowSeconds : Z;
  mw_ResetAt : instant
}.

Record GrokImagineQuota := mkImagine {
  iq_ImagePro : GrokMediaWindow;
  iq_ImageEdit : GrokMediaWindow;
  iq_Video : GrokMediaWindow;
  iq_Video720p : GrokMediaWindow;
  iq_SyncedAt : instant
}.

Record GrokWebQuotaSnapshot := mkWebQuota {
  wq_Auto : GrokQuotaWindow;
  wq_Fast : GrokQuotaWindow;
  wq_Weekly : GrokQuotaWindow;
  wq_Imagine : GrokImagineQuota;
  wq_SyncedAt : instant;
  wq_Source : string
}.

Record GrokFreeQuotaSnapshot := mkFreeQuota {
  fq_Used : float64;
  fq_Limit : float64;
  fq_HasLimit : bool;
  fq_ResetAt : instant;
  fq_ConfirmedAt : instant
}.

Record GrokRefreshState := mkRefresh {
  gr_Failures : Z;
  gr_SameErrorCount : Z;
  gr_ErrorCode : string;
  gr_ErrorClass : string;
  gr_RetryAt : instant;
  gr_UpdatedAt : instant
}.

Definition InBackoff (s : GrokRefreshState) (now : instant) : bool :=
  negb (Time.IsZero (gr_RetryAt s)) && Time.Before now (gr_RetryAt s).

(** [modelcatalog.Profile]; a nil effort menu is [None]. *)
Record Profile := mkProfile {
  pf_Name : string;
  pf_Description : string;
  pf_ModelID : string;
  pf_ReasoningEfforts : option (list string);
  pf_DefaultReasoningEffort : string;
  pf_SupportsReasoningEffort : bool;
  pf_ContextWindow : Z;
  pf_MaxCompletionTokens : Z;
  pf_SupportsBackendSearch : bool
}.

(** [append([]T(nil), s...)]: a copy that is nil when [s] holds nothing. *)
Definition append_to_nil {A} (s : option (list A)) : option (list A) :=
  match s with Some (x :: l) => Some (x :: l) | _ => None end.

Definition CloneProfiles (profiles : option (list Profile)) : option (list Profile) :=
  match profiles with
  | None => None
  | Some ps =>
      Some (map (fun p => mkProfile (pf_Name p) (pf_Description p) (pf_ModelID p)
                            (append_to_nil (pf_ReasoningEfforts p))
                            (pf_DefaultReasoningEffort p) (pf_SupportsReasoningEffort p)
                            (pf_ContextWindow p) (pf_MaxCompletionTokens p)
                            (pf_SupportsBackendSearch p)) ps)
  end.

(** ** The account row ([store.go]) *)

Definition ModelCooldownThrottled : string := "throttled".
Definition ModelCooldownUnavailable : string := "unavailable".
Definition ModelCooldownEntitlementFloor : duration := Hour.

Record Account := mkAccount {
  ID : Z;
  Name : string;
  AccountType : string;
  ClientCookie : string;
  RefreshToken : string;
  UserID : string;
  AgentMode : string;
  Email : string;
  Weight : Z;
  MaxConcurrent : Z;
  Enabled : bool;
  Token : string;
  Subscription : string;
  UsageCurrent : float64;
  UsageTotal : float64;
  UsageLimit : float64;
  TokensToday : float64;
  TokensDate : string;
  StatusCode : string;
  WorkBuddyRestrictedUntil : instant;
  AuthStatus : string;
  RateLimitFailures : Z;
  QualityFailures : Z;
  QualityRevision : Z;
  QualityCooldownUntil : instant;
  QualityReason : string;
  StatusMessage : string;
  LastAttempt : instant;
  VerifiedAt : instant;
  ClearVerifiedAt : bool;
  QuotaResetAt : instant;
  RequestCount : Z;
  LastUsedAt : instant;
  CreatedAt : instant;
  UpdatedAt : instant;
  CredentialType : string;
  OAuthAccessToken : string;
  OAuthRefreshToken : string;
  OAuthExpiresAt : instant;
  TeamID : string;
  GrokRefresh : GrokRefreshState;
  GrokProvider : string;
  NSFWEnabled : bool;
  GrokWebQuota : GrokWebQuotaSnapshot;
  GrokWebSyncAt : instant;
  GrokWebSyncError : string;
  GrokModels : option (list string);
  GrokModelCatalog : option (list Profile);
  GrokModelsSyncedAt : instant;
  GrokBilling : GrokBillingSnapshot;
  GrokRateLimits : GrokRateLimitSnapshot;
  GrokFreeQuota : GrokFreeQuotaSnapshot;
  ModelCooldowns : gmap string instant;
  ModelCooldownReasons : gmap string string;
  WorkBuddyAccessToken : string;
  WorkBuddyRefreshToken : string;
  WorkBuddyExpiresAt : instant;
  WorkBuddyUID : string;
  ReplaceWorkBuddyCredentials : bool;
  WorkBuddyModelIDs : list string;
  WorkBuddyModelsSyncedAt : instant;
  WorkBuddyQuota : WorkBuddyQuotaSnapshot;
  ClineAccessToken : string;
  ClineRefreshToken : string;
  ClineExpiresAt : instant;
  ClineEmail : string;
  ClinePlan : string;
  ReplaceClineCredentials : bool;
  ClineModelIDs : list string;
  ClineModelsSyncedAt : instant
}.

(** ** Record structure *)

#[export] Instance WorkBuddyQuotaSnapshot_eta : Eta WorkBuddyQuotaSnapshot := fun r =>
  mkWBQuota (wb_Limit r) (wb_Remaining r) (wb_Used r) (wb_PackageRemaining r)
    (wb_LastConsumedUnits r) (wb_ResetAt r) (wb_PeriodEnd r) (wb_PackageName r)
    (wb_Unit r) (wb_SyncedAt r).

#[export] Instance GrokQuotaWindow_eta : Eta GrokQuotaWindow := fun r =>
  mkWindow (qw_Limit r) (qw_Remaining r) (qw_UsagePercent r) (qw_HasLimit r)
    (qw_HasRemaining r) (qw_HasUsage r) (qw_ResetAt r) (qw_WindowSeconds r).

#[export] Instance GrokBillingSnapshot_eta : Eta GrokBillingSnapshot := fun r =>
  mkBilling (gb_Weekly r) (gb_Monthly r) (gb_SyncedAt r) (gb_Source r) (gb_ProfileKnown r)
    (gb_MonthlyUsed r) (gb_OnDemandCap r) (gb_OnDemandUsed r) (gb_PrepaidBalance r)
    (gb_NextProbeAt r) (gb_LastProbeAt r).

#[export] Instance GrokRateLimitSnapshot_eta : Eta GrokRateLimitSnapshot := fun r =>
  mkRateLimits (rl_Requests r) (rl_Tokens r) (rl_Model r) (rl_ObservedAt r).

#[export] Instance GrokWebQuotaSnapshot_eta : Eta GrokWebQuotaSnapshot := fun r =>
  mkWebQuota (wq_Auto r) (wq_Fast r) (wq_Weekly r) (wq_Imagine r) (wq_SyncedAt r) (wq_Source r).

#[export] Instance Account_eta : Eta Account := fun r =>
  mkAccount (ID r) (Name r) (AccountType r) (ClientCookie r) (RefreshToken r) (UserID r)
    (AgentMode r) (Email r) (Weight r) (MaxConcurrent r) (Enabled r) (Token r)
    (Subscription r) (UsageCurrent r) (UsageTotal r) (UsageLimit r) (TokensToday r)
    (TokensDate r) (StatusCode r) (WorkBuddyRestrictedUntil r) (AuthStatus r)
    (RateLimitFailures r) (QualityFailures r) (QualityRevision r)
    (QualityCooldownUntil r) (QualityReason r) (StatusMessage r) (LastAttempt r)
    (VerifiedAt r) (ClearVerifiedAt r) (QuotaResetAt r) (RequestCount r) (LastUsedAt r)
    (CreatedAt r) (UpdatedAt r) (CredentialType r) (OAuthAccessToken r)
    (OAuthRefreshToken r) (OAuthExpiresAt r) (TeamID r) (GrokRefresh r)
    (GrokProvider r) (NSFWEnabled r) (GrokWebQuota r) (GrokWebSyncAt r)
    (GrokWebSyncError r) (GrokModels r) (GrokModelCatalog r) (GrokModelsSyncedAt r)
    (GrokBilling r) (GrokRateLimits r) (GrokFreeQuota r) (ModelCooldowns r)
    (ModelCooldownReasons r) (WorkBuddyAccessToken r) (WorkBuddyRefreshToken r)
    (WorkBuddyExpiresAt r) (WorkBuddyUID r) (ReplaceWorkBuddyCredentials r)
    (WorkBuddyModelIDs r) (WorkBuddyModelsSyncedAt r) (WorkBuddyQuota r)
    (ClineAccessToken r) (ClineRefreshToken r) (ClineExpiresAt r) (ClineEmail r)
    (ClinePlan r) (ReplaceClineCredentials r) (ClineModelIDs r) (ClineModelsSyncedAt r).

#[export] Instance WorkBuddyQuotaSnapshot_eq_dec : EqDecision WorkBuddyQuotaSnapshot.
Proof. solve_decision. Defined.
#[export] Instance GrokQuotaWindow_eq_dec : EqDecision GrokQuotaWindow.
Proof. solve_decision. Defined.
#[export] Instance GrokBillingSnapshot_eq_dec : EqDecision GrokBillingSnapshot.
Proof. solve_decision. Defined.
#[export] Instance GrokRateLimitSnapshot_eq_dec : EqDecision GrokRateLimitSnapshot.
Proof. solve_decision. Defined.
#[export] Instance GrokMediaWindow_eq_dec : EqDecision GrokMediaWindow.
Proof. solve_decision. Defined.
#[export] Instance GrokImagineQuota_eq_dec : EqDecision GrokImagineQuota.
Proof. solve_decision. Defined.
#[export] Instance GrokWebQuotaSnapshot_eq_dec : EqDecision GrokWebQuotaSnapshot.
Proof. solve_decision. Defined.
#[export] Instance GrokFreeQuotaSnapshot_eq_dec : EqDecision GrokFreeQuotaSnapshot.
Proof. solve_decision. Defined.
#[export] Instance GrokRefreshState_eq_dec : EqDecision GrokRefreshState.
Proof. solve_decision. Defined.
#[export] Instance Profile_eq_dec : EqDecision Profile.
Proof. solve_decision. Defined.
#[export] Instance Account_eq_dec : EqDecision Account.
Proof. solve_decision. Defined.

(** ** Zero values *)

Definition zero_window : GrokQuotaWindow :=
  mkWindow f64_zero f64_zero f64_zero false false false Time.zero 0.
Definition zero_billing : GrokBillingSnapshot :=
  mkBilling zero_window zero_window Time.zero "" false f64_zero f64_zero f64_zero f64_zero
    Time.zero Time.zero.
Definition zero_media : GrokMediaWindow := mkMedia false false false 0 0 Time.zero.
Definition zero_webquota : GrokWebQuotaSnapshot :=
  mkWebQuota zero_window zero_window zero_window
    (mkImagine zero_media zero_media zero_media zero_media Time.zero) Time.zero "".

(** [Account{}]. *)
Definition zero_account : Account :=
  {| ID := 0;
     Name := "";
     AccountType := "";
     ClientCookie := "";
     RefreshToken := "";
     UserID := "";
     AgentMode := "";
     Email := "";
     Weight := 0;
     MaxConcurrent := 0;
     Enabled := false;
     Token := "";
     Subscription := "";
     UsageCurrent := f64_zero;
     UsageTotal := f64_zero;
     UsageLimit := f64_zero;
     TokensToday := f64_zero;
     TokensDate := "";
     StatusCode := "";
     WorkBuddyRestrictedUntil := Time.zero;
     AuthStatus := "";
     RateLimitFailures := 0;
     QualityFailures := 0;
     QualityRevision := 0;
     QualityCooldownUntil := Time.zero;
     QualityReason := "";
     StatusMessage := "";
     LastAttempt := Time.zero;
     VerifiedAt := Time.zero;
     ClearVerifiedAt := false;
     QuotaResetAt := Time.zero;
     RequestCount := 0;
     LastUsedAt := Time.zero;
     CreatedAt := Time.zero;
     UpdatedAt := Time.zero;
     CredentialType := "";
     OAuthAccessToken := "";
     OAuthRefreshToken := "";
     OAuthExpiresAt := Time.zero;
     TeamID := "";
     GrokRefresh := (mkRefresh 0 0 "" "" Time.zero Time.zero);
     GrokProvider := "";
     NSFWEnabled := false;
     GrokWebQuota := zero_webquota;
     GrokWebSyncAt := Time.zero;
     GrokWebSyncError := "";
     GrokModels := None;
     GrokModelCatalog := None;
     GrokModelsSyncedAt := Time.zero;
     GrokBilling := zero_billing;
     GrokRateLimits := (mkRateLimits zero_window zero_window "" Time.zero);
     GrokFreeQuota := (mkFreeQuota f64_zero f64_zero false Time.zero Time.zero);
     ModelCooldowns := ∅;
     ModelCooldownReasons := ∅;
     WorkBuddyAccessToken := "";
     WorkBuddyRefreshToken := "";
     WorkBuddyExpiresAt := Time.zero;
     WorkBuddyUID := "";
     ReplaceWorkBuddyCredentials := false;
     WorkBuddyModelIDs := [];
     WorkBuddyModelsSyncedAt := Time.zero;
     WorkBuddyQuota := (mkWBQuota f64_zero f64_zero f64_zero f64_zero 0 Time.zero Time.zero "" "" Time.zero);
     ClineAccessToken := "";
     ClineRefreshToken := "";
     ClineExpiresAt := Time.zero;
     ClineEmail := "";
     ClinePlan := "";
     ReplaceClineCredentials := false;
     ClineModelIDs := [];
     ClineModelsSyncedAt := Time.zero |}.

(** ** Routing state of the row ([store.go], [account_clone.go]) *)

Definition AccountStatusWorkBuddyQuotaExhausted : string := "workbuddy_quota_exhausted".
Definition AccountAuthStatusActive : string := "active".
Definition AccountAuthStatusReauthRequired : string := "reauthRequired".

(** A nil [*Account] is [None]. *)
Definition AccountAuthActive (acc : option Account) : bool :=
  match acc with
  | None => false
  | Some a =>
      let status := TrimSpace (AuthStatus a) in
      is_empty status || EqualFold status AccountAuthStatusActive
  end.

(** The copy owns its slices and maps; as a value it differs from the original
    only in the empty effort menus that the profile copy turns into nil. *)
Definition Clone (a : option Account) : option Account :=
  match a with
  | None => None
  | Some a => Some (a <| GrokModelCatalog := CloneProfiles (GrokModelCatalog a) |>)
  end.

(** ** WorkBuddy restriction ([workbuddy_restriction.go]) *)

Definition WorkBuddyRestrictionCooldown : duration := 24 * Hour.
Definition WorkBuddyRestrictionMessage : string :=
  "workbuddy API error: status=403, code=11140, message=account restricted due to unusual activity".

Definition WorkBuddyRestrictionUntil (acc : option Account) : instant :=
  match acc with
  | None => Time.zero
  | Some a =>
      if negb (EqualFold (AccountType a) "workbuddy") then Time.zero
      else if negb (Time.IsZero (WorkBuddyRestrictedUntil a)) then WorkBuddyRestrictedUntil a
      else if String.eqb (StatusCode a) "403" && IsWorkBuddyRestricted (StatusMessage a)
              && negb (Time.IsZero (LastAttempt a))
      then Time.Add (LastAttempt a) WorkBuddyRestrictionCooldown
      else Time.zero
  end.

(** ** Per-model cooldowns ([account_cooldown.go]) *)

Definition knownModelCooldownReason (reason : string) : string :=
  if String.eqb reason ModelCooldownThrottled || String.eqb reason ModelCooldownUnavailable
  then reason else "".

Definition live_deadline (until now : instant) : bool :=
  negb (Time.IsZero until) && Time.After until now.

(** One turn of the loop of [mergeModelCooldowns]. *)
Definition merge_deadline (now : instant) (merged : gmap string instant)
    (entry : string * instant) : gmap string instant :=
  let '(model, until) := entry in
  let name := TrimSpace model in
  if is_empty name || negb (live_deadline until now) then merged
  else match merged !! name with
       | Some current => if Time.After until current then <[name := until]> merged else merged
       | None => <[name := until]> merged
       end.

(** The empty map stands for nil. *)
Definition mergeModelCooldowns (now : instant) (existing incoming : gmap string instant) :
    gmap string instant :=
  foldl (merge_deadline now) ∅ (map_to_list existing ++ map_to_list incoming).

Definition keep_existing_reason (now : instant) (existingUntil : gmap string instant)
    (merged : gmap string string) (entry : string * string) : gmap string string :=
  let '(model, reason) := entry in
  let name := TrimSpace model in
  let until := default Time.zero (existingUntil !! name) in
  if is_empty name || negb (live_deadline until now) then merged
  else let known := knownModelCooldownReason reason in
       if is_empty known then merged else <[name := known]> merged.

Definition take_incoming_reason (now : instant) (existingUntil incomingUntil : gmap string instant)
    (merged : gmap string string) (entry : string * string) : gmap string string :=
  let '(model, reason) := entry in
  let name := TrimSpace model in
  match incomingUntil !! name with
  | None => merged
  | Some until =>
      if is_empty name || negb (live_deadline until now) then merged
      else if match existingUntil !! name with
              | Some stored => Time.After stored until
              | None => false
              end then merged
      else let known := knownModelCooldownReason reason in
           if is_empty known then merged else <[name := known]> merged
  end.

Definition mergeModelCooldownReasons (now : instant) (existing incoming : gmap string string)
    (existingUntil incomingUntil : gmap string instant) : gmap string string :=
  foldl (take_incoming_reason now existingUntil incomingUntil)
    (foldl (keep_existing_reason now existingUntil) ∅ (map_to_list existing))
    (map_to_list incoming).

Definition RecordModelCooldownWithReason (now : instant) (acc : Account) (model : string)
    (until : instant) (reason : string) : Account :=
  if negb (live_deadline until now) then acc
  else
    let name := TrimSpace model in
    if is_empty name then acc
    else if match ModelCooldowns acc !! name with
            | Some current => negb (Time.After until current)
            | None => false
            end then acc
    else
      let known := knownModelCooldownReason reason in
      let label := if is_empty known then ModelCooldownThrottled else known in
      acc <| ModelCooldowns := <[name := until]> (ModelCooldowns acc) |>
          <| ModelCooldownReasons := <[name := label]> (ModelCooldownReasons acc) |>.

Definition RecordModelCooldown (now : instant) (acc : Account) (model : string)
    (until : instant) : Account :=
  RecordModelCooldownWithReason now acc model until ModelCooldownThrottled.

Definition ModelCooldownRemaining (acc : option Account) (model : string) (now : instant) :
    duration :=
  match acc with
  | None => 0
  | Some a =>
      match ModelCooldowns a !! TrimSpace model with
      | None => 0
      | Some until => if negb (live_deadline until now) then 0 else Time.Sub until now
      end
  end.

Definition ModelCooldownKind (acc : option Account) (model : string) (now : instant) : string :=
  match acc with
  | None => ""
  | Some a =>
      let name := TrimSpace model in
      let remaining := ModelCooldownRemaining acc name now in
      if remaining <=? 0 then ""
      else
        let known := knownModelCooldownReason (default "" (ModelCooldownReasons a !! name)) in
        if negb (is_empty known) then known
        else if ModelCooldownEntitlementFloor <? remaining then ModelCooldownUnavailable
        else ModelCooldownThrottled
  end.

(** * Properties *)

(** ** Merging cooldowns *)

(** [n] is held until [u] by some live entry of the map [m]. *)
Definition cooldown_entry (now : instant) (m : gmap string instant) (n : string) (u : instant) : Prop :=
  exists k, m !! k = Some u /\ TrimSpace k = n /\ n <> "" /\ live_deadline u now = true.

Definition omax (x y : option instant) : option instant :=
  match x, y with
  | Some a, Some b => Some (Z.max a b)
  | Some a, None => Some a
  | None, y => y
  end.

Definition entry_for (now : instant) (n : string) (e : string * instant) : option instant :=
  if bool_decide (TrimSpace e.1 = n) && negb (is_empty n) && live_deadline e.2 now
  then Some e.2 else None.

Lemma merge_deadline_lookup now m e n :
  merge_deadline now m e !! n = omax (m !! n) (entry_for now n e).
Proof.
  destruct e as [k u]. unfold merge_deadline, entry_for, live_deadline. simpl.
  destruct (decide (TrimSpace k = n)) as [->|Hne].
  - rewrite bool_decide_true by done. simpl.
    destruct (is_empty n), (negb (Time.IsZero u)), (Time.After u now); simpl;
      try (by destruct (m !! n)).
    destruct (m !! n) as [c|] eqn:E; simpl; [|by rewrite lookup_insert_eq].
    unfold Time.After. destruct (Z.ltb_spec c u).
    + rewrite lookup_insert_eq. simpl. f_equal. lia.
    + rewrite E. f_equal. lia.
  - rewrite bool_decide_false by done. simpl.
    assert (forall x, <[TrimSpace k := x]> m !! n = m !! n) as Hi
      by (intros; by rewrite lookup_insert_ne).
    repeat case_match; rewrite ?Hi; by destruct (m !! n).
Qed.

Lemma merge_fold_lookup now l m n :
  foldl (merge_deadline now) m l !! n = foldl omax (m !! n) (entry_for now n <$> l).
Proof.
  revert m. induction l as [|e l IH]; intros m; [done|].
  cbn [foldl fmap list_fmap]. by rewrite IH, merge_deadline_lookup.
Qed.

Lemma omax_inv x y w : omax x y = Some w -> x = Some w \/ y = Some w.
Proof.
  destruct x as [a|], y as [b|]; simpl; intros [= <-]; auto.
  destruct (Z.max_spec a b) as [[_ ->]|[_ ->]]; auto.
Qed.

Lemma omax_ub x y v : x = Some v \/ y = Some v -> exists w, omax x y = Some w /\ v <= w.
Proof.
  destruct x as [a|], y as [b|]; simpl; intros [[= ->]|[= ->]]; eexists; (split; [done|lia]).
Qed.

Lemma foldl_omax_spec l x u :
  foldl omax x l = Some u <->
  (x = Some u \/ Some u ∈ l) /\ (forall v, x = Some v \/ Some v ∈ l -> v <= u).
Proof.
  revert x. induction l as [|y l IH]; intros x; cbn [foldl].
  - split.
    + intros ->. split; [by left|]. intros v [[= ->]|Hv]; [lia|by apply elem_of_nil in Hv].
    + intros [[->|Hu] _]; [done|by apply elem_of_nil in Hu].
  - rewrite IH. split; intros [Hu Hmax]; split.
    + rewrite elem_of_cons. destruct Hu as [[Hx|Hy]%omax_inv|Hl]; auto.
    + assert (forall v, x = Some v \/ y = Some v -> v <= u) as Hxy.
      { intros v (w & Hw & Hle)%omax_ub. transitivity w; auto. }
      intros v [Hv|[Hv|Hv]%elem_of_cons]; auto.
    + assert (forall v, x = Some v \/ y = Some v -> v = u -> omax x y = Some u) as Hxy.
      { intros v (w & Hw & Hle)%omax_ub ->. rewrite Hw. f_equal.
        assert (w <= u); [|lia]. apply Hmax. rewrite elem_of_cons.
        apply omax_inv in Hw as [->| ->]; auto. }
      destruct Hu as [Hv|[Hv|Hv]%elem_of_cons]; eauto.
    + intros v Hv. apply Hmax. rewrite elem_of_cons.
      destruct Hv as [[->| ->]%omax_inv|Hv]; auto.
Qed.

Lemma entry_for_elem now n u m :
  Some u ∈ (entry_for now n <$> map_to_list m) <-> cooldown_entry now m n u.
Proof.
  unfold cooldown_entry, entry_for. rewrite list_elem_of_fmap. split.
  - intros ([k v] & Hx & Hk%elem_of_map_to_list). simpl in Hx.
    destruct (bool_decide _ && _ && _) eqn:E; [|done]. simplify_eq.
    rewrite !andb_true_iff in E. destruct E as [[Ht Hn] Hl]. to_prop.
    exists k. split; [done|]. split; [done|]. split; [by apply is_empty_false|done].
  - intros (k & Hk & Ht & Hn & Hl). exists (k, u). split; [|by apply elem_of_map_to_list].
    simpl. rewrite bool_decide_true, Hl by done.
    apply is_empty_false in Hn. by rewrite Hn.
Qed.

Lemma mergeModelCooldowns_lookup now e i n u :
  mergeModelCooldowns now e i !! n = Some u <->
  (cooldown_entry now e n u \/ cooldown_entry now i n u)
  /\ (forall v, cooldown_entry now e n v \/ cooldown_entry now i n v -> v <= u).
Proof.
  unfold mergeModelCooldowns. rewrite merge_fold_lookup, lookup_empty, foldl_omax_spec.
  rewrite fmap_app. setoid_rewrite elem_of_app. setoid_rewrite entry_for_elem.
  split; intros [Hu Hm]; split.
  - destruct Hu as [Hu|Hu]; [done|exact Hu].
  - intros v Hv. apply Hm. by right.
  - right. exact Hu.
  - intros v [Hv|Hv]; [done|]. by apply Hm.
Qed.

(** Merging the cooldowns of two copies of an account keeps,
    for every model, exactly the latest deadline that either copy holds and that
    is still ahead; expired deadlines and blank names are dropped, and the
    result does not depend on which copy is the stored one. *)
Theorem mergeModelCooldowns_latest (now : instant) (existing incoming : gmap string instant)
    (model : string) (until : instant) :
  (mergeModelCooldowns now existing incoming !! model = Some until <->
     (cooldown_entry now existing model until \/ cooldown_entry now incoming model until)
     /\ (forall u, cooldown_entry now existing model u \/ cooldown_entry now incoming model u ->
         u <= until))
  /\ mergeModelCooldowns now existing incoming = mergeModelCooldowns now incoming existing.
Proof.
  split; [apply mergeModelCooldowns_lookup|].
  apply map_eq. intros n. apply option_eq. intros u.
  rewrite !mergeModelCooldowns_lookup.
  split; intros [H Hm]; (split; [tauto|]); intros v Hv; apply Hm; tauto.
Qed.

Lemma mergeModelCooldowns_is_Some now e i n u :
  cooldown_entry now e n u \/ cooldown_entry now i n u ->
  is_Some (mergeModelCooldowns now e i !! n).
Proof.
  intros H. unfold mergeModelCooldowns. rewrite merge_fold_lookup, lookup_empty, fmap_app.
  assert (Some u ∈ (entry_for now n <$> map_to_list e) ++ (entry_for now n <$> map_to_list i)) as Hin
    by (rewrite elem_of_app, !entry_for_elem; exact H).
  revert Hin. generalize (None (A := instant)).
  induction ((entry_for now n <$> map_to_list e) ++ (entry_for now n <$> map_to_list i))
    as [|y l IH]; intros x Hin; [by apply elem_of_nil in Hin|].
  cbn [foldl]. apply elem_of_cons in Hin as [<-|Hin]; [|by apply IH].
  assert (forall k, is_Some k -> is_Some (foldl omax k l)) as Hk.
  { clear. induction l as [|z l IH]; intros k Hk; [done|]. apply IH.
    destruct Hk as [w ->]. destruct z; simpl; eauto. }
  apply Hk. destruct x; simpl; eauto.
Qed.

(** A label is present only beside the deadline it describes. *)
Lemma keep_existing_covered now eu l m :
  (forall n, is_Some (m !! n) -> exists u, cooldown_entry now eu n u) ->
  forall n, is_Some (foldl (keep_existing_reason now eu) m l !! n) ->
    exists u, cooldown_entry now eu n u.
Proof.
  revert m. induction l as [|[k r] l IH]; intros m Hm; [done|].
  cbn [foldl]. apply IH. intros n. unfold keep_existing_reason.
  destruct (is_empty (TrimSpace k)) eqn:Ek; [apply Hm|]. simpl.
  destruct (live_deadline _ now) eqn:El; [|apply Hm]. simpl.
  destruct (is_empty (knownModelCooldownReason r)); [apply Hm|].
  rewrite lookup_insert. case_decide as Hn; [|apply Hm]. intros _. subst n.
  destruct (eu !! TrimSpace k) as [u|] eqn:Eu; [|done]. exists u.
  exists (TrimSpace k). split; [done|]. split; [apply TrimSpace_idemp|].
  split; [by apply is_empty_false|done].
Qed.

Lemma take_incoming_covered now eu iu l m (P : string -> Prop) :
  (forall n u, cooldown_entry now iu n u -> P n) ->
  (forall n, is_Some (m !! n) -> P n) ->
  forall n, is_Some (foldl (take_incoming_reason now eu iu) m l !! n) -> P n.
Proof.
  intros Hi. revert m. induction l as [|[k r] l IH]; intros m Hm; [done|].
  cbn [foldl]. apply IH. intros n. unfold take_incoming_reason.
  destruct (iu !! TrimSpace k) as [u|] eqn:Eu; [|apply Hm].
  destruct (is_empty (TrimSpace k)) eqn:Ek; [apply Hm|]. simpl.
  destruct (live_deadline _ now) eqn:El; [|apply Hm]. simpl.
  destruct (match eu !! TrimSpace k with Some _ => _ | None => _ end); [apply Hm|].
  destruct (is_empty (knownModelCooldownReason r)); [apply Hm|].
  rewrite lookup_insert. case_decide as Hn; [|apply Hm]. intros _. subst n.
  apply (Hi _ u). exists (TrimSpace k). split; [done|]. split; [apply TrimSpace_idemp|].
  split; [by apply is_empty_false|done].
Qed.

(** After a merge every label sits beside a live deadline of
    the merged map: a reason never outlives the cooldown it explains. *)
Theorem merged_reasons_have_deadlines (now : instant) (er ir : gmap string string)
    (eu iu : gmap string instant) (model : string) :
  is_Some (mergeModelCooldownReasons now er ir eu iu !! model) ->
  is_Some (mergeModelCooldowns now eu iu !! model).
Proof.
  intros H. unfold mergeModelCooldownReasons in H.
  apply take_incoming_covered with
    (P := fun n => exists u, cooldown_entry now eu n u \/ cooldown_entry now iu n u) in H.
  - destruct H as [u Hu]. by apply (mergeModelCooldowns_is_Some now eu iu model u).
  - intros n u Hu. eauto.
  - intros n Hn. apply keep_existing_covered in Hn; [naive_solver|].
    intros k. rewrite lookup_empty. by intros [? ?].
Qed.

Lemma merged_reasons_have_deadlines_witness :
  is_Some (mergeModelCooldowns 1 {["m" := 5]} {["n" := 1]} !! "m").
Proof.
  apply (merged_reasons_have_deadlines 1 {["m" := "throttled"]} ∅). by exists "throttled".
Defined.

(** ** Recording a cooldown *)

Lemma known_reason_idemp r : knownModelCooldownReason (knownModelCooldownReason r) = knownModelCooldownReason r.
Proof.
  unfold knownModelCooldownReason.
  destruct (String.eqb r ModelCooldownThrottled || String.eqb r ModelCooldownUnavailable) eqn:E;
    [by rewrite E|done].
Qed.

Lemma ModelCooldownKind_eq a model t :
  ModelCooldownKind (Some a) model t =
  match ModelCooldowns a !! TrimSpace model with
  | Some until =>
      if negb (live_deadline until t) then ""
      else let known := knownModelCooldownReason
                          (default "" (ModelCooldownReasons a !! TrimSpace model)) in
           if negb (is_empty known) then known
           else if ModelCooldownEntitlementFloor <? Time.Sub until t
                then ModelCooldownUnavailable else ModelCooldownThrottled
  | None => ""
  end.
Proof.
  unfold ModelCooldownKind, ModelCooldownRemaining. cbn zeta. rewrite TrimSpace_idemp.
  destruct (ModelCooldowns a !! TrimSpace model) as [until|]; [|done].
  destruct (live_deadline until t) eqn:E; [|done]. simpl.
  unfold live_deadline in E. apply andb_true_iff in E as [_ E]. apply Time.After_true in E.
  assert (1 <= Time.Sub until t) by (apply Time.Sub_ge; unfold max_int64; lia).
  destruct (Z.leb_spec (Time.Sub until t) 0); [lia|done].
Qed.

(** The label a recorded cooldown carries. *)
Definition recorded_label (reason : string) : string :=
  if is_empty (knownModelCooldownReason reason) then ModelCooldownThrottled
  else knownModelCooldownReason reason.

Lemma recorded_label_known reason :
  knownModelCooldownReason (recorded_label reason) = recorded_label reason
  /\ is_empty (recorded_label reason) = false.
Proof.
  unfold recorded_label. destruct (is_empty (knownModelCooldownReason reason)) eqn:E; [done|].
  by rewrite known_reason_idemp, E.
Qed.

(** Recording a cooldown that outlasts the stored one makes
    the model read as held, with the recorded reason, until exactly that
    deadline; a shorter cooldown changes nothing, so it cannot relabel a longer
    verdict; and no other model of the account is affected. *)
Theorem RecordModelCooldown_effect (now : instant) (acc : Account) (model : string)
    (until : instant) (reason other : string) (t : instant) :
  0 <= now < until -> TrimSpace model <> "" ->
  let acc' := RecordModelCooldownWithReason now acc model until reason in
  let stored := default Time.zero (ModelCooldowns acc !! TrimSpace model) in
  (stored < until ->
     ModelCooldownKind (Some acc') model t
     = if t <? until then recorded_label reason else "")
  /\ (until <= stored -> acc' = acc)
  /\ (TrimSpace other <> TrimSpace model ->
     ModelCooldownKind (Some acc') other t = ModelCooldownKind (Some acc) other t
     /\ ModelCooldownRemaining (Some acc') other t = ModelCooldownRemaining (Some acc) other t).
Proof.
  intros Hnow Hname acc' stored.
  assert (live_deadline until now = true) as Hlive.
  { unfold live_deadline. time_prop. apply andb_true_iff. rewrite negb_true_iff.
    split; [apply Z.eqb_neq; lia|apply Z.ltb_lt; lia]. }
  apply is_empty_false in Hname.
  unfold acc', RecordModelCooldownWithReason. rewrite Hlive, Hname. cbn [negb].
  destruct (match ModelCooldowns acc !! TrimSpace model with Some _ => _ | None => false end) eqn:E.
  - destruct (ModelCooldowns acc !! TrimSpace model) as [c|] eqn:Ec; [|done].
    unfold stored. simpl. to_prop. apply Time.After_false in E. split; [lia|done].
  - split; [|split].
    + intros Hs. rewrite ModelCooldownKind_eq. cbn. rewrite !lookup_insert_eq. cbn.
      destruct (recorded_label_known reason) as [Hk Hne].
      change (if is_empty (knownModelCooldownReason reason) then ModelCooldownThrottled
              else knownModelCooldownReason reason) with (recorded_label reason).
      rewrite Hk, Hne. cbn. unfold live_deadline, Time.IsZero, Time.After.
      destruct (Z.eqb_spec until 0); [lia|]. cbn. by destruct (t <? until).
    + unfold stored. destruct (ModelCooldowns acc !! TrimSpace model) as [c|]; simpl.
      * to_prop. apply Time.After_true in E. lia.
      * unfold Time.zero. lia.
    + intros Hne. rewrite !ModelCooldownKind_eq. unfold ModelCooldownRemaining. cbn.
      rewrite !lookup_insert_ne by done. done.
Qed.

Lemma RecordModelCooldown_effect_witness :
  ModelCooldownKind (Some (RecordModelCooldownWithReason 1 zero_account " grok-4 " 9 "THROTTLED"))
    "grok-4" 8 = "throttled".
Proof.
  destruct (RecordModelCooldown_effect 1 zero_account " grok-4 " 9 "THROTTLED" "other" 8)
    as [H _]; [lia|by vm_compute|]. exact (H eq_refl).
Defined.
