(* ===== verification/AccountPolicy.v ===== *)
(** How one upstream result becomes an account state change:
    [internal/accountpolicy]. *)

From Stdlib Require Import Ascii.
From S2P Require Import Prelude GoFloat UpstreamErrors Account.

(** ** Verdicts ([policy.go]) *)

Inductive Scope := ScopeNone | ScopeModel | ScopeAccount | ScopeCredential.

#[export] Instance Scope_eq_dec : EqDecision Scope.
Proof. solve_decision. Defined.

Definition CooldownAuth : duration := 5 * Minute.
Definition CooldownRateLimitBase : duration := 30 * Second.
Definition CooldownRateLimitMax : duration := 30 * Minute.
Definition CooldownRateLimit : duration := CooldownRateLimitBase.
Definition CooldownPayment : duration := 24 * Hour.
Definition CooldownBlocked : duration := 24 * Hour.
Definition CooldownBlockedGro : duration := 10 * Minute.
Definition CooldownTransient : duration := 5 * Minute.
Definition CredentialReverify : duration := 30 * Minute.

Record Verdict := mkVerdict {
  v_Status : string;
  v_Message : string;
  v_Scope : Scope;
  v_Retryable : bool;
  v_SwitchAccount : bool;
  v_NeedsLogin : bool;
  v_Cooldown : duration;
  v_Model : string;
  v_ModelCooldownKind : string;
  v_At : instant
}.

Definition Success (at_ : instant) : Verdict :=
  mkVerdict "" "" ScopeNone false false false 0 "" "" at_.

(** ** Grok plans ([grok_plan.go]) *)

(** [NewReplacer(" ", "", "_", "", "-", "", "+", "plus")]. *)
Fixpoint plan_replacer (s : string) : string :=
  match s with
  | EmptyString => EmptyString
  | String c s' =>
      if Ascii.eqb c " "%char || Ascii.eqb c "_"%char || Ascii.eqb c "-"%char then plan_replacer s'
      else if Ascii.eqb c "+"%char then "plus" +:+ plan_replacer s'
      else String c (plan_replacer s')
  end.

Definition NormalizeGrokPlan (subscription : string) : string :=
  plan_replacer (ToLower (TrimSpace subscription)).

Definition GrokBuildPlanIsFree (subscription : string) : bool :=
  str_in (NormalizeGrokPlan subscription)
    ["free"; "grokfree"; "freetier"; "basic"; "grokbasic"; "xbasic"].

Definition GrokBuildPlanIsPaid (subscription : string) : bool :=
  let plan := NormalizeGrokPlan subscription in
  if str_in plan ["super"; "pro"; "grokpro"; "heavy"; "lite"; "xpremium"; "xpremiumplus";
                  "paid"; "team"; "enterprise"; "apikey"] then true
  else HasPrefix plan "supergrok" || HasPrefix plan "enterprise" || HasPrefix plan "team".

Definition IsGrokAccount (acc : option Account) : bool :=
  match acc with
  | None => false
  | Some a => EqualFold (TrimSpace (AccountType a)) "grok"
  end.

Definition accountType (acc : option Account) : string :=
  match acc with None => "" | Some a => AccountType a end.

Definition GrokBuildAccountIsPaid (acc : option Account) : bool :=
  if negb (IsGrokAccount acc) then false
  else match acc with
       | None => false
       | Some a => GrokBuildPlanIsPaid (Subscription a) || HasPaidEntitlement (GrokBilling a)
       end.

(** ** Phrase tests *)

Definition isClientRefusal (lower : string) : bool :=
  contains lower "content policy rejected"
  || contains lower "datainspectionfailed"
  || contains lower "input text data may contain"
  || contains lower "rejected the request parameters".

Definition isGlobalUpstreamRefusal (text : string) : bool :=
  let text := ReplaceAll (ToLower text) "\" "" in
  contains text "available upstream accounts are rate-limited"
  || contains text "available upstream accounts are rate limited".

Definition isEntitlementRefusal (lower : string) : bool :=
  contains lower "not subscribed to required model plan"
  || IsClineProductSurface lower
  || (contains lower "http 403" && contains lower "entitlement").

Definition modelCooldownKindFor (lower : string) : string :=
  if isEntitlementRefusal lower then ModelCooldownUnavailable else ModelCooldownThrottled.

Definition isModelScopedFailure (lower : string) : bool :=
  contains lower "code=6004"
  || contains lower "available upstream accounts are rate-limited"
  || contains lower "model is not found"
  || contains lower "model not found"
  || contains lower "no_implementation_available"
  || contains lower "context_window_exceeded"
  || contains lower "max_token_limit"
  || contains lower "model unavailable"
  || contains lower "not subscribed to required model plan"
  || IsClineProductSurface lower
  || (contains lower "http 403" && contains lower "entitlement")
  || contains lower "requested base model".

Definition credentialMessage (acc : option Account) : string :=
  let kind := TrimSpace (accountType acc) in
  if IsGrokAccount acc then "上游拒绝该 Grok Build OAuth 授权，请在账号管理中重新完成官方登录"
  else if bool_decide (is_Some acc) && EqualFold kind "workbuddy" then
    "上游拒绝该 WorkBuddy 授权，请在账号管理中重新完成 OAuth 登录"
  else if bool_decide (is_Some acc) && EqualFold kind "cline" then
    "上游拒绝该 Cline 授权，请在账号管理中重新完成 OAuth 登录"
  else "上游拒绝该凭据，需要重新登录后重试".

(** ** Cooldown windows *)

Definition BoundRateLimitCooldown (retryAfter : duration) : duration :=
  if retryAfter <=? 0 then retryAfter
  else if CooldownRateLimitMax <? retryAfter then CooldownRateLimitMax
  else retryAfter.

Definition rateLimitHint (err : go_error) (fallback : duration) : duration :=
  match err_retry_after err with
  | Some hint => if 0 <? hint then BoundRateLimitCooldown hint else fallback
  | None => fallback
  end.

(** The doubling loop; [None] when [fuel] iterations were not enough. *)
Fixpoint cooldown_loop (fuel : nat) (i failures cooldown : Z) : option duration :=
  if (i <? failures) && (cooldown <? CooldownRateLimitMax) then
    match fuel with
    | O => None
    | S fuel' => cooldown_loop fuel' (i64 (i + 1)) failures (i64 (cooldown * 2))
    end
  else Some cooldown.

Definition RateLimitCooldown (failures : Z) : duration :=
  let failures := if failures <? 1 then 1 else failures in
  let cooldown := default 0 (cooldown_loop 6 1 failures CooldownRateLimitBase) in
  if CooldownRateLimitMax <? cooldown then CooldownRateLimitMax else cooldown.

Definition CooldownFor (acc : option Account) : duration :=
  match acc with
  | None => CooldownTransient
  | Some a =>
      let status := TrimSpace (StatusCode a) in
      if String.eqb status "401" then CredentialReverify
      else if String.eqb status "429" then RateLimitCooldown (RateLimitFailures a)
      else if String.eqb status "402" then CooldownPayment
      else if String.eqb status "403" || String.eqb status "404" then
        if IsGrokAccount acc then CooldownBlockedGro else CooldownBlocked
      else CooldownTransient
  end.

Definition billingResetInQuotaField (acc : option Account) : bool :=
  String.eqb (ToLower (TrimSpace (accountType acc))) "workbuddy".

(** ** Applying a verdict *)

(** [acc.StatusCode] is read back right after it is assigned, so the tests below
    are on the assigned [status]; [acc.QuotaResetAt] is still the caller's. *)
Definition Apply (now : instant) (v : Verdict) (acc : Account) : Account :=
  let at_ := if Time.IsZero (v_At v) then now else v_At v in
  let stored := WorkBuddyRestrictionUntil (Some acc) in
  let restrictedUntil :=
    if EqualFold (AccountType acc) "workbuddy" && IsWorkBuddyRestricted (v_Message v)
       && negb (Time.After stored at_)
    then Time.Add at_ WorkBuddyRestrictionCooldown else stored in
  let status := TrimSpace (v_Status v) in
  let acc1 := acc <| WorkBuddyRestrictedUntil := restrictedUntil |> <| StatusCode := status |> in
  let acc2 :=
    if v_NeedsLogin v then acc1 <| AuthStatus := AccountAuthStatusReauthRequired |>
    else if is_empty status then acc1 <| AuthStatus := AccountAuthStatusActive |>
    else acc1 in
  let acc3 :=
    if is_empty status then
      acc2 <| StatusMessage := "" |> <| LastAttempt := Time.zero |> <| RateLimitFailures := 0 |>
    else
      let acc2 := acc2 <| StatusMessage := TrimSpace (v_Message v) |> <| LastAttempt := at_ |> in
      if String.eqb status "429" then
        let acc2 := acc2 <| RateLimitFailures := i64 (RateLimitFailures acc + 1) |> in
        let reset := Time.Add at_ (v_Cooldown v) in
        if (0 <? v_Cooldown v) && Time.After reset (QuotaResetAt acc)
        then acc2 <| QuotaResetAt := reset |> else acc2
      else acc2 in
  let acc4 := acc3 <| VerifiedAt := at_ |> in
  if Time.After restrictedUntil at_ then
    acc4 <| StatusCode := "403" |> <| StatusMessage := WorkBuddyRestrictionMessage |>
         <| LastAttempt := Time.Add restrictedUntil (- WorkBuddyRestrictionCooldown) |>
  else acc4.

Definition ScopeForStatus (status : string) : Scope :=
  let s := TrimSpace status in
  if String.eqb s "401" then ScopeCredential
  else if str_in s ["402"; "403"; "404"; "429"; AccountStatusWorkBuddyQuotaExhausted] then
    ScopeAccount
  else if is_empty s then ScopeNone
  else ScopeAccount.

(** A nil error is [None]. *)
Definition RetryableError (err : option go_error) : bool :=
  match err with
  | None => false
  | Some e => Retryable (ClassifyUpstreamError (err_text e))
  end.

(** ** Classifying an upstream error *)

Definition creditExhaustionVerdict (acc : option Account) (message : string) (err : go_error)
    (at_ : instant) : option Verdict :=
  if EqualFold (TrimSpace (accountType acc)) "workbuddy" then
    Some (mkVerdict AccountStatusWorkBuddyQuotaExhausted message ScopeAccount
            (RetryableError (Some err)) true false 0 "" "" at_)
  else None.

(** A verdict on the request alone: nothing is recorded, nothing retried. *)
Definition request_verdict (message : string) (now : instant) : Verdict :=
  mkVerdict "" message ScopeNone false false false 0 "" "" now.

(** A verdict on the whole account. *)
Definition account_verdict (status message : string) (retry : bool) (cooldown : duration)
    (now : instant) : Verdict :=
  mkVerdict status message ScopeAccount retry true false cooldown "" "" now.

(** The switch on [ClassifyAccountStatus] that ends [Classify]. *)
Definition classify_status (now : instant) (acc : option Account) (err : go_error)
    (message : string) : Verdict :=
  let retry := RetryableError (Some err) in
  let status := ClassifyAccountStatus message in
  if String.eqb status "401" then
    mkVerdict "401" (credentialMessage acc) ScopeCredential retry true true CredentialReverify
      "" "" now
  else if String.eqb status "403" || String.eqb status "404" then
    account_verdict status message retry
      (if IsGrokAccount acc then CooldownBlockedGro else CooldownBlocked) now
  else if String.eqb status "402" then account_verdict "402" message retry CooldownPayment now
  else if String.eqb status "429" then
    account_verdict "429" message retry (rateLimitHint err CooldownRateLimit) now
  else mkVerdict "" "" ScopeNone retry true false 0 "" "" now.

Definition Classify (now : instant) (acc : option Account) (err : option go_error)
    (model : string) : Verdict :=
  match err with
  | None => Success now
  | Some e =>
      let message := TrimSpace (err_text e) in
      let lower := ToLower message in
      if EqualFold (accountType acc) "workbuddy" && IsWorkBuddyRestricted message then
        account_verdict "403" message true WorkBuddyRestrictionCooldown now
      else if IsClineInferenceCap lower then
        let cooldown := match err_retry_after e with
                        | Some hint => if 0 <? hint then hint else CooldownRateLimit
                        | None => CooldownRateLimit
                        end in
        account_verdict "429" message true cooldown now
      else if isGlobalUpstreamRefusal lower then
        mkVerdict "" message ScopeModel true false false 0 model "" now
      else if isClientRefusal lower then request_verdict message now
      else if contains lower "empty upstream stream" then request_verdict message now
      else
        match (if IsCreditExhaustion lower then creditExhaustionVerdict acc message e now
               else None) with
        | Some verdict => verdict
        | None =>
            if IsUpstreamModelRefusal lower then request_verdict message now
            else if isModelScopedFailure lower then
              mkVerdict "" message ScopeModel (RetryableError (Some e)) true false
                (rateLimitHint e CooldownRateLimit) model (modelCooldownKindFor lower) now
            else classify_status now acc e message
        end
  end.

(** ** Using an account *)

(** The deadline [AccountHeld] compares the clock with, for a status that holds
    the account. *)
Definition held_until (a : Account) : instant :=
  let status := TrimSpace (StatusCode a) in
  let until := Time.Add (LastAttempt a) (CooldownFor (Some a)) in
  if Time.After (QuotaResetAt a) until then
    if String.eqb status "429" then
      if IsClineInferenceCap (ToLower (StatusMessage a)) then QuotaResetAt a
      else
        let ceiling := Time.Add (LastAttempt a) CooldownRateLimitMax in
        if Time.Before ceiling (QuotaResetAt a) then
          if negb (billingResetInQuotaField (Some a)) then ceiling else until
        else QuotaResetAt a
    else if String.eqb status "402" || negb (HasPrefix status "4") then QuotaResetAt a
    else until
  else until.

Definition AccountHeld (acc : option Account) (now : instant) : bool :=
  match acc with
  | None => false
  | Some a =>
      if negb (AccountAuthActive acc) then true
      else
        let until := WorkBuddyRestrictionUntil acc in
        if negb (Time.IsZero until)
           && (Time.After until now
               || (String.eqb (StatusCode a) "403" && IsWorkBuddyRestricted (StatusMessage a)))
        then Time.Before now until
        else
          let status := TrimSpace (StatusCode a) in
          if is_empty status || String.eqb status AccountStatusWorkBuddyQuotaExhausted then false
          else if Time.IsZero (LastAttempt a) then true
          else Time.Before now (held_until a)
  end.

Definition NeedsReverify (acc : option Account) (now : instant) : bool :=
  match acc with
  | None => false
  | Some a =>
      if negb (String.eqb (TrimSpace (StatusCode a)) "401") then false
      else if Time.IsZero (VerifiedAt a) then true
      else CredentialReverify <=? Time.Sub now (VerifiedAt a)
  end.

(** * Properties *)

(** ** Exponential cooldown *)

Lemma cooldown_loop_step fuel i failures cooldown :
  i < failures -> cooldown < CooldownRateLimitMax -> 0 <= i < 100 -> 0 <= cooldown ->
  cooldown_loop (S fuel) i failures cooldown = cooldown_loop fuel (i + 1) failures (cooldown * 2).
Proof.
  intros Hi Hc Hr Hp. cbn [cooldown_loop].
  unfold CooldownRateLimitMax, Minute in *.
  rewrite !i64_small by (unfold in_i64, min_int64, max_int64; lia).
  destruct (Z.ltb_spec i failures), (Z.ltb_spec cooldown (30 * 60000000000)); try lia; done.
Qed.

Lemma cooldown_loop_stop fuel i failures cooldown :
  failures <= i \/ CooldownRateLimitMax <= cooldown ->
  cooldown_loop fuel i failures cooldown = Some cooldown.
Proof.
  intros H. destruct fuel; cbn [cooldown_loop];
    destruct (Z.ltb_spec i failures), (Z.ltb_spec cooldown CooldownRateLimitMax); try done; lia.
Qed.

(** The loop makes at most six doublings. *)
Lemma cooldown_loop_value failures :
  1 <= failures ->
  cooldown_loop 6 1 failures CooldownRateLimitBase
  = Some (CooldownRateLimitBase * 2 ^ (Z.min failures 7 - 1)).
Proof.
  intros Hf.
  assert (failures = 1 \/ failures = 2 \/ failures = 3 \/ failures = 4 \/ failures = 5
          \/ failures = 6 \/ 7 <= failures) as Hc by lia.
  destruct Hc as [->|[->|[->|[->|[->|[->|H7]]]]]]; [vm_compute; reflexivity..|].
  rewrite (Z.min_r failures 7) by lia.
  do 6 (rewrite cooldown_loop_step; [|unfold CooldownRateLimitMax, CooldownRateLimitBase, Minute, Second; lia..]).
  rewrite cooldown_loop_stop; [done|]. right. vm_compute. done.
Qed.

Lemma RateLimitCooldown_closed failures :
  RateLimitCooldown failures
  = Z.min (CooldownRateLimitBase * 2 ^ (Z.max failures 1 - 1)) CooldownRateLimitMax.
Proof.
  unfold RateLimitCooldown.
  replace (if failures <? 1 then 1 else failures) with (Z.max failures 1)
    by (destruct (Z.ltb_spec failures 1); lia).
  rewrite cooldown_loop_value by lia. cbn [from_option]. unfold id.
  assert (Z.max failures 1 = 1 \/ Z.max failures 1 = 2 \/ Z.max failures 1 = 3 \/ Z.max failures 1 = 4
          \/ Z.max failures 1 = 5 \/ Z.max failures 1 = 6 \/ 7 <= Z.max failures 1) as Hc by lia.
  destruct Hc as [->|[->|[->|[->|[->|[->|H7]]]]]]; [vm_compute; reflexivity..|].
  rewrite (Z.min_r _ 7) by lia.
  assert (2 ^ 6 <= 2 ^ (Z.max failures 1 - 1)) as H6 by (apply Z.pow_le_mono_r; lia).
  change (2 ^ 6) with 64 in H6.
  unfold CooldownRateLimitBase, CooldownRateLimitMax, Second, Minute in *.
  change (30 * 1000000000 * 2 ^ (7 - 1)) with 1920000000000.
  destruct (Z.ltb_spec (30 * 60000000000) 1920000000000); lia.
Qed.

Lemma RateLimitCooldown_bounds failures :
  CooldownRateLimitBase <= RateLimitCooldown failures <= CooldownRateLimitMax.
Proof.
  rewrite RateLimitCooldown_closed.
  assert (2 ^ 0 <= 2 ^ (Z.max failures 1 - 1)) as H0 by (apply Z.pow_le_mono_r; lia).
  change (2 ^ 0) with 1 in H0.
  unfold CooldownRateLimitBase, CooldownRateLimitMax, Second, Minute in *. lia.
Qed.

(** The throttle cooldown is thirty seconds doubled for every failure
    after the first, capped at thirty minutes: the loop always ends, never
    overflows, and a further failure never shortens the cooldown. *)
Theorem RateLimitCooldown_spec (failures more : Z) :
  RateLimitCooldown failures
  = Z.min (CooldownRateLimitBase * 2 ^ (Z.max failures 1 - 1)) CooldownRateLimitMax
  /\ (1 <= failures ->
      exists d, cooldown_loop 6 1 failures CooldownRateLimitBase = Some d /\ d <= max_int64)
  /\ (failures <= more -> RateLimitCooldown failures <= RateLimitCooldown more).
Proof.
  split; [apply RateLimitCooldown_closed|split].
  - intros Hf. eexists. split; [by apply cooldown_loop_value|].
    assert (2 ^ (Z.min failures 7 - 1) <= 2 ^ 6) as H6 by (apply Z.pow_le_mono_r; lia).
    change (2 ^ 6) with 64 in H6.
    unfold CooldownRateLimitBase, Second, max_int64. lia.
  - intros Hm. rewrite !RateLimitCooldown_closed.
    assert (2 ^ (Z.max failures 1 - 1) <= 2 ^ (Z.max more 1 - 1)) by (apply Z.pow_le_mono_r; lia).
    unfold CooldownRateLimitBase, Second. lia.
Qed.

(** ** Holding an account *)

Lemma CooldownFor_pos acc : 0 < CooldownFor acc.
Proof.
  destruct acc as [a|]; [|done]. unfold CooldownFor. cbn zeta.
  pose proof (RateLimitCooldown_bounds (RateLimitFailures a)).
  repeat case_match; try done.
  unfold CooldownRateLimitBase, Second in *. lia.
Qed.

Lemma CooldownFor_429 a :
  TrimSpace (StatusCode a) = "429" ->
  CooldownFor (Some a) = RateLimitCooldown (RateLimitFailures a).
Proof. intros H. unfold CooldownFor. by rewrite H. Qed.

Lemma held_until_lower a : LastAttempt a + CooldownFor (Some a) <= held_until a.
Proof.
  unfold held_until, CooldownFor. cbn zeta. unfold Time.Add, Time.After, Time.Before.
  pose proof (RateLimitCooldown_bounds (RateLimitFailures a)).
  repeat case_match; to_prop; first [lia|congruence].
Qed.

Lemma held_until_429 a :
  TrimSpace (StatusCode a) = "429" ->
  IsClineInferenceCap (ToLower (StatusMessage a)) = false ->
  held_until a <= LastAttempt a + CooldownRateLimitMax.
Proof.
  intros Hs Hc. unfold held_until, CooldownFor. cbn zeta. rewrite Hs, Hc. cbn.
  unfold Time.Add, Time.After, Time.Before.
  pose proof (RateLimitCooldown_bounds (RateLimitFailures a)).
  repeat case_match; to_prop; first [lia|congruence].
Qed.

Lemma held_until_blocked a :
  str_in (TrimSpace (StatusCode a)) ["401"; "403"; "404"] = true ->
  held_until a = LastAttempt a + CooldownFor (Some a).
Proof.
  intros Hs. apply str_in_elem in Hs. set_unfold in Hs.
  unfold held_until. cbn zeta.
  destruct Hs as [->|[->|[->|[]]]]; cbn; by destruct (Time.After _ _).
Qed.

(** An account whose status alone decides: active credential, no restriction,
    a status that holds, and a recorded attempt. *)
Definition status_decides (a : Account) : bool :=
  AccountAuthActive (Some a)
  && Time.IsZero (WorkBuddyRestrictionUntil (Some a))
  && negb (is_empty (TrimSpace (StatusCode a)))
  && negb (String.eqb (TrimSpace (StatusCode a)) AccountStatusWorkBuddyQuotaExhausted)
  && negb (Time.IsZero (LastAttempt a)).

Lemma AccountHeld_status a now :
  status_decides a = true -> AccountHeld (Some a) now = (now <? held_until a).
Proof.
  unfold status_decides. rewrite !andb_true_iff, !negb_true_iff.
  intros [[[[Ha Hr] Hs] Hq] Hl]. unfold AccountHeld. rewrite Ha, Hr. cbn [negb andb].
  by rewrite Hs, Hq, Hl.
Qed.

(** While the status decides, the account stays out of the pool for at
    least its cooldown: no recorded reset shortens a hold. A throttle other than
    Cline's inference cap holds it for at most thirty minutes, whatever reset
    was recorded, and a refused credential or a block for exactly its own
    cooldown. *)
Theorem AccountHeld_window (a : Account) (now : instant) :
  status_decides a = true ->
  (now < LastAttempt a + CooldownFor (Some a) -> AccountHeld (Some a) now = true)
  /\ (TrimSpace (StatusCode a) = "429" ->
      IsClineInferenceCap (ToLower (StatusMessage a)) = false ->
      AccountHeld (Some a) now = true -> now < LastAttempt a + CooldownRateLimitMax)
  /\ (str_in (TrimSpace (StatusCode a)) ["401"; "403"; "404"] = true ->
      AccountHeld (Some a) now = true <-> now < LastAttempt a + CooldownFor (Some a)).
Proof.
  intros Hd. rewrite (AccountHeld_status _ _ Hd), Z.ltb_lt.
  pose proof (held_until_lower a). split; [lia|split].
  - intros Hs Hc. pose proof (held_until_429 a Hs Hc). lia.
  - intros Hs. by rewrite held_until_blocked.
Qed.

Lemma AccountHeld_window_witness :
  let a := zero_account <| StatusCode := "429" |> <| LastAttempt := 100 |> in
  AccountHeld (Some a) (100 + 29 * Second) = true.
Proof.
  intros a. destruct (AccountHeld_window a (100 + 29 * Second)) as [H _]; [by vm_compute|].
  apply H. by vm_compute.
Defined.

(** A WorkBuddy billing-cycle end sitting in the reset field
    beyond the throttle ceiling does not stretch a throttle: the account is held
    for its own exponential cooldown and no longer. *)
Theorem AccountHeld_ignores_billing_reset (a : Account) (now : instant) :
  status_decides a = true ->
  TrimSpace (StatusCode a) = "429" ->
  IsClineInferenceCap (ToLower (StatusMessage a)) = false ->
  billingResetInQuotaField (Some a) = true ->
  LastAttempt a + CooldownRateLimitMax < QuotaResetAt a ->
  AccountHeld (Some a) now = true
  <-> now < LastAttempt a + RateLimitCooldown (RateLimitFailures a).
Proof.
  intros Hd Hs Hc Hb Hq. rewrite (AccountHeld_status _ _ Hd), Z.ltb_lt.
  unfold held_until, CooldownFor. cbn zeta. rewrite Hs, Hc, Hb. cbn.
  unfold Time.Add, Time.After, Time.Before.
  repeat case_match; to_prop; first [lia|congruence].
Qed.

(** ** Applying verdicts *)

(** The instant a verdict is anchored at. *)
Definition verdict_instant (now : instant) (v : Verdict) : instant :=
  if Time.IsZero (v_At v) then now else v_At v.

(** The restriction deadline in force once [v] has been applied. *)
Definition restriction_after (now : instant) (v : Verdict) (acc : Account) : instant :=
  let at_ := verdict_instant now v in
  let stored := WorkBuddyRestrictionUntil (Some acc) in
  if EqualFold (AccountType acc) "workbuddy" && IsWorkBuddyRestricted (v_Message v)
     && negb (Time.After stored at_)
  then Time.Add at_ WorkBuddyRestrictionCooldown else stored.

(** Reduce [Apply] once its six tests are decided. *)
Ltac apply_cases :=
  unfold Apply; cbn zeta;
  match goal with
  | now : Z, v : Verdict, acc : Account |- _ =>
      fold (verdict_instant now v);
      change (if EqualFold (AccountType acc) "workbuddy" && IsWorkBuddyRestricted (v_Message v)
                 && negb (Time.After (WorkBuddyRestrictionUntil (Some acc)) (verdict_instant now v))
              then Time.Add (verdict_instant now v) WorkBuddyRestrictionCooldown
              else WorkBuddyRestrictionUntil (Some acc)) with (restriction_after now v acc);
      destruct (Time.After (restriction_after now v acc) (verdict_instant now v)) eqn:?;
      destruct (v_NeedsLogin v);
      destruct (is_empty (TrimSpace (v_Status v)));
      destruct (String.eqb (TrimSpace (v_Status v)) "429");
      destruct ((0 <? v_Cooldown v)
                && Time.After (Time.Add (verdict_instant now v) (v_Cooldown v)) (QuotaResetAt acc))
  end; cbn.

Lemma Apply_fields now v acc :
  let acc' := Apply now v acc in
  VerifiedAt acc' = verdict_instant now v
  /\ AccountType acc' = AccountType acc
  /\ WorkBuddyRestrictedUntil acc' = restriction_after now v acc
  /\ AuthStatus acc' = (if v_NeedsLogin v then AccountAuthStatusReauthRequired
                        else if is_empty (TrimSpace (v_Status v)) then AccountAuthStatusActive
                        else AuthStatus acc).
Proof. apply_cases; repeat split. Qed.

Lemma Apply_unrestricted now v acc :
  Time.After (restriction_after now v acc) (verdict_instant now v) = false ->
  let acc' := Apply now v acc in
  StatusCode acc' = TrimSpace (v_Status v)
  /\ StatusMessage acc' = (if is_empty (TrimSpace (v_Status v)) then "" else TrimSpace (v_Message v))
  /\ LastAttempt acc' = (if is_empty (TrimSpace (v_Status v)) then Time.zero
                         else verdict_instant now v)
  /\ RateLimitFailures acc' =
       (if is_empty (TrimSpace (v_Status v)) then 0
        else if String.eqb (TrimSpace (v_Status v)) "429" then i64 (RateLimitFailures acc + 1)
        else RateLimitFailures acc).
Proof. apply_cases; intros H; try congruence; repeat split. Qed.

Lemma Apply_restricted now v acc :
  Time.After (restriction_after now v acc) (verdict_instant now v) = true ->
  let acc' := Apply now v acc in
  StatusCode acc' = "403" /\ StatusMessage acc' = WorkBuddyRestrictionMessage.
Proof. apply_cases; intros H; try congruence; repeat split. Qed.

Lemma WorkBuddyRestrictionUntil_ne0 a :
  WorkBuddyRestrictedUntil a <> 0 -> EqualFold (AccountType a) "workbuddy" = true ->
  WorkBuddyRestrictionUntil (Some a) = WorkBuddyRestrictedUntil a.
Proof.
  intros H Ht. unfold WorkBuddyRestrictionUntil. rewrite Ht. cbn.
  by apply Time.IsZero_false in H as ->.
Qed.

(** Applying a verdict stamps the verification time, never leaves a
    reason or a failure count behind without a status, marks a refused
    credential for a new login, and cannot lift or shorten a WorkBuddy
    restriction that is still running. *)
Theorem Apply_consistent (now : instant) (v : Verdict) (acc : Account) :
  let acc' := Apply now v acc in
  let until := WorkBuddyRestrictionUntil (Some acc) in
  VerifiedAt acc' = verdict_instant now v
  /\ (StatusCode acc' = "" ->
      StatusMessage acc' = "" /\ LastAttempt acc' = Time.zero /\ RateLimitFailures acc' = 0)
  /\ (v_NeedsLogin v = true -> AccountAuthActive (Some acc') = false)
  /\ (verdict_instant now v < until -> 0 < until ->
      WorkBuddyRestrictionUntil (Some acc') = until
      /\ StatusCode acc' = "403" /\ StatusMessage acc' = WorkBuddyRestrictionMessage).
Proof.
  cbn zeta. destruct (Apply_fields now v acc) as (HV & HT & HR & HA).
  split; [exact HV|split; [|split]].
  - destruct (Time.After (restriction_after now v acc) (verdict_instant now v)) eqn:E.
    + destruct (Apply_restricted now v acc E) as [-> _]. done.
    + destruct (Apply_unrestricted now v acc E) as (-> & -> & -> & ->).
      intros ->. done.
  - intros Hl. unfold AccountAuthActive. rewrite HA, Hl. reflexivity.
  - intros Hlt Hpos. assert (Time.After (WorkBuddyRestrictionUntil (Some acc)) (verdict_instant now v) = true) as Hafter
      by (by apply Time.After_true).
    assert (restriction_after now v acc = WorkBuddyRestrictionUntil (Some acc)) as Hsame.
    { unfold restriction_after. rewrite Hafter. by rewrite andb_false_r. }
    rewrite Hsame in HR.
    assert (EqualFold (AccountType acc) "workbuddy" = true) as Hwb.
    { destruct (EqualFold (AccountType acc) "workbuddy") eqn:E; [done|].
      unfold WorkBuddyRestrictionUntil in Hpos. rewrite E in Hpos. done. }
    split; [|apply Apply_restricted; by rewrite Hsame].
    rewrite WorkBuddyRestrictionUntil_ne0; rewrite ?HR, ?HT; [done|lia|done].
Qed.

(** A healthy result puts the account back at once: unless a
    restriction runs past it, no later question finds the account held. *)
Theorem Success_releases (now at_ : instant) (acc : Account) (later : instant) :
  0 < at_ -> WorkBuddyRestrictionUntil (Some acc) <= at_ -> at_ <= later ->
  AccountHeld (Some (Apply now (Success at_) acc)) later = false.
Proof.
  intros Hp Hr Hl.
  assert (verdict_instant now (Success at_) = at_) as Hat.
  { unfold verdict_instant. cbn [v_At Success].
    by assert (Time.IsZero at_ = false) as -> by (apply Time.IsZero_false; lia). }
  assert (restriction_after now (Success at_) acc = WorkBuddyRestrictionUntil (Some acc)) as Hsame.
  { unfold restriction_after. cbn [v_Message Success].
    change (IsWorkBuddyRestricted "") with false. by rewrite andb_false_r. }
  destruct (Apply_fields now (Success at_) acc) as (_ & HT & HR & HA).
  destruct (Apply_unrestricted now (Success at_) acc) as (HS & _ & _ & _).
  { rewrite Hsame, Hat. by apply Time.After_false. }
  rewrite Hsame in HR. unfold AccountHeld.
  assert (AccountAuthActive (Some (Apply now (Success at_) acc)) = true) as ->.
  { unfold AccountAuthActive. by rewrite HA. }
  cbn [negb].
  assert (WorkBuddyRestrictionUntil (Some (Apply now (Success at_) acc)) <= at_) as Hu.
  { clear Hsame. set (u := WorkBuddyRestrictionUntil (Some acc)) in *. clearbody u.
    unfold WorkBuddyRestrictionUntil. rewrite HT, HR, HS. cbn.
    repeat case_match; unfold Time.zero; lia. }
  apply (Z.le_trans _ _ _ Hu), Time.After_false in Hl. rewrite Hl, HS. cbn.
  by rewrite andb_false_r.
Qed.

Lemma Success_releases_witness :
  let a := zero_account <| StatusCode := "403" |> <| LastAttempt := 100 |> in
  AccountHeld (Some a) 150 = true
  /\ AccountHeld (Some (Apply 120 (Success 120) a)) 150 = false.
Proof. split; [by vm_compute|]. apply Success_releases; by vm_compute. Defined.

(** Applying a throttle verdict to an active account outside any
    restriction withholds it from the pool for the whole exponential cooldown of
    its new failure count. *)
Theorem throttle_verdict_holds (now : instant) (v : Verdict) (acc : Account) (later : instant) :
  TrimSpace (v_Status v) = "429" -> v_NeedsLogin v = false ->
  AccountAuthActive (Some acc) = true -> 0 < verdict_instant now v ->
  restriction_after now v acc = 0 ->
  later < verdict_instant now v + RateLimitCooldown (i64 (RateLimitFailures acc + 1)) ->
  AccountHeld (Some (Apply now v acc)) later = true.
Proof.
  intros Hs Hn Ha Hat Hr Hl.
  destruct (Apply_fields now v acc) as (_ & HT & HR & HA).
  destruct (Apply_unrestricted now v acc) as (HS & _ & HL & HF).
  { rewrite Hr. apply Time.After_false. lia. }
  rewrite Hs in *. cbn in HA, HL, HF. rewrite Hn in HA.
  assert (status_decides (Apply now v acc) = true) as Hd.
  { unfold status_decides, AccountAuthActive, WorkBuddyRestrictionUntil.
    rewrite HA, HT, HR, HS, HL, Hr. unfold AccountAuthActive in Ha. rewrite Ha. cbn.
    assert (Time.IsZero (verdict_instant now v) = false) as -> by (apply Time.IsZero_false; lia).
    by destruct (EqualFold (AccountType acc) "workbuddy"). }
  rewrite (AccountHeld_status _ _ Hd). apply Z.ltb_lt.
  pose proof (held_until_lower (Apply now v acc)) as Hlow.
  rewrite CooldownFor_429, HL, HF in Hlow by (by rewrite HS). lia.
Qed.

Lemma throttle_verdict_holds_witness :
  let v := Classify 100 (Some zero_account) (Some (Errorf "HTTP 429 too many requests")) "" in
  AccountHeld (Some (Apply 100 v zero_account)) (100 + 29 * Second) = true.
Proof. intros v. apply throttle_verdict_holds; by vm_compute. Defined.

(** ** Classification *)

Lemma rateLimitHint_bounds e f :
  0 < f <= CooldownRateLimitMax -> 0 < rateLimitHint e f <= CooldownRateLimitMax.
Proof.
  unfold rateLimitHint, BoundRateLimitCooldown. intros Hf.
  destruct (err_retry_after e) as [h|]; [|done].
  destruct (Z.ltb_spec 0 h); [|done].
  destruct (Z.leb_spec h 0); [lia|].
  destruct (Z.ltb_spec CooldownRateLimitMax h); unfold CooldownRateLimitMax, Minute in *; lia.
Qed.

Definition verdict_statuses : list string :=
  [""; "401"; "402"; "403"; "404"; "429"; AccountStatusWorkBuddyQuotaExhausted].

(** The fields of a verdict fit together. *)
Definition verdict_fits (v : Verdict) : bool :=
  str_in (v_Status v) verdict_statuses
  && Bool.eqb (v_NeedsLogin v) (String.eqb (v_Status v) "401")
  && Bool.eqb (bool_decide (v_Scope v = ScopeCredential)) (v_NeedsLogin v)
  && Bool.eqb (bool_decide (v_Scope v = ScopeAccount) || bool_decide (v_Scope v = ScopeCredential))
       (negb (is_empty (v_Status v)))
  && implb (negb (v_SwitchAccount v)) (is_empty (v_Status v))
  && implb (bool_decide (v_Scope v = ScopeModel) && (0 <? v_Cooldown v))
       (negb (is_empty (knownModelCooldownReason (v_ModelCooldownKind v)))).

Lemma modelCooldownKindFor_known lower :
  is_empty (knownModelCooldownReason (modelCooldownKindFor lower)) = false.
Proof. unfold modelCooldownKindFor. by destruct (isEntitlementRefusal lower). Qed.

Lemma classify_status_fits now acc e m : verdict_fits (classify_status now acc e m) = true.
Proof.
  unfold classify_status. cbn zeta.
  destruct (String.eqb_spec (ClassifyAccountStatus m) "401"); [done|].
  destruct (String.eqb_spec (ClassifyAccountStatus m) "403") as [->|]; [done|].
  destruct (String.eqb_spec (ClassifyAccountStatus m) "404") as [->|]; [done|].
  cbn [orb]. by repeat case_match.
Qed.

Lemma Classify_fits now acc err model : verdict_fits (Classify now acc err model) = true.
Proof.
  unfold Classify. destruct err as [e|]; [|done]. cbn zeta.
  set (lower := ToLower (TrimSpace (err_text e))).
  destruct (_ && IsWorkBuddyRestricted _); [done|].
  destruct (IsClineInferenceCap lower); [done|].
  destruct (isGlobalUpstreamRefusal lower); [done|].
  destruct (isClientRefusal lower); [done|].
  destruct (contains lower "empty upstream stream"); [done|].
  assert (forall w, creditExhaustionVerdict acc (TrimSpace (err_text e)) e now = Some w ->
                    verdict_fits w = true) as Hc.
  { intros w. unfold creditExhaustionVerdict. case_match; [|done]. by intros [= <-]. }
  destruct (if IsCreditExhaustion lower then _ else None) as [w|] eqn:E.
  { destruct (IsCreditExhaustion lower); [by apply Hc|done]. }
  destruct (IsUpstreamModelRefusal lower); [done|].
  destruct (isModelScopedFailure lower); [|apply classify_status_fits].
  unfold verdict_fits. cbn. rewrite modelCooldownKindFor_known. by rewrite implb_true_r.
Qed.

(** Whatever the error, the verdict is coherent: a status is recorded
    exactly when the account or its credential is at fault, a new login is asked
    for exactly on status 401, an account is only marked when the request may
    move to another one, and a model hold always says whether waiting helps. *)
Theorem Classify_coherent (now : instant) (acc : option Account) (err : option go_error)
    (model : string) :
  let v := Classify now acc err model in
  v_Status v ∈ verdict_statuses
  /\ (v_NeedsLogin v = true <-> v_Status v = "401")
  /\ (v_Scope v = ScopeCredential <-> v_NeedsLogin v = true)
  /\ (v_Scope v = ScopeAccount \/ v_Scope v = ScopeCredential <-> v_Status v <> "")
  /\ (v_SwitchAccount v = false -> v_Status v = "")
  /\ (v_Scope v = ScopeModel -> 0 < v_Cooldown v ->
      v_ModelCooldownKind v ∈ [ModelCooldownThrottled; ModelCooldownUnavailable]).
Proof.
  cbn zeta. pose proof (Classify_fits now acc err model) as H.
  destruct (Classify now acc err model) as [st msg sc r sw nl cd md kd at_].
  unfold verdict_fits in H. cbn -[str_in is_empty knownModelCooldownReason Z.ltb] in *.
  rewrite !andb_true_iff in H.
  destruct H as [[[[[H1 H2] H3] H4] H5] H6].
  apply eqb_prop in H2, H3, H4. apply str_in_elem in H1.
  split; [exact H1|split; [|split; [|split; [|split]]]].
  - rewrite H2. apply String.eqb_eq.
  - rewrite <- H3. by rewrite bool_decide_eq_true.
  - rewrite <- is_empty_false. apply (f_equal negb) in H4. rewrite negb_involutive in H4.
    rewrite <- H4, negb_false_iff, orb_true_iff, !bool_decide_eq_true. done.
  - intros ->. cbn in H5. by apply is_empty_true.
  - intros -> Hc%Z.ltb_lt. rewrite Hc in H6. cbn in H6.
    unfold knownModelCooldownReason in H6.
    destruct (String.eqb_spec kd ModelCooldownThrottled) as [->|]; [left|].
    destruct (String.eqb_spec kd ModelCooldownUnavailable) as [->|]; [right; left|done].
Qed.

(** ** Agreement with the request path *)

Lemma IsContentPolicyRefusal_marker s m :
  m ∈ content_policy_markers -> m <> "" -> byte_disjoint m "’" = true ->
  contains (ToLower s) m = true -> IsContentPolicyRefusal (ToLower s) = true.
Proof.
  intros Hm Hne Hd Hc. unfold IsContentPolicyRefusal. cbn zeta. rewrite ToLower_idemp.
  apply existsb_exists. exists m. split; [by apply list_elem_of_In|].
  by apply ReplaceAll_keeps.
Qed.

(** An error the account policy reads as a verdict on the request is
    never retried by the request path either, and the policy neither records it
    on the account nor moves the request to another one. *)
Theorem client_refusal_agrees (now : instant) (acc : option Account) (err : go_error)
    (model : string) :
  let s := err_text err in
  let lower := ToLower (TrimSpace s) in
  isClientRefusal (ToLower s) = true ->
  Retryable (ClassifyUpstreamError s) = false
  /\ (EqualFold (accountType acc) "workbuddy" && IsWorkBuddyRestricted (TrimSpace s) = false ->
      IsClineInferenceCap lower = false -> isGlobalUpstreamRefusal lower = false ->
      isClientRefusal lower = true ->
      Classify now acc (Some err) model = request_verdict (TrimSpace s) now).
Proof.
  cbn zeta. intros H. split.
  - unfold ClassifyUpstreamError. cbn zeta.
    do 3 (case_match; [done|]).
    unfold isClientRefusal in H. rewrite !orb_true_iff in H.
    destruct H as [[[H|H]|H]|H].
    1-3: apply IsContentPolicyRefusal_marker in H as ->;
      [done|by apply str_in_elem|done|reflexivity].
    do 2 (case_match; [done|]). by rewrite H.
  - intros H1 H2 H3 H4. unfold Classify. cbn zeta. by rewrite H1, H2, H3, H4.
Qed.

Lemma client_refusal_agrees_witness :
  Classify 5 None (Some (Errorf "content policy rejected")) "" = request_verdict "content policy rejected" 5.
Proof.
  destruct (client_refusal_agrees 5 None (Errorf "content policy rejected") "") as [_ H];
    [by vm_compute|]. apply H; by vm_compute.
Defined.

(** ** Grok plans *)

(** No spelling of a Grok subscription names both a free and a paid
    plan, and the spelling does not matter: case, blanks, dashes and
    underscores around it leave the answer unchanged. *)
Theorem plan_free_or_paid (subscription : string) :
  (GrokBuildPlanIsFree subscription = true -> GrokBuildPlanIsPaid subscription = false)
  /\ GrokBuildPlanIsPaid (ToLower subscription) = GrokBuildPlanIsPaid subscription
  /\ GrokBuildPlanIsFree (TrimSpace subscription) = GrokBuildPlanIsFree subscription.
Proof.
  split; [|split].
  - unfold GrokBuildPlanIsFree, GrokBuildPlanIsPaid. cbn zeta.
    generalize (NormalizeGrokPlan subscription) as plan. intros plan Hf%str_in_elem.
    set_unfold in Hf. by repeat destruct Hf as [->|Hf].
  - unfold GrokBuildPlanIsPaid, NormalizeGrokPlan. by rewrite TrimSpace_lower, ToLower_idemp.
  - unfold GrokBuildPlanIsFree, NormalizeGrokPlan. by rewrite TrimSpace_idemp.
Qed.

(** ** Where the policy and the request path part *)

(** A safety refusal the request path recognises (here the
    [content_policy_violation] marker) is not in the policy's own list: the
    request path files it as a client error that must not be retried, while the
    policy's verdict still asks for another account. *)
Theorem safety_refusal_still_switches (now : instant) (acc : option Account) (model : string) :
  let e := Errorf "upstream error: content_policy_violation" in
  Category (ClassifyUpstreamError (err_text e)) = "client"
  /\ isClientRefusal (err_text e) = false
  /\ v_SwitchAccount (Classify now acc (Some e) model) = true
  /\ v_Retryable (Classify now acc (Some e) model) = false.
Proof.
  cbn zeta. assert (EqualFold (accountType acc) "workbuddy"
    && IsWorkBuddyRestricted (TrimSpace "upstream error: content_policy_violation") = false) as H
    by (rewrite andb_comm; reflexivity).
  unfold Classify. cbn zeta. cbn [err_text Errorf]. rewrite H.
  split; [vm_compute; reflexivity|split; [vm_compute; reflexivity|]].
  split; vm_compute; reflexivity.
Qed.

(** For the upstream's own shared queue the policy's verdict says
    the request may be retried, while the request path's class says it may not,
    although its comment calls the refusal retryable. *)
Theorem shared_refusal_retry_differs (now : instant) (model : string) :
  let e := Errorf "The available upstream accounts are rate-limited." in
  Retryable (ClassifyUpstreamError (err_text e)) = false
  /\ v_Retryable (Classify now None (Some e) model) = true
  /\ v_SwitchAccount (Classify now None (Some e) model) = false.
Proof. split; [|split]; vm_compute; reflexivity. Qed.
