(* ===== verification/AccountMerge.v ===== *)
(** Mutations of a stored account row: the partial-update merge of
    [account_merge.go], the credential and quality patches, and the quota
    mutations of [redis_store.go]. *)

From S2P Require Import Prelude GoFloat UpstreamErrors Account.

(** ** Credential patches ([credential_patch.go]) *)

(** The new value of the target. *)
Definition patchString (target incoming : string) : string :=
  let value := TrimSpace incoming in if is_empty value then target else value.

(** The access token, refresh token and expiry after the patch, or an error. *)
Definition applyCredentialPatch (channel expected access refresh : string) (expires : instant)
    (accessTarget refreshTarget : string) (expiresTarget : instant) :
    (string * string * instant) + go_error :=
  let expected := TrimSpace expected in
  let refresh := TrimSpace refresh in
  if negb (is_empty expected) && negb (String.eqb refreshTarget expected)
     && negb (String.eqb refreshTarget refresh)
  then inr (Errorf (channel +:+ " credential changed concurrently"))
  else inl (patchString accessTarget access, patchString refreshTarget refresh,
            if Time.IsZero expires then expiresTarget else expires).

(** ** The merge ([account_merge.go], [workbuddy_restriction.go]) *)

Record accountPatch := mkPatch {
  p_acc : Account;
  p_existing : Account;
  p_staleSnapshot : bool
}.

Definition workBuddyMeterReadingIsNewer (acc existing : option Account) : bool :=
  match acc with
  | None => false
  | Some a =>
      if Time.IsZero (wb_SyncedAt (WorkBuddyQuota a)) then false
      else match existing with
           | None => true
           | Some e => negb (Time.Before (wb_SyncedAt (WorkBuddyQuota a))
                                         (wb_SyncedAt (WorkBuddyQuota e)))
           end
  end.

Definition mergeIdentity (p : accountPatch) (u : Account) : Account :=
  let acc := p_acc p in
  let existing := p_existing p in
  let kind := if is_empty (AccountType acc) then AccountType existing else AccountType acc in
  u <| Name := Name acc |> <| AccountType := kind |>
    <| ClientCookie := ClientCookie acc |> <| RefreshToken := RefreshToken acc |>
    <| UserID := UserID acc |> <| AgentMode := AgentMode acc |> <| Email := Email acc |>
    <| Weight := Weight acc |> <| MaxConcurrent := MaxConcurrent acc |>
    <| Enabled := if EqualFold kind "grok" && (QualityRevision acc <? QualityRevision existing)
                  then Enabled existing else Enabled acc |>
    <| Token := Token acc |> <| Subscription := Subscription acc |>.

Definition mergeUsageMeter (p : accountPatch) (u : Account) : Account :=
  let acc := p_acc p in
  let moves := negb (EqualFold (AccountType acc) "workbuddy")
               || workBuddyMeterReadingIsNewer (Some acc) (Some (p_existing p)) in
  u <| UsageCurrent := if moves then UsageCurrent acc else UsageCurrent u |>
    <| UsageLimit := if moves then UsageLimit acc else UsageLimit u |>.

Definition mergeStatusAndVerdict (p : accountPatch) (u : Account) : Account :=
  let acc := p_acc p in
  u <| StatusCode := StatusCode acc |>
    <| AuthStatus := if ClearVerifiedAt acc then AccountAuthStatusActive else AuthStatus acc |>
    <| RateLimitFailures := RateLimitFailures acc |>
    <| StatusMessage := if is_empty (TrimSpace (StatusCode acc)) then "" else StatusMessage acc |>
    <| LastAttempt := LastAttempt acc |>
    <| VerifiedAt := if ClearVerifiedAt acc then Time.zero
                     else if negb (Time.IsZero (VerifiedAt acc)) then VerifiedAt acc
                     else VerifiedAt u |>
    <| ClearVerifiedAt := false |>
    <| QuotaResetAt := if Time.After (QuotaResetAt acc) (QuotaResetAt u) then QuotaResetAt acc
                       else if negb (p_staleSnapshot p) then QuotaResetAt acc
                       else QuotaResetAt u |>.

(** The deadline the step settles on. *)
Definition restriction_deadline (now : instant) (acc existing : Account) : instant :=
  let until := WorkBuddyRestrictionUntil (Some existing) in
  let next := WorkBuddyRestrictionUntil (Some acc) in
  if negb (Time.After until now) && Time.After next until then next else until.

(** The step returns at once when the row is not a WorkBuddy one. *)
Definition mergeWorkBuddyRestriction (now : instant) (p : accountPatch) (u : Account) : Account :=
  let workbuddy := EqualFold (AccountType u) "workbuddy" in
  let until := restriction_deadline now (p_acc p) (p_existing p) in
  let restricted := workbuddy && Time.After until now in
  u <| WorkBuddyRestrictedUntil := if workbuddy then until else WorkBuddyRestrictedUntil u |>
    <| StatusCode := if restricted then "403" else StatusCode u |>
    <| StatusMessage := if restricted then WorkBuddyRestrictionMessage else StatusMessage u |>
    <| LastAttempt := if restricted then Time.Add until (- WorkBuddyRestrictionCooldown)
                      else LastAttempt u |>.

Definition mergeGrokCredentials (p : accountPatch) (u : Account) : Account :=
  let acc := p_acc p in
  let existing := p_existing p in
  let fresh := negb (p_staleSnapshot p) in
  let modelsNewer := Time.After (GrokModelsSyncedAt acc) (GrokModelsSyncedAt existing) in
  let webSyncs := negb (Time.IsZero (GrokWebSyncAt acc))
                  && negb (Time.Before (GrokWebSyncAt acc) (GrokWebSyncAt existing)) in
  u <| CredentialType := if is_empty (TrimSpace (CredentialType acc)) then CredentialType existing
                         else CredentialType acc |>
    <| OAuthAccessToken := OAuthAccessToken acc |>
    <| OAuthRefreshToken := OAuthRefreshToken acc |>
    <| OAuthExpiresAt := OAuthExpiresAt acc |>
    <| GrokRefresh := if negb (Time.IsZero (gr_UpdatedAt (GrokRefresh acc)))
                         && negb (Time.Before (gr_UpdatedAt (GrokRefresh acc))
                                              (gr_UpdatedAt (GrokRefresh existing)))
                      then GrokRefresh acc else GrokRefresh u |>
    <| TeamID := if is_empty (TrimSpace (TeamID acc)) then TeamID existing else TeamID acc |>
    <| GrokProvider := if is_empty (TrimSpace (GrokProvider acc)) then GrokProvider existing
                       else GrokProvider acc |>
    <| GrokModels := if bool_decide (is_Some (GrokModels acc)) && (fresh || modelsNewer)
                     then append_to_nil (GrokModels acc) else GrokModels u |>
    <| GrokModelCatalog := if bool_decide (is_Some (GrokModelCatalog acc)) && (fresh || modelsNewer)
                           then CloneProfiles (GrokModelCatalog acc) else GrokModelCatalog u |>
    <| GrokModelsSyncedAt := if negb (Time.IsZero (GrokModelsSyncedAt acc)) && (fresh || modelsNewer)
                             then GrokModelsSyncedAt acc else GrokModelsSyncedAt u |>
    <| GrokBilling := if negb (Time.IsZero (gb_SyncedAt (GrokBilling acc)))
                      then GrokBilling acc else GrokBilling u |>
    <| GrokRateLimits := if negb (Time.IsZero (rl_ObservedAt (GrokRateLimits acc)))
                         then GrokRateLimits acc else GrokRateLimits u |>
    <| GrokFreeQuota := if negb (Time.IsZero (fq_ConfirmedAt (GrokFreeQuota acc)))
                        then GrokFreeQuota acc else GrokFreeQuota u |>
    <| NSFWEnabled := NSFWEnabled acc |>
    <| GrokWebSyncAt := if webSyncs then GrokWebSyncAt acc else GrokWebSyncAt u |>
    <| GrokWebSyncError := if webSyncs then GrokWebSyncError acc else GrokWebSyncError u |>
    <| GrokWebQuota := if negb (Time.IsZero (wq_SyncedAt (GrokWebQuota acc)))
                          && (fresh || negb (Time.Before (wq_SyncedAt (GrokWebQuota acc))
                                                         (wq_SyncedAt (GrokWebQuota existing))))
                       then GrokWebQuota acc else GrokWebQuota u |>.

Definition mergeModelCooldownState (now : instant) (p : accountPatch) (u : Account) : Account :=
  let acc := p_acc p in
  let existing := p_existing p in
  u <| ModelCooldowns := mergeModelCooldowns now (ModelCooldowns existing) (ModelCooldowns acc) |>
    <| ModelCooldownReasons :=
         mergeModelCooldownReasons now (ModelCooldownReasons existing) (ModelCooldownReasons acc)
           (ModelCooldowns existing) (ModelCooldowns acc) |>.

Definition mergeWorkBuddyCredentials (p : accountPatch) (u : Account) : Account :=
  let acc := p_acc p in
  let replace := ReplaceWorkBuddyCredentials acc in
  u <| WorkBuddyAccessToken := if replace then TrimSpace (WorkBuddyAccessToken acc)
                               else WorkBuddyAccessToken u |>
    <| WorkBuddyRefreshToken := if replace then TrimSpace (WorkBuddyRefreshToken acc)
                                else WorkBuddyRefreshToken u |>
    <| WorkBuddyExpiresAt := if replace then WorkBuddyExpiresAt acc else WorkBuddyExpiresAt u |>
    <| WorkBuddyUID := patchString (WorkBuddyUID u) (WorkBuddyUID acc) |>
    <| WorkBuddyModelIDs := if (0 <? length (WorkBuddyModelIDs acc))%nat then WorkBuddyModelIDs acc
                            else WorkBuddyModelIDs u |>
    <| WorkBuddyModelsSyncedAt := if negb (Time.IsZero (WorkBuddyModelsSyncedAt acc))
                                  then WorkBuddyModelsSyncedAt acc else WorkBuddyModelsSyncedAt u |>
    <| WorkBuddyQuota := if workBuddyMeterReadingIsNewer (Some acc) (Some (p_existing p))
                         then WorkBuddyQuota acc else WorkBuddyQuota u |>.

Definition mergeClineCredentials (p : accountPatch) (u : Account) : Account :=
  let acc := p_acc p in
  let existing := p_existing p in
  let replace := ReplaceClineCredentials acc in
  u <| ClineAccessToken := if replace then TrimSpace (ClineAccessToken acc) else ClineAccessToken u |>
    <| ClineRefreshToken := if replace then TrimSpace (ClineRefreshToken acc)
                            else ClineRefreshToken u |>
    <| ClineExpiresAt := if replace then ClineExpiresAt acc else ClineExpiresAt u |>
    <| ClineEmail := patchString (ClineEmail u) (ClineEmail acc) |>
    <| ClinePlan := patchString (ClinePlan u) (ClinePlan acc) |>
    <| ClineModelIDs := if (0 <? length (ClineModelIDs acc))%nat then ClineModelIDs acc
                        else ClineModelIDs u |>
    <| ClineModelsSyncedAt :=
         if negb (Time.IsZero (ClineModelsSyncedAt acc))
            && (Time.IsZero (ClineModelsSyncedAt existing)
                || negb (Time.Before (ClineModelsSyncedAt acc) (ClineModelsSyncedAt existing)))
         then ClineModelsSyncedAt acc else ClineModelsSyncedAt u |>.

(** The mutation [UpdateAccount] runs on the stored row ([redis_store.go]). *)
Definition merge_account (now : instant) (acc existing : Account) : Account :=
  let stale := negb (Time.IsZero (UpdatedAt acc)) && Time.Before (UpdatedAt acc) (UpdatedAt existing) in
  let p := mkPatch acc existing stale in
  let u := mergeIdentity p existing in
  let u := mergeUsageMeter p u in
  let u := mergeStatusAndVerdict p u in
  let u := mergeWorkBuddyRestriction now p u in
  let u := mergeGrokCredentials p u in
  let u := mergeModelCooldownState now p u in
  let u := mergeWorkBuddyCredentials p u in
  mergeClineCredentials p u.

(** ** The narrow mutations

    What each writer's closure does to the row read under [WATCH].  A closure
    that reports through captured variables returns them with the row. *)

(** [UpdateAccountQuality] ([redis_store.go]). *)
Definition quality_mutation (failures : Z) (cooldownUntil : instant) (reason : string)
    (existing : Account) : Account :=
  let failures := if failures <? 0 then 0 else failures in
  let reason := if failures =? 0 then "" else reason in
  let changed := negb (QualityFailures existing =? failures)
                 || negb (Time.Equal (QualityCooldownUntil existing) cooldownUntil)
                 || negb (String.eqb (QualityReason existing) (TrimSpace reason)) in
  existing <| QualityRevision := if changed then u64 (QualityRevision existing + 1)
                                 else QualityRevision existing |>
           <| QualityFailures := failures |>
           <| QualityCooldownUntil := cooldownUntil |>
           <| QualityReason := TrimSpace reason |>.

Record AccountQualityUpdate := mkQualityUpdate {
  qu_ExpectedRevision : Z;
  qu_Reason : string;
  qu_CooldownUntil : instant;
  qu_DisableThreshold : Z
}.

Record AccountQualityResult := mkQualityResult {
  qr_Applied : bool;
  qr_PreviousFailures : Z;
  qr_Failures : Z;
  qr_Revision : Z;
  qr_CooldownUntil : instant;
  qr_Reason : string;
  qr_Enabled : bool;
  qr_StatusMessage : string
}.

(** The row and the [Applied] flag after the branch [ApplyAccountQuality]
    takes ([account_quality.go]). *)
Definition quality_branch (update : AccountQualityUpdate) (existing : Account) : Account * bool :=
  let reason := TrimSpace (qu_Reason update) in
  if negb (is_empty reason) then
    let failures := i64 (QualityFailures existing + 1) in
    let disable := (0 <? qu_DisableThreshold update) && (qu_DisableThreshold update <=? failures) in
    (existing <| QualityFailures := failures |>
              <| QualityReason := reason |>
              <| QualityCooldownUntil :=
                   if Time.After (qu_CooldownUntil update) (QualityCooldownUntil existing)
                   then qu_CooldownUntil update else QualityCooldownUntil existing |>
              <| QualityRevision := u64 (QualityRevision existing + 1) |>
              <| Enabled := if disable then false else Enabled existing |>
              <| StatusMessage :=
                   if disable
                   then "disabled after repeated degraded responses (" +:+ reason +:+ ")"
                   else if is_empty (StatusCode existing)
                   then "parked after a degraded response (" +:+ reason +:+ ")"
                   else StatusMessage existing |>, true)
  else if (QualityRevision existing =? qu_ExpectedRevision update)
          && (0 <? QualityFailures existing) then
    (existing <| QualityFailures := 0 |>
              <| QualityCooldownUntil := Time.zero |>
              <| QualityReason := "" |>
              <| QualityRevision := u64 (QualityRevision existing + 1) |>
              <| StatusMessage := if is_empty (StatusCode existing) then ""
                                  else StatusMessage existing |>, true)
  else (existing, false).

Definition ApplyAccountQuality_mutation (update : AccountQualityUpdate) (existing : Account) :
    Account * AccountQualityResult :=
  let '(u, applied) := quality_branch update existing in
  (u, mkQualityResult applied (QualityFailures existing) (QualityFailures u) (QualityRevision u)
        (QualityCooldownUntil u) (QualityReason u) (Enabled u) (StatusMessage u)).

Record WorkBuddyCredentialPatch := mkWBPatch {
  wp_ExpectedRefreshToken : string;
  wp_AccessToken : string;
  wp_RefreshToken : string;
  wp_ExpiresAt : instant;
  wp_UID : string;
  wp_Email : string
}.

Record GrokCredentialPatch := mkGrokPatch {
  gp_ExpectedRefreshToken : string;
  gp_AccessToken : string;
  gp_RefreshToken : string;
  gp_ExpiresAt : instant;
  gp_UserID : string;
  gp_Email : string;
  gp_Name : string;
  gp_TeamID : string
}.

(** A nil model list is [None]. *)
Record ClineCredentialPatch := mkClinePatch {
  cp_ExpectedRefreshToken : string;
  cp_AccessToken : string;
  cp_RefreshToken : string;
  cp_ExpiresAt : instant;
  cp_Email : string;
  cp_ModelIDs : option (list string)
}.

Definition UpdateWorkBuddyCredentials_mutation (patch : WorkBuddyCredentialPatch) (acc : Account) :
    Account + go_error :=
  match applyCredentialPatch "workbuddy" (wp_ExpectedRefreshToken patch) (wp_AccessToken patch)
          (wp_RefreshToken patch) (wp_ExpiresAt patch) (WorkBuddyAccessToken acc)
          (WorkBuddyRefreshToken acc) (WorkBuddyExpiresAt acc) with
  | inr err => inr err
  | inl (access, refresh, expires) =>
      let email := TrimSpace (wp_Email patch) in
      inl (acc <| WorkBuddyAccessToken := access |> <| WorkBuddyRefreshToken := refresh |>
               <| WorkBuddyExpiresAt := expires |>
               <| WorkBuddyUID := patchString (WorkBuddyUID acc) (wp_UID patch) |>
               <| Email := if negb (is_empty email) && is_empty (TrimSpace (Email acc))
                           then email else Email acc |>)
  end.

Definition UpdateClineCredentials_mutation (patch : ClineCredentialPatch) (acc : Account) :
    Account + go_error :=
  match applyCredentialPatch "cline" (cp_ExpectedRefreshToken patch) (cp_AccessToken patch)
          (cp_RefreshToken patch) (cp_ExpiresAt patch) (ClineAccessToken acc)
          (ClineRefreshToken acc) (ClineExpiresAt acc) with
  | inr err => inr err
  | inl (access, refresh, expires) =>
      inl (acc <| ClineAccessToken := access |> <| ClineRefreshToken := refresh |>
               <| ClineExpiresAt := expires |>
               <| ClineEmail := patchString (ClineEmail acc) (cp_Email patch) |>
               <| ClineModelIDs := match cp_ModelIDs patch with
                                   | Some ids => ids
                                   | None => ClineModelIDs acc
                                   end |>)
  end.

Definition UpdateGrokCredentials_mutation (patch : GrokCredentialPatch) (acc : Account) :
    Account + go_error :=
  match applyCredentialPatch "grok" (gp_ExpectedRefreshToken patch) (gp_AccessToken patch)
          (gp_RefreshToken patch) (gp_ExpiresAt patch) (OAuthAccessToken acc)
          (OAuthRefreshToken acc) (OAuthExpiresAt acc) with
  | inr err => inr err
  | inl (access, refresh, expires) =>
      inl (acc <| OAuthAccessToken := access |> <| OAuthRefreshToken := refresh |>
               <| OAuthExpiresAt := expires |>
               <| UserID := patchString (UserID acc) (gp_UserID patch) |>
               <| Email := patchString (Email acc) (gp_Email patch) |>
               <| TeamID := patchString (TeamID acc) (gp_TeamID patch) |>
               <| Name := if is_empty (Name acc) || String.eqb (Name acc) "grok-device-login"
                          then patchString (Name acc) (gp_Name patch) else Name acc |>)
  end.

(** The window after the call and whether it was charged. *)
Definition decrementQuotaWindow (window : GrokQuotaWindow) (amount : float64) :
    GrokQuotaWindow * bool :=
  if negb (qw_HasRemaining window) || f64_leb (qw_Remaining window) f64_zero
     || f64_leb amount f64_zero
  then (window, false)
  else (window <| qw_Remaining := f64_max0 (f64_sub (qw_Remaining window) amount) |>, true).

Definition GrokProviderWeb : string := "web".

Definition ConsumeGrokQuota_mutation (now : instant) (provider : string) (amount : float64)
    (acc : Account) : Account * bool :=
  let provider := ToLower (TrimSpace provider) in
  if String.eqb provider "build" then
    let '(w, consumed) := decrementQuotaWindow (rl_Requests (GrokRateLimits acc)) amount in
    let limits := (GrokRateLimits acc) <| rl_Requests := w |> in
    (acc <| GrokRateLimits := if consumed then limits <| rl_ObservedAt := now |> else limits |>,
     consumed)
  else if String.eqb provider GrokProviderWeb then
    let quota := GrokWebQuota acc in
    let '(quota, consumed) :=
      if qw_HasRemaining (wq_Auto quota)
      then let '(w, c) := decrementQuotaWindow (wq_Auto quota) amount in
           (quota <| wq_Auto := w |>, c)
      else let '(w, c) := decrementQuotaWindow (wq_Fast quota) amount in
           (quota <| wq_Fast := w |>, c) in
    (acc <| GrokWebQuota := if consumed && negb (Time.IsZero (wq_SyncedAt quota))
                            then quota <| wq_SyncedAt := now |> else quota |>, consumed)
  else (acc, false).

(** [now] is the caller's clock, already defaulted when it passed none. *)
Definition ClaimGrokPaidQuotaProbe_mutation (now : instant) (acc : Account) : Account * bool :=
  let billing := GrokBilling acc in
  if negb (IsExhausted billing) then (acc, false)
  else
    let due := if Time.IsZero (gb_NextProbeAt billing) then PeriodEnd billing
               else gb_NextProbeAt billing in
    if Time.IsZero due || Time.Before now due then (acc, false)
    else (acc <| GrokBilling := billing <| gb_LastProbeAt := now |>
                    <| gb_NextProbeAt := Time.Add now GrokPaidQuotaProbeInterval |> |>, true).


(** ** What a merge may move *)

(** The fields only the counter script, the quality writers and the store
    itself write. *)
Definition gateway_owned (a : Account) :=
  (ID a, UsageTotal a, (TokensToday a, TokensDate a), (RequestCount a, LastUsedAt a),
   (CreatedAt a, UpdatedAt a),
   (QualityFailures a, QualityRevision a, QualityCooldownUntil a, QualityReason a)).

(** a partial update never moves the usage counters, the quality
    verdict, the identity or the time stamps of the stored row, whatever the
    snapshot carries. *)
Theorem merge_keeps_gateway_fields now acc existing :
  gateway_owned (merge_account now acc existing) = gateway_owned existing.
Proof. reflexivity. Qed.

Lemma merge_kind now acc existing :
  AccountType (merge_account now acc existing)
  = if is_empty (AccountType acc) then AccountType existing else AccountType acc.
Proof. reflexivity. Qed.

Lemma merge_restricted_until now acc existing :
  WorkBuddyRestrictedUntil (merge_account now acc existing)
  = if EqualFold (AccountType (merge_account now acc existing)) "workbuddy"
    then restriction_deadline now acc existing else WorkBuddyRestrictedUntil existing.
Proof. reflexivity. Qed.

(** *** The restriction clock *)

Definition is_workbuddy (a : Account) : bool := EqualFold (AccountType a) "workbuddy".

(** The snapshot does not turn the row into another channel's. *)
Definition keeps_kind (acc : Account) : bool := is_empty (AccountType acc) || is_workbuddy acc.

Lemma merge_workbuddy now acc e :
  is_workbuddy e = true -> keeps_kind acc = true -> is_workbuddy (merge_account now acc e) = true.
Proof.
  unfold is_workbuddy, keeps_kind. rewrite merge_kind.
  intros He Ha. destruct (is_empty (AccountType acc)); done.
Qed.

Lemma merge_running_restriction now acc e :
  is_workbuddy e = true -> keeps_kind acc = true ->
  0 <= now < WorkBuddyRestrictionUntil (Some e) ->
  let u := merge_account now acc e in
  WorkBuddyRestrictionUntil (Some u) = WorkBuddyRestrictionUntil (Some e)
  /\ StatusCode u = "403"%string /\ StatusMessage u = WorkBuddyRestrictionMessage.
Proof.
  intros He Ha Hn u. pose proof (merge_workbuddy now acc e He Ha) as Hu.
  assert (Hd : restriction_deadline now acc e = WorkBuddyRestrictionUntil (Some e)).
  { unfold restriction_deadline. replace (Time.After _ now) with true; [done|].
    symmetry. apply Time.After_true. lia. }
  assert (Hr : WorkBuddyRestrictedUntil u = WorkBuddyRestrictionUntil (Some e)).
  { unfold u. rewrite merge_restricted_until, Hd. unfold is_workbuddy in Hu. by rewrite Hu. }
  split.
  - unfold WorkBuddyRestrictionUntil at 1. unfold is_workbuddy in Hu. fold u in Hu.
    rewrite Hu, Hr. cbn [negb].
    replace (Time.IsZero _) with false; [done|]. symmetry. apply Time.IsZero_false. lia.
  - assert (Hs : EqualFold (AccountType u) "workbuddy"
                 && Time.After (restriction_deadline now acc e) now = true).
    { unfold is_workbuddy in Hu. fold u in Hu. rewrite Hu, Hd. apply Time.After_true. lia. }
    split.
    + change (StatusCode u) with
        (if EqualFold (AccountType u) "workbuddy" && Time.After (restriction_deadline now acc e) now
         then "403"%string else StatusCode acc). by rewrite Hs.
    + change (StatusMessage u) with
        (if EqualFold (AccountType u) "workbuddy" && Time.After (restriction_deadline now acc e) now
         then WorkBuddyRestrictionMessage
         else if is_empty (TrimSpace (StatusCode acc)) then "" else StatusMessage acc).
      by rewrite Hs.
Qed.

(** A burst of updates: each at its own time, from its own snapshot. *)
Definition merge_all (updates : list (instant * Account)) (e : Account) : Account :=
  foldl (fun e '(now, acc) => merge_account now acc e) e updates.

(** while a WorkBuddy restriction runs, no sequence of updates -
    quota refreshes, credential edits, stale writers reporting success - moves
    its deadline, and every one of them leaves the row at 403 with the
    restriction's own message. *)
Theorem restriction_survives_updates (updates : list (instant * Account)) (e : Account)
    (Hkind : is_workbuddy e = true)
    (Hrun : Forall (fun '(now, acc) => keeps_kind acc = true
                      /\ 0 <= now < WorkBuddyRestrictionUntil (Some e)) updates) :
  let u := merge_all updates e in
  WorkBuddyRestrictionUntil (Some u) = WorkBuddyRestrictionUntil (Some e)
  /\ (updates = [] \/ (StatusCode u = "403"%string /\ StatusMessage u = WorkBuddyRestrictionMessage)).
Proof.
  revert e Hkind Hrun. induction updates as [|[now acc] l IH]; intros e Hkind Hrun.
  { split; [done|by left]. }
  apply Forall_cons in Hrun as [[Hk Hn] Hl].
  destruct (merge_running_restriction now acc e Hkind Hk Hn) as (Hu & Hs & Hm).
  specialize (IH (merge_account now acc e) (merge_workbuddy now acc e Hkind Hk)).
  rewrite Hu in IH. specialize (IH Hl). cbn in IH |- *. destruct IH as [IH1 IH2].
  split; [exact IH1|]. right. destruct IH2 as [->|IH2]; [by cbn|exact IH2].
Qed.

Lemma restriction_survives_updates_witness :
  let e := zero_account <| AccountType := "workbuddy" |> <| StatusCode := "403" |>
             <| WorkBuddyRestrictedUntil := 1000 |> in
  WorkBuddyRestrictionUntil (Some (merge_all [(10, zero_account); (20, zero_account)] e)) = 1000.
Proof.
  intros e. destruct (restriction_survives_updates [(10, zero_account); (20, zero_account)] e)
    as [H _]; [by vm_compute| |exact H].
  repeat constructor; by vm_compute.
Defined.

(** *** Versions *)

(** [b] is not older than [a], or [a] was never set. *)
Definition not_rewound (a b : instant) : bool := Time.IsZero a || negb (Time.Before b a).

Lemma not_rewound_refl a : not_rewound a a = true.
Proof. unfold not_rewound. rewrite orb_true_iff. right. apply negb_true_iff, Time.Before_false. lia. Qed.

Lemma not_rewound_if (c : bool) a b : (c = true -> negb (Time.Before b a) = true) ->
  not_rewound a (if c then b else a) = true.
Proof.
  intros H. destruct c; [|apply not_rewound_refl]. unfold not_rewound. rewrite H by done.
  apply orb_true_r.
Qed.

(** The snapshot was read before the row was last written. *)
Definition stale_for (acc existing : Account) : bool :=
  negb (Time.IsZero (UpdatedAt acc)) && Time.Before (UpdatedAt acc) (UpdatedAt existing).

Lemma grok_models_guard acc e :
  stale_for acc e = true ->
  negb (Time.IsZero (GrokModelsSyncedAt acc))
  && (negb (stale_for acc e) || Time.After (GrokModelsSyncedAt acc) (GrokModelsSyncedAt e)) = true ->
  negb (Time.Before (GrokModelsSyncedAt acc) (GrokModelsSyncedAt e)) = true.
Proof. intros ->. cbn. intros [_ H]%andb_true_iff. apply negb_true_iff. time_prop. apply Z.ltb_ge. lia. Qed.

Lemma meter_guard acc e :
  workBuddyMeterReadingIsNewer (Some acc) (Some e) = true ->
  negb (Time.Before (wb_SyncedAt (WorkBuddyQuota acc)) (wb_SyncedAt (WorkBuddyQuota e))) = true.
Proof. unfold workBuddyMeterReadingIsNewer. by destruct (Time.IsZero _). Qed.

Lemma if_field {A B} (f : A -> B) (c : bool) x y : f (if c then x else y) = if c then f x else f y.
Proof. by destruct c. Qed.

(** a snapshot read before the row's last write cannot rewind
    what other writers observed since: it may extend the quota deadline but not
    shorten it, and the model catalog, the web quota, the OAuth refresh state,
    the web sync, the credit meter and the Cline catalog keep versions at least
    as new as the stored ones. *)
Theorem stale_merge_never_rewinds now acc e (Hstale : stale_for acc e = true) :
  let u := merge_account now acc e in
  QuotaResetAt u = Z.max (QuotaResetAt e) (QuotaResetAt acc)
  /\ not_rewound (GrokModelsSyncedAt e) (GrokModelsSyncedAt u) = true
  /\ not_rewound (wq_SyncedAt (GrokWebQuota e)) (wq_SyncedAt (GrokWebQuota u)) = true
  /\ not_rewound (gr_UpdatedAt (GrokRefresh e)) (gr_UpdatedAt (GrokRefresh u)) = true
  /\ not_rewound (GrokWebSyncAt e) (GrokWebSyncAt u) = true
  /\ not_rewound (wb_SyncedAt (WorkBuddyQuota e)) (wb_SyncedAt (WorkBuddyQuota u)) = true
  /\ not_rewound (ClineModelsSyncedAt e) (ClineModelsSyncedAt u) = true.
Proof.
  intros u. split_and!.
  - change (QuotaResetAt u) with
      (if Time.After (QuotaResetAt acc) (QuotaResetAt e) then QuotaResetAt acc
       else if negb (stale_for acc e) then QuotaResetAt acc else QuotaResetAt e).
    rewrite Hstale. cbn. destruct (Time.After _ _) eqn:E; time_prop; lia.
  - change (GrokModelsSyncedAt u) with
      (if negb (Time.IsZero (GrokModelsSyncedAt acc))
          && (negb (stale_for acc e)
              || Time.After (GrokModelsSyncedAt acc) (GrokModelsSyncedAt e))
       then GrokModelsSyncedAt acc else GrokModelsSyncedAt e).
    by apply not_rewound_if, grok_models_guard.
  - change (GrokWebQuota u) with
      (if negb (Time.IsZero (wq_SyncedAt (GrokWebQuota acc)))
          && (negb (stale_for acc e)
              || negb (Time.Before (wq_SyncedAt (GrokWebQuota acc)) (wq_SyncedAt (GrokWebQuota e))))
       then GrokWebQuota acc else GrokWebQuota e).
    rewrite Hstale, (if_field wq_SyncedAt). apply not_rewound_if. by intros [_ H]%andb_true_iff.
  - change (GrokRefresh u) with
      (if negb (Time.IsZero (gr_UpdatedAt (GrokRefresh acc)))
          && negb (Time.Before (gr_UpdatedAt (GrokRefresh acc)) (gr_UpdatedAt (GrokRefresh e)))
       then GrokRefresh acc else GrokRefresh e).
    rewrite (if_field gr_UpdatedAt). apply not_rewound_if. by intros [_ H]%andb_true_iff.
  - change (GrokWebSyncAt u) with
      (if negb (Time.IsZero (GrokWebSyncAt acc))
          && negb (Time.Before (GrokWebSyncAt acc) (GrokWebSyncAt e))
       then GrokWebSyncAt acc else GrokWebSyncAt e).
    apply not_rewound_if. by intros [_ H]%andb_true_iff.
  - change (WorkBuddyQuota u) with
      (if workBuddyMeterReadingIsNewer (Some acc) (Some e) then WorkBuddyQuota acc
       else WorkBuddyQuota e).
    rewrite (if_field wb_SyncedAt). apply not_rewound_if, meter_guard.
  - change (ClineModelsSyncedAt u) with
      (if negb (Time.IsZero (ClineModelsSyncedAt acc))
          && (Time.IsZero (ClineModelsSyncedAt e)
              || negb (Time.Before (ClineModelsSyncedAt acc) (ClineModelsSyncedAt e)))
       then ClineModelsSyncedAt acc else ClineModelsSyncedAt e).
    unfold not_rewound at 1. destruct (Time.IsZero (ClineModelsSyncedAt e)) eqn:E; [done|].
    cbn. destruct (_ && _) eqn:E2; [by apply andb_true_iff in E2 as [_ ->]|].
    apply negb_true_iff, Time.Before_false. lia.
Qed.

Lemma stale_merge_never_rewinds_witness :
  let e := zero_account <| UpdatedAt := 50 |> <| QuotaResetAt := 900 |> in
  let acc := zero_account <| UpdatedAt := 40 |> <| QuotaResetAt := 300 |> in
  QuotaResetAt (merge_account 60 acc e) = 900.
Proof.
  intros e acc. destruct (stale_merge_never_rewinds 60 acc e) as [H _]; [by vm_compute|exact H].
Defined.

(** *** Verdicts and credentials *)

(** outside a running restriction the row takes the snapshot's
    status and keeps an explanation only while there is a status to explain;
    an explicit clear - and nothing else - forgets the verification time and
    reactivates the credential, and the request to clear is not stored. *)
Theorem merge_verdict now acc e
    (Hfree : is_workbuddy (merge_account now acc e)
             && Time.After (restriction_deadline now acc e) now = false) :
  let u := merge_account now acc e in
  StatusCode u = StatusCode acc
  /\ StatusMessage u = (if is_empty (TrimSpace (StatusCode u)) then ""%string
                        else StatusMessage acc)
  /\ VerifiedAt u = (if ClearVerifiedAt acc then Time.zero
                     else if Time.IsZero (VerifiedAt acc) then VerifiedAt e else VerifiedAt acc)
  /\ (ClearVerifiedAt acc = true -> AccountAuthActive (Some u) = true)
  /\ ClearVerifiedAt u = false.
Proof.
  intros u.
  assert (Hs : StatusCode u = StatusCode acc).
  { change (StatusCode u) with
      (if is_workbuddy u && Time.After (restriction_deadline now acc e) now
       then "403"%string else StatusCode acc). unfold u. by rewrite Hfree. }
  split_and!; [exact Hs|..].
  - rewrite Hs. change (StatusMessage u) with
      (if is_workbuddy u && Time.After (restriction_deadline now acc e) now
       then WorkBuddyRestrictionMessage
       else if is_empty (TrimSpace (StatusCode acc)) then "" else StatusMessage acc).
    unfold u. by rewrite Hfree.
  - change (VerifiedAt u) with
      (if ClearVerifiedAt acc then Time.zero
       else if negb (Time.IsZero (VerifiedAt acc)) then VerifiedAt acc else VerifiedAt e).
    by destruct (ClearVerifiedAt acc), (Time.IsZero (VerifiedAt acc)).
  - intros Hc. unfold AccountAuthActive.
    replace (AuthStatus u) with AccountAuthStatusActive; [done|].
    change (AuthStatus u) with
      (if ClearVerifiedAt acc then AccountAuthStatusActive else AuthStatus acc).
    by rewrite Hc.
  - done.
Qed.

Lemma merge_verdict_witness :
  let acc := zero_account <| AccountType := "cline" |> <| StatusMessage := "late" |> in
  let e := zero_account <| AccountType := "cline" |> <| StatusCode := "429" |> in
  StatusMessage (merge_account 60 acc e) = ""%string.
Proof.
  intros acc e. destruct (merge_verdict 60 acc e) as (_ & H & _); [by vm_compute|exact H].
Defined.

(** The rotating credentials of a row, access token, refresh token and expiry. *)
Definition workbuddy_credentials (a : Account) :=
  (WorkBuddyAccessToken a, WorkBuddyRefreshToken a, WorkBuddyExpiresAt a).
Definition cline_credentials (a : Account) :=
  (ClineAccessToken a, ClineRefreshToken a, ClineExpiresAt a).
Definition grok_credentials (a : Account) :=
  (OAuthAccessToken a, OAuthRefreshToken a, OAuthExpiresAt a).

(** the WorkBuddy and Cline pairs are replaced only by a snapshot
    that says so, whole and trimmed; any other snapshot, stale or current,
    leaves the stored rotation in place. *)
Theorem merge_replaces_credentials_on_request now acc e :
  let u := merge_account now acc e in
  workbuddy_credentials u
  = (if ReplaceWorkBuddyCredentials acc
     then (TrimSpace (WorkBuddyAccessToken acc), TrimSpace (WorkBuddyRefreshToken acc),
           WorkBuddyExpiresAt acc)
     else workbuddy_credentials e)
  /\ cline_credentials u
     = (if ReplaceClineCredentials acc
        then (TrimSpace (ClineAccessToken acc), TrimSpace (ClineRefreshToken acc),
              ClineExpiresAt acc)
        else cline_credentials e).
Proof.
  intros u. split.
  - change (workbuddy_credentials u) with
      (if ReplaceWorkBuddyCredentials acc then TrimSpace (WorkBuddyAccessToken acc)
       else WorkBuddyAccessToken e,
       if ReplaceWorkBuddyCredentials acc then TrimSpace (WorkBuddyRefreshToken acc)
       else WorkBuddyRefreshToken e,
       if ReplaceWorkBuddyCredentials acc then WorkBuddyExpiresAt acc else WorkBuddyExpiresAt e).
    by destruct (ReplaceWorkBuddyCredentials acc).
  - change (cline_credentials u) with
      (if ReplaceClineCredentials acc then TrimSpace (ClineAccessToken acc)
       else ClineAccessToken e,
       if ReplaceClineCredentials acc then TrimSpace (ClineRefreshToken acc)
       else ClineRefreshToken e,
       if ReplaceClineCredentials acc then ClineExpiresAt acc else ClineExpiresAt e).
    by destruct (ReplaceClineCredentials acc).
Qed.

Lemma patchString_trim target incoming :
  patchString target incoming
  = if is_empty (TrimSpace incoming) then target else TrimSpace incoming.
Proof. done. Qed.

Lemma patchString_idemp target incoming :
  patchString (patchString target incoming) incoming = patchString target incoming.
Proof. rewrite !patchString_trim. by destruct (is_empty (TrimSpace incoming)). Qed.

(** the Grok OAuth pair has no such guard: a snapshot read before
    a rotation puts the spent pair back when any verdict is persisted from it. *)
Theorem stale_snapshot_rewinds_grok_oauth now patch e rotated
    (Hrot : UpdateGrokCredentials_mutation patch e = inl rotated) :
  grok_credentials (merge_account now e rotated) = grok_credentials e
  /\ (TrimSpace (gp_RefreshToken patch) <> ""%string ->
      OAuthRefreshToken rotated = TrimSpace (gp_RefreshToken patch)).
Proof.
  split; [reflexivity|]. intros Hne. unfold UpdateGrokCredentials_mutation, applyCredentialPatch in Hrot.
  destruct (_ && _) in Hrot; [done|]. injection Hrot as <-.
  change (patchString (OAuthRefreshToken e) (TrimSpace (gp_RefreshToken patch))
          = TrimSpace (gp_RefreshToken patch)).
  rewrite patchString_trim, TrimSpace_idemp.
  destruct (is_empty _) eqn:E; [by apply is_empty_true in E|done].
Qed.

Lemma stale_snapshot_rewinds_grok_oauth_witness :
  let e := zero_account <| OAuthRefreshToken := "r1" |> in
  exists rotated,
    UpdateGrokCredentials_mutation (mkGrokPatch "r1" "a2" "r2" 9 "" "" "" "") e = inl rotated
    /\ OAuthRefreshToken rotated = "r2"%string
    /\ OAuthRefreshToken (merge_account 60 e rotated) = "r1"%string.
Proof.
  intros e. eexists. split; [reflexivity|split; [reflexivity|]].
  match goal with |- OAuthRefreshToken (merge_account _ _ ?r) = _ =>
    destruct (stale_snapshot_rewinds_grok_oauth 60 (mkGrokPatch "r1" "a2" "r2" 9 "" "" "" "") e r)
      as [H _]; [reflexivity|] end.
  exact (f_equal (fun t => snd (fst t)) H).
Defined.

(** of two refreshers that both started from the same stored refresh
    token, the first to commit wins: its token is stored, repeating it changes
    nothing, and the other's different token is refused with an error. *)
Theorem credential_rotation_once channel expected access1 refresh1 expires1
    access2 refresh2 expires2 access stored expires
    (Hexp : stored = TrimSpace expected) (Hne : stored <> ""%string)
    (Hnew : TrimSpace refresh1 <> ""%string) (Hdiff : TrimSpace refresh1 <> stored)
    (Hother : TrimSpace refresh2 <> TrimSpace refresh1) :
  exists a t,
    applyCredentialPatch channel expected access1 refresh1 expires1 access stored expires
      = inl (a, TrimSpace refresh1, t)
    /\ applyCredentialPatch channel expected access1 refresh1 expires1 a (TrimSpace refresh1) t
       = inl (a, TrimSpace refresh1, t)
    /\ applyCredentialPatch channel expected access2 refresh2 expires2 a (TrimSpace refresh1) t
       = inr (Errorf (channel +:+ " credential changed concurrently")).
Proof.
  exists (patchString access access1), (if Time.IsZero expires1 then expires else expires1).
  unfold applyCredentialPatch. rewrite <- Hexp, !patchString_trim, !TrimSpace_idemp.
  apply is_empty_false in Hne, Hnew. rewrite Hne, Hnew.
  rewrite String.eqb_refl. cbn [negb andb].
  assert (String.eqb (TrimSpace refresh1) stored = false) as -> by by apply String.eqb_neq.
  assert (String.eqb (TrimSpace refresh1) (TrimSpace refresh2) = false) as ->.
  { apply String.eqb_neq. congruence. }
  rewrite String.eqb_refl. cbn [negb andb]. split_and!; [done| |done].
  pose proof (patchString_idemp access access1) as Hi. rewrite !patchString_trim in Hi.
  rewrite Hi. by destruct (Time.IsZero expires1).
Qed.

Lemma credential_rotation_once_witness :
  exists a t,
    applyCredentialPatch "cline" "r1" "a2" "r2" 9 "a1" "r1" 5 = inl (a, "r2"%string, t)
    /\ applyCredentialPatch "cline" "r1" "a3" "r3" 9 a "r2" t
       = inr (Errorf "cline credential changed concurrently").
Proof.
  destruct (credential_rotation_once "cline" "r1" "a2" "r2" 9 "a3" "r3" 9 "a1" "r1" 5)
    as (a & t & H1 & _ & H2); try by vm_compute.
  exists a, t. by split.
Defined.

(** *** Quality verdicts *)

(** [failures] failure verdicts in a row. *)
Definition quality_failures (updates : list AccountQualityUpdate) (e : Account) : Account :=
  foldl (fun e update => fst (ApplyAccountQuality_mutation update e)) e updates.

Definition is_failure (update : AccountQualityUpdate) : bool :=
  negb (is_empty (TrimSpace (qu_Reason update))).

Lemma quality_failure_row update e :
  is_failure update = true ->
  exists u, ApplyAccountQuality_mutation update e
    = (u, mkQualityResult true (QualityFailures e) (QualityFailures u) (QualityRevision u)
            (QualityCooldownUntil u) (QualityReason u) (Enabled u) (StatusMessage u))
  /\ QualityFailures u = i64 (QualityFailures e + 1)
  /\ QualityRevision u = u64 (QualityRevision e + 1)
  /\ QualityCooldownUntil u = Z.max (QualityCooldownUntil e) (qu_CooldownUntil update)
  /\ QualityReason u = TrimSpace (qu_Reason update)
  /\ Enabled u = Enabled e && negb ((0 <? qu_DisableThreshold update)
                                    && (qu_DisableThreshold update <=? QualityFailures u)).
Proof.
  unfold is_failure. intros Hf. unfold ApplyAccountQuality_mutation, quality_branch. rewrite Hf.
  eexists. split; [reflexivity|]. split_and!; [done|done| |done|].
  - cbn. destruct (Time.After _ _) eqn:E; time_prop; lia.
  - cbn. destruct (_ && _); [by rewrite andb_false_r|by rewrite andb_true_r].
Qed.

Lemma quality_failures_revision updates e :
  Forall (fun q => is_failure q = true) updates -> 0 <= QualityRevision e < 2^64 ->
  QualityRevision (quality_failures updates e) = u64 (QualityRevision e + Z.of_nat (length updates)).
Proof.
  revert e. induction updates as [|q l IH]; intros e Hl Hr.
  { cbn. rewrite Z.add_0_r. symmetry. by apply u64_small. }
  apply Forall_cons in Hl as [Hq Hl].
  destruct (quality_failure_row q e Hq) as (u & Hu & _ & Hrev & _).
  cbn [quality_failures foldl]. rewrite Hu. cbn [fst].
  pose proof (u64_range (QualityRevision e + 1)) as Hb. rewrite <- Hrev in Hb.
  fold (quality_failures l u). rewrite (IH u Hl Hb), Hrev. unfold u64.
  rewrite Zplus_mod_idemp_l. f_equal. cbn [length]. lia.
Qed.

(** a healthy result observed before a run of failures were recorded
    cannot clear them, however many (fewer than 2^64) there were: the row is
    left exactly as the last failure wrote it, and the caller is told. *)
Theorem stale_healthy_result_ignored updates update e
    (Hfail : Forall (fun q => is_failure q = true) updates) (Hsome : updates <> [])
    (Hmany : Z.of_nat (length updates) < 2^64)
    (Hhealthy : is_failure update = false) (Hrev : 0 <= QualityRevision e < 2^64)
    (Hseen : qu_ExpectedRevision update = QualityRevision e) :
  let u := quality_failures updates e in
  fst (ApplyAccountQuality_mutation update u) = u
  /\ qr_Applied (snd (ApplyAccountQuality_mutation update u)) = false.
Proof.
  intros u. pose proof (quality_failures_revision updates e Hfail Hrev) as Hr. fold u in Hr.
  assert (QualityRevision u <> QualityRevision e) as Hne.
  { rewrite Hr. unfold u64. destruct updates as [|q l]; [done|]. cbn [length] in *.
    intros Heq. pose proof (Z.mod_divide (Z.of_nat (S (length l))) (2^64) ltac:(lia)) as [_ Hd].
    assert (H0 : (QualityRevision e + Z.of_nat (S (length l)) - QualityRevision e) mod 2^64 = 0).
    { rewrite Zminus_mod, Heq, (Z.mod_small (QualityRevision e)) by lia.
      rewrite Z.sub_diag. done. }
    replace (QualityRevision e + Z.of_nat (S (length l)) - QualityRevision e)
      with (Z.of_nat (S (length l))) in H0 by lia.
    rewrite Z.mod_small in H0 by lia. lia. }
  unfold ApplyAccountQuality_mutation, quality_branch. unfold is_failure in Hhealthy.
  rewrite Hhealthy, Hseen. apply Z.eqb_neq in Hne. by rewrite Hne.
Qed.

Lemma stale_healthy_result_ignored_witness :
  let fail := mkQualityUpdate 0 "empty answer" 500 0 in
  qr_Applied (snd (ApplyAccountQuality_mutation (mkQualityUpdate 0 "" 0 0)
                     (quality_failures [fail; fail] zero_account))) = false.
Proof.
  intros fail. refine (proj2 (stale_healthy_result_ignored [fail; fail] (mkQualityUpdate 0 "" 0 0)
                                zero_account _ _ _ _ _ _)); [by repeat constructor|by vm_compute..].
Defined.

(** *** Paid quota probes *)

(** a granted probe of an exhausted paid account is the only one for
    fifteen minutes: until then every claim on the row it wrote is refused and
    leaves the row alone, and from then on the next claim is granted. *)
Theorem paid_probe_spacing now later acc u
    (Hclaim : ClaimGrokPaidQuotaProbe_mutation now acc = (u, true))
    (Hnow : 0 <= now) :
  (later < now + GrokPaidQuotaProbeInterval ->
   ClaimGrokPaidQuotaProbe_mutation later u = (u, false))
  /\ (now + GrokPaidQuotaProbeInterval <= later ->
      snd (ClaimGrokPaidQuotaProbe_mutation later u) = true).
Proof.
  unfold ClaimGrokPaidQuotaProbe_mutation in Hclaim.
  destruct (negb (IsExhausted (GrokBilling acc))) eqn:Ex; [done|].
  cbv zeta in Hclaim. destruct (Time.IsZero _ || Time.Before now _); [done|].
  injection Hclaim as <-. unfold ClaimGrokPaidQuotaProbe_mutation.
  match goal with |- context [negb (IsExhausted (GrokBilling ?r))] => set (u := r) end.
  assert (Hx : IsExhausted (GrokBilling u) = IsExhausted (GrokBilling acc)) by reflexivity.
  assert (Hn : gb_NextProbeAt (GrokBilling u) = now + GrokPaidQuotaProbeInterval) by reflexivity.
  rewrite Hx, Ex. cbv zeta. rewrite Hn.
  assert (Hz : Time.IsZero (now + GrokPaidQuotaProbeInterval) = false).
  { apply Time.IsZero_false. pose proof (eq_refl : GrokPaidQuotaProbeInterval = 900000000000). lia. }
  rewrite Hz, Hz.
  cbn [orb]. split; intros Hl.
  - replace (Time.Before _ _) with true; [done|]. symmetry. by apply Time.Before_true.
  - replace (Time.Before _ _) with false; [done|]. symmetry. by apply Time.Before_false.
Qed.

Lemma paid_probe_spacing_witness :
  let acc := zero_account <| GrokBilling := zero_billing
               <| gb_Monthly := zero_window <| qw_HasLimit := true |> <| qw_Limit := f64_of_int 20 |>
                                            <| qw_HasRemaining := true |> |>
               <| gb_NextProbeAt := 900 |> |> in
  exists u, ClaimGrokPaidQuotaProbe_mutation 1000 acc = (u, true)
    /\ ClaimGrokPaidQuotaProbe_mutation (1000 + 14 * Minute) u = (u, false).
Proof.
  intros acc. eexists. split; [reflexivity|].
  match goal with |- ClaimGrokPaidQuotaProbe_mutation _ ?u = _ =>
    destruct (paid_probe_spacing 1000 (1000 + 14 * Minute) acc u) as [H _];
      [reflexivity|lia|] end.
  apply H. by vm_compute.
Defined.
