(* ===== verification/Redis.v ===== *)
(** The Redis server the stores run on, as an interface.

    The server and its client library are not part of the repository.  [Redis]
    lists the commands the account store sends; [RedisLaws] states what the
    Redis documentation says a successful reply means, in terms of an abstract
    view of the keyspace; [MemRedis] is an instance that satisfies the laws.  A
    reply that is an error says nothing about the database unless a law says
    so: a pipeline that lost its connection may have run any prefix, a
    transaction ([rexec]: the EXEC of a
    transaction that was not aborted) ran whole or not at all. *)

From S2P Require Import Prelude.

(** ** Commands and what they do to the keyspace *)

Inductive command (V : Type) :=
| CmdSet (key : string) (value : V)
| CmdDel (keys : list string)
| CmdSAdd (key member : string)
| CmdSRem (key member : string).
Arguments CmdSet {V}. Arguments CmdDel {V}. Arguments CmdSAdd {V}. Arguments CmdSRem {V}.

(** String keys with their values, set keys with their members, counters. *)
Record keyspace (V : Type) := mkKeyspace {
  ks_strings : gmap string V;
  ks_sets : gmap string (gset string);
  ks_counters : gmap string Z
}.
Arguments mkKeyspace {V}. Arguments ks_strings {V}. Arguments ks_sets {V}. Arguments ks_counters {V}.

Definition members {V} (s : keyspace V) (key : string) : gset string :=
  default ∅ (ks_sets s !! key).

Definition delete_all {A} (keys : list string) (m : gmap string A) : gmap string A :=
  foldl (fun m k => delete k m) m keys.

Definition apply_command {V} (c : command V) (s : keyspace V) : keyspace V :=
  match c with
  | CmdSet k v => mkKeyspace (<[k := v]> (ks_strings s)) (delete k (ks_sets s)) (ks_counters s)
  | CmdDel ks => mkKeyspace (delete_all ks (ks_strings s)) (delete_all ks (ks_sets s)) (ks_counters s)
  | CmdSAdd k m => mkKeyspace (ks_strings s) (<[k := {[m]} ∪ members s k]> (ks_sets s)) (ks_counters s)
  | CmdSRem k m => mkKeyspace (ks_strings s) (<[k := members s k ∖ {[m]}]> (ks_sets s)) (ks_counters s)
  end.

Definition apply_commands {V} (cs : list (command V)) (s : keyspace V) : keyspace V :=
  foldl (fun s c => apply_command c s) s cs.

(** The keys a command writes: the ones whose watchers are marked dirty. *)
Definition command_keys {V} (c : command V) : list string :=
  match c with
  | CmdSet k _ => [k]
  | CmdDel ks => ks
  | CmdSAdd k _ | CmdSRem k _ => [k]
  end.

(** ** The interface *)

Class Redis (V : Type) := {
  redis_db : Type;
  rget : string -> redis_db -> option V + go_error;
  rmget : list string -> redis_db -> list (option V) + go_error;
  rsmembers : string -> redis_db -> list string + go_error;
  rincr : string -> redis_db -> (Z + go_error) * redis_db;
  rpipeline : list (command V) -> redis_db -> option go_error * redis_db;
  rexec : list (command V) -> redis_db -> option go_error * redis_db;
  redis_view : redis_db -> keyspace V
}.

(** What the documentation promises of the replies. *)
Class RedisLaws (V : Type) {R : Redis V} : Prop := {
  rget_ok k d v : rget k d = inl v -> v = ks_strings (redis_view d) !! k;
  rmget_ok ks d vs : rmget ks d = inl vs -> vs = (fun k => ks_strings (redis_view d) !! k) <$> ks;
  rsmembers_ok k d ms : rsmembers k d = inl ms ->
    NoDup ms /\ forall m, m ∈ ms <-> m ∈ members (redis_view d) k;
  rincr_ok k d n d' : rincr k d = (inl n, d') ->
    n = default 0 (ks_counters (redis_view d) !! k) + 1 /\ in_i64 n
    /\ redis_view d' = mkKeyspace (ks_strings (redis_view d)) (ks_sets (redis_view d))
                         (<[k := n]> (ks_counters (redis_view d)));
  rincr_err k d e d' : rincr k d = (inr e, d') ->
    ks_strings (redis_view d') = ks_strings (redis_view d)
    /\ ks_sets (redis_view d') = ks_sets (redis_view d);
  rpipeline_ok cs d d' : rpipeline cs d = (None, d') ->
    redis_view d' = apply_commands cs (redis_view d);
  rpipeline_err cs d e d' : rpipeline cs d = (Some e, d') ->
    exists n, redis_view d' = apply_commands (take n cs) (redis_view d);
  rexec_ok cs d d' : rexec cs d = (None, d') ->
    redis_view d' = apply_commands cs (redis_view d);
  rexec_err cs d e d' : rexec cs d = (Some e, d') ->
    redis_view d' = redis_view d \/ redis_view d' = apply_commands cs (redis_view d)
}.

(** ** Reading the keyspace after a command *)

Section views.
Context {V : Type}.
Implicit Types s : keyspace V.

Lemma apply_commands_app cs ds s :
  apply_commands (cs ++ ds) s = apply_commands ds (apply_commands cs s).
Proof. apply foldl_app. Qed.

Lemma delete_all_lookup {A} keys (m : gmap string A) k :
  delete_all keys m !! k = if bool_decide (k ∈ keys) then None else m !! k.
Proof.
  revert m. induction keys as [|k' keys IH]; intros m; [done|].
  cbn [delete_all foldl]. fold (delete_all keys (delete k' m)). rewrite IH.
  destruct (decide (k = k')) as [->|Hne].
  - rewrite lookup_delete_eq. rewrite (bool_decide_eq_true_2 (k' ∈ k' :: keys)) by set_solver.
    by case_bool_decide.
  - rewrite lookup_delete_ne by done.
    rewrite (bool_decide_ext (k ∈ k' :: keys) (k ∈ keys)); [done|set_solver].
Qed.

Lemma strings_set k v s k' :
  ks_strings (apply_command (CmdSet k v) s) !! k'
  = if decide (k' = k) then Some v else ks_strings s !! k'.
Proof.
  cbn. case_decide as H; [subst; apply lookup_insert_eq|by apply lookup_insert_ne].
Qed.

Lemma members_set k v s k' :
  k' <> k -> members (apply_command (CmdSet k v) s) k' = members s k'.
Proof. intros. unfold members. cbn. by rewrite lookup_delete_ne. Qed.

Lemma members_sadd k m s k' :
  members (apply_command (CmdSAdd k m) s) k'
  = if decide (k' = k) then {[m]} ∪ members s k' else members s k'.
Proof.
  unfold members. cbn. case_decide as H; [subst|by rewrite lookup_insert_ne].
  by rewrite lookup_insert_eq.
Qed.

Lemma members_srem k m s k' :
  members (apply_command (CmdSRem k m) s) k'
  = if decide (k' = k) then members s k' ∖ {[m]} else members s k'.
Proof.
  unfold members. cbn. case_decide as H; [subst|by rewrite lookup_insert_ne].
  by rewrite lookup_insert_eq.
Qed.

Lemma members_del ks s k :
  k ∉ ks -> members (apply_command (CmdDel ks) s) k = members s k.
Proof.
  intros H. unfold members. cbn. rewrite delete_all_lookup.
  by rewrite bool_decide_eq_false_2.
Qed.
End views.

(** ** An in-memory server *)

#[export] Instance MemRedis (V : Type) : Redis V := {|
  redis_db := keyspace V;
  rget k d := inl (ks_strings d !! k);
  rmget ks d := inl ((fun k => ks_strings d !! k) <$> ks);
  rsmembers k d := inl (elements (members d k));
  rincr k d :=
    let n := default 0 (ks_counters d !! k) + 1 in
    if (min_int64 <=? n) && (n <=? max_int64)
    then (inl n, mkKeyspace (ks_strings d) (ks_sets d) (<[k := n]> (ks_counters d)))
    else (inr (Errorf "ERR increment or decrement would overflow"), d);
  rpipeline cs d := (None, apply_commands cs d);
  rexec cs d := (None, apply_commands cs d);
  redis_view d := d
|}.

#[export] Instance MemRedis_laws (V : Type) : RedisLaws V.
Proof.
  split; cbn.
  - congruence.
  - congruence.
  - intros k d ms [= <-]. split; [apply NoDup_elements|]. intros m. apply elem_of_elements.
  - intros k d n d'. destruct (_ && _) eqn:E; [|done]. intros [= <- <-]. split; [done|].
    split; [|done]. unfold in_i64. to_prop. lia.
  - intros k d e d'. destruct (_ && _); [done|]. by intros [= <- <-].
  - congruence.
  - done.
  - congruence.
  - done.
Qed.
