(* ===== verification/AccountCodec.v ===== *)
(** Credential encryption at rest and the encoding of an account row
    ([internal/store/credential_cipher.go]).

    AES-GCM, base64 and JSON come from Go's library: they are the classes
    [AEAD], [Base64] and [AccountJSON], whose laws are their documented round
    trips.  The rules around them - what is encrypted, what is refused, what a
    legacy row may hold - are the definitions. *)

From S2P Require Import Prelude GoFloat UpstreamErrors Account.

(** ** The library functions *)

(** [cipher.AEAD]: [Seal(nonce, nonce, plain, nil)] prefixes the nonce, so the
    sealing function here returns the ciphertext alone. *)
Class AEAD := {
  NonceSize : nat;
  aead_Seal : string -> string -> string;
  aead_Open : string -> string -> string + go_error;
  aead_Open_Seal nonce plain : String.length nonce = NonceSize ->
    aead_Open nonce (aead_Seal nonce plain) = inl plain
}.

(** [base64.RawStdEncoding]. *)
Class Base64 := {
  b64_EncodeToString : string -> string;
  b64_DecodeString : string -> string + go_error;
  b64_roundtrip s : b64_DecodeString (b64_EncodeToString s) = inl s
}.

(** The fields [json:"-"] and [omitempty] do not survive: the three write
    intents are dropped and an empty list reads back as nil. *)
Definition json_profile (p : Profile) : Profile :=
  mkProfile (pf_Name p) (pf_Description p) (pf_ModelID p) (append_to_nil (pf_ReasoningEfforts p))
    (pf_DefaultReasoningEffort p) (pf_SupportsReasoningEffort p) (pf_ContextWindow p)
    (pf_MaxCompletionTokens p) (pf_SupportsBackendSearch p).

Definition json_image (a : Account) : Account :=
  a <| ClearVerifiedAt := false |> <| ReplaceWorkBuddyCredentials := false |>
    <| ReplaceClineCredentials := false |>
    <| GrokModels := append_to_nil (GrokModels a) |>
    <| GrokModelCatalog := map json_profile <$> append_to_nil (GrokModelCatalog a) |>.

(** [encoding/json] on an [Account].  [json_text] says that every string of the
    row is valid UTF-8 (the encoder replaces other bytes); marshalling fails on
    an infinite float or a year beyond 9999. *)
Class AccountJSON (V : Type) := {
  json_text : Account -> bool;
  json_Marshal : Account -> V + go_error;
  json_Unmarshal : V -> Account + go_error;
  json_blank : V -> bool;
  json_roundtrip a v : json_text a = true -> json_Marshal a = inl v ->
    json_blank v = false /\ json_Unmarshal v = inl (json_image a)
}.

(** ** The credential cipher *)

Definition encryptedCredentialPrefix : string := "enc:v1:".

Section cipher.
Context {Aead : AEAD} {B64 : Base64}.

(** [keyed] is whether an encryption key is configured ([c != nil]); [nonce]
    is what the random source gives for this call. *)
Definition encrypt (keyed : bool) (nonce : string + go_error) (value : string) : string + go_error :=
  if negb keyed || is_empty value then inl value
  else match nonce with
       | inr err => inr err
       | inl n => inl (encryptedCredentialPrefix +:+ b64_EncodeToString (n +:+ aead_Seal n value))
       end.

Definition decrypt (keyed : bool) (value : string) : string + go_error :=
  if is_empty value then inl value
  else if negb (HasPrefix value encryptedCredentialPrefix) then
    if keyed then inr (Errorf "credential ciphertext is required") else inl value
  else if negb keyed then
    inr (Errorf "encrypted credential found but no encryption key is configured")
  else
    match b64_DecodeString (drop_bytes (String.length encryptedCredentialPrefix) value) with
    | inr err => inr (Errorf ("decode encrypted credential: " +:+ err_text err))
    | inl raw =>
        if (String.length raw <? NonceSize)%nat
        then inr (Errorf "encrypted credential is truncated")
        else match aead_Open (take_bytes NonceSize raw) (drop_bytes NonceSize raw) with
             | inr err => inr (Errorf ("decrypt credential: " +:+ err_text err))
             | inl plain => inl plain
             end
    end.
End cipher.

(** A credential field: how it is read and written. *)
Record lens := mkLens { field_get : Account -> string; field_set : string -> Account -> Account }.

Definition accountCredentialFields : list lens :=
  [mkLens ClientCookie (fun v a => a <| ClientCookie := v |>);
   mkLens RefreshToken (fun v a => a <| RefreshToken := v |>);
   mkLens Token (fun v a => a <| Token := v |>);
   mkLens OAuthAccessToken (fun v a => a <| OAuthAccessToken := v |>);
   mkLens OAuthRefreshToken (fun v a => a <| OAuthRefreshToken := v |>);
   mkLens WorkBuddyAccessToken (fun v a => a <| WorkBuddyAccessToken := v |>);
   mkLens WorkBuddyRefreshToken (fun v a => a <| WorkBuddyRefreshToken := v |>);
   mkLens ClineAccessToken (fun v a => a <| ClineAccessToken := v |>);
   mkLens ClineRefreshToken (fun v a => a <| ClineRefreshToken := v |>)].

(** [for _, field := range fields { v, err := f(field); if err ... ; *field = v }],
    the [i]-th call of [f] being given [i]. *)
Fixpoint map_fields (f : nat -> string -> string + go_error) (i : nat) (fields : list lens)
    (a : Account) : Account + go_error :=
  match fields with
  | [] => inl a
  | l :: rest =>
      match f i (field_get l a) with
      | inr err => inr err
      | inl v => map_fields f (S i) rest (field_set l v a)
      end
  end.

Section codec.
Context {V : Type} {Aead : AEAD} {B64 : Base64} {J : AccountJSON V}.

Definition marshalAccount (keyed : bool) (nonces : nat -> string + go_error) (acc : Account) :
    V + go_error :=
  match map_fields (fun i v => encrypt keyed (nonces i) v) 0 accountCredentialFields acc with
  | inr err => inr err
  | inl stored => json_Marshal stored
  end.

Definition unmarshalAccount (keyed : bool) (data : V) (fallbackID : Z) : Account + go_error :=
  match json_Unmarshal data with
  | inr err => inr err
  | inl acc =>
      match map_fields (fun _ v => decrypt keyed v) 0 accountCredentialFields acc with
      | inr err => inr err
      | inl acc => inl (if ID acc =? 0 then acc <| ID := fallbackID |> else acc)
      end
  end.
End codec.

(** ** Round trip *)

Section roundtrip.
Context {V : Type} {Aead : AEAD} {B64 : Base64} {J : AccountJSON V}.

(** What a plaintext must satisfy to be read back: without a key it is stored
    as it is, so it must not look like a ciphertext. *)
Definition readable (keyed : bool) (value : string) : bool :=
  keyed || negb (HasPrefix value encryptedCredentialPrefix).

Lemma decrypt_sealed n value :
  String.length n = NonceSize ->
  decrypt true (encryptedCredentialPrefix +:+ b64_EncodeToString (n +:+ aead_Seal n value))
  = inl value.
Proof.
  intros Hn. unfold decrypt.
  replace (is_empty _) with false by done.
  rewrite HasPrefix_app_self, drop_bytes_app, b64_roundtrip, string_length_app, Hn. cbn [negb].
  replace (_ <? _)%nat with false by (symmetry; apply Nat.ltb_ge; lia).
  rewrite <- Hn at 1 2. by rewrite take_bytes_app, drop_bytes_app, aead_Open_Seal.
Qed.

Lemma encrypt_decrypt keyed nonce value w :
  readable keyed value = true ->
  (forall n, nonce = inl n -> String.length n = NonceSize) ->
  encrypt keyed nonce value = inl w -> decrypt keyed w = inl value.
Proof.
  unfold encrypt, readable. intros Hr Hn He.
  destruct (is_empty value) eqn:Ee.
  { rewrite orb_true_r in He. injection He as <-. unfold decrypt. by rewrite Ee. }
  destruct keyed; cbn [negb orb] in He, Hr.
  - destruct nonce as [n|]; [|done]. injection He as <-. apply decrypt_sealed, Hn, eq_refl.
  - injection He as <-. unfold decrypt. by rewrite Ee, Hr.
Qed.

(** All nine credentials replaced. *)
Definition set_credentials (v0 v1 v2 v3 v4 v5 v6 v7 v8 : string) (a : Account) : Account :=
  a <| ClientCookie := v0 |> <| RefreshToken := v1 |> <| Token := v2 |>
    <| OAuthAccessToken := v3 |> <| OAuthRefreshToken := v4 |>
    <| WorkBuddyAccessToken := v5 |> <| WorkBuddyRefreshToken := v6 |>
    <| ClineAccessToken := v7 |> <| ClineRefreshToken := v8 |>.

(** The fields are independent, so the loop reads the original row. *)
Lemma map_fields_eq f a :
  map_fields f 0 accountCredentialFields a
  = match f 0%nat (ClientCookie a) with inr e => inr e | inl v0 =>
    match f 1%nat (RefreshToken a) with inr e => inr e | inl v1 =>
    match f 2%nat (Token a) with inr e => inr e | inl v2 =>
    match f 3%nat (OAuthAccessToken a) with inr e => inr e | inl v3 =>
    match f 4%nat (OAuthRefreshToken a) with inr e => inr e | inl v4 =>
    match f 5%nat (WorkBuddyAccessToken a) with inr e => inr e | inl v5 =>
    match f 6%nat (WorkBuddyRefreshToken a) with inr e => inr e | inl v6 =>
    match f 7%nat (ClineAccessToken a) with inr e => inr e | inl v7 =>
    match f 8%nat (ClineRefreshToken a) with inr e => inr e | inl v8 =>
      inl (set_credentials v0 v1 v2 v3 v4 v5 v6 v7 v8 a)
    end end end end end end end end end.
Proof. reflexivity. Qed.

Lemma set_credentials_image v0 v1 v2 v3 v4 v5 v6 v7 v8 a :
  set_credentials (ClientCookie a) (RefreshToken a) (Token a) (OAuthAccessToken a)
    (OAuthRefreshToken a) (WorkBuddyAccessToken a) (WorkBuddyRefreshToken a)
    (ClineAccessToken a) (ClineRefreshToken a)
    (json_image (set_credentials v0 v1 v2 v3 v4 v5 v6 v7 v8 a)) = json_image a.
Proof. reflexivity. Qed.

Definition credentials (a : Account) : list string :=
  (fun l => field_get l a) <$> accountCredentialFields.

(** a row that was written is read back as it was, up to what the
    encoding does not carry, whenever the store can read its own plaintexts:
    a key is configured, or no credential starts like a ciphertext. *)
Theorem account_codec_roundtrip (keyed : bool) (nonces : nat -> string + go_error)
    (a stored : Account) (data : V) (fallback : Z)
    (Hread : forallb (readable keyed) (credentials a) = true)
    (Hnonce : forall i n, nonces i = inl n -> String.length n = NonceSize)
    (Hstored : map_fields (fun i v => encrypt keyed (nonces i) v) 0 accountCredentialFields a
               = inl stored)
    (Htext : json_text stored = true)
    (Hmarshal : marshalAccount keyed nonces a = inl data) :
  unmarshalAccount keyed data fallback
  = inl (if ID a =? 0 then (json_image a) <| ID := fallback |> else json_image a).
Proof.
  unfold marshalAccount in Hmarshal. rewrite Hstored in Hmarshal.
  destruct (json_roundtrip stored data Htext Hmarshal) as [_ Hj].
  unfold unmarshalAccount. rewrite Hj.
  cbn [forallb credentials accountCredentialFields fmap list_fmap field_get] in Hread.
  rewrite !andb_true_iff in Hread.
  rewrite map_fields_eq in Hstored. rewrite map_fields_eq.
  repeat match type of Hstored with
  | match encrypt ?k ?n ?s with _ => _ end = _ =>
      let E := fresh "E" in destruct (encrypt k n s) eqn:E; [|done];
      apply encrypt_decrypt in E; [|tauto|apply Hnonce]
  end.
  injection Hstored as <-.
  repeat match goal with
  | E : decrypt keyed ?s = inl ?v |- context [decrypt keyed ?t] =>
      change t with s; rewrite E; clear E
  end.
  by rewrite set_credentials_image.
Qed.

(** with a key configured no credential reaches the database in the
    clear, and a row that holds one is refused rather than used. *)
Theorem no_credential_in_clear (nonces : nat -> string + go_error) (a stored : Account)
    (Hstored : map_fields (fun i v => encrypt true (nonces i) v) 0 accountCredentialFields a
               = inl stored) :
  Forall (fun v => v = ""%string \/ HasPrefix v encryptedCredentialPrefix = true)
    (credentials stored)
  /\ forall v, v <> ""%string -> HasPrefix v encryptedCredentialPrefix = false ->
       decrypt true v = inr (Errorf "credential ciphertext is required").
Proof.
  split.
  - rewrite map_fields_eq in Hstored.
    assert (Hok : forall n v w, encrypt true n v = inl w ->
              w = ""%string \/ HasPrefix w encryptedCredentialPrefix = true).
    { unfold encrypt. intros n v w. cbn [negb orb]. destruct (is_empty v) eqn:Ee.
      - intros [= <-]. left. by apply is_empty_true.
      - destruct n; [|done]. intros [= <-]. right. apply HasPrefix_app_self. }
    repeat match type of Hstored with
    | match encrypt ?k ?n ?s with _ => _ end = _ =>
        let E := fresh "E" in destruct (encrypt k n s) eqn:E; [|done]; apply Hok in E
    end.
    injection Hstored as <-. repeat (constructor; [assumption|]). constructor.
  - intros v Hne Hp. unfold decrypt. apply is_empty_false in Hne. by rewrite Hne, Hp.
Qed.
End roundtrip.

(** ** Instances

    Functions that satisfy the documented laws, for evaluating the definitions
    on concrete rows. *)

Definition plain_aead : AEAD.
Proof.
  refine {| NonceSize := 2; aead_Seal n v := v; aead_Open n c := inl c |}. done.
Defined.

Definition plain_base64 : Base64.
Proof.
  refine {| b64_EncodeToString s := s; b64_DecodeString s := inl s |}. done.
Defined.

Definition plain_json : AccountJSON Account.
Proof.
  refine {| json_text _ := true; json_Marshal a := inl (json_image a);
            json_Unmarshal v := inl v; json_blank _ := false |}.
  intros a v _ [= <-]. done.
Defined.

Section demo.
#[local] Existing Instance plain_aead.
#[local] Existing Instance plain_base64.
#[local] Existing Instance plain_json.

Definition demo_row : Account := zero_account <| ID := 7 |> <| ClineAccessToken := "secret" |>.
Definition demo_nonces : nat -> string + go_error := fun _ => inl "00".
Definition demo_stored : Account :=
  match map_fields (fun i v => encrypt true (demo_nonces i) v) 0 accountCredentialFields demo_row with
  | inl a => a | inr _ => zero_account
  end.

Lemma account_codec_roundtrip_witness :
  exists data, marshalAccount true demo_nonces demo_row = inl data
    /\ unmarshalAccount true data 7 = inl (json_image demo_row).
Proof.
  exists (json_image demo_stored). split; [vm_compute; reflexivity|].
  rewrite (account_codec_roundtrip true demo_nonces demo_row demo_stored); [vm_compute; reflexivity|..].
  - vm_compute. reflexivity.
  - intros i n [= <-]. reflexivity.
  - vm_compute. reflexivity.
  - reflexivity.
  - vm_compute. reflexivity.
Defined.

Lemma no_credential_in_clear_witness :
  ClineAccessToken demo_stored = "enc:v1:00secret"%string
  /\ Forall (fun v => v = ""%string \/ HasPrefix v encryptedCredentialPrefix = true)
      (credentials demo_stored).
Proof.
  split; [vm_compute; reflexivity|].
  refine (proj1 (no_credential_in_clear demo_nonces demo_row demo_stored _)).
  vm_compute. reflexivity.
Defined.
End demo.
