(* ===== verification/AccountStore.v ===== *)
(** The Redis account store ([internal/store/redis_store.go]): keys, index
    sets, the row operations, and the optimistic update loop as a transition
    system in which any number of writers and foreign clients interleave. *)

From Stdlib Require Import Ascii.
From S2P Require Import Prelude GoFloat UpstreamErrors Account AccountMerge Redis AccountCodec.

Definition errAccountUnchanged : go_error := Errorf "account unchanged".

(** [parseSortedInt64s] ([redis_batch.go]). *)
Definition parseSortedInt64s (values : list string) : list Z :=
  merge_sort (≤)%Z (omap (fun value => ParseInt (TrimSpace value)) values).

(** ** The store *)

Section store.
Context {V : Type} {R : Redis V} {Aead : AEAD} {B64 : Base64} {J : AccountJSON V}.
(** [reflect.DeepEqual] on two rows: it never equates rows that differ. *)
Context (DeepEqual : Account -> Account -> bool).
Context (prefix : string) (keyed : bool).

Definition accountsKey (id : Z) : string := prefix +:+ "accounts:id:" +:+ Itoa id.
Definition accountStatsOperationsKey (id : Z) : string :=
  prefix +:+ "accounts:stats_ops:" +:+ Itoa id.
Definition accountsIDsKey : string := prefix +:+ "accounts:ids".
Definition accountsEnabledKey : string := prefix +:+ "accounts:enabled".
Definition accountsNextIDKey : string := prefix +:+ "accounts:next_id".

Definition pipeAccountMembership (id : Z) (enabled : bool) : list (command V) :=
  [CmdSAdd accountsIDsKey (Itoa id);
   if enabled then CmdSAdd accountsEnabledKey (Itoa id)
   else CmdSRem accountsEnabledKey (Itoa id)].

Definition write_row (id : Z) (enabled : bool) (data : V) : list (command V) :=
  CmdSet (accountsKey id) data :: pipeAccountMembership id enabled.

(** A call's error, the account it leaves in the caller's hands, the
    notification it publishes (previous row and id) and the database. *)
Record outcome := mkOutcome {
  o_err : option go_error;
  o_acc : Account;
  o_published : option (option Account * Z);
  o_db : redis_db
}.

Definition CreateAccount (now : instant) (nonces : nat -> string + go_error) (acc : Account)
    (db : redis_db) : outcome :=
  match rincr accountsNextIDKey db with
  | (inr err, db) => mkOutcome (Some err) acc None db
  | (inl id, db) =>
      let acc := acc <| ID := id |> in
      let acc := acc <| CreatedAt := if Time.IsZero (CreatedAt acc) then now else CreatedAt acc |> in
      let acc := acc <| UpdatedAt := if Time.IsZero (UpdatedAt acc) then now else UpdatedAt acc |> in
      match marshalAccount keyed nonces acc with
      | inr err => mkOutcome (Some err) acc None db
      | inl data =>
          match rpipeline (write_row id (Enabled acc) data) db with
          | (Some err, db) => mkOutcome (Some err) acc None db
          | (None, db) => mkOutcome None acc (Some (None, id)) db
          end
      end
  end.

Definition getAccount (id : Z) (db : redis_db) : Account + go_error :=
  if id =? 0 then inr ErrNoRows
  else match rget (accountsKey id) db with
       | inl None => inr ErrNoRows
       | inr err => inr err
       | inl (Some value) => unmarshalAccount keyed value id
       end.

Definition delete_commands (id : Z) : list (command V) :=
  [CmdDel [accountsKey id; accountStatsOperationsKey id];
   CmdSRem accountsIDsKey (Itoa id); CmdSRem accountsEnabledKey (Itoa id)].

(** The error, the notification and the database. *)
Definition DeleteAccount (id : Z) (db : redis_db) :
    option go_error * option (option Account * Z) * redis_db :=
  if id =? 0 then (None, None, db)
  else
    let remove (published : option (option Account * Z)) :=
      match rpipeline (delete_commands id) db with
      | (Some err, db) => (Some err, None, db)
      | (None, db) => (None, published, db)
      end in
    match getAccount id db with
    | inl previous => remove (Some (Some previous, id))
    | inr err => if bool_decide (err = ErrNoRows) then remove None else (Some err, None, db)
    end.

(** [decode] of [getAccountsByIDs]: nothing, a row, or an error. *)
Definition decode_row (onlyEnabled : bool) (id : Z) (value : option V) :
    option Account + go_error :=
  match value with
  | None => inl None
  | Some v =>
      if json_blank v then inr (Errorf ("invalid account record #" +:+ Itoa id))
      else match unmarshalAccount keyed v id with
           | inr err => inr err
           | inl acc => inl (if negb onlyEnabled || Enabled acc then Some acc else None)
           end
  end.

Definition sum_err {A} (x : A + go_error) : option go_error :=
  match x with inl _ => None | inr err => Some err end.
Definition sum_row {A} (x : option A + go_error) : option A :=
  match x with inl row => row | inr _ => None end.

Definition getAccountsByIDs (ids : list string) (onlyEnabled : bool) (db : redis_db) :
    list Account + go_error :=
  match parseSortedInt64s ids with
  | [] => inl []
  | idNums =>
      match rmget (map accountsKey idNums) db with
      | inr err => inr err
      | inl values =>
          let results := zip_with (decode_row onlyEnabled) idNums values in
          match errors_Join (map sum_err results) with
          | Some err => inr err
          | None => inl (omap sum_row results)
          end
      end
  end.

Definition ListAccounts (db : redis_db) : list Account + go_error :=
  match rsmembers accountsIDsKey db with
  | inr err => inr err
  | inl ids => getAccountsByIDs ids false db
  end.

Definition GetEnabledAccounts (db : redis_db) : list Account + go_error :=
  match rsmembers accountsEnabledKey db with
  | inr err => inr err
  | inl ids => getAccountsByIDs ids true db
  end.

(** *** One attempt of [updateAccountAtomic]

    What the closure given to [Watch] does with the reply to [GET], up to the
    transaction it queues. *)

Inductive plan :=
| PlanFail (err : go_error)
| PlanNoRows
| PlanUnchanged
| PlanCommit (previous : Account) (cmds : list (command V)).

Definition advance (now : instant) (previous u : Account) : Account :=
  u <| UpdatedAt := if Time.After now (UpdatedAt previous) then now
                    else Time.Add (UpdatedAt previous) Nanosecond |>.

Definition plan_of (now : instant) (nonces : nat -> string + go_error) (id : Z)
    (mutate : Account -> Account + go_error) (reply : option V + go_error) : plan :=
  match reply with
  | inr err => PlanFail err
  | inl None => PlanNoRows
  | inl (Some value) =>
      match unmarshalAccount keyed value id with
      | inr err => PlanFail err
      | inl previous =>
          match mutate previous with
          | inr err => PlanFail err
          | inl current =>
              if DeepEqual (current <| UpdatedAt := UpdatedAt previous |>) previous
              then PlanUnchanged
              else
                let current := advance now previous current in
                match marshalAccount keyed nonces current with
                | inr err => PlanFail err
                | inl data => PlanCommit previous (write_row id (Enabled current) data)
                end
          end
      end
  end.

(** *** The writers

    Each call of [updateAccountAtomic] is a process.  [dirty] is the flag the
    server keeps for a connection that has watched a key. *)

Definition update_attempts : nat := 32.

Inductive writer :=
| WIdle (left : nat)
| WWatched (left : nat) (dirty : bool)
| WRead (left : nat) (dirty : bool) (reply : option V + go_error)
| WDone (result : option go_error).

Record call := mkCall {
  c_id : Z;
  c_mutate : instant -> Account -> Account + go_error
}.

Record system := mkSystem {
  s_db : redis_db;
  s_writers : nat -> writer;
  s_published : list (option Account * Z)
}.

(** What happened: nothing the database sees, a committed update of one
    writer, or commands of another client. *)
Inductive event := Quiet | Committed (p : nat) (cmds : list (command V))
                 | Foreign (cmds : list (command V)).

Definition touches (key : string) (cmds : list (command V)) : bool :=
  existsb (fun c => bool_decide (key ∈ command_keys c)) cmds.

Definition mark (hit : bool) (w : writer) : writer :=
  match w with
  | WWatched n d => WWatched n (d || hit)
  | WRead n d r => WRead n (d || hit) r
  | w => w
  end.

(** Writing [cmds] marks every connection that watches one of their keys. *)
Definition mark_all (calls : nat -> call) (cmds : list (command V)) (ws : nat -> writer) :
    nat -> writer :=
  fun p => mark (touches (accountsKey (c_id (calls p))) cmds) (ws p).

Definition set_writer (p : nat) (w : writer) (ws : nat -> writer) : nat -> writer :=
  fun q => if decide (q = p) then w else ws q.

Definition too_frequent (id : Z) : go_error :=
  Errorf ("account " +:+ Itoa id +:+ " changed too frequently; update could not be committed").

Inductive step (calls : nat -> call) : system -> event -> system -> Prop :=
| step_zero p n db ws evs :
    ws p = WIdle n -> c_id (calls p) = 0 ->
    step calls (mkSystem db ws evs) Quiet (mkSystem db (set_writer p (WDone None) ws) evs)
| step_watch p n db ws evs :
    ws p = WIdle (S n) -> c_id (calls p) <> 0 ->
    step calls (mkSystem db ws evs) Quiet
      (mkSystem db (set_writer p (WWatched n false) ws) evs)
| step_give_up p db ws evs :
    ws p = WIdle 0 -> c_id (calls p) <> 0 ->
    step calls (mkSystem db ws evs) Quiet
      (mkSystem db (set_writer p (WDone (Some (too_frequent (c_id (calls p))))) ws) evs)
| step_get p n d db ws evs :
    ws p = WWatched n d ->
    step calls (mkSystem db ws evs) Quiet
      (mkSystem db (set_writer p (WRead n d (rget (accountsKey (c_id (calls p))) db)) ws) evs)
| step_return p n d reply now nonces res db ws evs :
    ws p = WRead n d reply ->
    (match plan_of now nonces (c_id (calls p)) (c_mutate (calls p) now) reply with
     | PlanFail err => Some (Some err)
     | PlanNoRows | PlanUnchanged => Some None
     | PlanCommit _ _ => None
     end) = Some res ->
    step calls (mkSystem db ws evs) Quiet (mkSystem db (set_writer p (WDone res) ws) evs)
| step_aborted p n reply now nonces previous cmds db ws evs :
    ws p = WRead n true reply ->
    plan_of now nonces (c_id (calls p)) (c_mutate (calls p) now) reply = PlanCommit previous cmds ->
    step calls (mkSystem db ws evs) Quiet (mkSystem db (set_writer p (WIdle n) ws) evs)
| step_commit p n reply now nonces previous cmds db db' ws evs :
    ws p = WRead n false reply ->
    plan_of now nonces (c_id (calls p)) (c_mutate (calls p) now) reply = PlanCommit previous cmds ->
    rexec cmds db = (None, db') ->
    step calls (mkSystem db ws evs) (Committed p cmds)
      (mkSystem db' (set_writer p (WDone None) (mark_all calls cmds ws))
         (evs ++ [(Some previous, c_id (calls p))]))
| step_lost p n reply now nonces previous cmds err db db' ws evs :
    (* the reply of EXEC was lost and so was the transaction *)
    ws p = WRead n false reply ->
    plan_of now nonces (c_id (calls p)) (c_mutate (calls p) now) reply = PlanCommit previous cmds ->
    rexec cmds db = (Some err, db') -> redis_view db' = redis_view db ->
    step calls (mkSystem db ws evs) Quiet (mkSystem db' (set_writer p (WDone (Some err)) ws) evs)
| step_unheard p n reply now nonces previous cmds err db db' ws evs :
    (* the transaction ran but its reply was lost *)
    ws p = WRead n false reply ->
    plan_of now nonces (c_id (calls p)) (c_mutate (calls p) now) reply = PlanCommit previous cmds ->
    rexec cmds db = (Some err, db') -> redis_view db' = apply_commands cmds (redis_view db) ->
    step calls (mkSystem db ws evs) (Committed p cmds)
      (mkSystem db' (set_writer p (WDone (Some err)) (mark_all calls cmds ws)) evs)
| step_foreign cmds db db' ws evs :
    redis_view db' = apply_commands cmds (redis_view db) ->
    step calls (mkSystem db ws evs) (Foreign cmds) (mkSystem db' (mark_all calls cmds ws) evs)
| step_unwatched p n err db ws evs :
    (* WATCH itself failed *)
    ws p = WIdle (S n) -> c_id (calls p) <> 0 ->
    step calls (mkSystem db ws evs) Quiet (mkSystem db (set_writer p (WDone (Some err)) ws) evs)
| step_abort_unheard p n reply now nonces previous cmds err db ws evs :
    (* the server refused the transaction but its reply was lost *)
    ws p = WRead n true reply ->
    plan_of now nonces (c_id (calls p)) (c_mutate (calls p) now) reply = PlanCommit previous cmds ->
    step calls (mkSystem db ws evs) Quiet (mkSystem db (set_writer p (WDone (Some err)) ws) evs).

Inductive run (calls : nat -> call) (s0 : system) : list event -> system -> Prop :=
| run_nil : run calls s0 [] s0
| run_snoc evs s e s' : run calls s0 evs s -> step calls s e s' -> run calls s0 (evs ++ [e]) s'.

Definition initial (db : redis_db) : system := mkSystem db (fun _ => WIdle update_attempts) [].
End store.

(** * Properties *)

Arguments PlanFail {V}. Arguments PlanNoRows {V}. Arguments PlanUnchanged {V}.
Arguments PlanCommit {V}.
Arguments Quiet {V}. Arguments Committed {V}. Arguments Foreign {V}.

Section atomicity.
Context {V : Type} {R : Redis V} {L : RedisLaws V} {Aead : AEAD} {B64 : Base64} {J : AccountJSON V}.
Context (DeepEqual : Account -> Account -> bool) (prefix : string) (keyed : bool)
        (calls : nat -> call).
Abbreviation key p := (accountsKey prefix (c_id (calls p))).
Abbreviation planned now nonces p reply :=
  (plan_of DeepEqual prefix keyed now nonces (c_id (calls p)) (c_mutate (calls p) now) reply).
Abbreviation runs := (run DeepEqual prefix keyed calls).
Abbreviation steps := (step DeepEqual prefix keyed calls).

(** The specification: every committed update reads the row and replaces it
    in one indivisible step, in commit order. *)
Inductive spec_run (s0 : keyspace V) : list (event (V := V)) -> keyspace V -> Prop :=
| spec_nil : spec_run s0 [] s0
| spec_quiet evs s : spec_run s0 evs s -> spec_run s0 (evs ++ [Quiet]) s
| spec_update evs s p cmds now nonces previous :
    spec_run s0 evs s ->
    planned now nonces p (inl (ks_strings s !! key p)) = PlanCommit previous cmds ->
    spec_run s0 (evs ++ [Committed p cmds]) (apply_commands cmds s)
| spec_foreign evs s cmds :
    spec_run s0 evs s -> spec_run s0 (evs ++ [Foreign cmds]) (apply_commands cmds s).

Lemma command_keeps (c : command V) s k :
  k ∉ command_keys c -> ks_strings (apply_command c s) !! k = ks_strings s !! k.
Proof.
  destruct c as [k' v|ks|k' m|k' m]; cbn; intros H.
  - apply lookup_insert_ne. set_solver.
  - rewrite delete_all_lookup. by rewrite bool_decide_eq_false_2.
  - done.
  - done.
Qed.

Lemma untouched_keeps k (cmds : list (command V)) s :
  touches k cmds = false -> ks_strings (apply_commands cmds s) !! k = ks_strings s !! k.
Proof.
  revert s. induction cmds as [|c cmds IH]; intros s; [done|].
  cbn [touches existsb]. intros [Hc Ht]%orb_false_iff. cbn [apply_commands foldl].
  fold (apply_commands cmds (apply_command c s)). rewrite (IH _ Ht).
  apply command_keeps. by apply bool_decide_eq_false_1 in Hc.
Qed.

(** A reader whose connection is clean still holds the current row. *)
Definition reads_current (db : redis_db) (ws : nat -> writer (V := V)) : Prop :=
  forall p n v, ws p = WRead n false (inl v) -> v = ks_strings (redis_view db) !! key p.

Lemma marked_reads cmds db db' ws :
  reads_current db ws ->
  redis_view db' = apply_commands cmds (redis_view db) ->
  reads_current db' (mark_all prefix calls cmds ws).
Proof.
  intros Hinv Hv p n v. unfold mark_all.
  destruct (ws p) as [m|m d|m d r|res] eqn:E; cbn; try done.
  intros [= -> Hd ->]. apply orb_false_iff in Hd as [-> Ht].
  rewrite Hv, untouched_keeps by done. by apply (Hinv p n v).
Qed.

Lemma set_writer_reads p w db ws :
  reads_current db ws ->
  (forall n v, w = WRead n false (inl v) -> v = ks_strings (redis_view db) !! key p) ->
  reads_current db (set_writer p w ws).
Proof.
  intros Hinv Hw q n v. unfold set_writer. destruct (decide (q = p)) as [->|Hne].
  - apply Hw.
  - apply Hinv.
Qed.

Lemma step_reads_current st e st' :
  reads_current (s_db st) (s_writers st) -> steps st e st' ->
  reads_current (s_db st') (s_writers st').
Proof.
  intros Hinv Hst. destruct Hst; cbn in Hinv |- *.
  1-3, 5-6, 11-12: eapply set_writer_reads; [exact Hinv|]; congruence.
  - eapply set_writer_reads; [exact Hinv|]. intros m v [= -> -> Hg]. by apply (rget_ok _ _ _ Hg).
  - eapply set_writer_reads; [|congruence]. eapply marked_reads; [exact Hinv|]. by apply rexec_ok.
  - eapply set_writer_reads; [|congruence]. intros q m v Hq. rewrite H2.
    by apply (Hinv q m v).
  - eapply set_writer_reads; [|congruence]. by eapply marked_reads.
  - by eapply marked_reads.
Qed.

Lemma run_reads_current db0 evs st : runs (initial db0) evs st ->
  reads_current (s_db st) (s_writers st).
Proof.
  induction 1 as [|evs s e s' _ IH Hst]; [by intros p n v|]. by eapply step_reads_current.
Qed.

(** The reply of a commit is the row the transaction replaces. *)
Lemma commit_reply db ws p n reply now nonces previous cmds :
  reads_current db ws -> ws p = WRead n false reply ->
  planned now nonces p reply = PlanCommit previous cmds ->
  planned now nonces p (inl (ks_strings (redis_view db) !! key p)) = PlanCommit previous cmds.
Proof.
  intros Hinv Hp Hplan. destruct reply as [v|err]; [|done].
  by rewrite <- (Hinv p n v Hp).
Qed.

(** C1: however writers and other clients interleave, and whatever
    replies are lost, the database goes through exactly the states of running
    the committed updates one after the other, each on the row its
    predecessor left: no update is lost. *)
Theorem updates_are_atomic db0 evs st (Hrun : runs (initial db0) evs st) :
  spec_run (redis_view db0) evs (redis_view (s_db st)).
Proof.
  induction Hrun as [|evs s e s' Hrun IH Hst]; [constructor|].
  pose proof (run_reads_current _ _ _ Hrun) as Hinv.
  destruct Hst; cbn in IH, Hinv |- *.
  1-6, 11-12: by apply spec_quiet.
  - rewrite (rexec_ok _ _ _ H1). eapply spec_update; [exact IH|].
    by eapply commit_reply.
  - rewrite H2. by apply spec_quiet.
  - rewrite H2. eapply spec_update; [exact IH|]. by eapply commit_reply.
  - rewrite H. by apply spec_foreign.
Qed.

(** *** Retries *)

(** Events that wrote the row of [p]. *)
Definition interferes (p : nat) (e : event (V := V)) : bool :=
  match e with
  | Quiet => false
  | Committed _ cmds | Foreign cmds => touches (key p) cmds
  end.

Definition conflicts (p : nat) (evs : list event) : nat :=
  length (List.filter (interferes p) evs).

(** The attempts a writer has used up, counting the one that is doomed. *)
Definition attempts_lost (w : writer (V := V)) : nat :=
  match w with
  | WIdle n => update_attempts - n
  | WWatched n d | WRead n d _ => update_attempts - S n + (if d then 1 else 0)
  | WDone _ => 0
  end.

Definition attempts_valid (w : writer (V := V)) : Prop :=
  match w with
  | WIdle n => (n <= update_attempts)%nat
  | WWatched n _ | WRead n _ _ => (n < update_attempts)%nat
  | WDone _ => True
  end.

Lemma conflicts_snoc p evs e :
  conflicts p (evs ++ [e]) = (conflicts p evs + (if interferes p e then 1 else 0))%nat.
Proof.
  unfold conflicts. rewrite List.filter_app, length_app. cbn. by destruct (interferes p e).
Qed.

Lemma mark_lost hit w :
  (attempts_lost (mark hit w) <= attempts_lost w + (if hit then 1 else 0))%nat
  /\ (attempts_valid w -> attempts_valid (mark hit w)).
Proof. destruct w as [n|n [] |n [] r|r], hit; cbn; split; auto; lia. Qed.

Definition within_budget (evs : list event) (ws : nat -> writer (V := V)) : Prop :=
  forall p, (attempts_lost (ws p) <= conflicts p evs)%nat
            /\ attempts_valid (ws p).

Lemma budget_set evs e p w ws :
  within_budget evs ws ->
  (attempts_lost w <= attempts_lost (ws p))%nat -> (attempts_valid (ws p) -> attempts_valid w) ->
  within_budget (evs ++ [e]) (set_writer p w ws).
Proof.
  intros Hb Hl Hv q. unfold set_writer. destruct (Hb q) as [H1 H2].
  rewrite conflicts_snoc. destruct (decide (q = p)) as [->|]; split; auto; lia.
Qed.

Lemma budget_mark evs e cmds ws :
  within_budget evs ws ->
  (forall p, interferes p e = touches (key p) cmds) ->
  within_budget (evs ++ [e]) (mark_all prefix calls cmds ws).
Proof.
  intros Hb He q. destruct (Hb q) as [H1 H2].
  rewrite conflicts_snoc, He. unfold mark_all.
  destruct (mark_lost (touches (key q) cmds) (ws q)) as [H3 H4]. split; [lia|auto].
Qed.

Lemma budget_done evs p res ws :
  within_budget evs ws ->
  within_budget evs (set_writer p (WDone res) ws).
Proof.
  intros Hb q. unfold set_writer. destruct (decide (q = p)); [|apply (Hb q)].
  cbn. split; [lia|done].
Qed.

Lemma run_within_budget db0 evs st : runs (initial db0) evs st -> within_budget evs (s_writers st).
Proof.
  induction 1 as [|evs s e s' _ IH Hst].
  { intros p. cbn. unfold update_attempts. lia. }
  destruct Hst; cbn in IH |- *.
  - eapply budget_set; [exact IH|rewrite H; cbn; lia|done].
  - eapply budget_set; [exact IH|rewrite H; cbn; lia|]. rewrite H. cbn. lia.
  - eapply budget_set; [exact IH|rewrite H; cbn; lia|done].
  - eapply budget_set; [exact IH|rewrite H; cbn; destruct d; lia|]. by rewrite H.
  - eapply budget_set; [exact IH|rewrite H; cbn; lia|done].
  - eapply budget_set; [exact IH|rewrite H; cbn [attempts_lost]; lia|]. rewrite H. cbn. lia.
  - eapply budget_done, budget_mark; [exact IH|done].
  - eapply budget_set; [exact IH|rewrite H; cbn; lia|done].
  - eapply budget_done, budget_mark; [exact IH|done].
  - by eapply budget_mark.
  - eapply budget_set; [exact IH|rewrite H; cbn; lia|done].
  - eapply budget_set; [exact IH|rewrite H; cbn; lia|done].
Qed.

(** a writer runs out of attempts only when at least 32 other
    committed writes hit its row while it was retrying; under fewer conflicts
    no writer is ever out of attempts. *)
Theorem gives_up_only_under_contention db0 evs st p
    (Hrun : runs (initial db0) evs st) (Hout : s_writers st p = WIdle 0) :
  (update_attempts <= conflicts p evs)%nat.
Proof.
  destruct (run_within_budget _ _ _ Hrun p) as [H _]. rewrite Hout in H. cbn in H. exact H.
Qed.

(** *** Building runs *)

(** An attempt spoiled by another client's write to the row. *)
Lemma spoiled_attempt db0 evs p n db db' ws pub now nonces previous cmds touch :
  runs (initial db0) evs (mkSystem db ws pub) -> ws p = WIdle (S n) -> c_id (calls p) <> 0 ->
  planned now nonces p (rget (key p) db) = PlanCommit previous cmds ->
  touches (key p) touch = true -> redis_view db' = apply_commands touch (redis_view db) ->
  exists evs' ws', runs (initial db0) evs' (mkSystem db' ws' pub) /\ ws' p = WIdle n.
Proof.
  intros Hrun Hw Hid Hplan Ht Hv.
  eapply run_snoc in Hrun; [|by apply (step_watch _ _ _ calls p)].
  eapply run_snoc in Hrun; [|apply (step_get _ _ _ calls p n false); unfold set_writer; by case_decide].
  eapply run_snoc in Hrun; [|by apply (step_foreign _ _ _ calls touch db db')].
  eapply run_snoc in Hrun.
  2:{ eapply (step_aborted _ _ _ calls p n _ now nonces); [|exact Hplan].
      unfold mark_all, set_writer. rewrite Ht. by case_decide. }
  do 2 eexists. split; [exact Hrun|]. unfold set_writer. by case_decide.
Qed.

(** An attempt nobody disturbs. *)
Lemma undisturbed p n evs db0 db db' ws pub now nonces previous cmds :
  runs (initial db0) evs (mkSystem db ws pub) -> ws p = WIdle (S n) -> c_id (calls p) <> 0 ->
  planned now nonces p (rget (key p) db) = PlanCommit previous cmds ->
  rexec cmds db = (None, db') ->
  exists ws' pub', runs (initial db0) (evs ++ [Quiet; Quiet; Committed p cmds]) (mkSystem db' ws' pub')
    /\ ws' p = WDone None.
Proof.
  intros Hrun Hw Hid Hplan Hexec.
  eapply run_snoc in Hrun; [|by apply (step_watch _ _ _ calls p)].
  eapply run_snoc in Hrun; [|apply (step_get _ _ _ calls p n false); unfold set_writer; by case_decide].
  eapply run_snoc in Hrun.
  2:{ eapply (step_commit _ _ _ calls p n _ now nonces); [|exact Hplan|exact Hexec].
      unfold set_writer. by case_decide. }
  rewrite <- !app_assoc in Hrun. do 2 eexists. split; [exact Hrun|]. unfold set_writer. by case_decide.
Qed.
End atomicity.

(** ** Versions and index sets *)

Section indexes.
Context {V : Type} {R : Redis V} {L : RedisLaws V} {Aead : AEAD} {B64 : Base64} {J : AccountJSON V}.
Context (DeepEqual : Account -> Account -> bool) (prefix : string) (keyed : bool).
Abbreviation akey := (accountsKey prefix).
Abbreviation ids_key := (accountsIDsKey prefix).
Abbreviation enabled_key := (accountsEnabledKey prefix).

Lemma plan_commit_inv now nonces id mutate value previous cmds :
  plan_of DeepEqual prefix keyed now nonces id mutate (inl (Some value)) = PlanCommit previous cmds ->
  exists u data, unmarshalAccount keyed value id = inl previous /\ mutate previous = inl u
    /\ DeepEqual (u <| UpdatedAt := UpdatedAt previous |>) previous = false
    /\ marshalAccount keyed nonces (advance now previous u) = inl data
    /\ cmds = write_row prefix id (Enabled u) data.
Proof.
  unfold plan_of. destruct (unmarshalAccount _ _ _) as [prev|] eqn:Eu; [|done].
  destruct (mutate prev) as [u|] eqn:Em; [|done]. destruct (DeepEqual _ _) eqn:E; [done|].
  cbv zeta. destruct (marshalAccount _ _ _) as [data|] eqn:Ed; [|done].
  intros [= <- <-]. exists u, data. by split_and!.
Qed.

(** an update is written only when it changed the row, and then its
    [UpdatedAt] is strictly later than the row's, and not before the clock:
    versions of a row never repeat, even under a coarse or stepped-back
    clock.  A mutation that leaves the row as it is writes nothing. *)
Theorem commit_advances_version now nonces id mutate value :
  match plan_of DeepEqual prefix keyed now nonces id mutate (inl (Some value)) with
  | PlanCommit previous cmds =>
      exists u data, mutate previous = inl u /\ cmds = write_row prefix id (Enabled u) data
        /\ marshalAccount keyed nonces (advance now previous u) = inl data
        /\ UpdatedAt previous < UpdatedAt (advance now previous u)
        /\ now <= UpdatedAt (advance now previous u)
        /\ (advance now previous u) <| UpdatedAt := UpdatedAt u |> = u
  | PlanUnchanged => exists previous u,
      mutate previous = inl u /\ DeepEqual (u <| UpdatedAt := UpdatedAt previous |>) previous = true
  | _ => True
  end.
Proof.
  destruct (plan_of _ _ _ _ _ _ _ _) as [e| | |previous cmds] eqn:E; [done|done| |].
  - unfold plan_of in E. destruct (unmarshalAccount _ _ _) as [prev|]; [|done].
    destruct (mutate prev) as [u|] eqn:Em; [|done]. destruct (DeepEqual _ _) eqn:Ed.
    + by exists prev, u.
    + cbv zeta in E. by destruct (marshalAccount _ _ _).
  - apply plan_commit_inv in E as (u & data & _ & Hm & _ & Hd & ->).
    exists u, data. split_and!; [done..| | |destruct u; reflexivity].
    + unfold advance, Nanosecond. cbn. destruct (Time.After _ _) eqn:Ea; time_prop; lia.
    + unfold advance, Nanosecond. cbn. destruct (Time.After _ _) eqn:Ea; time_prop; lia.
Qed.

(** *** Keys *)

Lemma prefix_ne a b n : String.get n a <> String.get n b -> prefix +:+ a <> prefix +:+ b.
Proof. intros H E. apply H. f_equal. exact (inj (String.append prefix) _ _ E). Qed.

Ltac key_ne n := apply (prefix_ne _ _ n); intros Hget; lazy in Hget; discriminate Hget.

Lemma akey_ids id : akey id <> ids_key.
Proof. key_ne 11%nat. Qed.
Lemma akey_enabled id : akey id <> enabled_key.
Proof. key_ne 9%nat. Qed.
Lemma ids_enabled : ids_key <> enabled_key.
Proof. key_ne 9%nat. Qed.
Lemma stats_ids id : accountStatsOperationsKey prefix id <> ids_key.
Proof. key_ne 9%nat. Qed.
Lemma stats_enabled id : accountStatsOperationsKey prefix id <> enabled_key.
Proof. key_ne 9%nat. Qed.
Lemma akey_stats i j : akey i <> accountStatsOperationsKey prefix j.
Proof. key_ne 9%nat. Qed.
Lemma akey_inj i j : akey i = akey j -> i = j.
Proof.
  unfold accountsKey. intros H%(inj (String.append prefix)).
  apply (inj (String.append "accounts:id:")) in H. by apply Itoa_inj.
Qed.

(** *** The index invariant *)

Definition stored_row (s : keyspace V) (id : Z) : option Account :=
  value ← ks_strings s !! akey id;
  match unmarshalAccount keyed value id with inl a => Some a | inr _ => None end.

Definition enabled_row (s : keyspace V) (id : Z) : option Account :=
  a ← stored_row s id; guard (Enabled a = true);; Some a.

(** The id set names the rows, the enabled set names the enabled ones, and
    every row decodes. *)
Record indexed (s : keyspace V) : Prop := {
  ix_named m : m ∈ members s ids_key -> exists id, in_i64 id /\ m = Itoa id;
  ix_row id : is_Some (ks_strings s !! akey id) -> exists a, stored_row s id = Some a;
  ix_ids id : Itoa id ∈ members s ids_key <-> is_Some (stored_row s id);
  ix_sub m : m ∈ members s enabled_key -> m ∈ members s ids_key;
  ix_enabled id : Itoa id ∈ members s enabled_key <-> is_Some (enabled_row s id)
}.

(** The value the transaction writes decodes to a row with the same flag. *)
Definition reads_back (id : Z) (enabled : bool) (data : V) : Prop :=
  exists a, unmarshalAccount keyed data id = inl a /\ Enabled a = enabled.

Lemma write_row_strings id enabled data (s : keyspace V) k :
  ks_strings (apply_commands (write_row prefix id enabled data) s) !! k
  = if decide (k = akey id) then Some data else ks_strings s !! k.
Proof.
  unfold write_row, pipeAccountMembership, apply_commands. cbn [foldl].
  destruct enabled; cbn; apply strings_set.
Qed.

Lemma write_row_ids id enabled data (s : keyspace V) :
  members (apply_commands (write_row prefix id enabled data) s) ids_key
  = {[Itoa id]} ∪ members s ids_key.
Proof.
  unfold write_row, pipeAccountMembership, apply_commands. cbn [foldl].
  pose proof ids_enabled. pose proof (akey_ids id).
  destruct enabled; rewrite ?members_srem, !members_sadd, members_set by done;
    repeat case_decide; done.
Qed.

Lemma write_row_enabled id enabled data (s : keyspace V) :
  members (apply_commands (write_row prefix id enabled data) s) enabled_key
  = if enabled then {[Itoa id]} ∪ members s enabled_key
    else members s enabled_key ∖ {[Itoa id]}.
Proof.
  unfold write_row, pipeAccountMembership, apply_commands. cbn [foldl].
  pose proof ids_enabled. pose proof (akey_enabled id).
  destruct enabled; rewrite ?members_srem, !members_sadd, members_set by done;
    repeat case_decide; done.
Qed.

Lemma stored_row_write id enabled data (s : keyspace V) j :
  stored_row (apply_commands (write_row prefix id enabled data) s) j
  = if decide (j = id)
    then match unmarshalAccount keyed data id with inl a => Some a | inr _ => None end
    else stored_row s j.
Proof.
  unfold stored_row. rewrite write_row_strings.
  destruct (decide (j = id)) as [->|Hne]; [by rewrite decide_True|].
  rewrite decide_False; [done|]. intros H%akey_inj. done.
Qed.

Lemma indexed_write id enabled data (s : keyspace V) :
  indexed s -> in_i64 id -> reads_back id enabled data ->
  indexed (apply_commands (write_row prefix id enabled data) s).
Proof.
  intros [Hn Hr Hi Hs He] Hid (a & Ha & Hen).
  assert (Hrow : forall j, stored_row (apply_commands (write_row prefix id enabled data) s) j
                 = if decide (j = id) then Some a else stored_row s j).
  { intros j. rewrite stored_row_write. by rewrite Ha. }
  split.
  - intros m. rewrite write_row_ids. intros [->%elem_of_singleton|Hm]%elem_of_union; eauto.
  - intros j. rewrite Hrow, write_row_strings. destruct (decide (j = id)) as [->|Hne]; [eauto|].
    rewrite decide_False by (intros ?%akey_inj; done). apply Hr.
  - intros j. rewrite write_row_ids, Hrow, elem_of_union, elem_of_singleton, Hi.
    destruct (decide (j = id)) as [->|Hne]; [naive_solver|].
    split; [intros [?%Itoa_inj|]; done|auto].
  - intros m. rewrite write_row_ids, write_row_enabled. destruct enabled; set_solver.
  - intros j. rewrite write_row_enabled. unfold enabled_row. rewrite Hrow.
    destruct (decide (j = id)) as [->|Hne]; cbn.
    + rewrite Hen. destruct enabled; case_guard; try done; [set_solver|].
      split; [set_solver|by intros [? [=]]].
    + fold (enabled_row s j). rewrite <- He.
      assert (Itoa j <> Itoa id) by (by intros ?%Itoa_inj). destruct enabled; set_solver.
Qed.

Lemma delete_strings id (s : keyspace V) k :
  ks_strings (apply_commands (delete_commands prefix id) s) !! k
  = if bool_decide (k ∈ [akey id; accountStatsOperationsKey prefix id]) then None
    else ks_strings s !! k.
Proof. unfold delete_commands, apply_commands. cbn [foldl]. apply delete_all_lookup. Qed.

Lemma delete_members id (s : keyspace V) k :
  k ∈ [ids_key; enabled_key] ->
  members (apply_commands (delete_commands prefix id) s) k = members s k ∖ {[Itoa id]}.
Proof.
  intros Hk. unfold delete_commands, apply_commands. cbn [foldl].
  pose proof ids_enabled. pose proof (akey_ids id). pose proof (akey_enabled id).
  pose proof (stats_ids id). pose proof (stats_enabled id).
  rewrite !members_srem, members_del by set_solver.
  repeat case_decide; subst; try done. set_solver.
Qed.

Lemma stored_row_delete id (s : keyspace V) j :
  stored_row (apply_commands (delete_commands prefix id) s) j
  = if decide (j = id) then None else stored_row s j.
Proof.
  unfold stored_row. rewrite delete_strings. destruct (decide (j = id)) as [->|Hne].
  - by rewrite bool_decide_eq_true_2 by set_solver.
  - rewrite bool_decide_eq_false_2; [done|]. intros [H|H]%elem_of_cons.
    + by apply akey_inj in H.
    + apply list_elem_of_singleton in H. by apply akey_stats in H.
Qed.

Lemma indexed_delete id (s : keyspace V) :
  indexed s -> indexed (apply_commands (delete_commands prefix id) s).
Proof.
  intros [Hn Hr Hi Hs He].
  assert (Hids : forall j, Itoa j ∈ members s ids_key ∖ {[Itoa id]}
                   <-> Itoa j ∈ members s ids_key /\ j <> id).
  { intros j. rewrite elem_of_difference, elem_of_singleton. split.
    - intros [? Hne]. split; [done|]. intros ->. done.
    - intros [? Hne]. split; [done|]. by intros ?%Itoa_inj. }
  assert (Hens : forall j, Itoa j ∈ members s enabled_key ∖ {[Itoa id]}
                   <-> Itoa j ∈ members s enabled_key /\ j <> id).
  { intros j. rewrite elem_of_difference, elem_of_singleton. split.
    - intros [? Hne]. split; [done|]. intros ->. done.
    - intros [? Hne]. split; [done|]. by intros ?%Itoa_inj. }
  split; intros x; rewrite ?delete_members by set_solver.
  - intros Hm. apply Hn. set_solver.
  - rewrite delete_strings, stored_row_delete. case_bool_decide as Hk; [by intros [? [=]]|].
    intros Hx. destruct (decide (x = id)) as [->|]; [set_solver|by apply Hr].
  - rewrite stored_row_delete, Hids, Hi. destruct (decide (x = id)); [|naive_solver].
    split; [naive_solver|by intros [? [=]]].
  - set_solver.
  - unfold enabled_row. rewrite stored_row_delete, Hens, He.
    destruct (decide (x = id)) as [->|]; cbn; [|fold (enabled_row s x); naive_solver].
    split; [naive_solver|by intros [? [=]]].
Qed.

(** creating, updating and deleting accounts keep the id set naming
    exactly the stored rows and the enabled set exactly the enabled ones;
    [Hback] says the row written is one the store can read again. *)
Theorem index_sets_follow_rows (s : keyspace V) (db : redis_db)
    (Hs : indexed s) (Hdb : redis_view db = s) :
  (forall now nonces acc,
     let out := CreateAccount prefix keyed now nonces acc db in
     (forall data, marshalAccount keyed nonces (o_acc out) = inl data ->
                   reads_back (ID (o_acc out)) (Enabled acc) data) ->
     o_err out = None ->
     indexed (redis_view (o_db out)) /\ is_Some (stored_row (redis_view (o_db out)) (ID (o_acc out))))
  /\ (forall now nonces id mutate previous cmds,
     plan_of DeepEqual prefix keyed now nonces id mutate (inl (ks_strings s !! akey id))
       = PlanCommit previous cmds ->
     in_i64 id ->
     (forall u data, marshalAccount keyed nonces u = inl data -> reads_back id (Enabled u) data) ->
     indexed (apply_commands cmds s))
  /\ (forall id ev db', DeleteAccount prefix keyed id db = (None, ev, db') ->
     indexed (redis_view db') /\ (id <> 0 -> stored_row (redis_view db') id = None)).
Proof.
  split_and!.
  - intros now nonces acc out Hback Hok. unfold out, CreateAccount in *.
    destruct (rincr _ db) as [[id|e] db1] eqn:Ei; [|done]. cbv zeta in *.
    match type of Hok with context [marshalAccount _ _ ?a] => set (acc' := a) in * end.
    destruct (marshalAccount keyed nonces acc') as [data|] eqn:Em; [|done].
    destruct (rpipeline _ db1) as [[e|] db2] eqn:Ep; [done|]. cbn [o_acc o_db] in *.
    apply rincr_ok in Ei as (_ & Hid & Hv). apply rpipeline_ok in Ep.
    specialize (Hback data Em). change (ID acc') with id in *. change (Enabled acc') with (Enabled acc) in *.
    rewrite Ep, Hv, Hdb. split.
    + apply indexed_write; [|done..]. destruct Hs. by split.
    + rewrite stored_row_write, decide_True by done. destruct Hback as (a & -> & _). done.
  - intros now nonces id mutate previous cmds Hp Hid Hback.
    destruct (ks_strings s !! akey id) as [value|]; [|done].
    apply plan_commit_inv in Hp as (u & data & _ & _ & _ & Hd & ->).
    apply indexed_write; [done..|]. by apply Hback in Hd.
  - intros id ev db' Hd. unfold DeleteAccount in Hd.
    destruct (id =? 0) eqn:E0; [injection Hd as _ <-; rewrite Hdb; split; [done|to_prop; lia]|].
    assert (Hp : rpipeline (delete_commands prefix id) db = (None, db')).
    { destruct (getAccount _ _ _ _) as [prev|err].
      - destruct (rpipeline _ db) as [[e|] d]; [done|]. by injection Hd as _ <-.
      - destruct (bool_decide _); [|done]. destruct (rpipeline _ db) as [[e|] d]; [done|].
        by injection Hd as _ <-. }
    rewrite (rpipeline_ok _ _ _ Hp), Hdb. split; [by apply indexed_delete|].
    intros _. by rewrite stored_row_delete, decide_True.
Qed.

(** *** Listing *)

Lemma ids_of_names (ms : list string) :
  (forall m, m ∈ ms -> exists id, in_i64 id /\ m = Itoa id) ->
  exists l, ms = Itoa <$> l /\ omap (fun v => ParseInt (TrimSpace v)) ms = l.
Proof.
  induction ms as [|m ms IH]; intros H; [by exists []|].
  destruct IH as (l & -> & Hl); [set_solver|].
  destruct (H m) as (id & Hid & ->); [set_solver|].
  exists (id :: l). split; [done|]. cbn [omap list_omap].
  rewrite ParseInt_Trim_Itoa by done. f_equal. exact Hl.
Qed.

Lemma sorted_strict (l : list Z) : StronglySorted (≤)%Z l -> NoDup l -> StronglySorted Z.lt l.
Proof.
  induction 1 as [|x l Hl IH Hx]; intros Hnd; [constructor|].
  apply NoDup_cons in Hnd as [Hin Hnd]. constructor; [by apply IH|].
  apply Forall_forall. intros y Hy. rewrite Forall_forall in Hx. specialize (Hx y Hy).
  assert (x <> y) by (by intros ->). lia.
Qed.

Lemma decode_all (s : keyspace V) (ids : list Z) :
  (forall id, id ∈ ids -> is_Some (enabled_row s id)) ->
  (forall id v, ks_strings s !! akey id = Some v -> json_blank v = false) ->
  let results := map (fun id => decode_row keyed true id (ks_strings s !! akey id)) ids in
  errors_Join (map sum_err results) = None /\ omap sum_row results = omap (enabled_row s) ids.
Proof.
  intros Hen Hbl results.
  assert (Hr : results = map (fun id => inl (enabled_row s id)) ids).
  { apply map_ext_in. intros id Hid%list_elem_of_In. destruct (Hen id Hid) as [a Ha].
    rewrite Ha. unfold enabled_row, stored_row in Ha.
    destruct (ks_strings s !! akey id) as [v|] eqn:Ev; [|done]. cbn in Ha |- *.
    rewrite (Hbl id v Ev). destruct (unmarshalAccount _ _ _) as [b|]; [|done]. cbn in Ha.
    case_guard as Hb; [|done]. injection Ha as <-. by rewrite Hb. }
  rewrite Hr. split.
  - unfold errors_Join. rewrite map_map. cbn.
    assert (Hnil : omap id (map (fun _ : Z => @None go_error) ids) = []).
    { clear. induction ids; [done|]. exact IHids. }
    by rewrite Hnil.
  - clear. induction ids as [|i l IH]; [done|]. cbn in *.
    destruct (enabled_row s i); [f_equal|]; exact IH.
Qed.

(** when the server answers, the enabled list is exactly the stored
    enabled rows, each once, in ascending id order. *)
Theorem GetEnabledAccounts_exact (db : redis_db)
    (Hix : indexed (redis_view db))
    (Hbl : forall id v, ks_strings (redis_view db) !! akey id = Some v -> json_blank v = false) :
  match GetEnabledAccounts prefix keyed db with
  | inl accs => exists ids, StronglySorted Z.lt ids
      /\ (forall id, id ∈ ids <-> in_i64 id /\ is_Some (enabled_row (redis_view db) id))
      /\ accs = omap (enabled_row (redis_view db)) ids
  | inr err => rsmembers enabled_key db = inr err \/ exists keys, rmget keys db = inr err
  end.
Proof.
  unfold GetEnabledAccounts. destruct (rsmembers enabled_key db) as [ms|e] eqn:Em; [|by left].
  destruct (rsmembers_ok _ _ _ Em) as [Hnd Hms]. destruct Hix as [Hn Hr Hi Hs He].
  destruct (ids_of_names ms) as (l & -> & Hl).
  { intros m Hm. apply Hn, Hs, Hms, Hm. }
  assert (Hin : forall id, id ∈ merge_sort (≤)%Z l <-> in_i64 id /\ is_Some (enabled_row (redis_view db) id)).
  { intros id. rewrite merge_sort_Permutation, <- He, <- Hms. split.
    - intros Hid. split; [|by apply list_elem_of_fmap_2].
      assert (Itoa id ∈ members (redis_view db) ids_key) as Hx.
      { apply Hs, Hms. by apply list_elem_of_fmap_2. }
      destruct (Hn _ Hx) as (j & Hj & ->%Itoa_inj). done.
    - intros [_ (j & ->%Itoa_inj & Hj)%list_elem_of_fmap]. done. }
  unfold getAccountsByIDs, parseSortedInt64s. rewrite Hl.
  assert (Hso : StronglySorted Z.lt (merge_sort (≤)%Z l)).
  { apply sorted_strict; [apply StronglySorted_merge_sort; apply _|].
    rewrite merge_sort_Permutation. by apply (NoDup_fmap_1 Itoa). }
  destruct (merge_sort _ l) as [|i idNums] eqn:Ei; [by exists []|].
  rewrite <- Ei in *. clear Ei i idNums.
  destruct (rmget _ db) as [values|e] eqn:Eg; [|right; eauto].
  apply rmget_ok in Eg.
  assert (Hz : zip_with (decode_row keyed true) (merge_sort (≤)%Z l) values
    = map (fun id => decode_row keyed true id (ks_strings (redis_view db) !! akey id))
        (merge_sort (≤)%Z l)).
  { rewrite Eg. clear. induction (merge_sort _ l) as [|x xs IH]; [done|]. cbn. by rewrite IH. }
  rewrite Hz. destruct (decode_all (redis_view db) (merge_sort (≤)%Z l)) as [-> ->];
    [by intros id [_ ?]%Hin|done|].
  eauto.
Qed.
End indexes.

(** ** A store on concrete rows *)

Section demo.
#[local] Existing Instance plain_aead.
#[local] Existing Instance plain_base64.
#[local] Existing Instance plain_json.

Definition demo_equal (a b : Account) : bool := bool_decide (a = b).
Definition demo_account : Account :=
  zero_account <| ID := 7 |> <| Enabled := true |> <| Name := "first" |>.
Definition empty_db : @redis_db Account (MemRedis Account) := mkKeyspace ∅ ∅ ∅.
Definition demo_db : @redis_db Account (MemRedis Account) :=
  apply_commands (write_row "" 7 true demo_account) empty_db.
Definition demo_calls : nat -> call := fun _ =>
  mkCall 7 (fun _ a => inl (a <| Name := "second" |>)).
Definition no_nonce : nat -> string + go_error := fun _ => inl "00".
Abbreviation demo_run := (run demo_equal "" false demo_calls (initial (V := Account) demo_db)).

Lemma demo_indexed_empty : indexed "" false empty_db.
Proof.
  assert (Hm : forall k, members empty_db k = ∅).
  { done. }
  assert (Hr : forall id, stored_row "" false empty_db id = None).
  { done. }
  split; intros x; rewrite ?Hm.
  - by intros ?%elem_of_empty.
  - by intros [? [=]].
  - rewrite Hr. split; [by intros ?%elem_of_empty|by intros [? [=]]].
  - done.
  - unfold enabled_row. rewrite Hr. split; [by intros ?%elem_of_empty|by intros [? [=]]].
Qed.

Lemma demo_indexed : indexed "" false demo_db.
Proof.
  refine (indexed_write demo_equal "" false 7 true demo_account _ demo_indexed_empty _ _).
  - unfold in_i64, min_int64, max_int64. lia.
  - by exists demo_account.
Qed.

(** Whether the row a creation writes can be read again. *)
Definition created_row_reads (out : outcome (V := Account)) : bool :=
  match marshalAccount false no_nonce (o_acc out) with
  | inl data => match unmarshalAccount false data (ID (o_acc out)) with
                | inl a => Enabled a | inr _ => false end
  | inr _ => false
  end.

Lemma created_row_reads_back out :
  created_row_reads out = true ->
  forall data, marshalAccount false no_nonce (o_acc out) = inl data ->
  reads_back false (ID (o_acc out)) (Enabled demo_account) data.
Proof.
  unfold created_row_reads. intros Hread data Hd. rewrite Hd in Hread.
  destruct (unmarshalAccount false data _) as [a|] eqn:E; [|done]. by exists a.
Qed.

Lemma index_sets_follow_rows_witness :
  let out := CreateAccount "" false 5 no_nonce demo_account empty_db in
  indexed "" false (redis_view (o_db out))
  /\ is_Some (stored_row "" false (redis_view (o_db out)) (ID (o_acc out))).
Proof.
  refine (proj1 (index_sets_follow_rows demo_equal "" false empty_db empty_db demo_indexed_empty
                   eq_refl) 5 no_nonce demo_account _ _).
  - apply created_row_reads_back. vm_compute. reflexivity.
  - vm_compute. reflexivity.
Defined.

Lemma GetEnabledAccounts_exact_witness :
  exists ids, 7 ∈ ids
    /\ GetEnabledAccounts "" false demo_db = inl (omap (enabled_row "" false demo_db) ids).
Proof.
  assert (Hok : (match GetEnabledAccounts "" false demo_db with inl _ => true | inr _ => false end)
                = true) by (vm_compute; reflexivity).
  assert (H7 : bool_decide (is_Some (enabled_row "" false demo_db 7)) = true)
    by (vm_compute; reflexivity).
  apply bool_decide_eq_true_1 in H7. revert Hok.
  pose proof (GetEnabledAccounts_exact "" false demo_db demo_indexed (fun _ _ _ => eq_refl)) as H.
  destruct (GetEnabledAccounts "" false demo_db) as [accs|e]; [|done]. intros _.
  destruct H as (ids & _ & Hin & ->). exists ids. split; [|reflexivity].
  apply Hin. split; [unfold in_i64, min_int64, max_int64; lia|exact H7].
Defined.

(** *** Interleavings *)

Definition demo_plan : plan (V := Account) :=
  plan_of demo_equal "" false 5 no_nonce (c_id (demo_calls 0)) (c_mutate (demo_calls 0) 5)
    (rget (accountsKey "" (c_id (demo_calls 0))) demo_db).

Lemma demo_plan_commits : exists previous cmds, demo_plan = PlanCommit previous cmds.
Proof.
  assert (H : (match demo_plan with PlanCommit _ _ => true | _ => false end) = true)
    by (vm_compute; reflexivity).
  destruct demo_plan as [| | |previous cmds]; [done..|]. by exists previous, cmds.
Qed.

(** Another client writes the row again as it is. *)
Definition demo_touch : list (command Account) := [CmdSet (accountsKey "" 7) demo_account].

Lemma demo_touched :
  touches (accountsKey "" (c_id (demo_calls 0))) demo_touch = true
  /\ redis_view demo_db = apply_commands demo_touch (redis_view demo_db).
Proof. split; vm_compute; reflexivity. Qed.

Lemma demo_starved n evs ws :
  ws 0%nat = WIdle n -> demo_run evs (mkSystem demo_db ws []) ->
  exists evs' ws', demo_run evs' (mkSystem demo_db ws' []) /\ ws' 0%nat = WIdle 0.
Proof.
  destruct demo_plan_commits as (previous & cmds & Hplan). destruct demo_touched as [Ht Hv].
  revert evs ws. induction n as [|n IH]; intros evs ws Hw Hrun.
  { exists evs, ws. split; [exact Hrun|exact Hw]. }
  destruct (spoiled_attempt demo_equal "" false demo_calls demo_db evs 0 n demo_db demo_db ws []
              5 no_nonce previous cmds demo_touch Hrun Hw) as (evs' & ws' & Hr & Hw');
    [discriminate|exact Hplan|exact Ht|exact Hv|]. exact (IH _ _ Hw' Hr).
Qed.

Lemma gives_up_only_under_contention_witness :
  exists evs : list (event (V := Account)), (32 <= conflicts "" demo_calls 0 evs)%nat.
Proof.
  destruct (demo_starved update_attempts [] (fun _ => WIdle update_attempts))
    as (evs & ws & Hrun & Hw); [reflexivity|constructor|].
  exists evs. exact (gives_up_only_under_contention demo_equal "" false demo_calls demo_db evs
                       (mkSystem demo_db ws []) 0 Hrun Hw).
Defined.

Lemma updates_are_atomic_witness :
  exists cmds st, s_writers st 0%nat = WDone None
    /\ spec_run demo_equal "" false demo_calls (redis_view demo_db)
         [Quiet; Quiet; Committed 0 cmds] (redis_view (s_db st)).
Proof.
  destruct demo_plan_commits as (previous & cmds & Hplan).
  destruct (undisturbed demo_equal "" false demo_calls 0 31 [] demo_db demo_db
              (apply_commands cmds demo_db) (fun _ => WIdle update_attempts) [] 5 no_nonce
              previous cmds) as (ws & pub & Hrun & Hw);
    [constructor|reflexivity|discriminate|exact Hplan|reflexivity|].
  exists cmds, (mkSystem (R := MemRedis Account) (apply_commands cmds demo_db) ws pub). split; [exact Hw|].
  exact (updates_are_atomic demo_equal "" false demo_calls demo_db _ _ Hrun).
Defined.
End demo.
