(* ===== verification/AccountChanges.v ===== *)
(** The account-change notifications of the store
    ([internal/store/account_changes.go]): publishing coalesces by account, the
    dispatcher drains in any order. *)

From S2P Require Import Prelude GoFloat UpstreamErrors Account.

Record AccountChange := mkChange {
  ch_AccountID : Z;
  ch_Previous : option Account;
  ch_Origin : string
}.

Definition AccountChangeOriginScheduler : string := "token_refresh_scheduler".

(** [accountChangeOrigin]: the trimmed origin carried by the context, if any. *)
Definition accountChangeOrigin (ctx_origin : option string) : string :=
  match ctx_origin with Some origin => TrimSpace origin | None => "" end.

(** The notification fields of the store.  [changePending] is made with the
    store; a store built without it publishes nothing. *)
Record bus := mkBus {
  b_emitter : bool;
  b_pending : option (gmap Z AccountChange);
  b_closed : bool;
  b_wake : bool
}.

(** The wake-up channel holds one token. *)
Definition publishChange (ctx_origin : option string) (previous : option Account) (id : Z)
    (b : bus) : bus :=
  if id =? 0 then b
  else
    match b_pending b with
    | None => b
    | Some pending =>
        if negb (b_emitter b) || b_closed b then b
        else
          let origin := accountChangeOrigin ctx_origin in
          let change :=
            match pending !! id with
            | Some existing => mkChange (ch_AccountID existing) (ch_Previous existing) origin
            | None => mkChange id previous origin
            end in
          mkBus (b_emitter b) (Some (<[id := change]> pending)) (b_closed b) true
    end.

Definition SetChangeEmitter (present : bool) (b : bus) : bus :=
  mkBus present (b_pending b) (b_closed b) (b_wake b).

(** One turn of the loop of [flushChanges]: some pending entry is removed, and
    emitted when an emitter is set.  A panic of the emitter is swallowed, so it
    does not change the turn. *)
Inductive flush_step : bus -> option AccountChange -> bus -> Prop :=
| flush_one e pending closed wake id change :
    pending !! id = Some change ->
    flush_step (mkBus e (Some pending) closed wake) (if e then Some change else None)
      (mkBus e (Some (delete id pending)) closed wake).

(** [flushChanges] runs until nothing is pending. *)
Inductive flushChanges : bus -> list AccountChange -> bus -> Prop :=
| flush_done e pending closed wake :
    default ∅ pending = ∅ -> flushChanges (mkBus e pending closed wake) [] (mkBus e pending closed wake)
| flush_more b out b' outs b'' :
    flush_step b out b' -> flushChanges b' outs b'' ->
    flushChanges b (option_list out ++ outs) b''.

(** * Properties *)

Record publish := mkPublish { pb_origin : option string; pb_previous : option Account; pb_id : Z }.

Definition publish_all (ps : list publish) (b : bus) : bus :=
  foldl (fun b p => publishChange (pb_origin p) (pb_previous p) (pb_id p) b) b ps.

(** The entry a burst of publications must leave for [id]: the first previous
    row and the last origin. *)
Definition coalesced (id : Z) (ps : list publish) : option AccountChange :=
  match List.filter (fun p => pb_id p =? id) ps with
  | [] => None
  | p :: rest => Some (mkChange id (pb_previous p) (accountChangeOrigin (pb_origin (List.last rest p))))
  end.

Definition open_bus (pending : gmap Z AccountChange) (wake : bool) : bus :=
  mkBus true (Some pending) false wake.

Lemma publish_open p pending wake :
  publishChange (pb_origin p) (pb_previous p) (pb_id p) (open_bus pending wake)
  = if pb_id p =? 0 then open_bus pending wake
    else open_bus (<[pb_id p := match pending !! pb_id p with
                                | Some e => mkChange (ch_AccountID e) (ch_Previous e)
                                              (accountChangeOrigin (pb_origin p))
                                | None => mkChange (pb_id p) (pb_previous p)
                                            (accountChangeOrigin (pb_origin p))
                                end]> pending) true.
Proof. unfold publishChange. by destruct (pb_id p =? 0). Qed.

Lemma last_snoc {A} (l : list A) x d : List.last (l ++ [x]) d = x.
Proof. apply last_last. Qed.

Lemma publish_all_snoc ps p b : publish_all (ps ++ [p]) b
  = publishChange (pb_origin p) (pb_previous p) (pb_id p) (publish_all ps b).
Proof. unfold publish_all. by rewrite foldl_app. Qed.

Lemma publish_all_pending ps :
  exists pending wake, publish_all ps (open_bus ∅ false) = open_bus pending wake
    /\ (forall id, pending !! id = if id =? 0 then None else coalesced id ps)
    /\ (pending = ∅ \/ wake = true).
Proof.
  induction ps as [|p ps IH] using rev_ind.
  { exists ∅, false. split_and!; [done| |by left]. intros id. cbn. rewrite lookup_empty. by destruct (id =? 0). }
  destruct IH as (pending & wake & Hb & Hl & Hw). rewrite publish_all_snoc, Hb, publish_open.
  destruct (pb_id p =? 0) eqn:E0.
  - exists pending, wake. split_and!; [done| |done]. intros id. rewrite Hl.
    destruct (id =? 0) eqn:Ei; [done|]. unfold coalesced. rewrite List.filter_app. cbn.
    replace (pb_id p =? id) with false by (symmetry; to_prop; apply Z.eqb_neq; lia).
    by rewrite app_nil_r.
  - eexists _, true. split_and!; [done| |by right]. intros id.
    destruct (decide (id = pb_id p)) as [->|Hne].
    + rewrite lookup_insert_eq, Hl, E0. unfold coalesced. rewrite List.filter_app. cbn.
      rewrite Z.eqb_refl. destruct (List.filter _ ps) as [|q qs]; [done|].
      cbn. by rewrite last_snoc.
    + rewrite lookup_insert_ne by done. rewrite Hl. destruct (id =? 0); [done|].
      unfold coalesced. rewrite List.filter_app. cbn.
      replace (pb_id p =? id) with false by (symmetry; apply Z.eqb_neq; lia).
      by rewrite app_nil_r.
Qed.

Lemma flush_emits b outs b' :
  flushChanges b outs b' -> forall pending wake, b = open_bus pending wake ->
  outs ≡ₚ (map_to_list pending).*2 /\ b' = open_bus ∅ wake.
Proof.
  induction 1 as [e p c w Hp|b out b1 outs b2 Hs Hf IH]; intros pending wake Hb.
  - injection Hb as -> -> -> ->. cbn in Hp. subst. by rewrite map_to_list_empty.
  - subst b. inversion Hs as [e p c w id change Hl]; subst. clear Hs.
    destruct (IH _ _ eq_refl) as [Hout ->]. split; [|done].
    rewrite <- (insert_delete_id pending id change Hl).
    rewrite map_to_list_insert by (apply lookup_delete_eq). cbn. by f_equiv.
Qed.

(** a burst of publications, however long, is delivered as one
    notification per touched account, carrying the row before the burst and the
    origin of its last write; the dispatcher is woken, delivers each exactly
    once whatever order it takes them in, and leaves nothing pending. *)
Theorem burst_is_delivered_once (ps : list publish) (outs : list AccountChange) (b : bus)
    (Hflush : flushChanges (publish_all ps (open_bus ∅ false)) outs b) :
  NoDup (ch_AccountID <$> outs)
  /\ (forall c, c ∈ outs <-> ch_AccountID c <> 0 /\ coalesced (ch_AccountID c) ps = Some c)
  /\ b_pending b = Some ∅
  /\ (outs = [] \/ b_wake (publish_all ps (open_bus ∅ false)) = true).
Proof.
  destruct (publish_all_pending ps) as (pending & wake & Hb & Hl & Hw). rewrite Hb in *.
  destruct (flush_emits _ _ _ Hflush pending wake eq_refl) as [Hout ->].
  assert (Hkey : forall id c, pending !! id = Some c -> ch_AccountID c = id).
  { intros id c. rewrite Hl. destruct (id =? 0); [done|]. unfold coalesced.
    destruct (List.filter _ ps); [done|]. by intros [= <-]. }
  split_and!.
  - rewrite Hout.
    assert (ch_AccountID <$> (map_to_list pending).*2 = (map_to_list pending).*1) as ->.
    { rewrite <- list_fmap_compose. apply list_fmap_ext. intros i [id c] Hi. cbn.
      apply list_elem_of_lookup_2, elem_of_map_to_list in Hi. by apply Hkey. }
    apply NoDup_fst_map_to_list.
  - intros c. rewrite Hout, list_elem_of_fmap. split.
    + intros ([id c'] & -> & Hc%elem_of_map_to_list). cbn. rewrite (Hkey _ _ Hc).
      rewrite Hl in Hc. destruct (id =? 0) eqn:E; [done|]. split; [by to_prop|done].
    + intros [H0 Hc]. exists (ch_AccountID c, c). split; [done|].
      apply elem_of_map_to_list. rewrite Hl. apply Z.eqb_neq in H0. by rewrite H0.
  - done.
  - destruct Hw as [-> | ->]; [left|by right]. rewrite map_to_list_empty in Hout.
    by apply Permutation_nil_r in Hout.
Qed.

(** The dispatcher's loop always finishes: some drain of any bus exists, and
    each turn removes an entry. *)
Lemma flush_exists pending wake : exists outs, flushChanges (open_bus pending wake) outs (open_bus ∅ wake).
Proof.
  induction pending as [|id c m Hm IH] using map_ind; [exists []; by constructor|].
  destruct IH as [outs IH]. exists (c :: outs).
  change (c :: outs) with (option_list (Some c) ++ outs).
  eapply flush_more; [|exact IH].
  pose proof (flush_one true (<[id := c]> m) false wake id c (lookup_insert_eq _ _ _)) as H.
  by rewrite delete_insert_id in H.
Qed.

Lemma flush_step_size b out b' : flush_step b out b' ->
  (size (default ∅ (b_pending b')) < size (default ∅ (b_pending b)))%nat.
Proof.
  destruct 1 as [e p c w id ch H]. cbn. rewrite <- (insert_delete_id p id ch H) at 2.
  rewrite map_size_insert_None by apply lookup_delete_eq. lia.
Qed.

Lemma burst_is_delivered_once_witness :
  let ps := [mkPublish None (Some zero_account) 7; mkPublish (Some "token_refresh_scheduler") None 7] in
  exists outs b, flushChanges (publish_all ps (open_bus ∅ false)) outs b
    /\ mkChange 7 (Some zero_account) AccountChangeOriginScheduler ∈ outs.
Proof.
  intros ps. destruct (publish_all_pending ps) as (pending & wake & Hb & _).
  destruct (flush_exists pending wake) as (outs & Hf). rewrite <- Hb in Hf.
  exists outs, (open_bus ∅ wake). split; [exact Hf|].
  destruct (burst_is_delivered_once ps outs _ Hf) as (_ & H & _).
  apply H. split; [discriminate|reflexivity].
Defined.
