(* ===== verification/RetryWait.v ===== *)
(** How long and how often one request may try again: the wait budgets
    ([internal/config/inference_limits.go]), the retry delays and the shared
    refusal's probes ([internal/handler/refusal_wait.go]), the deadline test
    ([internal/util/retry_wait.go]) and the upstream attempt budget
    ([internal/upstream/attempt_budget.go]). *)

From S2P Require Import Prelude GoFloat UpstreamErrors.

(** ** Budgets *)

Definition SharedRefusalWaitBudget : duration := 60 * Second.
Definition AccountReservationWaitBudget : duration := 2 * Second.
Definition GenerationMaxRetries : Z := 20.
Definition MaxAccountSwitches : Z := 20.

(** [field] is the configured override, [None] for a nil [Config]. *)
Definition boundedWaitBudget (field : option Z) (ceiling : duration) : duration :=
  match field with
  | None => ceiling
  | Some ms =>
      if ms =? 0 then ceiling
      else i64 (Z.min (Z.max ms 0) (ceiling / Millisecond) * Millisecond)
  end.

Definition RefusalWaitBudget (ms : option Z) : duration := boundedWaitBudget ms SharedRefusalWaitBudget.
Definition ReservationWaitBudget (ms : option Z) : duration :=
  boundedWaitBudget ms AccountReservationWaitBudget.

(** ** Delays *)

Definition upstreamRetryAfter (err : go_error) : duration :=
  match err_retry_after err with
  | None => 0
  | Some delay => if delay <=? 0 then 0 else delay
  end.

Definition computeRetryDelay (base : duration) (attempt : Z) (category : string) : duration :=
  if base <=? 0 then 0
  else
    let attempt := if attempt <? 1 then 1 else attempt in
    let attempt := if 4 <? attempt then 4 else attempt in
    let delay := i64 (base * i64 (2 ^ (attempt - 1))) in
    let delay := if String.eqb category "rate_limit" && (delay <? 2 * Second) then 2 * Second
                 else delay in
    if 30 * Second <? delay then 30 * Second else delay.

Definition shouldRetryCurrentAccountWhenNoAlternative (category : string) : bool :=
  str_in (TrimSpace category) ["network"; "timeout"; "server"; "model_unavailable"; "unknown"].

Definition isSharedUpstreamRefusalClass (class : UpstreamErrorClass) : bool :=
  negb (SwitchAccount class) && String.eqb (Category class) "rate_limit".

Definition sharedRefusalWaitAllowedWithin (already next budget : duration) : bool :=
  if next <=? 0 then false
  else
    let budget := if budget <=? 0 then SharedRefusalWaitBudget else budget in
    (0 <=? already) && (already <=? budget) && (next <=? i64 (budget - already)).

(** The probes of a hint: a sixteenth, a quarter, three quarters, then all of
    it, but a second at least and the hint at most. *)
Definition refusal_fraction (retry : Z) : float64 :=
  if retry =? 1 then f64_div (f64_of_int 1) (f64_of_int 16)
  else if retry =? 2 then f64_div (f64_of_int 1) (f64_of_int 4)
  else if retry =? 3 then f64_div (f64_of_int 3) (f64_of_int 4)
  else f64_of_int 1.

Definition sharedRefusalWait (hint : duration) (retry : Z) : duration :=
  if hint <=? 0 then 0
  else Z.min (Z.max (f64_to_int64 (f64_mul (f64_of_int hint) (refusal_fraction retry))) Second) hint.

(** [rnd n] is what [rand.Int63n(n)] draws. *)
Definition sharedRefusalJitter (rnd : Z -> Z) (delay : duration) : duration :=
  if delay <=? 0 then 0
  else
    let jitter := Z.min (Z.quot delay 5) (5 * Second) in
    if jitter <=? 0 then 0 else rnd jitter.

(** A context: [ctx.Err()] and [ctx.Deadline()] when the call asks. *)
Definition RetryWaitFits (ctx_err : option go_error) (deadline : option instant) (now : instant)
    (wait : duration) : bool :=
  match ctx_err with
  | Some _ => false
  | None =>
      match deadline with
      | Some d => Time.Before (Time.Add now (Z.max wait 0)) d
      | None => true
      end
  end.

(** ** The attempt budget

    The budget of one request is shared by its upstream calls, which a client
    may issue concurrently; an attempt is a thread whose atomic actions
    interleave with the others'. *)

Definition ErrAttemptBudget : go_error := Errorf "upstream attempt budget exhausted".

Definition WithAttemptBudget (limit : Z) : Z := if limit <? 1 then 1 else limit.

Definition Remaining (limit used : Z) : Z := i64 (limit - used).

(** [RemainingAttempts]: -1 without a budget in the context. *)
Definition RemainingAttempts (budget : option (Z * Z)) : Z :=
  match budget with Some (limit, used) => Remaining limit used | None => -1 end.

Inductive attempt :=
| Entering (ctx_err : option go_error)
| Counting                       (* about to load [used] *)
| Swapping (n : Z)               (* about to swap [n] for [n+1] *)
| Begun
| Refused (err : go_error).

(** One atomic action of [BeginAttempt]. *)
Definition begin_action (limit : Z) (a : attempt) (used : Z) : option (attempt * Z) :=
  match a with
  | Entering (Some err) => Some (Refused err, used)
  | Entering None => Some (Counting, used)
  | Counting => if limit <=? used then Some (Refused ErrAttemptBudget, used)
                else Some (Swapping used, used)
  | Swapping n => if used =? n then Some (Begun, i64 (n + 1)) else Some (Counting, used)
  | Begun | Refused _ => None
  end.

(** A call nobody interferes with. *)
Definition BeginAttempt (ctx_err : option go_error) (limit used : Z) : option go_error * Z :=
  match ctx_err with
  | Some err => (Some err, used)
  | None => if limit <=? used then (Some ErrAttemptBudget, used) else (None, i64 (used + 1))
  end.

(** The finish callback: what the observer is told, and the flag after it. *)
Definition finish (failed done : bool) : option bool * bool :=
  if done then (None, true) else (Some failed, true).

Inductive attempts (limit : Z) : list attempt -> Z -> Prop :=
| attempts_none : attempts limit [] 0
| attempts_enter l used ctx_err :
    attempts limit l used -> attempts limit (l ++ [Entering ctx_err]) used
| attempts_act l used i a a' used' :
    attempts limit l used -> l !! i = Some a -> begin_action limit a used = Some (a', used') ->
    attempts limit (<[i := a']> l) used'.

(** * Properties *)

(** ** Budgets and delays *)

Lemma boundedWaitBudget_range field ceiling :
  0 <= ceiling <= Hour -> (ceiling / Millisecond) * Millisecond = ceiling ->
  0 <= boundedWaitBudget field ceiling <= ceiling.
Proof.
  intros Hc He. unfold boundedWaitBudget. destruct field as [ms|]; [|lia].
  destruct (ms =? 0) eqn:E; [lia|].
  pose proof (Z.div_pos ceiling Millisecond ltac:(lia) ltac:(unfold Millisecond; lia)).
  rewrite i64_small; unfold in_i64, min_int64, max_int64, Millisecond, Hour in *; nia.
Qed.

Lemma RefusalWaitBudget_range ms : 0 <= RefusalWaitBudget ms <= SharedRefusalWaitBudget.
Proof. apply boundedWaitBudget_range; [split; by vm_compute|reflexivity]. Qed.

Lemma ReservationWaitBudget_range ms :
  0 <= ReservationWaitBudget ms <= AccountReservationWaitBudget.
Proof. apply boundedWaitBudget_range; [split; by vm_compute|reflexivity]. Qed.

Lemma refusal_allowed_within already next budget :
  0 < budget <= SharedRefusalWaitBudget ->
  sharedRefusalWaitAllowedWithin already next budget = true <->
  0 < next /\ 0 <= already /\ already + next <= budget.
Proof.
  intros Hb. unfold sharedRefusalWaitAllowedWithin.
  destruct (next <=? 0) eqn:En; to_prop; [split; [done|lia]|].
  replace (budget <=? 0) with false by (symmetry; apply Z.leb_gt; lia).
  assert (Hs : SharedRefusalWaitBudget = 60000000000) by reflexivity.
  destruct (0 <=? already) eqn:E1; to_prop; cbn [andb]; [|split; [done|lia]].
  destruct (already <=? budget) eqn:E2; to_prop; cbn [andb]; [|split; [done|lia]].
  rewrite i64_small by (unfold in_i64, min_int64, max_int64; lia). rewrite Z.leb_le. lia.
Qed.

Lemma sharedRefusalWait_range hint retry :
  0 < hint -> Z.min Second hint <= sharedRefusalWait hint retry <= hint.
Proof.
  intros Hh. unfold sharedRefusalWait. replace (hint <=? 0) with false by (symmetry; by apply Z.leb_gt).
  lia.
Qed.

Lemma sharedRefusalJitter_range rnd delay :
  (forall n, 0 < n -> 0 <= rnd n < n) -> 0 <= delay ->
  0 <= sharedRefusalJitter rnd delay <= Z.min (delay / 5) (5 * Second).
Proof.
  intros Hr Hd. unfold sharedRefusalJitter. rewrite Z.quot_div_nonneg by lia.
  pose proof (Z.div_pos delay 5 Hd ltac:(lia)). unfold Second.
  destruct (delay <=? 0) eqn:E; to_prop; [lia|].
  destruct (_ <=? 0) eqn:E2; to_prop; [lia|]. specialize (Hr _ E2). lia.
Qed.

(** with a configured delay that does not overflow, the wait before a
    retry doubles up to the fourth attempt, never exceeds thirty seconds, is at
    least the configured delay (as far as thirty seconds allow), at least two
    seconds for a rate limit, and never shrinks from one attempt to the next. *)
Theorem computeRetryDelay_range (base attempt : Z) (category : string) :
  0 < base <= max_int64 / 8 ->
  Z.min base (30 * Second) <= computeRetryDelay base attempt category <= 30 * Second
  /\ (category = "rate_limit" -> 2 * Second <= computeRetryDelay base attempt category)
  /\ computeRetryDelay base attempt category <= computeRetryDelay base (attempt + 1) category
  /\ (category <> "rate_limit" -> 1 <= attempt <= 3 ->
      computeRetryDelay base (attempt + 1) category
      = Z.min (2 * computeRetryDelay base attempt category) (30 * Second)).
Proof.
  assert (Hv : forall k, 0 < base <= max_int64 / 8 ->
    computeRetryDelay base k category
    = let d := base * 2 ^ (Z.min (Z.max k 1) 4 - 1) in
      Z.min (if String.eqb category "rate_limit" then Z.max d (2 * Second) else d) (30 * Second)).
  { intros k Hb. unfold computeRetryDelay. cbv zeta.
    replace (base <=? 0) with false by (symmetry; apply Z.leb_gt; lia).
    replace (if 4 <? (if k <? 1 then 1 else k) then 4 else if k <? 1 then 1 else k)
      with (Z.min (Z.max k 1) 4) by zcases.
    set (j := Z.min (Z.max k 1) 4).
    assert (Hj : j = 1 \/ j = 2 \/ j = 3 \/ j = 4) by lia.
    assert (Hp : 1 <= 2 ^ (j - 1) <= 8) by (destruct Hj as [->|[->|[->| ->]]]; by vm_compute).
    change (max_int64 / 8) with 1152921504606846975 in Hb.
    rewrite (i64_small (2 ^ (j - 1))) by (unfold in_i64, min_int64, max_int64; lia).
    rewrite i64_small by (unfold in_i64, min_int64, max_int64; nia).
    unfold Second. zcases. }
  intros Hb. rewrite !Hv by done. cbv zeta.
  set (f k := 2 ^ (Z.min (Z.max k 1) 4 - 1)).
  change (2 ^ (Z.min (Z.max attempt 1) 4 - 1)) with (f attempt).
  change (2 ^ (Z.min (Z.max (attempt + 1) 1) 4 - 1)) with (f (attempt + 1)).
  assert (Hf : 1 <= f attempt <= f (attempt + 1)).
  { unfold f. split; [apply (Z.pow_le_mono_r 2 0); lia|apply Z.pow_le_mono_r; lia]. }
  assert (H2 : 1 <= attempt <= 3 -> f (attempt + 1) = 2 * f attempt).
  { intros Ha. assert (attempt = 1 \/ attempt = 2 \/ attempt = 3) as [->|[->| ->]] by lia; reflexivity. }
  unfold Second. destruct (String.eqb category "rate_limit") eqn:Ec; to_prop.
  - split; [nia|]. split; [intros _; nia|]. split; [nia|]. intros H. done.
  - split; [nia|]. split; [done|]. split; [nia|]. intros _ Ha. rewrite (H2 Ha). nia.
Qed.

Lemma computeRetryDelay_range_witness :
  computeRetryDelay Second 3 "server" = 4 * Second
  /\ computeRetryDelay Second 4 "server" = 8 * Second.
Proof.
  assert (H3 : computeRetryDelay Second 3 "server" = 4 * Second) by (vm_compute; reflexivity).
  split; [exact H3|].
  destruct (computeRetryDelay_range Second 3 "server") as (_ & _ & _ & H); [split; by vm_compute|].
  change (3 + 1) with 4 in H. rewrite H, H3; [by vm_compute|discriminate|lia].
Defined.

(** ** The attempt budget *)

Definition begun (l : list attempt) : Z :=
  Z.of_nat (length (List.filter (fun a => match a with Begun => true | _ => false end) l)).

Definition is_begun (a : attempt) : Z := match a with Begun => 1 | _ => 0 end.

Lemma begun_app a b : begun (a ++ b) = begun a + begun b.
Proof. unfold begun. rewrite List.filter_app, length_app. lia. Qed.

Lemma begun_cons a l : begun (a :: l) = is_begun a + begun l.
Proof. unfold begun. destruct a; cbn [List.filter is_begun length]; lia. Qed.

Lemma begun_insert l i a a' :
  l !! i = Some a -> begun (<[i := a']> l) = begun l - is_begun a + is_begun a'.
Proof.
  intros Hi. rewrite insert_take_drop by (by apply lookup_lt_Some in Hi).
  rewrite <- (take_drop_middle l i a Hi) at 3. rewrite !begun_app, !begun_cons. lia.
Qed.

Lemma begin_action_counts limit a used a' used' :
  begin_action limit a used = Some (a', used') ->
  0 <= used <= limit -> limit <= max_int64 ->
  (forall n, a = Swapping n -> n < limit) ->
  0 <= used' <= limit /\ used' = used + is_begun a' /\ is_begun a = 0
  /\ (forall n, a' = Swapping n -> n < limit).
Proof.
  intros Ha Hu Hl Hn. destruct a as [[e|]| |n| |e]; cbn in Ha; try done.
  - injection Ha as <- <-. cbn. split_and!; try done; lia.
  - injection Ha as <- <-. cbn. split_and!; try done; lia.
  - destruct (limit <=? used) eqn:E; injection Ha as <- <-; cbn; to_prop; split_and!; try done; try lia.
    intros n [= ->]. done.
  - specialize (Hn n eq_refl). destruct (used =? n) eqn:E; injection Ha as <- <-; cbn; to_prop; subst.
    + rewrite i64_small by (unfold in_i64, min_int64, max_int64 in *; lia). split_and!; try done; lia.
    + split_and!; try done; lia.
Qed.

(** however the upstream calls of a request interleave, the attempts
    it has begun never exceed its budget, and the counter is exactly their
    number; an attempt is refused for the budget only when all of it is used,
    and a call that runs alone is refused exactly then. *)
Theorem attempt_budget_holds (limit : Z) (l : list attempt) (used : Z)
    (Hlimit : limit <= max_int64) (Hrun : attempts (WithAttemptBudget limit) l used) :
  begun l = used /\ 0 <= used <= WithAttemptBudget limit
  /\ Remaining (WithAttemptBudget limit) used = WithAttemptBudget limit - used
  /\ (BeginAttempt None (WithAttemptBudget limit) used = (Some ErrAttemptBudget, used)
      <-> begun l = WithAttemptBudget limit).
Proof.
  set (L := WithAttemptBudget limit) in *.
  assert (HL : 1 <= L <= max_int64) by (unfold L, WithAttemptBudget, max_int64 in *; zcases).
  assert (Hinv : begun l = used /\ 0 <= used <= L /\ Forall (fun a => forall n, a = Swapping n -> n < L) l).
  { induction Hrun as [|l used c _ IH|l used i a a' used' _ IH Hi Ha].
    - split_and!; [done|lia|lia|constructor].
    - destruct IH as (Hb & Hu & Hs). split_and!; [|lia|lia|].
      + rewrite begun_app, Hb. change (begun [Entering c]) with 0. lia.
      + apply Forall_app. split; [done|]. by repeat constructor.
    - destruct IH as (Hb & Hu & Hs). pose proof (proj1 (Forall_lookup _ _) Hs i a Hi) as Hsw.
      destruct (begin_action_counts _ _ _ _ _ Ha Hu ltac:(lia) Hsw) as (H1 & H2 & H3 & H4).
      split_and!; [rewrite (begun_insert _ _ _ _ Hi); lia|lia|lia|by apply Forall_insert]. }
  destruct Hinv as (Hb & Hu & _). split; [done|]. split; [lia|]. split.
  - unfold Remaining. rewrite i64_small; [done|]. unfold in_i64, min_int64, max_int64 in *. lia.
  - unfold BeginAttempt. destruct (L <=? used) eqn:E; to_prop.
    + split; [lia|done].
    + split; [done|lia].
Qed.

Lemma attempt_budget_holds_witness :
  exists l, attempts (WithAttemptBudget 1) l 1 /\ begun l = 1
    /\ BeginAttempt None (WithAttemptBudget 1) 1 = (Some ErrAttemptBudget, 1).
Proof.
  assert (Hr : attempts (WithAttemptBudget 1) [Begun] 1).
  { refine (attempts_act 1 [Swapping 0] 0 0 (Swapping 0) Begun 1 _ eq_refl eq_refl).
    refine (attempts_act 1 [Counting] 0 0 Counting (Swapping 0) 0 _ eq_refl eq_refl).
    refine (attempts_act 1 [Entering None] 0 0 (Entering None) Counting 0 _ eq_refl eq_refl).
    exact (attempts_enter 1 [] 0 None (attempts_none 1)). }
  exists [Begun]. split; [exact Hr|]. split; [reflexivity|].
  apply (attempt_budget_holds 1 [Begun] 1 ltac:(vm_compute; discriminate) Hr). reflexivity.
Defined.
