(* ===== verification/ConnTracker.v ===== *)
(** In-flight request counters per account
    ([internal/loadbalancer/conn_tracker.go], [conn_counts.go]): the interface,
    the lock-free in-memory tracker with its interleavings, and the Redis
    tracker with the scripts it runs. *)

From S2P Require Import Prelude GoFloat UpstreamErrors Account.

(** ** The interface

    What the selector is promised of a tracker. *)

Class ConnTracker (T : Type) := {
  tr_Acquire : Z -> T -> T;
  tr_Release : Z -> T -> T;
  tr_GetCount : Z -> T -> Z;
  tr_GetCounts : list Z -> T -> gmap Z Z * T
}.

(** [LimitedConnTracker]: a slot is taken only below the limit. *)
Class LimitedConnTracker (T : Type) := {
  tr_TryAcquire : Z -> Z -> T -> bool * T
}.

(** ** The in-memory tracker *)

Module Memory.
(** [sync.Map] from account to its atomic counter. *)
Abbreviation tracker := (gmap Z Z).

Definition GetCount (id : Z) (t : tracker) : Z := default 0 (t !! id).

Definition GetCounts (ids : list Z) (t : tracker) : gmap Z Z :=
  foldl (fun counts id => <[id := GetCount id t]> counts) ∅ ids.

Definition GetCountsChecked (ctx_err : option go_error) (ids : list Z) (t : tracker) :
    gmap Z Z + go_error :=
  match ctx_err with Some err => inr err | None => inl (GetCounts ids t) end.

(** *** Atomic actions

    Every call is a sequence of atomic actions on its account's counter;
    calls of concurrent requests interleave between them. *)
Inductive op := Acquire | TryAcquire (limit : Z) | Release.

Inductive thread :=
| Start (id : Z) (o : op)
| Loaded (id : Z) (o : op) (current : Z)   (* in the compare-and-swap loop *)
| Finished (id : Z) (o : op) (result : bool).

(** The next atomic action of a thread: its new state and counters. *)
Definition action (th : thread) (t : tracker) : option (thread * tracker) :=
  match th with
  | Start id Acquire =>
      (* LoadOrStore, then Add(1) *)
      Some (Finished id Acquire true, <[id := i64 (GetCount id t + 1)]> t)
  | Start id (TryAcquire limit) =>
      (* LoadOrStore and the Load that begins the loop *)
      Some (Loaded id (TryAcquire limit) (GetCount id t), <[id := GetCount id t]> t)
  | Start id Release =>
      match t !! id with
      | None => Some (Finished id Release false, t)
      | Some current => Some (Loaded id Release current, t)
      end
  | Loaded id (TryAcquire limit) current =>
      if (0 <? limit) && (limit <=? current) then Some (Finished id (TryAcquire limit) false, t)
      else if GetCount id t =? current
      then Some (Finished id (TryAcquire limit) true, <[id := i64 (current + 1)]> t)
      else Some (Start id (TryAcquire limit), t)
  | Loaded id Release current =>
      if current <=? 0 then Some (Finished id Release false, t)
      else if GetCount id t =? current
      then Some (Finished id Release true, <[id := i64 (current - 1)]> t)
      else Some (Start id Release, t)
  | Loaded id Acquire _ => None
  | Finished _ _ _ => None
  end.

(** A call run without interference. *)
Fixpoint run_alone (fuel : nat) (th : thread) (t : tracker) : bool * tracker :=
  match fuel with
  | O => (false, t)
  | S fuel =>
      match th with
      | Finished _ _ res => (res, t)
      | _ => match action th t with
             | Some (th', t') => run_alone fuel th' t'
             | None => (false, t)
             end
      end
  end.

Definition call (id : Z) (o : op) (t : tracker) : bool * tracker := run_alone 3 (Start id o) t.

(** Any number of calls, interleaved. *)
Record system := mkSystem { counters : tracker; threads : list thread }.

Inductive step : system -> system -> Prop :=
| step_spawn t ths id o : step (mkSystem t ths) (mkSystem t (ths ++ [Start id o]))
| step_action t ths i th th' t' :
    ths !! i = Some th -> action th t = Some (th', t') ->
    step (mkSystem t ths) (mkSystem t' (<[i := th']> ths)).

(** *** What the counters say *)

Definition won (id : Z) (th : thread) : Z :=
  match th with
  | Finished j Acquire true | Finished j (TryAcquire _) true => if j =? id then 1 else 0
  | Finished j Release true => if j =? id then -1 else 0
  | _ => 0
  end.

Definition balance (id : Z) (ths : list thread) : Z := foldr (fun th n => won id th + n) 0 ths.

(** Every call on [id] reserves under [limit]. *)
Definition limited (id limit : Z) (th : thread) : bool :=
  let own j o := match o with
                 | Acquire => negb (j =? id)
                 | TryAcquire l => negb (j =? id) || (l =? limit)
                 | Release => true
                 end in
  match th with Start j o | Loaded j o _ | Finished j o _ => own j o end.

Lemma GetCount_insert id j v t :
  GetCount id (<[j := v]> t) = if j =? id then v else GetCount id t.
Proof.
  unfold GetCount. destruct (j =? id) eqn:E; to_prop.
  - subst. by rewrite lookup_insert_eq.
  - by rewrite lookup_insert_ne.
Qed.

Lemma balance_app id a b : balance id (a ++ b) = balance id a + balance id b.
Proof. unfold balance. induction a as [|x a IH]; [done|]. cbn. lia. Qed.

Lemma balance_insert id ths i th th' :
  ths !! i = Some th -> balance id (<[i := th']> ths) = balance id ths - won id th + won id th'.
Proof.
  intros Hi. rewrite insert_take_drop by (by apply lookup_lt_Some in Hi).
  rewrite <- (take_drop_middle ths i th Hi) at 3.
  rewrite !balance_app. cbn. lia.
Qed.

(** The invariant of one account under a limit. *)
Definition within (id limit : Z) (t0 : tracker) (s : system) : Prop :=
  0 <= GetCount id (counters s) <= limit
  /\ GetCount id (counters s) = GetCount id t0 + balance id (threads s)
  /\ Forall (fun th => limited id limit th = true) (threads s).

Inductive reachable (id limit : Z) (s0 : system) : system -> Prop :=
| reach_refl : reachable id limit s0 s0
| reach_step s s' : reachable id limit s0 s -> step s s' ->
    Forall (fun th => limited id limit th = true) (threads s') -> reachable id limit s0 s'.

Lemma action_won id th t th' t' :
  action th t = Some (th', t') -> won id th = 0.
Proof. by destruct th as [j []|j [] c|j o r]. Qed.

Lemma action_counts id limit th t th' t' :
  0 < limit <= max_int64 -> limited id limit th = true -> 0 <= GetCount id t <= limit ->
  action th t = Some (th', t') ->
  0 <= GetCount id t' <= limit /\ GetCount id t' = GetCount id t + won id th'
  /\ limited id limit th' = true.
Proof.
  intros Hl Hlim Hc Ha. unfold action in Ha.
  destruct th as [j [|l|]|j [|l|] c|j o r]; cbn in Hlim; try done.
  - injection Ha as <- <-. rewrite GetCount_insert. cbn. apply negb_true_iff in Hlim.
    by rewrite Hlim, Z.add_0_r.
  - injection Ha as <- <-. rewrite GetCount_insert. cbn [won limited].
    destruct (j =? id) eqn:E; to_prop; subst; split_and!; try done; lia.
  - destruct (t !! j) eqn:E; injection Ha as <- <-; cbn; split_and!; try done; lia.
  - destruct ((0 <? l) && (l <=? c)) eqn:Efull;
      [injection Ha as <- <-; cbn [won limited]; split_and!; try done; lia|].
    destruct (GetCount j t =? c) eqn:Ecas; injection Ha as <- <-; cbn [won limited];
      [|split_and!; try done; lia].
    rewrite GetCount_insert. destruct (j =? id) eqn:E; cbn in Hlim |- *; [|split_and!; try done; lia].
    to_prop; subst; rewrite i64_small by (unfold in_i64, min_int64; destruct Efull; to_prop; lia);
      destruct Efull; to_prop; split_and!; lia.
  - destruct (c <=? 0) eqn:Ez; [injection Ha as <- <-; cbn; split_and!; try done; lia|].
    destruct (GetCount j t =? c) eqn:Ecas; injection Ha as <- <-; cbn [won limited];
      [|split_and!; try done; lia].
    rewrite GetCount_insert. destruct (j =? id) eqn:E; [|split_and!; try done; lia].
    to_prop; subst. rewrite i64_small by (unfold in_i64, min_int64, max_int64 in *; lia).
    split_and!; try done; lia.
Qed.

(** C2: however the calls of concurrent requests interleave, an account
    whose slots are all taken with [TryAcquire] under one limit never counts
    more than the limit nor less than zero, and its counter is exactly the
    slots granted minus the slots given back. *)
Theorem slots_never_exceed_limit (id limit : Z) (t0 : tracker) (s : system)
    (Hlimit : 0 < limit <= max_int64) (H0 : 0 <= GetCount id t0 <= limit)
    (Hreach : reachable id limit (mkSystem t0 []) s) :
  0 <= GetCount id (counters s) <= limit
  /\ GetCount id (counters s) = GetCount id t0 + balance id (threads s).
Proof.
  assert (within id limit t0 s) as [H1 [H2 _]]; [|done].
  induction Hreach as [|s s' _ IH Hst Hall]; [split_and!; cbn; try done; lia|].
  destruct IH as (Hc & Hb & Hf). destruct Hst as [t ths j o|t ths i th th' t' Hi Ha].
  - unfold within. cbn [counters threads] in *. rewrite balance_app. unfold balance in *. cbn.
    split_and!; [lia|lia|lia|exact Hall].
  - unfold within. cbn [counters threads] in *. rewrite Forall_lookup in Hf.
    destruct (action_counts id limit th t th' t' Hlimit (Hf i th Hi) Hc Ha) as (Hc' & He & _).
    split_and!; [lia|lia| |exact Hall].
    rewrite (balance_insert id ths i th th' Hi). rewrite (action_won id _ _ _ _ Ha). lia.
Qed.

(** Two requests race for the last slot: both read the counter before either
    swaps, and the slower one has to start again. *)
Lemma slots_never_exceed_limit_witness :
  exists t, reachable 7 1 (mkSystem ∅ [])
              (mkSystem t [Finished 7 (TryAcquire 1) true; Start 7 (TryAcquire 1)])
    /\ GetCount 7 t = 0 + balance 7 [Finished 7 (TryAcquire 1) true; Start 7 (TryAcquire 1)].
Proof.
  pose (S := Start 7 (TryAcquire 1)). pose (R := Loaded 7 (TryAcquire 1) 0).
  pose (F := Finished 7 (TryAcquire 1) true).
  pose (t1 := <[7 := 0]> (∅ : tracker)). pose (t2 := <[7 := 0]> t1). pose (t3 := <[7 := 1]> t2).
  assert (Hr : reachable 7 1 (mkSystem ∅ []) (mkSystem t3 [F; S])).
  { refine (reach_step _ _ _ _ _ _ (step_action t3 [F; R] 1 R S t3 eq_refl eq_refl) _);
      [|by repeat constructor].
    refine (reach_step _ _ _ _ _ _ (step_action t2 [R; R] 0 R F t3 eq_refl eq_refl) _);
      [|by repeat constructor].
    refine (reach_step _ _ _ _ _ _ (step_action t1 [R; S] 1 S R t2 eq_refl eq_refl) _);
      [|by repeat constructor].
    refine (reach_step _ _ _ _ _ _ (step_action ∅ [S; S] 0 S R t1 eq_refl eq_refl) _);
      [|by repeat constructor].
    refine (reach_step _ _ _ _ _ _ (step_spawn ∅ [S] 7 (TryAcquire 1)) _);
      [|by repeat constructor].
    refine (reach_step _ _ _ _ _ _ (step_spawn ∅ [] 7 (TryAcquire 1)) _);
      [constructor|by repeat constructor]. }
  exists t3. split; [exact Hr|].
  refine (proj2 (slots_never_exceed_limit 7 1 ∅ _ _ _ Hr)); by vm_compute.
Defined.

(** A call nobody interferes with: the counter after it and its answer. *)
Lemma call_spec id o t :
  call id o t
  = match o with
    | Acquire => (true, <[id := i64 (GetCount id t + 1)]> t)
    | TryAcquire limit =>
        if (0 <? limit) && (limit <=? GetCount id t)
        then (false, <[id := GetCount id t]> t)
        else (true, <[id := i64 (GetCount id t + 1)]> t)
    | Release =>
        if GetCount id t <=? 0 then (false, t)
        else (true, <[id := i64 (GetCount id t - 1)]> t)
    end.
Proof.
  unfold call. destruct o as [|limit|]; cbn.
  - done.
  - destruct (_ && _); [done|]. rewrite GetCount_insert, !Z.eqb_refl. by rewrite insert_insert_eq.
  - unfold GetCount. destruct (t !! id) as [c|] eqn:E; cbn; [|done].
    destruct (c <=? 0); [done|]. unfold GetCount. rewrite E. cbn. by rewrite Z.eqb_refl.
Qed.
End Memory.

#[export] Instance MemoryConnTracker : ConnTracker (gmap Z Z) := {|
  tr_Acquire id t := (Memory.call id Memory.Acquire t).2;
  tr_Release id t := (Memory.call id Memory.Release t).2;
  tr_GetCount := Memory.GetCount;
  tr_GetCounts ids t := (Memory.GetCounts ids t, t)
|}.

#[export] Instance MemoryLimitedConnTracker : LimitedConnTracker (gmap Z Z) := {|
  tr_TryAcquire id limit t := Memory.call id (Memory.TryAcquire limit) t
|}.

(** ** What a tracker promises a client that takes and gives back slots *)

Class SlotLaws (T : Type) {Tr : ConnTracker T} {L : LimitedConnTracker T} : Prop := {
  sl_taken id limit t t' : 0 < limit -> 0 <= tr_GetCount id t < max_int64 ->
    tr_TryAcquire id limit t = (true, t') ->
    tr_GetCount id t < limit
    /\ forall j, tr_GetCount j t' = tr_GetCount j t + one_if (j =? id);
  sl_refused id limit t t' : tr_TryAcquire id limit t = (false, t') ->
    forall j, tr_GetCount j t' = tr_GetCount j t;
  sl_acquire id t : 0 <= tr_GetCount id t < max_int64 ->
    forall j, tr_GetCount j (tr_Acquire id t) = tr_GetCount j t + one_if (j =? id);
  sl_release id t : 0 < tr_GetCount id t <= max_int64 ->
    forall j, tr_GetCount j (tr_Release id t) = tr_GetCount j t - one_if (j =? id)
}.

#[export] Instance MemoryConnTracker_slots : SlotLaws (gmap Z Z).
Proof.
  assert (Hins : forall id v (t : gmap Z Z) j,
    Memory.GetCount j (<[id := v]> t) = if j =? id then v else Memory.GetCount j t).
  { intros. rewrite Memory.GetCount_insert. by rewrite (Z.eqb_sym id j). }
  split; cbn [tr_GetCount tr_TryAcquire tr_Acquire tr_Release MemoryConnTracker MemoryLimitedConnTracker].
  - intros id limit t t' Hl Hc H. rewrite Memory.call_spec in H.
    destruct ((0 <? limit) && (limit <=? Memory.GetCount id t)) eqn:E; [done|].
    injection H as <-. assert (Memory.GetCount id t < limit) by (apply andb_false_iff in E as [E|E]; to_prop; lia).
    split; [done|]. intros j. rewrite Hins, i64_small by (unfold in_i64, min_int64 in *; lia).
    unfold one_if. destruct (j =? id) eqn:Ej; to_prop; subst; lia.
  - intros id limit t t' H j. rewrite Memory.call_spec in H.
    destruct ((0 <? limit) && (limit <=? Memory.GetCount id t)); [|done].
    injection H as <-. rewrite Hins. destruct (j =? id) eqn:Ej; to_prop; by subst.
  - intros id t Hc j. rewrite Memory.call_spec. cbn [snd].
    rewrite Hins, i64_small by (unfold in_i64, min_int64 in *; lia).
    unfold one_if. destruct (j =? id) eqn:Ej; to_prop; subst; lia.
  - intros id t Hc j. rewrite Memory.call_spec.
    replace (Memory.GetCount id t <=? 0) with false by (symmetry; apply Z.leb_gt; lia). cbn [snd].
    rewrite Hins, i64_small by (unfold in_i64, min_int64, max_int64 in *; lia).
    unfold one_if. destruct (j =? id) eqn:Ej; to_prop; subst; lia.
Qed.

(** ** The Redis tracker

    One sorted set per account, one expiring member per request. *)

Module Leases.
Definition redisConnLeaseTTL : duration := 2 * Minute.
Definition ttl_ms : Z := redisConnLeaseTTL / Millisecond.

(** The value under a key: a sorted set with its expiry, or a value of another
    type left by an older version. *)
Inductive zkey :=
| ZNone
| ZSet (scores : gmap string Z) (expire : option Z)
| ZOther.

Definition zscores (k : zkey) : gmap string Z :=
  match k with ZSet m _ => m | _ => ∅ end.
Definition zexpire (k : zkey) : option Z :=
  match k with ZSet _ e => e | _ => None end.

(** A sorted set without members does not exist. *)
Definition zset (m : gmap string Z) (e : option Z) : zkey :=
  if decide (m = ∅) then ZNone else ZSet m e.

(** [ZREMRANGEBYSCORE key -inf now]. *)
Definition drop_expired (now : Z) (k : zkey) : zkey :=
  match k with
  | ZSet m e => zset (filter (fun '(_, score) => now < score) m) e
  | k => k
  end.

Definition zcard (k : zkey) : Z := Z.of_nat (size (zscores k)).

(** *** The Lua scripts: the reply and the key after them.  [server] is the
    server's clock in milliseconds, for [PEXPIRE]. *)

Definition releaseScript (lease : string) (k : zkey) : Z * zkey :=
  match k with
  | ZSet m e => (if bool_decide (is_Some (m !! lease)) then 1 else 0, zset (delete lease m) e)
  | k => (0, k)
  end.

Definition acquireScript (server limit now expiry : Z) (lease : string) (pexpire : Z) (k : zkey) :
    Z * zkey :=
  let k := match k with ZOther => ZNone | k => k end in
  let k := drop_expired now k in
  if (0 <? limit) && (limit <=? zcard k) then (0, k)
  else (1, ZSet (<[lease := expiry]> (zscores k)) (Some (server + pexpire))).

Definition refreshScript (server : Z) (lease : string) (expiry pexpire : Z) (k : zkey) : Z * zkey :=
  match zscores k !! lease with
  | None => (0, k)
  | Some _ => (1, ZSet (<[lease := expiry]> (zscores k)) (Some (server + pexpire)))
  end.

Definition countScript (now : Z) (k : zkey) : Z * zkey :=
  match k with
  | ZOther => (0, ZNone)
  | k => (zcard (drop_expired now k), drop_expired now k)
  end.

(** The loop of [renewConnBatchScript] over the lease ids. *)
Definition renew_members (expiry : Z) (ids : list string) (m : gmap string Z) : gmap string Z * Z :=
  foldl (fun '(m, n) id => if bool_decide (is_Some (m !! id)) then (<[id := expiry]> m, n + 1)
                           else (m, n)) (m, 0) ids.

Definition renewConnBatchScript (server expiry pexpire : Z) (ids : list string) (k : zkey) : Z * zkey :=
  let '(m, renewed) := renew_members expiry ids (zscores k) in
  match k with
  | ZSet _ e => (renewed, ZSet m (if 0 <? renewed then Some (server + pexpire) else e))
  | k => (renewed, k)
  end.

(** *** The limit *)

(** One script run on an account's key. *)
Inductive script :=
| Acquire (server limit now : Z) (lease : string)
| Release (lease : string)
| Renew (server expiry : Z) (ids : list string)
| Count (now : Z)
| Expire (server : Z).   (* the server drops a key whose deadline passed *)

Definition run_script (s : script) (k : zkey) : zkey :=
  match s with
  | Acquire server limit now lease =>
      (acquireScript server limit now (now + ttl_ms) lease (ttl_ms * 2) k).2
  | Release lease => (releaseScript lease k).2
  | Renew server expiry ids => (renewConnBatchScript server expiry (ttl_ms * 2) ids k).2
  | Count now => (countScript now k).2
  | Expire server => match zexpire k with
                     | Some deadline => if deadline <=? server then ZNone else k
                     | None => k
                     end
  end.

Definition under (limit : Z) (s : script) : bool :=
  match s with Acquire _ l _ _ => l =? limit | _ => true end.

Lemma zscores_zset m e : zscores (zset m e) = m.
Proof. unfold zset. case_decide; [by subst|done]. Qed.

Lemma zscores_drop now k :
  zscores (drop_expired now k) = filter (fun '(_, score) => now < score) (zscores k).
Proof. destruct k; cbn; [by rewrite map_filter_empty|apply zscores_zset|by rewrite map_filter_empty]. Qed.

Lemma zcard_drop now k : zcard (drop_expired now k) <= zcard k.
Proof.
  unfold zcard. rewrite zscores_drop.
  pose proof (map_subseteq_size _ _ (map_filter_subseteq (fun '(_, score) => now < score) (zscores k))).
  lia.
Qed.

Lemma zcard_insert m id v : (size (<[id := v]> m : gmap string Z) <= S (size m))%nat.
Proof. destruct (m !! id) eqn:E; [rewrite map_size_insert_Some by done|rewrite map_size_insert_None by done]; lia. Qed.

Lemma renew_size expiry ids m : size (renew_members expiry ids m).1 = size m.
Proof.
  unfold renew_members. generalize 0. revert m. induction ids as [|id ids IH]; intros m n; [done|].
  cbn. case_bool_decide as E; rewrite IH; [|done]. destruct E as [v E].
  by rewrite map_size_insert_Some.
Qed.

Lemma run_script_card limit s k :
  0 < limit -> under limit s = true -> zcard k <= limit -> zcard (run_script s k) <= limit.
Proof.
  intros Hl Hu Hk. destruct s as [server l now lease|lease|server expiry ids|now|server]; cbn in Hu.
  - to_prop. subst l. unfold run_script, acquireScript.
    set (k1 := match k with ZOther => ZNone | _ => k end).
    assert (Hk1 : zcard k1 <= limit) by (destruct k; done).
    pose proof (zcard_drop now k1). destruct (_ && _) eqn:E; cbn; [lia|].
    unfold zcard in *. cbn. pose proof (zcard_insert (zscores (drop_expired now k1)) lease (now + ttl_ms)).
    to_prop. destruct E; to_prop; lia.
  - unfold run_script, releaseScript, zcard in *. destruct k as [|m e|]; cbn; [exact Hk| |exact Hk].
    rewrite zscores_zset. cbn in Hk.  pose proof (map_subseteq_size _ _ (delete_subseteq m lease)). lia.
  - unfold run_script, renewConnBatchScript. pose proof (renew_size expiry ids (zscores k)) as Hs.
    destruct (renew_members _ _ _) as [m n]. cbn in Hs.
    unfold zcard in *. destruct k; cbn in *; lia.
  - unfold run_script, countScript. pose proof (zcard_drop now k).
    destruct k; cbn in *; [lia..|]. change (zcard ZNone) with 0. lia.
  - unfold run_script. destruct (zexpire k); [|done]. destruct (_ <=? _); [|done].
    change (zcard ZNone) with 0. lia.
Qed.

(** C9: whatever scripts the processes sharing an account run - with
    crashes, late renewals and key expiry - the account never holds more
    leases than its limit, and a request is admitted exactly when fewer
    leases than the limit are alive at that moment. *)
Theorem leases_within_limit (limit : Z) (scripts : list script) (server now : Z) (lease : string)
    (Hlimit : 0 < limit) (Hunder : Forall (fun s => under limit s = true) scripts) :
  let k := foldl (fun k s => run_script s k) ZNone scripts in
  let alive := filter (fun '(_, score) => now < score) (zscores k) in
  zcard k <= limit
  /\ ((acquireScript server limit now (now + ttl_ms) lease (ttl_ms * 2) k).1 = 1
      <-> Z.of_nat (size alive) < limit).
Proof.
  intros k alive. split.
  - unfold k. clear alive k. revert Hunder. induction scripts as [|s l IH] using rev_ind; intros Hu.
    + change (zcard ZNone <= limit). change (zcard ZNone) with 0. lia.
    + apply Forall_app in Hu as [Hu Hs]. apply Forall_cons in Hs as [Hs _]. rewrite foldl_app. cbn.
      apply run_script_card; [done|done|by apply IH].
  - unfold acquireScript. set (k1 := match k with ZOther => ZNone | _ => k end).
    assert (Hz : zcard (drop_expired now k1) = Z.of_nat (size alive)).
    { unfold zcard. rewrite zscores_drop. unfold alive. by destruct k. }
    rewrite Hz. replace (0 <? limit) with true by (symmetry; by apply Z.ltb_lt). cbn [andb].
    destruct (limit <=? _) eqn:E; cbn; to_prop; split; intros; try done; lia.
Qed.

Lemma leases_within_limit_witness :
  let first := Acquire 10 1 10 "a" in
  zcard (run_script first ZNone) = 1
  /\ (acquireScript 20 1 20 (20 + ttl_ms) "b" (ttl_ms * 2) (run_script first ZNone)).1 <> 1.
Proof.
  intros first. split; [vm_compute; reflexivity|].
  destruct (leases_within_limit 1 [first] 20 20 "b") as [_ H]; [lia|by repeat constructor|].
  cbn [foldl] in H. rewrite H. vm_compute. discriminate.
Defined.

(** *** The process side

    [LeaseServer] is the Redis client: it runs a script, or a pipeline, on a
    key and answers or fails.  A failed call may have run or not. *)

Class LeaseServer := {
  world : Type;
  server_ms : world -> Z;
  zview : world -> string -> zkey;
  run : string -> (zkey -> Z * zkey) -> world -> (Z + go_error) * world;
  run_pipeline : list (string * (zkey -> Z * zkey)) -> world -> (list Z + go_error) * world
}.

Definition set_view (k : string) (z : zkey) (view : string -> zkey) : string -> zkey :=
  fun k' => if String.eqb k' k then z else view k'.

Definition run_view (k : string) (f : zkey -> Z * zkey) (view : string -> zkey) : string -> zkey :=
  set_view k (f (view k)).2 view.

Class LeaseServerLaws {S : LeaseServer} : Prop := {
  run_ok k f w n w' : run k f w = (inl n, w') ->
    n = (f (zview w k)).1 /\ forall k', zview w' k' = run_view k f (zview w) k';
  run_err k f w e w' : run k f w = (inr e, w') ->
    (forall k', zview w' k' = zview w k') \/ (forall k', zview w' k' = run_view k f (zview w) k');
  run_pipeline_ok cmds w ns w' : run_pipeline cmds w = (inl ns, w') ->
    length ns = length cmds
    /\ forall k', zview w' k' = foldl (fun v '(k, f) => run_view k f v) (zview w) cmds k'
}.

Record proc := mkProc {
  held : gmap Z (list string);
  closed : bool;
  countCache : option (gmap Z (Z * instant))
}.

Section process.
Context {S : LeaseServer} (prefix : string).

Definition key (accountID : Z) : string := prefix +:+ Itoa accountID.

(** Selection counts are hints: a cached one moves with the caller's own
    leases and never below zero. *)
Definition adjustCachedCount (id delta : Z) (p : proc) : proc :=
  match countCache p with
  | Some cache =>
      match cache !! id with
      | Some (count, expires) =>
          mkProc (held p) (closed p)
            (Some (<[id := (Z.max 0 (i64 (count + delta)), expires)]> cache))
      | None => p
      end
  | None => p
  end.

(** [for range n] of [acquire]: the lease and reply of the last attempt, the
    server after it, and how many attempts were made.  [Int64] gives zero
    with an error. *)
Fixpoint acquire_loop (n i : nat) (accountID limit : Z) (lease : nat -> string)
    (now : nat -> instant) (w : world) : string * (Z + go_error) * world * nat :=
  let '(reply, w') :=
    run (key accountID)
      (acquireScript (server_ms w) limit (Time.UnixMilli (now i))
         (Time.UnixMilli (Time.Add (now i) redisConnLeaseTTL)) (lease i) (ttl_ms * 2)) w in
  let result := match reply with inl v => v | inr _ => 0 end in
  let failed := match reply with inl _ => false | inr _ => true end in
  match n with
  | Datatypes.S (Datatypes.S _ as m) =>
      if negb failed || (result =? 0) then (lease i, reply, w', Datatypes.S i)
      else acquire_loop m (Datatypes.S i) accountID limit lease now w'
  | _ => (lease i, reply, w', Datatypes.S i)
  end.

Definition acquire (accountID limit : Z) (lease : nat -> string) (now : nat -> instant)
    (p : proc) (w : world) : bool * proc * world :=
  if accountID =? 0 then (false, p, w)
  else
    let '(id, reply, w, _) := acquire_loop 2 0 accountID limit lease now w in
    match reply with
    | inl 1 =>
        if closed p then
          let '(_, w) := run (key accountID) (releaseScript id) w in (false, p, w)
        else
          (true,
           adjustCachedCount accountID 1
             (mkProc (<[accountID := default [] (held p !! accountID) ++ [id]]> (held p))
                (closed p) (countCache p)), w)
    | _ => (false, p, w)
    end.

Definition Release_ (accountID : Z) (p : proc) (w : world) : proc * world :=
  if accountID =? 0 then (p, w)
  else
    let list := default [] (held p !! accountID) in
    match last list with
    | None => (p, w)
    | Some lease =>
        let rest := removelast list in
        let p := mkProc (match rest with
                         | [] => delete accountID (held p)
                         | _ => <[accountID := rest]> (held p)
                         end) (closed p) (countCache p) in
        match run (key accountID) (releaseScript lease) w with
        | (inl _, w) => (adjustCachedCount accountID (-1) p, w)
        | (inr _, w) => (p, w)
        end
    end.

(** The accounts of the map are visited in an unspecified order; removals
    commute, so one order stands for all. *)
Definition Close (p : proc) (w : world) : proc * world :=
  if closed p then (p, w)
  else
    let removals := flat_map (fun '(id, leases) => map (fun l => (key id, releaseScript l)) leases)
                      (map_to_list (held p)) in
    (mkProc ∅ true (countCache p), (run_pipeline removals w).2).

Definition GetCount (accountID : Z) (now : instant) (w : world) : Z * world :=
  match run (key accountID) (countScript (Time.UnixMilli now)) w with
  | (inl v, w) => (v, w)
  | (inr _, w) => (0, w)
  end.

(** [ZREMRANGEBYSCORE] followed by [ZCARD], for every account; any failure
    counts every account as idle. *)
Definition fetchCounts (accountIDs : list Z) (now : instant) (w : world) : gmap Z Z * world :=
  match accountIDs with
  | [] => (∅, w)
  | _ =>
      let cmds := map (fun id => (key id, fun k =>
                    let k := drop_expired (Time.UnixMilli now) k in (zcard k, k))) accountIDs in
      match run_pipeline cmds w with
      | (inl values, w) => (list_to_map (rev (zip accountIDs values)), w)
      | (inr _, w) => (list_to_map (map (fun id => (id, 0)) accountIDs), w)
      end
  end.

Definition cached (id : Z) (now : instant) (p : proc) : option Z :=
  match countCache p with
  | Some cache => match cache !! id with
                  | Some (count, expires) => if Time.Before now expires then Some count else None
                  | None => None
                  end
  | None => None
  end.

Definition count_ttl : duration := 50 * Millisecond.

(** The counts, the cache and the server after the call.  [now], [now2] and
    [now3] are its three readings of the clock; concurrent callers share a
    flight, so the cache is read again inside it. *)
Definition GetCounts (accountIDs : list Z) (now now2 now3 : instant) (p : proc) (w : world) :
    gmap Z Z * proc * world :=
  let hits := omap (fun id => c ← cached id now p; Some (id, c)) accountIDs in
  let result : gmap Z Z := list_to_map hits in
  let missing := remove_dups (merge_sort (≤)%Z
                   (List.filter (fun id => match cached id now p with None => true | _ => false end)
                      accountIDs)) in
  match missing with
  | [] => (result, p, w)
  | _ =>
      let counts : gmap Z Z := list_to_map (omap (fun id => c ← cached id now2 p; Some (id, c)) missing) in
      let pending := List.filter (fun id => match cached id now2 p with None => true | _ => false end)
                       missing in
      let '(fetched, w) := fetchCounts pending now2 w in
      let cache : gmap Z (Z * instant) :=
        match countCache p with
        | Some c => if 65536 <? Z.of_nat (size c) then ∅ else c
        | None => ∅
        end in
      let cache := map_fold (fun id count c => <[id := (count, Time.Add now3 count_ttl)]> c)
                     cache fetched in
      (fetched ∪ counts ∪ result, mkProc (held p) (closed p) (Some cache), w)
  end.

(** [GetCountsChecked] ([conn_counts.go]): a failed read is reported instead
    of read as idle. *)
Definition GetCountsChecked (ctx_err : option go_error) (accountIDs : list Z) (now : instant)
    (w : world) : (gmap Z Z + go_error) * world :=
  match accountIDs with
  | [] => (match ctx_err with None => inl ∅ | Some err => inr err end, w)
  | _ =>
      let cmds := map (fun id => (key id, fun k =>
                    let k := drop_expired (Time.UnixMilli now) k in (zcard k, k))) accountIDs in
      match run_pipeline cmds w with
      | (inl values, w) => (inl (list_to_map (rev (zip accountIDs values))), w)
      | (inr err, w) => (inr err, w)
      end
  end.

(** [leases[start:min(start+n, len)]] for [start := 0; start < len; start += n]. *)
Fixpoint chunks {A} (fuel n : nat) (l : list A) : list (list A) :=
  match fuel, l with
  | _, [] => []
  | O, _ => []
  | Datatypes.S fuel, _ => take n l :: chunks fuel n (drop n l)
  end.

(** [renewBatch]: at most 256 leases a command and 128 commands a round
    trip; [stopped] is polled before each one. *)
Definition renewBatch (now : instant) (stopped : nat -> bool) (p : proc) (w : world) : world :=
  let batches := flat_map (fun '(id, leases) =>
                   map (fun ids => (id, ids)) (chunks (length leases) 256 leases))
                   (map_to_list (held p)) in
  let expiry := Time.UnixMilli (Time.Add now redisConnLeaseTTL) in
  let send '(i, stop, w) batch :=
    if stop || stopped i then (Datatypes.S i, true, w)
    else
      let cmds := map (fun '(id, ids) =>
                    (key id, renewConnBatchScript (server_ms w) expiry (ttl_ms * 2) ids)) batch in
      (Datatypes.S i, false, (run_pipeline cmds w).2) in
  (foldl send (0%nat, false, w) (chunks (length batches) 128 batches)).2.
End process.

(** *** Leases and the process that holds them *)

Section leases.
Context {S : LeaseServer} {L : LeaseServerLaws} (prefix : string).

Lemma acquire_once accountID limit lease now (w : world) :
  acquire_loop prefix 2 0 accountID limit lease now w
  = acquire_loop prefix 1 0 accountID limit lease now w.
Proof. cbn. destruct (run _ _ _) as [[v|e] w']; done. Qed.

Lemma run_view_same k f view : run_view k f view k = (f (view k)).2.
Proof. unfold run_view, set_view. by rewrite String.eqb_refl. Qed.

Lemma acquireScript_admits server limit now expiry lease pexpire k :
  (acquireScript server limit now expiry lease pexpire k).1 = 1 ->
  zscores (acquireScript server limit now expiry lease pexpire k).2 !! lease = Some expiry.
Proof. unfold acquireScript. destruct (_ && _); [done|]. intros _. apply lookup_insert_eq. Qed.

Lemma releaseScript_gone lease k : zscores (releaseScript lease k).2 !! lease = None.
Proof.
  destruct k as [|m e|]; cbn; [apply lookup_empty| |apply lookup_empty].
  rewrite zscores_zset. apply lookup_delete_eq.
Qed.

(** the second attempt the code announces never happens: an
    error reads as a zero result, and a zero result ends the loop.  So a
    lost connection on a free account turns the request away at once. *)
Theorem acquire_never_retries accountID limit lease now (p : proc) (w : world) :
  let '(_, reply, w', attempts) := acquire_loop prefix 2 0 accountID limit lease now w in
  attempts = 1%nat
  /\ (forall e, accountID <> 0 -> reply = inr e ->
       acquire prefix accountID limit lease now p w = (false, p, w')).
Proof.
  destruct (acquire_loop prefix 2 0 accountID limit lease now w) as [[[id reply] w'] n] eqn:E.
  split.
  - rewrite acquire_once in E. cbn in E. destruct (run _ _ _). by injection E.
  - intros e He ->. unfold acquire. rewrite E. by apply Z.eqb_neq in He as ->.
Qed.

(** a granted request owns a live lease of two minutes under its
    account and remembers it; giving it back - when the server answers -
    removes the lease and leaves the process as it was before, so nothing
    leaks.  A request that was refused owns nothing. *)
Theorem lease_round_trip accountID limit lease now (p p' : proc) (w w' : world)
    (Hacq : acquire prefix accountID limit lease now p w = (true, p', w')) :
  zscores (zview w' (key prefix accountID)) !! lease 0%nat
    = Some (Time.UnixMilli (Time.Add (now 0%nat) redisConnLeaseTTL))
  /\ held p' !! accountID = Some (default [] (held p !! accountID) ++ [lease 0%nat])
  /\ forall p'' w'' n,
       run (key prefix accountID) (releaseScript (lease 0%nat)) w' = (inl n, w'') ->
       Release_ prefix accountID p' w' = (p'', w'') ->
       zscores (zview w'' (key prefix accountID)) !! lease 0%nat = None
       /\ default [] (held p'' !! accountID) = default [] (held p !! accountID)
       /\ forall other, other <> accountID -> held p'' !! other = held p !! other.
Proof.
  unfold acquire in Hacq. destruct (accountID =? 0) eqn:E0; [done|].
  rewrite acquire_once in Hacq. cbn in Hacq.
  destruct (run _ _ w) as [reply w1] eqn:Er. cbn in Hacq.
  destruct reply as [v|e]; [|done].
  assert (v = 1) as ->.
  { destruct v as [|[?|?|]|]; try done. }
  destruct (closed p) eqn:Ecl; [by destruct (run _ _ w1)|].
  injection Hacq as <- <-.
  destruct (run_ok _ _ _ _ _ Er) as [H1 Hv].
  assert (Hh : forall d q, held (adjustCachedCount accountID d q) = held q).
  { intros d q. unfold adjustCachedCount. destruct (countCache q) as [c|]; [|done].
    destruct (c !! accountID) as [[]|]; done. }
  split_and!.
  - rewrite Hv, run_view_same. by apply acquireScript_admits.
  - rewrite Hh. cbn. apply lookup_insert_eq.
  - intros p'' w'' n Hrun Hrel. unfold Release_ in Hrel. rewrite E0, Hh in Hrel. cbn in Hrel.
    rewrite lookup_insert_eq in Hrel. cbn in Hrel. rewrite last_snoc, removelast_last, Hrun in Hrel.
    injection Hrel as <-. destruct (run_ok _ _ _ _ _ Hrun) as [_ Hv2]. rewrite Hh. cbn. split_and!.
    + rewrite Hv2, run_view_same. apply releaseScript_gone.
    + destruct (default [] (held p !! accountID)) as [|x l] eqn:Ed.
      * by rewrite lookup_delete_eq.
      * by rewrite lookup_insert_eq.
    + intros other Hne. destruct (default [] (held p !! accountID)) as [|x l].
      * by rewrite lookup_delete_ne, lookup_insert_ne.
      * by rewrite !lookup_insert_ne.
Qed.
End leases.

(** A server for evaluation: the keys of one process, a fixed clock, no
    failures. *)
Definition mem_server (ms : Z) : LeaseServer := {|
  world := string -> zkey;
  server_ms _ := ms;
  zview w := w;
  run k f w := (inl (f (w k)).1, run_view k f w);
  run_pipeline cmds w :=
    let '(ns, w) := foldl (fun '(ns, w) '(k, f) => (ns ++ [(f (w k)).1], run_view k f w)) ([], w) cmds in
    (inl ns, w)
|}.

Lemma mem_pipeline cmds (l0 : list Z) (w : string -> zkey) :
  exists ns, length ns = length cmds
    /\ foldl (fun '(ns, w) '(k, f) => (ns ++ [(f (w k)).1], run_view k f w)) (l0, w) cmds
       = (l0 ++ ns, foldl (fun v '(k, f) => run_view k f v) w cmds).
Proof.
  revert l0 w. induction cmds as [|[k f] cmds IH]; intros l0 w.
  - exists []. by rewrite app_nil_r.
  - cbn. destruct (IH (l0 ++ [(f (w k)).1]) (run_view k f w)) as (ns & Hl & ->).
    exists ((f (w k)).1 :: ns). cbn. by rewrite Hl, <- app_assoc.
Qed.

Lemma mem_server_laws ms : @LeaseServerLaws (mem_server ms).
Proof.
  split; cbn.
  - intros k f w n w' [= <- <-]. done.
  - done.
  - intros cmds w ns w'. destruct (mem_pipeline cmds [] w) as (ns0 & Hl & ->).
    by intros [= <- <-].
Qed.

Lemma lease_round_trip_witness :
  exists p w, acquire (S := mem_server 10) "conns:" 7 1 (fun _ => "a"%string) (fun _ => 0)
                (mkProc ∅ false None) (fun _ => ZNone) = (true, p, w)
    /\ held p !! 7 = Some ["a"%string].
Proof.
  destruct (acquire (S := mem_server 10) "conns:" 7 1 (fun _ => "a"%string) (fun _ => 0)
              (mkProc ∅ false None) (fun _ => ZNone)) as [[[] p] w] eqn:E.
  - exists p, w. split; [reflexivity|].
    exact (proj1 (proj2 (lease_round_trip (S := mem_server 10) (L := mem_server_laws 10)
                           "conns:" 7 1 _ _ _ _ _ _ E))).
  - exfalso. revert E. cbn. discriminate.
Defined.
End Leases.
