(* ===== verification/KeySlots.v ===== *)
(** What the key gate of the admission chain relies on when a tracker counts the
    requests of a key ([internal/loadbalancer/conn_tracker.go]), and that both
    trackers keep it: the counters in memory, and the leases every replica keeps
    in Redis, whichever of its calls fail.  A tracker gives keys negative ids. *)

From S2P Require Import Prelude ConnTracker.

(** * The interface

    [ks_own] is how many slots this process holds of a key and [ks_count] how
    many are taken in all; [ks_ok] is what the tracker keeps of itself. *)

Class KeySlots (T : Type) {Tr : ConnTracker T} {L : LimitedConnTracker T} := {
  ks_ok : T -> Prop;
  ks_own : Z -> T -> Z;
  ks_count : Z -> T -> Z;
  ks_counted tid t : ks_ok t -> tid < 0 -> 0 <= ks_own tid t <= ks_count tid t;
  ks_taken tid limit t t' : ks_ok t -> tid < 0 -> 0 < limit -> ks_count tid t < max_int64 ->
    tr_TryAcquire tid limit t = (true, t') ->
    ks_ok t' /\ ks_count tid t' <= limit
    /\ (forall j, j < 0 -> ks_own j t' = ks_own j t + one_if (j =? tid))
    /\ (forall j, j < 0 -> j <> tid -> ks_count j t' = ks_count j t);
  ks_refused tid limit t t' : ks_ok t -> tid < 0 -> 0 < limit -> ks_count tid t < max_int64 ->
    tr_TryAcquire tid limit t = (false, t') ->
    ks_ok t' /\ ks_count tid t' <= Z.max limit (ks_count tid t)
    /\ (forall j, j < 0 -> ks_own j t' = ks_own j t)
    /\ (forall j, j < 0 -> j <> tid -> ks_count j t' = ks_count j t);
  ks_released tid t : ks_ok t -> tid < 0 -> 0 < ks_own tid t -> ks_count tid t <= max_int64 ->
    let t' := tr_Release tid t in
    ks_ok t' /\ (forall j, j < 0 -> ks_own j t' = ks_own j t - one_if (j =? tid) /\ ks_count j t' <= ks_count j t)
}.

(** * The counters in memory

    One process, and every slot taken is its own: any tracker that counts
    exactly. *)

#[export] Instance exact_KeySlots {T} {Tr : ConnTracker T} {L : LimitedConnTracker T} {Slots : SlotLaws T} : KeySlots T.
Proof.
  refine {| ks_ok t := forall tid, tid < 0 -> 0 <= tr_GetCount tid t; ks_own := tr_GetCount; ks_count := tr_GetCount |}.
  - intros tid t Hok Htid. specialize (Hok tid Htid). lia.
  - intros tid limit t t' Hok Htid Hlimit Hmax E.
    destruct (sl_taken tid limit t t' Hlimit) as [Hlt Hall]; [by split; [apply Hok|]|done|]. split_and!.
    + intros j Hj. rewrite Hall. specialize (Hok j Hj). unfold one_if. destruct (j =? tid); lia.
    + rewrite Hall, Z.eqb_refl. cbn. lia.
    + by intros j _.
    + intros j _ Hne%Z.eqb_neq. rewrite Hall, Hne. cbn. lia.
  - intros tid limit t t' Hok Htid Hlimit Hmax E. pose proof (sl_refused tid limit t t' E) as Hall. split_and!.
    + intros j Hj. rewrite Hall. by apply Hok.
    + rewrite Hall. lia.
    + by intros j _.
    + by intros j _ _.
  - intros tid t Hok Htid Hown Hmax. cbv zeta. pose proof (sl_release tid t (conj Hown Hmax)) as Hall. split.
    + intros j Hj. rewrite Hall. specialize (Hok j Hj). destruct (Z.eqb_spec j tid) as [->|]; cbn [one_if]; lia.
    + intros j _. rewrite Hall. unfold one_if. destruct (j =? tid); lia.
Defined.

(** * The leases in Redis *)

Module Shared.
Import Leases.

(** The process's part, the server, the process's clock, and how many lease ids
    have been drawn. *)
Record tracker {S : LeaseServer} := mkTracker {
  s_proc : proc;
  s_server : world;
  s_now : instant;
  s_drawn : nat
}.
Arguments tracker S : clear implicits.

Section trackers.
Context {S : LeaseServer} (prefix : string) (names : nat -> string).

Definition now_ms (t : tracker S) : Z := Time.UnixMilli (s_now t).

(** [newRedisConnLeaseID], drawn anew at each attempt of [acquire]. *)
Definition acquires (tid limit : Z) (t : tracker S) : bool * tracker S :=
  let '(ok, p, w) := acquire prefix tid limit (fun i => names (s_drawn t + i)%nat) (fun _ => s_now t) (s_proc t) (s_server t) in
  (ok, mkTracker S p w (s_now t) (s_drawn t + 2)).

Definition releases (tid : Z) (t : tracker S) : tracker S :=
  let '(p, w) := Release_ prefix tid (s_proc t) (s_server t) in mkTracker S p w (s_now t) (s_drawn t).

Definition counts (ids : list Z) (t : tracker S) : gmap Z Z * tracker S :=
  let '(m, p, w) := GetCounts prefix ids (s_now t) (s_now t) (s_now t) (s_proc t) (s_server t) in
  (m, mkTracker S p w (s_now t) (s_drawn t)).

#[local] Instance ops : ConnTracker (tracker S) := {|
  tr_Acquire tid t := snd (acquires tid 0 t);
  tr_Release := releases;
  tr_GetCount tid t := fst (GetCount prefix tid (s_now t) (s_server t));
  tr_GetCounts := counts
|}.

#[local] Instance limited_ops : LimitedConnTracker (tracker S) := {| tr_TryAcquire := acquires |}.

(** ** The leases of a key that are alive *)

Definition alive (now : Z) (k : zkey) : gmap string Z := filter (fun '(_, score) => now < score) (zscores k).

Definition leases_of (tid : Z) (t : tracker S) : list string := default [] (held (s_proc t) !! tid).

Definition taken (tid : Z) (t : tracker S) : Z :=
  Z.of_nat (size (alive (now_ms t) (zview (s_server t) (key prefix tid)))).

(** What the process holds is alive, its names all differ, the ids still to be
    drawn are nobody's, and the process has not been shut down. *)
Record sound (t : tracker S) : Prop := {
  so_open : closed (s_proc t) = false;
  so_distinct tid : NoDup (leases_of tid t);
  so_alive tid lease : lease ∈ leases_of tid t ->
    is_Some (alive (now_ms t) (zview (s_server t) (key prefix tid)) !! lease);
  so_fresh tid n : (s_drawn t <= n)%nat -> zscores (zview (s_server t) (key prefix tid)) !! names n = None
}.

Context {Laws : LeaseServerLaws} {Drawn : Inj (=) (=) names}.

Lemma key_inj i j : key prefix i = key prefix j -> i = j.
Proof. intros H. apply (inj (String.append prefix)) in H. by apply Itoa_inj. Qed.

Lemma alive_lookup now k lease score : alive now k !! lease = Some score <-> zscores k !! lease = Some score /\ now < score.
Proof. unfold alive. by rewrite map_lookup_filter_Some. Qed.

(** A view of the server in which one key was moved by a script. *)
Lemma run_view_at k f view tid :
  run_view k f view (key prefix tid) = if decide (key prefix tid = k) then snd (f (view k)) else view (key prefix tid).
Proof. unfold run_view, set_view. case_decide as E; destruct (String.eqb_spec (key prefix tid) k); by rewrite ?E. Qed.

(** *** What the two scripts do to the live leases *)

Lemma alive_acquire server limit now expiry lease pexpire k :
  now < expiry ->
  let '(reply, k') := acquireScript server limit now expiry lease pexpire k in
  reply = 1 /\ alive now k' = <[lease := expiry]> (alive now k) /\ zscores k' = alive now k'
    /\ (0 < limit -> Z.of_nat (size (alive now k)) < limit)
  \/ reply = 0 /\ alive now k' = alive now k /\ zscores k' = alive now k.
Proof.
  intros Hexpiry. unfold acquireScript. set (k1 := match k with ZOther => ZNone | _ => k end).
  assert (Hdrop : zscores (drop_expired now k1) = alive now k) by (rewrite zscores_drop; by destruct k).
  assert (Hidem : filter (fun '(_, score) => now < score) (alive now k) = alive now k).
  { apply map_filter_id. intros i x H%alive_lookup. apply H. }
  unfold zcard. rewrite Hdrop. destruct ((0 <? limit) && _) eqn:E.
  - right. split; [done|]. split; [|done]. unfold alive at 1. by rewrite Hdrop.
  - left. split; [done|]. unfold alive at 1. cbn [zscores]. rewrite map_filter_insert_True, Hidem by done.
    split; [done|]. split; [by unfold alive at 2; cbn [zscores]; rewrite map_filter_insert_True, Hidem|]. intros Hl. apply andb_false_iff in E as [E|E]; to_prop; lia.
Qed.

Lemma alive_release now lease k : alive now (snd (releaseScript lease k)) = delete lease (alive now k).
Proof.
  unfold alive. rewrite <- map_filter_delete. f_equal.
  destruct k as [|m e|]; cbn; [by rewrite delete_empty|apply zscores_zset|by rewrite delete_empty].
Qed.
(** *** A call of [acquire] *)

Abbreviation view t tid := (zview (s_server t) (key prefix tid)).

(** The script let the lease in, or left the live leases as they were. *)
Definition admits (now limit : Z) (lease : string) (k k' : zkey) : Prop :=
  zscores k' = alive now k' /\ (0 < limit -> Z.of_nat (size (alive now k)) < limit)
  /\ exists expiry, alive now k' = <[lease := expiry]> (alive now k).

Definition keeps (now : Z) (k k' : zkey) : Prop :=
  alive now k' = alive now k /\ (zscores k' = zscores k \/ zscores k' = alive now k).

Record moved (tid limit : Z) (ok : bool) (t t' : tracker S) : Prop := {
  mv_now : s_now t' = s_now t;
  mv_open : closed (s_proc t') = closed (s_proc t);
  mv_drawn : s_drawn t' = (s_drawn t + 2)%nat;
  mv_other j : j <> tid -> view t' j = view t j;
  mv_held j : leases_of j t' = leases_of j t ++ (if ok && (j =? tid) then [names (s_drawn t)] else []);
  mv_view : admits (now_ms t) limit (names (s_drawn t)) (view t tid) (view t' tid)
    \/ ok = false /\ keeps (now_ms t) (view t tid) (view t' tid)
}.

Lemma held_adjusted tid d p : held (adjustCachedCount tid d p) = held p.
Proof. unfold adjustCachedCount. destruct (countCache p) as [c|]; [|done]. by destruct (c !! tid) as [[]|]. Qed.

Lemma closed_adjusted tid d p : closed (adjustCachedCount tid d p) = closed p.
Proof. unfold adjustCachedCount. destruct (countCache p) as [c|]; [|done]. by destruct (c !! tid) as [[]|]. Qed.

Lemma acquires_moved tid limit t ok t' :
  sound t -> tid <> 0 -> acquires tid limit t = (ok, t') -> moved tid limit ok t t'.
Proof.
  intros Hsound Htid%Z.eqb_neq. unfold acquires, acquire. rewrite Htid, acquire_once.
  cbn [acquire_loop]. rewrite Nat.add_0_r. fold (now_ms t).
  set (now := now_ms t). set (lease := names (s_drawn t)).
  set (expiry := Time.UnixMilli (Time.Add (s_now t) redisConnLeaseTTL)).
  assert (Hexpiry : now < expiry).
  { unfold now, expiry, now_ms, Time.UnixMilli, Time.Add.
    replace (s_now t + redisConnLeaseTTL - _) with (s_now t - 62135596800 * Second + 120000 * Millisecond) by (unfold redisConnLeaseTTL, Minute, Millisecond; lia).
    rewrite Z.div_add by done. lia. }
  set (script := acquireScript (server_ms (s_server t)) limit now expiry lease (ttl_ms * 2)).
  pose proof (alive_acquire (server_ms (s_server t)) limit now expiry lease (ttl_ms * 2) (view t tid) Hexpiry) as Hscript.
  fold script in Hscript.
  assert (Hran : forall w, (forall k', zview w k' = run_view (key prefix tid) script (zview (s_server t)) k') ->
    (forall j, j <> tid -> zview w (key prefix j) = view t j)
    /\ zview w (key prefix tid) = snd (script (view t tid))).
  { intros w Hw. split; [intros j Hj|]; rewrite Hw, run_view_at; [|by rewrite decide_True].
    rewrite decide_False; [done|]. by intros ?%key_inj. }
  destruct (run (key prefix tid) script (s_server t)) as [reply w] eqn:Er.
  assert (Hnone : forall j, leases_of j t = leases_of j t ++ []) by (intros; by rewrite app_nil_r).
  destruct reply as [v|e].
  - destruct (run_ok _ _ _ _ _ Er) as [-> [Hother Hkey]%Hran]. destruct (script (view t tid)) as [v k'] eqn:Es. cbn [fst snd] in *.
    destruct Hscript as [(-> & Ha & Hz & Hl)|(-> & Ha & Hz)].
    + rewrite (so_open t Hsound). intros [= <- <-]. split; cbn [s_now s_proc s_server s_drawn].
      * done.
      * rewrite closed_adjusted. by rewrite (so_open t Hsound).
      * done.
      * exact Hother.
      * intros j. unfold leases_of. cbn [s_proc]. rewrite held_adjusted. cbn [held andb].
        destruct (Z.eqb_spec j tid) as [->|Hne]; [by rewrite lookup_insert_eq|].
        by rewrite lookup_insert_ne, app_nil_r by done.
      * left. rewrite Hkey. split; [done|]. split; [done|]. by exists expiry.
    + intros [= <- <-]. split; first [done|exact Hnone|exact Hother|idtac]. right. split; [done|]. cbn [s_server]. rewrite Hkey. split; [done|by right].
  - destruct (run_err _ _ _ _ _ Er) as [Hsame|[Hother Hkey]%Hran].
    + intros [= <- <-]. split; first [done|exact Hnone|intros j _; apply Hsame|idtac]. right. split; [done|]. cbn [s_server]. rewrite Hsame.
      split; [done|by left].
    + destruct (script (view t tid)) as [v k'] eqn:Es. cbn [fst snd] in *. intros [= <- <-]. split; first [done|exact Hnone|exact Hother|idtac].
      cbn [s_server]. rewrite Hkey. destruct Hscript as [(_ & Ha & Hz & Hl)|(_ & Ha & Hz)].
      * left. split; [done|]. split; [done|]. by exists expiry.
      * right. split; [done|]. split; [done|by right].
Qed.
Lemma alive_of_fresh t tid n : sound t -> (s_drawn t <= n)%nat -> alive (now_ms t) (view t tid) !! names n = None.
Proof.
  intros Ht Hn. destruct (alive _ _ !! names n) as [score|] eqn:E; [|done].
  apply alive_lookup in E as [E _]. by rewrite (so_fresh t Ht tid n Hn) in E.
Qed.

Lemma lease_not_held t tid n : sound t -> (s_drawn t <= n)%nat -> names n ∉ leases_of tid t.
Proof. intros Ht Hn Hin. destruct (so_alive t Ht tid _ Hin) as [score E]. by rewrite alive_of_fresh in E. Qed.

Lemma moved_sound tid limit ok t t' : sound t -> moved tid limit ok t t' -> sound t'.
Proof.
  intros Ht [Hnow Hopen Hdrawn Hother Hheld Hview].
  assert (Hms : now_ms t' = now_ms t) by (unfold now_ms; by rewrite Hnow).
  split; rewrite ?Hms, ?Hdrawn.
  - rewrite Hopen. apply Ht.
  - intros j. rewrite Hheld. apply NoDup_app. split; [apply Ht|]. split; [|destruct (ok && _); repeat constructor; by intros ?%not_elem_of_nil].
    intros lease Hin. destruct (ok && _); [|apply not_elem_of_nil].
    intros ->%list_elem_of_singleton. by apply (lease_not_held t j (s_drawn t)) in Hin.
  - intros j lease. rewrite Hheld, elem_of_app. destruct (decide (j = tid)) as [->|Hne].
    + rewrite Z.eqb_refl, andb_true_r. destruct Hview as [(_ & _ & expiry & ->)|(-> & -> & _)].
      * intros [Hin|Hin]; apply lookup_insert_is_Some'; [right; by apply Ht|left].
        destruct ok; [|by apply not_elem_of_nil in Hin]. by apply list_elem_of_singleton in Hin.
      * intros [Hin|Hin]; [by apply Ht|by apply not_elem_of_nil in Hin].
    + rewrite Hother by done. apply Z.eqb_neq in Hne. rewrite Hne, andb_false_r.
      intros [Hin|Hin]; [by apply Ht|by apply not_elem_of_nil in Hin].
  - intros j n Hn. destruct (decide (j = tid)) as [->|Hne]; [|rewrite Hother by done; apply Ht; lia].
    destruct Hview as [(-> & _ & expiry & ->)|(_ & _ & [-> | ->])].
    + rewrite lookup_insert_ne; [apply alive_of_fresh; [done|lia]|]. intros ?%(inj names). lia.
    + apply Ht. lia.
    + apply alive_of_fresh; [done|lia].
Qed.

Lemma moved_taken tid limit ok t t' :
  0 < limit -> moved tid limit ok t t' ->
  taken tid t' <= Z.max limit (taken tid t) /\ (ok = true -> taken tid t' <= limit)
  /\ forall j, j <> tid -> taken j t' = taken j t.
Proof.
  intros Hl [Hnow Hopen Hdrawn Hother Hheld Hview].
  assert (Hms : now_ms t' = now_ms t) by (unfold now_ms; by rewrite Hnow). unfold taken. rewrite Hms.
  split_and!; [| |by intros j Hj; rewrite Hother].
  - destruct Hview as [(_ & Hroom & expiry & ->)|(_ & -> & _)]; [|lia].
    pose proof (zcard_insert (alive (now_ms t) (view t tid)) (names (s_drawn t)) expiry). specialize (Hroom Hl). lia.
  - intros ->. destruct Hview as [(_ & Hroom & expiry & ->)|(? & _)]; [|done].
    pose proof (zcard_insert (alive (now_ms t) (view t tid)) (names (s_drawn t)) expiry). specialize (Hroom Hl). lia.
Qed.

Definition own (tid : Z) (t : tracker S) : Z := Z.of_nat (length (leases_of tid t)).

Lemma moved_own tid limit ok t t' j :
  moved tid limit ok t t' -> own j t' = own j t + one_if (ok && (j =? tid)).
Proof. intros H. unfold own. rewrite (mv_held _ _ _ _ _ H), length_app. destruct (ok && _); cbn; lia. Qed.

(** A process's leases are distinct members of the live ones. *)
Lemma own_taken tid t : sound t -> own tid t <= taken tid t.
Proof.
  intros Ht. unfold own, taken. rewrite <- (size_dom (D := gset string)).
  rewrite <- (size_list_to_set (C := gset string)) by apply Ht. apply inj_le, subseteq_size.
  intros lease Hin%elem_of_list_to_set. apply elem_of_dom. by apply Ht.
Qed.

(** *** A call of [Release] *)

Record freed (tid : Z) (lease : string) (rest : list string) (t t' : tracker S) : Prop := {
  fr_now : s_now t' = s_now t;
  fr_open : closed (s_proc t') = closed (s_proc t);
  fr_drawn : s_drawn t' = s_drawn t;
  fr_other j : j <> tid -> view t' j = view t j;
  fr_held j : leases_of j t' = if j =? tid then rest else leases_of j t;
  fr_view : view t' tid = view t tid \/ view t' tid = snd (releaseScript lease (view t tid))
}.

Lemma releases_freed tid rest lease t :
  tid <> 0 -> leases_of tid t = rest ++ [lease] -> freed tid lease rest t (releases tid t).
Proof.
  intros Htid%Z.eqb_neq Hl. unfold releases, Release_. rewrite Htid. fold (leases_of tid t).
  rewrite Hl, last_snoc, removelast_last. set (p := mkProc _ _ _).
  assert (Hp : forall j, default [] (held p !! j) = if j =? tid then rest else leases_of j t).
  { intros j. unfold p. cbn [held]. destruct (Z.eqb_spec j tid) as [->|Hne].
    - destruct rest; [by rewrite lookup_delete_eq|by rewrite lookup_insert_eq].
    - destruct rest; [by rewrite lookup_delete_ne|by rewrite lookup_insert_ne]. }
  assert (Hran : forall w, (forall k', zview w k' = run_view (key prefix tid) (releaseScript lease) (zview (s_server t)) k') ->
    (forall j, j <> tid -> zview w (key prefix j) = view t j)
    /\ zview w (key prefix tid) = snd (releaseScript lease (view t tid))).
  { intros w Hw. split; [intros j Hj|]; rewrite Hw, run_view_at; [|by rewrite decide_True].
    rewrite decide_False; [done|]. by intros ?%key_inj. }
  destruct (run _ _ _) as [[v|e] w] eqn:Er.
  - destruct (run_ok _ _ _ _ _ Er) as [_ [Hother Hkey]%Hran]. split; cbn [s_now s_proc s_server s_drawn]; try done.
    + by rewrite closed_adjusted.
    + intros j. unfold leases_of. cbn [s_proc]. by rewrite held_adjusted.
    + by right.
  - destruct (run_err _ _ _ _ _ Er) as [Hsame|[Hother Hkey]%Hran]; split; try done; try (intros; apply Hsame).
    + left. apply Hsame.
    + by right.
Qed.

Lemma zscores_release lease k : zscores (snd (releaseScript lease k)) = delete lease (zscores k).
Proof. destruct k; cbn; [by rewrite delete_empty|apply zscores_zset|by rewrite delete_empty]. Qed.

Lemma freed_sound tid lease rest t t' :
  sound t -> leases_of tid t = rest ++ [lease] -> freed tid lease rest t t' ->
  sound t' /\ forall j, own j t' = own j t - one_if (j =? tid) /\ taken j t' <= taken j t.
Proof.
  intros Ht Hl [Hnow Hopen Hdrawn Hother Hheld Hview].
  assert (Hms : now_ms t' = now_ms t) by (unfold now_ms; by rewrite Hnow).
  pose proof (so_distinct t Ht tid) as Hnd. rewrite Hl in Hnd. apply NoDup_app in Hnd as (Hnd & Hnin & _).
  split; [split; rewrite ?Hms, ?Hdrawn|].
  - rewrite Hopen. apply Ht.
  - intros j. rewrite Hheld. destruct (j =? tid); [done|apply Ht].
  - intros j lease'. rewrite Hheld. destruct (Z.eqb_spec j tid) as [->|Hne]; [|rewrite Hother by done; apply Ht].
    intros Hin. assert (is_Some (alive (now_ms t) (view t tid) !! lease')) as Halive.
    { apply Ht. rewrite Hl. apply elem_of_app. by left. }
    destruct Hview as [-> | ->]; [done|]. rewrite alive_release, lookup_delete_ne; [done|].
    intros <-. apply (Hnin _ Hin). left.
  - intros j n Hn. destruct (decide (j = tid)) as [->|Hne]; [|rewrite Hother by done; by apply Ht].
    destruct Hview as [-> | ->]; [by apply Ht|]. rewrite zscores_release. apply lookup_delete_None. right. by apply Ht.
  - intros j. split.
    + unfold own. rewrite Hheld. destruct (Z.eqb_spec j tid) as [->|]; cbn [one_if]; [|lia]. rewrite Hl, length_app. cbn. lia.
    + unfold taken. rewrite Hms. destruct (decide (j = tid)) as [->|Hne]; [|by rewrite Hother].
      destruct Hview as [-> | ->]; [done|]. rewrite alive_release.
      pose proof (map_subseteq_size _ _ (delete_subseteq (alive (now_ms t) (view t tid)) lease)). lia.
Qed.

Lemma releases_sound tid t : sound t -> tid <> 0 -> 0 < own tid t ->
  let t' := releases tid t in
  sound t' /\ forall j, own j t' = own j t - one_if (j =? tid) /\ taken j t' <= taken j t.
Proof.
  intros Ht Htid Hown. destruct (exists_last (l := leases_of tid t)) as (rest & lease & Hl).
  { intros E. unfold own in Hown. by rewrite E in Hown. }
  by apply (freed_sound tid lease rest), releases_freed.
Qed.

(** The Redis tracker keeps the promise, whichever calls fail. *)
#[local] Instance slots : KeySlots (tracker S).
Proof.
  refine {| ks_ok := sound; ks_own := own; ks_count := taken |}.
  - intros tid t Ht _. split; [unfold own; lia|by apply own_taken].
  - intros tid limit t t' Ht Hneg Hlimit _ E.
    pose proof (acquires_moved tid limit t true t' Ht ltac:(lia) E) as Hm.
    destruct (moved_taken tid limit true t t' Hlimit Hm) as (_ & H1 & H2). split_and!.
    + by eapply moved_sound.
    + by apply H1.
    + intros j _. by apply (moved_own tid limit true).
    + intros j _. by apply H2.
  - intros tid limit t t' Ht Hneg Hlimit _ E.
    pose proof (acquires_moved tid limit t false t' Ht ltac:(lia) E) as Hm.
    destruct (moved_taken tid limit false t t' Hlimit Hm) as (H1 & _ & H2). split_and!.
    + by eapply moved_sound.
    + exact H1.
    + intros j _. rewrite (moved_own tid limit false t t' j Hm). cbn. lia.
    + intros j _. by apply H2.
  - intros tid t Ht Hneg Hown _. destruct (releases_sound tid t Ht ltac:(lia) Hown) as [H1 H2].
    split; [exact H1|]. intros j _. apply H2.
Defined.

(** When the server answers, the count it gives is that of the live leases. *)
Lemma GetCount_taken tid t n w :
  run (key prefix tid) (countScript (now_ms t)) (s_server t) = (inl n, w) -> tr_GetCount tid t = taken tid t.
Proof.
  intros E. cbn [tr_GetCount ops]. unfold GetCount. fold (now_ms t). rewrite E. cbn [fst].
  destruct (run_ok _ _ _ _ _ E) as [-> _]. unfold taken, alive.
  destruct (view t tid); cbn [countScript fst zscores]; [reflexivity| |by rewrite map_filter_empty].
  unfold zcard. by rewrite zscores_drop.
Qed.
End trackers.
End Shared.
