(* ===== verification/LoadBalancer.v ===== *)
(** The account pool: snapshot cache, candidate scan, availability verdicts and
    weighted least-connections selection
    ([internal/loadbalancer/loadbalancer.go]). *)

From S2P Require Import Prelude GoFloat UpstreamErrors Channel Account AccountPolicy ConnTracker.

(** ** What the pool needs of the account store *)

Class PoolStore (St : Type) := {
  st_GetEnabledAccounts : St -> list Account + go_error;
  st_ClaimGrokPaidQuotaProbe : Z -> instant -> St -> (bool + go_error) * St;
  st_UpdateAccount : Account -> St -> option go_error * St
}.

(** ** State

    Snapshot entries are pointers: the cached slice, its per-channel views and
    the callers share the accounts, so they live in a heap. *)

Abbreviation ptr := positive (only parsing).

(** A slice value: the array it starts in and the elements. *)
Record slice := mkSlice { sl_array : Z; sl_elems : list ptr }.

Record LoadBalancer (St T : Type) := mkLB {
  Store : option St;
  heap : gmap ptr Account;
  next_ptr : ptr;
  next_array : Z;
  cachedAccounts : slice;
  cachedByChannel : option (gmap string (list ptr));
  cacheExpires : instant;
  cacheTTL : duration;
  connTracker : T;
  scanCursor : Z;
  lastSelected : gmap Z instant;
  polls : nat
}.
Arguments mkLB {St T}. Arguments Store {St T}. Arguments heap {St T}. Arguments next_ptr {St T}.
Arguments next_array {St T}. Arguments cachedAccounts {St T}. Arguments cachedByChannel {St T}.
Arguments cacheExpires {St T}. Arguments cacheTTL {St T}. Arguments connTracker {St T}.
Arguments scanCursor {St T}. Arguments lastSelected {St T}. Arguments polls {St T}.

#[export] Instance LoadBalancer_eta St T : Eta (LoadBalancer St T) := fun r =>
  mkLB (Store r) (heap r) (next_ptr r) (next_array r) (cachedAccounts r) (cachedByChannel r)
    (cacheExpires r) (cacheTTL r) (connTracker r) (scanCursor r) (lastSelected r) (polls r).

(** The parts of the model that are not Go fields: [heap], [next_ptr] and
    [next_array] are the memory, [polls] counts the reads of [ctx.Err]. *)

(** *** Limits *)

Definition DefaultAccountConcurrency : Z := 10.

Definition EffectiveAccountConcurrencyLimit (acc : option Account) : Z :=
  match acc with
  | None => 0
  | Some a =>
      if 0 <? MaxConcurrent a then MaxConcurrent a
      else if IsSupported (AccountType a) then DefaultAccountConcurrency else 0
  end.

Definition accountScanWindow : Z := 64.

(** ** The state monad of the pool *)

Section monad.
Context {St T : Type}.
Definition M (A : Type) : Type := LoadBalancer St T -> A * LoadBalancer St T.
Definition ret {A} (a : A) : M A := fun lb => (a, lb).
Definition bind {A B} (m : M A) (f : A -> M B) : M B := fun lb => let '(a, lb) := m lb in f a lb.
Definition get {A} (f : LoadBalancer St T -> A) : M A := fun lb => (f lb, lb).
Definition modify (f : LoadBalancer St T -> LoadBalancer St T) : M unit := fun lb => (tt, f lb).

Definition deref (p : ptr) : M Account := get (fun lb => default zero_account (heap lb !! p)).
Definition assign (p : ptr) (f : Account -> Account) : M unit :=
  modify (fun lb => lb <| heap := <[p := f (default zero_account (heap lb !! p))]> (heap lb) |>).
Definition new (a : Account) : M ptr := fun lb =>
  (next_ptr lb, lb <| heap := <[next_ptr lb := a]> (heap lb) |> <| next_ptr := Pos.succ (next_ptr lb) |>).

Fixpoint mapM_ {A B} (f : A -> M B) (l : list A) : M (list B) :=
  match l with
  | [] => ret []
  | x :: l => bind (f x) (fun y => bind (mapM_ f l) (fun ys => ret (y :: ys)))
  end.
End monad.

Notation "'let*' x ':=' e 'in' k" := (bind e (fun x => k))
  (at level 10, x name, e at level 100, k at level 200) : go_scope.
Notation "'do*' e 'in' k" := (bind e (fun _ => k))
  (at level 10, e at level 100, k at level 200) : go_scope.

(** ** Operations *)

(** [context.Context]: what the [n]-th poll of [ctx.Err] answers, as the cause
    of the cancellation. *)
Abbreviation context := (nat -> option go_error).

(** An [AccountFilter]'s reason: one of the two model verdicts, or another
    error.  [nil] is [None]. *)
Inductive rejection := ErrModelThrottled | ErrModelUnavailable | ErrOther.

(** A filter sees the batch [Prepare] was given for the pass. *)
Abbreviation AccountFilter := (list Account -> Account -> option rejection).

(** The reasons one pass counted. *)
Record counters := mkCounters {
  channelCandidates : Z;
  channelMatched : Z;
  rateLimitedUnavailable : Z;
  allowanceParked : Z;
  restrictedUnavailable : Z;
  filterWithheld : Z;
  filterThrottled : Z;
  filterUnavailable : Z
}.

#[export] Instance counters_eta : Eta counters := fun r =>
  mkCounters (channelCandidates r) (channelMatched r) (rateLimitedUnavailable r)
    (allowanceParked r) (restrictedUnavailable r) (filterWithheld r) (filterThrottled r)
    (filterUnavailable r).

Section pool.
Context {St T : Type} {Ops : PoolStore St} {Tr : ConnTracker T}.
Local Abbreviation M := (@M St T).

Definition NewWithCacheTTL (s : option St) (ttl : duration) (tracker : T) : LoadBalancer St T :=
  mkLB s ∅ 1%positive 1 (mkSlice 0 []) None Time.zero (if ttl <=? 0 then 5 * Second else ttl)
    tracker 0 ∅ 0.

Definition rotateScanCursor (size : Z) : M Z := fun lb =>
  if size <=? 0 then (0, lb)
  else
    let start := Z.rem (scanCursor lb) size in
    (start, lb <| scanCursor := Z.rem (start + accountScanWindow) size |>).

Definition SetConnTracker (ct : T) : M unit := modify (fun lb => lb <| connTracker := ct |>).

(** *** The snapshot *)

Definition cachedAccountsBefore (now : instant) (lb : LoadBalancer St T) : option slice :=
  if (0 <? length (sl_elems (cachedAccounts lb)))%nat && Time.Before now (cacheExpires lb)
  then Some (cachedAccounts lb) else None.

(** [append] to the list under [k]. *)
Definition append_under (k : string) (p : ptr) (m : gmap string (list ptr)) :
    gmap string (list ptr) := <[k := default [] (m !! k) ++ [p]]> m.

Definition by_channel (m : gmap string (list ptr)) (pa : ptr * Account) : gmap string (list ptr) :=
  let '(p, acc) := pa in
  let typ := ToLower (AccountType acc) in
  let mode := ToLower (AgentMode acc) in
  let m := if negb (is_empty typ) then append_under typ p m else m in
  if negb (is_empty mode) && negb (String.eqb mode typ) then append_under mode p m else m.

(** [now] is the read at entry, [now'] the one at the store's answer. *)
Definition getEnabledAccounts (now now' : instant) : M (slice + go_error) := fun lb =>
  match cachedAccountsBefore now lb with
  | Some accounts => (inl accounts, lb)
  | None =>
      match Store lb with
      | None => (inr (Errorf "store not configured"), lb)
      | Some s =>
          match st_GetEnabledAccounts s with
          | inr err => (inr err, lb)
          | inl rows =>
              let '(ps, lb) := mapM_ new rows lb in
              let accounts := mkSlice (next_array lb) ps in
              (inl accounts,
               lb <| next_array := next_array lb + 1 |> <| cachedAccounts := accounts |>
                  <| cachedByChannel := Some (foldl by_channel ∅ (zip ps rows)) |>
                  <| cacheExpires := Time.Add now' (cacheTTL lb) |>)
          end
      end
  end.

Definition InvalidateAccounts (ids : list Z) : M unit := fun lb =>
  let changed := List.filter (fun id => negb (id =? 0)) ids in
  match changed with
  | [] => (tt, lb)
  | _ =>
      let lb := lb <| cacheExpires := Time.zero |> <| cachedByChannel := None |> in
      match sl_elems (cachedAccounts lb) with
      | [] => (tt, lb)
      | elems =>
          let kept := List.filter (fun p =>
            negb (existsb (Z.eqb (ID (default zero_account (heap lb !! p)))) changed)) elems in
          (tt, lb <| cachedAccounts := mkSlice (next_array lb) kept |>
                  <| next_array := next_array lb + 1 |>)
      end
  end.

(** *** Verdicts *)

Definition cooldownElapsed (lastAttempt : instant) (cooldown : duration) (now : instant) : bool :=
  if Time.IsZero lastAttempt then false else cooldown <=? Time.Sub now lastAttempt.

Definition resetAccountRuntimeState (acc : Account) : Account :=
  acc <| StatusCode := "" |> <| StatusMessage := "" |> <| LastAttempt := Time.zero |>
      <| QuotaResetAt := Time.zero |> <| RateLimitFailures := 0 |>.

Definition cachedAccountLocked (id : Z) (lb : LoadBalancer St T) : option ptr :=
  List.find (fun p => ID (default zero_account (heap lb !! p)) =? id) (sl_elems (cachedAccounts lb)).

(** The outcome is only logged. *)
Definition persistAccountStatus (p : ptr) : M unit := fun lb =>
  match Store lb with
  | None => (tt, lb)
  | Some s =>
      let '(_, s) := st_UpdateAccount (default zero_account (heap lb !! p)) s in
      (tt, lb <| Store := Some s |>)
  end.

Definition update_cached (id : Z) (f : Account -> Account) : M unit :=
  let* c := get (cachedAccountLocked id) in
  match c with Some cached => assign cached f | None => ret tt end.

Definition clearAccountStatus (p : ptr) : M unit :=
  do* assign p resetAccountRuntimeState in
  let* acc := deref p in
  do* update_cached (ID acc) resetAccountRuntimeState in
  persistAccountStatus p.

Definition PersistAppliedAccountStatus (p : option ptr) : M unit := fun lb =>
  match p, Store lb with
  | Some p, Some _ =>
      (let* acc := deref p in
       do* update_cached (ID acc) (fun cached =>
             cached <| StatusCode := StatusCode acc |> <| StatusMessage := StatusMessage acc |>
                    <| LastAttempt := LastAttempt acc |> <| AuthStatus := AuthStatus acc |>
                    <| RateLimitFailures := RateLimitFailures acc |>
                    <| QuotaResetAt := QuotaResetAt acc |> <| VerifiedAt := VerifiedAt acc |>
                    <| WorkBuddyRestrictedUntil := WorkBuddyRestrictedUntil acc |>) in
       persistAccountStatus p) lb
  | _, _ => (tt, lb)
  end.

(** The row after [MarkAccountStatus] wrote [status] into it. *)
Definition marked (now : instant) (status : string) (acc : Account) : Account :=
  let acc := acc <| StatusCode := status |> <| LastAttempt := now |> in
  let acc := acc <| RateLimitFailures := if String.eqb status "429" then RateLimitFailures acc else 0 |>
                 <| AuthStatus := if String.eqb status "401" then AccountAuthStatusReauthRequired
                                  else AuthStatus acc |> in
  if String.eqb status "429" then
    let failures := i64 (RateLimitFailures acc + 1) in
    let cooldown := RateLimitCooldown failures in
    acc <| RateLimitFailures := failures |>
        <| QuotaResetAt := if Time.IsZero (QuotaResetAt acc)
                              || Time.Before (QuotaResetAt acc) (Time.Add now cooldown)
                           then Time.Add now cooldown else QuotaResetAt acc |>
  else acc.

Definition MarkAccountStatus (now : instant) (p : option ptr) (status : string) : M unit := fun lb =>
  match p, Store lb with
  | Some p, Some _ =>
      if is_empty status then (tt, lb)
      else
        (do* assign p (marked now status) in
         let* acc := deref p in
         do* update_cached (ID acc) (fun cached =>
               cached <| StatusCode := status |> <| LastAttempt := now |>
                      <| AuthStatus := AuthStatus acc |>
                      <| RateLimitFailures := RateLimitFailures acc |>
                      <| QuotaResetAt := QuotaResetAt acc |>) in
         persistAccountStatus p) lb
  | _, _ => (tt, lb)
  end.

(** *** Availability *)

(** What the status of a row says: not now, yes, or yes and forget the
    status. *)
Inductive verdict := Unavailable | Available | Recovered.

Definition recover_if (b : bool) : verdict := if b then Recovered else Unavailable.

Definition status_verdict (now : instant) (acc : Account) : verdict :=
  let status := TrimSpace (StatusCode acc) in
  if is_empty status then Available
  else if String.eqb status AccountStatusWorkBuddyQuotaExhausted then
    if negb (EqualFold (TrimSpace (AccountType acc)) "workbuddy") then Unavailable
    else if f64_ltb f64_zero (UsageCurrent acc) then Recovered else Available
  else if String.eqb status "401" then Unavailable
  else if String.eqb status "429" then
    if Time.IsZero (LastAttempt acc) then Unavailable
    else recover_if (negb (AccountHeld (Some acc) now))
  else if String.eqb status "402" then
    let periodEnd := PeriodEnd (GrokBilling acc) in
    if GrokBuildAccountIsPaid (Some acc) && negb (Time.IsZero periodEnd)
    then recover_if (negb (Time.Before now periodEnd))
    else if negb (Time.IsZero (QuotaResetAt acc))
    then recover_if (negb (Time.Before now (QuotaResetAt acc)))
    else recover_if (cooldownElapsed (LastAttempt acc) CooldownPayment now)
  else if String.eqb status "403" || String.eqb status "404" then
    let cooldown := if EqualFold (AccountType acc) "grok" then CooldownBlockedGro
                    else CooldownBlocked in
    recover_if (cooldownElapsed (LastAttempt acc) cooldown now)
  else recover_if (cooldownElapsed (LastAttempt acc) CooldownAuth now).

(** What stands before the status: the credential, a restriction, and the
    probe of an exhausted paid account. *)
Inductive gate := Closed | Open | NeedsProbe.

Definition gate_of (now : instant) (acc : Account) : gate :=
  if negb (AccountAuthActive (Some acc)) then Closed
  else if Time.After (WorkBuddyRestrictionUntil (Some acc)) now then Closed
  else if GrokBuildAccountIsPaid (Some acc) && IsExhausted (GrokBilling acc) then
    let periodEnd := PeriodEnd (GrokBilling acc) in
    if Time.IsZero periodEnd || Time.Before now periodEnd then Closed else NeedsProbe
  else Open.

Definition claim_probe (now : instant) (id : Z) : M bool := fun lb =>
  match Store lb with
  | None => (false, lb)
  | Some s =>
      let '(reply, s) := st_ClaimGrokPaidQuotaProbe id now s in
      (match reply with inl claimed => claimed | inr _ => false end, lb <| Store := Some s |>)
  end.

Definition isAccountAvailable (now : instant) (p : ptr) : M bool :=
  let* acc := deref p in
  let* admitted := match gate_of now acc with
                   | Closed => ret false
                   | Open => ret true
                   | NeedsProbe => claim_probe now (ID acc)
                   end in
  if negb admitted then ret false
  else match status_verdict now acc with
       | Unavailable => ret false
       | Available => ret true
       | Recovered => do* clearAccountStatus p in ret true
       end.

(** *** The scan *)

Definition no_counters : counters := mkCounters 0 0 0 0 0 0 0 0.

Definition poll (ctx : context) : M (option go_error) := fun lb =>
  (ctx (polls lb), lb <| polls := S (polls lb) |>).

(** The account is of the channel the request asks for ([""] asks for any). *)
Definition of_channel (channel : string) (acc : Account) : bool :=
  if is_empty channel then true
  else if is_empty (TrimSpace (AccountType acc)) then false
  else EqualFold (AccountType acc) channel || EqualFold (AgentMode acc) channel.

Definition count_rejection (why : rejection) (c : counters) : counters :=
  let c := c <| filterWithheld := filterWithheld c + 1 |> in
  match why with
  | ErrModelUnavailable => c <| filterUnavailable := filterUnavailable c + 1 |>
  | ErrModelThrottled => c <| filterThrottled := filterThrottled c + 1 |>
  | ErrOther => c
  end.

Definition count_unavailable (now : instant) (acc : Account) (c : counters) : counters :=
  let c := if Time.After (WorkBuddyRestrictionUntil (Some acc)) now
           then c <| restrictedUnavailable := restrictedUnavailable c + 1 |> else c in
  let status := TrimSpace (StatusCode acc) in
  if String.eqb status "429" then c <| rateLimitedUnavailable := rateLimitedUnavailable c + 1 |>
  else if String.eqb status "402" then c <| allowanceParked := allowanceParked c + 1 |>
  else c.

Record request := mkRequest {
  r_ctx : context;
  r_exclude : list Z;
  r_channel : string;
  r_filter : option AccountFilter;
  r_prepare : option (list Account -> option go_error)
}.

(** The loop of [scan] over the candidates of one pass. *)
Fixpoint scan_loop (now : instant) (r : request) (batch : list Account)
    (candidates filtered : list ptr) (c : counters) : M ((list ptr * counters) + go_error) :=
  match candidates with
  | [] => ret (inl (filtered, c))
  | p :: rest =>
      let* cancelled := poll (r_ctx r) in
      match cancelled with
      | Some err => ret (inr err)
      | None =>
          let* acc := deref p in
          if existsb (Z.eqb (ID acc)) (r_exclude r) || negb (of_channel (r_channel r) acc)
          then scan_loop now r batch rest filtered c
          else
            let c := c <| channelCandidates := channelCandidates c + 1 |> in
            match (filter ← r_filter r; filter batch acc) with
            | Some why => scan_loop now r batch rest filtered (count_rejection why c)
            | None =>
                let c := c <| channelMatched := channelMatched c + 1 |> in
                let* ok := isAccountAvailable now p in
                if ok then scan_loop now r batch rest (filtered ++ [p]) c
                else
                  let* acc := deref p in
                  scan_loop now r batch rest filtered (count_unavailable now acc c)
            end
      end
  end.

Definition clone_ptr (p : ptr) : M ptr :=
  let* acc := deref p in new (default zero_account (Clone (Some acc))).

(** One pass over [candidates]. *)
Definition scan (now : instant) (r : request) (candidates : list ptr) :
    M ((list ptr * counters) + go_error) :=
  let* cancelled := poll (r_ctx r) in
  match cancelled with
  | Some err => ret (inr err)
  | None =>
      let* candidates := if EqualFold (r_channel r) "grok" then mapM_ clone_ptr candidates
                         else ret candidates in
      let* batch := mapM_ deref candidates in
      match (prepare ← r_prepare r; prepare batch) with
      | Some err => ret (inr err)
      | None => scan_loop now r batch candidates [] no_counters
      end
  end.

(** The rotating window of a pool larger than it. *)
Definition window (accounts : list ptr) (start : Z) : list ptr :=
  omap (fun offset => accounts !! Z.to_nat (Z.rem (start + Z.of_nat offset) (Z.of_nat (length accounts))))
    (seq 0 (Z.to_nat accountScanWindow)).

(** *** Selection *)

Definition connections (counts : gmap Z Z) (acc : Account) : Z := default 0 (counts !! ID acc).

Definition at_limit (counts : gmap Z Z) (acc : Account) : bool :=
  let limit := EffectiveAccountConcurrencyLimit (Some acc) in
  (0 <? limit) && (limit <=? connections counts acc).

Definition score (counts : gmap Z Z) (acc : Account) : float64 :=
  let weight := if Weight acc <=? 0 then 1 else Weight acc in
  f64_div (f64_of_int (connections counts acc)) (f64_of_int weight).

(** The positions of the least loaded accounts and their score. *)
Definition best_step (counts : gmap Z Z) (st : list nat * float64) (ia : nat * Account) :
    list nat * float64 :=
  let '(best, minScore) := st in
  let '(i, acc) := ia in
  if at_limit counts acc then st
  else
    let s := score counts acc in
    match best with
    | [] => ([i], s)
    | _ => if f64_ltb s minScore then ([i], s)
           else if f64_eqb s minScore then (best ++ [i], minScore)
           else st
    end.

Definition least_loaded (counts : gmap Z Z) (accs : list Account) : list nat :=
  (foldl (best_step counts) ([], f64_of_int (-1)) (imap pair accs)).1.

(** Among the best: those never handed out, else those idle longest. *)
Definition cold_step (last : gmap Z instant) (accs : list Account)
    (st : list nat * list nat * instant) (i : nat) : list nat * list nat * instant :=
  let '(unseen, coldest, oldest) := st in
  match last !! ID (default zero_account (accs !! i)) with
  | None => (unseen ++ [i], coldest, oldest)
  | Some t =>
      match coldest with
      | [] => (unseen, [i], t)
      | _ => if Time.Before t oldest then (unseen, [i], t)
             else if Time.Equal t oldest then (unseen, coldest ++ [i], oldest)
             else st
      end
  end.

Definition coldest_of (last : gmap Z instant) (accs : list Account) (best : list nat) : list nat :=
  let '(unseen, coldest, _) := foldl (cold_step last accs) ([], [], Time.zero) best in
  match unseen, coldest with
  | _ :: _, _ => unseen
  | [], _ :: _ => coldest
  | [], [] => best
  end.

(** Selection within one window.  [pick n] is [rand.IntN(n)]; the tracker is
    the caller's, and comes back with the cache the read may have filled. *)
Definition select_window (now : instant) (pick : nat -> nat) (ps : list ptr) (tracker : T) :
    M (option ptr * T) :=
  match ps with
  | [] => ret (None, tracker)
  | _ =>
      let* accs := mapM_ deref ps in
      let '(counts, tracker) := tr_GetCounts (map ID accs) tracker in
      match least_loaded counts accs with
      | [] => ret (None, tracker)
      | best =>
          let* last := get lastSelected in
          let pool := coldest_of last accs best in
          let i := default 0%nat (pool !! pick (length pool)) in
          match ps !! i with
          | None => ret (None, tracker)
          | Some picked =>
              let* acc := deref picked in
              do* modify (fun lb => lb <| lastSelected := <[ID acc := now]> (lastSelected lb) |>) in
              ret (Some picked, tracker)
          end
      end
  end.

(** [for offset := 0; offset < len; offset += window]. *)
Fixpoint select_windows (fuel : nat) (now : instant) (pick : nat -> nat) (accounts : list ptr)
    (start offset : Z) (tracker : T) : M (option ptr * T) :=
  match fuel with
  | O => ret (None, tracker)
  | S fuel =>
      let size := Z.of_nat (length accounts) in
      if size <=? offset then ret (None, tracker)
      else
        let n := Z.min accountScanWindow (size - offset) in
        let ps := omap (fun i => accounts !! Z.to_nat (Z.rem (start + offset + Z.of_nat i) size))
                    (seq 0 (Z.to_nat n)) in
        let* res := select_window now pick ps tracker in
        match res with
        | (Some picked, tracker) => ret (Some picked, tracker)
        | (None, tracker) =>
            select_windows fuel now pick accounts start (offset + accountScanWindow) tracker
        end
  end.

Definition selectAccountWithTracker (now : instant) (pick : nat -> nat) (accounts : list ptr)
    (tracker : T) : M (option ptr * T) :=
  match accounts with
  | [] => ret (None, tracker)
  | _ =>
      if accountScanWindow <? Z.of_nat (length accounts) then
        let* start := rotateScanCursor (Z.of_nat (length accounts)) in
        select_windows (length accounts) now pick accounts start 0 tracker
      else select_window now pick accounts tracker
  end.

(** *** The whole selection *)

Definition no_accounts (channel : string) : string :=
  "no enabled accounts available for channel: " +:+ channel.

(** The error of an empty pool. *)
Definition pool_error (channel : string) (c : counters) : string :=
  let named := negb (is_empty channel) in
  if named && (0 <? channelCandidates c) && (channelMatched c =? 0) then
    if (0 <? filterUnavailable c) && (filterThrottled c =? 0)
       && (filterUnavailable c =? filterWithheld c)
    then no_accounts channel +:+
           " (the requested model is not covered by any matching account's plan)"
    else if (0 <? filterThrottled c) && (0 <? filterUnavailable c)
    then no_accounts channel +:+
           " (the requested model is cooling down on some matching accounts and not covered by the plans of the rest)"
    else no_accounts channel +:+
           " (all matching accounts are cooling down for the requested model)"
  else if String.eqb channel "workbuddy" && (0 <? channelMatched c)
          && (restrictedUnavailable c =? channelMatched c)
  then no_accounts channel +:+
         " (workbuddy API error: status=403, code=11140, message=all matching accounts are restricted)"
  else if named && (0 <? channelMatched c) && (rateLimitedUnavailable c =? channelMatched c)
  then no_accounts channel +:+ " (all matching accounts are rate-limited or cooling down)"
  else if named && (0 <? channelMatched c) && (allowanceParked c =? channelMatched c)
  then no_accounts channel +:+ " (all matching accounts have exhausted their allowance)"
  else if named && (0 <? allowanceParked c) && (0 <? rateLimitedUnavailable c)
  then no_accounts channel +:+ " (all matching accounts are rate-limited or cooling down: "
         +:+ Itoa (rateLimitedUnavailable c) +:+ " rate-limited, "
         +:+ Itoa (allowanceParked c) +:+ " parked for a spent allowance)"
  else no_accounts channel.

Definition limit_error (channel : string) : string :=
  no_accounts channel +:+ " (all matching accounts are at their concurrency limit)".

(** The accounts the scan starts from: the channel's view of the snapshot when
    the snapshot is still the one just read. *)
Definition channel_accounts (channel : string) (accounts : slice) (lb : LoadBalancer St T) :
    list ptr :=
  if negb (is_empty channel) then
    match cachedByChannel lb with
    | Some views =>
        if (length (sl_elems accounts) =? length (sl_elems (cachedAccounts lb)))%nat
           && ((length (sl_elems accounts) =? 0)%nat
               || (sl_array accounts =? sl_array (cachedAccounts lb)))
        then default [] (views !! ToLower channel)
        else sl_elems accounts
    | None => sl_elems accounts
    end
  else sl_elems accounts.

(** The scan and its fallback to the whole pool. *)
Definition scan_pool (now : instant) (r : request) (accounts : list ptr) :
    M ((list ptr * counters) + go_error) :=
  let size := Z.of_nat (length accounts) in
  if accountScanWindow <? size then
    let* start := rotateScanCursor size in
    let* first := scan now r (window accounts start) in
    match first with
    | inl ([], _) => scan now r accounts
    | _ => ret first
    end
  else scan now r accounts.

(** [tracker] is the one the caller passed, if any; the pool's own is used
    otherwise. *)
Definition getNextAccountWithFilter (now now' : instant) (pick : nat -> nat) (r : request)
    (tracker : option T) : M ((ptr + go_error) * option T) :=
  let* cancelled := poll (r_ctx r) in
  match cancelled with
  | Some err => ret (inr err, tracker)
  | None =>
      let* snapshot := getEnabledAccounts now now' in
      match snapshot with
      | inr err => ret (inr err, tracker)
      | inl accounts =>
          let* accounts := get (channel_accounts (r_channel r) accounts) in
          let* found := scan_pool now r accounts in
          match found with
          | inr err => ret (inr err, tracker)
          | inl ([], c) => ret (inr (Errorf (pool_error (r_channel r) c)), tracker)
          | inl (filtered, _) =>
              let* own := get connTracker in
              let* res := selectAccountWithTracker now pick filtered (default own tracker) in
              let '(picked, used) := res in
              let* tracker := match tracker with
                              | Some _ => ret (Some used)
                              | None => do* modify (fun lb => lb <| connTracker := used |>) in ret None
                              end in
              match picked with
              | None => ret (inr (Errorf (limit_error (r_channel r))), tracker)
              | Some p => ret (inl p, tracker)
              end
          end
      end
  end.
End pool.

(** * Properties *)

(** ** Selection *)

Section selection.
Context (counts : gmap Z Z).

(** What the scan of a window knows of the entries it has passed. *)
Definition best_so_far (seen : list (nat * Account)) (st : list nat * float64) : Prop :=
  let '(best, m) := st in
  (best = [] -> forall j b, (j, b) ∈ seen -> at_limit counts b = true)
  /\ (forall j b, (j, b) ∈ seen -> at_limit counts b = false -> best <> [] ->
        f64_ltb (score counts b) m = false
        /\ (j ∈ best \/ f64_eqb (score counts b) m = false))
  /\ (forall i, i ∈ best -> exists a, (i, a) ∈ seen /\ at_limit counts a = false
        /\ (score counts a = m \/ f64_eqb (score counts a) m = true)).

Lemma best_step_ok seen st i a :
  best_so_far seen st -> best_so_far (seen ++ [(i, a)]) (best_step counts st (i, a)).
Proof.
  destruct st as [best m]. intros (Hnil & Hmin & Hin). unfold best_step.
  assert (Hsplit : forall j b, (j, b) ∈ seen ++ [(i, a)] -> (j, b) ∈ seen \/ (j = i /\ b = a)).
  { intros j b [H|H]%elem_of_app; [by left|]. apply list_elem_of_singleton in H. injection H. by right. }
  assert (Hnew : (i, a) ∈ seen ++ [(i, a)]) by set_solver.
  destruct (at_limit counts a) eqn:El.
  { split_and!.
    - intros Hb j b [H|[-> ->]]%Hsplit; [by eapply Hnil|done].
    - intros j b [H|[-> ->]]%Hsplit; [by apply Hmin|congruence].
    - intros j Hj. destruct (Hin j Hj) as (b & Hb & ?). exists b. split; [set_solver|done]. }
  assert (Hlone : (forall j b, (j, b) ∈ seen -> at_limit counts b = false ->
            f64_ltb (score counts b) (score counts a) = false
            /\ f64_eqb (score counts b) (score counts a) = false) ->
            best_so_far (seen ++ [(i, a)]) ([i], score counts a)).
  { intros H. split_and!; [done| |].
    - intros j b [Hj|[-> ->]]%Hsplit Hb _.
      + destruct (H j b Hj Hb). auto.
      + split; [|left; set_solver].
        destruct (f64_ltb (score counts a) (score counts a)) eqn:E; [|done].
        pose proof (f64_ltb_irrefl_leb _ _ E) as Hx. by rewrite (f64_ltb_leb_weak _ _ E) in Hx.
    - intros j ->%list_elem_of_singleton. exists a. auto. }
  destruct best as [|i0 best].
  { apply Hlone. intros j b Hj Hb. by rewrite (Hnil eq_refl j b Hj) in Hb. }
  destruct (f64_ltb (score counts a) m) eqn:Elt.
  { apply Hlone. intros j b Hj Hb. destruct (Hmin j b Hj Hb) as [Hlt _]; [done|]. split.
    - destruct (f64_ltb (score counts b) (score counts a)) eqn:E; [|done].
      by rewrite (f64_ltb_leb_trans _ _ _ E (f64_ltb_leb_weak _ _ Elt)) in Hlt.
    - destruct (f64_eqb (score counts b) (score counts a)) eqn:E; [|done].
      apply f64_eqb_leb in E as [E _]. by rewrite (f64_leb_ltb_trans _ _ _ E Elt) in Hlt. }
  destruct (f64_eqb (score counts a) m) eqn:Eeq.
  - split_and!; [done| |].
    + intros j b [Hj|[-> ->]]%Hsplit Hb _.
      * destruct (Hmin j b Hj Hb) as [H1 H2]; [done|]. split; [done|]. destruct H2; [left; set_solver|auto].
      * split; [done|left; set_solver].
    + intros j [Hj| ->%list_elem_of_singleton]%elem_of_app.
      * destruct (Hin j Hj) as (b & ? & ? & ?). exists b. split; [set_solver|done].
      * exists a. auto.
  - split_and!; [done| |].
    + intros j b [Hj|[-> ->]]%Hsplit Hb _; [by apply Hmin|auto].
    + intros j Hj. destruct (Hin j Hj) as (b & ? & ? & ?). exists b. split; [set_solver|done].
Qed.

Lemma best_fold l seen st :
  best_so_far seen st -> best_so_far (seen ++ l) (foldl (best_step counts) st l).
Proof.
  revert seen st. induction l as [|[i a] l IH]; intros seen st H; [by rewrite app_nil_r|].
  cbn [foldl]. rewrite (cons_middle (i, a) seen l), app_assoc. apply IH.
  by apply best_step_ok.
Qed.

Lemma elem_of_imap_pair {A} (l : list A) i a : (i, a) ∈ imap pair l <-> l !! i = Some a.
Proof.
  rewrite elem_of_lookup_imap. split.
  - intros (j & x & [= -> ->] & H). done.
  - intros H. by exists i, a.
Qed.

(** The least loaded positions: below their limit, no one below its limit is
    less loaded, and every equally loaded one is among them. *)
Lemma least_loaded_spec accs i : i ∈ least_loaded counts accs ->
  exists a, accs !! i = Some a /\ at_limit counts a = false
    /\ forall j b, accs !! j = Some b -> at_limit counts b = false ->
       f64_ltb (score counts b) (score counts a) = false
       /\ (f64_eqb (score counts b) (score counts a) = true -> j ∈ least_loaded counts accs).
Proof.
  unfold least_loaded. intros Hi.
  assert (Hinit : best_so_far [] ([], f64_of_int (-1))).
  { split_and!; [set_solver|done|set_solver]. }
  pose proof (best_fold (imap pair accs) [] _ Hinit) as H. cbn [app] in H.
  destruct (foldl (best_step counts) _ _) as [best m]. cbn in Hi |- *.
  destruct H as (_ & Hmin & Hin). destruct (Hin i Hi) as (a & Ha & Hl & Hs).
  exists a. split; [by apply elem_of_imap_pair|]. split; [done|]. intros j b Hj Hb.
  apply elem_of_imap_pair in Hj. destruct (Hmin j b Hj Hb) as [Hlt Hor];
    [intros ->; by apply not_elem_of_nil in Hi|].
  split.
  - destruct Hs as [-> |Hs]; [done|].
    destruct (f64_ltb (score counts b) (score counts a)) eqn:E; [|done].
    apply f64_eqb_leb in Hs as [Hs _]. by rewrite (f64_ltb_leb_trans _ _ _ E Hs) in Hlt.
  - intros Heq. destruct Hor as [|Hne]; [done|]. destruct Hs as [Hs|Hs].
    + by rewrite Hs, Hne in Heq.
    + by rewrite (f64_eqb_trans _ _ _ Heq Hs) in Hne.
Qed.

Lemma least_loaded_nil accs a i :
  least_loaded counts accs = [] -> accs !! i = Some a -> at_limit counts a = true.
Proof.
  unfold least_loaded. intros Hnil Ha.
  assert (Hinit : best_so_far [] ([], f64_of_int (-1))).
  { split_and!; [set_solver|done|set_solver]. }
  pose proof (best_fold (imap pair accs) [] _ Hinit) as H. cbn [app] in H.
  destruct (foldl (best_step counts) _ _) as [best m]. cbn in Hnil. subst best.
  destruct H as (H & _). by eapply H, elem_of_imap_pair.
Qed.
End selection.

Section coldest.
Context (last : gmap Z instant) (accs : list Account).

Definition last_use (i : nat) : option instant := last !! ID (default zero_account (accs !! i)).

(** [i] has been idle at least as long as [j]. *)
Definition colder (i j : nat) : Prop :=
  match last_use i, last_use j with
  | None, _ => True
  | Some _, None => False
  | Some s, Some t => s <= t
  end.

Definition cold_so_far (seen : list nat) (st : list nat * list nat * instant) : Prop :=
  let '(unseen, coldest, oldest) := st in
  (forall i, i ∈ unseen <-> i ∈ seen /\ last_use i = None)
  /\ (forall i, i ∈ coldest -> i ∈ seen /\ last_use i = Some oldest)
  /\ (forall i t, i ∈ seen -> last_use i = Some t -> coldest <> [] /\ oldest <= t).

Lemma cold_step_ok seen st i :
  cold_so_far seen st -> cold_so_far (seen ++ [i]) (cold_step last accs st i).
Proof.
  destruct st as [[u c] o]. intros (Hu & Hc & Ho). unfold cold_step. fold (last_use i).
  destruct (last_use i) as [t|] eqn:E.
  - assert (Hu' : forall j, j ∈ u <-> j ∈ seen ++ [i] /\ last_use j = None).
    { intros j. rewrite Hu, elem_of_app, list_elem_of_singleton. naive_solver. }
    assert (Hlone : (forall j s, j ∈ seen -> last_use j = Some s -> t <= s) ->
              cold_so_far (seen ++ [i]) (u, [i], t)).
    { intros H. split_and!; [done| |].
      - intros j ->%list_elem_of_singleton. split; [set_solver|done].
      - intros j s [Hj| ->%list_elem_of_singleton]%elem_of_app Hs; [eauto|].
        split; [done|]. rewrite E in Hs. injection Hs as ->. lia. }
    destruct c as [|c0 c].
    { apply Hlone. intros j s Hj Hs. by destruct (Ho j s Hj Hs). }
    destruct (Time.Before t o) eqn:Eb; [|destruct (Time.Equal t o) eqn:Ee]; time_prop.
    + apply Hlone. intros j s Hj Hs. destruct (Ho j s Hj Hs). lia.
    + subst o. split_and!; [done| |].
      * intros j [Hj| ->%list_elem_of_singleton]%elem_of_app; [|split; [set_solver|done]].
        destruct (Hc j Hj). split; [set_solver|done].
      * intros j s [Hj| ->%list_elem_of_singleton]%elem_of_app Hs; (split; [done|]).
        -- by apply (Ho j s).
        -- rewrite E in Hs. injection Hs as ->. lia.
    + split_and!; [done| |].
      * intros j Hj. destruct (Hc j Hj). split; [set_solver|done].
      * intros j s [Hj| ->%list_elem_of_singleton]%elem_of_app Hs; (split; [done|]).
        -- by apply (Ho j s).
        -- rewrite E in Hs. injection Hs as ->. lia.
  - split_and!.
    + intros j. rewrite elem_of_app, Hu, elem_of_app, list_elem_of_singleton. naive_solver.
    + intros j Hj. destruct (Hc j Hj). split; [set_solver|done].
    + intros j t [Hj| ->%list_elem_of_singleton]%elem_of_app Ht; [by apply (Ho j t)|congruence].
Qed.

Lemma cold_fold l seen st :
  cold_so_far seen st -> cold_so_far (seen ++ l) (foldl (cold_step last accs) st l).
Proof.
  revert seen st. induction l as [|i l IH]; intros seen st H; [by rewrite app_nil_r|].
  cbn [foldl]. rewrite (cons_middle i seen l), app_assoc. apply IH. by apply cold_step_ok.
Qed.

(** The tie-break pool is a non-empty part of the best ones, and each of its
    members has been idle at least as long as any of them. *)
Lemma coldest_of_spec best i :
  i ∈ coldest_of last accs best -> i ∈ best /\ forall j, j ∈ best -> colder i j.
Proof.
  unfold coldest_of.
  assert (Hinit : cold_so_far [] ([], [], Time.zero)) by (split_and!; set_solver).
  pose proof (cold_fold best [] _ Hinit) as H. cbn [app] in H.
  destruct (foldl (cold_step last accs) _ _) as [[u c] o]. destruct H as (Hu & Hc & Ho).
  unfold colder. destruct u as [|u0 u].
  - assert (Hseen : forall j, j ∈ best -> exists t, last_use j = Some t).
    { intros j Hj. destruct (last_use j) eqn:E; [eauto|]. destruct (Hu j) as [_ H]. set_solver. }
    destruct c as [|c0 c].
    + intros Hi. split; [done|]. intros j Hj. destruct (Hseen j Hj) as [t Ht].
      by destruct (Ho j t Hj Ht).
    + intros Hi. destruct (Hc i Hi) as [Hb Hl]. split; [done|]. intros j Hj. rewrite Hl.
      destruct (Hseen j Hj) as [t Ht]. rewrite Ht. by apply (Ho j t Hj Ht).
  - intros Hi. apply Hu in Hi as [Hi Hl]. split; [done|]. intros j Hj. by rewrite Hl.
Qed.

Lemma coldest_of_nonempty best : best <> [] -> coldest_of last accs best <> [].
Proof. unfold coldest_of. destruct (foldl _ _ _) as [[[|u0 u] [|c0 c]] o]; done. Qed.
End coldest.

(** ** Reading the pool *)

Section rows.
Context {St T : Type} {Ops : PoolStore St} {Tr : ConnTracker T}.
Implicit Types lb : LoadBalancer St T.

Definition row lb (p : ptr) : Account := default zero_account (heap lb !! p).

Lemma mapM_deref ps lb : mapM_ deref ps lb = (map (row lb) ps, lb).
Proof.
  induction ps as [|p ps IH]; [done|]. cbn. unfold bind at 1. cbn. unfold bind. by rewrite IH.
Qed.

(** The fields of the pool no selection step but its own may touch. *)
Definition same_pool lb lb' : Prop :=
  cachedAccounts lb' = cachedAccounts lb /\ cachedByChannel lb' = cachedByChannel lb
  /\ cacheExpires lb' = cacheExpires lb /\ connTracker lb' = connTracker lb
  /\ lastSelected lb' = lastSelected lb /\ scanCursor lb' = scanCursor lb
  /\ next_ptr lb' = next_ptr lb.

Lemma same_pool_refl lb : same_pool lb lb.
Proof. by repeat split. Qed.

Lemma same_pool_trans a b c : same_pool a b -> same_pool b c -> same_pool a c.
Proof. unfold same_pool. intuition congruence. Qed.

(** A row left as it was, or with its transient verdict dropped. *)
Definition maybe_reset (a b : Account) : Prop := b = a \/ b = resetAccountRuntimeState a.

Lemma reset_idemp a :
  resetAccountRuntimeState (resetAccountRuntimeState a) = resetAccountRuntimeState a.
Proof. destruct a. vm_compute. reflexivity. Qed.

Lemma reset_ID a : ID (resetAccountRuntimeState a) = ID a.
Proof. done. Qed.

#[local] Opaque resetAccountRuntimeState.

Lemma maybe_reset_trans a b c : maybe_reset a b -> maybe_reset b c -> maybe_reset a c.
Proof.
  intros [-> | ->] [-> | ->]; [by left|by right|by right|].
  right. apply reset_idemp.
Qed.

(** What one availability test does: its answer agrees with the gate and the
    status, a refusal touches no row, and an admission touches at most the
    rows that carry the account's id. *)
Record tested (now : instant) (p : ptr) lb (ok : bool) lb' : Prop := {
  t_sound : ok = true -> gate_of now (row lb p) <> Closed /\ status_verdict now (row lb p) <> Unavailable;
  t_complete : gate_of now (row lb p) = Open -> status_verdict now (row lb p) <> Unavailable -> ok = true;
  t_refused : ok = false -> heap lb' = heap lb;
  t_rows q : maybe_reset (row lb q) (row lb' q);
  t_other q : ID (row lb q) <> ID (row lb p) -> row lb' q = row lb q;
  t_pool : same_pool lb lb' /\ polls lb' = polls lb
}.

Lemma row_assign p f lb q :
  row (assign p f lb).2 q = if decide (q = p) then f (row lb p) else row lb q.
Proof.
  unfold row. cbn. destruct (decide (q = p)) as [->|Hne].
  - by rewrite lookup_insert_eq.
  - by rewrite lookup_insert_ne.
Qed.

Lemma persist_row p lb q : row (persistAccountStatus p lb).2 q = row lb q.
Proof. unfold persistAccountStatus. destruct (Store lb); [|done]. by destruct (st_UpdateAccount _ _). Qed.

Lemma persist_pool p lb :
  same_pool lb (persistAccountStatus p lb).2 /\ polls (persistAccountStatus p lb).2 = polls lb.
Proof.
  unfold persistAccountStatus. destruct (Store lb); [|by repeat split].
  by destruct (st_UpdateAccount _ _).
Qed.

Lemma cachedAccountLocked_ID id lb c : cachedAccountLocked id lb = Some c -> ID (row lb c) = id.
Proof. intros [_ H]%List.find_some. by apply Z.eqb_eq in H. Qed.

Lemma assign_pool p f lb :
  same_pool lb (assign p f lb).2 /\ polls (assign p f lb).2 = polls lb.
Proof. by repeat split. Qed.

(** Dropping the cached copy's verdict, then writing the row. *)
Definition reset_cached (id : Z) lb : LoadBalancer St T :=
  match cachedAccountLocked id lb with
  | Some c => (assign c resetAccountRuntimeState lb).2
  | None => lb
  end.

Lemma clear_eq p lb :
  (clearAccountStatus p lb).2
  = (persistAccountStatus p (reset_cached (ID (row lb p)) (assign p resetAccountRuntimeState lb).2)).2.
Proof.
  unfold clearAccountStatus, bind at 1.
  pose proof (row_assign p resetAccountRuntimeState lb p) as H.
  destruct (assign p resetAccountRuntimeState lb) as [[] lb1]. cbn [snd] in *.
  unfold bind at 1. unfold deref, get. fold (row lb1 p).
  rewrite H, decide_True, reset_ID by done. unfold bind, update_cached, reset_cached, bind, get.
  by destruct (cachedAccountLocked (ID (row lb p)) lb1).
Qed.

Lemma reset_cached_row id lb q :
  maybe_reset (row lb q) (row (reset_cached id lb) q)
  /\ (ID (row lb q) <> id -> row (reset_cached id lb) q = row lb q)
  /\ same_pool lb (reset_cached id lb) /\ polls (reset_cached id lb) = polls lb.
Proof.
  unfold reset_cached. destruct (cachedAccountLocked id lb) as [c|] eqn:Ec.
  - apply cachedAccountLocked_ID in Ec. rewrite row_assign.
    destruct (assign_pool c resetAccountRuntimeState lb) as [H1 H2].
    split_and!; [| |done|done].
    + destruct (decide (q = c)) as [->|]; [by right|by left].
    + intros Hq. by destruct (decide (q = c)) as [->|].
  - split_and!; [by left|done|apply same_pool_refl|done].
Qed.

Lemma clear_effect p lb :
  (forall q, maybe_reset (row lb q) (row (clearAccountStatus p lb).2 q))
  /\ (forall q, ID (row lb q) <> ID (row lb p) -> row (clearAccountStatus p lb).2 q = row lb q)
  /\ same_pool lb (clearAccountStatus p lb).2 /\ polls (clearAccountStatus p lb).2 = polls lb.
Proof.
  rewrite clear_eq. set (lb1 := (assign p resetAccountRuntimeState lb).2).
  set (lb2 := reset_cached (ID (row lb p)) lb1).
  destruct (persist_pool p lb2) as [Hp3 Hq3].
  destruct (assign_pool p resetAccountRuntimeState lb) as [Hp1 Hq1].
  assert (H1 : forall q, row lb1 q = if decide (q = p) then resetAccountRuntimeState (row lb p) else row lb q)
    by (intros q; apply row_assign).
  assert (H2 : forall q, maybe_reset (row lb1 q) (row lb2 q)
               /\ (ID (row lb1 q) <> ID (row lb p) -> row lb2 q = row lb1 q)
               /\ same_pool lb1 lb2 /\ polls lb2 = polls lb1)
    by (intros q; apply reset_cached_row).
  split_and!.
  - intros q. rewrite persist_row. eapply maybe_reset_trans; [|apply H2].
    rewrite H1. destruct (decide (q = p)) as [->|]; [by right|by left].
  - intros q Hq. rewrite persist_row. destruct (H2 q) as (_ & Hn & _). rewrite Hn, H1.
    + by destruct (decide (q = p)) as [->|].
    + rewrite H1. by destruct (decide (q = p)) as [->|].
  - destruct (H2 p) as (_ & _ & Hp2 & _).
    eapply same_pool_trans; [exact Hp1|]. eapply same_pool_trans; [exact Hp2|exact Hp3].
  - destruct (H2 p) as (_ & _ & _ & Hq2). fold lb1 in Hq1. congruence.
Qed.

Lemma isAccountAvailable_tested now p lb :
  tested now p lb (isAccountAvailable now p lb).1 (isAccountAvailable now p lb).2.
Proof.
  unfold isAccountAvailable, bind, deref, get. fold (row lb p).
  assert (Hsame : forall b lb', heap lb' = heap lb -> same_pool lb lb' -> polls lb' = polls lb ->
            (b = true -> gate_of now (row lb p) <> Closed /\ status_verdict now (row lb p) <> Unavailable) ->
            (gate_of now (row lb p) = Open -> status_verdict now (row lb p) <> Unavailable -> b = true) ->
            tested now p lb b lb').
  { intros b lb' Hh Hs Hp H1 H2. split; try done.
    - intros q. left. unfold row. by rewrite Hh.
    - intros q _. unfold row. by rewrite Hh. }
  assert (Hstatus : forall lb1, heap lb1 = heap lb -> same_pool lb lb1 -> polls lb1 = polls lb ->
            gate_of now (row lb p) <> Closed ->
            let m := match status_verdict now (row lb p) with
                     | Unavailable => ret false | Available => ret true
                     | Recovered => bind (clearAccountStatus p) (fun _ => ret true) end in
            tested now p lb (m lb1).1 (m lb1).2).
  { intros lb1 Hh Hs Hp Hg. destruct (status_verdict now (row lb p)) eqn:Ev; cbn zeta.
    - apply Hsame; try done.
    - apply Hsame; done.
    - unfold bind, ret. destruct (clear_effect p lb1) as (H1 & H2 & H3 & H4).
      destruct (clearAccountStatus p lb1) as [[] lb2]. cbn [fst snd] in *.
      assert (Hr : forall q, row lb1 q = row lb q) by (intros q; unfold row; by rewrite Hh).
      split.
      + by rewrite Ev.
      + done.
      + done.
      + intros q. rewrite <- Hr. apply H1.
      + intros q Hq. rewrite H2, Hr; [done|]. by rewrite !Hr.
      + split; [by eapply same_pool_trans|congruence]. }
  destruct (gate_of now (row lb p)) eqn:Eg.
  - unfold ret. cbn. apply Hsame; try done; apply same_pool_refl.
  - unfold ret at 1. cbn [negb]. apply Hstatus; try done; apply same_pool_refl.
  - unfold claim_probe. destruct (Store lb) as [s|].
    + destruct (st_ClaimGrokPaidQuotaProbe _ _ _) as [reply s'].
      destruct (match reply with inl claimed => claimed | inr _ => false end); cbn [negb].
      * by apply Hstatus.
      * unfold ret. by apply Hsame.
    + unfold ret. cbn. apply Hsame; try done; apply same_pool_refl.
Qed.
End rows.

(** ** What a selection promises *)

(** The tracker interface's laws: a batch read agrees with the single read, and
    reading changes no count. *)
Class ConnTrackerLaws (T : Type) {Tr : ConnTracker T} : Prop := {
  gc_value ids t id : id ∈ ids -> (tr_GetCounts ids t).1 !! id = Some (tr_GetCount id t);
  gc_state ids t id : tr_GetCount id (tr_GetCounts ids t).2 = tr_GetCount id t
}.

#[export] Instance MemoryConnTracker_laws : ConnTrackerLaws (gmap Z Z).
Proof.
  split; [|done]. intros ids t id Hin. cbn. unfold Memory.GetCounts.
  assert (Hgen : forall m : gmap Z Z, id ∈ ids \/ m !! id = Some (Memory.GetCount id t) ->
    foldl (fun counts i => <[i := Memory.GetCount i t]> counts) m ids !! id = Some (Memory.GetCount id t)).
  { clear Hin. induction ids as [|i ids IH]; intros m [H|H]; cbn; try done.
    - by apply not_elem_of_nil in H.
    - apply IH. destruct (decide (id ∈ ids)) as [Hi|Hi]; [by left|right].
      apply elem_of_cons in H as [->|]; [by rewrite lookup_insert_eq|done].
    - apply IH. right. destruct (decide (i = id)) as [->|]; [by rewrite lookup_insert_eq|].
      by rewrite lookup_insert_ne. }
  apply Hgen. by left.
Qed.

Section promises.
Context {St T : Type} {Ops : PoolStore St} {Tr : ConnTracker T}.
Implicit Types lb : LoadBalancer St T.

Definition window_counts lb (ps : list ptr) (tracker : T) : gmap Z Z :=
  (tr_GetCounts (map ID (map (row lb) ps)) tracker).1.

(** [a] was handed out no later than [b], never counting as earliest. *)
Definition idle_at_least lb (a b : Account) : Prop :=
  match lastSelected lb !! ID a, lastSelected lb !! ID b with
  | None, _ => True
  | Some _, None => False
  | Some s, Some t => s <= t
  end.

Lemma select_window_picked now pick ps tracker lb p tracker' lb' :
  (forall n, (0 < n)%nat -> (pick n < n)%nat) ->
  select_window now pick ps tracker lb = ((Some p, tracker'), lb') ->
  exists i, i ∈ coldest_of (lastSelected lb) (map (row lb) ps)
                 (least_loaded (window_counts lb ps tracker) (map (row lb) ps))
    /\ ps !! i = Some p
    /\ tracker' = (tr_GetCounts (map ID (map (row lb) ps)) tracker).2
    /\ lb' = lb <| lastSelected := <[ID (row lb p) := now]> (lastSelected lb) |>.
Proof.
  intros Hpick. destruct ps as [|p0 ps]; [done|]. unfold select_window, bind at 1.
  rewrite mapM_deref. unfold window_counts.
  destruct (tr_GetCounts _ tracker) as [counts t']. cbn [fst snd].
  set (accs := map (row lb) (p0 :: ps)). destruct (least_loaded counts accs) as [|b bs] eqn:El; [done|].
  unfold bind at 1, get. pose proof (coldest_of_nonempty (lastSelected lb) accs (b :: bs) ltac:(done)) as Hne.
  set (pool := coldest_of _ _ _) in *.
  assert (Hlt : (pick (length pool) < length pool)%nat).
  { apply Hpick. destruct pool; [done|]. cbn. lia. }
  apply lookup_lt_is_Some_2 in Hlt as [i Hi]. cbn zeta. rewrite Hi. cbn [default from_option id].
  destruct ((p0 :: ps) !! i) as [q|] eqn:Eq; [|done].
  unfold bind, deref, get, modify, ret. cbn zeta. fold (row lb q). intros [= -> <- <-].
  exists i. split_and!; try done. by apply list_elem_of_lookup_2 in Hi.
Qed.

(** the account handed out of a window is below its concurrency
    limit; no account of the window below its own limit carries less load per
    weight; among those equally loaded it has been idle longest, accounts
    never used coming first; and it becomes the most recently used one. *)
Theorem selection_is_least_loaded now pick ps tracker lb p tracker' lb'
    (Hpick : forall n, (0 < n)%nat -> (pick n < n)%nat)
    (Hsel : select_window now pick ps tracker lb = ((Some p, tracker'), lb')) :
  let counts := window_counts lb ps tracker in
  p ∈ ps /\ at_limit counts (row lb p) = false
  /\ (forall q, q ∈ ps -> at_limit counts (row lb q) = false ->
        f64_ltb (score counts (row lb q)) (score counts (row lb p)) = false
        /\ (f64_eqb (score counts (row lb q)) (score counts (row lb p)) = true ->
            idle_at_least lb (row lb p) (row lb q)))
  /\ lastSelected lb' = <[ID (row lb p) := now]> (lastSelected lb).
Proof.
  intros counts. destruct (select_window_picked _ _ _ _ _ _ _ _ Hpick Hsel) as (i & Hi & Hp & _ & ->).
  set (accs := map (row lb) ps) in *.
  assert (Hrow : forall k q, ps !! k = Some q -> accs !! k = Some (row lb q)).
  { intros k q Hk. unfold accs. change (map (row lb) ps) with (row lb <$> ps).
    by rewrite list_lookup_fmap, Hk. }
  apply coldest_of_spec in Hi as [Hi Hcold].
  pose proof (least_loaded_spec counts accs i Hi) as (a & Ha & Hl & Hmin).
  rewrite (Hrow i p Hp) in Ha. injection Ha as <-.
  split_and!; [by apply list_elem_of_lookup_2 in Hp|done| |done].
  intros q Hq Hlq. apply list_elem_of_lookup in Hq as [j Hj].
  destruct (Hmin j (row lb q) (Hrow j q Hj) Hlq) as [Hlt Heq]. split; [done|].
  intros He. specialize (Hcold j (Heq He)). unfold colder, last_use in Hcold.
  rewrite (Hrow i p Hp), (Hrow j q Hj) in Hcold. exact Hcold.
Qed.

Context {Laws : ConnTrackerLaws T}.

(** An account is full by the tracker's own count. *)
Definition full lb (t : T) (p : ptr) : bool :=
  let limit := EffectiveAccountConcurrencyLimit (Some (row lb p)) in
  (0 <? limit) && (limit <=? tr_GetCount (ID (row lb p)) t).

Lemma at_limit_full lb ps tracker p :
  p ∈ ps -> at_limit (window_counts lb ps tracker) (row lb p) = full lb tracker p.
Proof.
  intros Hp. unfold at_limit, full, connections, window_counts.
  rewrite gc_value; [done|]. rewrite map_map.
  apply list_elem_of_In, in_map_iff. exists p. split; [done|]. by apply list_elem_of_In.
Qed.

Lemma full_state lb ids t p : full lb (tr_GetCounts ids t).2 p = full lb t p.
Proof. unfold full. by rewrite gc_state. Qed.

Lemma select_window_none now pick ps tracker lb tracker' lb' :
  (forall n, (0 < n)%nat -> (pick n < n)%nat) ->
  select_window now pick ps tracker lb = ((None, tracker'), lb') ->
  lb' = lb /\ (forall p, full lb tracker' p = full lb tracker p)
  /\ forall p, p ∈ ps -> full lb tracker p = true.
Proof.
  intros Hpick. destruct ps as [|p0 ps].
  { cbn. intros [= <- <-]. split_and!; [done|done|set_solver]. }
  intros Hsel. assert (Hcopy := Hsel). revert Hsel.
  unfold select_window, bind at 1. rewrite mapM_deref.
  pose proof (at_limit_full lb (p0 :: ps) tracker) as Hfull. unfold window_counts in Hfull.
  pose proof (full_state lb (map ID (map (row lb) (p0 :: ps))) tracker) as Hst.
  destruct (tr_GetCounts _ tracker) as [counts t']. cbn [fst snd] in Hfull, Hst.
  set (accs := map (row lb) (p0 :: ps)). destruct (least_loaded counts accs) as [|b bs] eqn:El.
  - intros [= <- <-]. split_and!; [done|exact Hst|]. intros p Hp. rewrite <- (Hfull p Hp).
    apply list_elem_of_lookup in Hp as [i Hi]. eapply (least_loaded_nil counts accs _ i El).
    unfold accs. change (map (row lb) (p0 :: ps)) with (row lb <$> (p0 :: ps)).
    by rewrite list_lookup_fmap, Hi.
  - unfold bind at 1, get. pose proof (coldest_of_nonempty (lastSelected lb) accs (b :: bs) ltac:(done)) as Hne.
    pose proof (coldest_of_spec (lastSelected lb) accs (b :: bs)) as Hsub.
    set (pool := coldest_of _ _ _) in *.
    assert (Hlt : (pick (length pool) < length pool)%nat).
    { apply Hpick. destruct pool; [done|]. cbn. lia. }
    apply lookup_lt_is_Some_2 in Hlt as [i Hi]. cbn zeta. rewrite Hi. cbn [default from_option id].
    apply list_elem_of_lookup_2 in Hi. destruct (Hsub i Hi) as [Hb _]. rewrite <- El in Hb.
    destruct (least_loaded_spec counts accs i Hb) as (a & Ha & _).
    unfold accs in Ha. change (map (row lb) (p0 :: ps)) with (row lb <$> (p0 :: ps)) in Ha.
    rewrite list_lookup_fmap in Ha. by destruct ((p0 :: ps) !! i).
Qed.

Lemma select_window_some now pick ps tracker lb p tracker' lb' :
  (forall n, (0 < n)%nat -> (pick n < n)%nat) ->
  select_window now pick ps tracker lb = ((Some p, tracker'), lb') ->
  p ∈ ps /\ full lb tracker p = false.
Proof.
  intros Hpick Hsel. destruct (select_window_picked _ _ _ _ _ _ _ _ Hpick Hsel) as (i & Hi & Hp & _).
  apply coldest_of_spec in Hi as [Hi _]. apply least_loaded_spec in Hi as (a & Ha & Hl & _).
  change (map (row lb) ps) with (row lb <$> ps) in Ha. rewrite list_lookup_fmap, Hp in Ha.
  injection Ha as <-. apply list_elem_of_lookup_2 in Hp. by rewrite <- at_limit_full with (ps := ps).
Qed.

(** The [i]-th account of a rotated walk that starts at [start]. *)
Definition rotated (accounts : list ptr) (start k : Z) : option ptr :=
  accounts !! Z.to_nat (Z.rem (start + k) (Z.of_nat (length accounts))).

Lemma rotated_covers accounts start p :
  0 <= start -> p ∈ accounts ->
  exists k, 0 <= k < Z.of_nat (length accounts) /\ rotated accounts start k = Some p.
Proof.
  intros Hs [j Hj]%list_elem_of_lookup. pose proof (lookup_lt_Some _ _ _ Hj) as Hlt.
  set (n := Z.of_nat (length accounts)).
  exists ((Z.of_nat j - start) mod n). split; [apply Z.mod_pos_bound; lia|].
  unfold rotated. fold n. rewrite Z.rem_mod_nonneg by (pose proof (Z.mod_pos_bound (Z.of_nat j - start) n); lia).
  rewrite Zplus_mod_idemp_r. replace (start + (Z.of_nat j - start)) with (Z.of_nat j) by lia.
  rewrite Z.mod_small by lia. by rewrite Nat2Z.id.
Qed.

Lemma window_elem accounts start off n p :
  p ∈ omap (fun i => accounts !! Z.to_nat (Z.rem (start + off + Z.of_nat i) (Z.of_nat (length accounts))))
        (seq 0 n) <->
  exists i, (i < n)%nat /\ rotated accounts start (off + Z.of_nat i) = Some p.
Proof.
  rewrite list_elem_of_omap. unfold rotated. split.
  - intros (i & Hi%elem_of_seq & H). exists i. split; [lia|]. by rewrite Z.add_assoc.
  - intros (i & Hi & H). exists i. split; [apply elem_of_seq; lia|]. by rewrite <- Z.add_assoc.
Qed.

Lemma select_windows_spec fuel now pick accounts start offset tracker lb res tracker' lb' :
  (forall n, (0 < n)%nat -> (pick n < n)%nat) -> 0 <= offset ->
  select_windows fuel now pick accounts start offset tracker lb = ((res, tracker'), lb') ->
  match res with
  | Some p => p ∈ accounts /\ full lb tracker p = false
  | None => lb' = lb /\ (Z.of_nat (length accounts) <= offset + accountScanWindow * Z.of_nat fuel ->
      forall k p, offset <= k < Z.of_nat (length accounts) ->
        rotated accounts start k = Some p -> full lb tracker p = true)
  end.
Proof.
  intros Hpick. revert offset tracker. induction fuel as [|fuel IH]; intros offset tracker Hoff.
  { cbn. intros [= <- <- <-]. split; [done|]. lia. }
  cbn [select_windows]. destruct (_ <=? offset) eqn:Eend.
  { cbn. intros [= <- <- <-]. split; [done|]. to_prop. lia. }
  unfold bind. set (ps := omap _ _).
  destruct (select_window now pick ps tracker lb) as [[[p|] t1] lb1] eqn:Es.
  - cbn. intros [= <- <- <-]. destruct (select_window_some _ _ _ _ _ _ _ _ Hpick Es) as [Hp Hf].
    split; [|done]. apply list_elem_of_omap in Hp as (i & _ & Hi). by apply list_elem_of_lookup_2 in Hi.
  - destruct (select_window_none _ _ _ _ _ _ _ Hpick Es) as (-> & Hsame & Hfull).
    intros Hrest. specialize (IH (offset + accountScanWindow) t1 ltac:(unfold accountScanWindow; lia) Hrest).
    destruct res as [p|].
    + by rewrite <- Hsame.
    + destruct IH as [-> IH]. split; [done|]. intros Hfuel k p Hk Hp.
      destruct (decide (k < offset + accountScanWindow)) as [Hlt|Hge].
      * apply Hfull, window_elem. exists (Z.to_nat (k - offset)). split.
        -- unfold accountScanWindow in *. lia.
        -- rewrite Z2Nat.id by lia. by replace (offset + (k - offset)) with k by lia.
      * rewrite <- Hsame. apply (IH ltac:(lia) k p); [lia|done].
Qed.

(** Some account is found exactly when one is below its limit. *)
Lemma selectAccount_spec now pick accounts tracker lb res tracker' lb' :
  (forall n, (0 < n)%nat -> (pick n < n)%nat) -> 0 <= scanCursor lb ->
  selectAccountWithTracker now pick accounts tracker lb = ((res, tracker'), lb') ->
  match res with
  | Some p => p ∈ accounts /\ full lb tracker p = false
  | None => forall p, p ∈ accounts -> full lb tracker p = true
  end.
Proof.
  intros Hpick Hcur. destruct accounts as [|p0 ps].
  { cbn. intros [= <- _ _]. set_solver. }
  unfold selectAccountWithTracker. destruct (accountScanWindow <? _) eqn:Ew.
  - unfold bind, rotateScanCursor. set (accounts := p0 :: ps) in *.
    destruct (Z.of_nat (length accounts) <=? 0) eqn:E0; [cbn in E0; to_prop; lia|].
    set (start := Z.rem (scanCursor lb) _). set (lb0 := lb <| scanCursor := _ |>).
    intros Hsel. pose proof (select_windows_spec _ _ _ _ _ _ _ _ _ _ _ Hpick (Z.le_refl 0) Hsel) as H.
    assert (Hfull : forall t p, full lb0 t p = full lb t p) by done.
    destruct res as [p|]; [by rewrite <- Hfull|]. intros p Hp. destruct H as [_ H].
    assert (Hst : 0 <= start) by (apply Z.rem_nonneg; to_prop; lia).
    destruct (rotated_covers accounts start p Hst Hp) as (k & Hk & Hr).
    rewrite <- Hfull. apply (H ltac:(unfold accountScanWindow; lia) k p Hk Hr).
  - intros Hsel. destruct res as [p|].
    + by eapply select_window_some.
    + by destruct (select_window_none _ _ _ _ _ _ _ Hpick Hsel) as (_ & _ & H).
Qed.
End promises.

(** ** What a scan promises *)

Section scanning.
Context {St T : Type} {Ops : PoolStore St} {Tr : ConnTracker T}.
Implicit Types lb : LoadBalancer St T.

(** The request may use the account, whatever its state. *)
Definition wanted (r : request) (batch : list Account) (a : Account) : bool :=
  negb (existsb (Z.eqb (ID a)) (r_exclude r)) && of_channel (r_channel r) a
  && bool_decide ((filter ← r_filter r; filter batch a) = None).

(** The pool may hand the account out: for certain, or if a probe is granted. *)
Definition admissible (now : instant) (a : Account) : Prop :=
  gate_of now a <> Closed /\ status_verdict now a <> Unavailable.
Definition surely_admissible (now : instant) (a : Account) : Prop :=
  gate_of now a = Open /\ status_verdict now a <> Unavailable.

(** What an admissible account is at the least. *)
Record fit (now : instant) (a : Account) : Prop := {
  fit_credential : AccountAuthActive (Some a) = true;
  fit_restriction : WorkBuddyRestrictionUntil (Some a) <= now;
  fit_unauthorized : TrimSpace (StatusCode a) <> "401";
  fit_throttle : TrimSpace (StatusCode a) = "429" -> AccountHeld (Some a) now = false
}.

Lemma admissible_fit now a : admissible now a -> fit now a.
Proof.
  unfold admissible, gate_of, status_verdict. intros [Hg Hs].
  destruct (negb (AccountAuthActive (Some a))) eqn:Ea; [done|]. apply negb_false_iff in Ea.
  destruct (Time.After (WorkBuddyRestrictionUntil (Some a)) now) eqn:Er; [done|].
  split; [done|by apply Time.After_false| |].
  - intros E. by rewrite E in Hs.
  - intros E. destruct (AccountHeld (Some a) now) eqn:Eh; [|done]. rewrite E in Hs. destruct Hs.
    by destruct (Time.IsZero (LastAttempt a)).
Qed.

(** What one withheld candidate adds to the counters. *)
Definition count_withheld (now : instant) (r : request) (batch : list Account) (c : counters)
    (a : Account) : counters :=
  if existsb (Z.eqb (ID a)) (r_exclude r) || negb (of_channel (r_channel r) a) then c
  else
    let c := c <| channelCandidates := channelCandidates c + 1 |> in
    match (filter ← r_filter r; filter batch a) with
    | Some why => count_rejection why c
    | None => count_unavailable now a (c <| channelMatched := channelMatched c + 1 |>)
    end.

Lemma row_heap lb lb' q : heap lb' = heap lb -> row lb' q = row lb q.
Proof. unfold row. by intros ->. Qed.

Record scanned (now : instant) (r : request) (batch : list Account) (cands filt : list ptr)
    (c : counters) lb (filt' : list ptr) (c' : counters) lb' (adm : list ptr) : Prop := {
  sc_found : filt' = filt ++ adm;
  sc_sound p : p ∈ adm -> p ∈ cands /\ wanted r batch (row lb p) = true /\ admissible now (row lb p);
  sc_complete p : p ∈ cands -> wanted r batch (row lb p) = true ->
    surely_admissible now (row lb p) -> p ∈ adm;
  sc_none : adm = [] -> heap lb' = heap lb
    /\ c' = foldl (count_withheld now r batch) c (map (row lb) cands);
  sc_rows q : maybe_reset (row lb q) (row lb' q);
  sc_pool : same_pool lb lb'
}.

Lemma scanned_skip now r batch p rest filt c c1 lb lb1 filt' c' lb' adm :
  heap lb1 = heap lb -> same_pool lb lb1 ->
  c1 = count_withheld now r batch c (row lb p) ->
  (wanted r batch (row lb p) = true -> surely_admissible now (row lb p) -> False) ->
  scanned now r batch rest filt c1 lb1 filt' c' lb' adm ->
  scanned now r batch (p :: rest) filt c lb filt' c' lb' adm.
Proof.
  intros Hh Hp Hc Hno H. pose proof (fun q => row_heap lb lb1 q Hh) as Hr.
  destruct H as [H1 H2 H3 H4 H5 H6]. split.
  - done.
  - intros q Hq. destruct (H2 q Hq) as (? & ? & ?). rewrite Hr in *. split_and!; [by right|done|done].
  - intros q [->|Hq]%elem_of_cons Hw Ha; [by exfalso; apply Hno|]. apply H3; rewrite ?Hr; done.
  - intros Hn. destruct (H4 Hn) as [Hh' ->]. split; [congruence|]. cbn. rewrite Hc.
    f_equal. apply map_ext. exact Hr.
  - intros q. rewrite <- Hr. apply H5.
  - by eapply same_pool_trans.
Qed.

Lemma scanned_admit now r batch p rest filt c c1 lb lb1 filt' c' lb' adm :
  (forall q, q ∈ rest -> row lb1 q = row lb q) -> (forall q, maybe_reset (row lb q) (row lb1 q)) ->
  same_pool lb lb1 -> wanted r batch (row lb p) = true -> admissible now (row lb p) ->
  scanned now r batch rest (filt ++ [p]) c1 lb1 filt' c' lb' adm ->
  scanned now r batch (p :: rest) filt c lb filt' c' lb' (p :: adm).
Proof.
  intros Hr Hm Hp Hw Ha [H1 H2 H3 H4 H5 H6]. split.
  - by rewrite H1, <- app_assoc.
  - intros q [->|Hq]%elem_of_cons; [split_and!; [by left|done|done]|].
    destruct (H2 q Hq) as (Hin & ? & ?). rewrite Hr in * by done. split_and!; [by right|done|done].
  - intros q [->|Hq]%elem_of_cons Hwq Haq; [by left|right]. apply H3; rewrite ?Hr; done.
  - done.
  - intros q. by eapply maybe_reset_trans.
  - by eapply same_pool_trans.
Qed.

Lemma scan_loop_spec now r batch cands filt c lb filt' c' lb' :
  NoDup (map (fun p => ID (row lb p)) cands) ->
  scan_loop now r batch cands filt c lb = (inl (filt', c'), lb') ->
  exists adm, scanned now r batch cands filt c lb filt' c' lb' adm.
Proof.
  revert filt c lb. induction cands as [|p rest IH]; intros filt c lb Hnd.
  { cbn. intros [= <- <- <-]. exists [].
    split; [by rewrite app_nil_r|set_solver|set_solver|done|by left|apply same_pool_refl]. }
  cbn [map] in Hnd. apply NoDup_cons in Hnd as [Hfresh Hnd].
  cbn [scan_loop]. unfold bind at 1, poll. set (lb0 := lb <| polls := _ |>).
  destruct (r_ctx r (polls lb)) as [e|]; [done|].
  assert (Hh0 : heap lb0 = heap lb) by done. assert (Hp0 : same_pool lb lb0) by (by repeat split).
  assert (Hnd0 : forall lb1, heap lb1 = heap lb -> NoDup (map (fun p => ID (row lb1 p)) rest)).
  { intros lb1 Hh. erewrite map_ext; [exact Hnd|]. intros q. by rewrite (row_heap lb lb1 q Hh). }
  unfold bind at 1, deref, get. fold (row lb0 p). change (row lb0 p) with (row lb p).
  destruct (existsb _ _ || negb _) eqn:Eout.
  { intros H. destruct (IH _ _ _ (Hnd0 _ Hh0) H) as [adm Hadm]. exists adm.
    eapply scanned_skip; [exact Hh0|exact Hp0| | |exact Hadm].
    - unfold count_withheld. by rewrite Eout.
    - unfold wanted. to_prop. intros Hw _. apply andb_true_iff in Hw as [[H1 H2]%andb_true_iff _].
      apply negb_true_iff in H1. destruct Eout; [congruence|]. to_prop. congruence. }
  cbv zeta. destruct (filter ← r_filter r; filter batch (row lb p)) as [why|] eqn:Ef.
  { intros H. destruct (IH _ _ _ (Hnd0 _ Hh0) H) as [adm Hadm]. exists adm.
    eapply scanned_skip; [exact Hh0|exact Hp0| | |exact Hadm].
    - unfold count_withheld. by rewrite Eout, Ef.
    - unfold wanted. rewrite Ef. rewrite andb_false_r. done. }
  assert (Hw : wanted r batch (row lb p) = true).
  { unfold wanted. rewrite Ef. apply orb_false_iff in Eout as [-> ->%negb_false_iff]. done. }
  unfold bind at 1. pose proof (isAccountAvailable_tested now p lb0) as [H1 H2 H3 H4 H5 [H6 _]].
  destruct (isAccountAvailable now p lb0) as [ok lb1]. cbn [fst snd] in *.
  change (row lb0 p) with (row lb p) in *. destruct ok.
  - intros H.
    assert (Hrest : forall q, q ∈ rest -> row lb1 q = row lb q).
    { intros q Hq. rewrite H5; [done|]. change (row lb0 q) with (row lb q). intros He. apply Hfresh.
      rewrite <- He. apply list_elem_of_In, in_map_iff. exists q. split; [done|]. by apply list_elem_of_In. }
    assert (Hnd1 : NoDup (map (fun p => ID (row lb1 p)) rest)).
    { erewrite map_ext_in; [exact Hnd|]. intros q Hq%list_elem_of_In. cbn. by rewrite Hrest. }
    destruct (IH _ _ _ Hnd1 H) as [adm Hadm]. exists (p :: adm).
    eapply scanned_admit; [exact Hrest|exact H4|by eapply same_pool_trans|done|by apply H1|exact Hadm].
  - unfold bind at 1, deref, get. fold (row lb1 p). rewrite (row_heap lb0 lb1 p (H3 eq_refl)).
    intros H. assert (Hh1 : heap lb1 = heap lb) by (by rewrite H3).
    destruct (IH _ _ _ (Hnd0 _ Hh1) H) as [adm Hadm]. exists adm.
    eapply scanned_skip; [exact Hh1|by eapply same_pool_trans| | |exact Hadm].
    + unfold count_withheld. by rewrite Eout, Ef.
    + intros _ [Hg Hv]. specialize (H2 Hg Hv). done.
Qed.

Lemma scan_loop_total now r batch cands filt c lb :
  (forall n, r_ctx r n = None) -> exists res, (scan_loop now r batch cands filt c lb).1 = inl res.
Proof.
  intros Hctx. revert filt c lb. induction cands as [|p rest IH]; intros filt c lb; [by eexists|].
  cbn [scan_loop]. unfold bind at 1, poll. rewrite Hctx. unfold bind at 1, deref, get.
  destruct (_ || _); [apply IH|]. cbv zeta. destruct (mbind _ _); [apply IH|].
  unfold bind at 1. destruct (isAccountAvailable _ _ _) as [[] lb1]; [apply IH|].
  unfold bind. apply IH.
Qed.
End scanning.

(** ** One pass, clones included *)

Section passes.
Context {St T : Type} {Ops : PoolStore St} {Tr : ConnTracker T}.
Implicit Types lb : LoadBalancer St T.

(** Every allocated pointer is below the next one. *)
Definition heap_ok lb : Prop := forall p a, heap lb !! p = Some a -> (p < next_ptr lb)%positive.
Definition allocated lb (p : ptr) : Prop := is_Some (heap lb !! p).

Definition same_cache lb lb' : Prop :=
  cachedAccounts lb' = cachedAccounts lb /\ cachedByChannel lb' = cachedByChannel lb
  /\ cacheExpires lb' = cacheExpires lb /\ connTracker lb' = connTracker lb
  /\ lastSelected lb' = lastSelected lb /\ scanCursor lb' = scanCursor lb.

Lemma same_cache_refl lb : same_cache lb lb.
Proof. by repeat split. Qed.
Lemma same_cache_trans a b c : same_cache a b -> same_cache b c -> same_cache a c.
Proof. unfold same_cache. intuition congruence. Qed.
Lemma same_pool_cache lb lb' : same_pool lb lb' -> same_cache lb lb'.
Proof. unfold same_pool, same_cache. intuition. Qed.

(** Nothing that was allocated changed. *)
Definition extends lb lb' : Prop :=
  heap_ok lb' /\ same_cache lb lb' /\ forall p, allocated lb p -> allocated lb' p /\ row lb' p = row lb p.

Lemma extends_refl lb : heap_ok lb -> extends lb lb.
Proof. intros H. split; [done|]. split; [apply same_cache_refl|done]. Qed.

Lemma extends_trans a b c : extends a b -> extends b c -> extends a c.
Proof.
  intros (_ & H1 & H2) (H3 & H4 & H5). split; [done|]. split; [by eapply same_cache_trans|].
  intros p Hp. destruct (H2 p Hp) as [Hb Hr]. destruct (H5 p Hb) as [Hc Hr']. split; [done|congruence].
Qed.

Lemma new_spec a lb : heap_ok lb ->
  let '(p, lb') := new a lb in extends lb lb' /\ allocated lb' p /\ row lb' p = a.
Proof.
  intros Hok. unfold new. split; [split|].
  - intros q b. cbn. destruct (decide (q = next_ptr lb)) as [->|Hne]; [lia|].
    rewrite lookup_insert_ne by done. intros H%Hok. lia.
  - split; [by repeat split|]. intros p [b Hp]. pose proof (Hok p b Hp) as Hlt.
    assert (next_ptr lb <> p) by (intros Heq; rewrite Heq in Hlt; lia).
    unfold allocated, row. cbn. by rewrite lookup_insert_ne.
  - unfold allocated, row. cbn. by rewrite lookup_insert_eq.
Qed.

Definition clone (a : Account) : Account := default zero_account (Clone (Some a)).

Lemma mapM_clone ps lb : heap_ok lb -> Forall (allocated lb) ps ->
  let '(qs, lb') := mapM_ clone_ptr ps lb in
  extends lb lb' /\ Forall (allocated lb') qs /\ map (row lb') qs = map clone (map (row lb) ps).
Proof.
  revert lb. induction ps as [|p ps IH]; intros lb Hok Hall; [by split_and!; [apply extends_refl| |]|].
  apply Forall_cons in Hall as [Hp Hps]. cbn [mapM_]. unfold bind at 1.
  change (clone_ptr p lb) with (new (clone (row lb p)) lb).
  pose proof (new_spec (clone (row lb p)) lb Hok) as Hnew.
  destruct (new (clone (row lb p)) lb) as [q lb1]. destruct Hnew as (He & Hq & Hrq).
  assert (Hps1 : Forall (allocated lb1) ps).
  { eapply Forall_impl; [exact Hps|]. intros x Hx. by apply He. }
  specialize (IH lb1 (proj1 He) Hps1). unfold bind at 1.
  destruct (mapM_ clone_ptr ps lb1) as [qs lb2]. destruct IH as (He2 & Hqs & Hrows).
  unfold ret. cbv beta iota. destruct He2 as (Hok2 & Hc2 & H2). destruct (H2 q Hq) as [Hq2 Hrq2].
  split_and!.
  - eapply extends_trans; [exact He|]. by split.
  - by constructor.
  - cbn [map]. rewrite Hrq2, Hrq, Hrows. f_equal. f_equal. apply map_ext_in. intros x Hx%list_elem_of_In.
    rewrite Forall_forall in Hps. by apply He, Hps.
Qed.

Lemma clone_ID a : ID (clone a) = ID a.
Proof. done. Qed.

(** The rows a pass examines. *)
Definition pass_rows (r : request) lb (ps : list ptr) : list Account :=
  if EqualFold (r_channel r) "grok" then map clone (map (row lb) ps) else map (row lb) ps.

Lemma pass_rows_ID r lb ps : map ID (pass_rows r lb ps) = map ID (map (row lb) ps).
Proof.
  unfold pass_rows. destruct (EqualFold _ _); [|done]. rewrite !map_map. by apply map_ext.
Qed.

Definition prepares (r : request) : Prop :=
  forall prepare batch, r_prepare r = Some prepare -> prepare batch = None.

Record passed (now : instant) (r : request) (ps : list ptr) lb (found : list ptr) (c : counters) lb' : Prop := {
  ps_sound p : p ∈ found -> exists a, a ∈ pass_rows r lb ps /\ wanted r (pass_rows r lb ps) a = true
    /\ admissible now a /\ maybe_reset a (row lb' p);
  ps_complete a : a ∈ pass_rows r lb ps -> wanted r (pass_rows r lb ps) a = true ->
    surely_admissible now a -> exists p, p ∈ found /\ maybe_reset a (row lb' p);
  ps_none : found = [] -> extends lb lb'
    /\ c = foldl (count_withheld now r (pass_rows r lb ps)) no_counters (pass_rows r lb ps);
  ps_cache : same_cache lb lb'
}.

Lemma scan_spec now r ps lb found c lb' :
  heap_ok lb -> Forall (allocated lb) ps -> NoDup (map ID (map (row lb) ps)) ->
  scan now r ps lb = (inl (found, c), lb') -> passed now r ps lb found c lb'.
Proof.
  intros Hok Hall Hnd. unfold scan, bind at 1, poll. set (lb0 := lb <| polls := _ |>).
  destruct (r_ctx r (polls lb)) as [e|]; [done|]. unfold bind at 1.
  assert (He0 : extends lb lb0).
  { split; [done|]. split; [by repeat split|done]. }
  assert (Hcand : exists cands lb1,
    (if EqualFold (r_channel r) "grok" then mapM_ clone_ptr ps else ret ps) lb0 = (cands, lb1)
    /\ extends lb lb1 /\ map (row lb1) cands = pass_rows r lb ps).
  { unfold pass_rows. destruct (EqualFold (r_channel r) "grok").
    - pose proof (mapM_clone ps lb0 Hok Hall) as H. destruct (mapM_ clone_ptr ps lb0) as [qs lb1].
      destruct H as (He & _ & Hr). exists qs, lb1. split; [done|]. split; [exact (extends_trans _ _ _ He0 He)|done].
    - exists ps, lb0. done. }
  destruct Hcand as (cands & lb1 & -> & He & Hrows). unfold bind at 1. rewrite mapM_deref, Hrows.
  destruct (mbind _ _); [done|]. intros Hscan.
  assert (Hnd1 : NoDup (map (fun p => ID (row lb1 p)) cands)).
  { rewrite <- (map_map (row lb1) ID), Hrows, pass_rows_ID. done. }
  destruct (scan_loop_spec now r _ cands [] no_counters lb1 found c lb' Hnd1 Hscan) as [adm [H1 H2 H3 H4 H5 H6]].
  cbn [app] in H1. subst found.
  assert (Hin : forall a, a ∈ pass_rows r lb ps <-> exists p, p ∈ cands /\ row lb1 p = a).
  { intros a. rewrite <- Hrows, list_elem_of_In, in_map_iff. setoid_rewrite list_elem_of_In. naive_solver. }
  split.
  - intros p Hp. destruct (H2 p Hp) as (Hc & Hw & Ha). exists (row lb1 p).
    split; [apply Hin; eauto|]. by split_and!.
  - intros a (p & Hp & <-)%Hin Hw Ha. exists p. split; [by apply H3|done].
  - intros Hn. destruct (H4 Hn) as [Hh ->]. split; [|by rewrite Hrows].
    eapply extends_trans; [exact He|]. split; [|split; [by apply same_pool_cache|]].
    + intros q b. rewrite Hh. destruct H6 as (_ & _ & _ & _ & _ & _ & ->). apply He.
    + intros q Hq. unfold allocated, row. by rewrite Hh.
  - eapply same_cache_trans; [apply He|]. by apply same_pool_cache.
Qed.

Lemma scan_total now r ps lb :
  (forall n, r_ctx r n = None) -> prepares r -> exists res, (scan now r ps lb).1 = inl res.
Proof.
  intros Hctx Hprep. unfold scan, bind at 1, poll. rewrite Hctx. unfold bind at 1.
  match goal with |- context [let '(_, _) := ?e in _] => destruct e as [cands lb1] end.
  unfold bind at 1. rewrite mapM_deref.
  destruct (r_prepare r) as [prep|] eqn:Ep; cbn [mbind option_bind].
  - rewrite (Hprep prep _ Ep). by apply scan_loop_total.
  - by apply scan_loop_total.
Qed.

(** *** Windows *)

Lemma NoDup_pick {A} (f : ptr -> A) accounts (g : nat -> nat) l :
  NoDup (map f accounts) -> NoDup (map g l) -> NoDup (map f (omap (fun o => accounts !! g o) l)).
Proof.
  intros Hf. induction l as [|o l IH]; intros Hg; [constructor|].
  cbn [map] in Hg. apply NoDup_cons in Hg as [Hfresh Hg]. cbn [omap list_omap].
  destruct (accounts !! g o) as [p|] eqn:Ep; [|by apply IH]. cbn [map]. apply NoDup_cons.
  split; [|by apply IH]. rewrite list_elem_of_In, in_map_iff. intros (q & Hq & Hin%list_elem_of_In).
  apply list_elem_of_omap in Hin as (o' & Ho' & Hl). apply Hfresh.
  assert (g o = g o') as ->.
  { eapply (NoDup_lookup (map f accounts)); [done| |].
    - change (map f accounts) with (f <$> accounts). by rewrite list_lookup_fmap, Ep.
    - change (map f accounts) with (f <$> accounts). rewrite list_lookup_fmap, Hl. cbn. by rewrite Hq. }
  rewrite list_elem_of_In, in_map_iff. exists o'. split; [done|]. by apply list_elem_of_In.
Qed.

Lemma window_positions start n :
  0 <= start -> accountScanWindow < n ->
  NoDup (map (fun o => Z.to_nat (Z.rem (start + Z.of_nat o) n)) (seq 0 (Z.to_nat accountScanWindow))).
Proof.
  intros Hs Hn. apply NoDup_fmap_2_strong; [|apply NoDup_seq].
  intros i j Hi%elem_of_seq Hj%elem_of_seq Heq. unfold accountScanWindow in *.
  rewrite !Z.rem_mod_nonneg in Heq by lia.
  pose proof (Z.mod_pos_bound (start + Z.of_nat i) n). pose proof (Z.mod_pos_bound (start + Z.of_nat j) n).
  assert (He : (start + Z.of_nat i) mod n = (start + Z.of_nat j) mod n) by lia.
  pose proof (Z.div_mod (start + Z.of_nat i) n ltac:(lia)) as H1.
  pose proof (Z.div_mod (start + Z.of_nat j) n ltac:(lia)) as H2.
  rewrite He in H1. assert (Hi' : 0 <= Z.of_nat i < 64) by lia.
  assert (Hj' : 0 <= Z.of_nat j < 64) by lia. apply Nat2Z.inj. revert Hi' Hj' H1 H2.
  generalize ((start + Z.of_nat i) / n) ((start + Z.of_nat j) / n) ((start + Z.of_nat j) mod n).
  generalize (Z.of_nat i) (Z.of_nat j). clear - Hn. intros x y a b m Hx Hy H1 H2.
  assert (Hab : x - y = n * (a - b)) by (rewrite Z.mul_sub_distr_l; lia).
  assert (a - b = 0) by nia. nia.
Qed.

Lemma window_sub accounts start p : p ∈ window accounts start -> p ∈ accounts.
Proof.
  unfold window. rewrite list_elem_of_omap. intros (i & _ & Hi).
  eapply list_elem_of_lookup_2. exact Hi.
Qed.

Lemma window_NoDup {A} (f : ptr -> A) accounts start :
  0 <= start -> accountScanWindow < Z.of_nat (length accounts) ->
  NoDup (map f accounts) -> NoDup (map f (window accounts start)).
Proof.
  intros Hs Hn Hf. unfold window. apply NoDup_pick; [exact Hf|].
  apply window_positions; assumption.
Qed.
End passes.

(** ** The whole selection *)

Section whole.
Context {St T : Type} {Ops : PoolStore St} {Tr : ConnTracker T}.
Implicit Types lb : LoadBalancer St T.

Lemma pass_rows_ext r lb lb' ps :
  (forall p, p ∈ ps -> row lb' p = row lb p) -> pass_rows r lb' ps = pass_rows r lb ps.
Proof.
  intros H. assert (map (row lb') ps = map (row lb) ps) as Hm.
  { apply map_ext_in. intros p Hp%list_elem_of_In. by apply H. }
  unfold pass_rows. by rewrite Hm.
Qed.

Lemma pass_rows_sub r lb ps qs a :
  (forall p, p ∈ qs -> p ∈ ps) -> a ∈ pass_rows r lb qs -> a ∈ pass_rows r lb ps.
Proof.
  intros Hsub. unfold pass_rows.
  destruct (EqualFold _ _); rewrite !list_elem_of_In, ?map_map, !in_map_iff;
    intros (p & Hp & Hin); exists p; (split; [done|]); apply list_elem_of_In, Hsub, list_elem_of_In, Hin.
Qed.

Record pool_scanned (now : instant) (r : request) (accounts : list ptr) lb (found : list ptr)
    (c : counters) lb' : Prop := {
  po_sound p : p ∈ found -> exists a batch, a ∈ pass_rows r lb accounts
    /\ wanted r batch a = true /\ admissible now a /\ maybe_reset a (row lb' p);
  po_complete a : a ∈ pass_rows r lb accounts ->
    wanted r (pass_rows r lb accounts) a = true -> surely_admissible now a -> found <> [];
  po_small a : a ∈ pass_rows r lb accounts ->
    wanted r (pass_rows r lb accounts) a = true -> surely_admissible now a ->
    Z.of_nat (length accounts) <= accountScanWindow -> exists p, p ∈ found /\ maybe_reset a (row lb' p);
  po_none : found = [] ->
    c = foldl (count_withheld now r (pass_rows r lb accounts)) no_counters (pass_rows r lb accounts);
  po_kept : connTracker lb' = connTracker lb /\ lastSelected lb' = lastSelected lb
}.

Lemma passed_pool now r accounts lb lb0 found c lb' :
  pass_rows r lb0 accounts = pass_rows r lb accounts ->
  connTracker lb0 = connTracker lb -> lastSelected lb0 = lastSelected lb ->
  passed now r accounts lb0 found c lb' -> pool_scanned now r accounts lb found c lb'.
Proof.
  intros Hrows Ht Hl [H1 H2 H3 H4]. rewrite Hrows in *. split.
  - intros p Hp. destruct (H1 p Hp) as (a & ? & ? & ? & ?). eauto 10.
  - intros a Ha Hw Hs. destruct (H2 a Ha Hw Hs) as (p & Hp & _). intros ->. by apply not_elem_of_nil in Hp.
  - intros a Ha Hw Hs _. eauto.
  - intros Hn. by apply H3.
  - destruct H4 as (_ & _ & _ & -> & -> & _). done.
Qed.

Lemma scan_pool_spec now r accounts lb found c lb' :
  heap_ok lb -> Forall (allocated lb) accounts -> NoDup (map ID (map (row lb) accounts)) ->
  0 <= scanCursor lb ->
  scan_pool now r accounts lb = (inl (found, c), lb') ->
  pool_scanned now r accounts lb found c lb' /\ 0 <= scanCursor lb'.
Proof.
  intros Hok Hall Hnd Hcur. unfold scan_pool. destruct (accountScanWindow <? _) eqn:Ew.
  2: { intros Hs. pose proof (scan_spec _ _ _ _ _ _ _ Hok Hall Hnd Hs) as H.
       split; [by eapply passed_pool|]. destruct H as [_ _ _ (_ & _ & _ & _ & _ & ->)]. done. }
  to_prop. unfold bind at 1, rotateScanCursor. set (n := Z.of_nat (length accounts)) in *.
  destruct (n <=? 0) eqn:E0; [unfold accountScanWindow in Ew; to_prop; lia|].
  set (start := Z.rem (scanCursor lb) n). set (lb0 := lb <| scanCursor := _ |>).
  assert (Hst : 0 <= start) by (apply Z.rem_nonneg; to_prop; lia).
  assert (Hc0 : 0 <= scanCursor lb0) by (apply Z.rem_nonneg; unfold accountScanWindow; to_prop; lia).
  unfold bind. destruct (scan now r (window accounts start) lb0) as [[[f1 c1]|e] lb1] eqn:E1; [|done].
  assert (Hwall : Forall (allocated lb0) (window accounts start)).
  { apply Forall_forall. intros p Hp%window_sub. rewrite Forall_forall in Hall. by apply Hall. }
  assert (Hwnd : NoDup (map ID (map (row lb0) (window accounts start)))).
  { rewrite map_map. apply window_NoDup; [done|done|]. by rewrite <- map_map. }
  pose proof (scan_spec now r (window accounts start) lb0 f1 c1 lb1 Hok Hwall Hwnd E1) as H1.
  destruct f1 as [|p1 f1].
  - intros Hs. destruct (ps_none _ _ _ _ _ _ _ H1 eq_refl) as [(Hok1 & Hcache & Hsame) _].
    assert (Hall1 : Forall (allocated lb1) accounts).
    { eapply Forall_impl; [exact Hall|]. intros p Hp. by apply Hsame. }
    assert (Hrow1 : forall p, p ∈ accounts -> row lb1 p = row lb p).
    { intros p Hp. rewrite Forall_forall in Hall. by apply Hsame, Hall. }
    assert (Hnd1 : NoDup (map ID (map (row lb1) accounts))).
    { rewrite map_map in Hnd |- *. erewrite map_ext_in; [exact Hnd|].
      intros p Hp%list_elem_of_In. by rewrite Hrow1. }
    pose proof (scan_spec now r accounts lb1 found c lb' Hok1 Hall1 Hnd1 Hs) as H2.
    destruct Hcache as (_ & _ & _ & Ht & Hl & Hcur1).
    split; [eapply passed_pool; [by apply pass_rows_ext|done|done|exact H2]|].
    destruct H2 as [_ _ _ (_ & _ & _ & _ & _ & ->)]. by rewrite Hcur1.
  - intros [= <- <- <-]. destruct H1 as [Hsound _ _ (_ & _ & _ & Ht & Hl & Hcur1)]. split; [|by rewrite Hcur1].
    split; try done.
    + intros p Hp. destruct (Hsound p Hp) as (a & Ha & Hw & Hadm & Hr).
      exists a, (pass_rows r lb0 (window accounts start)). split_and!; try done.
      eapply pass_rows_sub; [|exact Ha]. apply window_sub.
    + intros a _ _ _ Hle. lia.
Qed.

Lemma scan_pool_total now r accounts lb :
  (forall n, r_ctx r n = None) -> prepares r -> exists res, (scan_pool now r accounts lb).1 = inl res.
Proof.
  intros Hctx Hprep. unfold scan_pool. destruct (_ <? _); [|by apply scan_total].
  unfold bind. destruct (rotateScanCursor _ lb) as [start lb0].
  destruct (scan_total now r (window accounts start) lb0 Hctx Hprep) as [[f c] Hres].
  destruct (scan now r (window accounts start) lb0) as [x lb1]. cbn in Hres. subst x.
  destruct f; [by apply scan_total|by eexists].
Qed.

(** The snapshot a selection works on: what [getEnabledAccounts] left, with
    distinct ids. *)
Record snapshot_ok lb (accounts : list ptr) : Prop := {
  sn_heap : heap_ok lb;
  sn_alloc : Forall (allocated lb) accounts;
  sn_ids : NoDup (map ID (map (row lb) accounts));
  sn_cursor : 0 <= scanCursor lb
}.

Lemma reset_full_row a b : maybe_reset a b ->
  EffectiveAccountConcurrencyLimit (Some b) = EffectiveAccountConcurrencyLimit (Some a) /\ ID b = ID a.
Proof. by intros [-> | ->]. Qed.

Definition full_row (t : T) (a : Account) : bool :=
  let limit := EffectiveAccountConcurrencyLimit (Some a) in
  (0 <? limit) && (limit <=? tr_GetCount (ID a) t).

Lemma full_maybe_reset lb t p a : maybe_reset a (row lb p) -> full lb t p = full_row t a.
Proof. intros H. unfold full, full_row. by destruct (reset_full_row _ _ H) as [-> ->]. Qed.

Context {Laws : ConnTrackerLaws T}.

Lemma select_window_heap now pick ps tracker lb :
  (forall n, (0 < n)%nat -> (pick n < n)%nat) ->
  heap (select_window now pick ps tracker lb).2 = heap lb.
Proof.
  intros Hpick. destruct (select_window now pick ps tracker lb) as [[[p|] t] lb'] eqn:E.
  - by destruct (select_window_picked _ _ _ _ _ _ _ _ Hpick E) as (i & _ & _ & _ & ->).
  - by destruct (select_window_none _ _ _ _ _ _ _ Hpick E) as (-> & _).
Qed.

Lemma select_windows_heap fuel now pick accounts start offset tracker lb :
  (forall n, (0 < n)%nat -> (pick n < n)%nat) ->
  heap (select_windows fuel now pick accounts start offset tracker lb).2 = heap lb.
Proof.
  intros Hpick. revert offset tracker lb. induction fuel as [|fuel IH]; intros offset tracker lb; [done|].
  cbn [select_windows]. destruct (_ <=? offset); [done|]. unfold bind. set (ps := omap _ _).
  pose proof (select_window_heap now pick ps tracker lb Hpick) as H.
  destruct (select_window now pick ps tracker lb) as [[[p|] t] lb1]; [exact H|].
  rewrite IH. exact H.
Qed.

Lemma select_heap now pick accounts tracker lb :
  (forall n, (0 < n)%nat -> (pick n < n)%nat) ->
  heap (selectAccountWithTracker now pick accounts tracker lb).2 = heap lb.
Proof.
  intros Hpick. unfold selectAccountWithTracker. destruct accounts; [done|].
  destruct (_ <? _); [|by apply select_window_heap]. unfold bind.
  destruct (rotateScanCursor _ lb) as [start lb0] eqn:E. rewrite select_windows_heap by done.
  unfold rotateScanCursor in E. destruct (_ <=? 0); by injection E as _ <-.
Qed.

(** The whole call, as its scan followed by its selection. *)
Lemma getNext_split now now' pick r tracker lb snapshot lb1 found c lb2 :
  (forall n, r_ctx r n = None) ->
  getEnabledAccounts now now' (lb <| polls := S (polls lb) |>) = (inl snapshot, lb1) ->
  scan_pool now r (channel_accounts (r_channel r) snapshot lb1) lb1 = (inl (found, c), lb2) ->
  let out := getNextAccountWithFilter now now' pick r tracker lb in
  match found with
  | [] => out.1.1 = inr (Errorf (pool_error (r_channel r) c))
  | _ =>
      let sel := selectAccountWithTracker now pick found (default (connTracker lb2) tracker) lb2 in
      heap out.2 = heap sel.2
      /\ out.1.1 = match sel.1.1 with
                   | Some p => inl p
                   | None => inr (Errorf (limit_error (r_channel r)))
                   end
  end.
Proof.
  intros Hctx Hsnap Hscan.
  assert (Heq : getNextAccountWithFilter now now' pick r tracker lb
    = match found with
      | [] => ((inr (Errorf (pool_error (r_channel r) c)), tracker), lb2)
      | _ =>
          let '(picked, used, lb3) :=
            selectAccountWithTracker now pick found (default (connTracker lb2) tracker) lb2 in
          (match picked with
           | Some p => inl p
           | None => inr (Errorf (limit_error (r_channel r)))
           end,
           match tracker with Some _ => Some used | None => None end,
           match tracker with Some _ => lb3 | None => lb3 <| connTracker := used |> end)
      end).
  { unfold getNextAccountWithFilter, bind at 1, poll. rewrite Hctx.
    unfold bind at 1. rewrite Hsnap. unfold bind at 1, get at 1, bind at 1. rewrite Hscan.
    destruct found as [|f0 fs]; [done|]. unfold bind at 1, get at 1, bind at 1.
    destruct (selectAccountWithTracker _ _ _ _ lb2) as [[res t2] lb3].
    unfold bind, ret, modify. by destruct tracker, res. }
  intros out. unfold out. rewrite Heq. destruct found as [|f0 fs]; [done|].
  destruct (selectAccountWithTracker _ _ _ _ lb2) as [[res t2] lb3]. by destruct tracker, res.
Qed.

(** C11: an account handed out is one of the channel's snapshot, not
    excluded by the caller, accepted by the caller's filter, with a usable
    credential, no running restriction and no verdict that still holds it - not
    one refused as unauthorized, and no throttled one the policy still holds -
    and below its concurrency limit. *)
Theorem selected_account_is_admissible now now' pick r tracker lb snapshot lb1 p tracker' lb'
    (Hpick : forall n, (0 < n)%nat -> (pick n < n)%nat)
    (Hctx : forall n, r_ctx r n = None)
    (Hsnap : getEnabledAccounts now now' (lb <| polls := S (polls lb) |>) = (inl snapshot, lb1))
    (Hok : snapshot_ok lb1 (channel_accounts (r_channel r) snapshot lb1))
    (Hsel : getNextAccountWithFilter now now' pick r tracker lb = ((inl p, tracker'), lb')) :
  exists a batch, a ∈ pass_rows r lb1 (channel_accounts (r_channel r) snapshot lb1)
    /\ maybe_reset a (row lb' p) /\ wanted r batch a = true /\ admissible now a /\ fit now a
    /\ full_row (default (connTracker lb1) tracker) a = false.
Proof.
  set (accounts := channel_accounts _ _ _) in *. destruct Hok as [Hh Hal Hnd Hcur].
  destruct (scan_pool now r accounts lb1) as [[[found c]|e] lb2] eqn:Es.
  2: { revert Hsel. unfold getNextAccountWithFilter, bind at 1, poll. rewrite Hctx.
       unfold bind at 1. rewrite Hsnap. unfold bind at 1, get at 1, bind at 1. fold accounts. by rewrite Es. }
  destruct (scan_pool_spec _ _ _ _ _ _ _ Hh Hal Hnd Hcur Es) as [[Hsound _ _ _ [Ht Hl]] Hcur2].
  pose proof (getNext_split now now' pick r tracker lb snapshot lb1 found c lb2 Hctx Hsnap Es) as Hout.
  rewrite Hsel in Hout. cbn [fst snd] in Hout. destruct found as [|f0 fs]; [done|].
  destruct Hout as [Hheap Hres]. rewrite Ht in *.
  set (t := default (connTracker lb1) tracker) in *.
  destruct (selectAccountWithTracker now pick (f0 :: fs) t lb2) as [[res t2] lb3] eqn:Esel.
  pose proof (selectAccount_spec _ _ _ _ _ _ _ _ Hpick Hcur2 Esel) as Hspec.
  pose proof (select_heap now pick (f0 :: fs) t lb2 Hpick) as Hh3. rewrite Esel in Hh3.
  cbn [fst snd] in *. destruct res as [q|]; [|done]. injection Hres as ->.
  destruct Hspec as [Hin Hfull]. destruct (Hsound q Hin) as (a & batch & Ha & Hw & Hadm & Hr).
  exists a, batch. split_and!; [done| |done|done|by apply admissible_fit|].
  - rewrite (row_heap lb2 lb' q); [done|]. by rewrite Hheap.
  - by rewrite <- (full_maybe_reset lb2 t q a Hr).
Qed.

(** C12: as long as one account of the channel suits the request and is
    held by nothing, the pool is never reported empty, whatever its size and
    wherever the scan window stands: the call hands out an account, or says
    that those it looked at are at their concurrency limit.  In a pool that
    fits one window it says so only when that account is at its limit too. *)
Theorem suitable_account_is_reached now now' pick r tracker lb snapshot lb1 a
    (Hpick : forall n, (0 < n)%nat -> (pick n < n)%nat)
    (Hctx : forall n, r_ctx r n = None) (Hprep : prepares r)
    (Hsnap : getEnabledAccounts now now' (lb <| polls := S (polls lb) |>) = (inl snapshot, lb1))
    (Hok : snapshot_ok lb1 (channel_accounts (r_channel r) snapshot lb1))
    (Ha : a ∈ pass_rows r lb1 (channel_accounts (r_channel r) snapshot lb1))
    (Hw : wanted r (pass_rows r lb1 (channel_accounts (r_channel r) snapshot lb1)) a = true)
    (Hs : surely_admissible now a) :
  let out := (getNextAccountWithFilter now now' pick r tracker lb).1.1 in
  ((exists p, out = inl p) \/ out = inr (Errorf (limit_error (r_channel r))))
  /\ (Z.of_nat (length (channel_accounts (r_channel r) snapshot lb1)) <= accountScanWindow ->
      full_row (default (connTracker lb1) tracker) a = false -> exists p, out = inl p).
Proof.
  intros out. set (accounts := channel_accounts _ _ _) in *. destruct Hok as [Hh Hal Hnd Hcur].
  destruct (scan_pool_total now r accounts lb1 Hctx Hprep) as [[found c] Hres].
  destruct (scan_pool now r accounts lb1) as [x lb2] eqn:Es. cbn in Hres. subst x.
  destruct (scan_pool_spec _ _ _ _ _ _ _ Hh Hal Hnd Hcur Es) as [[_ Hcomp Hsmall _ [Ht Hl]] Hcur2].
  pose proof (getNext_split now now' pick r tracker lb snapshot lb1 found c lb2 Hctx Hsnap Es) as Hout.
  fold out in Hout. cbn zeta in Hout. specialize (Hcomp a Ha Hw Hs). destruct found as [|f0 fs]; [done|].
  destruct Hout as [_ Hres]. fold out in Hres. rewrite Ht in Hres.
  set (t := default (connTracker lb1) tracker) in *.
  destruct (selectAccountWithTracker now pick (f0 :: fs) t lb2) as [[res t2] lb3] eqn:Esel.
  pose proof (selectAccount_spec _ _ _ _ _ _ _ _ Hpick Hcur2 Esel) as Hspec. cbn [fst snd] in Hres.
  destruct res as [q|]; rewrite Hres.
  - split; eauto.
  - split; [by right|]. intros Hle Hfull. exfalso.
    destruct (Hsmall a Ha Hw Hs Hle) as (p & Hp & Hr).
    rewrite <- (full_maybe_reset lb2 t p a Hr) in Hfull. by rewrite (Hspec p Hp) in Hfull.
Qed.

(** an empty pool is explained by the rows themselves: the reported
    reason is the one their exclusions, filter answers and statuses add up
    to over exactly one pass of the whole pool. *)
Theorem empty_pool_reason now now' pick r tracker lb snapshot lb1
    (Hctx : forall n, r_ctx r n = None) (Hprep : prepares r)
    (Hsnap : getEnabledAccounts now now' (lb <| polls := S (polls lb) |>) = (inl snapshot, lb1))
    (Hok : snapshot_ok lb1 (channel_accounts (r_channel r) snapshot lb1))
    (Hnone : forall a batch, a ∈ pass_rows r lb1 (channel_accounts (r_channel r) snapshot lb1) ->
       wanted r batch a = true -> ~ admissible now a) :
  let rows := pass_rows r lb1 (channel_accounts (r_channel r) snapshot lb1) in
  (getNextAccountWithFilter now now' pick r tracker lb).1.1
  = inr (Errorf (pool_error (r_channel r) (foldl (count_withheld now r rows) no_counters rows))).
Proof.
  intros rows. set (accounts := channel_accounts _ _ _) in *. destruct Hok as [Hh Hal Hnd Hcur].
  destruct (scan_pool_total now r accounts lb1 Hctx Hprep) as [[found c] Hres].
  destruct (scan_pool now r accounts lb1) as [x lb2] eqn:Es. cbn in Hres. subst x.
  destruct (scan_pool_spec _ _ _ _ _ _ _ Hh Hal Hnd Hcur Es) as [[Hsound _ _ Hreason _] _].
  pose proof (getNext_split now now' pick r tracker lb snapshot lb1 found c lb2 Hctx Hsnap Es) as Hout.
  cbn zeta in Hout. destruct found as [|f0 fs].
  - rewrite Hout. by rewrite (Hreason eq_refl).
  - destruct (Hsound f0) as (a & batch & Ha & Hw & Hadm & _); [by left|].
    by destruct (Hnone a batch Ha Hw).
Qed.
End whole.

(** ** The snapshot *)

Section snapshot.
Context {St T : Type} {Ops : PoolStore St} {Tr : ConnTracker T}.
Implicit Types lb : LoadBalancer St T.

(** The rows a channel's view holds. *)
Definition in_view (k : string) (a : Account) : bool :=
  String.eqb (ToLower (AccountType a)) k || String.eqb (ToLower (AgentMode a)) k.

Lemma append_under_lookup k k' p m :
  default [] (append_under k p m !! k') = default [] (m !! k') ++ (if String.eqb k k' then [p] else []).
Proof.
  unfold append_under. destruct (String.eqb k k') eqn:E; to_prop.
  - subst. by rewrite lookup_insert_eq.
  - rewrite lookup_insert_ne by done. by rewrite app_nil_r.
Qed.

Lemma by_channel_lookup k m p a :
  k <> ""%string ->
  default [] (by_channel m (p, a) !! k) = default [] (m !! k) ++ (if in_view k a then [p] else []).
Proof.
  intros Hk. unfold by_channel, in_view.
  set (typ := ToLower (AccountType a)). set (mode := ToLower (AgentMode a)).
  assert (Hempty : forall x, is_empty x = true -> String.eqb x k = false).
  { intros x ->%is_empty_true. apply String.eqb_neq. congruence. }
  destruct (is_empty typ) eqn:Et, (is_empty mode) eqn:Em; cbn [negb andb];
    rewrite ?(Hempty typ Et), ?(Hempty mode Em); cbn [orb]; rewrite ?orb_false_r.
  - by rewrite app_nil_r.
  - destruct (String.eqb mode typ) eqn:Emt; cbn [negb]; to_prop.
    + rewrite Emt in Em. congruence.
    + apply append_under_lookup.
  - apply append_under_lookup.
  - destruct (String.eqb mode typ) eqn:Emt; cbn [negb]; to_prop.
    + rewrite Emt, orb_diag. apply append_under_lookup.
    + rewrite !append_under_lookup, <- app_assoc.
      destruct (String.eqb typ k) eqn:E1, (String.eqb mode k) eqn:E2; cbn; try done.
      to_prop. congruence.
Qed.

Lemma views_lookup k (l : list (ptr * Account)) m :
  k <> ""%string ->
  default [] (foldl by_channel m l !! k)
  = default [] (m !! k) ++ map fst (List.filter (fun pa => in_view k pa.2) l).
Proof.
  intros Hk. revert m. induction l as [|[p a] l IH]; intros m; [by rewrite app_nil_r|].
  cbn [foldl]. rewrite IH, by_channel_lookup by done. rewrite <- app_assoc. f_equal.
  cbn [List.filter snd]. by destruct (in_view k a).
Qed.

Lemma mapM_new rows lb : heap_ok lb ->
  let '(ps, lb') := mapM_ new rows lb in
  extends lb lb' /\ Forall (allocated lb') ps /\ map (row lb') ps = rows /\ Store lb' = Store lb
  /\ cacheTTL lb' = cacheTTL lb /\ next_array lb' = next_array lb.
Proof.
  revert lb. induction rows as [|a rows IH]; intros lb Hok; [split_and!; try done; by apply extends_refl|].
  cbn [mapM_]. unfold bind at 1. pose proof (new_spec a lb Hok) as Hnew.
  assert (Hst : Store (new a lb).2 = Store lb /\ cacheTTL (new a lb).2 = cacheTTL lb
                /\ next_array (new a lb).2 = next_array lb) by done.
  destruct (new a lb) as [p lb1]. cbn [snd] in Hst. destruct Hnew as (He & Hp & Hr). destruct Hst as (S1 & S2 & S3).
  specialize (IH lb1 (proj1 He)). unfold bind at 1.
  destruct (mapM_ new rows lb1) as [ps lb2]. destruct IH as (He2 & Hps & Hrows & S4 & S5 & S6).
  unfold ret. destruct He2 as (Hok2 & Hc2 & H2). destruct (H2 p Hp) as [Hp2 Hr2].
  split_and!; try congruence.
  - eapply extends_trans; [exact He|]. by split.
  - by constructor.
  - cbn. congruence.
Qed.

Lemma in_view_of_channel channel a :
  is_empty channel = false -> of_channel channel a = true -> in_view (ToLower channel) a = true.
Proof.
  unfold of_channel, in_view. intros ->. destruct (is_empty (TrimSpace _)); [done|].
  unfold EqualFold. done.
Qed.

Lemma filter_zip_rows (f : Account -> bool) lb ps rows :
  map (row lb) ps = rows ->
  map (row lb) (map fst (List.filter (fun pa => f pa.2) (zip ps rows))) = List.filter f rows.
Proof.
  intros <-. induction ps as [|p ps IH]; [done|]. cbn. destruct (f (row lb p)) eqn:E; cbn; by rewrite IH.
Qed.

Lemma filter_zip_sub (f : Account -> bool) (ps : list ptr) (rows : list Account) p :
  p ∈ map fst (List.filter (fun pa => f pa.2) (zip ps rows)) -> p ∈ ps.
Proof.
  rewrite !list_elem_of_In, in_map_iff. intros ([q a] & <- & [Hin _]%filter_In).
  by apply in_combine_l in Hin.
Qed.

Lemma NoDup_map_filter {A B} (f : A -> B) (g : A -> bool) l : NoDup (map f l) -> NoDup (map f (List.filter g l)).
Proof.
  induction l as [|x l IH]; [done|]. cbn [map]. intros [Hx Hl]%NoDup_cons. cbn.
  destruct (g x); [|by apply IH]. cbn [map]. apply NoDup_cons. split; [|by apply IH].
  intros Hin. apply Hx. rewrite list_elem_of_In, in_map_iff in *. destruct Hin as (y & Hy & [Hin _]%filter_In). eauto.
Qed.

(** What a read that misses leaves behind: the snapshot and the view of
    [channel] in it. *)
Lemma read_snapshot now now' channel s rows lb snapshot lb1
    (Hmiss : cachedAccountsBefore now lb = None)
    (Hok : heap_ok lb) (Hstore : Store lb = Some s) (Hrows : st_GetEnabledAccounts s = inl rows)
    (Hread : getEnabledAccounts now now' lb = (inl snapshot, lb1)) :
  heap_ok lb1 /\ Forall (allocated lb1) (channel_accounts channel snapshot lb1)
  /\ scanCursor lb1 = scanCursor lb
  /\ map (row lb1) (channel_accounts channel snapshot lb1)
     = (if is_empty channel then rows else List.filter (in_view (ToLower channel)) rows)
  /\ cachedAccounts lb1 = snapshot /\ length (sl_elems snapshot) = length rows
  /\ cacheExpires lb1 = Time.Add now' (cacheTTL lb).
Proof.
  set (accounts := channel_accounts channel snapshot lb1).
  revert Hread. unfold getEnabledAccounts. rewrite Hmiss, Hstore, Hrows.
  pose proof (mapM_new rows lb Hok) as Hnew. destruct (mapM_ new rows lb) as [ps lb2].
  destruct Hnew as ((Hok2 & (_ & _ & _ & _ & _ & Hc2) & _) & Hall & Hmap & _ & Httl & _).
  intros [= <- <-].
  match goal with accounts := channel_accounts _ _ ?x |- _ => set (lb1 := x) in * end.
  assert (Hacc : accounts = if is_empty channel then ps else
            map fst (List.filter (fun pa => in_view (ToLower channel) pa.2) (zip ps rows))).
  { unfold accounts, channel_accounts. destruct (is_empty channel) eqn:Ee; [done|]. cbn [negb].
    unfold lb1. cbn [cachedByChannel cachedAccounts sl_elems sl_array].
    rewrite Nat.eqb_refl, Z.eqb_refl, orb_true_r. cbn [andb].
    rewrite views_lookup; [by rewrite lookup_empty|].
    apply is_empty_false in Ee. by destruct channel. }
  rewrite Hacc. split_and!; [exact Hok2| |exact Hc2| |done| |by cbn; rewrite Httl].
  - destruct (is_empty channel); [exact Hall|]. apply Forall_forall.
    intros p Hp%filter_zip_sub. rewrite Forall_forall in Hall. by apply Hall.
  - destruct (is_empty channel); [exact Hmap|]. by apply filter_zip_rows.
  - cbn [sl_elems]. rewrite <- Hmap. by rewrite length_map.
Qed.

Lemma read_snapshot_ok now now' channel s rows lb snapshot lb1
    (Hmiss : cachedAccountsBefore now lb = None)
    (Hok : heap_ok lb) (Hcur : 0 <= scanCursor lb)
    (Hstore : Store lb = Some s) (Hrows : st_GetEnabledAccounts s = inl rows)
    (Hids : NoDup (map ID rows))
    (Hread : getEnabledAccounts now now' lb = (inl snapshot, lb1)) :
  snapshot_ok lb1 (channel_accounts channel snapshot lb1).
Proof.
  destruct (read_snapshot now now' channel s rows lb snapshot lb1) as (H1 & H2 & H3 & H4 & _);
    try done.
  split; [done|done| |by rewrite H3].
  rewrite H4. destruct (is_empty channel); [done|]. by apply NoDup_map_filter.
Qed.

(** a read that misses the cache loads the store's rows, once each
    and in order; the channel's view is exactly the rows whose type or mode is
    the channel's, so it hides no account the scan would accept; and the next
    reads within the lifetime reuse this snapshot. *)
Theorem snapshot_is_the_store now now' channel s rows lb snapshot lb1
    (Hmiss : cachedAccountsBefore now lb = None)
    (Hok : heap_ok lb) (Hcur : 0 <= scanCursor lb)
    (Hstore : Store lb = Some s) (Hrows : st_GetEnabledAccounts s = inl rows)
    (Hids : NoDup (map ID rows))
    (Hread : getEnabledAccounts now now' lb = (inl snapshot, lb1)) :
  let accounts := channel_accounts channel snapshot lb1 in
  snapshot_ok lb1 accounts
  /\ map (row lb1) accounts
     = (if is_empty channel then rows else List.filter (in_view (ToLower channel)) rows)
  /\ (forall a, a ∈ rows -> of_channel channel a = true -> a ∈ map (row lb1) accounts)
  /\ (forall t, rows <> [] -> t < now' + cacheTTL lb -> cachedAccountsBefore t lb1 = Some snapshot).
Proof.
  intros accounts.
  destruct (read_snapshot now now' channel s rows lb snapshot lb1) as (_ & _ & _ & Hmap & Hc & Hlen & Hexp);
    try done.
  fold accounts in Hmap. split_and!; [by eapply read_snapshot_ok|exact Hmap| |].
  - intros a Ha Hch. rewrite Hmap. destruct (is_empty channel) eqn:Ee; [done|].
    rewrite list_elem_of_In, filter_In. rewrite <- list_elem_of_In. split; [done|].
    by apply in_view_of_channel.
  - intros t Hne Ht. unfold cachedAccountsBefore. rewrite Hc, Hexp.
    assert (Time.Before t (Time.Add now' (cacheTTL lb)) = true) as ->
      by (apply Time.Before_true; exact Ht).
    assert ((0 <? length (sl_elems snapshot))%nat = true) as ->; [|done].
    apply Nat.ltb_lt. rewrite Hlen. destruct rows; [by subst|cbn; lia].
Qed.

(** once a change of some account was announced, no read is served
    from the snapshot taken before it, at any later time. *)
Theorem invalidation_forces_a_read (ids : list Z) (id : Z) now lb
    (Hid : id ∈ ids) (Hne : id <> 0) (Hnow : 0 <= now) :
  cachedAccountsBefore now (InvalidateAccounts ids lb).2 = None
  /\ cachedByChannel (InvalidateAccounts ids lb).2 = None
  /\ forall p, p ∈ sl_elems (cachedAccounts (InvalidateAccounts ids lb).2) -> ID (row lb p) <> id.
Proof.
  unfold InvalidateAccounts.
  assert (Hin : id ∈ List.filter (fun id => negb (id =? 0)) ids).
  { rewrite list_elem_of_In, filter_In, <- list_elem_of_In. split; [done|].
    apply negb_true_iff. by apply Z.eqb_neq. }
  destruct (List.filter _ ids) as [|i l] eqn:El; [by apply not_elem_of_nil in Hin|].
  assert (Hmiss : forall lb', cacheExpires lb' = Time.zero -> cachedAccountsBefore now lb' = None).
  { intros lb' He. unfold cachedAccountsBefore. rewrite He.
    replace (Time.Before now Time.zero) with false; [by rewrite andb_false_r|].
    symmetry. by apply Time.Before_false. }
  cbn zeta. destruct (sl_elems (cachedAccounts _)) as [|p0 ps] eqn:Ec; cbn [snd].
  - split_and!; [by apply Hmiss|done|]. cbn in Ec |- *. rewrite Ec. intros p Hp. by apply not_elem_of_nil in Hp.
  - split_and!; [by apply Hmiss|done|]. intros p Hp.
    assert (Hp' : p ∈ List.filter (fun q => negb (existsb (Z.eqb (ID (row lb q))) (i :: l))) (p0 :: ps)) by exact Hp.
    rewrite list_elem_of_In, filter_In in Hp'. destruct Hp' as [_ Hneg%negb_true_iff].
    intros Heq. rewrite Heq in Hneg.
    assert (existsb (Z.eqb id) (i :: l) = true) as Hex.
    { apply existsb_exists. exists id. split; [by apply list_elem_of_In|apply Z.eqb_refl]. }
    congruence.
Qed.
End snapshot.

(** ** The pool and the account policy *)

Lemma recover_if_unavailable b : recover_if b = Unavailable <-> b = false.
Proof. by destruct b. Qed.

Lemma cooldownElapsed_spec last cooldown now :
  last <> 0 -> 0 <= cooldown <= max_int64 ->
  cooldownElapsed last cooldown now = negb (now <? last + cooldown).
Proof.
  intros Hl Hc. unfold cooldownElapsed. apply Time.IsZero_false in Hl. rewrite Hl.
  pose proof (Time.Sub_ge now last cooldown Hc) as Hs.
  destruct (now <? last + cooldown) eqn:E; to_prop; cbn; [apply Z.leb_gt|apply Z.leb_le]; lia.
Qed.

(** on throttles and blocks the pool refuses an account exactly while
    the policy holds it, so the pool and the views computed from the policy
    report the same accounts as usable. *)
Theorem pool_agrees_with_policy (now : instant) (a : Account)
    (Hdecides : status_decides a = true)
    (Hstatus : str_in (TrimSpace (StatusCode a)) ["429"; "403"; "404"] = true)
    (Htype : TrimSpace (AccountType a) = AccountType a) :
  status_verdict now a = Unavailable <-> AccountHeld (Some a) now = true.
Proof.
  rewrite (AccountHeld_status _ _ Hdecides).
  assert (Hla : LastAttempt a <> 0).
  { unfold status_decides in Hdecides. apply andb_true_iff in Hdecides as [_ H].
    apply negb_true_iff in H. by apply Time.IsZero_false. }
  apply str_in_elem in Hstatus. set_unfold in Hstatus. unfold status_verdict. cbv zeta.
  destruct Hstatus as [Hs|[Hs|[Hs|[]]]].
  - rewrite Hs. change (is_empty "429") with false. cbn [String.eqb Ascii.eqb eqb].
    cbn -[recover_if AccountHeld Time.IsZero].
    apply Time.IsZero_false in Hla. rewrite Hla, recover_if_unavailable, negb_false_iff.
    by rewrite (AccountHeld_status _ _ Hdecides).
  - rewrite (held_until_blocked a) by by rewrite Hs. unfold CooldownFor, IsGrokAccount.
    rewrite Hs, Htype. cbn -[recover_if cooldownElapsed].
    rewrite recover_if_unavailable.
    destruct (EqualFold (AccountType a) "grok"); rewrite cooldownElapsed_spec by done;
      by rewrite negb_false_iff.
  - rewrite (held_until_blocked a) by by rewrite Hs. unfold CooldownFor, IsGrokAccount.
    rewrite Hs, Htype. cbn -[recover_if cooldownElapsed].
    rewrite recover_if_unavailable.
    destruct (EqualFold (AccountType a) "grok"); rewrite cooldownElapsed_spec by done;
      by rewrite negb_false_iff.
Qed.

(** on a spent allowance the two disagree.  A reset recorded
    before the end of the default day lets the pool hand the account out from
    that reset on, while the policy - and every count of available accounts
    derived from it - still reports it as held. *)
Theorem payment_hold_disagrees (now : instant) (a : Account)
    (Hdecides : status_decides a = true) (Hstatus : TrimSpace (StatusCode a) = "402"%string)
    (Hunpaid : GrokBuildAccountIsPaid (Some a) = false)
    (Hreset : QuotaResetAt a <> 0)
    (Hnow : QuotaResetAt a <= now < LastAttempt a + CooldownPayment) :
  status_verdict now a = Recovered /\ AccountHeld (Some a) now = true.
Proof.
  split.
  - unfold status_verdict. cbv zeta. rewrite Hstatus, Hunpaid.
    cbn -[recover_if Time.IsZero Time.Before]. apply Time.IsZero_false in Hreset. rewrite Hreset.
    cbn -[recover_if Time.Before]. assert (Time.Before now (QuotaResetAt a) = false) as ->; [|done].
    apply Time.Before_false. lia.
  - rewrite (AccountHeld_status _ _ Hdecides). apply Z.ltb_lt.
    pose proof (held_until_lower a) as H. unfold CooldownFor in H. rewrite Hstatus in H. cbn in H. lia.
Qed.

(** ** Full windows *)

(** A store that only serves its rows. *)
#[export] Instance RowsStore : PoolStore (list Account) := {|
  st_GetEnabledAccounts rows := inl rows;
  st_ClaimGrokPaidQuotaProbe _ _ s := (inl true, s);
  st_UpdateAccount _ s := (None, s)
|}.

(** Sixty-four busy accounts and an idle one. *)
Definition crowded_rows : list Account :=
  map (fun i => zero_account <| ID := Z.of_nat i |> <| AccountType := "cline" |> <| MaxConcurrent := 1 |>
                             <| Enabled := true |>) (seq 1 65).
Definition crowded_counts : gmap Z Z := list_to_map (map (fun i => (Z.of_nat i, 1)) (seq 1 64)).
Definition crowded_pool : LoadBalancer (list Account) (gmap Z Z) :=
  NewWithCacheTTL (Some crowded_rows) 0 crowded_counts.
Definition any_request (channel : string) : request := mkRequest (fun _ => None) [] channel None None.

(** a window whose accounts are all at their concurrency limit is
    not a window that yielded nothing, so the fallback to the whole pool does
    not run and the request fails while an idle account stands outside it. *)
Theorem full_window_hides_idle_account :
  (getNextAccountWithFilter 1 1 (fun _ => 0%nat) (any_request "cline") None crowded_pool).1.1
    = inr (Errorf (limit_error "cline"))
  /\ exists a, a ∈ crowded_rows /\ full_row (connTracker crowded_pool) a = false
       /\ gate_of 1 a = Open /\ status_verdict 1 a = Available
       /\ wanted (any_request "cline") crowded_rows a = true.
Proof.
  split; [vm_compute; reflexivity|].
  exists (default zero_account (crowded_rows !! 64%nat)).
  split; [|vm_compute; done].
  apply (list_elem_of_lookup_2 _ 64%nat). vm_compute. reflexivity.
Qed.

(** ** Pools on concrete rows *)

Section demo.
Definition first_index : nat -> nat := fun _ => 0%nat.

Lemma first_index_below n : (0 < n)%nat -> (first_index n < n)%nat.
Proof. done. Qed.

(** A pool where account 1 has one request running. *)
Definition fresh_pool (rows : list Account) : LoadBalancer (list Account) (gmap Z Z) :=
  NewWithCacheTTL (Some rows) 0 {[1 := 1]}.
Definition pool_of (rows : list Account) : LoadBalancer (list Account) (gmap Z Z) :=
  (fresh_pool rows) <| polls := S (polls (fresh_pool rows)) |>.

Definition pool_read (rows : list Account) := getEnabledAccounts 1 1 (pool_of rows).

(** What the first request to a fresh pool works on. *)
Lemma pool_loads rows :
  NoDup (map ID rows) ->
  exists snapshot lb1, pool_read rows = (inl snapshot, lb1)
    /\ snapshot_ok lb1 (channel_accounts (r_channel (any_request "cline")) snapshot lb1)
    /\ pass_rows (any_request "cline") lb1
         (channel_accounts (r_channel (any_request "cline")) snapshot lb1)
       = List.filter (in_view "cline") rows.
Proof.
  intros Hids.
  assert (Hok : heap_ok (pool_of rows)) by (intros p a Hp; cbn in Hp; by rewrite lookup_empty in Hp).
  assert (Hinl : exists snapshot lb1, pool_read rows = (inl snapshot, lb1)).
  { unfold pool_read, getEnabledAccounts. cbn [cachedAccountsBefore]. cbn -[mapM_ new].
    destruct (mapM_ new rows _) as [ps lb]. by do 2 eexists. }
  destruct Hinl as (snapshot & lb1 & Hread). exists snapshot, lb1. split; [exact Hread|].
  split; [refine (read_snapshot_ok 1 1 "cline" rows rows (pool_of rows) snapshot lb1 eq_refl Hok _
                     eq_refl eq_refl Hids Hread); by vm_compute|].
  exact (proj1 (proj2 (proj2 (proj2
    (read_snapshot 1 1 "cline" rows rows (pool_of rows) snapshot lb1 eq_refl Hok eq_refl eq_refl Hread))))).
Qed.

Definition cline_account (id : Z) : Account :=
  zero_account <| ID := id |> <| AccountType := "cline" |> <| MaxConcurrent := 1 |>.
Definition two_rows : list Account := [cline_account 1; cline_account 2].

Lemma two_rows_ids : NoDup (map ID two_rows).
Proof. closed_decide. Qed.

Abbreviation request_of := (any_request "cline").
Abbreviation answer rows := (getNextAccountWithFilter 1 1 first_index request_of None (fresh_pool rows)).

Lemma suitable_account_is_reached_witness : exists p, (answer two_rows).1.1 = inl p.
Proof.
  destruct (pool_loads two_rows two_rows_ids) as (snapshot & lb1 & Hread & Hok & Hrows).
  destruct (suitable_account_is_reached 1 1 first_index request_of None (fresh_pool two_rows)
              snapshot lb1 (cline_account 2) first_index_below (fun _ => eq_refl)) as [H _].
  - intros prepare batch Hp. discriminate Hp.
  - exact Hread.
  - exact Hok.
  - rewrite Hrows. apply (list_elem_of_lookup_2 _ 1%nat). vm_compute. reflexivity.
  - rewrite Hrows. vm_compute. reflexivity.
  - split; [vm_compute; reflexivity|]. vm_compute. discriminate.
  - destruct H as [H|H]; [exact H|]. exfalso. revert H. vm_compute. discriminate.
Defined.

Lemma selected_account_is_admissible_witness :
  exists p t lb', answer two_rows = ((inl p, t), lb')
    /\ exists a, maybe_reset a (row lb' p) /\ admissible 1 a.
Proof.
  destruct (pool_loads two_rows two_rows_ids) as (snapshot & lb1 & Hread & Hok & Hrows).
  destruct (answer two_rows) as [[[p|e] t] lb'] eqn:E.
  - destruct (selected_account_is_admissible 1 1 first_index request_of None (fresh_pool two_rows)
                snapshot lb1 p t lb' first_index_below (fun _ => eq_refl) Hread Hok E)
      as (a & batch & _ & Hm & _ & Hadm & _).
    exists p, t, lb'. split; [reflexivity|]. by exists a.
  - exfalso. revert E. vm_compute. discriminate.
Defined.

Lemma selection_is_least_loaded_witness :
  let lb := (fresh_pool two_rows) <| heap := {[1%positive := cline_account 1; 2%positive := cline_account 2]} |> in
  exists p, (select_window 1 first_index [1%positive; 2%positive] (connTracker lb) lb).1.1 = Some p
    /\ at_limit (window_counts lb [1%positive; 2%positive] (connTracker lb)) (row lb p) = false.
Proof.
  intros lb.
  destruct (select_window 1 first_index [1%positive; 2%positive] (connTracker lb) lb)
    as [[[p|] t] lb'] eqn:E.
  - destruct (selection_is_least_loaded _ _ _ _ _ _ _ _ first_index_below E) as (_ & H & _).
    exists p. split; [reflexivity|exact H].
  - exfalso. revert E. vm_compute. discriminate.
Defined.

Definition parked_rows : list Account :=
  [(cline_account 1) <| StatusCode := "429" |> <| LastAttempt := 1 |>].

Lemma empty_pool_reason_witness :
  (answer parked_rows).1.1
  = inr (Errorf (pool_error "cline" (foldl (count_withheld 1 request_of parked_rows) no_counters parked_rows))).
Proof.
  destruct (pool_loads parked_rows) as (snapshot & lb1 & Hread & Hok & Hrows); [closed_decide|].
  assert (Hf : List.filter (in_view "cline") parked_rows = parked_rows) by (vm_compute; reflexivity).
  rewrite Hf in Hrows.
  pose proof (empty_pool_reason 1 1 first_index request_of None (fresh_pool parked_rows) snapshot lb1
                (fun _ => eq_refl) (fun prepare batch Hp => ltac:(discriminate Hp)) Hread Hok) as H.
  rewrite Hrows in H. apply H. clear H.
  intros a batch Ha _ [_ Hadm]. apply Hadm. apply list_elem_of_singleton in Ha as ->.
  vm_compute. reflexivity.
Defined.

Lemma snapshot_is_the_store_witness :
  exists snapshot lb1, pool_read two_rows = (inl snapshot, lb1)
    /\ cachedAccountsBefore (4 * Second) lb1 = Some snapshot.
Proof.
  destruct (pool_loads two_rows two_rows_ids) as (snapshot & lb1 & Hread & _).
  exists snapshot, lb1. split; [exact Hread|].
  assert (Hheap : heap_ok (pool_of two_rows))
    by (intros p a Hp; cbn in Hp; by rewrite lookup_empty in Hp).
  assert (Hcur : 0 <= scanCursor (pool_of two_rows)) by (vm_compute; discriminate).
  destruct (snapshot_is_the_store (Ops := RowsStore) 1 1 "cline" two_rows two_rows (pool_of two_rows) snapshot lb1
              eq_refl Hheap Hcur eq_refl eq_refl two_rows_ids Hread) as (_ & _ & _ & H).
  apply H; [discriminate|]. vm_compute. reflexivity.
Defined.

Lemma invalidation_forces_a_read_witness :
  exists snapshot lb1, pool_read two_rows = (inl snapshot, lb1)
    /\ cachedAccountsBefore 2 (InvalidateAccounts [2] lb1).2 = None.
Proof.
  destruct (pool_loads two_rows two_rows_ids) as (snapshot & lb1 & Hread & _).
  exists snapshot, lb1. split; [exact Hread|].
  refine (proj1 (invalidation_forces_a_read [2] 2 2 lb1 _ _ _)); [set_solver|discriminate|lia].
Defined.

Lemma pool_agrees_with_policy_witness :
  let a := (cline_account 1) <| StatusCode := "429" |> <| LastAttempt := 1 |> in
  AccountHeld (Some a) 9 = true /\ status_verdict 9 a = Unavailable.
Proof.
  intros a. assert (H : AccountHeld (Some a) 9 = true) by (vm_compute; reflexivity).
  split; [exact H|]. apply (pool_agrees_with_policy 9 a); [vm_compute; reflexivity..|exact H].
Defined.

Lemma payment_hold_disagrees_witness :
  let a := (cline_account 1) <| StatusCode := "402" |> <| LastAttempt := 1 |> <| QuotaResetAt := 5 |> in
  status_verdict 9 a = Recovered /\ AccountHeld (Some a) 9 = true.
Proof.
  intros a. apply (payment_hold_disagrees 9 a); [vm_compute; reflexivity..| |].
  - discriminate.
  - split; by vm_compute.
Defined.
End demo.
