(* ===== verification/AccountReservation.v ===== *)
(** Reserving an account for a request: the channel capabilities the selection
    asks ([internal/provider/capabilities.go]), the model filter, the slot
    taken and given back, and the loop that closes the race between selecting
    an account and counting the request on it
    ([internal/handler/account_selection.go]). *)

From S2P Require Import Prelude GoFloat UpstreamErrors Account AccountPolicy RetryWait ConnTracker LoadBalancer.

(** ** Channel capabilities

    The [Capabilities] interface a channel registers. *)

Record Capabilities := mkCapabilities {
  cap_SupportsModel : Account -> string -> bool;
  cap_IsFreeModel : Account -> string -> bool;
  cap_HonorsModelCooldown : bool
}.

(** [CapabilitiesFor] of each account type: the provider registry. *)
Abbreviation registry := (string -> option Capabilities).

Section capabilities.
Context (CapabilitiesFor : registry).

Definition SupportsModel (accountType : string) (acc : Account) (model : string) : bool :=
  match CapabilitiesFor accountType with
  | None => true
  | Some caps => cap_SupportsModel caps acc model
  end.

Definition IsFreeModel (accountType : string) (acc : Account) (model : string) : bool :=
  match CapabilitiesFor accountType with
  | None => false
  | Some caps => cap_IsFreeModel caps acc model
  end.

Definition HonorsModelCooldown (accountType : string) : bool :=
  match CapabilitiesFor accountType with
  | None => false
  | Some caps => cap_HonorsModelCooldown caps
  end.

Definition honorsModelCooldown (channel : string) : bool := HonorsModelCooldown channel.

(** The filter of [selectAccountRecord], [None] when the request needs none. *)
Definition model_filter (now : instant) (targetChannel modelID : string) : option AccountFilter :=
  let model := TrimSpace modelID in
  let channel := ToLower (TrimSpace targetChannel) in
  if negb (is_empty model) && (honorsModelCooldown channel || String.eqb channel "cline") then
    Some (fun _ acc =>
      if negb (SupportsModel channel acc model) then Some ErrModelUnavailable
      else
        let kind := if honorsModelCooldown channel then ModelCooldownKind (Some acc) model now
                    else "" in
        if String.eqb kind ModelCooldownUnavailable then Some ErrModelUnavailable
        else if String.eqb kind ModelCooldownThrottled then Some ErrModelThrottled
        else if str_in (TrimSpace (StatusCode acc)) ["402"; AccountStatusWorkBuddyQuotaExhausted]
        then if String.eqb channel "workbuddy" && IsFreeModel "workbuddy" acc model then None
             else Some ErrOther
        else None)
  else None.
End capabilities.

(** ** The handler's part of the state *)

Record Handler (St T : Type) := mkHandler {
  h_loadBalancer : option (LoadBalancer St T);
  h_client : bool;                     (* whether a default client is set *)
  h_connTracker : option T
}.
Arguments mkHandler {St T}. Arguments h_loadBalancer {St T}. Arguments h_client {St T}.
Arguments h_connTracker {St T}.

#[export] Instance Handler_eta St T : Eta (Handler St T) := fun h =>
  mkHandler (h_loadBalancer h) (h_client h) (h_connTracker h).

(** What one turn of the reservation loop reads from outside: the clock, the
    draws of the selection, the request's context, and whether it ends during
    the wait. *)
Record turn := mkTurn {
  tn_now : instant;
  tn_now' : instant;
  tn_pick : nat -> nat;
  tn_ctx : context;
  tn_cancelled : option go_error
}.

Definition at_limit_suffix : string := "all matching accounts are at their concurrency limit".

Definition no_slot (targetChannel : string) : go_error :=
  Errorf ("no enabled accounts available for channel: " +:+ targetChannel +:+ " ("
          +:+ at_limit_suffix +:+ ")").

Section reservation.
Context {St T : Type} {Ops : PoolStore St} {Tr : ConnTracker T}.
(** The type assertion [h.connTracker.(LimitedConnTracker)]; the registry;
    whether a client can be built for an account. *)
Context (limited : option (LimitedConnTracker T)) (CapabilitiesFor : registry)
        (has_client : Account -> bool).

Definition account_of (h : Handler St T) (p : ptr) : Account :=
  match h_loadBalancer h with Some lb => default zero_account (heap lb !! p) | None => zero_account end.

Definition selectAccountRecord (t : turn) (targetChannel : string) (failed : list Z)
    (modelID : string) (h : Handler St T) : (ptr + go_error) * Handler St T :=
  match h_loadBalancer h with
  | None => (inr (Errorf "load balancer not configured"), h)
  | Some lb =>
      let filter := model_filter CapabilitiesFor (tn_now t) targetChannel modelID in
      let '(res, tracker, lb) :=
        getNextAccountWithFilter (tn_now t) (tn_now' t) (tn_pick t)
          (mkRequest (tn_ctx t) failed targetChannel filter None) (h_connTracker h) lb in
      (res, h <| h_loadBalancer := Some lb |> <| h_connTracker := tracker |>)
  end.

(** The account selected, or none when the default client serves. *)
Definition acquireAccountSelection (t : turn) (targetChannel : string) (channelRequired : bool)
    (failed : list Z) (modelID : string) (h : Handler St T) : (option ptr + go_error) * Handler St T :=
  match h_loadBalancer h with
  | Some _ =>
      let '(res, h) := selectAccountRecord t targetChannel failed modelID h in
      match res with
      | inr err =>
          if channelRequired then (inr err, h)
          else if h_client h then (inl None, h) else (inr err, h)
      | inl p =>
          if has_client (account_of h p) then (inl (Some p), h)
          else (inr (Errorf "no client configured"), h)
      end
  | None => if h_client h then (inl None, h) else (inr (Errorf "no client configured"), h)
  end.

(** *** Slots *)

(** The tracked id and whether the slot was taken. *)
Definition tryAcquireTrackedAccount (acc : option Account) (h : Handler St T) :
    (Z * bool) * Handler St T :=
  match acc with
  | None => ((0, true), h)
  | Some a =>
      if ID a =? 0 then ((0, true), h)
      else
        let limit := EffectiveAccountConcurrencyLimit (Some a) in
        match h_connTracker h with
        | Some t =>
            match limited, 0 <? limit with
            | Some L, true =>
                let '(ok, t) := tr_TryAcquire (LimitedConnTracker := L) (ID a) limit t in
                ((if ok then ID a else 0, ok), h <| h_connTracker := Some t |>)
            | _, _ =>
                if (0 <? limit) && (limit <=? tr_GetCount (ID a) t) then ((0, false), h)
                else ((ID a, true), h <| h_connTracker := Some (tr_Acquire (ID a) t) |>)
            end
        | None =>
            match h_loadBalancer h with
            | Some lb =>
                ((ID a, true),
                 h <| h_loadBalancer := Some (lb <| connTracker := tr_Acquire (ID a) (connTracker lb) |>) |>)
            | None => ((0, true), h)
            end
        end
  end.

Definition releaseTrackedAccount (accountID : Z) (h : Handler St T) : Handler St T :=
  if accountID =? 0 then h
  else
    match h_connTracker h with
    | Some t => h <| h_connTracker := Some (tr_Release accountID t) |>
    | None =>
        match h_loadBalancer h with
        | Some lb =>
            h <| h_loadBalancer := Some (lb <| connTracker := tr_Release accountID (connTracker lb) |>) |>
        | None => h
        end
    end.

(** *** The reservation loop

    The outcome is the account (none for the default client) with the id its
    slot is counted under.  [None] is running out of fuel. *)
Fixpoint reserve_loop (fuel i : nat) (turns : nat -> turn) (targetChannel : string)
    (channelRequired : bool) (failed : list Z) (modelID : string) (waitBudget : duration)
    (excluded full : list Z) (waited : duration) (h : Handler St T) :
    option ((option ptr * Z + go_error) * Handler St T) :=
  match fuel with
  | O => None
  | S fuel =>
      let t := turns i in
      let '(sel, h) := acquireAccountSelection t targetChannel channelRequired excluded modelID h in
      match sel with
      | inr err =>
          if (waited <? waitBudget) && contains (err_text err) at_limit_suffix then
            let delay := Z.min (250 * Millisecond) (waitBudget - waited) in
            match tn_cancelled t with
            | Some ctx_err => Some (inr ctx_err, h)
            | None =>
                reserve_loop fuel (S i) turns targetChannel channelRequired failed modelID
                  waitBudget failed [] (waited + delay) h
            end
          else if negb (bool_decide (full = [])) then Some (inr (no_slot targetChannel), h)
          else Some (inr err, h)
      | inl p =>
          let acc := account_of h <$> p in
          let '(accountID, acquired, h) := tryAcquireTrackedAccount acc h in
          if acquired then Some (inl (p, accountID), h)
          else
            match acc with
            | None => Some (inr (Errorf "failed to reserve an account concurrency slot"), h)
            | Some a =>
                if ID a =? 0 then
                  Some (inr (Errorf "failed to reserve an account concurrency slot"), h)
                else if existsb (Z.eqb (ID a)) full then Some (inr (no_slot targetChannel), h)
                else reserve_loop fuel (S i) turns targetChannel channelRequired failed modelID
                       waitBudget (excluded ++ [ID a]) (ID a :: full) waited h
            end
      end
  end.

(** [ms] is the configured reservation budget. *)
Definition acquireReservedAccountSelection (fuel : nat) (turns : nat -> turn) (ms : option Z)
    (targetChannel : string) (channelRequired : bool) (failed : list Z) (modelID : string)
    (h : Handler St T) : option ((option ptr * Z + go_error) * Handler St T) :=
  reserve_loop fuel 0 turns targetChannel channelRequired failed modelID (ReservationWaitBudget ms)
    failed [] 0 h.
End reservation.

(** * Properties *)

(** ** What a selection leaves alone

    A small Hoare logic for the pool's monad: [yields P Q m] is "from a pool
    satisfying [P], [m] ends in one that does, with a result satisfying [Q]". *)

Section yields.
Context {St T : Type} (P : LoadBalancer St T -> Prop).

Definition yields {A} (Q : A -> Prop) (m : M (St := St) (T := T) A) : Prop :=
  forall lb, P lb -> P (m lb).2 /\ Q (m lb).1.

Lemma yields_ret {A} (Q : A -> Prop) a : Q a -> yields Q (ret a).
Proof. by intros H lb Hp. Qed.

Lemma yields_bind {A B} (Q : A -> Prop) (R : B -> Prop) m (f : A -> M B) :
  yields Q m -> (forall a, Q a -> yields R (f a)) -> yields R (bind m f).
Proof.
  intros Hm Hf lb Hp. unfold bind. destruct (Hm lb Hp) as [H1 H2].
  destruct (m lb) as [a lb']. by apply Hf.
Qed.

Lemma yields_get {A} (f : LoadBalancer St T -> A) : yields (fun _ => True) (get f).
Proof. by intros lb Hp. Qed.

Lemma yields_modify f : (forall lb, P lb -> P (f lb)) -> yields (fun _ => True) (modify f).
Proof. intros H lb Hp. split; [by apply H|done]. Qed.

Lemma yields_mapM {A B} (Q : B -> Prop) (f : A -> M B) l :
  (forall x, x ∈ l -> yields Q (f x)) -> yields (Forall Q) (mapM_ f l).
Proof.
  induction l as [|x l IH]; intros H; [by apply yields_ret|]. cbn.
  eapply yields_bind; [apply H; set_solver|]. intros y Hy.
  eapply yields_bind; [apply IH; intros; apply H; set_solver|]. intros ys Hys.
  apply yields_ret. by constructor.
Qed.

Lemma yields_weaken {A} (Q R : A -> Prop) m : yields Q m -> (forall a, Q a -> R a) -> yields R m.
Proof. intros H HQ lb Hp. destruct (H lb Hp). auto. Qed.
End yields.

Create HintDb yields.
#[export] Hint Resolve yields_ret yields_get : yields.

Section selection.
Context {St T : Type} {Ops : PoolStore St} {Tr : ConnTracker T}.

(** Every account the pool and its store hold has one of [ids], or none. *)
Context (ids : list Z) (store_within : St -> Prop).

Definition id_within (a : Account) : Prop := ID a = 0 \/ ID a ∈ ids.

Record store_laws : Prop := {
  sw_rows s rows : store_within s -> st_GetEnabledAccounts s = inl rows -> Forall id_within rows;
  sw_claim id now s : store_within s -> store_within (st_ClaimGrokPaidQuotaProbe id now s).2;
  sw_update a s : store_within s -> id_within a -> store_within (st_UpdateAccount a s).2
}.
Context (Hstore : store_laws).

Definition within (lb : LoadBalancer St T) : Prop :=
  (forall p a, heap lb !! p = Some a -> id_within a)
  /\ (forall s, Store lb = Some s -> store_within s).

Abbreviation keeps := (yields within (fun _ => True)).

Lemma within_row lb p : within lb -> id_within (default zero_account (heap lb !! p)).
Proof.
  intros [H _]. destruct (heap lb !! p) as [a|] eqn:E; [by apply (H p)|by left].
Qed.

Lemma yields_deref p : yields within id_within (deref p).
Proof. intros lb H. split; [exact H|]. by apply within_row. Qed.

Lemma keeps_heap_only (f : LoadBalancer St T -> LoadBalancer St T) :
  (forall lb, heap (f lb) = heap lb) -> (forall lb, Store (f lb) = Store lb) -> keeps (modify f).
Proof.
  intros Hh Hs. apply yields_modify. intros lb [H1 H2]. split; intros *; cbn; rewrite ?Hh, ?Hs; eauto.
Qed.

Lemma keeps_assign p f : (forall a, ID (f a) = ID a) -> keeps (assign p f).
Proof.
  intros Hf. apply yields_modify. intros lb H. split; [|exact (proj2 H)].
  intros q a. cbn. destruct (decide (q = p)) as [->|].
  - rewrite lookup_insert_eq. intros [= <-]. pose proof (within_row lb p H) as Hr.
    unfold id_within in *. by rewrite Hf.
  - rewrite lookup_insert_ne by done. apply H.
Qed.

Lemma keeps_new a : id_within a -> keeps (new a).
Proof.
  intros Ha lb H. split; [|done]. split; [|exact (proj2 H)].
  intros q b. cbn. destruct (decide (q = next_ptr lb)) as [->|].
  - rewrite lookup_insert_eq. by intros [= <-].
  - rewrite lookup_insert_ne by done. apply H.
Qed.

Lemma keeps_poll ctx : keeps (poll ctx).
Proof. intros lb H. split; [exact H|done]. Qed.

Lemma keeps_rotate n : keeps (rotateScanCursor n).
Proof. intros lb H. unfold rotateScanCursor. repeat case_match; split; done. Qed.

Ltac keep := first
  [ apply yields_ret; done
  | apply keeps_poll | apply keeps_rotate | apply yields_get
  | eapply yields_bind; [keep|intros ? ?] ].

Lemma keeps_persist p : keeps (persistAccountStatus p).
Proof.
  intros lb H. unfold persistAccountStatus. destruct (Store lb) as [s|] eqn:Es; [|by split].
  pose proof (sw_update Hstore (default zero_account (heap lb !! p)) s) as Hu.
  destruct (st_UpdateAccount _ s) as [r s']. split; [|done]. split; [exact (proj1 H)|].
  intros s0 [= <-]. apply Hu; [by apply (proj2 H)|by apply within_row].
Qed.

Lemma keeps_update_cached id f : (forall a, ID (f a) = ID a) -> keeps (update_cached id f).
Proof.
  intros Hf. unfold update_cached. eapply yields_bind; [apply yields_get|]. intros [p|] _; [|keep].
  by apply keeps_assign.
Qed.

Lemma keeps_clear p : keeps (clearAccountStatus p).
Proof.
  unfold clearAccountStatus. eapply yields_bind; [by apply keeps_assign|]. intros _ _.
  eapply yields_bind; [apply yields_deref|]. intros a _.
  eapply yields_bind; [by apply keeps_update_cached|]. intros _ _. apply keeps_persist.
Qed.

Lemma keeps_claim now id : keeps (claim_probe now id).
Proof.
  intros lb H. unfold claim_probe. destruct (Store lb) as [s|] eqn:Es; [|by split].
  pose proof (sw_claim Hstore id now s (proj2 H s Es)) as Hc.
  destruct (st_ClaimGrokPaidQuotaProbe id now s) as [r s']. split; [|done].
  split; [exact (proj1 H)|]. by intros s0 [= <-].
Qed.

Lemma keeps_available now p : keeps (isAccountAvailable now p).
Proof.
  unfold isAccountAvailable. eapply yields_bind; [apply yields_deref|]. intros a _.
  eapply (yields_bind _ (fun _ => True)).
  { destruct (gate_of now a); [keep..|apply keeps_claim]. }
  intros [] _; [|keep]. cbn [negb]. destruct (status_verdict now a); [keep..|].
  eapply yields_bind; [apply keeps_clear|]. intros _ _. keep.
Qed.

Lemma keeps_scan_loop now r batch candidates filtered c :
  keeps (scan_loop now r batch candidates filtered c).
Proof.
  revert filtered c. induction candidates as [|p rest IH]; intros filtered c; [keep|].
  cbn [scan_loop]. eapply yields_bind; [apply keeps_poll|]. intros [e|] _; [keep|].
  eapply yields_bind; [apply yields_deref|]. intros a _.
  destruct (_ || _); [apply IH|]. cbv zeta. destruct (r_filter r ≫= _) as [why|]; [apply IH|].
  eapply yields_bind; [apply keeps_available|]. intros [] _; [apply IH|].
  eapply yields_bind; [apply yields_deref|]. intros b _. apply IH.
Qed.

Lemma keeps_clone p : keeps (clone_ptr p).
Proof.
  unfold clone_ptr. eapply yields_bind; [apply yields_deref|]. intros a Ha. by apply keeps_new.
Qed.

Lemma keeps_scan now r candidates : keeps (scan now r candidates).
Proof.
  unfold scan. eapply yields_bind; [apply keeps_poll|]. intros [e|] _; [keep|].
  eapply (yields_bind _ (fun _ => True)).
  { destruct (EqualFold _ _); [|keep]. eapply yields_weaken; [|done].
    apply (yields_mapM _ (fun _ => True)). intros p _. apply keeps_clone. }
  intros ps _. eapply yields_bind; [apply yields_mapM; intros p _; apply yields_deref|].
  intros batch _. destruct (r_prepare r ≫= _); [keep|]. apply keeps_scan_loop.
Qed.

Lemma keeps_scan_pool now r accounts : keeps (scan_pool now r accounts).
Proof.
  unfold scan_pool. cbv zeta. destruct (_ <? _); [|apply keeps_scan].
  eapply yields_bind; [apply keeps_rotate|]. intros start _.
  eapply yields_bind; [apply keeps_scan|]. intros [[[|p ps] c]|e] _; [apply keeps_scan|keep..].
Qed.

Lemma keeps_read now now' : keeps (getEnabledAccounts now now').
Proof.
  intros lb H. split; [|done]. unfold getEnabledAccounts.
  destruct (cachedAccountsBefore now lb); [exact H|].
  destruct (Store lb) as [s|] eqn:Es; [|exact H].
  destruct (st_GetEnabledAccounts s) as [rows|e] eqn:Er; [|exact H].
  pose proof (sw_rows Hstore s rows (proj2 H s Es) Er) as Hrows. rewrite Forall_forall in Hrows.
  destruct (yields_mapM within (fun _ => True) new rows (fun a Ha => keeps_new a (Hrows a Ha)) lb H)
    as [Hw _].
  destruct (mapM_ new rows lb) as [ps lb2]. exact Hw.
Qed.

(** Selection reads the tracker and changes none of its counts. *)
Context {Laws : ConnTrackerLaws T}.

Definition reads_only (t : T) (res : option ptr * T) : Prop :=
  forall id, tr_GetCount id res.2 = tr_GetCount id t.

Lemma yields_select_window now pick ps t : yields within (reads_only t) (select_window now pick ps t).
Proof.
  destruct ps as [|p0 ps]; [by apply yields_ret|]. unfold select_window.
  eapply yields_bind; [apply yields_mapM; intros p _; apply yields_deref|]. intros accs _.
  pose proof (gc_state (map ID accs) t) as Hg. destruct (tr_GetCounts _ t) as [counts t'].
  assert (Hro : forall p, reads_only t (p, t')) by (intros p id; apply Hg).
  destruct (least_loaded counts accs); [by apply yields_ret|].
  eapply yields_bind; [apply yields_get|]. intros last _. cbv zeta.
  destruct (_ !! _) as [p|]; [|by apply yields_ret].
  eapply yields_bind; [apply yields_deref|]. intros a _.
  eapply yields_bind; [by apply keeps_heap_only|]. intros _ _. by apply yields_ret.
Qed.

Lemma yields_select_windows fuel now pick accounts start offset t :
  yields within (reads_only t) (select_windows fuel now pick accounts start offset t).
Proof.
  revert offset t. induction fuel as [|fuel IH]; intros offset t; [by apply yields_ret|].
  cbn [select_windows]. cbv zeta. destruct (_ <=? _); [by apply yields_ret|].
  eapply yields_bind; [apply yields_select_window|]. intros [[p|] t'] Ht; [by apply yields_ret|].
  eapply yields_weaken; [apply IH|]. intros res H id. rewrite H. apply Ht.
Qed.

Lemma yields_select now pick accounts t :
  yields within (reads_only t) (selectAccountWithTracker now pick accounts t).
Proof.
  unfold selectAccountWithTracker. destruct accounts as [|p ps]; [by apply yields_ret|].
  destruct (_ <? _); [|apply yields_select_window].
  eapply yields_bind; [apply keeps_rotate|]. intros start _. apply yields_select_windows.
Qed.

(** A call with the handler's tracker. *)
Lemma yields_getNext now now' pick r t :
  yields within
    (fun res => exists t', res.2 = Some t' /\ forall id, tr_GetCount id t' = tr_GetCount id t)
    (getNextAccountWithFilter now now' pick r (Some t)).
Proof.
  assert (Hsame : forall x : ptr + go_error,
    (fun res : (ptr + go_error) * option T =>
       exists t', res.2 = Some t' /\ forall id, tr_GetCount id t' = tr_GetCount id t) (x, Some t))
    by (intros x; by exists t).
  unfold getNextAccountWithFilter. eapply yields_bind; [apply keeps_poll|].
  intros [e|] _; [by apply yields_ret|].
  eapply yields_bind; [apply keeps_read|]. intros [accounts|e] _; [|by apply yields_ret].
  eapply yields_bind; [apply yields_get|]. intros ps _.
  eapply yields_bind; [apply keeps_scan_pool|]. intros [[[|p found] c]|e] _; [by apply yields_ret| |by apply yields_ret].
  eapply yields_bind; [apply yields_get|]. intros own _.
  eapply yields_bind; [apply yields_select|]. intros [picked used] Hu.
  eapply (yields_bind _ (fun tr => tr = Some used)); [by apply yields_ret|]. intros tr ->.
  destruct picked; apply yields_ret; exists used; (split; [done|exact Hu]).
Qed.
End selection.

(** ** Reservations *)

(** The share of [id] in a request that tracks [tracked]. *)
Definition own (tracked id : Z) : Z := one_if (negb (tracked =? 0) && (id =? tracked)).

Lemma own_none id : own 0 id = 0.
Proof. done. Qed.

Lemma own_is aid id : aid <> 0 -> own aid id = one_if (id =? aid).
Proof. intros H. unfold own. by apply Z.eqb_neq in H as ->. Qed.

Section slots.
Context {St T : Type} {Ops : PoolStore St} {Tr : ConnTracker T} {L : LimitedConnTracker T}.
Context {Laws : ConnTrackerLaws T} {Slots : SlotLaws T}.
Context (bounded : bool) (CapabilitiesFor : registry) (has_client : Account -> bool).
Context (ids : list Z) (store_within : St -> Prop) (Hstore : store_laws ids store_within).
Abbreviation limited := (if bounded then Some L else None).

Definition count (h : Handler St T) (id : Z) : Z :=
  match h_connTracker h with Some t => tr_GetCount id t | None => 0 end.

(** A handler as production wires it: a pool and a shared tracker. *)
Definition wired (h : Handler St T) : Prop :=
  exists lb t, h_loadBalancer h = Some lb /\ within ids store_within lb /\ h_connTracker h = Some t.

(** No counter is about to overflow. *)
Definition quiet (h : Handler St T) : Prop := forall id, 0 <= count h id < max_int64.

Lemma selection_keeps_counts t channel required failed model h res h' :
  wired h ->
  acquireAccountSelection CapabilitiesFor has_client t channel required failed model h = (res, h') ->
  wired h' /\ forall id, count h' id = count h id.
Proof.
  intros (lb & tr & Hlb & Hw & Ht). unfold acquireAccountSelection, selectAccountRecord. rewrite Hlb, Ht.
  match goal with |- context [getNextAccountWithFilter ?a ?b ?c ?d ?e lb] =>
    destruct (yields_getNext ids store_within Hstore a b c d tr lb Hw) as [Hw' (t' & Ht' & Hc)];
    destruct (getNextAccountWithFilter a b c d e lb) as [[sel tracker] lb'] end.
  cbn [fst snd] in Hw', Ht'. subst tracker.
  intros H.
  assert (h' = h <| h_loadBalancer := Some lb' |> <| h_connTracker := Some t' |>) as ->.
  { destruct sel; repeat case_match; by injection H as _ <-. }
  split; [by exists lb', t'|]. intros id. unfold count. rewrite Ht. apply Hc.
Qed.

(** What an attempt to take a slot for [acc] did: the request is counted once
    under [aid], below the account's limit, or not at all. *)
Record slot_taken (acc : option Account) (h : Handler St T) (aid : Z) (ok : bool)
    (h' : Handler St T) : Prop := {
  st_wired : wired h';
  st_pool : h_loadBalancer h' = h_loadBalancer h;
  st_count id : count h' id = count h id + own aid id;
  st_failed : ok = false -> aid = 0;
  st_limit : aid <> 0 -> exists a, acc = Some a /\ ID a = aid
    /\ (0 < EffectiveAccountConcurrencyLimit acc -> count h' aid <= EffectiveAccountConcurrencyLimit acc)
}.

Lemma no_slot_taken acc h ok : wired h -> slot_taken acc h 0 ok h.
Proof. intros Hw. split; try done. intros id. rewrite own_none. lia. Qed.

Lemma one_slot_taken a h t t' :
  wired h -> h_connTracker h = Some t -> ID a <> 0 ->
  (forall j, tr_GetCount j t' = tr_GetCount j t + one_if (j =? ID a)) ->
  (0 < EffectiveAccountConcurrencyLimit (Some a) ->
   tr_GetCount (ID a) t < EffectiveAccountConcurrencyLimit (Some a)) ->
  slot_taken (Some a) h (ID a) true (h <| h_connTracker := Some t' |>).
Proof.
  intros (lb & t0 & Hlb & Hw & _) Ht Hne Hadd Hlim. split; try done.
  - by exists lb, t'.
  - intros id. rewrite own_is by done. unfold count. rewrite Ht. apply Hadd.
  - intros _. exists a. split_and!; [done..|]. intros Hl.
    change (tr_GetCount (ID a) t' <= EffectiveAccountConcurrencyLimit (Some a)).
    rewrite Hadd, Z.eqb_refl. specialize (Hlim Hl). unfold one_if. lia.
Qed.

Lemma try_takes_slot acc h aid ok h' :
  wired h -> quiet h -> tryAcquireTrackedAccount limited acc h = (aid, ok, h') ->
  slot_taken acc h aid ok h'.
Proof.
  intros Hwired Hq. pose proof Hwired as (lb & t & Hlb & Hw & Ht). unfold tryAcquireTrackedAccount.
  destruct acc as [a|]; [|intros [= <- <- <-]; by apply no_slot_taken].
  destruct (ID a =? 0) eqn:E0; [intros [= <- <- <-]; by apply no_slot_taken|].
  apply Z.eqb_neq in E0. rewrite Ht. set (limit := EffectiveAccountConcurrencyLimit (Some a)).
  assert (Ha : 0 <= tr_GetCount (ID a) t < max_int64).
  { specialize (Hq (ID a)). unfold count in Hq. by rewrite Ht in Hq. }
  assert (Hplain : (if (0 <? limit) && (limit <=? tr_GetCount (ID a) t) then (0, false, h)
                    else (ID a, true, h <| h_connTracker := Some (tr_Acquire (ID a) t) |>)) = (aid, ok, h') ->
    slot_taken (Some a) h aid ok h').
  { destruct ((0 <? limit) && _) eqn:El; intros [= <- <- <-]; [by apply no_slot_taken|].
    apply (one_slot_taken a h t); try done; [by apply sl_acquire|].
    intros Hl. apply andb_false_iff in El as [El|El]; to_prop; lia. }
  destruct bounded; [|exact Hplain]. destruct (0 <? limit) eqn:El; [|exact Hplain]. apply Z.ltb_lt in El.
  destruct (tr_TryAcquire (ID a) limit t) as [[] t1] eqn:Etry; intros [= <- <- <-].
  - destruct (sl_taken _ _ _ _ El Ha Etry) as [H1 H2]. by apply (one_slot_taken a h t).
  - split; try done; [by exists lb, t1|].
    intros id. rewrite own_none. unfold count. rewrite Ht. cbn.
    rewrite (sl_refused _ _ _ _ Etry). lia.
Qed.

Lemma release_gives_back aid h :
  wired h -> 0 <= count h aid <= max_int64 -> (aid <> 0 -> 0 < count h aid) ->
  wired (releaseTrackedAccount aid h)
  /\ h_loadBalancer (releaseTrackedAccount aid h) = h_loadBalancer h
  /\ forall id, count (releaseTrackedAccount aid h) id = count h id - own aid id.
Proof.
  intros Hwired Hc Hpos. pose proof Hwired as (lb & t & Hlb & Hw & Ht). unfold releaseTrackedAccount.
  destruct (aid =? 0) eqn:E0; to_prop.
  - subst. split_and!; [done..|]. intros id. rewrite own_none. lia.
  - rewrite Ht. split_and!; [by exists lb, (tr_Release aid t)|done|]. intros id.
    rewrite own_is by done. unfold count in *. rewrite Ht in *. cbn.
    apply sl_release. specialize (Hpos E0). lia.
Qed.

(** *** The loop *)

(** The id the loop's answer is counted under. *)
Definition reserved (res : option ptr * Z + go_error) : Z :=
  match res with inl (_, aid) => aid | inr _ => 0 end.

Lemma account_within h p : wired h -> id_within ids (account_of h p).
Proof.
  intros (lb & t & Hlb & Hw & _). unfold account_of. rewrite Hlb.
  exact (within_row ids store_within lb p Hw).
Qed.

(** What a reservation leaves: the slot it answers for, and nothing else. *)
Record reservation_ok (h : Handler St T) (res : option ptr * Z + go_error) (h' : Handler St T) : Prop := {
  ro_wired : wired h';
  ro_count id : count h' id = count h id + own (reserved res) id;
  ro_account : reserved res <> 0 -> exists q, res = inl (Some q, ID (account_of h' q))
    /\ (0 < EffectiveAccountConcurrencyLimit (Some (account_of h' q)) ->
         count h' (reserved res) <= EffectiveAccountConcurrencyLimit (Some (account_of h' q)))
}.

Lemma reservation_failed h h' err :
  wired h' -> (forall id, count h' id = count h id) -> reservation_ok h (inr err) h'.
Proof. intros Hw Hc. split; [done| |done]. intros id. rewrite Hc, own_none. lia. Qed.

Lemma reservation_granted h h1 p aid h2 :
  (forall id, count h1 id = count h id) ->
  slot_taken (account_of h1 <$> p) h1 aid true h2 -> reservation_ok h (inl (p, aid)) h2.
Proof.
  intros Hc [Hw Hpool Hcount _ Hlim]. split; [done| |].
  - intros id. rewrite Hcount, Hc. done.
  - intros Hne. destruct (Hlim Hne) as (a & Ha & <- & Hl). destruct p as [q|]; [|done].
    injection Ha as <-. exists q.
    assert (account_of h2 q = account_of h1 q) as -> by (unfold account_of; by rewrite Hpool).
    by split.
Qed.

Lemma reservation_later h h1 res h' :
  (forall id, count h1 id = count h id) -> reservation_ok h1 res h' -> reservation_ok h res h'.
Proof. intros Hc [Hw Hcount Ha]. split; [done| |done]. intros id. by rewrite Hcount, Hc. Qed.

Lemma full_bound (full : list Z) :
  NoDup full -> (forall x, x ∈ full -> x ∈ ids) -> (length full <= length ids)%nat.
Proof. intros Hnd Hin. apply submseteq_length. by apply NoDup_submseteq. Qed.

Abbreviation loop := (reserve_loop limited CapabilitiesFor has_client).

Lemma reserve_loop_ends fuel i turns channel required failed model budget excluded full waited waits h :
  wired h -> quiet h -> NoDup full -> (forall x, x ∈ full -> x ∈ ids) ->
  budget - waited <= Z.of_nat waits * (250 * Millisecond) ->
  (waits * S (length ids) + (length ids - length full) < fuel)%nat ->
  exists res h', loop fuel i turns channel required failed model budget excluded full waited h
                 = Some (res, h') /\ reservation_ok h res h'.
Proof.
  revert i excluded full waited waits h.
  induction fuel as [|fuel IH]; intros i excluded full waited waits h Hw Hq Hnd Hin Hwait Hfuel; [lia|].
  cbn [reserve_loop]. cbv zeta.
  destruct (acquireAccountSelection _ _ _ _ _ _ _ h) as [sel h1] eqn:Esel.
  destruct (selection_keeps_counts _ _ _ _ _ _ _ _ Hw Esel) as [Hw1 Hc1].
  assert (Hq1 : quiet h1) by (intros id; rewrite Hc1; apply Hq).
  assert (Hfail : forall err h', wired h' -> (forall id, count h' id = count h id) ->
    exists res h'', Some (inr err : option ptr * Z + go_error, h') = Some (res, h'') /\ reservation_ok h res h'')
    by (intros err h' ??; do 2 eexists; split; [done|by apply reservation_failed]).
  destruct sel as [p|err].
  - destruct (tryAcquireTrackedAccount limited _ h1) as [[aid ok] h2] eqn:Etry.
    pose proof (try_takes_slot _ _ _ _ _ Hw1 Hq1 Etry) as Hslot.
    destruct ok; [do 2 eexists; split; [done|by eapply reservation_granted]|].
    destruct Hslot as [Hw2 _ Hc2 Hz _]. specialize (Hz eq_refl) as ->.
    assert (Hc : forall id, count h2 id = count h id) by (intros id; rewrite Hc2, Hc1, own_none; lia).
    destruct p as [q|]; cbn [fmap option_fmap option_map]; [|by apply Hfail].
    pose proof (account_within h1 q Hw1) as [H0|Hid]; [rewrite H0; by apply Hfail|].
    destruct (ID (account_of h1 q) =? 0); [by apply Hfail|].
    destruct (existsb _ full) eqn:Eseen; [by apply Hfail|].
    assert (Hnew : NoDup (ID (account_of h1 q) :: full)).
    { apply NoDup_cons. split; [|done]. intros Hx. apply not_true_iff_false in Eseen. apply Eseen.
      apply existsb_exists. eexists. split; [by apply list_elem_of_In|apply Z.eqb_refl]. }
    assert (Hsub : forall x, x ∈ ID (account_of h1 q) :: full -> x ∈ ids)
      by (intros x [->|Hx]%elem_of_cons; [done|by apply Hin]).
    pose proof (full_bound _ Hnew Hsub) as Hlen. cbn [length] in Hlen.
    destruct (IH (S i) (excluded ++ [ID (account_of h1 q)]) (ID (account_of h1 q) :: full) waited waits h2 Hw2) as (res & h' & Hr & Hok);
      [intros id; rewrite Hc; apply Hq|done|done|done|cbn [length]; lia|].
    exists res, h'. split; [exact Hr|by eapply reservation_later].
  - destruct ((waited <? budget) && _) eqn:Eb; [|destruct (negb _); by apply Hfail].
    apply andb_true_iff in Eb as [Eb _]. apply Z.ltb_lt in Eb.
    destruct (tn_cancelled (turns i)); [by apply Hfail|].
    destruct waits as [|waits]; [lia|]. rewrite Nat.mul_succ_l in Hfuel.
    destruct (IH (S i) failed [] (waited + Z.min (250 * Millisecond) (budget - waited)) waits h1 Hw1 Hq1)
      as (res & h' & Hr & Hok); [constructor|set_solver|lia|cbn [length]; lia|].
    exists res, h'. split; [exact Hr|by eapply reservation_later].
Qed.

Lemma reservation_ends (turns : nat -> turn) (ms : option Z) (channel model : string)
    (required : bool) (failed : list Z) (h : Handler St T)
    (Hwired : wired h) (Hquiet : quiet h) :
  exists res h', acquireReservedAccountSelection limited CapabilitiesFor has_client
                   (9 * S (length ids)) turns ms channel required failed model h = Some (res, h')
    /\ reservation_ok h res h'.
Proof.
  unfold acquireReservedAccountSelection. pose proof (ReservationWaitBudget_range ms) as Hb.
  change AccountReservationWaitBudget with 2000000000 in Hb.
  apply (reserve_loop_ends _ _ _ _ _ _ _ _ _ _ _ 8); try done.
  - constructor.
  - set_solver.
  - unfold Millisecond. lia.
  - cbn [length]. lia.
Qed.

(** reserving an account always ends - within nine turns for every
    account there is, one more than the waits its budget allows - and takes
    exactly what it answers for: one slot of the account it returns, below
    that account's limit, or no slot at all when it fails, however often it
    lost the race for one. *)
Theorem reservation_ends_with_its_slot (turns : nat -> turn) (ms : option Z) (channel model : string)
    (required : bool) (failed : list Z) (h : Handler St T)
    (Hwired : wired h) (Hquiet : quiet h) :
  exists res h', acquireReservedAccountSelection limited CapabilitiesFor has_client
                   (9 * S (length ids)) turns ms channel required failed model h = Some (res, h')
    /\ reservation_ok h res h'.
Proof. by apply reservation_ends. Qed.
End slots.

(** A handler over the pool of two accounts, the first one busy. *)

Section demo.
Definition rows_within (ids : list Z) (rows : list Account) : Prop := Forall (id_within ids) rows.

Lemma rows_laws ids : store_laws ids (rows_within ids).
Proof. split; cbn; [|done..]. intros s rows Hs [= <-]. exact Hs. Qed.

Definition demo_handler : Handler (list Account) (gmap Z Z) :=
  mkHandler (Some (fresh_pool two_rows)) false (Some {[1 := 1]}).
Definition demo_turns : nat -> turn := fun i => mkTurn 1 1 first_index (fun _ => None) None.
Definition no_registry : registry := fun _ => None.

Lemma demo_wired : wired [1; 2] (rows_within [1; 2]) demo_handler.
Proof.
  exists (fresh_pool two_rows), {[1 := 1]}. split_and!; [done| |done]. split.
  - intros p a Hp. cbn in Hp. by rewrite lookup_empty in Hp.
  - intros s [= <-]. repeat constructor; right; set_solver.
Qed.

Lemma demo_quiet : quiet demo_handler.
Proof.
  intros id. cbn. unfold Memory.GetCount, max_int64. destruct (decide (id = 1)) as [->|].
  - rewrite lookup_singleton_eq. cbn. lia.
  - rewrite lookup_singleton_ne by done. cbn. lia.
Qed.

Abbreviation demo_reservation :=
  (acquireReservedAccountSelection (Some MemoryLimitedConnTracker) no_registry (fun _ => true)
    (9 * S (length [1; 2])) demo_turns None "cline" true [] "m" demo_handler).

Lemma reservation_ends_with_its_slot_witness :
  exists res h', demo_reservation = Some (res, h') /\ reserved res = 2 /\ count h' 2 = 1.
Proof.
  assert (Hres : (match demo_reservation with Some (res, _) => reserved res | None => 0 end) = 2)
    by (vm_compute; reflexivity).
  destruct (reservation_ends_with_its_slot true no_registry (fun _ => true) [1; 2] (rows_within [1; 2])
              (rows_laws [1; 2]) demo_turns None "cline" "m" true [] demo_handler demo_wired demo_quiet)
    as (res & h' & Hrun & [_ Hcount _]).
  rewrite Hrun in Hres.
  exists res, h'. split; [exact Hrun|]. split; [exact Hres|]. rewrite Hcount, Hres. vm_compute. reflexivity.
Defined.
End demo.
