(* ===== verification/RequestAttempts.v ===== *)
(** The life of one inference request across upstream attempts
    ([internal/handler/request_attempts.go]): what each failure does to the
    account, whether and where the request is tried again, and how long it
    waits. *)

From Stdlib Require Import Ascii.
From S2P Require Import Prelude GoFloat UpstreamErrors Account AccountPolicy RetryWait ConnTracker LoadBalancer AccountReservation.

(** ** Refusal fingerprints *)

Definition is_hex (c : ascii) : bool :=
  let n := N_of_ascii c in ((48 <=? n) && (n <=? 57) || (97 <=? n) && (n <=? 102))%N.

Definition is_digit (c : ascii) : bool :=
  let n := N_of_ascii c in ((48 <=? n) && (n <=? 57))%N.

(** The length of the longest prefix of [s] in the class [p]. *)
Fixpoint run_length (p : ascii -> bool) (s : string) : nat :=
  match s with
  | String c s => if p c then S (run_length p s) else 0%nat
  | EmptyString => 0%nat
  end.

(** [ReplaceAllString] of [[0-9a-f]{8,}|\d+] by ["#"]: at each position the first
    alternative that matches, as far as it goes.  [skip] bytes are inside the
    current match. *)
Fixpoint replace_volatile (skip : nat) (s : string) : string :=
  match s with
  | EmptyString => EmptyString
  | String c rest =>
      match skip with
      | S skip => replace_volatile skip rest
      | O =>
          let hex := run_length is_hex s in
          let digits := run_length is_digit s in
          if (8 <=? hex)%nat then String "#" (replace_volatile (hex - 1) rest)
          else if (1 <=? digits)%nat then String "#" (replace_volatile (digits - 1) rest)
          else String c (replace_volatile 0 rest)
      end
  end.

Definition fingerprint_of (errStr : string) : string :=
  replace_volatile 0 (take_bytes 512 (ToLower errStr)).

Record blockedRefusal := mkBlocked {
  br_status : string;
  br_fingerprint : string;
  br_accountID : Z
}.

Definition no_refusal : blockedRefusal := mkBlocked "" "" 0.

(** The verdict and the record after it; [acc] is the current account. *)
Definition sameRefusalOnAnotherAccount (verdict : Verdict) (errStr : string) (acc : option Account)
    (previous : blockedRefusal) : bool * blockedRefusal :=
  match acc with
  | Some a =>
      if bool_decide (v_Scope verdict = ScopeAccount)
         && (String.eqb (v_Status verdict) "403" || String.eqb (v_Status verdict) "404")
      then
        let current := mkBlocked (v_Status verdict) (fingerprint_of errStr) (ID a) in
        (negb (br_accountID previous =? 0) && negb (br_accountID previous =? br_accountID current)
         && String.eqb (br_status previous) (br_status current)
         && String.eqb (br_fingerprint previous) (br_fingerprint current), current)
      else (false, previous)
  | None => (false, previous)
  end.

(** Why a context ended: its deadline, or anything else. *)
Inductive cause := DeadlineExceeded | Canceled.

Definition cancellationCategory (why : cause) : string :=
  match why with DeadlineExceeded => "timeout" | Canceled => "client_closed" end.

(** ** The request *)

(** How the request ends. *)
Inductive answer :=
| Answered                                   (* the stream handler already answered *)
| Completed                                  (* the attempt succeeded *)
| Failure (category message : string) (retryAfter : duration)
| EndTurn                                    (* [finishResponse("end_turn")] *)
| NoAvailableAccount (lastErr : string) (selectErr : go_error).

Record settings := mkSettings {
  s_MaxRetries : Z;
  s_RetryDelay : Z;                          (* milliseconds *)
  s_SharedRefusalWaitBudgetMs : option Z;
  s_AccountReservationWaitBudgetMs : option Z;
  s_targetChannel : string;
  s_reqModel : string;                       (* the model the client asked for *)
  s_model : string                           (* the upstream model it was mapped to *)
}.

Definition max_retries (c : settings) : Z := Z.min (Z.max (s_MaxRetries c) 0) GenerationMaxRetries.
Definition retry_delay (c : settings) : duration := i64 (s_RetryDelay c * Millisecond).

(** What one turn of the loop learns from outside: the stream handler's state,
    the upstream call, the request's context at each place it is asked, the
    clock, and the turns of a reservation. *)
Record observation := mkObservation {
  o_returned : bool;                         (* [terminalState] before the call *)
  o_err : option go_error;                   (* what the call returned *)
  o_used : Z;                                (* [attemptBudget.Used()] after it *)
  o_terminal : bool * bool;                  (* [terminalState] after it *)
  o_ended : option cause;                    (* [ctx.Err()] after it *)
  o_output : bool;                           (* [hasAnyOutput] *)
  o_now : instant;
  o_ended_later : bool;                      (* [ctx.Err()] before the retry checks *)
  o_turns : nat -> turn;
  o_rnd : Z -> Z;
  o_ctx_err : option go_error;               (* [ctx.Err()] and deadline at [RetryWaitFits] *)
  o_deadline : option instant;
  o_ended_waiting : option cause             (* set when the sleep is interrupted *)
}.

Section requests.
Context {St T : Type} {Ops : PoolStore St} {Tr : ConnTracker T}.
Context (limited : option (LimitedConnTracker T)) (CapabilitiesFor : registry)
        (has_client : Account -> bool) (cfg : settings).

Record execution := mkExecution {
  e_h : Handler St T;
  e_account : option ptr;
  e_tracked : Z;
  e_failed : list Z;
  e_failed_set : gset Z;
  e_refusal : blockedRefusal;
  e_attempt : Z;
  e_retries : Z;
  e_used : Z;
  e_waited : duration;
  e_attempted : gset Z
}.

#[export] Instance execution_eta : Eta execution := fun e =>
  mkExecution (e_h e) (e_account e) (e_tracked e) (e_failed e) (e_failed_set e) (e_refusal e)
    (e_attempt e) (e_retries e) (e_used e) (e_waited e) (e_attempted e).

(** The state [run] starts from, after the initial reservation. *)
Definition start (h : Handler St T) (account : option ptr) (tracked : Z) (failed : list Z) : execution :=
  mkExecution h account tracked failed (list_to_set failed) no_refusal 0 (max_retries cfg) 0 0 ∅.

Definition current (e : execution) : option Account := account_of (e_h e) <$> e_account e.

(** A stage of a turn goes on, ends the request, or ran out of fuel. *)
Inductive stage :=
| Continue (e : execution)
| End_ (a : answer) (e : execution)
| OutOfFuel.

Definition andThen (s : stage) (k : execution -> stage) : stage :=
  match s with Continue e => k e | End_ a e => End_ a e | OutOfFuel => OutOfFuel end.

Definition failure (err : go_error) : answer :=
  Failure (Category (ClassifyUpstreamError (err_text err))) (PublicMessage (err_text err))
    (upstreamRetryAfter err).

(** *** The account's verdict *)

(** [freeTierHold]: until the plan resets, six hours at most. *)
Definition free_tier_hold (now : instant) (acc : Account) : duration :=
  let reset := wb_ResetAt (WorkBuddyQuota acc) in
  if Time.After reset now then
    let until := Time.Sub reset now in
    if until <? 6 * Hour then until else 6 * Hour
  else 6 * Hour.

(** What a verdict does to the pool's row of the account. *)
Definition record_verdict (now : instant) (verdict : Verdict) (p : ptr) : M (St := St) (T := T) unit :=
  if bool_decide (v_Scope verdict = ScopeModel) && negb (is_empty (v_Model verdict))
     && (0 <? v_Cooldown verdict)
  then
    bind (assign p (fun a => RecordModelCooldownWithReason now a (v_Model verdict)
                               (Time.Add now (v_Cooldown verdict)) (v_ModelCooldownKind verdict)))
      (fun _ => persistAccountStatus p)
  else if negb (is_empty (v_Status verdict)) then
    bind (assign p (Apply now verdict)) (fun _ =>
    bind (assign p (fun a =>
            if String.eqb (v_Status verdict) AccountStatusWorkBuddyQuotaExhausted
               && IsFreeModel CapabilitiesFor "workbuddy" a (s_model cfg)
            then RecordModelCooldownWithReason now a (s_model cfg)
                   (Time.Add now (free_tier_hold now a)) ModelCooldownUnavailable
            else a)) (fun _ =>
    PersistAppliedAccountStatus (Some p)))
  else ret tt.

Definition mark_account (o : observation) (verdict : Verdict) (e : execution) : execution :=
  match e_account e, h_loadBalancer (e_h e) with
  | Some p, Some lb =>
      match Store lb with
      | Some _ =>
          let '(_, lb) := record_verdict (o_now o) verdict p lb in
          e <| e_h := (e_h e) <| h_loadBalancer := Some lb |> |>
      | None => e
      end
  | _, _ => e
  end.

(** *** Before the retry *)

(** The call's outcome, up to the class of its error. *)
Definition after_call (o : observation) (e : execution) (k : go_error -> execution -> stage) : stage :=
  if o_returned o then End_ Answered e
  else
    let e := e <| e_attempted := match current e with
                                 | Some a => {[ID a]} ∪ e_attempted e
                                 | None => e_attempted e
                                 end |>
               <| e_used := o_used o |> in
    match o_err o with
    | None => End_ Completed e
    | Some err =>
        if fst (o_terminal o) then End_ (if snd (o_terminal o) then Answered else Completed) e
        else match o_ended o with
             | Some why =>
                 End_ (Failure (cancellationCategory why)
                         (CategoryMessage (cancellationCategory why)) 0) e
             | None => if o_output o then End_ (failure err) e else k err e
             end
    end.

(** The verdict, the account it is recorded on, and whether the request may be
    tried again at all. *)
Definition judge (o : observation) (verdict : Verdict) (err : go_error) (e : execution) : stage :=
  let '(same, refusal) := sameRefusalOnAnotherAccount verdict (err_text err) (current e) (e_refusal e) in
  let e := e <| e_refusal := refusal |> in
  if same then End_ (failure err) e
  else
    let e := mark_account o verdict e in
    if negb (v_Retryable verdict) then
      if String.eqb (Category (ClassifyUpstreamError (err_text err))) "canceled" then
        End_ (if o_ended_later o then EndTurn
              else Failure "server" "Upstream request was canceled unexpectedly" 0) e
      else End_ (failure err) e
    else if o_ended_later o then End_ EndTurn e
    else if (e_retries e <=? 0) || (Remaining (WithAttemptBudget (max_retries cfg + 1)) (e_used e) <=? 0)
    then End_ (failure err) e
    else if v_SwitchAccount verdict && (MaxAccountSwitches <=? Z.of_nat (size (e_attempted e)))
    then End_ (failure err) e
    else Continue (e <| e_retries := e_retries e - 1 |>).

(** *** Switching accounts *)

Definition give_slot_back (e : execution) : execution :=
  if e_tracked e =? 0 then e
  else e <| e_h := releaseTrackedAccount (e_tracked e) (e_h e) |> <| e_tracked := 0 |>.

Definition add_failed (e : execution) : execution :=
  match current e with
  | Some a =>
      if bool_decide (ID a ∈ e_failed_set e) then e
      else e <| e_failed_set := {[ID a]} ∪ e_failed_set e |> <| e_failed := e_failed e ++ [ID a] |>
  | None => e
  end.

Definition switch_account (fuel : nat) (o : observation) (verdict : Verdict) (err : go_error)
    (e : execution) : stage :=
  if v_SwitchAccount verdict && bool_decide (is_Some (e_account e))
     && bool_decide (is_Some (h_loadBalancer (e_h e)))
  then
    let previous := e_account e in
    let e := give_slot_back (add_failed e) in
    match acquireReservedAccountSelection limited CapabilitiesFor has_client fuel (o_turns o)
            (s_AccountReservationWaitBudgetMs cfg) (s_targetChannel cfg) true (e_failed e) (s_model cfg)
            (e_h e) with
    | None => OutOfFuel
    | Some (inl (next, tracked), h) =>
        Continue (e <| e_h := h |> <| e_account := next |> <| e_tracked := tracked |>)
    | Some (inr selectErr, h) =>
        let e := e <| e_h := h |> in
        if shouldRetryCurrentAccountWhenNoAlternative (Category (ClassifyUpstreamError (err_text err)))
        then
          let '(tracked, acquired, h) :=
            tryAcquireTrackedAccount limited (account_of h <$> previous) h in
          if acquired then Continue (e <| e_h := h |> <| e_account := previous |> <| e_tracked := tracked |>)
          else End_ (NoAvailableAccount (err_text err) selectErr) (e <| e_h := h |>)
        else End_ (NoAvailableAccount (err_text err) selectErr) e
    end
  else Continue e.

(** *** Waiting *)

(** The wait before the next attempt: the configured delay or the upstream's
    hint, or a probe of a shared refusal. *)
Definition plain_delay (err : go_error) (e : execution) : duration :=
  let delay := computeRetryDelay (retry_delay cfg) (e_attempt e + 1)
                 (Category (ClassifyUpstreamError (err_text err))) in
  if delay <? upstreamRetryAfter err then upstreamRetryAfter err else delay.

Definition refusal_wait (err : go_error) (e : execution) : duration :=
  if (0 <? plain_delay err e) && isSharedUpstreamRefusalClass (ClassifyUpstreamError (err_text err))
  then sharedRefusalWait (plain_delay err e) (e_attempt e + 1) else 0.

Definition wait_and_retry (o : observation) (err : go_error) (e : execution) : stage :=
  let shared := isSharedUpstreamRefusalClass (ClassifyUpstreamError (err_text err)) in
  let wait := refusal_wait err e in
  let budget := RefusalWaitBudget (s_SharedRefusalWaitBudgetMs cfg) in
  if shared && ((budget =? 0)
                || ((0 <? wait) && negb (sharedRefusalWaitAllowedWithin (e_waited e) wait budget)))
  then End_ (failure err) e
  else
    let delay := if 0 <? wait
                 then Z.min (i64 (wait + sharedRefusalJitter (o_rnd o) wait)) (i64 (budget - e_waited e))
                 else plain_delay err e in
    if negb (RetryWaitFits (o_ctx_err o) (o_deadline o) (o_now o) delay) then End_ (failure err) e
    else
      let released := (0 <? delay) && shared && negb (e_tracked e =? 0) in
      let e := if released then give_slot_back e else e in
      match (if 0 <? delay then o_ended_waiting o else None) with
      | Some why =>
          End_ (Failure (cancellationCategory why) (CategoryMessage (cancellationCategory why)) 0) e
      | None =>
          let e := if shared then e <| e_waited := i64 (e_waited e + delay) |> else e in
          let next e := Continue (e <| e_attempt := e_attempt e + 1 |>) in
          match released, current e with
          | true, Some a =>
              let '(tracked, acquired, h) := tryAcquireTrackedAccount limited (Some a) (e_h e) in
              if acquired then next (e <| e_h := h |> <| e_tracked := tracked |>)
              else End_ (Failure "rate_limit" PoolBusyMessage 0) (e <| e_h := h |>)
          | _, _ => next e
          end
      end.

(** *** The loop *)

Definition turn_of (fuel : nat) (o : observation) (e : execution) : stage :=
  after_call o e (fun err e =>
    let verdict := Classify (o_now o) (current e) (Some err) (s_reqModel cfg) in
    andThen (judge o verdict err e) (fun e =>
    andThen (switch_account fuel o verdict err e) (fun e =>
    wait_and_retry o err e))).

(** [turns] turns at most, the [i]-th one observing [obs i]. *)
Fixpoint run (turns fuel i : nat) (obs : nat -> observation) (e : execution) : option (answer * execution) :=
  match turns with
  | O => None
  | S turns =>
      match turn_of fuel (obs i) e with
      | Continue e => run turns fuel (S i) obs e
      | End_ a e => Some (a, e)
      | OutOfFuel => None
      end
  end.

(** The deferred release of [handler.go], once [run] returned. *)
Definition release_at_end (e : execution) : Handler St T := releaseTrackedAccount (e_tracked e) (e_h e).
End requests.

(** * Properties *)

Section properties.
Context {St T : Type} {Ops : PoolStore St} {Tr : ConnTracker T} {L : LimitedConnTracker T}.
Context {Laws : ConnTrackerLaws T} {Slots : SlotLaws T}.
Context (bounded : bool) (CapabilitiesFor : registry) (has_client : Account -> bool) (cfg : settings).
Context (ids : list Z) (store_within : St -> Prop) (Hstore : store_laws ids store_within).
Abbreviation limited := (if bounded then Some L else None).
Abbreviation wired := (wired ids store_within).
Abbreviation execution := (@execution St T).
Abbreviation enough := (9 * S (length ids))%nat.

(** ** Stages *)

(** Whatever a stage leaves satisfies [P], and goes on only with [Q]. *)
Definition leaves (P Q : execution -> Prop) (s : stage) : Prop :=
  match s with Continue e => P e /\ Q e | End_ _ e => P e | OutOfFuel => False end.

Lemma leaves_andThen P Q R s (k : execution -> stage) :
  leaves P Q s -> (forall e, P e -> Q e -> leaves P R (k e)) -> leaves P R (andThen s k).
Proof. destruct s; cbn; [|done..]. intros [H1 H2] Hk. by apply Hk. Qed.

(** ** Slots *)

(** The counters other requests account for and this request's own slot, and
    the time spent on shared refusals. *)
Record holds_slot (base : Z -> Z) (e : execution) : Prop := {
  hs_wired : wired (e_h e);
  hs_count id : count (e_h e) id = base id + own (e_tracked e) id;
  hs_waited : 0 <= e_waited e <= RefusalWaitBudget (s_SharedRefusalWaitBudgetMs cfg)
}.

(** Other requests leave room to count one more. *)
Definition roomy (base : Z -> Z) : Prop := forall id, 0 <= base id < max_int64.

Lemma roomy_quiet base (h : Handler St T) : roomy base -> (forall id, count h id = base id + own 0 id) -> quiet h.
Proof. intros Hr Hc id. rewrite Hc, own_none. specialize (Hr id). lia. Qed.

Lemma own_range tracked id : 0 <= own tracked id <= 1.
Proof. unfold own, one_if. destruct (_ && _); lia. Qed.

Lemma own_self tracked : tracked <> 0 -> own tracked tracked = 1.
Proof. intros H. rewrite own_is by done. by rewrite Z.eqb_refl. Qed.

Lemma release_holds base tracked (h : Handler St T) :
  roomy base -> wired h -> (forall id, count h id = base id + own tracked id) ->
  wired (releaseTrackedAccount tracked h)
  /\ forall id, count (releaseTrackedAccount tracked h) id = base id.
Proof.
  intros Hr Hw Hc. pose proof (Hr tracked) as Ht. pose proof (own_range tracked tracked).
  destruct (release_gives_back ids store_within tracked h) as (H1 & _ & H3); [done| | |].
  - rewrite Hc. lia.
  - intros Hne. rewrite Hc, own_self by done. lia.
  - split; [done|]. intros id. rewrite H3, Hc. lia.
Qed.

Lemma give_slot_back_holds base e :
  roomy base -> holds_slot base e -> holds_slot base (give_slot_back e) /\ e_tracked (give_slot_back e) = 0.
Proof.
  intros Hr [Hw Hc Hb]. unfold give_slot_back. destruct (e_tracked e =? 0) eqn:E.
  { split; [by split|]. by apply Z.eqb_eq. }
  destruct (release_holds base (e_tracked e) (e_h e) Hr Hw Hc) as [H1 H2].
  split; [|done]. split; [exact H1| |exact Hb]. intros id. rewrite own_none. cbn. rewrite H2. lia.
Qed.

Lemma give_slot_back_fields (e : execution) :
  e_retries (give_slot_back e) = e_retries e /\ e_waited (give_slot_back e) = e_waited e
  /\ e_refusal (give_slot_back e) = e_refusal e /\ e_account (give_slot_back e) = e_account e.
Proof. unfold give_slot_back. by destruct (e_tracked e =? 0). Qed.

(** ** The verdict *)

Lemma Apply_ID now v a : ID (Apply now v a) = ID a.
Proof. unfold Apply. cbv zeta. repeat case_match; done. Qed.

Lemma RecordModelCooldown_ID now a model until reason :
  ID (RecordModelCooldownWithReason now a model until reason) = ID a.
Proof. unfold RecordModelCooldownWithReason. cbv zeta. repeat case_match; done. Qed.

Abbreviation keeps := (yields (T := T) (within ids store_within) (fun _ => True)).

Lemma keeps_persist_applied p : keeps (PersistAppliedAccountStatus (Some p)).
Proof.
  intros lb H. unfold PersistAppliedAccountStatus. destruct (Store lb); [|by split].
  revert lb H. change (keeps (bind (deref p) (fun acc => bind (update_cached (ID acc) (fun cached =>
      cached <| StatusCode := StatusCode acc |> <| StatusMessage := StatusMessage acc |>
             <| LastAttempt := LastAttempt acc |> <| AuthStatus := AuthStatus acc |>
             <| RateLimitFailures := RateLimitFailures acc |>
             <| QuotaResetAt := QuotaResetAt acc |> <| VerifiedAt := VerifiedAt acc |>
             <| WorkBuddyRestrictedUntil := WorkBuddyRestrictedUntil acc |>))
      (fun _ => persistAccountStatus p)))).
  eapply yields_bind; [apply (yields_deref ids store_within)|]. intros a _.
  eapply yields_bind; [by apply (keeps_update_cached ids store_within)|]. intros _ _.
  by apply (keeps_persist ids store_within).
Qed.

Lemma keeps_record_verdict now v p : keeps (record_verdict CapabilitiesFor cfg now v p).
Proof.
  assert (Hassign : forall f, (forall a, ID (f a) = ID a) -> keeps (assign p f))
    by (intros; by apply (keeps_assign ids store_within)).
  unfold record_verdict. destruct (_ && _ && _).
  - eapply yields_bind; [apply Hassign; intros; apply RecordModelCooldown_ID|].
    intros _ _. by apply (keeps_persist ids store_within).
  - destruct (negb _); [|by apply yields_ret].
    eapply yields_bind; [apply Hassign; intros; apply Apply_ID|]. intros _ _.
    eapply yields_bind; [|intros _ _; apply keeps_persist_applied].
    apply Hassign. intros a. destruct (_ && _); [apply RecordModelCooldown_ID|done].
Qed.

Lemma mark_account_holds base o v e :
  holds_slot base e -> holds_slot base (mark_account CapabilitiesFor cfg o v e).
Proof.
  intros [(lb & t & Hlb & Hw & Ht) Hc Hb]. unfold mark_account. rewrite Hlb.
  assert (Hsame : holds_slot base e) by (split; [by exists lb, t|exact Hc|exact Hb]).
  destruct (e_account e) as [p|]; [|done]. destruct (Store lb); [|done].
  pose proof (keeps_record_verdict (o_now o) v p lb Hw) as [Hw' _].
  destruct (record_verdict _ _ _ _ p lb) as [[] lb']. cbn [snd] in Hw'.
  split; [by exists lb', t|exact Hc|exact Hb].
Qed.

(** ** A turn *)

(** The turn's stages leave [e_h] and [e_tracked] as a slot-holding pair. *)
Definition one_retry_less (e e' : execution) : Prop :=
  0 < e_retries e /\ e_retries e' = e_retries e - 1.

Lemma judge_holds base o v err e :
  holds_slot base e ->
  leaves (holds_slot base) (one_retry_less e) (judge CapabilitiesFor cfg o v err e).
Proof.
  intros Hs. unfold judge.
  destruct (sameRefusalOnAnotherAccount _ _ _ _) as [same refusal].
  set (e1 := e <| e_refusal := refusal |>).
  assert (H1 : holds_slot base e1) by (destruct Hs; by split).
  destruct same; [exact H1|].
  assert (H2 : holds_slot base (mark_account CapabilitiesFor cfg o v e1)) by by apply mark_account_holds.
  assert (Hret : e_retries (mark_account CapabilitiesFor cfg o v e1) = e_retries e).
  { unfold mark_account. repeat case_match; done. }
  destruct (negb _); [by destruct (String.eqb _ _)|].
  destruct (o_ended_later o); [exact H2|].
  destruct (_ || _) eqn:Er; [exact H2|]. destruct (_ && _); [exact H2|].
  apply orb_false_iff in Er as [Er _]. apply Z.leb_gt in Er.
  cbn [leaves]. split; [destruct H2; by split|]. unfold one_retry_less. cbn. by rewrite <- Hret.
Qed.

Lemma reacquired base e h h' acc tracked ok :
  roomy base -> wired h -> (forall id, count h id = base id) ->
  tryAcquireTrackedAccount limited acc h = (tracked, ok, h') ->
  0 <= e_waited e <= RefusalWaitBudget (s_SharedRefusalWaitBudgetMs cfg) ->
  forall p, holds_slot base (e <| e_h := h' |> <| e_account := p |> <| e_tracked := tracked |>).
Proof.
  intros Hr Hw Hc Htry Hb p.
  assert (Hq : quiet h) by (intros id; rewrite Hc; apply Hr).
  destruct (try_takes_slot bounded ids store_within _ _ _ _ _ Hw Hq Htry) as [H1 _ H3 _ _].
  split; [exact H1| |exact Hb]. intros id. cbn. by rewrite H3, Hc.
Qed.

Lemma switch_holds base o v err e :
  roomy base -> holds_slot base e ->
  leaves (holds_slot base) (fun e' => e_retries e' = e_retries e)
    (switch_account limited CapabilitiesFor has_client cfg enough o v err e).
Proof.
  intros Hr Hs. unfold switch_account. destruct (_ && _ && _); [|by split].
  assert (Hadd : holds_slot base (add_failed e) /\ e_retries (add_failed e) = e_retries e).
  { destruct Hs. unfold add_failed. repeat case_match; (split; [by split|done]). }
  destruct Hadd as [Hadd Hret]. destruct (give_slot_back_holds base (add_failed e) Hr Hadd) as [[Hw Hc Hb] Hz].
  destruct (give_slot_back_fields (add_failed e)) as (Hret2 & _). rewrite Hret in Hret2.
  set (e2 := give_slot_back (add_failed e)) in *. rewrite Hz in Hc.
  destruct (reservation_ends bounded CapabilitiesFor has_client ids store_within Hstore
              (o_turns o) (s_AccountReservationWaitBudgetMs cfg) (s_targetChannel cfg) (s_model cfg) true
              (e_failed e2) (e_h e2) Hw (roomy_quiet base _ Hr Hc)) as (res & h' & -> & [Hw' Hc' _]).
  assert (Hres : forall id, count h' id = base id + own (reserved res) id)
    by (intros id; rewrite Hc', Hc, own_none; lia).
  destruct res as [[p tracked]|selectErr]; cbn [reserved] in Hres.
  - split; [by split|exact Hret2].
  - assert (Hbase : forall id, count h' id = base id) by (intros id; rewrite Hres, own_none; lia).
    assert (Hend : holds_slot base (e2 <| e_h := h' |>)).
    { split; [exact Hw'| |exact Hb]. intros id. cbn. rewrite Hz, Hbase, own_none. lia. }
    cbv zeta. destruct (shouldRetryCurrentAccountWhenNoAlternative _); [|exact Hend].
    destruct (tryAcquireTrackedAccount limited _ h') as [[tracked ok] h''] eqn:Etry.
    pose proof (reacquired base e2 h' h'' _ tracked ok Hr Hw' Hbase Etry Hb) as Hre.
    destruct ok; [split; [apply Hre|exact Hret2]|].
    assert (tracked = 0) as ->.
    { assert (Hq : quiet h') by (intros id; rewrite Hbase; apply Hr).
      by destruct (try_takes_slot bounded ids store_within _ _ _ _ _ Hw' Hq Etry) as [_ _ _ Hf _]; apply Hf. }
    specialize (Hre None). split; [exact (hs_wired _ _ Hre)| |exact Hb].
    intros id. cbn. rewrite Hz. exact (hs_count _ _ Hre id).
Qed.

Lemma plain_delay_shared err (e : execution) :
  isSharedUpstreamRefusalClass (ClassifyUpstreamError (err_text err)) = true -> 0 <= plain_delay cfg err e.
Proof.
  unfold isSharedUpstreamRefusalClass. intros [_ Hc]%andb_true_iff. apply String.eqb_eq in Hc.
  assert (Hh : 0 <= upstreamRetryAfter err).
  { unfold upstreamRetryAfter. destruct (err_retry_after err) as [d|]; [|lia]. zcases. }
  unfold plain_delay. rewrite Hc. cbv zeta.
  destruct (_ <? upstreamRetryAfter err) eqn:E; [done|]. apply Z.ltb_ge in E. lia.
Qed.

(** The wait of one turn, and the share of it charged to shared refusals. *)
Lemma charged_wait o err (e : execution) :
  (forall n, 0 < n -> 0 <= o_rnd o n < n) ->
  0 <= e_waited e <= RefusalWaitBudget (s_SharedRefusalWaitBudgetMs cfg) ->
  let shared := isSharedUpstreamRefusalClass (ClassifyUpstreamError (err_text err)) in
  let wait := refusal_wait cfg err e in
  let budget := RefusalWaitBudget (s_SharedRefusalWaitBudgetMs cfg) in
  shared = true ->
  (budget =? 0) || ((0 <? wait) && negb (sharedRefusalWaitAllowedWithin (e_waited e) wait budget)) = false ->
  let delay := if 0 <? wait
               then Z.min (i64 (wait + sharedRefusalJitter (o_rnd o) wait)) (i64 (budget - e_waited e))
               else plain_delay cfg err e in
  0 <= delay /\ 0 <= i64 (e_waited e + delay) <= budget.
Proof.
  intros Hrnd Hw shared wait budget Hsh Hok. cbv zeta.
  pose proof (RefusalWaitBudget_range (s_SharedRefusalWaitBudgetMs cfg)) as Hb.
  change SharedRefusalWaitBudget with 60000000000 in Hb. fold budget in Hb, Hw.
  apply orb_false_iff in Hok as [Hb0 Hok]. apply Z.eqb_neq in Hb0.
  pose proof (plain_delay_shared err e Hsh) as Hp.
  destruct (0 <? wait) eqn:Ew; cbn [andb] in Hok.
  - apply Z.ltb_lt in Ew. apply negb_false_iff in Hok.
    apply refusal_allowed_within in Hok; [|change SharedRefusalWaitBudget with 60000000000; lia].
    pose proof (sharedRefusalJitter_range (o_rnd o) wait Hrnd ltac:(lia)) as Hj. unfold Second in Hj.
    rewrite !i64_small by (unfold in_i64, min_int64, max_int64; lia). lia.
  - apply Z.ltb_ge in Ew. assert (plain_delay cfg err e = 0) as ->; [|rewrite i64_small; unfold in_i64, min_int64, max_int64; lia].
    unfold wait, refusal_wait in Ew. fold shared in Ew. rewrite Hsh, andb_true_r in Ew.
    destruct (0 <? plain_delay cfg err e) eqn:Ed; to_prop; [|lia].
    pose proof (sharedRefusalWait_range _ (e_attempt e + 1) Ed). unfold Second in *. lia.
Qed.

Lemma wait_holds base o err e :
  roomy base -> (forall n, 0 < n -> 0 <= o_rnd o n < n) -> holds_slot base e ->
  leaves (holds_slot base) (fun e' => e_retries e' = e_retries e) (wait_and_retry limited cfg o err e).
Proof.
  intros Hr Hrnd Hs. unfold wait_and_retry. cbv zeta.
  pose proof (charged_wait o err e Hrnd (hs_waited _ _ Hs)) as Hcharge. cbv zeta in Hcharge.
  set (shared := isSharedUpstreamRefusalClass _) in *. set (budget := RefusalWaitBudget _) in *.
  set (wait := refusal_wait cfg err e) in *.
  match goal with |- context [RetryWaitFits _ _ _ ?d] => set (delay := d) in * end.
  destruct (shared && _) eqn:Eb; [exact Hs|]. destruct (negb (RetryWaitFits _ _ _ _)); [exact Hs|].
  destruct ((0 <? delay) && shared && negb (e_tracked e =? 0)) eqn:Erel.
  - apply andb_true_iff in Erel as [[Ed Esh]%andb_true_iff _].
    destruct (give_slot_back_holds base e Hr Hs) as [[Hw Hc Hb] Hz].
    destruct (give_slot_back_fields e) as (Hgret & Hgw & _).
    set (e1 := give_slot_back e) in *. rewrite Ed. destruct (o_ended_waiting o); [by split|].
    rewrite Esh in Eb |- *. cbn [andb] in Eb. destruct (Hcharge Esh Eb) as [_ Hcb].
    set (e2 := e1 <| e_waited := i64 (e_waited e1 + delay) |>).
    assert (H2 : holds_slot base e2) by (split; [exact Hw|exact Hc|cbn; by rewrite Hgw]).
    destruct (current e2) as [a|] eqn:Ecur; [|by split; [destruct H2; by split|exact Hgret]].
    destruct (tryAcquireTrackedAccount limited (Some a) (e_h e2)) as [[tracked ok] h'] eqn:Etry.
    assert (Hbase : forall id, count (e_h e2) id = base id).
    { intros id. change (e_h e2) with (e_h e1). rewrite Hc, Hz, own_none. lia. }
    pose proof (reacquired base e2 _ h' _ tracked ok Hr Hw Hbase Etry (hs_waited _ _ H2) (e_account e2)) as Hre.
    destruct ok; [split; [destruct Hre; by split|exact Hgret]|].
    assert (Hq : quiet (e_h e2)) by (intros id; rewrite Hbase; apply Hr).
    destruct (try_takes_slot bounded ids store_within _ _ _ _ _ Hw Hq Etry) as [_ _ _ Hf _].
    specialize (Hf eq_refl) as ->. destruct Hre as [Hre1 Hre2 Hre3]. split; [exact Hre1| |exact Hre3].
    intros id. change (e_tracked (e2 <| e_h := h' |>)) with (e_tracked e1). rewrite Hz. exact (Hre2 id).
  - destruct (if 0 <? delay then o_ended_waiting o else None); [exact Hs|].
    destruct shared eqn:Esh; [|split; [destruct Hs; by split|done]].
    cbn [andb] in Eb. destruct (Hcharge eq_refl Eb) as [_ Hcb].
    split; [|done]. destruct Hs as [Hw Hc Hb]. by split.
Qed.

Lemma turn_holds base o e :
  roomy base -> (forall n, 0 < n -> 0 <= o_rnd o n < n) -> holds_slot base e ->
  leaves (holds_slot base) (one_retry_less e) (turn_of limited CapabilitiesFor has_client cfg enough o e).
Proof.
  intros Hr Hrnd Hs. unfold turn_of, after_call. destruct (o_returned o); [exact Hs|]. cbv zeta.
  match goal with |- context [End_ Completed ?x] => set (e1 := x) end.
  assert (H1 : holds_slot base e1) by (destruct Hs; by split).
  destruct (o_err o) as [err|]; [|exact H1].
  destruct (fst _); [by destruct (snd _)|]. destruct (o_ended o); [exact H1|].
  destruct (o_output o); [exact H1|].
  eapply leaves_andThen; [by apply judge_holds|]. intros e2 H2 Hret2.
  eapply (leaves_andThen _ (fun e' => e_retries e' = e_retries e2)); [by apply switch_holds|].
  intros e3 H3 Hret3.
  pose proof (wait_holds base o err e3 Hr Hrnd H3) as Hwait.
  destruct (wait_and_retry _ _ _ _ _); [|done..]. destruct Hwait as [H4 Hret4]. split; [done|].
  destruct Hret2 as [Hp Hd]. split; [exact Hp|]. rewrite Hret4, Hret3. exact Hd.
Qed.

(** Every turn that goes on takes a retry, so [retries + 1] turns are enough. *)
Lemma run_ends base obs n : forall i e,
  roomy base -> (forall j m, 0 < m -> 0 <= o_rnd (obs j) m < m) ->
  holds_slot base e -> e_retries e <= Z.of_nat n ->
  exists a e', run limited CapabilitiesFor has_client cfg (S n) enough i obs e = Some (a, e')
    /\ holds_slot base e'.
Proof.
  induction n as [|n IH]; intros i e Hr Hrnd Hs Hret; cbn [run];
    pose proof (turn_holds base (obs i) e Hr (Hrnd i) Hs) as Hturn;
    (destruct (turn_of _ _ _ _ _ _ _) as [e'|a e'|]; cbn [leaves] in Hturn; [|by exists a, e'|done]).
  - destruct Hturn as [_ [Hp _]]. lia.
  - destruct Hturn as [Hs' [Hp Heq]]. apply IH; [done..|]. lia.
Qed.

(** C15: a request always comes to an end: with the configured retries it makes
    at most that many further turns, whatever the upstream, the clock and the
    pool do, its waits on shared refusals stay within the budget (at most one
    minute), and once it has ended every account's connection counter is what
    the other requests alone account for. *)
Theorem request_ends_and_returns_its_slot base obs h account tracked failed :
  roomy base ->
  (forall j m, 0 < m -> 0 <= o_rnd (obs j) m < m) ->
  wired h ->
  (forall id, count h id = base id + own tracked id) ->
  exists a e',
    run limited CapabilitiesFor has_client cfg (S (Z.to_nat (max_retries cfg))) enough 0 obs
      (start cfg h account tracked failed) = Some (a, e')
    /\ 0 <= e_waited e' <= RefusalWaitBudget (s_SharedRefusalWaitBudgetMs cfg)
    /\ RefusalWaitBudget (s_SharedRefusalWaitBudgetMs cfg) <= 60 * Second
    /\ forall id, count (release_at_end e') id = base id.
Proof.
  intros Hr Hrnd Hw Hc.
  pose proof (RefusalWaitBudget_range (s_SharedRefusalWaitBudgetMs cfg)) as Hb.
  destruct (run_ends base obs (Z.to_nat (max_retries cfg)) 0 (start cfg h account tracked failed))
    as (a & e' & Hrun & [Hw' Hc' Hwait]); [done|done| | |].
  - split; [exact Hw|exact Hc|cbn; lia].
  - cbn. unfold max_retries, GenerationMaxRetries. lia.
  - exists a, e'. split_and!; [done|lia|lia| |].
    + change (60 * Second) with SharedRefusalWaitBudget. lia.
    + by apply release_holds.
Qed.

(** ** The refusal fingerprint *)

Lemma give_slot_back_refusal (e : execution) : e_refusal (give_slot_back e) = e_refusal e.
Proof. apply give_slot_back_fields. Qed.

Lemma add_failed_refusal (e : execution) : e_refusal (add_failed e) = e_refusal e.
Proof. unfold add_failed. by repeat case_match. Qed.

Lemma mark_account_refusal o v (e : execution) :
  e_refusal (mark_account CapabilitiesFor cfg o v e) = e_refusal e.
Proof. unfold mark_account. by repeat case_match. Qed.

Lemma judge_refusal o v err (e e' : execution) :
  judge CapabilitiesFor cfg o v err e = Continue e' ->
  e_refusal e' = snd (sameRefusalOnAnotherAccount v (err_text err) (current e) (e_refusal e)).
Proof.
  unfold judge. destruct (sameRefusalOnAnotherAccount _ _ _ _) as [same refusal]. cbn [snd].
  destruct same; [done|].
  intros H. repeat (case_match; simplify_eq/=); apply mark_account_refusal.
Qed.

Lemma switch_refusal fuel o v err (e e' : execution) :
  switch_account limited CapabilitiesFor has_client cfg fuel o v err e = Continue e' ->
  e_refusal e' = e_refusal e.
Proof.
  unfold switch_account. destruct (_ && _ && _); [|congruence].
  intros H. repeat (case_match; simplify_eq/=);
    by rewrite give_slot_back_refusal, add_failed_refusal.
Qed.

Lemma wait_refusal o err (e e' : execution) :
  wait_and_retry limited cfg o err e = Continue e' -> e_refusal e' = e_refusal e.
Proof.
  unfold wait_and_retry. cbv zeta. set (shared := isSharedUpstreamRefusalClass _). clearbody shared.
  destruct (shared && _); [done|]. destruct (negb _); [done|].
  match goal with |- context [if ?b then o_ended_waiting o else None] =>
    destruct (if b then o_ended_waiting o else None) end; [done|].
  destruct (_ && negb (e_tracked e =? 0)).
  - pose proof (give_slot_back_refusal e) as He. destruct (current _).
    + destruct (tryAcquireTrackedAccount _ _ _) as [[tracked []] h]; [|done].
      intros [= <-]. by destruct shared.
    + intros [= <-]. by destruct shared.
  - intros [= <-]. by destruct shared.
Qed.

(** The turn reaches the verdict on the error of its call. *)
Definition fails_with (o : observation) (err : go_error) : Prop :=
  o_returned o = false /\ o_err o = Some err /\ fst (o_terminal o) = false
  /\ o_ended o = None /\ o_output o = false.

(** The verdict refuses the account itself. *)
Definition refuses_account (v : Verdict) : Prop :=
  v_Scope v = ScopeAccount /\ (v_Status v = "403" \/ v_Status v = "404").

Lemma sameRefusal_account v text a previous :
  refuses_account v ->
  sameRefusalOnAnotherAccount v text (Some a) previous
    = let refusal := mkBlocked (v_Status v) (fingerprint_of text) (ID a) in
      (negb (br_accountID previous =? 0) && negb (br_accountID previous =? ID a)
       && String.eqb (br_status previous) (v_Status v)
       && String.eqb (br_fingerprint previous) (fingerprint_of text), refusal).
Proof.
  intros [Hs Hc]. unfold sameRefusalOnAnotherAccount. rewrite bool_decide_eq_true_2 by done.
  by destruct Hc as [-> | ->].
Qed.

Abbreviation turn := (turn_of limited CapabilitiesFor has_client cfg).
Abbreviation verdict_of o e err := (Classify (o_now o) (current e) (Some err) (s_reqModel cfg)).

Lemma turn_fails fuel o err (e : execution) :
  fails_with o err ->
  exists e1, e_h e1 = e_h e /\ e_account e1 = e_account e /\ e_tracked e1 = e_tracked e
    /\ e_refusal e1 = e_refusal e
    /\ turn fuel o e =
         andThen (judge CapabilitiesFor cfg o (verdict_of o e err) err e1) (fun e' =>
         andThen (switch_account limited CapabilitiesFor has_client cfg fuel o (verdict_of o e err) err e')
           (wait_and_retry limited cfg o err)).
Proof.
  intros (H1 & H2 & H3 & H4 & H5). unfold turn_of, after_call. rewrite H1. cbv zeta. rewrite H2, H3, H4, H5.
  eexists. by split_and!; [| | | |reflexivity].
Qed.

(** A turn that goes on after a refusal of the account remembers it. *)
Lemma turn_remembers fuel o err a (e e' : execution) :
  fails_with o err -> current e = Some a -> refuses_account (verdict_of o e err) ->
  turn fuel o e = Continue e' ->
  e_refusal e' = mkBlocked (v_Status (verdict_of o e err)) (fingerprint_of (err_text err)) (ID a).
Proof.
  intros Hf Ha Hv Hturn. destruct (turn_fails fuel o err e Hf) as (e1 & Hh & Hacc & _ & _ & Heq).
  assert (Hcur : current e1 = Some a) by (unfold current; rewrite Hh, Hacc; exact Ha).
  rewrite Heq in Hturn. clear Heq. generalize dependent (verdict_of o e err). intros v Hv Hturn.
  destruct (judge _ _ _ _ _ _) as [e2| |] eqn:Ej; cbn [andThen] in Hturn; [|done..].
  destruct (switch_account _ _ _ _ _ _ _ _ _) as [e3| |] eqn:Es; cbn [andThen] in Hturn; [|done..].
  rewrite (wait_refusal _ _ _ _ Hturn), (switch_refusal _ _ _ _ _ _ Es), (judge_refusal _ _ _ _ _ Ej), Hcur.
  by rewrite sameRefusal_account.
Qed.

(** a refusal walks no further than the second account: once a 403 or 404
    has been recorded against one account and the request goes on, the same
    refusal (the same status and text up to volatile identifiers) from another
    account ends the request at once with that error's answer, and the second
    account, the pool and the connection counters are left as they were. *)
Theorem identical_refusal_stops_the_walk fuel o1 o2 err1 err2 a1 a2 (e1 e2 : execution) :
  fails_with o1 err1 -> current e1 = Some a1 -> ID a1 <> 0 ->
  refuses_account (verdict_of o1 e1 err1) ->
  turn fuel o1 e1 = Continue e2 ->
  fails_with o2 err2 -> current e2 = Some a2 -> ID a2 <> ID a1 ->
  refuses_account (verdict_of o2 e2 err2) ->
  v_Status (verdict_of o2 e2 err2) = v_Status (verdict_of o1 e1 err1) ->
  fingerprint_of (err_text err2) = fingerprint_of (err_text err1) ->
  exists e3, turn fuel o2 e2 = End_ (failure err2) e3 /\ e_h e3 = e_h e2 /\ e_tracked e3 = e_tracked e2.
Proof.
  intros Hf1 Ha1 Hid Hv1 Hturn Hf2 Ha2 Hne Hv2 Hst Hfp.
  pose proof (turn_remembers _ _ _ _ _ _ Hf1 Ha1 Hv1 Hturn) as Href.
  destruct (turn_fails fuel o2 err2 e2 Hf2) as (e3 & Hh & Hacc & Htr & Hre & ->).
  assert (Hcur : current e3 = Some a2) by (unfold current; rewrite Hh, Hacc; exact Ha2).
  unfold judge. rewrite Hcur, Hre, Href, sameRefusal_account by done. cbv zeta.
  cbn [br_accountID br_status br_fingerprint]. rewrite Hst, Hfp, !String.eqb_refl.
  rewrite (proj2 (Z.eqb_neq _ _) Hid), (proj2 (Z.eqb_neq _ _) (not_eq_sym Hne)). cbn [negb andb andThen].
  by eexists.
Qed.
End properties.

(** A request over the pool of two accounts whose upstream refuses both with the
    same text but for an identifier. *)

Section demo.
Definition demo_cfg : settings := mkSettings 3 0 None None "cline" "m" "m".
Definition idle_handler : Handler (list Account) (gmap Z Z) :=
  mkHandler (Some (fresh_pool two_rows)) false (Some ∅).
Definition refused_with (text : string) : observation :=
  mkObservation false (Some (Errorf text)) 1 (false, false) None false 5 false demo_turns
    (fun _ => 0) None None None.
Definition first_refusal : string := "upstream status 403: request 7f00aa11bb denied".
Definition second_refusal : string := "upstream status 403: request 81bb22cc33 denied".
Definition demo_obs (i : nat) : observation :=
  refused_with (if Nat.even i then first_refusal else second_refusal).

Abbreviation fuel := (9 * S (length [1%Z; 2%Z]))%nat.
Abbreviation reserve := (acquireReservedAccountSelection (Some MemoryLimitedConnTracker) no_registry
  (fun _ => true) fuel demo_turns None "cline" true [] "m" idle_handler).
Abbreviation demo_turn := (turn_of (Some MemoryLimitedConnTracker) no_registry (fun _ => true) demo_cfg fuel).
Abbreviation demo_run := (run (Some MemoryLimitedConnTracker) no_registry (fun _ => true) demo_cfg
  (S (Z.to_nat (max_retries demo_cfg))) fuel 0 demo_obs).

Lemma idle_count id : count idle_handler id = 0.
Proof. unfold count. cbn. unfold Memory.GetCount. by rewrite lookup_empty. Qed.

Lemma idle_roomy : roomy (fun _ => 0).
Proof. intros id. unfold max_int64. lia. Qed.

Lemma idle_quiet : quiet idle_handler.
Proof. intros id. rewrite idle_count. unfold max_int64. lia. Qed.

Lemma idle_wired : wired [1; 2] (rows_within [1; 2]) idle_handler.
Proof.
  exists (fresh_pool two_rows), ∅. split_and!; [done| |done]. split.
  - intros p a Hp. cbn in Hp. by rewrite lookup_empty in Hp.
  - intros s [= <-]. repeat constructor; right; set_solver.
Qed.

(** What the initial reservation leaves, and the state the request starts from. *)
Lemma demo_reserved :
  exists p h, reserve = Some (inl (Some p, 1), h) /\ wired [1; 2] (rows_within [1; 2]) h
    /\ forall id, count h id = 0 + own 1 id.
Proof.
  destruct (reservation_ends true no_registry (fun _ => true) [1; 2] (rows_within [1; 2])
              (rows_laws [1; 2]) demo_turns None "cline" "m" true [] idle_handler idle_wired idle_quiet)
    as (res & h & Hrun & [Hw Hc _]).
  assert (Hshape : match reserve with Some (inl (Some _, tracked), _) => tracked | _ => 0 end = 1)
    by (vm_compute; reflexivity).
  rewrite Hrun in Hshape. destruct res as [[[p|] tracked]|e]; [|done..]. subst tracked.
  exists p, h. split; [exact Hrun|]. split; [exact Hw|]. intros id. rewrite Hc, idle_count. reflexivity.
Qed.

Lemma request_ends_and_returns_its_slot_witness :
  exists p h a e', reserve = Some (inl (Some p, 1), h)
    /\ demo_run (start demo_cfg h (Some p) 1 []) = Some (a, e')
    /\ forall id, count (release_at_end e') id = 0.
Proof.
  destruct demo_reserved as (p & h & Hres & Hw & Hc).
  destruct (request_ends_and_returns_its_slot true no_registry (fun _ => true) demo_cfg [1; 2]
              (rows_within [1; 2]) (rows_laws [1; 2]) (fun _ => 0) demo_obs h (Some p) 1 [] idle_roomy)
    as (a & e' & Hrun & _ & _ & Hend); [| |exact Hc|].
  - intros j m Hm. cbn. lia.
  - exact Hw.
  - exists p, h, a, e'. split; [exact Hres|]. split; [exact Hrun|exact Hend].
Defined.

Abbreviation demo_start :=
  (match reserve with Some (inl (p, _), h) => Some (start demo_cfg h p 1 []) | _ => None end).
Abbreviation demo_second :=
  (match demo_start with
   | Some e => match demo_turn (demo_obs 0) e with Continue e' => Some (e, e') | _ => None end
   | None => None
   end).

Lemma identical_refusal_stops_the_walk_witness :
  exists e1 e2 e3, demo_second = Some (e1, e2) /\ ID <$> current e1 = Some 1 /\ ID <$> current e2 = Some 2
    /\ demo_turn (demo_obs 1) e2 = End_ (failure (Errorf second_refusal)) e3 /\ e_h e3 = e_h e2.
Proof.
  assert (Hids : (fun s => (fun '(e1, e2) => (ID <$> current e1, ID <$> current e2)) <$> s) demo_second
                 = Some (Some 1, Some 2)) by (vm_compute; reflexivity).
  assert (Hv : (fun s => (fun '(e1, e2) =>
                  (Classify 5 (current e1) (Some (Errorf first_refusal)) "m",
                   Classify 5 (current e2) (Some (Errorf second_refusal)) "m")) <$> s) demo_second
               = Some (account_verdict "403" first_refusal true CooldownBlocked 5,
                       account_verdict "403" second_refusal true CooldownBlocked 5)) by (vm_compute; reflexivity).
  cbv beta in Hids, Hv. destruct demo_start as [e1|]; [|discriminate Hids].
  destruct (demo_turn (demo_obs 0) e1) as [e2| |] eqn:Hturn; [|discriminate Hids..].
  cbn [fmap option_fmap option_map] in Hids, Hv. injection Hids as H1 H2. apply (inj Some), pair_equal_spec in Hv as [Hv1 Hv2].
  destruct (current e1) as [a1|] eqn:Ha1; [|discriminate H1]. injection H1 as H1.
  destruct (current e2) as [a2|] eqn:Ha2; [|discriminate H2]. injection H2 as H2.
  destruct (identical_refusal_stops_the_walk true no_registry (fun _ => true) demo_cfg fuel
              (demo_obs 0) (demo_obs 1) (Errorf first_refusal) (Errorf second_refusal) a1 a2 e1 e2)
    as (e3 & Hend & Hh & _).
  - by split_and!.
  - exact Ha1.
  - lia.
  - rewrite Ha1. cbn [o_now demo_obs refused_with s_reqModel demo_cfg]. rewrite Hv1. by split; [|left].
  - exact Hturn.
  - by split_and!.
  - exact Ha2.
  - lia.
  - rewrite Ha2. cbn [o_now demo_obs refused_with s_reqModel demo_cfg]. rewrite Hv2. by split; [|left].
  - rewrite Ha1, Ha2. cbn [o_now demo_obs refused_with s_reqModel demo_cfg]. by rewrite Hv1, Hv2.
  - vm_compute. reflexivity.
  - exists e1, e2, e3. rewrite Ha1, Ha2. cbn. rewrite H1, H2. by split_and!.
Defined.
End demo.
