(* ===== verification/Json.v ===== *)
(** JSON texts and UTF-8, as the program relies on Go's [encoding/json] and
    [unicode/utf8]: decoding runes, quoting strings, printing and parsing values,
    with the round trip between the two. *)

From Stdlib Require Import Ascii.
From S2P Require Import Prelude.

(** * UTF-8 *)

Definition byte_of (c : ascii) : Z := Z.of_N (N_of_ascii c).

Definition RuneError : Z := 65533.   (* U+FFFD *)
Definition RuneSelf : Z := 128.

(** What may follow a lead byte: how many continuation bytes, and the range of
    the first. *)
Definition lead (b : Z) : option (nat * Z * Z) :=
  if b <? 194 then None
  else if b <? 224 then Some (1%nat, 128, 191)
  else if b =? 224 then Some (2%nat, 160, 191)
  else if b =? 237 then Some (2%nat, 128, 159)
  else if b <? 240 then Some (2%nat, 128, 191)
  else if b =? 240 then Some (3%nat, 144, 191)
  else if b <? 244 then Some (3%nat, 128, 191)
  else if b =? 244 then Some (3%nat, 128, 143)
  else None.

Definition between (lo b hi : Z) : bool := (lo <=? b) && (b <=? hi).

(** [utf8.DecodeRuneInString]: the rune and how many bytes it takes;
    [RuneError] and one byte for what is not UTF-8. *)
Definition DecodeRune (s : string) : Z * nat :=
  match s with
  | EmptyString => (RuneError, 0%nat)
  | String c0 s1 =>
      let b0 := byte_of c0 in
      if b0 <? RuneSelf then (b0, 1%nat)
      else
        match lead b0, s1 with
        | Some (n, lo, hi), String c1 s2 =>
            if negb (between lo (byte_of c1) hi) then (RuneError, 1%nat)
            else
              match n, s2 with
              | 1%nat, _ => (b0 mod 32 * 64 + byte_of c1 mod 64, 2%nat)
              | _, String c2 s3 =>
                  if negb (between 128 (byte_of c2) 191) then (RuneError, 1%nat)
                  else
                    match n, s3 with
                    | 2%nat, _ => (b0 mod 16 * 4096 + byte_of c1 mod 64 * 64 + byte_of c2 mod 64, 3%nat)
                    | _, String c3 _ =>
                        if negb (between 128 (byte_of c3) 191) then (RuneError, 1%nat)
                        else (b0 mod 8 * 262144 + byte_of c1 mod 64 * 4096 + byte_of c2 mod 64 * 64
                              + byte_of c3 mod 64, 4%nat)
                    | _, EmptyString => (RuneError, 1%nat)
                    end
              | _, EmptyString => (RuneError, 1%nat)
              end
        | _, _ => (RuneError, 1%nat)
        end
  end.

Definition byte_char (b : Z) : ascii := ascii_of_N (Z.to_N b).

(** [utf8.AppendRune]. *)
Definition EncodeRune (r : Z) : string :=
  let tail n := byte_char (128 + r / 64 ^ n mod 64) in
  if r <? 0 then String (byte_char 239) (String (byte_char 191) (String (byte_char 189) ""))
  else if r <? 128 then String (byte_char r) ""
  else if r <? 2048 then String (byte_char (192 + r / 64)) (String (tail 0) "")
  else if (1114111 <? r) || between 55296 r 57343
  then String (byte_char 239) (String (byte_char 191) (String (byte_char 189) ""))
  else if r <? 65536 then String (byte_char (224 + r / 4096)) (String (tail 1) (String (tail 0) ""))
  else String (byte_char (240 + r / 262144)) (String (tail 2) (String (tail 1) (String (tail 0) ""))).

(** A byte that is no part of a rune. *)
Definition is_bad (rune : Z * nat) : bool := (rune.1 =? RuneError) && (rune.2 =? 1)%nat.

(** The text in runes: each with its bytes. *)
Fixpoint runes_go (fuel : nat) (s : string) : list (string * Z) :=
  match fuel, s with
  | S fuel, String _ _ =>
      let '(r, size) := DecodeRune s in (take_bytes size s, r) :: runes_go fuel (drop_bytes size s)
  | _, _ => []
  end.

Definition runes (s : string) : list (string * Z) := runes_go (String.length s) s.

Definition concat_map {A} (f : A -> string) (l : list A) : string := foldr (fun x t => f x +:+ t) "" l.

(** The replacement character in place of each byte that is not UTF-8. *)
Definition valid_rune (x : string * Z) : string :=
  if is_bad (x.2, String.length x.1) then EncodeRune RuneError else x.1.

Definition ToValid (s : string) : string := concat_map valid_rune (runes s).

(** * Strings *)

(** A text written with single quotes for the double ones. *)
Definition lit (s : string) : string :=
  String.string_of_list_ascii
    (map (fun c => if Ascii.eqb c "'" then ascii_of_N 34 else c) (String.list_ascii_of_string s)).

Definition quote : ascii := ascii_of_N 34.
Definition backslash : ascii := ascii_of_N 92.

Definition hex_digits : string := "0123456789abcdef".
Definition hex_digit (n : Z) : string :=
  match String.get (Z.to_nat n) hex_digits with Some c => String c "" | None => "" end.

(** The bytes a JSON string holds as they are ([htmlSafeSet]). *)
Definition html_safe (b : Z) : bool :=
  (32 <=? b) && negb ((b =? 34) || (b =? 92) || (b =? 60) || (b =? 62) || (b =? 38)).

Definition escape_byte (b : Z) : string :=
  if html_safe b then String (byte_char b) ""
  else if (b =? 92) || (b =? 34) then String backslash (String (byte_char b) "")
  else if b =? 8 then "\b" else if b =? 12 then "\f" else if b =? 10 then "\n"
  else if b =? 13 then "\r" else if b =? 9 then "\t"
  else "\u00" +:+ hex_digit (b / 16) +:+ hex_digit (b mod 16).

Definition escape_rune (x : string * Z) : string :=
  if x.2 <? RuneSelf then escape_byte x.2
  else if is_bad (x.2, String.length x.1) then "\ufffd"
  else if x.2 =? 8232 then "\u2028" else if x.2 =? 8233 then "\u2029"
  else x.1.

(** [json.Marshal] of a string. *)
Definition quoted (s : string) : string :=
  String quote (concat_map escape_rune (runes s)) +:+ String quote "".

(** ** Reading a string back

    The reader stands behind the opening quote. *)

Definition hex_value (c : ascii) : option Z :=
  let b := byte_of c in
  if between 48 b 57 then Some (b - 48)
  else if between 97 b 102 then Some (b - 87)
  else if between 65 b 70 then Some (b - 55)
  else None.

(** [getu4], behind the [\u]. *)
Definition hex4 (s : string) : option (Z * string) :=
  match s with
  | String a (String b (String c (String d rest))) =>
      a ← hex_value a; b ← hex_value b; c ← hex_value c; d ← hex_value d;
      Some (((a * 16 + b) * 16 + c) * 16 + d, rest)
  | _ => None
  end.

Definition is_surrogate (r : Z) : bool := between 55296 r 57343.

(** A high surrogate takes the low one that follows; any other one is U+FFFD. *)
Definition low_surrogate (s : string) : option (Z * string) :=
  match s with
  | String c (String u rest) =>
      if (byte_of c =? 92) && (byte_of u =? 117)
      then '(r, rest) ← hex4 rest; if between 56320 r 57343 then Some (r, rest) else None
      else None
  | _ => None
  end.

Definition unicode_escape (s : string) : option (string * string) :=
  '(r, rest) ← hex4 s;
  if between 55296 r 56319 then
    match low_surrogate rest with
    | Some (low, rest) => Some (EncodeRune ((r - 55296) * 1024 + (low - 56320) + 65536), rest)
    | None => Some (EncodeRune RuneError, rest)
    end
  else if is_surrogate r then Some (EncodeRune RuneError, rest)
  else Some (EncodeRune r, rest).

(** What follows a backslash: the text it stands for and what is left. *)
Definition unescape (s : string) : option (string * string) :=
  match s with
  | EmptyString => None
  | String c rest =>
      let b := byte_of c in
      let reads n := b =? n in
      if reads 34 || reads 92 || reads 47 then Some (String c "", rest)
      else if reads 98 then Some (String (byte_char 8) "", rest)
      else if reads 102 then Some (String (byte_char 12) "", rest)
      else if reads 110 then Some (String (byte_char 10) "", rest)
      else if reads 114 then Some (String (byte_char 13) "", rest)
      else if reads 116 then Some (String (byte_char 9) "", rest)
      else if reads 117 then unicode_escape rest
      else None
  end.

Definition prepend (t : string) (x : option (string * string)) : option (string * string) :=
  '(u, rest) ← x; Some (t +:+ u, rest).

Fixpoint unquote_go (fuel : nat) (s : string) : option (string * string) :=
  match fuel, s with
  | S fuel, String c s1 =>
      let b := byte_of c in
      if b =? 34 then Some ("", s1)
      else if b <? 32 then None
      else if b =? 92 then '(t, rest) ← unescape s1; prepend t (unquote_go fuel rest)
      else
        let '(r, size) := DecodeRune s in
        prepend (valid_rune (take_bytes size s, r)) (unquote_go fuel (drop_bytes size s))
  | _, _ => None
  end.

(** The text of the literal, and what follows it. *)
Definition unquote (s : string) : option (string * string) := unquote_go (String.length s) s.

(** * Values *)

(** A decoded JSON text: object members in order, duplicates kept, numbers as
    their literals. *)
Inductive json :=
| JNull
| JBool (b : bool)
| JNumber (literal : string)
| JString (s : string)
| JArray (items : list json)
| JObject (members : list (string * json)).

(** A JSON number literal ([isValidNumber] of encoding/json). *)
Fixpoint digits_end (s : string) : string :=
  match s with
  | String c rest => if bool_decide (is_Some (digit_value c)) then digits_end rest else s
  | EmptyString => s
  end.

Definition some_digits (s : string) : option string :=
  let rest := digits_end s in
  if (String.length rest <? String.length s)%nat then Some rest else None.

Definition integer_part (s : string) : option string :=
  match s with
  | String "0" rest => Some rest
  | _ => some_digits s
  end.

Definition fraction_part (s : string) : option string :=
  match s with String "." rest => some_digits rest | _ => Some s end.

Definition exponent_part (s : string) : option string :=
  match s with
  | String "e" rest | String "E" rest =>
      match rest with
      | String "+" rest | String "-" rest => some_digits rest
      | _ => some_digits rest
      end
  | _ => Some s
  end.

Definition unsigned (s : string) : string := match s with String "-" rest => rest | _ => s end.

Definition number_end (s : string) : option string :=
  rest ← integer_part (unsigned s); rest ← fraction_part rest; exponent_part rest.

Definition isValidNumber (s : string) : bool :=
  match number_end s with
  | Some rest => is_empty rest
  | None => false
  end.

(** ** Printing ([json.Marshal]) *)

Fixpoint encode (v : json) : string :=
  match v with
  | JNull => "null"
  | JBool true => "true"
  | JBool false => "false"
  | JNumber literal => literal
  | JString s => quoted s
  | JArray items => "[" +:+ String.concat "," (map encode items) +:+ "]"
  | JObject members =>
      "{" +:+ String.concat "," (map (fun m => quoted m.1 +:+ ":" +:+ encode m.2) members) +:+ "}"
  end.

(** ** Parsing ([json.Unmarshal] into [any], numbers kept as literals) *)

Definition is_json_space (c : ascii) : bool :=
  let b := byte_of c in (b =? 32) || (b =? 9) || (b =? 10) || (b =? 13).

Fixpoint skip_space (s : string) : string :=
  match s with
  | String c rest => if is_json_space c then skip_space rest else s
  | EmptyString => s
  end.

(** The byte [b], and what follows it. *)
Definition expect (b : Z) (s : string) : option string :=
  match s with
  | String c rest => if byte_of c =? b then Some rest else None
  | EmptyString => None
  end.

Definition expect_text (t s : string) : option string :=
  if HasPrefix s t then Some (drop_bytes (String.length t) s) else None.

Definition take_number (s : string) : option (json * string) :=
  rest ← number_end s; Some (JNumber (take_bytes (String.length s - String.length rest) s), rest).

(** A value that is no array, object or string. *)
Definition parse_scalar (s : string) : option (json * string) :=
  match expect_text "null" s, expect_text "true" s, expect_text "false" s with
  | Some rest, _, _ => Some (JNull, rest)
  | _, Some rest, _ => Some (JBool true, rest)
  | _, _, Some rest => Some (JBool false, rest)
  | None, None, None => take_number s
  end.

Fixpoint parse_value (fuel : nat) (s : string) : option (json * string) :=
  match fuel with
  | O => None
  | S fuel =>
      let s := skip_space s in
      match expect 123 s, expect 91 s, expect 34 s with
      | Some rest, _, _ =>
          match expect 125 (skip_space rest) with
          | Some rest => Some (JObject [], rest)
          | None => '(members, rest) ← parse_members fuel rest; Some (JObject members, rest)
          end
      | _, Some rest, _ =>
          match expect 93 (skip_space rest) with
          | Some rest => Some (JArray [], rest)
          | None => '(items, rest) ← parse_items fuel rest; Some (JArray items, rest)
          end
      | _, _, Some rest => '(t, rest) ← unquote rest; Some (JString t, rest)
      | None, None, None => parse_scalar s
      end
  end
with parse_items (fuel : nat) (s : string) : option (list json * string) :=
  match fuel with
  | O => None
  | S fuel =>
      '(v, rest) ← parse_value fuel s;
      let rest := skip_space rest in
      match expect 93 rest, expect 44 rest with
      | Some rest, _ => Some ([v], rest)
      | _, Some rest => '(items, rest) ← parse_items fuel rest; Some (v :: items, rest)
      | None, None => None
      end
  end
with parse_members (fuel : nat) (s : string) : option (list (string * json) * string) :=
  match fuel with
  | O => None
  | S fuel =>
      rest ← expect 34 (skip_space s);
      '(key, rest) ← unquote rest;
      rest ← expect 58 (skip_space rest);
      '(v, rest) ← parse_value fuel rest;
      let rest := skip_space rest in
      match expect 125 rest, expect 44 rest with
      | Some rest, _ => Some ([(key, v)], rest)
      | _, Some rest => '(members, rest) ← parse_members fuel rest; Some ((key, v) :: members, rest)
      | None, None => None
      end
  end.

Definition parse (s : string) : option json :=
  '(v, rest) ← parse_value (String.length s) s;
  if is_empty (skip_space rest) then Some v else None.

(** What a reader gets of a printed value: each text with U+FFFD for what is not
    UTF-8. *)
Fixpoint as_read (v : json) : json :=
  match v with
  | JString s => JString (ToValid s)
  | JArray items => JArray (map as_read items)
  | JObject members => JObject (map (fun m => (ToValid m.1, as_read m.2)) members)
  | _ => v
  end.

Fixpoint numbers_ok (v : json) : bool :=
  match v with
  | JNumber literal => isValidNumber literal
  | JArray items => forallb numbers_ok items
  | JObject members => forallb (fun m => numbers_ok m.2) members
  | _ => true
  end.


(** * Properties *)



Example parse_demo :
  parse (lit " {'a':[1,-2.5e3,true, null],'b\u00e9':'x\ny'}")
  = Some (JObject [("a", JArray [JNumber "1"; JNumber "-2.5e3"; JBool true; JNull]);
                   ("b" +:+ EncodeRune 233, JString ("x" +:+ newline +:+ "y"))]).
Proof. vm_compute. reflexivity. Qed.

(** ** Runes *)

Lemma byte_of_range c : 0 <= byte_of c < 256.
Proof. unfold byte_of. pose proof (N_ascii_bounded c). lia. Qed.

Lemma byte_char_of c : byte_char (byte_of c) = c.
Proof. unfold byte_char, byte_of. rewrite N2Z.id. apply ascii_N_embedding. Qed.

Lemma byte_char_eq b c : b = byte_of c -> byte_char b = c.
Proof. intros ->. apply byte_char_of. Qed.

Lemma byte_of_char b : 0 <= b < 256 -> byte_of (byte_char b) = b.
Proof. intros H. unfold byte_char, byte_of. rewrite N_ascii_embedding; lia. Qed.

Lemma between_spec lo b hi : between lo b hi = true <-> lo <= b <= hi.
Proof. unfold between. rewrite andb_true_iff, !Z.leb_le. done. Qed.

(** [x] is the text of the rune [r], whatever follows it. *)
Record rune_text (x : string) (r : Z) : Prop := {
  rune_decodes : forall t, DecodeRune (x +:+ t) = (r, String.length x);
  rune_encodes : EncodeRune r = x;
  rune_wide : 128 <= r;
  rune_bytes : Forall (fun c => 128 <= byte_of c) (String.list_ascii_of_string x);
  rune_length : (2 <= String.length x)%nat
}.

(** What a text starts with: a byte of ASCII, a rune of several bytes, or a byte
    that is not UTF-8. *)
Inductive starts : string -> string -> Z -> string -> Prop :=
| starts_ascii c s : byte_of c < 128 -> starts (String c s) (String c "") (byte_of c) s
| starts_rune x r s : rune_text x r -> starts (x +:+ s) x r s
| starts_bad c s : 128 <= byte_of c -> DecodeRune (String c s) = (RuneError, 1%nat) ->
    starts (String c s) (String c "") RuneError s.

Lemma lead_spec b n lo hi : lead b = Some (n, lo, hi) ->
  (n = 1%nat /\ 194 <= b < 224 /\ lo = 128 /\ hi = 191)
  \/ (n = 2%nat /\ 224 <= b < 240 /\ 128 <= lo /\ hi <= 191 /\ (b = 224 -> lo = 160) /\ (b = 237 -> hi = 159))
  \/ (n = 3%nat /\ 240 <= b <= 244 /\ 128 <= lo /\ hi <= 191 /\ (b = 240 -> lo = 144) /\ (b = 244 -> hi = 143)).
Proof. unfold lead. intros H. repeat case_match; to_prop; simplify_eq; lia. Qed.

Ltac encode_rune :=
  unfold EncodeRune, between;
  repeat match goal with H : ?x mod ?n = _ |- _ => rewrite !H; clear H end;
  repeat match goal with
  | |- context [?a <? ?b] => (rewrite (proj2 (Z.ltb_ge a b)) by lia) || (rewrite (proj2 (Z.ltb_lt a b)) by lia)
  | |- context [(?a <=? ?b) && (?c <=? ?d)] =>
      replace ((a <=? b) && (c <=? d)) with false by (symmetry; apply andb_false_iff; rewrite !Z.leb_gt; lia)
  | |- context [?a <=? ?b] => (rewrite (proj2 (Z.leb_gt a b)) by lia) || (rewrite (proj2 (Z.leb_le a b)) by lia)
  end;
  cbn [orb andb];
  repeat match goal with |- context [64 ^ ?n] => let v := eval vm_compute in (64 ^ n) in change (64 ^ n) with v end;
  repeat match goal with |- String (byte_char ?b) _ = String ?c _ =>
    rewrite (byte_char_eq b c) by (Z.to_euclidean_division_equations; lia); f_equal end;
  try done.

Lemma rune_text2 c0 c1 :
  194 <= byte_of c0 < 224 -> 128 <= byte_of c1 <= 191 ->
  rune_text (String c0 (String c1 "")) (byte_of c0 mod 32 * 64 + byte_of c1 mod 64).
Proof.
  intros H0 H1.
  assert (L : lead (byte_of c0) = Some (1%nat, 128, 191)) by (unfold lead; repeat case_match; to_prop; (done || lia)).
  assert (B : between 128 (byte_of c1) 191 = true) by by apply between_spec.
  assert (byte_of c0 mod 32 = byte_of c0 - 192) by (Z.to_euclidean_division_equations; lia).
  assert (byte_of c1 mod 64 = byte_of c1 - 128) by (Z.to_euclidean_division_equations; lia).
  split; [| |lia| |cbn; lia].
  - intros t. rewrite !sapp_cons. unfold DecodeRune, RuneSelf. cbn zeta.
    rewrite (proj2 (Z.ltb_ge (byte_of c0) 128)) by lia. by rewrite L, B.
  - encode_rune.
  - repeat constructor; lia.
Qed.

Lemma rune_text3 c0 c1 c2 n lo hi :
  lead (byte_of c0) = Some (2%nat, lo, hi) -> n = 2%nat ->
  between lo (byte_of c1) hi = true -> between 128 (byte_of c2) 191 = true ->
  rune_text (String c0 (String c1 (String c2 "")))
    (byte_of c0 mod 16 * 4096 + byte_of c1 mod 64 * 64 + byte_of c2 mod 64).
Proof.
  intros L -> B1 B2. pose proof L as Hl. apply lead_spec in Hl.
  destruct Hl as [Hl|[Hl|Hl]]; destruct Hl as (Hn & Hl); try lia.
  pose proof B1 as H1. apply between_spec in H1. pose proof B2 as H2. apply between_spec in H2.
  assert (byte_of c0 mod 16 = byte_of c0 - 224) by (Z.to_euclidean_division_equations; lia).
  assert (byte_of c1 mod 64 = byte_of c1 - 128) by (Z.to_euclidean_division_equations; lia).
  assert (byte_of c2 mod 64 = byte_of c2 - 128) by (Z.to_euclidean_division_equations; lia).
  assert (byte_of c0 = 237 \/ byte_of c0 < 237 \/ 237 < byte_of c0) by lia.
  assert (byte_of c0 = 224 \/ 224 < byte_of c0) by lia.
  split; [| |lia| |cbn; lia].
  - intros t. rewrite !sapp_cons. unfold DecodeRune, RuneSelf. cbn zeta.
    rewrite (proj2 (Z.ltb_ge (byte_of c0) 128)) by lia. by rewrite L, B1; cbn [negb]; rewrite B2.
  - encode_rune.
  - repeat constructor; lia.
Qed.

Lemma rune_text4 c0 c1 c2 c3 lo hi :
  lead (byte_of c0) = Some (3%nat, lo, hi) ->
  between lo (byte_of c1) hi = true -> between 128 (byte_of c2) 191 = true ->
  between 128 (byte_of c3) 191 = true ->
  rune_text (String c0 (String c1 (String c2 (String c3 ""))))
    (byte_of c0 mod 8 * 262144 + byte_of c1 mod 64 * 4096 + byte_of c2 mod 64 * 64 + byte_of c3 mod 64).
Proof.
  intros L B1 B2 B3. pose proof L as Hl. apply lead_spec in Hl.
  destruct Hl as [Hl|[Hl|Hl]]; destruct Hl as (Hn & Hl); try lia.
  pose proof B1 as H1. apply between_spec in H1. pose proof B2 as H2. apply between_spec in H2.
  pose proof B3 as H3. apply between_spec in H3.
  assert (byte_of c0 mod 8 = byte_of c0 - 240) by (Z.to_euclidean_division_equations; lia).
  assert (byte_of c1 mod 64 = byte_of c1 - 128) by (Z.to_euclidean_division_equations; lia).
  assert (byte_of c2 mod 64 = byte_of c2 - 128) by (Z.to_euclidean_division_equations; lia).
  assert (byte_of c3 mod 64 = byte_of c3 - 128) by (Z.to_euclidean_division_equations; lia).
  assert (byte_of c0 = 244 \/ byte_of c0 < 244) by lia.
  assert (byte_of c0 = 240 \/ 240 < byte_of c0) by lia.
  split; [| |lia| |cbn; lia].
  - intros t. rewrite !sapp_cons. unfold DecodeRune, RuneSelf. cbn zeta.
    rewrite (proj2 (Z.ltb_ge (byte_of c0) 128)) by lia.
    rewrite L, B1; cbn [negb]; rewrite B2; cbn [negb]; by rewrite B3.
  - encode_rune.
  - repeat constructor; lia.
Qed.

Lemma DecodeRune_wide c s : 128 <= byte_of c ->
  DecodeRune (String c s) = (RuneError, 1%nat)
  \/ exists x r t, String c s = x +:+ t /\ rune_text x r.
Proof.
  intros Hc. unfold DecodeRune, RuneSelf. cbn zeta.
  rewrite (proj2 (Z.ltb_ge (byte_of c) 128)) by lia.
  destruct (lead (byte_of c)) as [[[n lo] hi]|] eqn:L; [|by left].
  destruct s as [|c1 s]; [by left|].
  destruct (between lo (byte_of c1) hi) eqn:B1; cbn [negb]; [|by left].
  pose proof L as Hl. apply lead_spec in Hl.
  destruct Hl as [Hl|[Hl|Hl]]; destruct Hl as (-> & Hl).
  - right. destruct Hl as (? & -> & ->). apply between_spec in B1.
    exists (String c (String c1 "")). eexists _, s. split; [done|by apply rune_text2].
  - destruct s as [|c2 s]; [by left|].
    destruct (between 128 (byte_of c2) 191) eqn:B2; cbn [negb]; [|by left].
    right. exists (String c (String c1 (String c2 ""))). eexists _, s. split; [done|by eapply rune_text3].
  - destruct s as [|c2 s]; [by left|].
    destruct (between 128 (byte_of c2) 191) eqn:B2; cbn [negb]; [|by left].
    destruct s as [|c3 s]; [by left|].
    destruct (between 128 (byte_of c3) 191) eqn:B3; cbn [negb]; [|by left].
    right. exists (String c (String c1 (String c2 (String c3 "")))). eexists _, s.
    split; [done|by eapply rune_text4].
Qed.

Lemma DecodeRune_starts c s :
  exists x r t, starts (String c s) x r t.
Proof.
  destruct (Z.ltb_spec (byte_of c) 128) as [Hc|Hc].
  { exists (String c ""), (byte_of c), s. by constructor. }
  destruct (DecodeRune_wide c s Hc) as [E|(x & r & t & -> & Hx)].
  - exists (String c ""), RuneError, s. by constructor.
  - exists x, r, t. by constructor.
Qed.

Lemma starts_split s x r t : starts s x r t -> s = x +:+ t /\ (1 <= String.length x)%nat.
Proof. destruct 1 as [c s H|x r s H|c s H E]; cbn; try (split; [done|lia]). split; [done|]. destruct H. lia. Qed.

Lemma starts_decode s x r t : starts s x r t -> DecodeRune s = (r, String.length x).
Proof.
  destruct 1 as [c s H|x r s H|c s H E]; [|apply H|done].
  unfold DecodeRune, RuneSelf. cbn zeta. by rewrite (proj2 (Z.ltb_lt (byte_of c) 128)) by lia.
Qed.

Lemma starts_cases c s x r t : starts (String c s) x r t ->
  (byte_of c < 128 /\ x = String c "" /\ r = byte_of c /\ t = s)
  \/ (128 <= byte_of c /\ rune_text x r)
  \/ (128 <= byte_of c /\ x = String c "" /\ r = RuneError /\ t = s).
Proof.
  intros H. remember (String c s) as u eqn:E. destruct H as [d u H|x r u H|d u H E'].
  - injection E as -> ->. by left.
  - right. left. split; [|done]. destruct H as [_ _ _ Hb Hl]. destruct x as [|d x]; [cbn in Hl; lia|].
    rewrite sapp_cons in E. injection E as -> _. by apply list.Forall_cons in Hb as [? _].
  - injection E as -> ->. by right; right.
Qed.

Lemma rune_not_bad x r : rune_text x r -> is_bad (r, String.length x) = false.
Proof.
  intros [_ _ _ _ Hl]. apply not_true_iff_false. unfold is_bad. cbn [fst snd].
  rewrite andb_true_iff, Nat.eqb_eq. lia.
Qed.

Lemma runes_go_fuel fuel fuel' s :
  (String.length s <= fuel)%nat -> (String.length s <= fuel')%nat -> runes_go fuel s = runes_go fuel' s.
Proof.
  revert fuel' s. induction fuel as [|fuel IH]; intros fuel' s Hf Hf'.
  { destruct s; [by destruct fuel'|cbn in Hf; lia]. }
  destruct s as [|c s]; [by destruct fuel'|]. destruct fuel' as [|fuel']; [cbn in Hf'; lia|].
  destruct (DecodeRune_starts c s) as (x & r & t & Hs).
  pose proof (starts_split _ _ _ _ Hs) as [E Hlen]. pose proof (f_equal String.length E) as Hl.
  rewrite string_length_app in Hl. cbn [runes_go]. rewrite (starts_decode _ _ _ _ Hs). cbn -[take_bytes drop_bytes].
  f_equal. rewrite E, drop_bytes_app. apply IH; cbn in Hf, Hf', Hl; lia.
Qed.

Lemma runes_starts s x r t : starts s x r t -> runes s = (x, r) :: runes t.
Proof.
  intros Hs. pose proof (starts_split _ _ _ _ Hs) as [E Hlen]. pose proof (f_equal String.length E) as Hl.
  rewrite string_length_app in Hl. unfold runes.
  destruct (String.length s) as [|n] eqn:En; [lia|]. destruct s as [|c s]; [done|]. cbn [runes_go].
  rewrite (starts_decode _ _ _ _ Hs). cbn -[take_bytes drop_bytes].
  rewrite E, take_bytes_app, drop_bytes_app. f_equal. apply runes_go_fuel; lia.
Qed.

(** Reading a text rune by rune. *)
Lemma runes_ind (P : string -> Prop) :
  P "" -> (forall s x r t, starts s x r t -> P t -> P s) -> forall s, P s.
Proof.
  intros H0 Hs s. remember (String.length s) as n eqn:En.
  revert s En. induction (lt_wf n) as [n _ IH]. intros s ->.
  destruct s as [|c s]; [done|].
  destruct (DecodeRune_starts c s) as (x & r & t & H). apply (Hs _ _ _ _ H).
  destruct (starts_split _ _ _ _ H) as [E Hlen]. apply (IH (String.length t)); [|done].
  rewrite E, string_length_app. lia.
Qed.

(** ** Texts *)

Lemma is_bad_starts s x r t : starts s x r t ->
  is_bad (r, String.length x) = true <-> (exists c, x = String c "" /\ 128 <= byte_of c).
Proof.
  unfold is_bad. cbn [fst snd]. rewrite andb_true_iff, Z.eqb_eq, Nat.eqb_eq.
  destruct 1 as [c s H|x r s H|c s H E].
  - split; [|intros (d & [= ->] & ?); lia]. unfold RuneError. lia.
  - split; [destruct H; lia|]. intros (d & -> & _). destruct H as [_ _ _ _ H]. cbn in H. lia.
  - split; [by exists c|done].
Qed.

Lemma concat_map_cons {A} (f : A -> string) x l : concat_map f (x :: l) = f x +:+ concat_map f l.
Proof. done. Qed.

(** Text of whole runes: where another text follows, its runes stay the same. *)
Definition decodes (x : string * Z) : bool := negb (is_bad (x.2, String.length x.1)).
Definition valid_utf8 (s : string) : bool := forallb decodes (runes s).

Lemma runes_app a b : valid_utf8 a = true -> runes (a +:+ b) = runes a ++ runes b.
Proof.
  unfold valid_utf8. induction a as [|a x r t Hs IH] using runes_ind; [done|].
  rewrite (runes_starts _ _ _ _ Hs). cbn [forallb]. intros [Hx Ht]%andb_true_iff.
  assert (starts (a +:+ b) x r (t +:+ b)) as Hab.
  { destruct Hs as [c s H|x r s H|c s H E]; [by constructor|rewrite sapp_assoc; by constructor|done]. }
  rewrite (runes_starts _ _ _ _ Hab), IH by done. done.
Qed.

Lemma valid_utf8_app a b : valid_utf8 a = true -> valid_utf8 b = true -> valid_utf8 (a +:+ b) = true.
Proof.
  intros Ha Hb. unfold valid_utf8. rewrite runes_app, forallb_app by done. by apply andb_true_iff.
Qed.

Lemma ToValid_valid s : valid_utf8 s = true -> ToValid s = s.
Proof.
  unfold valid_utf8, ToValid. induction s as [|s x r t Hs IH] using runes_ind; [done|].
  rewrite (runes_starts _ _ _ _ Hs), concat_map_cons. cbn [forallb]. intros [Hx Ht]%andb_true_iff.
  rewrite IH by done. destruct (starts_split _ _ _ _ Hs) as [-> _]. f_equal.
  unfold valid_rune, decodes in *. cbn [fst snd] in *. by destruct (is_bad _).
Qed.

Lemma prepend_assoc a b x : prepend a (prepend b x) = prepend (a +:+ b) x.
Proof. destruct x as [[u rest]|]; cbn; [|done]. by rewrite sapp_assoc. Qed.

Lemma unquote_escape fuel s x r t u : starts s x r t ->
  unquote_go (S fuel) (escape_rune (x, r) +:+ u) = prepend (valid_rune (x, r)) (unquote_go fuel u).
Proof.
  intros Hs. destruct Hs as [c s H|x r s H|c s H E].
  - destruct c as [[][][][][][][][]]; try (exfalso; cbn in H; lia); done.
  - unfold escape_rune, valid_rune. cbn [fst snd]. unfold RuneSelf.
    rewrite (proj2 (Z.ltb_ge r 128)) by apply H.
    assert (is_bad (r, String.length x) = false) as ->.
    { apply not_true_iff_false. rewrite (is_bad_starts (x +:+ s)) by by constructor.
      intros (d & -> & _). destruct H as [_ _ _ _ H]. cbn in H. lia. }
    destruct (Z.eqb_spec r 8232) as [->|].
    { destruct H as [_ Hx _ _ _]. rewrite <- Hx. done. }
    destruct (Z.eqb_spec r 8233) as [->|].
    { destruct H as [_ Hx _ _ _]. rewrite <- Hx. done. }
    pose proof (rune_decodes _ _ H u) as D. destruct H as [_ _ _ Hb Hl].
    destruct x as [|c x]; [cbn in Hl; lia|]. apply list.Forall_cons in Hb as [Hc _]. fold (String.list_ascii_of_string x) in *.
    rewrite sapp_cons in D |- *. cbn [unquote_go].
    rewrite (proj2 (Z.eqb_neq (byte_of c) 34)), (proj2 (Z.ltb_ge (byte_of c) 32)),
      (proj2 (Z.eqb_neq (byte_of c) 92)) by lia.
    rewrite D, <- sapp_cons, take_bytes_app, drop_bytes_app. unfold valid_rune. cbn [fst snd].
    replace (is_bad _) with false; [done|]. symmetry. apply not_true_iff_false. unfold is_bad. cbn [fst snd].
    rewrite andb_true_iff, Nat.eqb_eq. lia.
  - unfold escape_rune, valid_rune. cbn [fst snd].
    assert (is_bad (RuneError, String.length (String c "")) = true) as -> by done. done.
Qed.

Lemma unquote_go_escaped s fuel rest :
  (length (runes s) < fuel)%nat ->
  unquote_go fuel (concat_map escape_rune (runes s) +:+ String quote rest) = Some (ToValid s, rest).
Proof.
  unfold ToValid. revert fuel. induction s as [|s x r t Hs IH] using runes_ind; intros fuel Hf.
  { destruct fuel; [cbn in Hf; lia|]. done. }
  rewrite (runes_starts _ _ _ _ Hs) in Hf |- *. destruct fuel as [|fuel]; [lia|].
  rewrite !concat_map_cons, sapp_assoc, (unquote_escape _ _ _ _ _ _ Hs), IH by (cbn in Hf; lia).
  done.
Qed.

Lemma escape_rune_length s x r t : starts s x r t -> (1 <= String.length (escape_rune (x, r)))%nat.
Proof.
  intros Hs. unfold escape_rune. cbn [fst snd]. destruct Hs as [c s H|x r s H|c s H E'].
  - destruct c as [[][][][][][][][]]; try (exfalso; cbn in H; lia); vm_compute; lia.
  - destruct H as [_ _ Hr _ Hl]. unfold RuneSelf. rewrite (proj2 (Z.ltb_ge r 128)) by done.
    repeat case_match; cbn; lia.
  - cbn. lia.
Qed.

Lemma escaped_length s : (length (runes s) <= String.length (concat_map escape_rune (runes s)))%nat.
Proof.
  induction s as [|s x r t Hs IH] using runes_ind; [cbn; lia|].
  rewrite (runes_starts _ _ _ _ Hs), concat_map_cons, string_length_app. cbn [length].
  pose proof (escape_rune_length _ _ _ _ Hs). lia.
Qed.

(** A string literal reads back as the text, U+FFFD for what is not UTF-8. *)
Lemma unquote_quoted s rest :
  exists body, quoted s +:+ rest = String quote body /\ unquote body = Some (ToValid s, rest).
Proof.
  exists (concat_map escape_rune (runes s) +:+ String quote rest). unfold quoted. split.
  { by rewrite !sapp_cons, sapp_assoc. }
  apply unquote_go_escaped. rewrite string_length_app. pose proof (escaped_length s). cbn. lia.
Qed.

Section json_induction.
Variable P : json -> Prop.
Hypothesis Hnull : P JNull.
Hypothesis Hbool : forall b, P (JBool b).
Hypothesis Hnumber : forall s, P (JNumber s).
Hypothesis Hstring : forall s, P (JString s).
Hypothesis Harray : forall items, Forall P items -> P (JArray items).
Hypothesis Hobject : forall members, Forall (fun m => P (snd m)) members -> P (JObject members).

Fixpoint json_nested_ind (v : json) : P v :=
  match v with
  | JNull => Hnull
  | JBool b => Hbool b
  | JNumber s => Hnumber s
  | JString s => Hstring s
  | JArray items =>
      Harray items ((fix all l : Forall P l :=
        match l with [] => List.Forall_nil _ | x :: l => List.Forall_cons _ _ _ (json_nested_ind x) (all l) end) items)
  | JObject members =>
      Hobject members ((fix all l : Forall (fun m => P (snd m)) l :=
        match l with
        | [] => List.Forall_nil _
        | x :: l => List.Forall_cons _ _ _ (json_nested_ind (snd x)) (all l)
        end) members)
  end.
End json_induction.

(** ** Numbers *)

(** A text that does not continue a number. *)
Definition number_stop (s : string) : bool :=
  match s with
  | EmptyString => true
  | String c _ =>
      let b := byte_of c in
      negb (between 48 b 57 || (b =? 46) || (b =? 101) || (b =? 69))
  end.

Ltac ascii_cases c := destruct c as [[][][][][][][][]].

Lemma digits_end_app s t : number_stop t = true -> digits_end (s +:+ t) = digits_end s +:+ t.
Proof.
  intros Ht. induction s as [|c s IH].
  - destruct t as [|c t]; [done|]. revert Ht. ascii_cases c; done.
  - rewrite sapp_cons. cbn [digits_end]. by case_bool_decide.
Qed.

Lemma some_digits_app s t r : number_stop t = true -> some_digits s = Some r -> some_digits (s +:+ t) = Some (r +:+ t).
Proof.
  unfold some_digits. intros Ht H. rewrite digits_end_app, !string_length_app by done.
  destruct (Nat.ltb_spec (String.length (digits_end s)) (String.length s)) as [Hl|Hl]; [|done].
  injection H as <-. rewrite (proj2 (Nat.ltb_lt _ _)) by lia. done.
Qed.

Lemma integer_part_app s t r : number_stop t = true -> integer_part s = Some r -> integer_part (s +:+ t) = Some (r +:+ t).
Proof.
  intros Ht H. destruct s as [|c s]; [done|].
  pose proof (some_digits_app (String c s) t r Ht) as Hd. rewrite sapp_cons in Hd |- *.
  revert H Hd. unfold integer_part. ascii_cases c; try (intros H Hd; by apply Hd). by intros [= ->].
Qed.

Lemma fraction_part_app s t r : number_stop t = true -> fraction_part s = Some r -> fraction_part (s +:+ t) = Some (r +:+ t).
Proof.
  intros Ht H. destruct s as [|c s].
  - cbn in H. injection H as <-. destruct t as [|c t]; [done|].
    revert Ht. ascii_cases c; done.
  - rewrite sapp_cons. pose proof (some_digits_app s t r Ht) as Hd. revert H. unfold fraction_part.
    ascii_cases c; intros H; try (by injection H as <-); by apply Hd.
Qed.

Lemma exponent_part_app s t r : number_stop t = true -> exponent_part s = Some r -> exponent_part (s +:+ t) = Some (r +:+ t).
Proof.
  intros Ht H. destruct s as [|c s].
  - cbn in H. injection H as <-. destruct t as [|c t]; [done|].
    revert Ht. ascii_cases c; done.
  - assert (Hs : forall s, some_digits s = Some r -> some_digits (s +:+ t) = Some (r +:+ t))
      by (intros ?; by apply some_digits_app).
    assert (He : match s with String "+" rest | String "-" rest => some_digits rest | _ => some_digits s end = Some r ->
      match s +:+ t with String "+" rest | String "-" rest => some_digits rest | _ => some_digits (s +:+ t) end = Some (r +:+ t)).
    { destruct s as [|d s]; [done|]. pose proof (Hs (String d s)) as Hd. rewrite sapp_cons in Hd |- *.
      revert Hd. pose proof (Hs s) as Hs'. revert Hs'. clear. ascii_cases d; intros Hs' Hd H; try (by apply Hd); by apply Hs'. }
    rewrite sapp_cons. revert H He. unfold exponent_part. clear.
    ascii_cases c; intros H He; try (by apply He); by injection H as <-.
Qed.

Lemma number_end_app s t r : number_stop t = true -> number_end s = Some r -> number_end (s +:+ t) = Some (r +:+ t).
Proof.
  unfold number_end. intros Ht H. apply bind_Some in H as (r1 & H1 & H).
  apply bind_Some in H as (r2 & H2 & H).
  assert (unsigned (s +:+ t) = unsigned s +:+ t) as ->.
  { destruct s as [|c s]; [|ascii_cases c; done]. cbn in H1. done. }
  apply (integer_part_app _ t) in H1; [|done]. rewrite H1. cbn.
  apply (fraction_part_app _ t) in H2; [|done]. rewrite H2. cbn.
  by apply exponent_part_app.
Qed.

Lemma take_number_app s t : number_stop t = true -> isValidNumber s = true -> take_number (s +:+ t) = Some (JNumber s, t).
Proof.
  unfold isValidNumber, take_number. intros Ht H. destruct (number_end s) as [r|] eqn:E; [|done].
  apply is_empty_true in H as ->. rewrite (number_end_app s t "") by done. cbn.
  rewrite string_length_app, Nat.add_sub, take_bytes_app. done.
Qed.

Lemma number_head l : isValidNumber l = true ->
  exists c t, l = String c t /\ (byte_of c = 45 \/ 48 <= byte_of c <= 57).
Proof.
  destruct l as [|c t]; [done|]. intros H. exists c, t. split; [done|].
  assert (some_digits (String c t) = None -> unsigned (String c t) = String c t -> byte_of c <> 48 ->
    isValidNumber (String c t) = true -> False) as Hno.
  { unfold isValidNumber, number_end. intros Hd -> Hz. unfold integer_part. revert Hd Hz.
    ascii_cases c; intros Hd Hz; try (by rewrite Hd). exfalso. by apply Hz. }
  assert (digits_end (String c t) = String c t -> some_digits (String c t) = None) as Hs.
  { unfold some_digits. intros ->. by rewrite Nat.ltb_irrefl. }
  revert H Hno Hs. ascii_cases c; intros H Hno Hs;
    solve [by left | right; split; vm_compute; by intros | exfalso; apply Hno; [by apply Hs|done|by intros|exact H]].
Qed.

Lemma encode_head v : numbers_ok v = true ->
  exists c t, encode v = String c t /\ is_json_space c = false /\ byte_of c <> 93.
Proof.
  destruct v as [|[]|l|s|items|members]; intros H.
  1, 2, 3, 5, 6, 7: eexists _, _; split; [done|split; [done|by intros]].
  destruct (number_head l H) as (c & t & -> & Hc). exists c, t. split; [done|].
  unfold is_json_space. cbn zeta. rewrite !orb_false_iff, !Z.eqb_neq. lia.
Qed.

Lemma parse_number fuel l rest : numbers_ok (JNumber l) = true -> number_stop rest = true ->
  parse_value (S fuel) (l +:+ rest) = Some (JNumber l, rest).
Proof.
  intros H Hr. cbn [numbers_ok] in H. pose proof (take_number_app l rest Hr H) as E.
  destruct (number_head l H) as (c & t & -> & Hc). rewrite sapp_cons in E |- *.
  cbn [parse_value skip_space]. unfold is_json_space. cbn zeta.
  rewrite !(proj2 (Z.eqb_neq (byte_of c) _)) by lia. cbn [orb expect].
  rewrite !(proj2 (Z.eqb_neq (byte_of c) _)) by lia. unfold parse_scalar.
  assert (forall a p b, byte_of a = b -> b <> byte_of c ->
    expect_text (String a p) (String c (t +:+ rest)) = None) as Ht.
  { intros a p b <- Ha. unfold expect_text. cbn [HasPrefix].
    rewrite (proj2 (Ascii.eqb_neq a c)); [done|]. by intros ->. }
  rewrite (Ht _ _ 110), (Ht _ _ 116), (Ht _ _ 102) by (done || lia). exact E.
Qed.

Definition reads_back (v : json) : Prop :=
  numbers_ok v = true -> forall fuel rest, number_stop rest = true ->
  (String.length (encode v) <= fuel)%nat -> parse_value fuel (encode v +:+ rest) = Some (as_read v, rest).

Lemma skip_space_head v rest : numbers_ok v = true ->
  skip_space (encode v +:+ rest) = encode v +:+ rest /\ expect 93 (encode v +:+ rest) = None.
Proof.
  intros H. destruct (encode_head v H) as (c & t & -> & Hc & H93). rewrite sapp_cons. cbn.
  rewrite Hc. split; [done|]. by rewrite (proj2 (Z.eqb_neq _ _)).
Qed.

Lemma encode_length v : numbers_ok v = true -> (1 <= String.length (encode v))%nat.
Proof. intros H. destruct (encode_head v H) as (c & t & -> & _). cbn. lia. Qed.

Lemma at_comma s :
  skip_space ("," +:+ s) = "," +:+ s /\ expect 93 ("," +:+ s) = None
  /\ expect 125 ("," +:+ s) = None /\ expect 44 ("," +:+ s) = Some s.
Proof. by split_and!. Qed.

Lemma at_colon s : expect 58 (skip_space (":" +:+ s)) = Some s.
Proof. done. Qed.

Lemma concat_head sep a l t : exists t', String.concat sep (a :: l) +:+ t = a +:+ t'.
Proof. destruct l as [|b l]; [by exists t|]. eexists. cbn. by rewrite sapp_assoc. Qed.

Lemma concat_cons sep a b l : String.concat sep (a :: b :: l) = a +:+ sep +:+ String.concat sep (b :: l).
Proof. done. Qed.

Lemma parse_items_encoded items :
  Forall reads_back items -> forallb numbers_ok items = true -> items <> [] ->
  forall fuel rest, (String.length (String.concat "," (map encode items)) < fuel)%nat ->
  parse_items fuel (String.concat "," (map encode items) +:+ String "]" rest) = Some (map as_read items, rest).
Proof.
  induction 1 as [|v items Hv Hall IH]; [done|]. cbn [forallb].
  intros [Hn Hns]%andb_true_iff _ fuel rest Hf. destruct fuel as [|fuel]; [lia|].
  destruct items as [|w items].
  - cbn [map String.concat] in Hf |- *. cbn [parse_items]. rewrite Hv; [|done|done|lia]. done.
  - specialize (IH Hns ltac:(done)).
    change (map encode (v :: w :: items)) with (encode v :: encode w :: map encode items) in Hf |- *.
    rewrite concat_cons in Hf |- *.
    change (encode w :: map encode items) with (map encode (w :: items)) in Hf |- *.
    remember (String.concat "," (map encode (w :: items))) as tail.
    rewrite !string_length_app in Hf. cbn [String.length] in Hf.
    rewrite !sapp_assoc. cbn [parse_items].
    rewrite Hv; [|done|done|lia]. cbn -[map expect skip_space String.app].
    destruct (at_comma (tail +:+ String "]" rest)) as (-> & -> & _ & ->). cbn -[map]. by rewrite IH by lia.
Qed.

Definition print_member (m : string * json) : string := quoted m.1 +:+ ":" +:+ encode m.2.

Lemma parse_members_encoded members :
  Forall (fun m => reads_back m.2) members -> forallb (fun m => numbers_ok m.2) members = true -> members <> [] ->
  forall fuel rest, (String.length (String.concat "," (map print_member members)) < fuel)%nat ->
  parse_members fuel (String.concat "," (map print_member members) +:+ String "}" rest)
  = Some (map (fun m => (ToValid m.1, as_read m.2)) members, rest).
Proof.
  induction 1 as [|[k v] members Hv Hall IH]; [done|]. cbn [forallb fst snd] in *.
  intros [Hn Hns]%andb_true_iff _ fuel rest Hf. destruct fuel as [|fuel]; [lia|].
  assert (forall tail, (String.length (encode v) <= fuel)%nat -> number_stop tail = true ->
    parse_members (S fuel) (print_member (k, v) +:+ tail)
    = match expect 125 (skip_space tail), expect 44 (skip_space tail) with
      | Some rest, _ => Some ([(ToValid k, as_read v)], rest)
      | _, Some rest =>
          '(members, rest) ← parse_members fuel rest; Some ((ToValid k, as_read v) :: members, rest)
      | None, None => None
      end) as Hstep.
  { intros tail Hl Ht. unfold print_member. cbn [fst snd]. rewrite !sapp_assoc.
    destruct (unquote_quoted k (":" +:+ encode v +:+ tail)) as (body & -> & Hu).
    cbn [parse_members]. change (skip_space (String quote body)) with (String quote body).
    change (expect 34 (String quote body)) with (Some body). cbn -[parse_value]. rewrite Hu. cbn -[parse_value expect skip_space String.app].
    rewrite at_colon. cbn -[parse_value]. by rewrite Hv. }
  destruct members as [|w members].
  - cbn [map String.concat] in Hf |- *. rewrite Hstep; [done| |done].
    unfold print_member in Hf. rewrite !string_length_app in Hf. cbn [fst snd] in *. lia.
  - specialize (IH Hns ltac:(done)).
    change (map print_member ((k, v) :: w :: members)) with (print_member (k, v) ::  print_member w :: map print_member members) in Hf |- *.
    rewrite concat_cons in Hf |- *.
    change (print_member w :: map print_member members) with (map print_member (w :: members)) in Hf |- *.
    remember (String.concat "," (map print_member (w :: members))) as tail.
    rewrite !string_length_app in Hf. cbn [String.length] in Hf.
    unfold print_member at 1 in Hf. rewrite !string_length_app in Hf. cbn [fst snd] in Hf.
    rewrite sapp_assoc, Hstep; [|lia|done]. rewrite sapp_assoc.
    destruct (at_comma (tail +:+ String "}" rest)) as (-> & _ & -> & ->). cbn -[map]. by rewrite IH by lia.
Qed.

Lemma encode_reads_back v : reads_back v.
Proof.
  induction v as [|b|l|s|items IH|members IH] using json_nested_ind; intros Hn fuel rest Hr Hf;
    (destruct fuel as [|fuel]; [pose proof (encode_length _ Hn); lia|]).
  - done.
  - by destruct b.
  - by apply parse_number.
  - cbn [encode]. destruct (unquote_quoted s rest) as (body & -> & Hu).
    cbn [parse_value]. change (skip_space (String quote body)) with (String quote body).
    change (expect 123 (String quote body)) with (@None string). change (expect 91 (String quote body)) with (@None string).
    change (expect 34 (String quote body)) with (Some body). cbn match. by rewrite Hu.
  - destruct items as [|v items]; [done|]. cbn [encode numbers_ok as_read] in *.
    rewrite !string_length_app in Hf. cbn [String.length] in Hf. rewrite !sapp_assoc.
    change ("[" +:+ ?x) with (String "[" x). change ("]" +:+ ?x) with (String "]" x).
    destruct (concat_head "," (encode v) (map encode items) (String "]" rest)) as [t Et].
    pose proof Hn as Hn'. cbn [forallb] in Hn'. apply andb_true_iff in Hn' as [Hv _].
    destruct (skip_space_head v t Hv) as [Hs He].
    cbn [parse_value]. change (skip_space (String "[" ?x)) with (String "[" x).
    change (expect 123 (String "[" ?x)) with (@None string). change (expect 91 (String "[" ?x)) with (Some x).
    change (map encode (v :: items)) with (encode v :: map encode items) in *. rewrite Et, Hs, He, <- Et.
    change (encode v :: map encode items) with (map encode (v :: items)) in *.
    by rewrite (parse_items_encoded (v :: items)) by (done || lia).
  - destruct members as [|m members]; [done|]. cbn [encode numbers_ok as_read] in *.
    rewrite !string_length_app in Hf. cbn [String.length] in Hf. rewrite !sapp_assoc.
    change (map _ (m :: members)) with (map print_member (m :: members)) in Hf.
    change (map (fun m => quoted m.1 +:+ ":" +:+ encode m.2) (m :: members)) with (map print_member (m :: members)).
    change ("{" +:+ ?x) with (String "{" x). change ("}" +:+ ?x) with (String "}" x).
    destruct (concat_head "," (print_member m) (map print_member members) (String "}" rest)) as [t Et].
    cbn [parse_value]. change (skip_space (String "{" ?x)) with (String "{" x).
    change (expect 123 (String "{" ?x)) with (Some x).
    change (map print_member (m :: members)) with (print_member m :: map print_member members) in *.
    assert (expect 125 (skip_space (print_member m +:+ t)) = None) as He.
    { unfold print_member. rewrite sapp_assoc.
      by destruct (unquote_quoted m.1 ((":" +:+ encode m.2) +:+ t)) as (body & -> & _). }
    rewrite Et, He, <- Et.
    change (print_member m :: map print_member members) with (map print_member (m :: members)) in *.
    by rewrite (parse_members_encoded (m :: members)) by (done || lia).
Qed.

(** Printing and parsing: a value reads back, its texts with U+FFFD for what is
    not UTF-8. *)
Lemma parse_encode v : numbers_ok v = true -> parse (encode v) = Some (as_read v).
Proof.
  intros H. unfold parse. rewrite <- (sapp_nil_r (encode v)) at 2.
  by rewrite encode_reads_back.
Qed.

Lemma digits_end_go x s : digits_end s = "" -> digits_end (pretty_N_go x s) = "".
Proof.
  revert s. induction (N.lt_wf_0 x) as [x _ IH]. intros s Hs.
  destruct (decide (0 < x)%N) as [Hx|Hx].
  - rewrite pretty_N_go_step by done. apply IH; [apply N.div_lt; lia|].
    cbn [digits_end]. by rewrite digit_value_char by (apply N.mod_lt; lia).
  - apply N.nlt_ge, N.le_0_r in Hx. by rewrite Hx, pretty_N_go_0.
Qed.

Lemma isValidNumber_N (x : N) : isValidNumber (pretty x) = true /\ integer_part (pretty x) = Some "".
Proof.
  assert (integer_part (pretty x) = Some "" -> unsigned (pretty x) = pretty x ->
    isValidNumber (pretty x) = true) as Hv.
  { unfold isValidNumber, number_end. intros H ->. by rewrite H. }
  unfold pretty, pretty_N in *. case_decide as Hx; [done|].
  destruct (pretty_N_go_head x "" ltac:(lia)) as (d & t & E & Hd).
  pose proof (digits_end_go x "" eq_refl) as H. rewrite E in *.
  assert (some_digits (String (pretty_N_char d) t) = Some "") as Hs by (unfold some_digits; by rewrite H).
  assert (d = 1 \/ d = 2 \/ d = 3 \/ d = 4 \/ d = 5 \/ d = 6 \/ d = 7 \/ d = 8 \/ d = 9)%N as Hdig by lia.
  repeat (destruct Hdig as [->|Hdig]; [split; [apply Hv; [exact Hs|done]|exact Hs]|]).
  subst. split; [apply Hv; [exact Hs|done]|exact Hs].
Qed.

(** A decimal integer is a number of JSON. *)
Lemma isValidNumber_Itoa n : isValidNumber (Itoa n) = true.
Proof.
  destruct n as [|p|p]; [done|apply (isValidNumber_N (N.pos p))|].
  change (isValidNumber (String "-" (pretty (N.pos p))) = true).
  unfold isValidNumber, number_end. cbn [unsigned]. by rewrite (proj2 (isValidNumber_N (N.pos p))).
Qed.
