(* ===== verification/Pricing.v ===== *)
(** Token and media prices ([internal/pricing]): the official table, the cost of a
    finished request, the worst case reserved before it runs, and the
    reconstruction of a stored cost. *)

From Stdlib Require Import Ascii.
From S2P Require Import Prelude Json.

#[local] Set Warnings "-register-all".

(** * The price table *)

Definition TicksPerUSD : Z := 10000000000.

(** [Result]; every estimator returns [None] for "unpriced". *)
Record Result := mkResult {
  Model : string;
  CostInUSDTicks : Z
}.

Record tokenPrice := mkTokenPrice {
  ReasoningAliases : list string;
  CanonicalModel : string;
  InputTicks : Z;
  CachedInputTicks : Z;
  OutputTicks : Z;
  LongContextTokens : Z;
  LongInputTicks : Z;
  LongCachedTicks : Z;
  LongOutputTicks : Z
}.

#[export] Instance Result_eq_dec : EqDecision Result.
Proof. solve_decision. Defined.

Definition buildOfficialTokenPrices : list (string * tokenPrice) :=
  [("grok-composer-2.5-fast",
     mkTokenPrice ["none"] "grok-composer-2.5-fast" 10000 2000 20000 200000 20000 4000 40000);
   ("grok-4.6",
     mkTokenPrice ["low"; "medium"; "high"; "xhigh"] "grok-4.6" 20000 5000 60000 200000 40000 10000 120000);
   ("grok-4.5",
     mkTokenPrice ["low"; "medium"; "high"] "grok-4.5" 20000 3000 60000 200000 40000 6000 120000)].

Definition officialTokenPrices (model : string) : option tokenPrice :=
  snd <$> find (fun entry => String.eqb (fst entry) model) buildOfficialTokenPrices.

(** [strings.LastIndexByte] with the two slices around the byte. *)
Fixpoint cut_last (c : ascii) (s : string) : option (string * string) :=
  match s with
  | EmptyString => None
  | String d rest =>
      match cut_last c rest with
      | Some (before, after) => Some (String d before, after)
      | None => if Ascii.eqb c d then Some (EmptyString, rest) else None
      end
  end.

Definition TrimPrefix (s p : string) : string :=
  if HasPrefix s p then drop_bytes (String.length p) s else s.

Definition normalizePricingModel (model : string) : string :=
  TrimPrefix (ToLower (TrimSpace model)) "build/".

Definition resolveOfficialTokenPrice (model : string) : option tokenPrice :=
  let normalized := normalizePricingModel model in
  match officialTokenPrices normalized with
  | Some price => Some price
  | None =>
      match cut_last "-" normalized with
      | None => None
      | Some (base, effort) =>
          match officialTokenPrices base with
          | Some price => if str_in effort (ReasoningAliases price) then Some price else None
          | None => None
          end
      end
  end.

(** * The cost of a request *)

(** The ticks per uncached input, cached input and output token. *)
Definition rates (price : tokenPrice) (contextTokens : Z) : Z * Z * Z :=
  if (0 <? LongContextTokens price) && (LongContextTokens price <? contextTokens)
  then (LongInputTicks price, LongCachedTicks price, LongOutputTicks price)
  else (InputTicks price, CachedInputTicks price, OutputTicks price).

Definition EstimateCost (model : string)
    (inputTokens cachedInputTokens outputTokens contextInputTokens : Z) : option Result :=
  match resolveOfficialTokenPrice model with
  | None => None
  | Some price =>
      let contextTokens := if contextInputTokens <=? 0 then inputTokens else contextInputTokens in
      let '(inputPrice, cachedPrice, outputPrice) := rates price contextTokens in
      let inputTokens := Z.max 0 inputTokens in
      let cachedTokens := Z.max 0 (Z.min cachedInputTokens inputTokens) in
      let uncachedTokens := Z.max 0 (i64 (inputTokens - cachedTokens)) in
      let outputTokens := Z.max 0 outputTokens in
      Some (mkResult (CanonicalModel price)
              (i64 (i64 (i64 (uncachedTokens * inputPrice) + i64 (cachedTokens * cachedPrice))
                    + i64 (outputTokens * outputPrice))))
  end.

(** ** Reconstruction *)

Inductive ComponentKind := ComponentUncachedInput | ComponentCachedInput | ComponentOutput.
Inductive Unit := UnitToken.

Record Component := mkComponent {
  Kind : ComponentKind;
  c_Unit : Unit;
  Quantity : Z;
  UnitPriceInUSDTicks : Z;
  c_CostInUSDTicks : Z
}.

Record Breakdown := mkBreakdown {
  b_Model : string;
  b_CostInUSDTicks : Z;
  Components : list Component
}.

Definition add (kind : ComponentKind) (unit : Unit) (quantity unitPrice : Z) (b : Breakdown) : Breakdown :=
  if (quantity <=? 0) || (unitPrice <=? 0) then b
  else
    let cost := i64 (quantity * unitPrice) in
    mkBreakdown (b_Model b) (i64 (b_CostInUSDTicks b + cost))
      (Components b ++ [mkComponent kind unit quantity unitPrice cost]).

(** The token counts a stored row keeps; the asset counts are not priced here. *)
Record Quantities := mkQuantities {
  InputTokens : Z;
  CachedTokens : Z;
  OutputTokens : Z;
  ContextTokens : Z
}.

(** The breakdown and whether the row is priced. *)
Definition ReconstructBreakdown (model : string) (q : Quantities) : Breakdown * bool :=
  let normalized := normalizePricingModel model in
  match resolveOfficialTokenPrice normalized with
  | None => (mkBreakdown "" 0 [], false)
  | Some price =>
      let contextTokens := if ContextTokens q <=? 0 then InputTokens q else ContextTokens q in
      let '(inputPrice, cachedPrice, outputPrice) := rates price contextTokens in
      let cached := Z.max 0 (Z.min (CachedTokens q) (InputTokens q)) in
      let uncached := Z.max 0 (i64 (InputTokens q - cached)) in
      let breakdown :=
        add ComponentOutput UnitToken (Z.max 0 (OutputTokens q)) outputPrice
          (add ComponentCachedInput UnitToken cached cachedPrice
             (add ComponentUncachedInput UnitToken uncached inputPrice
                (mkBreakdown normalized 0 []))) in
      (breakdown, 0 <? b_CostInUSDTicks breakdown)
  end.

(** * The reservation of a request *)

Definition defaultOutputTokens : Z := 16384.
Definition maximumOutputTokens : Z := 131072.

Definition length_tokens (s : string) : Z := (Z.of_nat (String.length s) + 2) / 3.

(** [walk(false)]: the tokens of a value below the top. *)
Fixpoint walk (v : json) : Z :=
  match v with
  | JNull => 0
  | JBool _ | JNumber _ => 1
  | JString s =>
      let trimmed := TrimSpace s in
      if HasPrefix trimmed "data:image/" || HasPrefix trimmed "data:video/" then 256
      else Z.max 1 (length_tokens s)
  | JArray items => fold_left (fun total child => i64 (total + i64 (1 + walk child))) items 0
  | JObject members =>
      fold_left (fun total '(key, child) => i64 (i64 (total + i64 (length_tokens key + 1)) + walk child))
        members 0
  end.

(** [decoder.Decode] into a string and into a [json.Number]; [None] is its
    error. *)
Definition decode_string (v : json) : option string :=
  match v with JString s => Some s | JNull => Some "" | _ => None end.

Definition decode_number (v : json) : option string :=
  match v with
  | JNumber literal => Some literal
  | JString s => if isValidNumber s then Some s else None
  | JNull => Some ""
  | _ => None
  end.

(** The scan of the top object: the model, the output caps by priority and the
    tokens so far. *)
Record scan := mkScan {
  sc_model : string;
  sc_caps : Z * Z * Z;
  sc_total : Z
}.

Definition output_priority (key : string) : option nat :=
  if String.eqb key "max_output_tokens" then Some 0%nat
  else if String.eqb key "max_completion_tokens" then Some 1%nat
  else if String.eqb key "max_tokens" then Some 2%nat
  else None.

Definition set_cap (priority : nat) (value : Z) (caps : Z * Z * Z) : Z * Z * Z :=
  let '(a, b, c) := caps in
  match priority with O => (value, b, c) | S O => (a, value, c) | _ => (a, b, value) end.

Definition read_cap (priority : nat) (number : string) (caps : Z * Z * Z) : Z * Z * Z :=
  match ParseInt number with
  | Some value => if 0 <? value then set_cap priority (Z.min value maximumOutputTokens) caps else caps
  | None => caps
  end.

(** The members of the top object; [false] when a member does not decode. *)
Fixpoint scan_members (members : list (string * json)) (st : scan) : scan * bool :=
  match members with
  | [] => (st, true)
  | (key, v) :: members =>
      let total := i64 (sc_total st + i64 (length_tokens key + 1)) in
      if String.eqb key "model" then
        match decode_string v with
        | Some value =>
            scan_members members
              (mkScan (TrimSpace value) (sc_caps st) (i64 (total + Z.max 1 (length_tokens value))))
        | None => (st, false)
        end
      else
        match output_priority key with
        | Some priority =>
            match decode_number v with
            | Some number =>
                scan_members members (mkScan (sc_model st) (read_cap priority number (sc_caps st)) (i64 (total + 1)))
            | None => (st, false)
            end
        | None => scan_members members (mkScan (sc_model st) (sc_caps st) (i64 (total + walk v)))
        end
  end.

Definition first_cap (caps : Z * Z * Z) : Z :=
  let '(a, b, c) := caps in
  if 0 <? a then a else if 0 <? b then b else if 0 <? c then c else defaultOutputTokens.

(** The model, the input tokens, the output tokens and whether the body was read
    to its end, for a body of [size] bytes that decodes to [v]. *)
Definition scanReservationJSON (size : Z) (v : json) : string * Z * Z * bool :=
  let '(st, ok) := match v with
                   | JObject members => scan_members members (mkScan "" (0, 0, 0) 0)
                   | _ => (mkScan "" (0, 0, 0) (walk v), true)
                   end in
  if ok then (sc_model st, Z.max 256 (i64 (sc_total st + 128)), first_cap (sc_caps st), true)
  else (sc_model st, Z.max 256 ((size + 2) / 3), defaultOutputTokens, false).

Definition EstimateTextReservationFromBody (size : Z) (v : json) : option Result :=
  let '(model, inputTokens, outputTokens, _) := scanReservationJSON size v in
  if is_empty (TrimSpace model) then None
  else
    match resolveOfficialTokenPrice model with
    | None => None
    | Some _ => EstimateCost model inputTokens 0 outputTokens inputTokens
    end.

(** * Media *)

Definition officialImageEditInputTicks : Z := 100000000.
Definition officialLiteImageInputTicks : Z := 20000000.

Definition officialImage20OutputTicks (resolution quality : string) : option Z :=
  let key := resolution +:+ "/" +:+ quality in
  if String.eqb key "1k/low" then Some 400000000
  else if String.eqb key "2k/low" || String.eqb key "1k/medium" then Some 600000000
  else if String.eqb key "2k/medium" then Some 800000000
  else None.

Definition resolution_ticks (resolution : string) : option Z :=
  if String.eqb resolution "1k" then Some 500000000
  else if String.eqb resolution "2k" then Some 700000000
  else None.

(** The pricing model, the ticks of an input image and those of an output image. *)
Definition image_rates (model resolution quality : string) : option (string * Z * Z) :=
  if String.eqb model "grok-imagine-image-edit" then
    if negb (is_empty quality) then None
    else ticks ← resolution_ticks resolution;
         Some ("grok-imagine-image-edit-" +:+ resolution, officialImageEditInputTicks, ticks)
  else if String.eqb model "grok-imagine-image-2.0" then
    let quality := if is_empty quality then "medium" else quality in
    ticks ← officialImage20OutputTicks resolution quality;
    Some ("grok-imagine-image-2.0-edit-" +:+ quality +:+ "-" +:+ resolution, officialImageEditInputTicks, ticks)
  else if String.eqb model "grok-imagine-image-quality" then
    if negb (is_empty quality) then None
    else ticks ← resolution_ticks resolution;
         Some ("grok-imagine-image-quality-" +:+ resolution, officialImageEditInputTicks, ticks)
  else if String.eqb model "grok-imagine-image" then
    if negb (is_empty quality) then None
    else Some ("grok-imagine-image", officialLiteImageInputTicks, 200000000)
  else None.

Definition EstimateImageEditCost (model resolution quality : string) (outputCount inputCount : Z) : option Result :=
  if (outputCount <=? 0) || (inputCount <=? 0) then None
  else
    let resolution := ToLower (TrimSpace resolution) in
    let quality := ToLower (TrimSpace quality) in
    let resolution := if is_empty resolution then "1k" else resolution in
    '(pricingModel, inputTicks, outputTicks) ← image_rates (normalizePricingModel model) resolution quality;
    Some (mkResult pricingModel (i64 (i64 (outputCount * outputTicks) + i64 (inputCount * inputTicks)))).

(** The ticks of an input image and of a second of video. *)
Definition video_rates (model resolution : string) : option (Z * Z) :=
  if String.eqb model "grok-imagine-video" then
    if String.eqb resolution "480p" then Some (officialLiteImageInputTicks, 500000000)
    else if String.eqb resolution "720p" then Some (officialLiteImageInputTicks, 700000000)
    else None
  else if String.eqb model "grok-imagine-video-1.5" then
    if String.eqb resolution "480p" then Some (officialImageEditInputTicks, 800000000)
    else if String.eqb resolution "720p" then Some (officialImageEditInputTicks, 1400000000)
    else if String.eqb resolution "1080p" then Some (officialImageEditInputTicks, 2500000000)
    else None
  else None.

Definition EstimateVideoCost (model resolution : string) (seconds inputImages : Z) : option Result :=
  if (seconds <=? 0) || (inputImages <? 0) then None
  else
    let baseModel := normalizePricingModel model in
    let resolution := ToLower (TrimSpace resolution) in
    '(ticksPerInputImage, ticksPerSecond) ← video_rates baseModel resolution;
    Some (mkResult (baseModel +:+ "-" +:+ resolution)
            (i64 (i64 (seconds * ticksPerSecond) + i64 (inputImages * ticksPerInputImage)))).


(** * Properties *)

(** ** The table *)

(** The published rates: a cached token costs no more than an uncached one, the
    long-context column no less than the short one. *)
Definition fair (p : tokenPrice) : Prop :=
  0 < CachedInputTicks p <= InputTicks p /\ InputTicks p <= LongInputTicks p <= 40000
  /\ CachedInputTicks p <= LongCachedTicks p <= LongInputTicks p
  /\ 0 < OutputTicks p <= LongOutputTicks p /\ LongOutputTicks p <= 120000.

(** Every identifier the table prices. *)
Definition priced_names : list string :=
  flat_map (fun '(name, p) => name :: map (fun effort => name +:+ "-" +:+ effort) (ReasoningAliases p))
    buildOfficialTokenPrices.

Lemma cut_last_spec c s before after : cut_last c s = Some (before, after) -> s = before +:+ String c after.
Proof.
  revert before. induction s as [|d s IH]; intros before; cbn [cut_last]; [done|].
  destruct (cut_last c s) as [[b a]|] eqn:E.
  - intros [= <- ->]. rewrite sapp_cons. f_equal. by apply IH.
  - destruct (Ascii.eqb c d) eqn:Ed; [|done]. intros [= <- ->]. by apply Ascii.eqb_eq in Ed as ->.
Qed.

Lemma official_entry name p :
  officialTokenPrices name = Some p -> (name, p) ∈ buildOfficialTokenPrices.
Proof.
  unfold officialTokenPrices. destruct (find _ _) as [[n q]|] eqn:E; [|done]. intros [= <-].
  apply List.find_some in E as [Hin Hn]. apply String.eqb_eq in Hn as <-. by apply list_elem_of_In.
Qed.

Lemma resolve_priced model p :
  resolveOfficialTokenPrice model = Some p ->
  normalizePricingModel model ∈ priced_names /\ exists name, (name, p) ∈ buildOfficialTokenPrices.
Proof.
  unfold resolveOfficialTokenPrice. set (n := normalizePricingModel model).
  assert (Hname : forall name q rest, (name, q) ∈ buildOfficialTokenPrices ->
            rest = name \/ (exists effort, effort ∈ ReasoningAliases q /\ rest = name +:+ "-" +:+ effort) ->
            rest ∈ priced_names).
  { intros name q rest Hin Hrest. unfold priced_names. apply list_elem_of_In, in_flat_map.
    exists (name, q). split; [by apply list_elem_of_In|]. destruct Hrest as [->|(effort & He & ->)]; [by left|right].
    apply in_map_iff. exists effort. split; [done|]. by apply list_elem_of_In. }
  destruct (officialTokenPrices n) as [q|] eqn:E.
  { intros [= ->]. apply official_entry in E. split; [|by exists n]. apply (Hname n p); [done|by left]. }
  destruct (cut_last "-" n) as [[base effort]|] eqn:Ec; [|done].
  destruct (officialTokenPrices base) as [q|] eqn:Eb; [|done].
  destruct (str_in effort (ReasoningAliases q)) eqn:Ea; [|done]. intros [= ->].
  apply official_entry in Eb. apply str_in_elem in Ea. apply cut_last_spec in Ec.
  split; [|by exists base]. apply (Hname base p); [done|]. right. by exists effort.
Qed.

Lemma resolve_fair model p : resolveOfficialTokenPrice model = Some p -> fair p.
Proof.
  intros H. apply resolve_priced in H as [_ [name Hin]]. unfold buildOfficialTokenPrices in Hin.
  repeat (apply elem_of_cons in Hin as [[= _ ->]|Hin]; [unfold fair; cbn; lia|]). by apply elem_of_nil in Hin.
Qed.

Lemma normalize_twice model p :
  resolveOfficialTokenPrice model = Some p ->
  resolveOfficialTokenPrice (normalizePricingModel model) = resolveOfficialTokenPrice model.
Proof.
  intros H. apply resolve_priced in H as [H _]. unfold resolveOfficialTokenPrice.
  assert (Hall : Forall (fun n => normalizePricingModel n = n) priced_names) by closed_decide.
  by rewrite (proj1 (Forall_forall _ _) Hall _ H).
Qed.

Lemma rates_fair p context :
  fair p ->
  let '(ip, cp, op) := rates p context in 0 < cp <= ip /\ ip <= 40000 /\ 0 < op <= 120000.
Proof. unfold fair, rates. intros H. destruct (_ && _); lia. Qed.

Lemma rates_mono p c1 c2 :
  fair p -> c1 <= c2 ->
  let '(ip, cp, op) := rates p c1 in let '(ip', cp', op') := rates p c2 in
  ip <= ip' /\ cp <= cp' /\ op <= op'.
Proof.
  unfold fair, rates. intros H Hc. destruct (0 <? LongContextTokens p); cbn [andb]; [|lia].
  destruct (_ <? c1) eqn:E1; destruct (_ <? c2) eqn:E2; to_prop; lia.
Qed.

(** ** The cost *)

(** The exact price of uncached, cached and output tokens. *)
Definition price_of (r : Z * Z * Z) (uncached cached output : Z) : Z :=
  let '(ip, cp, op) := r in uncached * ip + cached * cp + output * op.

Definition context_of (contextInputTokens inputTokens : Z) : Z :=
  if contextInputTokens <=? 0 then inputTokens else contextInputTokens.

Definition cached_of (input cached : Z) : Z := Z.max 0 (Z.min cached (Z.max 0 input)).

Lemma cached_of_range input cached : 0 <= cached_of input cached <= Z.max 0 input.
Proof. unfold cached_of. lia. Qed.

Lemma EstimateCost_price model input cached output context :
  input <= max_int64 ->
  EstimateCost model input cached output context
  = (fun p => mkResult (CanonicalModel p)
       (i64 (price_of (rates p (context_of context input)) (Z.max 0 input - cached_of input cached)
          (cached_of input cached) (Z.max 0 output)))) <$> resolveOfficialTokenPrice model.
Proof.
  intros Hi. unfold EstimateCost. destruct (resolveOfficialTokenPrice model) as [p|]; [|done].
  cbn [fmap option_fmap option_map]. fold (context_of context input).
  destruct (rates p _) as [[ip cp] op]. cbv zeta. fold (cached_of input cached).
  pose proof (cached_of_range input cached).
  rewrite (i64_small (Z.max 0 input - _)) by (unfold in_i64, min_int64, max_int64 in *; lia).
  unfold price_of. rewrite (Z.max_r 0 (Z.max 0 input - _)) by lia.
  by rewrite i64_add_l, i64_add_r, i64_add_inner.
Qed.

(** The counts for which the price cannot overflow. *)
Definition countable (input output : Z) : Prop := Z.max 0 input + Z.max 0 output <= 50000000000000.

Lemma price_exact p context input cached output :
  fair p -> countable input output ->
  let cost := price_of (rates p context) (Z.max 0 input - cached_of input cached)
                (cached_of input cached) (Z.max 0 output) in
  0 <= cost /\ in_i64 cost.
Proof.
  intros Hp Hc. pose proof (rates_fair p context Hp) as Hr. pose proof (cached_of_range input cached).
  unfold price_of, countable, in_i64, min_int64, max_int64 in *. destruct (rates p context) as [[ip cp] op]. nia.
Qed.

Lemma price_mono p c1 c2 i1 i2 k1 k2 o1 o2 :
  fair p -> c1 <= c2 -> Z.max 0 i1 <= Z.max 0 i2 -> k2 <= k1 -> Z.max 0 o1 <= Z.max 0 o2 ->
  price_of (rates p c1) (Z.max 0 i1 - cached_of i1 k1) (cached_of i1 k1) (Z.max 0 o1)
  <= price_of (rates p c2) (Z.max 0 i2 - cached_of i2 k2) (cached_of i2 k2) (Z.max 0 o2).
Proof.
  intros Hp Hc Hi Hk Ho. pose proof (rates_fair p c1 Hp) as Hr1. pose proof (rates_fair p c2 Hp) as Hr2.
  pose proof (rates_mono p c1 c2 Hp Hc) as Hm. unfold price_of.
  destruct (rates p c1) as [[ip cp] op]. destruct (rates p c2) as [[ip' cp'] op'].
  assert (Hout : Z.max 0 o1 * op <= Z.max 0 o2 * op') by nia.
  enough ((Z.max 0 i1 - cached_of i1 k1) * ip + cached_of i1 k1 * cp
          <= (Z.max 0 i2 - cached_of i2 k2) * ip' + cached_of i2 k2 * cp') by lia.
  pose proof (cached_of_range i1 k1). pose proof (cached_of_range i2 k2).
  assert (cached_of i2 k2 <= cached_of i1 k1 \/ cached_of i1 k1 = Z.max 0 i1) as [Hle|Heq]
    by (unfold cached_of in *; lia); nia.
Qed.

(** ** Reconstruction *)

Definition total (f : Component -> Z) (l : list Component) : Z := foldr (fun c n => f c + n) 0 l.
Definition priced_at (c : Component) : Z := Quantity c * UnitPriceInUSDTicks c.

Lemma total_snoc f l c : total f (l ++ [c]) = total f l + f c.
Proof. unfold total. induction l; cbn in *; lia. Qed.

(** A breakdown of [quantity] units whose lines add up to [cost]. *)
Record explains (b : Breakdown) (cost quantity : Z) : Prop := {
  ex_cost : b_CostInUSDTicks b = i64 cost;
  ex_lines : total priced_at (Components b) = cost;
  ex_quantity : total Quantity (Components b) = quantity;
  ex_positive : Forall (fun c => 0 < Quantity c /\ 0 < UnitPriceInUSDTicks c
                               /\ c_CostInUSDTicks c = i64 (priced_at c)) (Components b)
}.

Lemma add_explains kind unit quantity price b cost units :
  explains b cost units -> 0 <= quantity -> 0 < price ->
  explains (add kind unit quantity price b) (cost + quantity * price) (units + quantity).
Proof.
  intros [Hc Hl Hq Hp] Hn Hprice. unfold add. rewrite (proj2 (Z.leb_gt price 0) Hprice), orb_false_r.
  destruct (quantity <=? 0) eqn:E; to_prop.
  - assert (quantity = 0) as -> by lia. rewrite Z.mul_0_l, !Z.add_0_r. by split.
  - split; cbn [b_CostInUSDTicks Components].
    + by rewrite Hc, i64_add_r, i64_add_l.
    + by rewrite total_snoc, Hl.
    + by rewrite total_snoc, Hq.
    + apply Forall_app. split; [done|]. repeat constructor; cbn; lia.
Qed.

Lemma i64_idemp a : i64 (i64 a) = i64 a.
Proof. apply i64_small, i64_range. Qed.

(** the reconstruction of a stored row agrees with the estimator that priced
    it: for any token counts, negative ones included, its total is the price
    charged (in 64 bit arithmetic), its lines add up to that total, each line
    has a positive quantity, together they count exactly the input and output
    tokens, and the row is reported as priced when the price is positive. *)
Theorem breakdown_explains_cost model q r :
  in_i64 (InputTokens q) ->
  EstimateCost model (InputTokens q) (CachedTokens q) (OutputTokens q) (ContextTokens q) = Some r ->
  exists b cost, ReconstructBreakdown model q = (b, 0 <? CostInUSDTicks r)
    /\ b_CostInUSDTicks b = CostInUSDTicks r
    /\ CostInUSDTicks r = i64 cost
    /\ explains b cost (Z.max 0 (InputTokens q) + Z.max 0 (OutputTokens q)).
Proof.
  intros Hi. rewrite EstimateCost_price by apply Hi. unfold ReconstructBreakdown.
  destruct (resolveOfficialTokenPrice model) as [p|] eqn:E; [|done]. intros [= <-].
  rewrite (normalize_twice _ _ E), E. fold (context_of (ContextTokens q) (InputTokens q)).
  pose proof (rates_fair p (context_of (ContextTokens q) (InputTokens q)) (resolve_fair _ _ E)) as Hr.
  unfold price_of. destruct (rates p _) as [[ip cp] op]. cbv zeta. cbn [CostInUSDTicks].
  set (input := InputTokens q) in *. set (k := cached_of input (CachedTokens q)).
  pose proof (cached_of_range input (CachedTokens q)) as Hk. fold k in Hk.
  replace (Z.max 0 (Z.min (CachedTokens q) input)) with k by (unfold k, cached_of; lia).
  rewrite i64_small by (unfold in_i64, min_int64, max_int64 in *; lia).
  replace (Z.max 0 (input - k)) with (Z.max 0 input - k) by lia.
  set (b0 := mkBreakdown (normalizePricingModel model) 0 []).
  assert (H0 : explains b0 0 0) by (split; [done..|constructor]).
  apply (add_explains ComponentUncachedInput UnitToken (Z.max 0 input - k) ip) in H0; [|lia..].
  apply (add_explains ComponentCachedInput UnitToken k cp) in H0; [|lia..].
  apply (add_explains ComponentOutput UnitToken (Z.max 0 (OutputTokens q)) op) in H0; [|lia..].
  eexists _, _. split_and!; [| |reflexivity|].
  - rewrite (ex_cost _ _ _ H0), !Z.add_0_l. reflexivity.
  - rewrite (ex_cost _ _ _ H0), !Z.add_0_l. reflexivity.
  - rewrite !Z.add_0_l in H0. by replace (Z.max 0 input - k + k) with (Z.max 0 input) in H0 by lia.
Qed.

(** ** Reservation *)

(** How many bytes a decoded value has at least. *)
Fixpoint json_size (v : json) : Z :=
  match v with
  | JNull | JBool _ => 4
  | JNumber s => Z.of_nat (String.length s) + 1
  | JString s => Z.of_nat (String.length s) + 2
  | JArray items => foldr (fun v n => json_size v + 1 + n) 2 items
  | JObject members => foldr (fun m n => Z.of_nat (String.length (fst m)) + 3 + json_size (snd m) + n) 2 members
  end.

Definition members_size (members : list (string * json)) : Z :=
  foldr (fun m n => Z.of_nat (String.length (fst m)) + 3 + json_size (snd m) + n) 2 members.

Lemma length_tokens_range s : 0 <= length_tokens s <= Z.of_nat (String.length s) + 1.
Proof.
  unfold length_tokens. pose proof (Z.div_pos (Z.of_nat (String.length s) + 2) 3 ltac:(lia) ltac:(lia)).
  pose proof (Z.div_le_mono (Z.of_nat (String.length s) + 2) (3 * (Z.of_nat (String.length s) + 1)) 3 ltac:(lia) ltac:(lia)) as H2.
  rewrite Z.mul_comm, Z.div_mul in H2 by lia. lia.
Qed.

(** A value counts at most 256 tokens per byte. *)
Definition counted (v : json) : Prop :=
  0 < json_size v /\ (256 * json_size v <= max_int64 -> 0 <= walk v <= 256 * json_size v).

Lemma fold_counted_array items total bound :
  Forall counted items -> 0 <= total <= bound ->
  let size := foldr (fun v n => json_size v + 1 + n) 2 items in
  2 <= size /\ (bound + 256 * size <= max_int64 ->
  0 <= fold_left (fun total child => i64 (total + i64 (1 + walk child))) items total <= bound + 256 * size).
Proof.
  intros Hall. revert total bound. induction Hall as [|v items [Hv Hw] _ IH]; intros t bound Ht; cbn -[Z.mul].
  { lia. }
  destruct (IH t bound Ht) as [Hs _].
  split; [lia|]. intros Hle. destruct (Hw ltac:(lia)) as [H0 H1].
  rewrite (i64_small (1 + walk v)), (i64_small (t + _)) by (unfold in_i64, min_int64, max_int64 in *; lia).
  destruct (IH (t + (1 + walk v)) (bound + 256 * (json_size v + 1)) ltac:(lia)) as [_ IH2].
  specialize (IH2 ltac:(lia)). lia.
Qed.

Lemma fold_counted_object members total bound :
  Forall (fun m => counted (snd m)) members -> 0 <= total <= bound ->
  2 <= members_size members /\ (bound + 256 * members_size members <= max_int64 ->
  0 <= fold_left (fun total '(key, child) => i64 (i64 (total + i64 (length_tokens key + 1)) + walk child))
         members total <= bound + 256 * members_size members).
Proof.
  intros Hall. revert total bound. unfold members_size.
  induction Hall as [|[key v] members [Hv Hw] _ IH]; intros t bound Ht; cbn -[Z.mul] in *.
  { lia. }
  destruct (IH t bound Ht) as [Hs _]. pose proof (length_tokens_range key) as Hk.
  split; [lia|]. intros Hle. destruct (Hw ltac:(lia)) as [H0 H1].
  rewrite (i64_small (length_tokens key + 1)), (i64_small (t + _)), (i64_small (t + _ + _))
    by (unfold in_i64, min_int64, max_int64 in *; lia).
  destruct (IH (t + (length_tokens key + 1) + walk v)
              (bound + 256 * (Z.of_nat (String.length key) + 3 + json_size v)) ltac:(lia)) as [_ IH2].
  specialize (IH2 ltac:(lia)). lia.
Qed.

Lemma walk_counted v : counted v.
Proof.
  induction v as [|b|s|s|items IH|members IH] using json_nested_ind; unfold counted; cbn -[Z.mul].
  1-3: lia.
  - pose proof (length_tokens_range s). split; [lia|]. intros _. destruct (_ || _); lia.
  - destruct (fold_counted_array items 0 0 IH ltac:(lia)) as [H1 H2]. split; [lia|]. intros H. specialize (H2 H). lia.
  - destruct (fold_counted_object members 0 0 IH ltac:(lia)) as [H1 H2]. fold (members_size members).
    split; [lia|]. intros H. specialize (H2 H). lia.
Qed.

Definition caps_ok (caps : Z * Z * Z) : Prop :=
  let '(a, b, c) := caps in
  0 <= a <= maximumOutputTokens /\ 0 <= b <= maximumOutputTokens /\ 0 <= c <= maximumOutputTokens.

Lemma read_cap_ok priority number caps : caps_ok caps -> caps_ok (read_cap priority number caps).
Proof.
  unfold read_cap. destruct (ParseInt number) as [value|]; [|done]. destruct (0 <? value) eqn:E; [|done]. to_prop.
  assert (0 <= Z.min value maximumOutputTokens <= maximumOutputTokens) by (unfold maximumOutputTokens; lia).
  destruct caps as [[a b] c], priority as [|[|]]; cbn; tauto.
Qed.

Lemma first_cap_range caps : caps_ok caps -> 0 < first_cap caps <= maximumOutputTokens.
Proof.
  destruct caps as [[a b] c]. unfold caps_ok, first_cap, maximumOutputTokens, defaultOutputTokens. zcases.
Qed.

Lemma scan_members_counted members st st' ok bound :
  scan_members members st = (st', ok) ->
  caps_ok (sc_caps st) -> 0 <= sc_total st <= bound ->
  bound + 256 * members_size members <= max_int64 ->
  caps_ok (sc_caps st') /\ 0 <= sc_total st' <= bound + 256 * members_size members.
Proof.
  assert (Hmore : forall l, 2 <= members_size l).
  { intros l. apply (fold_counted_object l 0 0); [|lia]. apply Forall_forall. intros m _. apply walk_counted. }
  assert (H64 : forall n, 0 <= n <= max_int64 -> i64 n = n)
    by (intros; apply i64_small; unfold in_i64, min_int64; lia).
  revert st bound. induction members as [|[key v] members IH]; intros st bound; cbn [scan_members].
  { intros [= <- <-]. specialize (Hmore []). intros. split; [done|lia]. }
  set (size := Z.of_nat (String.length key) + 3 + json_size v).
  replace (members_size ((key, v) :: members)) with (size + members_size members) by reflexivity.
  pose proof (Hmore members) as Hrest. destruct (walk_counted v) as [Hv Hw].
  pose proof (length_tokens_range key) as Hk. intros Hscan Hcaps Ht Hle.
  specialize (Hw ltac:(lia)).
  rewrite (H64 (length_tokens key + 1)), (H64 (sc_total st + (length_tokens key + 1))) in Hscan by lia.
  assert (Hnext : forall m caps n,
    scan_members members (mkScan m caps (i64 (sc_total st + (length_tokens key + 1) + n))) = (st', ok) ->
    caps_ok caps -> 0 <= n <= 256 * (json_size v + 1) ->
    caps_ok (sc_caps st') /\ 0 <= sc_total st' <= bound + 256 * (size + members_size members)).
  { intros m caps n Hs Hc Hn. rewrite H64 in Hs by lia.
    destruct (IH _ (bound + 256 * size) Hs Hc) as [H1 H2]; cbn [sc_total]; [lia..|]. split; [done|lia]. }
  destruct (String.eqb key "model").
  { destruct (decode_string v) as [value|] eqn:Ed.
    - apply (Hnext _ _ _ Hscan Hcaps). pose proof (length_tokens_range value).
      destruct v; try discriminate Ed; injection Ed as <-; cbn [json_size] in *; cbn [String.length] in *; lia.
    - injection Hscan as <- <-. split; [done|lia]. }
  destruct (output_priority key) as [priority|]; [|by apply (Hnext _ _ _ Hscan Hcaps); lia].
  destruct (decode_number v) as [number|]; [|injection Hscan as <- <-; split; [done|lia]].
  apply (Hnext _ _ _ Hscan); [by apply read_cap_ok|lia].
Qed.

(** A body whose decoded form stays below four gigabytes. *)
Definition readable (size : Z) (v : json) : Prop := 0 <= size <= 2^32 /\ json_size v <= 2^32.

Lemma scan_range size v :
  readable size v ->
  let '(_, input, output, _) := scanReservationJSON size v in
  256 <= input <= 2^41 /\ 0 < output <= maximumOutputTokens.
Proof.
  intros [Hsize Hv]. unfold scanReservationJSON.
  assert (Hscan : forall st ok,
    (match v with JObject members => scan_members members (mkScan "" (0, 0, 0) 0)
     | _ => (mkScan "" (0, 0, 0) (walk v), true) end) = (st, ok) ->
    caps_ok (sc_caps st) /\ 0 <= sc_total st <= 256 * json_size v).
  { assert (Hzero : caps_ok (0, 0, 0)) by (cbn; unfold maximumOutputTokens; lia).
    intros st ok. destruct (walk_counted v) as [_ Hw]. specialize (Hw ltac:(unfold max_int64; lia)).
    destruct v as [| | | | |members]; try (intros [= <- _]; by split).
    intros Hs. apply (scan_members_counted _ _ _ _ 0 Hs Hzero); cbn [sc_total]; [lia|].
    change (members_size members) with (json_size (JObject members)). unfold max_int64. lia. }
  destruct (match v with JObject _ => _ | _ => _ end) as [st ok] eqn:E.
  destruct (Hscan st ok eq_refl) as [Hc Ht]. destruct ok.
  - split; [|by apply first_cap_range]. rewrite i64_small by (unfold in_i64, min_int64, max_int64; lia). lia.
  - split; [|unfold maximumOutputTokens, defaultOutputTokens; lia].
    pose proof (Z.div_le_upper_bound (size + 2) 3 (2^32) ltac:(lia) ltac:(lia)). lia.
Qed.

(** A reservation is positive and within what can be counted. *)
Lemma reservation_positive size v reserved :
  readable size v -> EstimateTextReservationFromBody size v = Some reserved -> 0 < CostInUSDTicks reserved.
Proof.
  intros Hread. unfold EstimateTextReservationFromBody. pose proof (scan_range size v Hread) as Hrange.
  destruct (scanReservationJSON size v) as [[[model input] output] ok]. destruct Hrange as [Hin Hout].
  destruct (is_empty _); [done|]. destruct (resolveOfficialTokenPrice model) as [p|] eqn:Ep; [|done].
  unfold maximumOutputTokens in *. rewrite EstimateCost_price, Ep by (unfold max_int64; lia). intros [= <-].
  cbn [CostInUSDTicks]. pose proof (resolve_fair _ _ Ep) as Hf.
  destruct (price_exact p (context_of input input) input 0 output Hf) as [_ Hi64]; [unfold countable; lia|].
  rewrite i64_small by exact Hi64. pose proof (rates_fair p (context_of input input) Hf) as Hr. unfold price_of.
  destruct (rates p _) as [[ip cp] op]. replace (cached_of input 0) with 0 by (unfold cached_of; lia). nia.
Qed.

(** C40: what is reserved before a request covers what it may be charged after:
    the reservation of any readable body for a priced model is a positive amount
    that does not overflow, for at least 256 input tokens and between 1 and
    131072 output tokens; and a request that stays within those counts settles,
    whatever part of its input was cached, at no more than the amount held. *)
Theorem reservation_covers_settlement size v reserved :
  readable size v ->
  EstimateTextReservationFromBody size v = Some reserved ->
  let '(model, input, output, _) := scanReservationJSON size v in
  256 <= input /\ 0 < output <= maximumOutputTokens
  /\ 0 < CostInUSDTicks reserved
  /\ forall used_input cached used_output settled,
       used_input <= input -> used_output <= output ->
       EstimateCost model used_input cached used_output used_input = Some settled ->
       Model settled = Model reserved /\ 0 <= CostInUSDTicks settled <= CostInUSDTicks reserved.
Proof.
  intros Hread Hres. pose proof (reservation_positive size v reserved Hread Hres) as Hpositive. revert Hres.
  unfold EstimateTextReservationFromBody. pose proof (scan_range size v Hread) as Hrange.
  destruct (scanReservationJSON size v) as [[[model input] output] ok]. destruct Hrange as [Hin Hout].
  destruct (is_empty _); [done|]. destruct (resolveOfficialTokenPrice model) as [p|] eqn:Ep; [|done].
  unfold maximumOutputTokens in *.
  rewrite EstimateCost_price, Ep by (unfold max_int64; lia). intros [= <-]. cbn [CostInUSDTicks Model].
  pose proof (resolve_fair _ _ Ep) as Hf.
  destruct (price_exact p (context_of input input) input 0 output Hf) as [Hpos Hi64]; [unfold countable; lia|].
  rewrite i64_small by exact Hi64. split_and!; [lia|lia|lia| |].
  - cbn [CostInUSDTicks] in Hpositive. by rewrite i64_small in Hpositive by exact Hi64.
  - intros ui k uo settled Hui Huo. rewrite EstimateCost_price, Ep by (unfold max_int64; lia).
    intros [= <-]. cbn [CostInUSDTicks Model]. split; [done|].
    assert (Hk : cached_of ui k = cached_of ui (Z.max 0 k)) by (unfold cached_of; lia). rewrite Hk.
    destruct (price_exact p (context_of ui ui) ui (Z.max 0 k) uo Hf) as [H0 H1]; [unfold countable; lia|].
    rewrite i64_small by exact H1. split; [exact H0|].
    apply price_mono; [done|unfold context_of; zcases|lia..].
Qed.

Lemma reservation_covers_settlement_witness :
  let v := JObject [("model", JString "Grok-4.6-high"); ("max_tokens", JNumber "7")] in
  exists reserved settled, EstimateTextReservationFromBody 50 v = Some reserved
    /\ EstimateCost "Grok-4.6-high" 200 50 7 200 = Some settled
    /\ CostInUSDTicks settled <= CostInUSDTicks reserved.
Proof.
  intros v. exists (mkResult "grok-4.6" 5540000), (mkResult "grok-4.6" 3670000).
  assert (Hr : EstimateTextReservationFromBody 50 v = Some (mkResult "grok-4.6" 5540000)) by (vm_compute; reflexivity).
  assert (Hs : EstimateCost "Grok-4.6-high" 200 50 7 200 = Some (mkResult "grok-4.6" 3670000))
    by (vm_compute; reflexivity).
  split; [exact Hr|]. split; [exact Hs|].
  pose proof (reservation_covers_settlement 50 v _ ltac:(unfold readable; cbn; lia) Hr) as H.
  replace (scanReservationJSON 50 v) with ("Grok-4.6-high", 256, 7, true) in H by (vm_compute; reflexivity).
  destruct H as (_ & _ & _ & H). destruct (H 200 50 7 _ ltac:(lia) ltac:(lia) Hs) as [_ Hle]. apply Hle.
Defined.

Lemma breakdown_explains_cost_witness :
  let q := mkQuantities 1000 400 500 0 in
  exists b cost, ReconstructBreakdown "build/grok-4.6" q = (b, true) /\ explains b cost 1500.
Proof.
  intros q.
  destruct (breakdown_explains_cost "build/grok-4.6" q (mkResult "grok-4.6" 44000000))
    as (b & cost & Hb & _ & _ & Hex); [unfold in_i64, min_int64, max_int64; cbn; lia|vm_compute; reflexivity|].
  exists b, cost. split; [exact Hb|exact Hex].
Defined.

(** A member spelt with another case is not the model: such a body is unpriced,
    and no amount is reserved for it. *)
Lemma model_member_is_case_sensitive size :
  EstimateTextReservationFromBody size (JObject [("Model", JString "grok-4.6")]) = None.
Proof. reflexivity. Qed.
