(* ===== verification/KeyBilling.v ===== *)
(** The spending ledger of a client key: billing events
    ([internal/billingledger/event.go]) and the Redis scripts that reserve,
    settle, release and reset a key's usage ([internal/store/redis_scripts.go],
    called by [internal/store/redis_api_keys.go]). *)

From Stdlib Require Import Ascii.
From S2P Require Import Prelude.

(** * Billing events *)

Definition Retention : duration := 7 * (24 * Hour).

Definition EventID (now : instant) (requestID : string) : string :=
  "v2:" +:+ Itoa (Time.Unix now) +:+ ":" +:+ requestID.

(** [strings.Cut]. *)
Fixpoint Cut (c : ascii) (s : string) : option (string * string) :=
  match s with
  | EmptyString => None
  | String d rest =>
      if Ascii.eqb c d then Some (EmptyString, rest)
      else '(before, after) ← Cut c rest; Some (String d before, after)
  end.

(** [strings.SplitN(s, ":", 3)] when it has three parts. *)
Definition split3 (s : string) : option (string * string * string) :=
  '(a, rest) ← Cut ":" s; '(b, c) ← Cut ":" rest; Some (a, b, c).

Definition EventExpiry (event : string) (now : instant) : instant + go_error :=
  match split3 event with
  | Some (version, timestamp, request) =>
      if negb (String.eqb version "v2") || is_empty request
      then inr (Errorf "invalid billing event identity")
      else
        match ParseInt timestamp with
        | None => inr (Errorf "invalid billing event timestamp")
        | Some seconds =>
            let created := Time.FromUnix seconds in
            let expiry := Time.Add created Retention in
            if Time.After created (Time.Add now (5 * Minute)) || negb (Time.After expiry now)
            then inr (Errorf "billing event outside settlement retention window")
            else inl expiry
        end
  | None => inr (Errorf "invalid billing event identity")
  end.

(** * Numbers in a script

    A Lua number is a double.  The numbers of the scripts are integers: their
    arithmetic rounds to 53 bits, [tostring] prints 14 significant digits
    ([%.14g]) and an argument of [redis.call] 17. *)

(** The multiple of [d] nearest to [n], ties to the even one. *)
Definition nearest (d n : Z) : Z :=
  let q := n / d in
  let r := n mod d in
  (if 2 * r <? d then q else if d <? 2 * r then q + 1 else if Z.even q then q else q + 1) * d.

Definition lua_number (n : Z) : Z :=
  if Z.abs n <? 2^53 then n else nearest (2 ^ (Z.log2 (Z.abs n) - 52)) n.

(** What [tostring n] reads back as. *)
Definition printed (n : Z) : Z :=
  if Z.abs n <? 10^14 then n
  else lua_number (nearest (10 ^ (Z.of_nat (String.length (Itoa (Z.abs n))) - 14)) n).

Definition lua_add (a b : Z) : Z := lua_number (a + b).

(** The integer argument a command receives from a Lua number: none when it is
    printed with an exponent. *)
Definition command_integer (n : Z) : option Z :=
  if Z.abs n <? 10^17 then Some n else None.

Lemma lua_number_exact n : Z.abs n < 2^53 -> lua_number n = n.
Proof. intros H. unfold lua_number. by rewrite (proj2 (Z.ltb_lt _ _) H). Qed.

(** Rounding does not carry a sum across a limit that is a double itself. *)
Lemma lua_number_limit limit n : limit < 2^53 -> 0 <= n -> (limit <? lua_number n) = (limit <? n).
Proof.
  intros Hl Hn. destruct (decide (n < 2^53)) as [Hs|Hb]; [by rewrite lua_number_exact by lia|].
  enough (2^53 <= lua_number n) by (rewrite !(proj2 (Z.ltb_lt _ _)); lia).
  unfold lua_number. rewrite Z.abs_eq by done. rewrite (proj2 (Z.ltb_ge n (2^53))) by lia.
  assert (Hlog : 53 <= Z.log2 n) by (apply Z.log2_le_pow2; lia).
  pose proof (Z.log2_spec n ltac:(lia)) as [Hle _]. set (k := Z.log2 n) in *.
  set (d := 2 ^ (k - 52)). assert (Hd : 0 < d) by (apply Z.pow_pos_nonneg; lia).
  assert (Hq : 2^52 <= n / d).
  { apply Z.div_le_lower_bound; [done|]. rewrite Z.mul_comm. unfold d. rewrite <- Z.pow_add_r by lia.
    by replace (52 + (k - 52)) with k by lia. }
  assert (Hd2 : 2 <= d) by (unfold d; change 2 with (2^1) at 1; apply Z.pow_le_mono_r; lia).
  unfold nearest. change (2^53) with (2^52 * 2). zcases; nia.
Qed.

Lemma printed_exact n : Z.abs n < 10^14 -> printed n = n.
Proof. intros H. unfold printed. by rewrite (proj2 (Z.ltb_lt _ _) H). Qed.

(** * The ledger of one key *)

(** A hold: the ticks held and the second it expires; a field of the hash that
    does not read as one is [None]. *)
Abbreviation hold := (option (Z * Z)).

Record ledger := mkLedger {
  l_reservations : gmap string hold;        (* keybilling:res, by event *)
  l_deadline : option Z;                    (* when that hash expires, ms *)
  l_used : option Z;                        (* keybilling:used *)
  l_limit : option Z;                       (* keybilling:limit *)
  l_receipts : gmap string (Z * Z);         (* keybilling:settled:..:receipt, by digest: amount, expiry ms *)
  l_legacy : option (option Z)              (* keybilling:settled, a hash of older versions: its expiry, ms *)
}.

#[export] Instance ledger_eta : Eta ledger := fun l =>
  mkLedger (l_reservations l) (l_deadline l) (l_used l) (l_limit l) (l_receipts l) (l_legacy l).

Definition empty_ledger : ledger := mkLedger ∅ None None None ∅ None.

(** Redis drops the keys whose time has passed, [now] in milliseconds. *)
Definition expire_keys (now : Z) (l : ledger) : ledger :=
  let reservations_gone := match l_deadline l with Some deadline => deadline <? now | None => false end in
  (if reservations_gone then l <| l_reservations := ∅ |> <| l_deadline := None |> else l)
    <| l_receipts := filter (fun r => now <= snd (snd r)) (l_receipts l) |>
    <| l_legacy := match l_legacy l with
                   | Some (Some deadline) => if deadline <? now then None else Some (Some deadline)
                   | legacy => legacy
                   end |>.

(** [HDEL]: a hash without fields is gone, with its expiry. *)
Definition drop_hold (event : string) (l : ledger) : ledger :=
  let reservations := delete event (l_reservations l) in
  l <| l_reservations := reservations |>
    <| l_deadline := if decide (reservations = ∅) then None else l_deadline l |>.

(** A script's reply. *)
Inductive reply := Replied (n : Z) | ScriptError (message : string).

(** [reserveApiKeyBillingScript]: [fields] is the reply of [HGETALL], [now] and
    [expires_at] in seconds. *)
Fixpoint reserve_scan (fields : list (string * hold)) (event : string) (amount now expires_at : Z)
    (live_sum max_expiry : Z) (l : ledger) : reply * ledger :=
  match fields with
  | [] =>
      let limit := lua_number (default 0 (l_limit l)) in
      let used := lua_number (default 0 (l_used l)) in
      if (0 <? limit) && (limit <? lua_add (lua_add used live_sum) amount) then (Replied 0, l)
      else (Replied 1,
            l <| l_reservations := <[event := Some (printed amount, printed expires_at)]> (l_reservations l) |>
              <| l_deadline := Some (max_expiry * 1000 + 60000) |>)
  | (field, raw) :: fields =>
      match raw with
      | Some (held, expiry) =>
          if expiry <=? now then
            reserve_scan fields event amount now expires_at live_sum max_expiry (drop_hold field l)
          else if String.eqb field event then
            if held =? amount then (Replied 1, l)
            else (ScriptError "billing reservation exists with a different amount", l)
          else reserve_scan fields event amount now expires_at (lua_add live_sum held) (Z.max max_expiry expiry) l
      | None => reserve_scan fields event amount now expires_at live_sum max_expiry (drop_hold field l)
      end
  end.

Definition reserveApiKeyBillingScript (fields : list (string * hold)) (event : string)
    (amount now expires_at : Z) (l : ledger) : reply * ledger :=
  reserve_scan fields event (lua_number amount) now expires_at 0 expires_at l.

Section events.
(** The digest in a receipt's key (SHA-256) and the [%q] verb. *)
Context (digest quoted : string -> string).

(** [settleApiKeyBillingScript]: [now] is the server's clock in milliseconds,
    [exists_] whether the key's row is there. *)
Definition settleApiKeyBillingScript (exists_ : bool) (now : Z) (event : string)
    (amount expiry retention : Z) (l : ledger) : reply * ledger :=
  if negb exists_ then (ScriptError "api key not found", l)
  else if expiry <=? now / 1000 * 1000 then (ScriptError "billing event expired", l)
  else
    match l_receipts l !! digest event with
    | Some (prior, _) => (Replied (if prior =? amount then 0 else -1), l)
    | None =>
        let l := l <| l_receipts := <[digest event := (amount, expiry)]> (l_receipts l) |>
                   <| l_legacy := match l_legacy l with
                                  | Some None => Some (Some (now + retention * 1000))
                                  | legacy => legacy
                                  end |> in
        let l := drop_hold event l in
        match command_integer (lua_number amount) with
        | None => (ScriptError "value is not an integer or out of range", l)
        | Some amount =>
            let used := default 0 (l_used l) + amount in
            if bool_decide (in_i64 used) then (Replied 1, l <| l_used := Some used |>)
            else (ScriptError "increment or decrement would overflow", l)
        end
    end.

Definition releaseApiKeyBillingScript (event : string) (l : ledger) : reply * ledger :=
  (Replied (if decide (is_Some (l_reservations l !! event)) then 1 else 0), drop_hold event l).

Definition resetApiKeyBillingScript (l : ledger) : reply * ledger :=
  (Replied 1, l <| l_reservations := ∅ |> <| l_deadline := None |> <| l_used := Some 0 |> <| l_legacy := None |>).

(** * The store's operations *)

(** What becomes of a command: it runs and its reply arrives, or the client gets
    an error although the command ran, or it never ran. *)
Inductive network := Delivered | ReplyLost (err : go_error) | NotSent (err : go_error).

Definition run_script {S : Type} (net : network) (script : S -> reply * S) (s : S) : (Z + go_error) * S :=
  match net with
  | Delivered =>
      match script s with
      | (Replied n, s) => (inl n, s)
      | (ScriptError message, s) => (inr (Errorf message), s)
      end
  | ReplyLost err => (inr err, snd (script s))
  | NotSent err => (inr err, s)
  end.

(** [ReserveApiKeyBilling]; [server] is the server's clock in milliseconds. *)
Definition ReserveApiKeyBilling (net : network) (fields : list (string * hold)) (now : instant) (server id : Z)
    (event : string) (amount : Z) (expiresAt : instant) (l : ledger) : (bool + go_error) * ledger :=
  if (id =? 0) || is_empty (TrimSpace event) then (inr ErrNoRows, l)
  else if amount <=? 0 then (inr (Errorf "billing reservation amount must be positive"), l)
  else if Time.IsZero expiresAt then (inr (Errorf "billing reservation expiry is required"), l)
  else
    let '(reply, l) :=
      run_script net (reserveApiKeyBillingScript fields event amount (Time.Unix now) (Time.Unix expiresAt))
        (expire_keys server l) in
    (match reply with inl reserved => inl (reserved =? 1) | inr err => inr err end, l).

(** [SettleApiKeyBilling]: its error, if any. *)
Definition SettleApiKeyBilling (net : network) (exists_ : bool) (now : instant) (server id : Z)
    (event : string) (amount : Z) (l : ledger) : option go_error * ledger :=
  if (id =? 0) || is_empty (TrimSpace event) then (Some ErrNoRows, l)
  else if amount <? 0 then (Some (Errorf "billing settlement amount must not be negative"), l)
  else
    match EventExpiry event now with
    | inr err => (Some err, l)
    | inl expiry =>
        let '(reply, l) :=
          run_script net
            (settleApiKeyBillingScript exists_ server event amount (Time.UnixMilli expiry) (Retention / Second))
            (expire_keys server l) in
        (match reply with
         | inl result =>
           if result <? 0 then
             Some (Errorf ("billing event " +:+ quoted event +:+ " was already settled with a different amount"))
           else None
         | inr err => Some err
         end, l)
    end.

(** [ReleaseApiKeyBilling]: whether a hold was dropped. *)
Definition ReleaseApiKeyBilling (net : network) (server id : Z) (event : string) (l : ledger)
    : (bool + go_error) * ledger :=
  if (id =? 0) || is_empty (TrimSpace event) then (inr ErrNoRows, l)
  else
    let '(reply, l) := run_script net (releaseApiKeyBillingScript event) (expire_keys server l) in
    (match reply with inl released => inl (released =? 1) | inr err => inr err end, l).

(** [ResetApiKeyBilling]: its error, if any. *)
Definition ResetApiKeyBilling (net : network) (server id : Z) (l : ledger) : option go_error * ledger :=
  if id =? 0 then (Some ErrNoRows, l)
  else
    let '(reply, l) := run_script net resetApiKeyBillingScript (expire_keys server l) in
    (match reply with inl _ => None | inr err => Some err end, l).
End events.

(** * Properties *)

(** ** Events *)

Lemma Cut_app c s t : has_byte c s = false -> Cut c (s +:+ String c t) = Some (s, t).
Proof.
  induction s as [|d s IH]; intros H.
  - change ("" +:+ String c t) with (String c t). cbn [Cut]. by rewrite Ascii.eqb_refl.
  - rewrite has_byte_cons in H. apply orb_false_iff in H as [H1 H2].
    rewrite sapp_cons. cbn [Cut]. by rewrite H1, IH.
Qed.

Lemma pretty_go_no_colon x s : has_byte ":" s = false -> has_byte ":" (pretty_N_go x s) = false.
Proof.
  revert s. induction (N.lt_wf_0 x) as [x _ IH]. intros s Hs.
  destruct (decide (0 < x)%N) as [Hx|Hx].
  - rewrite pretty_N_go_step by done. apply IH; [by apply N.div_lt; lia|].
    assert (Hd : (x mod 10 < 10)%N) by (apply N.mod_lt; lia). revert Hd. generalize (x mod 10)%N.
    intros d Hd. rewrite has_byte_cons, Hs, orb_false_r. digit_cases d.
  - assert (x = 0)%N as -> by lia. by rewrite pretty_N_go_0.
Qed.

Lemma Itoa_no_colon n : has_byte ":" (Itoa n) = false.
Proof.
  assert (H : forall x : N, has_byte ":" (pretty x) = false).
  { intros x. unfold pretty, pretty_N. case_decide; [done|]. by apply pretty_go_no_colon. }
  unfold Itoa. destruct n as [|p|p]; [done|apply H|]. change (pretty (Z.neg p)) with (String "-" (pretty (N.pos p))).
  by rewrite has_byte_cons, H.
Qed.

Lemma split3_EventID now requestID :
  split3 (EventID now requestID) = Some ("v2", Itoa (Time.Unix now), requestID).
Proof.
  unfold split3, EventID. change ("v2:" +:+ ?x) with ("v2" +:+ String ":" x). rewrite Cut_app by done. cbn [mbind option_bind].
  change (":" +:+ requestID) with (String ":" requestID). by rewrite Cut_app by apply Itoa_no_colon.
Qed.

(** a billing event read back: the event made for a request at some instant
    is settled against an expiry of exactly seven days after the second it was
    made in; it is refused exactly when the request has no identity, when that
    window has closed, or when the event is more than five minutes ahead of the
    clock. *)
Theorem EventExpiry_EventID made now requestID :
  in_i64 (Time.Unix made) -> in_i64 (Time.Unix made + Time.epoch) ->
  let created := (Time.Unix made + Time.epoch) * Second in
  (created <= made < created + Second)
  /\ (EventExpiry (EventID made requestID) now = inl (created + Retention)
      <-> requestID <> "" /\ created <= now + 5 * Minute /\ now < created + Retention)
  /\ forall expiry, EventExpiry (EventID made requestID) now = inl expiry -> expiry = created + Retention.
Proof.
  intros H1 H2 created.
  assert (Hc : Time.FromUnix (Time.Unix made) = created) by (unfold Time.FromUnix; by rewrite i64_small).
  unfold EventExpiry. rewrite split3_EventID, String.eqb_refl. cbn [negb orb].
  rewrite ParseInt_Itoa, Hc by done. cbv zeta. unfold Time.After, Time.Add.
  split; [|split].
  - unfold created, Time.Unix, Second. pose proof (Z.div_mod made 1000000000 ltac:(lia)).
    pose proof (Z.mod_pos_bound made 1000000000 ltac:(lia)). lia.
  - destruct (is_empty requestID) eqn:E.
    { apply is_empty_true in E as ->. split; [done|]. by intros [? _]. }
    apply is_empty_false in E. set (expiry := created + Retention).
    destruct (now + 5 * Minute <? created) eqn:E1; destruct (now <? expiry) eqn:E2; to_prop; cbn [negb orb].
    + split; [done|]. intros (_ & H3 & _). lia.
    + split; [done|]. intros (_ & H3 & _). lia.
    + split; [|done]. intros _. by split_and!.
    + split; [done|]. intros (_ & _ & H4). lia.
  - intros expiry. destruct (is_empty requestID); [done|]. destruct (_ || _); [done|]. by intros [= <-].
Qed.

(** ** Reservation refines its specification *)

(** The ticks a field holds at second [now]. *)
Definition live_hold (now : Z) (raw : hold) : option Z :=
  '(held, expiry) ← raw; if expiry <=? now then None else Some held.

(** What a key's ledger promises: the live holds by event, the settled usage and
    the limit, zero for none. *)
Definition holds_at (now : Z) (l : ledger) : gmap string Z := omap (live_hold now) (l_reservations l).
Definition used_of (l : ledger) : Z := default 0 (l_used l).
Definition limit_of (l : ledger) : Z := default 0 (l_limit l).
Definition sum_holds (m : gmap string Z) : Z := map_fold (fun _ n total => n + total) 0 m.

(** The specification of a reservation on that view: the reply and the holds
    after it. *)
Definition reserve_spec (event : string) (amount : Z) (holds : gmap string Z) (used limit : Z)
    : reply * gmap string Z :=
  match holds !! event with
  | Some held =>
      (if held =? amount then Replied 1
       else ScriptError "billing reservation exists with a different amount", holds)
  | None =>
      if (0 <? limit) && (limit <? used + sum_holds holds + amount) then (Replied 0, holds)
      else (Replied 1, <[event := amount]> holds)
  end.

Lemma sum_holds_insert m event n : m !! event = None -> sum_holds (<[event := n]> m) = n + sum_holds m.
Proof. intros H. unfold sum_holds. rewrite map_fold_insert_L; [done|lia|done]. Qed.

Lemma sum_holds_delete m event n : m !! event = Some n -> sum_holds m = n + sum_holds (delete event m).
Proof. intros H. unfold sum_holds. by rewrite (map_fold_delete_L _ _ event n m); [|lia|]. Qed.

Lemma drop_hold_others event l :
  l_used (drop_hold event l) = l_used l /\ l_limit (drop_hold event l) = l_limit l
  /\ l_receipts (drop_hold event l) = l_receipts l.
Proof. done. Qed.

Lemma drop_hold_reservations event l :
  l_reservations (drop_hold event l) = delete event (l_reservations l).
Proof. done. Qed.

Lemma drop_dead now event l :
  (l_reservations l !! event ≫= live_hold now) = None -> holds_at now (drop_hold event l) = holds_at now l.
Proof.
  intros H. unfold holds_at. rewrite drop_hold_reservations. apply map_eq. intros k.
  rewrite !lookup_omap. destruct (decide (k = event)) as [->|].
  - rewrite lookup_delete_eq. by rewrite H.
  - by rewrite lookup_delete_ne.
Qed.

Lemma drop_keeps event l k : k <> event -> l_reservations (drop_hold event l) !! k = l_reservations l !! k.
Proof. intros H. by rewrite drop_hold_reservations, lookup_delete_ne. Qed.

(** The fields still to be scanned are fields of the hash, each once. *)
Definition listed (fields : list (string * hold)) (l : ledger) : Prop :=
  NoDup fields.*1 /\ forall k raw, (k, raw) ∈ fields -> l_reservations l !! k = Some raw.

Lemma listed_cons k raw fields l :
  listed ((k, raw) :: fields) l ->
  (k ∉ fields.*1) /\ l_reservations l !! k = Some raw /\ listed fields l /\ listed fields (drop_hold k l).
Proof.
  intros [Hnd Hin]. cbn [fmap list_fmap fst] in Hnd. apply NoDup_cons in Hnd as [Hk Hnd].
  split_and!; [done|by apply Hin; left|by split; [|intros; apply Hin; right]|]. split; [done|].
  intros k' raw' Hk'. rewrite drop_keeps; [by apply Hin; right|].
  intros ->. apply Hk. apply list_elem_of_fmap. by exists (k, raw').
Qed.

Lemma listed_all fields l : fields ≡ₚ map_to_list (l_reservations l) -> listed fields l.
Proof.
  intros Hperm. split; [rewrite Hperm; apply NoDup_fst_map_to_list|].
  intros k raw Hin. rewrite Hperm in Hin. by apply elem_of_map_to_list in Hin.
Qed.

(** The part of the holds that is still to be scanned, and its exactness. *)
Definition remaining (now : Z) (fields : list (string * hold)) : gmap string Z :=
  omap (live_hold now) (list_to_map fields).

Lemma remaining_cons now k raw fields :
  remaining now ((k, raw) :: fields)
  = match live_hold now raw with
    | Some n => <[k := n]> (remaining now fields)
    | None => delete k (remaining now fields)
    end.
Proof.
  unfold remaining. cbn [list_to_map foldr fst snd]. rewrite omap_insert. by destruct (live_hold now raw).
Qed.

Lemma remaining_fresh now k fields : k ∉ fields.*1 -> remaining now fields !! k = None.
Proof. intros H. unfold remaining. rewrite lookup_omap. by rewrite not_elem_of_list_to_map_1. Qed.

Definition nonnegative (m : gmap string Z) : Prop := map_Forall (fun _ n => 0 <= n) m.

Lemma sum_holds_nonneg m : nonnegative m -> 0 <= sum_holds m.
Proof.
  unfold nonnegative. induction m as [|k n m Hk IH] using map_ind; intros H; [done|].
  rewrite sum_holds_insert by done. apply map_Forall_insert in H as [H1 H2]; [|done]. specialize (IH H2). lia.
Qed.

Lemma sum_holds_submap m m' : nonnegative m -> m' ⊆ m -> sum_holds m' <= sum_holds m.
Proof.
  revert m. induction m' as [|k n m' Hk IH] using map_ind; intros m Hnn Hsub.
  { by apply sum_holds_nonneg. }
  assert (Hm : m !! k = Some n) by (apply (lookup_weaken (<[k := n]> m')); [apply lookup_insert_eq|done]).
  rewrite sum_holds_insert, (sum_holds_delete m k n) by done.
  enough (sum_holds m' <= sum_holds (delete k m)) by lia. apply IH.
  - by apply map_Forall_delete.
  - apply map_subseteq_spec. intros k' n' Hk'. assert (k' <> k) by (intros ->; by rewrite Hk in Hk').
    rewrite lookup_delete_ne by done. apply (lookup_weaken (<[k := n]> m')); [by rewrite lookup_insert_ne|done].
Qed.

Section scan.
Context (event : string) (amount now expires_at : Z).
Hypothesis Hexpires : 0 <= now < expires_at.
Hypothesis Hsecond : expires_at < 10^14.
Hypothesis Hamount : 0 < amount < 10^14.

(** What the scan answers from [l], whose holds at [now] are those already
    summed and those of [fields]. *)
Definition scan_result (live : Z) (rest : gmap string Z) (l : ledger) (r : reply * ledger) : Prop :=
  l_used (snd r) = l_used l /\ l_limit (snd r) = l_limit l /\ l_receipts (snd r) = l_receipts l
  /\ match rest !! event with
     | Some held =>
         fst r = (if held =? amount then Replied 1
                  else ScriptError "billing reservation exists with a different amount")
         /\ holds_at now (snd r) = holds_at now l
     | None =>
         if (0 <? limit_of l) && (limit_of l <? used_of l + (live + sum_holds rest) + amount)
         then fst r = Replied 0 /\ holds_at now (snd r) = holds_at now l
         else fst r = Replied 1 /\ holds_at now (snd r) = <[event := amount]> (holds_at now l)
     end.

Lemma reserve_scan_refines fields : forall live max_expiry l,
  listed fields l ->
  nonnegative (remaining now fields) ->
  0 <= limit_of l < 2^53 -> 0 <= used_of l -> 0 <= live ->
  used_of l + (live + sum_holds (remaining now fields)) < 2^53 ->
  scan_result live (remaining now fields) l
    (reserve_scan fields event amount now expires_at live max_expiry l).
Proof.
  induction fields as [|[k raw] fields IH]; intros live max l Hl Hnn Hlim Hused Hlive Hsum.
  - change (remaining now []) with (∅ : gmap string Z) in *. cbn [reserve_scan].
    replace (sum_holds ∅) with 0 in * by done.
    unfold lua_add. fold (limit_of l) (used_of l).
    rewrite (lua_number_exact (limit_of l)), (lua_number_exact (used_of l)),
      (lua_number_exact (used_of l + live)), lua_number_limit by lia.
    unfold scan_result. rewrite lookup_empty, Z.add_0_r.
    destruct (_ && _); [by split_and!|]. split_and!; [done..|].
    rewrite !printed_exact by lia.
    apply (omap_insert_Some (live_hold now) (l_reservations l) event (Some (amount, expires_at)) amount).
    cbn. by rewrite (proj2 (Z.leb_gt _ _)) by lia.
  - apply listed_cons in Hl as (Hk & Hraw & Hrest & Hrest'). cbn [reserve_scan]. rewrite remaining_cons in *.
    pose proof (remaining_fresh now k fields Hk) as Hfresh.
    assert (Hdead : live_hold now raw = None ->
      scan_result live (remaining now fields) l
        (reserve_scan fields event amount now expires_at live max (drop_hold k l))).
    { intros Hd. rewrite Hd, delete_id in Hsum, Hnn by done.
      assert (Hd' : holds_at now (drop_hold k l) = holds_at now l) by (apply drop_dead; by rewrite Hraw).
      destruct (IH live max (drop_hold k l) Hrest') as (H1 & H2 & H3 & H4); try done.
      split_and!; [done..|]. by rewrite Hd' in H4. }
    destruct raw as [[held expiry]|]; [|by rewrite (delete_id _ _ Hfresh); apply Hdead].
    cbn [live_hold mbind option_bind] in *. destruct (expiry <=? now); [by rewrite (delete_id _ _ Hfresh); apply Hdead|].
    destruct (String.eqb k event) eqn:Ee.
    + apply String.eqb_eq in Ee as ->. unfold scan_result. rewrite lookup_insert_eq.
      by destruct (held =? amount); split_and!.
    + apply String.eqb_neq in Ee. rewrite sum_holds_insert in Hsum by done.
      apply map_Forall_insert in Hnn as [Hheld Hnn]; [|done]. pose proof (sum_holds_nonneg _ Hnn).
      unfold lua_add. rewrite lua_number_exact by lia.
      destruct (IH (live + held) (Z.max max expiry) l Hrest) as (H1 & H2 & H3 & H4); try done; [lia|lia|].
      split_and!; [done..|]. rewrite lookup_insert_ne by done. rewrite sum_holds_insert by done.
      by rewrite (Z.add_assoc live held).
Qed.
End scan.

(** The numbers of a reservation are within what a script represents exactly. *)
Record representable (amount now expires_at : Z) (l : ledger) : Prop := {
  rp_amount : 0 < amount < 10^14;
  rp_seconds : 0 <= now < expires_at;
  rp_expiry : expires_at < 10^14;
  rp_holds : nonnegative (holds_at now l);
  rp_limit : 0 <= limit_of l < 2^53;
  rp_used : 0 <= used_of l;
  rp_total : used_of l + sum_holds (holds_at now l) < 2^53
}.

(** The script against its specification. *)
Lemma reserve_refines fields event amount now expires_at l :
  fields ≡ₚ map_to_list (l_reservations l) ->
  representable amount now expires_at l ->
  let r := reserveApiKeyBillingScript fields event amount now expires_at l in
  (fst r, holds_at now (snd r)) = reserve_spec event amount (holds_at now l) (used_of l) (limit_of l)
  /\ used_of (snd r) = used_of l /\ limit_of (snd r) = limit_of l /\ l_receipts (snd r) = l_receipts l
  /\ (fst r = Replied 1 -> holds_at now l !! event = None -> 0 < limit_of l ->
      holds_at now (snd r) !! event = Some amount
      /\ used_of (snd r) + sum_holds (holds_at now (snd r)) <= limit_of l).
Proof.
  intros Hperm [Ha Hs He Hnn Hlim Hu Ht] r.
  pose proof (listed_all fields l Hperm) as Hlisted.
  assert (Hrem : remaining now fields = holds_at now l).
  { unfold remaining, holds_at. f_equal. rewrite <- (list_to_map_to_list (l_reservations l)).
    apply list_to_map_proper; [apply Hlisted|done]. }
  assert (H : scan_result event amount now 0 (holds_at now l) l r).
  { unfold r, reserveApiKeyBillingScript. rewrite lua_number_exact by lia. rewrite <- Hrem in *.
    apply reserve_scan_refines; [done..|lia|lia]. }
  destruct H as (H1 & H2 & H3 & H4). unfold used_of, limit_of. rewrite H1, H2. fold (used_of l) (limit_of l).
  rewrite Z.add_0_l in H4. unfold reserve_spec. destruct (holds_at now l !! event) as [held|] eqn:Ee.
  - destruct H4 as [-> ->]. by split_and!.
  - destruct (0 <? limit_of l) eqn:El; destruct (limit_of l <? used_of l + sum_holds (holds_at now l) + amount) eqn:Et;
      cbn [andb] in H4; destruct H4 as [-> ->]; to_prop; (split_and!; [done..|]); intros Hr _ Hpos; try done; [|lia..].
    rewrite lookup_insert_eq, sum_holds_insert by done. split; [done|lia].
Qed.

(** ** Pruning *)

(** The fields left when those named have been looked at: of them only live holds. *)
Definition prune (now : Z) (seen : list string) (m : gmap string hold) : gmap string hold :=
  filter (fun kv => kv.1 ∈ seen -> is_Some (live_hold now kv.2)) m.

Lemma prune_none now m : prune now [] m = m.
Proof. apply map_filter_id. intros k raw _ H. exfalso. by apply not_elem_of_nil in H. Qed.

Lemma prune_lookup now seen m k :
  prune now seen m !! k = raw ← m !! k; if decide (k ∈ seen -> is_Some (live_hold now raw)) then Some raw else None.
Proof.
  unfold prune. rewrite map_lookup_filter. destruct (m !! k) as [raw|]; [|done]. cbn [mbind option_bind].
  apply option_guard_decide.
Qed.

Lemma prune_dead now k raw seen m :
  m !! k = Some raw -> live_hold now raw = None -> prune now seen (delete k m) = prune now (k :: seen) m.
Proof.
  intros Hk Hd. apply map_eq. intros x. rewrite !prune_lookup. destruct (decide (x = k)) as [->|Hx].
  - rewrite lookup_delete_eq, Hk. cbn [mbind option_bind]. case_decide as H; [|done]. rewrite Hd in H. destruct H as [? H]; [by left|done].
  - rewrite lookup_delete_ne by done. destruct (m !! x) as [r|]; [|done]. cbn [mbind option_bind]. apply decide_ext.
    rewrite elem_of_cons. tauto.
Qed.

Lemma prune_live now k raw seen m :
  m !! k = Some raw -> is_Some (live_hold now raw) -> prune now seen m = prune now (k :: seen) m.
Proof.
  intros Hk Hd. apply map_eq. intros x. rewrite !prune_lookup. destruct (m !! x) as [r|] eqn:Ex; [|done]. cbn [mbind option_bind].
  apply decide_ext. rewrite elem_of_cons. split; [|tauto]. intros H [->|Hin]; [|by apply H]. rewrite Hk in Ex. by injection Ex as <-.
Qed.

(** What is left of the hash when the scan has run, and how long it stays. *)
Definition scan_prunes (event : string) (amount now expires_at max_expiry : Z) (fields : list (string * hold)) (l : ledger) (r : reply * ledger) : Prop :=
  match remaining now fields !! event with
  | Some _ =>
      exists before raw after, fields = before ++ (event, raw) :: after /\
        l_reservations (snd r) = prune now before.*1 (l_reservations l)
  | None =>
      fst r = Replied 0 /\ l_reservations (snd r) = prune now fields.*1 (l_reservations l) \/
      fst r = Replied 1 /\
        l_reservations (snd r) = <[event := Some (amount, expires_at)]> (prune now fields.*1 (l_reservations l)) /\
        exists last, l_deadline (snd r) = Some (last * 1000 + 60000) /\ max_expiry <= last /\
          forall k held expiry, (k, Some (held, expiry)) ∈ fields -> now < expiry -> expiry <= last
  end.

Lemma reserve_scan_prunes event amount now expires_at fields : forall live max_expiry l,
  Z.abs amount < 10^14 -> Z.abs expires_at < 10^14 -> listed fields l ->
  scan_prunes event amount now expires_at max_expiry fields l
    (reserve_scan fields event amount now expires_at live max_expiry l).
Proof.
  intros live max_expiry l Ha He. revert live max_expiry l.
  induction fields as [|[k raw] fields IH]; intros live max l Hl; unfold scan_prunes.
  - change (remaining now [] !! event) with (@None Z). cbn [reserve_scan fmap list_fmap].
    rewrite prune_none, !printed_exact by done. destruct (_ && _); [by left|right]. split_and!; [done..|].
    exists max. split_and!; [done|lia|]. by intros ? ? ? ?%not_elem_of_nil.
  - apply listed_cons in Hl as (Hk & Hraw & Hrest & Hrest'). cbn [reserve_scan]. rewrite remaining_cons.
    pose proof (remaining_fresh now k fields Hk) as Hfresh.
    assert (Hdead : live_hold now raw = None ->
      scan_prunes event amount now expires_at max ((k, raw) :: fields) l
        (reserve_scan fields event amount now expires_at live max (drop_hold k l))).
    { intros Hd. specialize (IH live max (drop_hold k l) Hrest'). unfold scan_prunes in *.
      rewrite remaining_cons, Hd, (delete_id _ _ Hfresh). rewrite drop_hold_reservations in IH.
      destruct (remaining now fields !! event).
      - destruct IH as (before & raw' & after & -> & ->). exists ((k, raw) :: before), raw', after. split; [done|].
        cbn [fmap list_fmap fst]. by apply (prune_dead now k raw).
      - cbn [fmap list_fmap fst]. rewrite <- (prune_dead now k raw) by done. destruct IH as [?|(? & ? & last & ? & ? & Hlast)]; [by left|right].
        split_and!; [done..|]. exists last. split_and!; [done..|]. intros k' held expiry [[= -> <-]|Hin]%elem_of_cons Hexp; [|by eapply Hlast].
        exfalso. cbn in Hd. by rewrite (proj2 (Z.leb_gt _ _)) in Hd by done. }
    unfold scan_prunes in Hdead. rewrite remaining_cons in Hdead.
    destruct raw as [[held expiry]|]; [|by apply Hdead].
    destruct (expiry <=? now) eqn:Ex; [by apply Hdead; cbn; rewrite Ex|]. clear Hdead.
    assert (live_hold now (Some (held, expiry)) = Some held) as Elive by (cbn; by rewrite Ex). rewrite Elive.
    destruct (String.eqb_spec k event) as [->|Hne].
    + rewrite lookup_insert_eq. exists [], (Some (held, expiry)), fields. split; [done|].
      destruct (held =? amount); cbn [snd fmap list_fmap]; by rewrite prune_none.
    + rewrite lookup_insert_ne by done. specialize (IH (lua_add live held) (Z.max max expiry) l Hrest). unfold scan_prunes in IH.
      assert (forall seen, prune now seen (l_reservations l) = prune now (k :: seen) (l_reservations l)) as Ep
        by (intros; apply (prune_live now k (Some (held, expiry))); [done|by rewrite Elive]).
      destruct (remaining now fields !! event).
      * destruct IH as (before & raw' & after & -> & ->). exists ((k, Some (held, expiry)) :: before), raw', after. split; [done|]. apply Ep.
      * cbn [fmap list_fmap fst]. rewrite <- Ep. destruct IH as [?|(? & ? & last & ? & ? & Hlast)]; [by left|right]. split_and!; [done..|].
        exists last. split_and!; [done|lia|]. intros k' held' expiry' [[= -> -> ->]|Hin]%elem_of_cons Hexp; [lia|by eapply Hlast].
Qed.

Lemma prune_all now fields m : fields ≡ₚ map_to_list m -> prune now fields.*1 m = filter (fun kv => is_Some (live_hold now kv.2)) m.
Proof.
  intros Hperm. apply map_filter_ext. intros k raw Hk. cbn. split; [|done]. intros H. apply H.
  apply list_elem_of_fmap. exists (k, raw). split; [done|]. rewrite Hperm. by apply elem_of_map_to_list.
Qed.

(** C21: the reservation script implements its specification whatever the order
    in which Redis lists the holds: it answers and changes the live holds as the
    specification does, and leaves the settled usage, the limit and the receipts
    alone.  So a repeated reservation of the same event changes no live hold, one with
    another amount is an error, and a hold is only added to a limited key while the
    settled usage and all live holds, the new one included, stay within the limit.
    Fields that are expired or no hold are pruned: where the event was not held the
    hash keeps exactly the live holds, with the new one where it was granted, and
    outlives all of them by a minute; where it was held, those listed before it go. *)
Theorem reserve_refines_spec fields event amount now expires_at l :
  fields ≡ₚ map_to_list (l_reservations l) ->
  representable amount now expires_at l ->
  let r := reserveApiKeyBillingScript fields event amount now expires_at l in
  (fst r, holds_at now (snd r)) = reserve_spec event amount (holds_at now l) (used_of l) (limit_of l)
  /\ used_of (snd r) = used_of l /\ limit_of (snd r) = limit_of l /\ l_receipts (snd r) = l_receipts l
  /\ (fst r = Replied 1 -> holds_at now l !! event = None -> 0 < limit_of l ->
      holds_at now (snd r) !! event = Some amount
      /\ used_of (snd r) + sum_holds (holds_at now (snd r)) <= limit_of l)
  /\ (let live := filter (fun kv : string * hold => is_Some (live_hold now kv.2)) (l_reservations l) in
      match holds_at now l !! event with
      | None =>
          fst r = Replied 0 /\ l_reservations (snd r) = live \/
          fst r = Replied 1 /\ l_reservations (snd r) = <[event := Some (amount, expires_at)]> live
            /\ exists last, l_deadline (snd r) = Some (last * 1000 + 60000)
                 /\ forall k held expiry, l_reservations (snd r) !! k = Some (Some (held, expiry)) -> expiry <= last
      | Some _ =>
          exists before raw after, fields = before ++ (event, raw) :: after /\
            l_reservations (snd r) = prune now before.*1 (l_reservations l)
      end).
Proof.
  intros Hperm Hrep r. destruct (reserve_refines fields event amount now expires_at l Hperm Hrep) as (H1 & H2 & H3 & H4 & H5).
  split_and!; try done. destruct Hrep as [Ha Hs He _ _ _ _]. cbv zeta. rewrite <- (prune_all now fields) by done.
  assert (remaining now fields = holds_at now l) as Hrem.
  { unfold remaining, holds_at. f_equal. rewrite <- (list_to_map_to_list (l_reservations l)).
    apply list_to_map_proper; [apply (listed_all fields l Hperm)|done]. }
  pose proof (reserve_scan_prunes event (lua_number amount) now expires_at fields 0 expires_at l) as Hp.
  change (reserve_scan fields event (lua_number amount) now expires_at 0 expires_at l) with r in Hp. clearbody r. unfold scan_prunes in Hp.
  rewrite Hrem, lua_number_exact in Hp by lia. specialize (Hp ltac:(lia) ltac:(lia) (listed_all fields l Hperm)).
  destruct (holds_at now l !! event); [done|]. destruct Hp as [Hp|(Hr & Hp & last & Hd & Hmax & Hlast)]; [by left|right].
  split_and!; [done..|]. exists last. split; [done|].
  intros k held expiry Hk. rewrite Hp in Hk. apply lookup_insert_Some in Hk as [[_ [= <- <-]]|[_ Hk]]; [done|].
  rewrite prune_lookup in Hk. destruct (l_reservations l !! k) as [raw|] eqn:Eraw; [|done]. cbn in Hk. case_decide as Hlive; [|done]. injection Hk as ->.
  assert ((k, Some (held, expiry)) ∈ fields) as Hin by (rewrite Hperm; by apply elem_of_map_to_list).
  apply (Hlast k held expiry Hin). destruct Hlive as [n Hn]; [apply list_elem_of_fmap; by exists (k, Some (held, expiry))|]. cbn in Hn.
  destruct (expiry <=? now) eqn:Ex; [done|]. by apply Z.leb_gt.
Qed.

(** ** Settlement *)

(** The events charged so far with the ticks charged, latest first; zero charges
    are left out. *)
Abbreviation charges := (list (string * Z)).
Definition charges_of (event : string) (log : charges) : list Z :=
  snd <$> filter (fun c => fst c = event /\ snd c <> 0) log.

Section history.
Context (digest quoted : string -> string) {Hdigest : Inj (=) (=) digest}.

(** The instant an event's settlement window closes, if it names one. *)
Definition window_of (event : string) : option instant :=
  '(_, timestamp, _) ← split3 event;
  seconds ← ParseInt timestamp;
  Some (Time.Add (Time.FromUnix seconds) Retention).

Lemma EventExpiry_window event now expiry : EventExpiry event now = inl expiry -> window_of event = Some expiry.
Proof.
  unfold EventExpiry, window_of. destruct (split3 event) as [[[v ts] req]|]; [|done]. cbn [mbind option_bind].
  destruct (_ || _); [done|]. destruct (ParseInt ts) as [s|]; [|done]. cbn [mbind option_bind].
  destruct (_ || _); [done|]. by intros [= <-].
Qed.

(** A window closes on a whole second. *)
Lemma window_second event expiry : window_of event = Some expiry -> (1000 | Time.UnixMilli expiry).
Proof.
  unfold window_of. destruct (split3 event) as [[[v ts] req]|]; [|done]. cbn [mbind option_bind].
  destruct (ParseInt ts) as [s|]; [|done]. cbn [mbind option_bind]. intros [= <-].
  unfold Time.UnixMilli, Time.Add, Time.FromUnix, Time.epoch, Retention, Hour, Second, Millisecond.
  exists (i64 (s + 62135596800) + 604800 - 62135596800).
  replace (i64 (s + 62135596800) * 1000000000 + 7 * (24 * 3600000000000) - 62135596800 * 1000000000)
    with ((i64 (s + 62135596800) + 604800 - 62135596800) * 1000 * 1000000) by lia.
  by rewrite Z.div_mul by lia.
Qed.

Abbreviation settle := (SettleApiKeyBilling digest quoted).

(** Settled usage that neither rounds nor overflows. *)
Definition fits (amount : Z) (l : ledger) : Prop := amount < 2^53 /\ 0 <= used_of l <= max_int64 - amount.

Lemma expire_keys_used t l : used_of (expire_keys t l) = used_of l.
Proof. unfold expire_keys. by destruct (match l_deadline l with Some _ => _ | None => _ end). Qed.

Lemma expire_keys_receipts t l :
  l_receipts (expire_keys t l) = filter (fun r => t <= snd (snd r)) (l_receipts l).
Proof. unfold expire_keys. by destruct (match l_deadline l with Some _ => _ | None => _ end). Qed.

(** A settlement books the event, or leaves usage and receipts alone; it succeeds
    only when the event is booked with its amount. *)
Definition settled (net : network) (event : string) (amount t : Z) (l l' : ledger) (err : option go_error) : Prop :=
  (l_receipts l' = l_receipts (expire_keys t l) /\ used_of l' = used_of l
   /\ l_reservations l' = l_reservations (expire_keys t l)
   /\ (err = None -> exists expiry, l_receipts (expire_keys t l) !! digest event = Some (amount, expiry)))
  \/ (exists expiry, window_of event = Some expiry /\ t / 1000 * 1000 < Time.UnixMilli expiry
      /\ l_receipts (expire_keys t l) !! digest event = None
      /\ l_receipts l' = <[digest event := (amount, Time.UnixMilli expiry)]> (l_receipts (expire_keys t l))
      /\ used_of l' = used_of l + amount
      /\ l_reservations l' = delete event (l_reservations (expire_keys t l))).

Lemma settle_script exists_ t event amount expiry retention l r l' :
  settleApiKeyBillingScript digest exists_ t event amount expiry retention l = (r, l') ->
  0 <= amount -> fits amount l ->
  (l' = l /\ (forall n, r = Replied n -> 0 <= n -> exists x, l_receipts l !! digest event = Some (amount, x)))
  \/ (t / 1000 * 1000 < expiry /\ l_receipts l !! digest event = None
      /\ l_receipts l' = <[digest event := (amount, expiry)]> (l_receipts l)
      /\ used_of l' = used_of l + amount
      /\ l_reservations l' = delete event (l_reservations l)).
Proof.
  intros Hs Ha [Hf Hu]. unfold settleApiKeyBillingScript in Hs.
  destruct (negb exists_); [injection Hs as <- <-; by left|].
  destruct (expiry <=? _) eqn:Ee; [injection Hs as <- <-; by left|]. apply Z.leb_gt in Ee.
  destruct (l_receipts l !! digest event) as [[prior x]|] eqn:Er.
  - injection Hs as <- <-. left. split; [done|]. intros n [= <-] Hn. exists x.
    destruct (prior =? amount) eqn:E; to_prop; [by subst|lia].
  - rewrite lua_number_exact in Hs by lia.
    change (command_integer amount) with (if Z.abs amount <? 10^17 then Some amount else None) in Hs.
    rewrite (proj2 (Z.ltb_lt _ _)) in Hs by lia. cbv zeta in Hs.
    match type of Hs with context [default 0 ?u + amount] => change (default 0 u) with (used_of l) in Hs end.
    rewrite bool_decide_eq_true_2 in Hs by (unfold in_i64, min_int64; lia).
    injection Hs as <- <-. right. by split_and!.
Qed.

Lemma settle_keeps_limit net exists_ now t id event amount l err l' :
  settle net exists_ now t id event amount l = (err, l') -> limit_of l' = limit_of l.
Proof.
  assert (Hexp : limit_of (expire_keys t l) = limit_of l)
    by (unfold expire_keys; by destruct (match l_deadline l with Some _ => _ | None => _ end)).
  assert (Hscript : forall x e r l0, limit_of (snd (settleApiKeyBillingScript digest x t event amount e r l0)) = limit_of l0).
  { intros x e r l0. unfold settleApiKeyBillingScript. destruct (negb x); [done|]. destruct (_ <=? _); [done|].
    destruct (l_receipts l0 !! _) as [[]|]; [done|]. cbv zeta. destruct (command_integer _); [|done]. by case_bool_decide. }
  unfold SettleApiKeyBilling. destruct (_ || _); [by intros [= _ <-]|]. destruct (amount <? 0); [by intros [= _ <-]|].
  destruct (EventExpiry event now) as [x|e]; [|by intros [= _ <-]].
  specialize (Hscript exists_ (Time.UnixMilli x) (Retention / Second) (expire_keys t l)).
  destruct net; unfold run_script; [destruct (settleApiKeyBillingScript _ _ _ _ _ _ _ _) as [[n|m] l1]|..];
    intros [= _ <-]; cbn [snd] in *; congruence.
Qed.

Lemma settle_settled net exists_ now t id event amount l err l' :
  settle net exists_ now t id event amount l = (err, l') -> fits amount l ->
  settled net event amount t l l' err \/ (l' = l /\ err <> None).
Proof.
  intros Hs Hf. unfold SettleApiKeyBilling in Hs.
  destruct (_ || _); [injection Hs as <- <-; by right|].
  destruct (amount <? 0) eqn:Ea; [injection Hs as <- <-; by right|]. apply Z.ltb_ge in Ea.
  destruct (EventExpiry event now) as [expiry|e] eqn:Ee; [|injection Hs as <- <-; by right].
  apply EventExpiry_window in Ee. left.
  assert (Hf' : fits amount (expire_keys t l)) by (unfold fits; by rewrite expire_keys_used).
  set (l0 := expire_keys t l) in *.
  destruct (settleApiKeyBillingScript digest exists_ t event amount (Time.UnixMilli expiry) (Retention / Second) l0)
    as [r l1] eqn:Er.
  pose proof (settle_script _ _ _ _ _ _ _ _ _ Er Ea Hf') as Hcases.
  assert (Hu : used_of l0 = used_of l) by apply expire_keys_used.
  assert (Hdone : forall e, (e = None -> exists n, r = Replied n /\ 0 <= n) -> settled net event amount t l l1 e).
  { intros e He. destruct Hcases as [[-> Hc]|(H1 & H2 & H3 & H4 & H5)].
    - left. split_and!; [done..|]. intros H. destruct (He H) as (n & Hr & Hn). by apply (Hc n).
    - right. exists expiry. split_and!; try done. by rewrite H4, Hu. }
  destruct net as [|e|e]; unfold run_script in Hs; rewrite ?Er in Hs.
  - destruct r as [n|m]; injection Hs as <- <-; apply Hdone; [|done].
    destruct (n <? 0) eqn:En; [done|]. apply Z.ltb_ge in En. intros _. by exists n.
  - injection Hs as <- <-. by apply Hdone.
  - injection Hs as <- <-. left. by split_and!.
Qed.

(** Whatever the processes that share Redis do to one key's ledger, in any order
    and with any replies lost: [t] is the server's clock in milliseconds, the
    clients' clocks are arbitrary. *)
Inductive history : Z -> ledger -> charges -> Prop :=
| h_start l : l_reservations l = ∅ -> l_receipts l = ∅ -> history 0 l []
| h_time t t' l log : history t l log -> t <= t' -> history t' l log
| h_limit t l log limit : history t l log -> history t (l <| l_limit := Some limit |>) log
| h_reserve t l log net fields now id event amount expiresAt reserved l' :
    history t l log ->
    ReserveApiKeyBilling net fields now t id event amount expiresAt l = (reserved, l') ->
    fields ≡ₚ map_to_list (l_reservations (expire_keys t l)) ->
    0 <= Time.Unix expiresAt < 10^14 ->
    history t l' log
| h_settle t l log net exists_ now id event amount err l' :
    history t l log -> fits amount l ->
    settle net exists_ now t id event amount l = (err, l') ->
    history t l' ((event, used_of l' - used_of l) :: log)
| h_release t l log net id event released l' :
    history t l log -> ReleaseApiKeyBilling net t id event l = (released, l') -> history t l' log
| h_reset t l log net id err l' :
    history t l log -> ResetApiKeyBilling net t id l = (err, l') -> history t l' log.

(** What a receipt says of its event, and what its absence says. *)
Definition booked (t : Z) (l : ledger) (log : charges) (event : string) : Prop :=
  match l_receipts l !! digest event with
  | Some (amount, expiry) =>
      charges_of event log = (if amount =? 0 then [] else [amount])
      /\ exists closes, window_of event = Some closes /\ expiry = Time.UnixMilli closes
  | None =>
      charges_of event log = []
      \/ (length (charges_of event log) = 1%nat
          /\ exists closes, window_of event = Some closes /\ Time.UnixMilli closes < t)
  end.

Definition books (t : Z) (l : ledger) (log : charges) : Prop := forall event, booked t l log event.

Lemma booked_receipts t l l' log :
  l_receipts l' = l_receipts l -> books t l log -> books t l' log.
Proof. intros H Hb event. unfold booked. rewrite H. apply Hb. Qed.

Lemma books_time t t' l log : t <= t' -> books t l log -> books t' l log.
Proof.
  intros Ht Hb event. specialize (Hb event). unfold booked in *. destruct (l_receipts l !! digest event) as [[]|]; [done|].
  destruct Hb as [H|(H & c & Hw & Hc)]; [by left|]. right. split; [done|]. exists c. split; [done|lia].
Qed.

Lemma books_expire t l log : books t l log -> books t (expire_keys t l) log.
Proof.
  intros Hb event. specialize (Hb event). unfold booked in *. rewrite expire_keys_receipts.
  destruct (l_receipts l !! digest event) as [[amount expiry]|] eqn:E.
  - destruct (decide (t <= expiry)) as [Ht|Ht].
    + by rewrite (map_lookup_filter_Some_2 _ _ _ (amount, expiry)).
    + rewrite map_lookup_filter_None_2 by (right; intros x; rewrite E; intros [= <-]; cbn; lia).
      destruct Hb as (H & c & Hw & ->). destruct (amount =? 0); [by left|]. right. rewrite H. split; [done|].
      exists c. split; [done|lia].
  - by rewrite map_lookup_filter_None_2 by (by left).
Qed.

Lemma reserve_scan_receipts fields event amount now expires_at live max l :
  l_receipts (snd (reserve_scan fields event amount now expires_at live max l)) = l_receipts l.
Proof.
  revert live max l. induction fields as [|[k raw] fields IH]; intros live max l; cbn [reserve_scan].
  - by destruct (_ && _).
  - destruct raw as [[held expiry]|]; [|by rewrite IH]. destruct (expiry <=? now); [by rewrite IH|].
    destruct (String.eqb k event); [by destruct (held =? amount)|]. by rewrite IH.
Qed.

(** A script that keeps the receipts keeps the books. *)
Lemma books_script t net script l log r l' :
  (forall l, l_receipts (snd (script l)) = l_receipts l) ->
  books t l log -> run_script net script (expire_keys t l) = (r, l') -> books t l' log.
Proof.
  intros Hkeep Hb Hrun. apply (booked_receipts t (expire_keys t l)); [|by apply books_expire].
  specialize (Hkeep (expire_keys t l)). unfold run_script in Hrun.
  destruct net; [destruct (script (expire_keys t l)) as [[n|m] l1]|..]; injection Hrun as <- <-; done.
Qed.

Lemma charges_of_cons event e n log :
  charges_of event ((e, n) :: log)
  = if decide (e = event /\ n <> 0) then n :: charges_of event log else charges_of event log.
Proof.
  unfold charges_of. rewrite filter_cons. cbn [fst snd].
  by destruct (decide (e = event /\ n <> 0)).
Qed.

Lemma books_charge_nothing t l log event : books t l log -> books t l ((event, 0) :: log).
Proof.
  intros Hb e. specialize (Hb e). unfold booked in *. rewrite charges_of_cons.
  rewrite decide_False by (intros [_ H]; done). done.
Qed.

Lemma books_settle t l log event amount err l' net :
  books t l log -> settled net event amount t l l' err -> books t l' ((event, used_of l' - used_of l) :: log).
Proof.
  intros Hb [(Hr & -> & _)|(c & Hw & Hlate & Hnone & Hr & -> & _)].
  - rewrite Z.sub_diag. apply books_charge_nothing, (booked_receipts t (expire_keys t l)); [done|]. by apply books_expire.
  - replace (used_of l + amount - used_of l) with amount by lia.
    pose proof (books_expire t l log Hb) as Hb0. intros e. unfold booked. rewrite Hr, charges_of_cons.
    destruct (decide (e = event)) as [->|Hne].
    + rewrite lookup_insert_eq. specialize (Hb0 event). unfold booked in Hb0. rewrite Hnone in Hb0.
      assert (Hempty : charges_of event log = []).
      { destruct Hb0 as [H|(_ & c' & Hw' & Hc')]; [done|]. exfalso.
        rewrite Hw in Hw'. injection Hw' as <-. pose proof (window_second _ _ Hw) as [k Hk].
        pose proof (Z.div_le_mono (k * 1000) t 1000 ltac:(lia) ltac:(lia)) as Hle. rewrite Z.div_mul in Hle by lia. lia. }
      rewrite Hempty. split; [|by exists c]. destruct (amount =? 0) eqn:E; to_prop.
      * rewrite decide_False; [done|]. by intros [_ H].
      * by rewrite decide_True.
    + rewrite lookup_insert_ne by (intros H; apply Hne; by apply (inj digest)).
      rewrite decide_False by (intros [H _]; by subst). apply (Hb0 e).
Qed.

Lemma history_books t l log : history t l log -> books t l log.
Proof.
  intros H. induction H as [l Hres Hrec|t t' l log _ IH Ht|t l log limit _ IH
    |t l log net fields now id event amount expiresAt res l' _ IH Hrun _ _
    |t l log net ex now id event amount err l' _ IH Hf Hrun|t l log net id event res l' _ IH Hrun
    |t l log net id err l' _ IH Hrun].
  - intros e. unfold booked. rewrite Hrec, lookup_empty. by left.
  - by apply (books_time t).
  - by apply (booked_receipts t l).
  - unfold ReserveApiKeyBilling in Hrun. destruct (_ || _); [by injection Hrun as <- <-|].
    destruct (amount <=? 0); [by injection Hrun as <- <-|]. destruct (Time.IsZero _); [by injection Hrun as <- <-|].
    destruct (run_script _ _ _) as [r l1] eqn:Er. injection Hrun as _ <-. refine (books_script _ _ _ _ _ _ _ _ IH Er).
    intros l0. apply reserve_scan_receipts.
  - destruct (settle_settled _ _ _ _ _ _ _ _ _ _ Hrun Hf) as [Hs|[-> _]].
    + by apply (books_settle t l log event amount err l' net).
    + rewrite Z.sub_diag. by apply books_charge_nothing.
  - unfold ReleaseApiKeyBilling in Hrun. destruct (_ || _); [by injection Hrun as <- <-|].
    destruct (run_script _ _ _) as [r l1] eqn:Er. injection Hrun as _ <-. by refine (books_script _ _ _ _ _ _ _ _ IH Er).
  - unfold ResetApiKeyBilling in Hrun. destruct (_ =? 0); [by injection Hrun as <- <-|].
    destruct (run_script _ _ _) as [r l1] eqn:Er. injection Hrun as _ <-. by refine (books_script _ _ _ _ _ _ _ _ IH Er).
Qed.

Lemma charges_once t l log event : history t l log -> (length (charges_of event log) <= 1)%nat.
Proof.
  intros Hh. pose proof (history_books t l log Hh event) as Hb. unfold booked in Hb.
  destruct (l_receipts l !! digest event) as [[amount x]|].
  - destruct Hb as [-> _]. by destruct (amount =? 0); cbn; lia.
  - destruct Hb as [->|[-> _]]; cbn; lia.
Qed.

(** A successful settlement leaves its event charged with its amount. *)
Lemma success_charged t l log event net exists_ now id amount l' :
  history t l log -> fits amount l ->
  settle net exists_ now t id event amount l = (None, l') ->
  charges_of event ((event, used_of l' - used_of l) :: log) = (if amount =? 0 then [] else [amount]).
Proof.
  intros Hh Hf Hrun. pose proof (history_books t l log Hh) as Hb.
  destruct (settle_settled _ _ _ _ _ _ _ _ _ _ Hrun Hf) as [Hs|[_ H]]; [|done].
  pose proof (books_settle _ _ _ _ _ _ _ net Hb Hs event) as Hb'. unfold booked in Hb'.
  destruct Hs as [(Hr & _ & _ & Hok)|(c & _ & _ & _ & Hr & _)]; rewrite Hr in Hb'.
  - destruct (Hok eq_refl) as [x Hx]. rewrite Hx in Hb'. apply Hb'.
  - rewrite lookup_insert_eq in Hb'. apply Hb'.
Qed.

(** A charge is final: no later history charges the event again. *)
Lemma charged_for_good t l more log event amount :
  history t l (more ++ log) -> charges_of event log = [amount] -> charges_of event (more ++ log) = [amount].
Proof.
  intros Hh Hc. pose proof (charges_once t l (more ++ log) event Hh) as Hl. unfold charges_of in *.
  rewrite filter_app, fmap_app, Hc in *. rewrite length_app in Hl. cbn in Hl.
  destruct (snd <$> filter _ more); [done|]. cbn in Hl. lia.
Qed.

(** C4: each event is charged once: whatever reservations, settlements, releases
    and resets the replicas run against a key's ledger, in any order, with any
    clocks of their own and with replies lost after the server acted, the settled
    usage is raised at most once for an event; and whenever a settlement reports
    success the ledger has charged that event exactly the settled amount, however
    many times it was retried before. *)
Theorem settled_exactly_once t l log event :
  history t l log ->
  (length (charges_of event log) <= 1)%nat
  /\ forall net exists_ now id amount l', fits amount l ->
       settle net exists_ now t id event amount l = (None, l') ->
       charges_of event ((event, used_of l' - used_of l) :: log) = (if amount =? 0 then [] else [amount]).
Proof. intros Hh. split; [by apply (charges_once t l)|]. intros. by apply (success_charged t l log event net exists_ now id). Qed.

(** ** Holds outlive the hash's expiry *)

(** The hash is kept until a minute after the last of its holds. *)
Definition outlives (l : ledger) : Prop :=
  map_Forall (fun _ raw =>
    match raw with
    | Some (_, expiry) => exists deadline, l_deadline l = Some deadline /\ expiry * 1000 + 60000 <= deadline
    | None => True
    end) (l_reservations l).

Lemma drop_hold_outlives event l : outlives l -> outlives (drop_hold event l).
Proof.
  intros H k raw Hk. rewrite drop_hold_reservations in Hk.
  pose proof Hk as Hk'. apply lookup_delete_Some in Hk' as [_ Hk']. specialize (H k raw Hk'). cbn in H |- *.
  destruct raw as [[held expiry]|]; [|done].
  change (l_deadline (drop_hold event l)) with (if decide (delete event (l_reservations l) = ∅) then None else l_deadline l).
  rewrite decide_False; [done|]. intros E. by rewrite E, lookup_empty in Hk.
Qed.

Lemma reserve_scan_outlives fields event amount now expires_at live max l :
  listed fields l -> outlives l -> printed expires_at <= max ->
  (forall k held expiry, l_reservations l !! k = Some (Some (held, expiry)) -> k ∈ fields.*1 \/ expiry <= max) ->
  outlives (snd (reserve_scan fields event amount now expires_at live max l)).
Proof.
  revert live max l. induction fields as [|[k raw] fields IH]; intros live max l Hl Ho Hmax Hseen; cbn [reserve_scan].
  - destruct (_ && _); [exact Ho|]. intros k raw Hk. destruct raw as [[held expiry]|]; [|done].
    exists (max * 1000 + 60000). split; [done|].
    change (<[event := Some (printed amount, printed expires_at)]> (l_reservations l) !! k = Some (Some (held, expiry))) in Hk.
    apply lookup_insert_Some in Hk as [[_ [= _ <-]]|[_ Hk]]; [lia|].
    destruct (Hseen k held expiry Hk) as [Hin|Hle]; [|lia]. by apply not_elem_of_nil in Hin.
  - apply listed_cons in Hl as (Hk & Hraw & Hrest & Hrest').
    assert (Hdrop : outlives (snd (reserve_scan fields event amount now expires_at live max (drop_hold k l)))).
    { apply IH; [done|by apply drop_hold_outlives|done|]. intros k' held expiry Hk'.
      rewrite drop_hold_reservations in Hk'. apply lookup_delete_Some in Hk' as [Hne Hk'].
      destruct (Hseen k' held expiry Hk') as [Hin|Hle]; [|by right].
      cbn in Hin. apply elem_of_cons in Hin as [Heq|Hin]; [by destruct Hne|by left]. }
    destruct raw as [[held expiry]|]; [|exact Hdrop]. destruct (expiry <=? now); [exact Hdrop|].
    destruct (String.eqb k event); [by destruct (held =? amount)|].
    apply IH; [done|done|lia|]. intros k' held' expiry' Hk'.
    destruct (decide (k' = k)) as [->|Hne]; [rewrite Hraw in Hk'; injection Hk' as -> ->; right; lia|].
    destruct (Hseen k' held' expiry' Hk') as [Hin|Hle]; [|right; lia].
    cbn in Hin. apply elem_of_cons in Hin as [Heq|Hin]; [done|by left].
Qed.

Lemma outlives_same l l' :
  l_reservations l' = l_reservations l -> l_deadline l' = l_deadline l -> outlives l -> outlives l'.
Proof. unfold outlives. by intros -> ->. Qed.

Lemma expire_keys_outlives t l : outlives l -> outlives (expire_keys t l).
Proof.
  intros H. unfold expire_keys. destruct (match l_deadline l with Some _ => _ | None => _ end).
  - apply map_Forall_empty.
  - by apply (outlives_same l).
Qed.

Lemma settle_outlives ex now event amount expiry retention l :
  outlives l -> outlives (snd (settleApiKeyBillingScript digest ex now event amount expiry retention l)).
Proof.
  intros H. unfold settleApiKeyBillingScript. destruct (negb ex); [done|]. destruct (_ <=? _); [done|].
  destruct (l_receipts l !! _) as [[]|]; [done|]. cbv zeta.
  match goal with |- context [drop_hold event ?x] => assert (Hd : outlives (drop_hold event x)) end.
  { apply drop_hold_outlives. by apply (outlives_same l). }
  destruct (command_integer _); [|exact Hd]. case_bool_decide; exact Hd.
Qed.

Lemma script_outlives t net script l r l' :
  (outlives (expire_keys t l) -> outlives (snd (script (expire_keys t l)))) ->
  outlives l -> run_script net script (expire_keys t l) = (r, l') -> outlives l'.
Proof.
  intros Hs Ho Hrun. apply (expire_keys_outlives t) in Ho. specialize (Hs Ho). unfold run_script in Hrun.
  destruct net; [destruct (script (expire_keys t l)) as [[n|m] l1]|..]; injection Hrun as <- <-; done.
Qed.

Lemma history_outlives t l log : history t l log -> outlives l.
Proof.
  intros H. induction H as [l Hres Hrec|t t' l log _ IH Ht|t l log limit _ IH
    |t l log net fields now id event amount expiresAt res l' _ IH Hrun Hperm Hexp
    |t l log net ex now id event amount err l' _ IH Hf Hrun|t l log net id event res l' _ IH Hrun
    |t l log net id err l' _ IH Hrun].
  - unfold outlives. rewrite Hres. apply map_Forall_empty.
  - done.
  - by apply (outlives_same l).
  - unfold ReserveApiKeyBilling in Hrun. destruct (_ || _); [by injection Hrun as <- <-|].
    destruct (amount <=? 0); [by injection Hrun as <- <-|]. destruct (Time.IsZero _); [by injection Hrun as <- <-|].
    destruct (run_script _ _ _) as [r l1] eqn:Er. injection Hrun as _ <-. refine (script_outlives _ _ _ _ _ _ _ IH Er).
    intros Ho. apply reserve_scan_outlives; [by apply listed_all|done|rewrite printed_exact by lia; lia|].
    intros k held expiry Hk. left. rewrite Hperm. apply list_elem_of_fmap.
    exists (k, Some (held, expiry)). split; [done|]. by apply elem_of_map_to_list.
  - unfold SettleApiKeyBilling in Hrun. destruct (_ || _); [by injection Hrun as <- <-|].
    destruct (amount <? 0); [by injection Hrun as <- <-|]. destruct (EventExpiry _ _); [|by injection Hrun as <- <-].
    destruct (run_script _ _ _) as [r l1] eqn:Er. injection Hrun as _ <-. refine (script_outlives _ _ _ _ _ _ _ IH Er).
    apply settle_outlives.
  - unfold ReleaseApiKeyBilling in Hrun. destruct (_ || _); [by injection Hrun as <- <-|].
    destruct (run_script _ _ _) as [r l1] eqn:Er. injection Hrun as _ <-. refine (script_outlives _ _ _ _ _ _ _ IH Er).
    apply drop_hold_outlives.
  - unfold ResetApiKeyBilling in Hrun. destruct (_ =? 0); [by injection Hrun as <- <-|].
    destruct (run_script _ _ _) as [r l1] eqn:Er. injection Hrun as _ <-. refine (script_outlives _ _ _ _ _ _ _ IH Er).
    intros _. apply map_Forall_empty.
Qed.

(** Redis never forgets a live hold: after any history, expiring the keys
    whose time has passed leaves the holds that are live at a client's clock as
    they are, so long as that clock is at most one minute behind the server's. *)
Theorem expiry_keeps_live_holds t l log now :
  history t l log -> t <= now * 1000 + 60000 -> holds_at now (expire_keys t l) = holds_at now l.
Proof.
  intros Hh Ht. pose proof (history_outlives t l log Hh) as Ho. unfold expire_keys.
  destruct (l_deadline l) as [deadline|] eqn:Ed; [|done]. destruct (deadline <? t) eqn:E; [|done]. to_prop.
  unfold holds_at. symmetry. apply map_eq. intros k. rewrite lookup_omap.
  change (l_reservations _ !! k) with (l_reservations l !! k) at 1. transitivity (@None Z); [|done].
  destruct (l_reservations l !! k) as [[[held expiry]|]|] eqn:Ek; [|done..].
  destruct (Ho k _ Ek) as (d & Hd & Hle). rewrite Ed in Hd. injection Hd as <-. cbn.
  by rewrite (proj2 (Z.leb_le _ _)) by lia.
Qed.
End history.

(** ** A key's history: a hold, a settlement whose reply is lost, its retry. *)

Section demo.
Abbreviation same := (fun s : string => s).
Definition minute_one : instant := 62135596860 * Second.
Definition demo_event : string := EventID minute_one "req".
Definition limited_ledger : ledger := empty_ledger <| l_limit := Some 1000 |>.
Abbreviation reserved_ledger :=
  (snd (ReserveApiKeyBilling Delivered [] minute_one 60000 7 demo_event 600 (minute_one + Hour) limited_ledger)).
Abbreviation settled_ledger :=
  (snd (SettleApiKeyBilling same same (ReplyLost (Errorf "timeout")) true minute_one 61000 7 demo_event 450
          reserved_ledger)).

Lemma EventExpiry_EventID_witness :
  EventExpiry (EventID (minute_one + 5) "req") (minute_one + Hour) = inl (minute_one + Retention).
Proof.
  destruct (EventExpiry_EventID (minute_one + 5) (minute_one + Hour) "req") as (_ & [_ H] & _).
  - vm_compute. done.
  - vm_compute. done.
  - apply H. split_and!; [done|vm_compute; discriminate|vm_compute; reflexivity].
Defined.

Lemma reserve_refines_spec_witness :
  exists l, reserveApiKeyBillingScript [] "e" 600 60 3660 limited_ledger = (Replied 1, l)
    /\ holds_at 60 l !! "e" = Some 600.
Proof.
  destruct (reserve_refines_spec [] "e" 600 60 3660 limited_ledger) as (H1 & _ & _ & _ & H5 & _).
  - reflexivity.
  - split; vm_compute; intuition discriminate.
  - destruct (reserveApiKeyBillingScript [] "e" 600 60 3660 limited_ledger) as [r l]. cbn [fst snd] in *.
    apply pair_equal_spec in H1 as [-> _]. exists l. split; [reflexivity|].
    apply H5; [reflexivity|vm_compute; reflexivity|reflexivity].
Defined.

Lemma demo_history : exists charge, history same same 62000 settled_ledger [(demo_event, charge)].
Proof.
  eexists. apply (h_time _ _ 61000); [|lia].
  apply (h_settle _ _ 61000 reserved_ledger [] (ReplyLost (Errorf "timeout")) true minute_one 7 demo_event 450
           (Some (Errorf "timeout"))).
  - apply (h_time _ _ 60000); [|lia].
    apply (h_reserve _ _ 60000 limited_ledger [] Delivered [] minute_one 7 demo_event 600 (minute_one + Hour) (inl true)).
    + apply (h_time _ _ 0); [|lia]. by apply h_start.
    + vm_compute. reflexivity.
    + reflexivity.
    + vm_compute. intuition discriminate.
  - split; vm_compute; intuition discriminate.
  - vm_compute. reflexivity.
Qed.

(** The retry after the lost reply succeeds and charges nothing more. *)
Lemma settled_exactly_once_witness :
  exists log l', history same same 62000 settled_ledger log
    /\ SettleApiKeyBilling same same Delivered true minute_one 62000 7 demo_event 450 settled_ledger = (None, l')
    /\ charges_of demo_event ((demo_event, used_of l' - used_of settled_ledger) :: log) = [450].
Proof.
  destruct demo_history as [charge Hh].
  assert (Hs : fst (SettleApiKeyBilling same same Delivered true minute_one 62000 7 demo_event 450 settled_ledger) = None)
    by (vm_compute; reflexivity).
  destruct (SettleApiKeyBilling same same Delivered true minute_one 62000 7 demo_event 450 settled_ledger)
    as [err l'] eqn:E. cbn [fst] in Hs. subst err.
  destruct (settled_exactly_once same same (Hdigest := fun a b H => H) 62000 settled_ledger _ demo_event Hh) as [_ H].
  eexists _, l'. split; [exact Hh|]. split; [reflexivity|].
  refine (H Delivered true minute_one 7 450 l' _ E). split; vm_compute; intuition discriminate.
Defined.

Lemma expiry_keeps_live_holds_witness :
  holds_at 60 (expire_keys 62000 settled_ledger) = holds_at 60 settled_ledger.
Proof.
  destruct demo_history as [charge Hh].
  exact (expiry_keeps_live_holds same same 62000 settled_ledger _ 60 Hh ltac:(lia)).
Defined.
End demo.
