(* ===== verification/BillingLedger.v ===== *)
(** The settlement outbox ([internal/billingledger/outbox.go]): intents are
    written to disk before the store is charged, and replayed after failures and
    restarts. *)

From Stdlib Require Import Ascii.
From S2P Require Import Prelude KeyBilling.

Record entry := mkEntry {
  KeyID : Z;
  e_EventID : string;
  Amount : Z
}.

#[export] Instance entry_eq_dec : EqDecision entry.
Proof. solve_decision. Defined.

(** The process's view of the outbox. *)
Record Ledger := mkOutbox {
  pending : gmap string entry;
  diskErr : option go_error
}.

(** The outbox directory: the files with the entry each decodes to, [None] for a
    text that is not one. *)
Abbreviation directory := (gmap string (option entry)).

(** What the file system does to a write (temporary file, rename, directory
    sync) and to a removal. *)
Inductive disk_write := Persisted | WriteFailed (err : go_error) (renamed : bool).
Inductive disk_remove := Removed | RemoveFailed (err : go_error) | SyncFailed (err : go_error).

Definition max_pending : Z := 10000.

Section outbox.
(** The digest in a file's name: SHA-256 in hexadecimal. *)
Context (hash : string -> string).

Definition name (e : entry) : string := hash (Itoa (KeyID e) +:+ ":" +:+ e_EventID e) +:+ ".json".

Definition valid_entry (file : string) (e : entry) : bool :=
  (0 <? KeyID e) && negb (is_empty (e_EventID e)) && (0 <=? Amount e) && String.eqb (name e) file.

(** [New]: [files] are the directory's entries in the order it lists them. *)
Fixpoint load (files : list (string * option entry)) (pending : gmap string entry) : Ledger + go_error :=
  match files with
  | [] => inl (mkOutbox pending None)
  | (file, content) :: files =>
      if negb (HasSuffix file ".json") then load files pending
      else
        match content with
        | Some e => if valid_entry file e then load files (<[file := e]> pending)
                    else inr (Errorf ("invalid billing outbox entry " +:+ file))
        | None => inr (Errorf ("invalid billing outbox entry " +:+ file))
        end
  end.

Definition New (files : list (string * option entry)) : Ledger + go_error := load files ∅.

Definition settleable (now : instant) (e : entry) : bool :=
  match EventExpiry (e_EventID e) now with inl _ => true | inr _ => false end.

(** [Ready]: its error, if any. *)
Definition Ready (now : instant) (l : Ledger) : option go_error :=
  match diskErr l with
  | Some err => Some (Errorf ("billing outbox unavailable: " +:+ err_text err))
  | None =>
      if max_pending <=? Z.of_nat (size (pending l)) then Some (Errorf "billing outbox is full")
      else if forallb (fun '(_, e) => settleable now e) (map_to_list (pending l)) then None
      else Some (Errorf "expired billing settlement requires reconciliation")
  end.

Definition queue (disk : disk_write) (e : entry) (l : Ledger) (dir : directory)
    : option go_error * Ledger * directory :=
  match pending l !! name e with
  | Some prior =>
      (if decide (prior = e) then None else Some (Errorf "conflicting billing settlement"), l, dir)
  | None =>
      match disk with
      | Persisted => (None, mkOutbox (<[name e := e]> (pending l)) None, <[name e := Some e]> dir)
      | WriteFailed err renamed =>
          (Some err, mkOutbox (pending l) (Some err), if renamed then <[name e := Some e]> dir else dir)
      end
  end.

Definition remove (disk : disk_remove) (e : entry) (l : Ledger) (dir : directory)
    : option go_error * Ledger * directory :=
  match pending l !! name e with
  | None => (None, l, dir)
  | Some _ =>
      match disk with
      | Removed => (None, mkOutbox (delete (name e) (pending l)) (diskErr l), delete (name e) dir)
      | RemoveFailed err => (Some err, l, dir)
      | SyncFailed err => (Some err, l, delete (name e) dir)
      end
  end.

(** [Ledger.SettleApiKeyBilling], run without interruption; [settle] is the
    store's answer for the entry and what it does to the store. *)
Definition SettleApiKeyBilling {S : Type} (settle : entry -> S -> option go_error * S)
    (write : disk_write) (rm : disk_remove) (e : entry) (l : Ledger) (dir : directory) (s : S)
    : option go_error * Ledger * directory * S :=
  let '(err, l, dir) := queue write e l dir in
  match err with
  | Some err => (Some err, l, dir, s)
  | None =>
      let '(err, s) := settle e s in
      match err with
      | Some err => (Some err, l, dir, s)
      | None => let '(err, l, dir) := remove rm e l dir in (err, l, dir, s)
      end
  end.

(** [Replay] of the entries [todo] that were pending when it began; [clock],
    [rm] and [ended] are the clock, the file system and the context's end at the
    i-th entry. *)
Fixpoint replay {S : Type} (settle : nat -> entry -> S -> option go_error * S) (clock : nat -> instant)
    (rm : nat -> disk_remove) (ended : nat -> bool) (i : nat) (todo : list entry)
    (l : Ledger) (dir : directory) (s : S) : Ledger * directory * S :=
  match todo with
  | [] => (l, dir, s)
  | e :: todo =>
      if ended i then (l, dir, s)
      else if negb (settleable (clock i) e) then replay settle clock rm ended (i + 1) todo l dir s
      else
        match settle i e s with
        | (Some _, s) => replay settle clock rm ended (i + 1) todo l dir s
        | (None, s) =>
            let '(_, l, dir) := remove (rm i) e l dir in
            replay settle clock rm ended (i + 1) todo l dir s
        end
  end.

(** * Properties *)

Context {Hhash : Inj (=) (=) hash}.

Lemma string_app_suffix_inj (a b s : string) : a +:+ s = b +:+ s -> a = b.
Proof.
  revert b. induction a as [|c a IH]; intros b H.
  - assert (Hl : String.length (b +:+ s) = String.length s) by (rewrite <- H; done).
    rewrite string_length_app in Hl. destruct b; [done|cbn in Hl; lia].
  - destruct b as [|d b].
    + assert (Hl : String.length (String c a +:+ s) = String.length s) by (rewrite H; done).
      rewrite string_length_app in Hl. cbn in Hl. lia.
    + rewrite !sapp_cons in H. injection H as -> H. f_equal. by apply IH.
Qed.

(** A file's name is the identity of its settlement. *)
Lemma name_inj e e' : name e = name e' -> KeyID e = KeyID e' /\ e_EventID e = e_EventID e'.
Proof.
  unfold name. intros H. apply string_app_suffix_inj, (inj hash) in H.
  change (":" +:+ ?x) with (String ":" x) in H.
  pose proof (Cut_app ":" (Itoa (KeyID e)) (e_EventID e) (Itoa_no_colon _)) as Hc.
  rewrite H, Cut_app in Hc by apply Itoa_no_colon. injection Hc as Hk He. split; [|done].
  symmetry. by apply Itoa_inj.
Qed.

Lemma HasSuffix_app a p : HasSuffix (a +:+ p) p = true.
Proof.
  induction a as [|c a IH].
  - change ("" +:+ p) with p. destruct p; cbn [HasSuffix]; by rewrite String.eqb_refl.
  - rewrite sapp_cons. cbn [HasSuffix]. by rewrite IH, orb_true_r.
Qed.

Lemma name_json e : HasSuffix (name e) ".json" = true.
Proof. apply HasSuffix_app. Qed.

(** ** Loading *)

(** The directory holds nothing but entries under their names. *)
Definition dir_ok (dir : directory) : Prop :=
  forall file content, dir !! file = Some content ->
    exists e, content = Some e /\ file = name e /\ valid_entry file e = true.

Lemma load_entries files acc :
  NoDup files.*1 ->
  (forall file content, (file, content) ∈ files ->
     exists e, content = Some e /\ file = name e /\ valid_entry file e = true) ->
  exists l, load files acc = inl l /\ diskErr l = None
    /\ forall file e, pending l !! file = Some e
         <-> (file, Some e) ∈ files \/ (~ file ∈ files.*1 /\ acc !! file = Some e).
Proof.
  revert acc. induction files as [|[file content] files IH]; intros acc Hnd Hok.
  { exists (mkOutbox acc None). split_and!; [done..|]. intros f e. cbn [pending]. split.
    - right. split; [|done]. intros Hin. by apply not_elem_of_nil in Hin.
    - intros [Hin|[_ H]]; [by apply not_elem_of_nil in Hin|done]. }
  destruct (Hok file content ltac:(by left)) as (e & -> & Hname & Hvalid).
  cbn [fmap list_fmap fst] in Hnd. apply NoDup_cons in Hnd as [Hfresh Hnd].
  assert (Hjson : HasSuffix file ".json" = true) by (rewrite Hname; apply name_json).
  cbn [load]. rewrite Hjson, Hvalid. cbn [negb].
  destruct (IH (<[file := e]> acc) Hnd) as (l & Hload & Hdisk & Hl); [intros f c Hin; apply Hok; by right|].
  exists l. split_and!; [done..|]. intros f e'. rewrite Hl. cbn [fmap list_fmap fst]. split.
  - intros [Hin|[Hf Hacc]]; [left; by right|].
    apply lookup_insert_Some in Hacc as [[<- <-]|[Hne Hacc]]; [left; by left|].
    right. split; [|done]. intros Hin. apply elem_of_cons in Hin as [->|Hin]; done.
  - intros [Hin|[Hf Hacc]].
    + apply elem_of_cons in Hin as [[= -> ->]|Hin]; [|by left]. right. split; [done|]. by rewrite lookup_insert_eq.
    + right. split; [intros Hin; apply Hf; by right|]. rewrite lookup_insert_ne; [done|]. intros ->. apply Hf. by left.
Qed.

Lemma New_reloads dir files :
  dir_ok dir -> files ≡ₚ map_to_list dir ->
  exists l, New files = inl l /\ diskErr l = None
    /\ forall file e, pending l !! file = Some e <-> dir !! file = Some (Some e).
Proof.
  intros Hdir Hperm.
  assert (Hin : forall file content, (file, content) ∈ files <-> dir !! file = Some content).
  { intros f c. by rewrite Hperm, elem_of_map_to_list. }
  destruct (load_entries files ∅) as (l & Hload & Hdisk & Hl).
  - rewrite Hperm. apply NoDup_fst_map_to_list.
  - intros f c Hfc. apply Hdir. by apply Hin.
  - exists l. split_and!; [done..|]. intros f e. rewrite Hl, Hin. split; [|by left].
    intros [H|[_ H]]; [done|]. by rewrite lookup_empty in H.
Qed.

(** ** Replay *)

Lemma replay_all {S : Type} (settle : nat -> entry -> S -> option go_error * S) clock rm ended i todo l dir st :
  (forall j, ended j = false) -> (forall j, rm j = Removed) ->
  (forall j e, e ∈ todo -> settleable (clock j) e = true) ->
  (forall j e st, e ∈ todo -> fst (settle j e st) = None) ->
  (forall e, e ∈ todo -> pending l !! name e = None -> dir !! name e = None) ->
  let '(l', dir', _) := replay settle clock rm ended i todo l dir st in
  diskErr l' = diskErr l
  /\ (forall file, pending l' !! file = if decide (file ∈ name <$> todo) then None else pending l !! file)
  /\ (forall file, dir' !! file = if decide (file ∈ name <$> todo) then None else dir !! file).
Proof.
  intros Hend Hrm. revert i l dir st. induction todo as [|e todo IH]; intros i l dir st Hwin Hset Hgone.
  - cbn. by split_and!.
  - cbn [replay]. rewrite Hend, (Hwin i e) by (by left). cbn [negb].
    pose proof (Hset i e st ltac:(by left)) as Hs. destruct (settle i e st) as [err st']. cbn in Hs. subst err.
    assert (Hremoved : exists l' dir', remove (rm i) e l dir = (None, l', dir') /\ diskErr l' = diskErr l
      /\ (forall f, pending l' !! f = if decide (f = name e) then None else pending l !! f)
      /\ (forall f, dir' !! f = if decide (f = name e) then None else dir !! f)).
    { unfold remove. rewrite Hrm. destruct (pending l !! name e) as [e'|] eqn:E; eexists _, _; split_and!; try reflexivity.
      - intros f. cbn. case_decide; [subst; by rewrite lookup_delete_eq|by rewrite lookup_delete_ne].
      - intros f. case_decide; [subst; by rewrite lookup_delete_eq|by rewrite lookup_delete_ne].
      - intros f. case_decide; [by subst|done].
      - intros f. case_decide; [subst; apply Hgone; [by left|done]|done]. }
    destruct Hremoved as (l1 & dir1 & -> & Hd1 & Hp1 & Hf1).
    specialize (IH (i + 1)%nat l1 dir1 st').
    destruct (replay settle clock rm ended (i + 1) todo l1 dir1 st') as [[l2 dir2] st2].
    destruct IH as (Hd2 & Hp2 & Hf2).
    { intros j e' Hin. apply Hwin. by right. }
    { intros j e' s' Hin. apply Hset. by right. }
    { intros e' Hin. rewrite Hp1, Hf1. case_decide; [done|]. apply Hgone. by right. }
    split_and!; [congruence|intros f; rewrite Hp2, Hp1|intros f; rewrite Hf2, Hf1];
      cbn [fmap list_fmap]; repeat case_decide; set_solver.
Qed.

(** replay drains the outbox once the store answers: when every pending
    settlement is within its window and the store and the disk do their part,
    one replay leaves nothing pending and no file of theirs behind; readiness is
    then restored, unless a write to the outbox failed before: that error is
    never cleared by a replay. *)
Theorem replay_drains_the_outbox {S : Type} (settle : nat -> entry -> S -> option go_error * S)
    clock rm ended todo l dir st l' dir' st' now :
  (forall file e, pending l !! file = Some e -> file = name e) ->
  todo ≡ₚ snd <$> map_to_list (pending l) ->
  (forall j, ended j = false) -> (forall j, rm j = Removed) ->
  (forall j e, e ∈ todo -> settleable (clock j) e = true) ->
  (forall j e st, e ∈ todo -> fst (settle j e st) = None) ->
  replay settle clock rm ended 0 todo l dir st = (l', dir', st') ->
  pending l' = ∅
  /\ (forall file, is_Some (pending l !! file) -> dir' !! file = None)
  /\ (Ready now l' = None <-> diskErr l = None).
Proof.
  intros Hname Hperm Hend Hrm Hwin Hset Hrun.
  assert (Hin : forall file, file ∈ name <$> todo <-> is_Some (pending l !! file)).
  { intros f. rewrite Hperm, list_elem_of_fmap. split.
    - intros (e & -> & Hin). apply list_elem_of_fmap in Hin as ([f' e'] & -> & Hin).
      apply elem_of_map_to_list in Hin. rewrite (Hname _ _ Hin) in Hin. eauto.
    - intros [e He]. exists e. split; [by apply Hname|]. apply list_elem_of_fmap. exists (f, e).
      split; [done|]. by apply elem_of_map_to_list. }
  pose proof (replay_all settle clock rm ended 0 todo l dir st Hend Hrm Hwin Hset) as H. rewrite Hrun in H.
  destruct H as (Hd & Hp & Hf).
  { intros e He Hnone. exfalso. assert (Hs : is_Some (pending l !! name e)) by (apply Hin, list_elem_of_fmap; eauto).
    rewrite Hnone in Hs. by destruct Hs. }
  assert (Hempty : pending l' = ∅).
  { apply map_empty. intros f. rewrite Hp. case_decide as Hc; [done|]. rewrite Hin in Hc.
    destruct (pending l !! f); [destruct Hc; eauto|done]. }
  split_and!; [done|intros f Hs; rewrite Hf; by rewrite decide_True by by apply Hin|].
  unfold Ready. rewrite Hd, Hempty. destruct (diskErr l); [done|]. split; [done|]. intros _. reflexivity.
Qed.

(** A settlement the store keeps refusing stays pending, and once its window has
    closed the outbox admits no request of any key. *)
Lemma refused_settlement_blocks_admission {S : Type} (settle : entry -> S -> option go_error * S) rm e l dir st now :
  fst (settle e st) <> None -> pending l !! name e = None -> settleable now e = false ->
  let l' := snd (fst (fst (SettleApiKeyBilling settle Persisted rm e l dir st))) in
  pending l' !! name e = Some e /\ Ready now l' <> None.
Proof.
  intros Hs Hnew Hexp. unfold SettleApiKeyBilling, queue. rewrite Hnew. destruct (settle e st) as [[err|] st']; [|done].
  cbn zeta. cbn [fst snd pending]. split; [apply lookup_insert_eq|]. unfold Ready. cbn [diskErr pending].
  destruct (max_pending <=? _); [done|]. destruct (forallb _ _) eqn:E; [|done]. rewrite forallb_forall in E.
  assert (Hin : In (name e, e) (map_to_list (<[name e := e]> (pending l)))).
  { apply list_elem_of_In, elem_of_map_to_list, lookup_insert_eq. }
  specialize (E _ Hin). cbn in E. congruence.
Qed.

(** So it is for a key deleted while a request of it was in flight. *)
Lemma deleted_key_never_settles digest quoted net now server id event amount l :
  fst (KeyBilling.SettleApiKeyBilling digest quoted net false now server id event amount l) <> None.
Proof.
  unfold KeyBilling.SettleApiKeyBilling. destruct (_ || _); [done|]. destruct (amount <? 0); [done|].
  destruct (EventExpiry event now); [|done]. unfold run_script. by destruct net.
Qed.
End outbox.

(** * The outbox over the ledgers *)

Section system.
Context (hash digest quoted : string -> string).
Context {Hhash : Inj (=) (=) hash} {Hdigest : Inj (=) (=) digest}.

(** A settlement in flight is about to charge the store, or has been confirmed
    and is about to be taken off the outbox. *)
Inductive phase := AtStore | AtRemove.

Record system := mkSystem {
  sy_memory : option Ledger;                (* none while the process is down *)
  sy_dir : directory;
  sy_time : Z;                              (* the Redis server's clock, ms *)
  sy_keys : Z -> ledger;                    (* the ledgers in Redis, by key *)
  sy_logs : Z -> charges;                   (* what was charged to them *)
  sy_tasks : list (phase * entry);
  sy_submitted : list entry;                (* intents handed to the outbox *)
  sy_accepted : list entry;                 (* those it reported as queued *)
  sy_confirmed : list entry                 (* settlements the store reported done *)
}.

Definition set_key {A} (id : Z) (a : A) (f : Z -> A) : Z -> A := fun k => if k =? id then a else f k.

(** An intent as the billing middleware makes it. *)
Definition callable (e : entry) : Prop := 0 < KeyID e /\ e_EventID e <> "" /\ 0 <= Amount e.

(** One step of the process, of the disk, of Redis or of the other replicas. *)
Inductive step : system -> system -> Prop :=
| step_queue mem dir t keys logs tasks sub acc conf write e mem' dir' :
    callable e -> queue hash write e mem dir = (None, mem', dir') ->
    step (mkSystem (Some mem) dir t keys logs tasks sub acc conf)
         (mkSystem (Some mem') dir' t keys logs ((AtStore, e) :: tasks) (e :: sub) (e :: acc) conf)
| step_queue_failed mem dir t keys logs tasks sub acc conf write e err mem' dir' :
    callable e -> queue hash write e mem dir = (Some err, mem', dir') ->
    step (mkSystem (Some mem) dir t keys logs tasks sub acc conf)
         (mkSystem (Some mem') dir' t keys logs tasks (e :: sub) acc conf)
| step_replay mem dir t keys logs tasks sub acc conf file e :
    pending mem !! file = Some e ->
    step (mkSystem (Some mem) dir t keys logs tasks sub acc conf)
         (mkSystem (Some mem) dir t keys logs ((AtStore, e) :: tasks) sub acc conf)
| step_charged mem dir t keys logs before after sub acc conf e net exists_ now l' :
    fits (Amount e) (keys (KeyID e)) ->
    KeyBilling.SettleApiKeyBilling digest quoted net exists_ now t (KeyID e) (e_EventID e) (Amount e) (keys (KeyID e))
      = (None, l') ->
    step (mkSystem (Some mem) dir t keys logs (before ++ (AtStore, e) :: after) sub acc conf)
         (mkSystem (Some mem) dir t (set_key (KeyID e) l' keys)
            (set_key (KeyID e) ((e_EventID e, used_of l' - used_of (keys (KeyID e))) :: logs (KeyID e)) logs)
            (before ++ (AtRemove, e) :: after) sub acc (e :: conf))
| step_not_charged mem dir t keys logs before after sub acc conf e net exists_ now err l' :
    fits (Amount e) (keys (KeyID e)) ->
    KeyBilling.SettleApiKeyBilling digest quoted net exists_ now t (KeyID e) (e_EventID e) (Amount e) (keys (KeyID e))
      = (Some err, l') ->
    step (mkSystem (Some mem) dir t keys logs (before ++ (AtStore, e) :: after) sub acc conf)
         (mkSystem (Some mem) dir t (set_key (KeyID e) l' keys)
            (set_key (KeyID e) ((e_EventID e, used_of l' - used_of (keys (KeyID e))) :: logs (KeyID e)) logs)
            (before ++ after) sub acc conf)
| step_remove mem dir t keys logs before after sub acc conf e rm err mem' dir' :
    remove hash rm e mem dir = (err, mem', dir') ->
    step (mkSystem (Some mem) dir t keys logs (before ++ (AtRemove, e) :: after) sub acc conf)
         (mkSystem (Some mem') dir' t keys logs (before ++ after) sub acc conf)
| step_skip mem dir t keys logs before after sub acc conf task :
    step (mkSystem (Some mem) dir t keys logs (before ++ task :: after) sub acc conf)
         (mkSystem (Some mem) dir t keys logs (before ++ after) sub acc conf)
| step_crash mem dir t keys logs tasks sub acc conf :
    step (mkSystem mem dir t keys logs tasks sub acc conf)
         (mkSystem None dir t keys logs [] sub acc conf)
| step_restart dir t keys logs sub acc conf files mem :
    files ≡ₚ map_to_list dir -> New hash files = inl mem ->
    step (mkSystem None dir t keys logs [] sub acc conf)
         (mkSystem (Some mem) dir t keys logs [] sub acc conf)
| step_replicas mem dir t keys logs tasks sub acc conf t' keys' logs' :
    t <= t' ->
    (forall id, history digest quoted t' (keys' id) (logs' id)
                /\ exists more, logs' id = more ++ logs id) ->
    step (mkSystem mem dir t keys logs tasks sub acc conf)
         (mkSystem mem dir t' keys' logs' tasks sub acc conf).

(** From fresh ledgers and an empty outbox directory. *)
Inductive reachable : system -> Prop :=
| reach_start keys :
    (forall id, l_reservations (keys id) = ∅ /\ l_receipts (keys id) = ∅) ->
    reachable (mkSystem (Some (mkOutbox ∅ None)) ∅ 0 keys (fun _ => []) [] [] [] [])
| reach_step s s' : reachable s -> step s s' -> reachable s'.

(** The event of an entry is charged, once, with the amount [n]. *)
Definition charged (logs : Z -> charges) (e : entry) (n : Z) : Prop :=
  0 < n -> charges_of (e_EventID e) (logs (KeyID e)) = [n].

(** The entry's settlement was reported done. *)
Definition done_in (conf : list entry) (file : string) : Prop := exists e, e ∈ conf /\ name hash e = file.

Record sound (s : system) : Prop := {
  so_history id : history digest quoted (sy_time s) (sy_keys s id) (sy_logs s id);
  so_dir : dir_ok hash (sy_dir s);
  so_memory mem file e : sy_memory s = Some mem -> pending mem !! file = Some e ->
    file = name hash e /\ (sy_dir s !! file = Some (Some e) \/ done_in (sy_confirmed s) file);
  so_accepted e : e ∈ sy_accepted s ->
    (sy_dir s !! name hash e = Some (Some e)
     /\ forall mem, sy_memory s = Some mem -> pending mem !! name hash e = Some e)
    \/ done_in (sy_confirmed s) (name hash e);
  so_confirmed e : e ∈ sy_confirmed s -> charged (sy_logs s) e (Amount e);
  so_tasks e : (AtRemove, e) ∈ sy_tasks s -> e ∈ sy_confirmed s
}.

Lemma callable_valid e : callable e -> valid_entry hash (name hash e) e = true.
Proof.
  intros (H1 & H2 & H3). unfold valid_entry. rewrite String.eqb_refl.
  apply Z.ltb_lt in H1 as ->. apply Z.leb_le in H3 as ->. apply is_empty_false in H2 as ->. done.
Qed.

Lemma queue_accepts write e mem dir mem' dir' :
  queue hash write e mem dir = (None, mem', dir') ->
  (pending mem !! name hash e = Some e /\ mem' = mem /\ dir' = dir)
  \/ (pending mem !! name hash e = None /\ pending mem' = <[name hash e := e]> (pending mem)
      /\ dir' = <[name hash e := Some e]> dir).
Proof.
  unfold queue. destruct (pending mem !! name hash e) as [prior|] eqn:E.
  - destruct (decide (prior = e)) as [->|]; [|done]. intros [= <- <-]. by left.
  - destruct write; [|done]. intros [= <- <-]. by right.
Qed.

Lemma queue_refuses write e mem dir err mem' dir' :
  queue hash write e mem dir = (Some err, mem', dir') ->
  pending mem' = pending mem
  /\ (dir' = dir \/ (pending mem !! name hash e = None /\ dir' = <[name hash e := Some e]> dir)).
Proof.
  unfold queue. destruct (pending mem !! name hash e) as [prior|] eqn:E.
  - destruct (decide (prior = e)); [done|]. intros [= _ <- <-]. split; [done|by left].
  - destruct write as [|err' renamed]; [done|]. intros [= _ <- <-]. split; [done|]. destruct renamed; [by right|by left].
Qed.

Lemma remove_effect rm e mem dir err mem' dir' :
  remove hash rm e mem dir = (err, mem', dir') ->
  (pending mem' = pending mem \/ pending mem' = delete (name hash e) (pending mem))
  /\ (dir' = dir \/ dir' = delete (name hash e) dir).
Proof.
  unfold remove. destruct (pending mem !! name hash e); [destruct rm|]; intros [= _ <- <-]; auto.
Qed.

Lemma done_weaken e conf file : done_in conf file -> done_in (e :: conf) file.
Proof. intros (e' & Hin & Hn). exists e'. split; [by right|done]. Qed.

(** Steps of the outbox itself leave Redis alone. *)
Lemma sound_queue mem dir t keys logs tasks sub acc conf write e mem' dir' :
  callable e -> queue hash write e mem dir = (None, mem', dir') ->
  sound (mkSystem (Some mem) dir t keys logs tasks sub acc conf) ->
  sound (mkSystem (Some mem') dir' t keys logs ((AtStore, e) :: tasks) (e :: sub) (e :: acc) conf).
Proof.
  intros Hcall Hq [Hh Hd Hm Ha Hc Ht]. cbn in *.
  destruct (queue_accepts _ _ _ _ _ _ Hq) as [(Hp & -> & ->)|(Hp & Hp' & ->)]; split; cbn; try done.
  - intros e' Hin. apply elem_of_cons in Hin as [->|Hin]; [|by apply Ha].
    destruct (Hm mem _ _ eq_refl Hp) as [_ [H|H]]; [left|by right]. split; [done|]. by intros m [= <-].
  - intros e' Hin. apply elem_of_cons in Hin as [?|Hin]; [done|by apply Ht].
  - intros f c Hf. apply lookup_insert_Some in Hf as [[<- <-]|[_ Hf]]; [|by apply Hd].
    exists e. split_and!; [done|done|by apply callable_valid].
  - intros m f e' [= <-]. rewrite Hp'. intros Hf. apply lookup_insert_Some in Hf as [[<- <-]|[Hne Hf]].
    + split; [done|]. left. by rewrite lookup_insert_eq.
    + rewrite lookup_insert_ne by done. by apply (Hm mem).
  - intros e' Hin. destruct (decide (name hash e' = name hash e)) as [Heq|Hne].
    + apply elem_of_cons in Hin as [->|Hin].
      * left. rewrite lookup_insert_eq. split; [done|]. intros m [= <-]. by rewrite Hp', lookup_insert_eq.
      * destruct (Ha e' Hin) as [[_ H]|H]; [|by right]. specialize (H mem eq_refl). rewrite Heq, Hp in H. done.
    + apply elem_of_cons in Hin as [->|Hin]; [done|]. destruct (Ha e' Hin) as [[H1 H2]|H]; [|by right].
      left. rewrite lookup_insert_ne by done. split; [done|]. intros m [= <-]. rewrite Hp', lookup_insert_ne by done. by apply H2.
  - intros e' Hin. apply elem_of_cons in Hin as [?|Hin]; [done|by apply Ht].
Qed.

Lemma sound_queue_failed mem dir t keys logs tasks sub acc conf write e err mem' dir' :
  callable e -> queue hash write e mem dir = (Some err, mem', dir') ->
  sound (mkSystem (Some mem) dir t keys logs tasks sub acc conf) ->
  sound (mkSystem (Some mem') dir' t keys logs tasks (e :: sub) acc conf).
Proof.
  intros Hcall Hq [Hh Hd Hm Ha Hc Ht]. cbn in *.
  destruct (queue_refuses _ _ _ _ _ _ _ Hq) as [Hp [->|[Hnone ->]]]; split; cbn; try done.
  - intros m f e' [= <-]. rewrite Hp. by apply (Hm mem).
  - intros e' Hin. destruct (Ha e' Hin) as [[H1 H2]|H]; [left|by right]. split; [done|].
    intros m [= <-]. rewrite Hp. by apply H2.
  - intros f c Hf. apply lookup_insert_Some in Hf as [[<- <-]|[_ Hf]]; [|by apply Hd].
    exists e. split_and!; [done|done|by apply callable_valid].
  - intros m f e' [= <-]. rewrite Hp. intros Hf. destruct (decide (f = name hash e)) as [->|Hne].
    + by rewrite Hnone in Hf.
    + rewrite lookup_insert_ne by done. by apply (Hm mem).
  - intros e' Hin. destruct (Ha e' Hin) as [[H1 H2]|H]; [|by right]. left.
    assert (Hne : name hash e <> name hash e').
    { intros Heq. specialize (H2 mem eq_refl). rewrite <- Heq, Hnone in H2. done. }
    rewrite lookup_insert_ne by done. split; [done|]. intros m [= <-]. rewrite Hp. by apply H2.
Qed.

(** A charge recorded for one key keeps every confirmed charge. *)
Lemma sound_charge mem dir t keys logs tasks sub acc conf e l' err net exists_ now :
  fits (Amount e) (keys (KeyID e)) ->
  KeyBilling.SettleApiKeyBilling digest quoted net exists_ now t (KeyID e) (e_EventID e) (Amount e) (keys (KeyID e))
    = (err, l') ->
  sound (mkSystem mem dir t keys logs tasks sub acc conf) ->
  sound (mkSystem mem dir t (set_key (KeyID e) l' keys)
           (set_key (KeyID e) ((e_EventID e, used_of l' - used_of (keys (KeyID e))) :: logs (KeyID e)) logs)
           tasks sub acc conf).
Proof.
  intros Hf Hrun [Hh Hd Hm Ha Hc Ht]. cbn in *.
  assert (Hnew : history digest quoted t l' ((e_EventID e, used_of l' - used_of (keys (KeyID e))) :: logs (KeyID e)))
    by (by eapply h_settle).
  split; cbn; try done.
  - intros id. unfold set_key. destruct (id =? KeyID e) eqn:E; to_prop; [by subst|apply Hh].
  - intros e' Hin Hpos. unfold set_key. destruct (KeyID e' =? KeyID e) eqn:E; to_prop; [|by apply Hc].
    specialize (Hc e' Hin Hpos). rewrite E in Hc.
    by apply (charged_for_good digest quoted t l' [_] (logs (KeyID e))).
Qed.

Lemma sound_confirm mem dir t keys logs before after sub acc conf e :
  charged logs e (Amount e) ->
  sound (mkSystem mem dir t keys logs (before ++ (AtStore, e) :: after) sub acc conf) ->
  sound (mkSystem mem dir t keys logs (before ++ (AtRemove, e) :: after) sub acc (e :: conf)).
Proof.
  intros Hcharge [Hh Hd Hm Ha Hc Ht]. cbn in *. split; cbn; try done.
  - intros m f e' Hmem Hf. destruct (Hm m f e' Hmem Hf) as [H1 [H2|H2]]; (split; [done|]); [by left|right].
    by apply done_weaken.
  - intros e' Hin. destruct (Ha e' Hin) as [H|H]; [by left|right]. by apply done_weaken.
  - intros e' Hin. apply elem_of_cons in Hin as [->|Hin]; [done|by apply Hc].
  - intros e' Hin. apply elem_of_cons. apply elem_of_app in Hin as [Hin|Hin]; [right; apply Ht; set_solver|].
    apply elem_of_cons in Hin as [[= ->]|Hin]; [by left|right; apply Ht; set_solver].
Qed.

Lemma sound_tasks mem dir t keys logs tasks tasks' sub acc conf :
  (forall e, (AtRemove, e) ∈ tasks' -> (AtRemove, e) ∈ tasks) ->
  sound (mkSystem mem dir t keys logs tasks sub acc conf) ->
  sound (mkSystem mem dir t keys logs tasks' sub acc conf).
Proof. intros H [Hh Hd Hm Ha Hc Ht]. split; cbn in *; try done. intros e Hin. by apply Ht, H. Qed.

Lemma sound_remove mem dir t keys logs tasks sub acc conf rm e err mem' dir' :
  e ∈ conf -> remove hash rm e mem dir = (err, mem', dir') ->
  sound (mkSystem (Some mem) dir t keys logs tasks sub acc conf) ->
  sound (mkSystem (Some mem') dir' t keys logs tasks sub acc conf).
Proof.
  intros Hconf Hrm [Hh Hd Hm Ha Hc Ht]. cbn in *.
  destruct (remove_effect _ _ _ _ _ _ _ Hrm) as [Hp Hdir].
  assert (Hdone : done_in conf (name hash e)) by (by exists e).
  assert (Hsub : forall f c, dir' !! f = Some c -> dir !! f = Some c).
  { intros f c. destruct Hdir as [->| ->]; [done|]. intros H. by apply lookup_delete_Some in H as [_ H]. }
  assert (Hpsub : forall f e', pending mem' !! f = Some e' -> pending mem !! f = Some e').
  { intros f e'. destruct Hp as [->| ->]; [done|]. intros H. by apply lookup_delete_Some in H as [_ H]. }
  assert (Hkept : forall f c, f <> name hash e -> dir !! f = Some c -> dir' !! f = Some c).
  { intros f c Hne H. destruct Hdir as [->| ->]; [done|]. by rewrite lookup_delete_ne. }
  split; cbn; try done.
  - intros f c Hf. apply Hd. by apply Hsub.
  - intros m f e' [= <-] Hf. destruct (decide (f = name hash e)) as [->|Hne].
    + destruct (Hm mem _ e' eq_refl (Hpsub _ _ Hf)) as [H _]. split; [done|by right].
    + destruct (Hm mem f e' eq_refl (Hpsub _ _ Hf)) as [H [H2|H2]]; (split; [done|]); [left; by apply Hkept|by right].
  - intros e' Hin. destruct (decide (name hash e' = name hash e)) as [->|Hne]; [by right|].
    destruct (Ha e' Hin) as [[H1 H2]|H]; [left|by right]. split; [by apply Hkept|].
    intros m [= <-]. specialize (H2 mem eq_refl). destruct Hp as [->| ->]; [done|]. by rewrite lookup_delete_ne.
Qed.

Lemma sound_restart dir t keys logs sub acc conf files mem :
  files ≡ₚ map_to_list dir -> New hash files = inl mem ->
  sound (mkSystem None dir t keys logs [] sub acc conf) ->
  sound (mkSystem (Some mem) dir t keys logs [] sub acc conf).
Proof.
  intros Hperm Hnew [Hh Hd Hm Ha Hc Ht]. cbn in *.
  destruct (New_reloads hash dir files Hd Hperm) as (l & Hnew' & _ & Hl). rewrite Hnew in Hnew'. injection Hnew' as <-.
  split; cbn; try done.
  - intros m f e [= <-] Hf. apply Hl in Hf. destruct (Hd f _ Hf) as (e' & [= <-] & -> & _). split; [done|by left].
  - intros e Hin. destruct (Ha e Hin) as [[H _]|H]; [left|by right]. split; [done|]. intros m [= <-]. by apply Hl.
Qed.

Lemma sound_replicas mem dir t keys logs tasks sub acc conf t' keys' logs' :
  (forall id, history digest quoted t' (keys' id) (logs' id) /\ exists more, logs' id = more ++ logs id) ->
  sound (mkSystem mem dir t keys logs tasks sub acc conf) ->
  sound (mkSystem mem dir t' keys' logs' tasks sub acc conf).
Proof.
  intros Hext [Hh Hd Hm Ha Hc Ht]. split; cbn in *; try done.
  - intros id. apply Hext.
  - intros e Hin Hpos. destruct (Hext (KeyID e)) as [Hh' [more Hlog]]. unfold charged. rewrite Hlog in *.
    by apply (charged_for_good digest quoted t' (keys' (KeyID e))), Hc.
Qed.

Lemma step_sound s s' : sound s -> step s s' -> sound s'.
Proof.
  intros Hs Hstep. destruct Hstep.
  - by eapply sound_queue.
  - by eapply sound_queue_failed.
  - eapply sound_tasks, Hs. intros e' Hin. by apply elem_of_cons in Hin as [?|Hin].
  - apply sound_confirm.
    + intros Hpos. unfold set_key. rewrite Z.eqb_refl.
      rewrite (success_charged digest quoted t (keys (KeyID e)) (logs (KeyID e)) _ _ _ _ _ _ _ (so_history _ Hs (KeyID e)) H H0).
      by rewrite (proj2 (Z.eqb_neq _ _)) by lia.
    + by eapply sound_charge.
  - eapply sound_charge; [done..|]. eapply sound_tasks, Hs. intros e' Hin. set_solver.
  - eapply sound_remove; [|done|]; [apply (so_tasks _ Hs e); set_solver|].
    eapply sound_tasks, Hs. intros e' Hin. set_solver.
  - eapply sound_tasks, Hs. intros e' Hin. set_solver.
  - destruct Hs as [Hh Hd Hm Ha Hc Ht]. split; cbn in *; try done.
    + intros e Hin. destruct (Ha e Hin) as [[H _]|H]; [by left|by right].
    + intros e Hin. by apply not_elem_of_nil in Hin.
  - by eapply sound_restart.
  - by eapply sound_replicas.
Qed.

Lemma reachable_sound s : reachable s -> sound s.
Proof.
  intros H. induction H as [keys Hk|s s' _ IH Hstep]; [|by eapply step_sound].
  split; cbn.
  - intros id. destruct (Hk id). by apply h_start.
  - done.
  - intros mem f e [= <-] Hf. cbn in Hf. by rewrite lookup_empty in Hf.
  - intros e Hin. by apply not_elem_of_nil in Hin.
  - intros e Hin. by apply not_elem_of_nil in Hin.
  - intros e Hin. by apply not_elem_of_nil in Hin.
Qed.

(** Where an entry can be found: every one was submitted. *)
Inductive known (s : system) (e : entry) : Prop :=
| known_accepted : e ∈ sy_accepted s -> known s e
| known_confirmed : e ∈ sy_confirmed s -> known s e
| known_task p : (p, e) ∈ sy_tasks s -> known s e
| known_file file : sy_dir s !! file = Some (Some e) -> known s e
| known_pending mem file : sy_memory s = Some mem -> pending mem !! file = Some e -> known s e.

Hint Constructors known : core.

Lemma step_submitted s s' e : step s s' -> e ∈ sy_submitted s -> e ∈ sy_submitted s'.
Proof. intros [] Hin; cbn in *; set_solver. Qed.

Lemma new_entry {A} (x y : A) l : x ∈ y :: l -> x = y \/ x ∈ l.
Proof. apply elem_of_cons. Qed.

Ltac known_here :=
  match goal with
  | H : _ ∈ _ :: _ |- _ => apply new_entry in H as [?|?]
  | H : <[_ := _]> _ !! _ = Some _ |- _ => apply lookup_insert_Some in H as [[? ?]|[? ?]]
  | H : delete _ _ !! _ = Some _ |- _ => apply lookup_delete_Some in H as [? ?]
  | H : _ ∈ _ ++ _ |- _ => apply elem_of_app in H as [?|?]
  | H : _ ∈ [] |- _ => by apply not_elem_of_nil in H
  end.

(** Every place of [s'] where [e] is found is one of [s], or [e] was submitted. *)
Ltac known_cases Hk :=
  destruct Hk as [Hk|Hk|p Hk|f Hk|m f Hm Hk]; cbn in *; simplify_eq/=;
  repeat match goal with H : pending _ = _ |- _ => rewrite H in * end;
  repeat (known_here; simplify_eq/=);
  first [ by right; left
        | left; solve [ by eapply known_accepted | by eapply known_confirmed | by eapply known_task
                      | eapply known_task; cbn; rewrite elem_of_app, elem_of_cons; eauto
                      | by eapply known_file | by eapply known_pending ] ].

Lemma step_known s s' e : sound s -> step s s' -> known s' e -> known s e \/ e ∈ sy_submitted s'.
Proof.
  intros Hs Hstep Hk. destruct Hstep.
  - destruct (queue_accepts _ _ _ _ _ _ H0) as [(Hp & -> & ->)|(Hp & Hp' & ->)]; known_cases Hk.
  - destruct (queue_refuses _ _ _ _ _ _ _ H0) as [Hp [->|[Hnone ->]]]; known_cases Hk.
  - known_cases Hk.
  - known_cases Hk.
  - known_cases Hk.
  - destruct (remove_effect _ _ _ _ _ _ _ H) as [[Hp|Hp] [->| ->]]; known_cases Hk.
  - known_cases Hk.
  - known_cases Hk.
  - destruct (New_reloads hash dir files (so_dir _ Hs) H) as (l & Hnew & _ & Hl).
    rewrite Hnew in H0. injection H0 as <-.
    destruct Hk as [Hk|Hk|p Hk|f Hk|m f Hm Hk]; cbn in *; simplify_eq/=; eauto. apply Hl in Hk. eauto.
  - known_cases Hk.
Qed.

Lemma reachable_known s e : reachable s -> known s e -> e ∈ sy_submitted s.
Proof.
  intros H. revert e. induction H as [keys Hk|s s' Hr IH Hstep]; intros e Hkn.
  - destruct Hkn as [Hk'|Hk'|p Hk'|f Hk'|m f Hm Hk']; cbn in *; simplify_eq/=; repeat known_here;
      by rewrite lookup_empty in Hk'.
  - destruct (step_known s s' e (reachable_sound s Hr) Hstep Hkn) as [H|H]; [|done].
    apply (step_submitted s s' e Hstep). by apply IH.
Qed.

(** C7: no settlement is lost or charged twice: through crashes, restarts, failing
    disks and lost replies, an intent the outbox accepted is on disk until the
    store has confirmed it; once it is off the disk its event has been charged
    exactly its amount, exactly once, provided an event is always settled with
    the same amount; and no event is ever charged twice. *)
Theorem no_settlement_lost s e :
  reachable s -> e ∈ sy_accepted s ->
  (forall e', e' ∈ sy_submitted s -> KeyID e' = KeyID e -> e_EventID e' = e_EventID e -> e' = e) ->
  (sy_dir s !! name hash e = Some (Some e) \/ e ∈ sy_confirmed s)
  /\ (e ∈ sy_confirmed s -> 0 < Amount e -> charges_of (e_EventID e) (sy_logs s (KeyID e)) = [Amount e])
  /\ (length (charges_of (e_EventID e) (sy_logs s (KeyID e))) <= 1)%nat.
Proof.
  intros Hr Ha Hsame. pose proof (reachable_sound s Hr) as Hs. split_and!.
  - destruct (so_accepted s Hs e Ha) as [[H _]|(e' & Hin & Hn)]; [by left|right].
    apply name_inj in Hn as [H1 H2]; [|done]. rewrite <- (Hsame e'); [done| |done|done].
    apply (reachable_known s e' Hr). by apply known_confirmed.
  - intros Hc Hpos. by apply (so_confirmed s Hs e Hc).
  - apply (charges_once digest quoted _ _ _ _ (so_history s Hs (KeyID e))).
Qed.

(** a restart always succeeds and forgets nothing: whatever the process went
    through before it died, the outbox directory loads without an error, and
    every accepted settlement that is not confirmed yet is pending again. *)
Theorem restart_reloads_the_outbox s files :
  reachable s -> files ≡ₚ map_to_list (sy_dir s) ->
  exists mem, New hash files = inl mem /\ diskErr mem = None
    /\ (forall file e, pending mem !! file = Some e <-> sy_dir s !! file = Some (Some e))
    /\ (forall e, e ∈ sy_accepted s -> pending mem !! name hash e = Some e \/ done_in (sy_confirmed s) (name hash e)).
Proof.
  intros Hr Hperm. pose proof (reachable_sound s Hr) as Hs.
  destruct (New_reloads hash (sy_dir s) files (so_dir s Hs) Hperm) as (mem & Hnew & Hd & Hl).
  exists mem. split_and!; [done|done|done|]. intros e Ha.
  destruct (so_accepted s Hs e Ha) as [[H _]|H]; [left; by apply Hl|by right].
Qed.
End system.

(** ** An intent queued while Redis is away, a crash, a restart and the replay *)

Section demo.
Abbreviation same := (fun s : string => s).
Definition demo_entry : entry := mkEntry 7 demo_event 450.
Definition fresh_keys : Z -> ledger := fun _ => limited_ledger.
Definition demo_dir : directory := {[name same demo_entry := Some demo_entry]}.
Definition demo_memory : Ledger := mkOutbox {[name same demo_entry := demo_entry]} None.

Definition queued : system :=
  mkSystem (Some demo_memory) demo_dir 0 fresh_keys (fun _ => []) [(AtStore, demo_entry)] [demo_entry] [demo_entry] [].
Definition crashed : system := mkSystem None demo_dir 0 fresh_keys (fun _ => []) [] [demo_entry] [demo_entry] [].

Lemma queued_reachable : reachable same same same queued.
Proof.
  eapply reach_step; [apply (reach_start _ _ _ fresh_keys); by intros|].
  apply (step_queue same same same (mkOutbox ∅ None) ∅ 0 fresh_keys (fun _ => []) [] [] [] [] Persisted demo_entry).
  - split_and!; [done| |done]. vm_compute. discriminate.
  - reflexivity.
Qed.

Lemma crashed_reachable : reachable same same same crashed.
Proof. eapply reach_step; [apply queued_reachable|]. apply step_crash. Qed.

Lemma restart_reloads_the_outbox_witness :
  exists mem, New same (map_to_list demo_dir) = inl mem
    /\ (pending mem !! name same demo_entry = Some demo_entry \/ done_in same [] (name same demo_entry)).
Proof.
  destruct (restart_reloads_the_outbox same same same (Hhash := fun a b H => H) (Hdigest := fun a b H => H)
              crashed (map_to_list demo_dir) crashed_reachable (reflexivity _)) as (mem & Hnew & _ & _ & H).
  exists mem. split; [exact Hnew|]. apply H. by left.
Defined.

Lemma no_settlement_lost_witness :
  sy_dir crashed !! name same demo_entry = Some (Some demo_entry) \/ demo_entry ∈ sy_confirmed crashed.
Proof.
  destruct (no_settlement_lost same same same (Hhash := fun a b H => H) (Hdigest := fun a b H => H)
              crashed demo_entry crashed_reachable) as [H _].
  - by left.
  - intros e' Hin _ _. apply elem_of_cons in Hin as [->|Hin]; [done|by apply not_elem_of_nil in Hin].
  - exact H.
Defined.

Lemma replay_drains_the_outbox_witness :
  exists l' dir', replay same (fun _ _ (n : nat) => (None, S n)) (fun _ => minute_one) (fun _ => Removed)
                    (fun _ => false) 0 [demo_entry] demo_memory demo_dir 0%nat = (l', dir', 1%nat)
    /\ pending l' = ∅ /\ Ready minute_one l' = None.
Proof.
  destruct (replay same (fun _ _ (n : nat) => (None, S n)) (fun _ => minute_one) (fun _ => Removed)
              (fun _ => false) 0 [demo_entry] demo_memory demo_dir 0%nat) as [[l' dir'] n] eqn:E.
  assert (Hn : n = 1%nat).
  { assert (H : snd (replay same (fun _ _ (n : nat) => (None, S n)) (fun _ => minute_one) (fun _ => Removed)
              (fun _ => false) 0 [demo_entry] demo_memory demo_dir 0%nat) = 1%nat) by (vm_compute; reflexivity).
    rewrite E in H. exact H. }
  subst n. exists l', dir'. split; [reflexivity|].
  destruct (replay_drains_the_outbox same (fun _ _ (n : nat) => (None, S n)) (fun _ => minute_one) (fun _ => Removed)
              (fun _ => false) [demo_entry] demo_memory demo_dir 0%nat l' dir' 1%nat minute_one) as (H1 & _ & [_ H3]).
  - intros f e H. unfold demo_memory in H. cbn [pending] in H. apply lookup_singleton_Some in H as [<- <-]. reflexivity.
  - unfold demo_memory. cbn [pending]. by rewrite map_to_list_singleton.
  - done.
  - done.
  - intros j e Hin. apply elem_of_cons in Hin as [->|Hin]; [vm_compute; reflexivity|by apply not_elem_of_nil in Hin].
  - done.
  - exact E.
  - split; [exact H1|]. by apply H3.
Defined.
End demo.
