(* ===== verification/BillingMiddleware.v ===== *)
(** The billing of one HTTP request ([internal/middleware/billing.go]): the hold
    taken before the handler, the settlement the handler asks for, and the
    release when nothing was settled. *)

From Stdlib Require Import Ascii.
From S2P Require Import Prelude Json Channel Pricing KeyBilling.

Definition DefaultBillingReservationTTL : duration := 30 * Minute.

(** * The hold of a request *)

Record BillingReservation := mkReservation {
  r_KeyID : Z;
  r_EventID : string;
  r_Amount : Z;
  settled : bool;
  pending : bool;
  priced : Result
}.

#[export] Instance reservation_eta : Eta BillingReservation := fun r =>
  mkReservation (r_KeyID r) (r_EventID r) (r_Amount r) (settled r) (pending r) (priced r).

Definition no_result : Result := mkResult "" 0.

(** [audit.UsageSource]. *)
Definition UsageSourceUpstream : string := "upstream".

Section middleware.
Context {S : Type}.

(** The store a settlement is booked in: the outbox, or the ledger itself. *)
Abbreviation settler := (Z -> string -> Z -> S -> option go_error * S).

(** Up to [n] attempts, until one succeeds. *)
Fixpoint attempt_settle (n : nat) (settle : settler) (r : BillingReservation) (amount : Z) (err : option go_error)
    (s : S) : option go_error * S :=
  match n with
  | O => (err, s)
  | Datatypes.S n =>
      match settle (r_KeyID r) (r_EventID r) amount s with
      | (None, s) => (None, s)
      | (Some err, s) => attempt_settle n settle r amount (Some err) s
      end
  end.

(** The store and the hold a settlement goes to, when there are both. *)
Definition billable (settle : option settler) (reservation : option BillingReservation)
    : option (settler * BillingReservation) :=
  match settle, reservation with
  | Some settle, Some r =>
      if (r_KeyID r =? 0) || is_empty (r_EventID r) then None else Some (settle, r)
  | _, _ => None
  end.

(** Book [result] on [r]: the outcome and the hold after it. *)
Definition book (settle : settler) (r : BillingReservation) (result : Result) (s : S)
    : bool * BillingReservation * S :=
  let r := r <| pending := true |> <| priced := result |> in
  match attempt_settle 3 settle r (CostInUSDTicks result) None s with
  | (Some _, s) => (false, r, s)
  | (None, s) => (true, r <| settled := true |> <| pending := false |>, s)
  end.

(** [SettleAPIKeyBilling]: [settle] is the settler passed, or the process's
    default one when that is nil. *)
Definition SettleAPIKeyBilling (settle : option settler) (reservation : option BillingReservation)
    (model usageSource : string) (allowEstimates : bool)
    (inputTokens cachedInputTokens outputTokens : Z) (s : S)
    : (Result * bool) * option BillingReservation * S :=
  if negb (String.eqb usageSource UsageSourceUpstream) && negb allowEstimates
  then ((no_result, false), reservation, s)
  else
    match EstimateCost model inputTokens cachedInputTokens outputTokens inputTokens with
    | None => ((no_result, false), reservation, s)
    | Some result =>
        match billable settle reservation with
        | None => ((result, true), reservation, s)
        | Some (settle, r) =>
            if settled r then ((priced r, true), Some r, s)
            else
              let result := if pending r then priced r else result in
              let '(ok, r, s) := book settle r result s in
              ((result, ok), Some r, s)
        end
    end.

(** [SettleAPIKeyBillingResult], for a result priced elsewhere. *)
Definition SettleAPIKeyBillingResult (settle : option settler) (reservation : option BillingReservation)
    (result : Result) (s : S) : bool * option BillingReservation * S :=
  if (CostInUSDTicks result <=? 0) || is_empty (TrimSpace (Model result)) then (false, reservation, s)
  else
    match billable settle reservation with
    | None => (true, reservation, s)
    | Some (settle, r) =>
        if settled r then (true, Some r, s)
        else let '(ok, r, s) := book settle r result s in (ok, Some r, s)
    end.

(** * The gate *)

Record APIKeyPrincipal := mkPrincipal {
  p_ID : Z;
  p_AllowedModels : list string;
  p_MaxConcurrent : Z;
  p_BillingLimitUSDTicks : Z;
  p_DenialCode : string
}.

(** A request's body: unreadable, or its size and what it decodes to, if it is
    valid JSON. *)
Inductive request_body := Unreadable | Body (size : Z) (decoded : option json).

Inductive admission :=
| PassThrough
| Refuse (status : Z) (message code : string)
| Hold (r : BillingReservation).

(** [strings.TrimRight(s, "/")]. *)
Fixpoint TrimRightSlash (s : string) : string :=
  match s with
  | EmptyString => EmptyString
  | String c rest =>
      let rest := TrimRightSlash rest in
      if is_empty rest && Ascii.eqb c "/" then EmptyString else String c rest
  end.

Definition billingRequestPath (path : string) : bool :=
  match EndpointFromPath path with
  | Some (_, endpoint) =>
      str_in (TrimRightSlash endpoint) ["messages"; "chat/completions"; "responses"; "responses/compact"]
  | None => false
  end.

Abbreviation reserver := (Z -> string -> Z -> instant -> S -> (bool + go_error) * S).
Abbreviation releaser := (Z -> string -> S -> (bool + go_error) * S).

Definition billing_unavailable : admission :=
  Refuse 503 "API key billing check unavailable" "billing_unavailable".

(** [APIKeyBillingReservation] up to the handler: [ready] is the outbox's
    [Ready], for a settler that has one, [requestID] the request's identity. *)
Definition APIKeyBillingReservation (principal : option APIKeyPrincipal) (reserve : option reserver)
    (ttl : duration) (method path : string) (body : request_body) (ready : option go_error)
    (now : instant) (requestID : string) (s : S) : admission * S :=
  let ttl := if ttl <=? 0 then DefaultBillingReservationTTL else ttl in
  match principal, reserve with
  | Some p, Some reserve =>
      if (p_ID p =? 0) || (p_BillingLimitUSDTicks p <=? 0) then (PassThrough, s)
      else if negb (String.eqb method "POST") && negb (String.eqb method "PUT") then (PassThrough, s)
      else if negb (billingRequestPath path) then (PassThrough, s)
      else
        match body with
        | Unreadable => (Refuse 400 "Could not read request body" "invalid_request_body", s)
        | Body size decoded =>
            if size =? 0 then (PassThrough, s)
            else
              match decoded with
              | None => (Refuse 400 "Invalid JSON request body" "invalid_request_body", s)
              | Some v =>
                  match EstimateTextReservationFromBody size v with
                  | None => (PassThrough, s)
                  | Some reservation =>
                      let eventID := EventID now requestID in
                      if decide (ready = None) then
                        match reserve (p_ID p) eventID (CostInUSDTicks reservation) (Time.Add now ttl) s with
                        | (inr _, s) => (billing_unavailable, s)
                        | (inl false, s) =>
                            (Refuse 402 "API key billing limit exceeded" "billing_limit_exceeded", s)
                        | (inl true, s) =>
                            (Hold (mkReservation (p_ID p) eventID (CostInUSDTicks reservation) false false no_result), s)
                        end
                      else (billing_unavailable, s)
                  end
              end
        end
  | _, _ => (PassThrough, s)
  end.

(** The deferred cleanup of a request that held. *)
Definition finish (release : releaser) (r : BillingReservation) (s : S) : S :=
  if settled r || pending r then s else snd (release (r_KeyID r) (r_EventID r) s).

(** The whole request: [next] is the handler, which may settle the hold it is
    given; [None] when it never ran. *)
Definition serve {A : Type} (gate : S -> admission * S) (release : releaser)
    (next : option BillingReservation -> S -> A * option BillingReservation * S) (s : S)
    : option A * S :=
  match gate s with
  | (PassThrough, s) => let '(a, _, s) := next None s in (Some a, s)
  | (Refuse _ _ _, s) => (None, s)
  | (Hold r, s) =>
      let '(a, r', s) := next (Some r) s in
      (Some a, match r' with Some r' => finish release r' s | None => s end)
  end.
End middleware.

(** * Properties *)

(** ** One request *)

Section request.
(** What a request does to the ledger, latest last, and what the ledger answers
    to its n-th call. *)
Inductive call := Submitted (key : Z) (event : string) (amount : Z) | Released (key : Z) (event : string).
Context (answers : nat -> option go_error).

Definition recorded_settle (key : Z) (event : string) (amount : Z) (log : list call) : option go_error * list call :=
  (answers (length log), log ++ [Submitted key event amount]).

Definition recorded_release (key : Z) (event : string) (log : list call) : (bool + go_error) * list call :=
  (inl true, log ++ [Released key event]).

(** The usage a handler reports. *)
Record usage := mkUsage {
  u_model : string;
  u_source : string;
  u_allowEstimates : bool;
  u_input : Z;
  u_cached : Z;
  u_output : Z
}.

Definition settle_usage (u : usage) (r : BillingReservation) (log : list call)
    : (Result * bool) * option BillingReservation * list call :=
  SettleAPIKeyBilling (Some recorded_settle) (Some r) (u_model u) (u_source u) (u_allowEstimates u)
    (u_input u) (u_cached u) (u_output u) log.

(** A handler that reports the usages [us] on its hold. *)
Fixpoint report (us : list usage) (r : option BillingReservation) (log : list call)
    : list (Result * bool) * option BillingReservation * list call :=
  match us, r with
  | u :: us, Some r =>
      let '(answer, r, log) := settle_usage u r log in
      let '(answers, r, log) := report us r log in (answer :: answers, r, log)
  | _, _ => ([], r, log)
  end.

(** The hold after [n] submissions of its price. *)
Record hold_log (r0 r : BillingReservation) (log0 log : list call) : Prop := {
  hl_key : r_KeyID r = r_KeyID r0 /\ r_EventID r = r_EventID r0;
  hl_calls : exists n, log = log0 ++ replicate n (Submitted (r_KeyID r0) (r_EventID r0) (CostInUSDTicks (priced r)))
    /\ (n = 0%nat <-> settled r = false /\ pending r = false)
}.

Lemma attempt_settle_log n r amount err log :
  exists m, attempt_settle n recorded_settle r amount err log
    = (fst (attempt_settle n recorded_settle r amount err log),
       log ++ replicate m (Submitted (r_KeyID r) (r_EventID r) amount))
    /\ (n <> 0 -> m <> 0)%nat.
Proof.
  revert err log. induction n as [|n IH]; intros err log.
  - exists 0%nat. cbn. by rewrite app_nil_r.
  - cbn [attempt_settle]. unfold recorded_settle at 1 3. destruct (answers (length log)) as [e|].
    + destruct (IH (Some e) (log ++ [Submitted (r_KeyID r) (r_EventID r) amount])) as (m & Hm & _).
      exists (Datatypes.S m). rewrite Hm. cbn [fst]. split; [|done]. by rewrite <- app_assoc.
    + by exists 1%nat.
Qed.

Lemma settle_usage_log u r0 r log0 log :
  (r_KeyID r0 =? 0) || is_empty (r_EventID r0) = false -> hold_log r0 r log0 log ->
  exists answer r' log', settle_usage u r log = (answer, Some r', log') /\ hold_log r0 r' log0 log'.
Proof.
  intros Hid Hl. pose proof Hl as [[Hk He] (n & -> & Hn)]. unfold settle_usage, SettleAPIKeyBilling.
  destruct (_ && _); [eauto|]. destruct (EstimateCost _ _ _ _ _) as [result|]; [|eauto].
  unfold billable. rewrite Hk, He, Hid. destruct (settled r) eqn:Es; [eauto|].
  unfold book. set (price := if pending r then priced r else result).
  set (r1 := r <| pending := true |> <| priced := price |>).
  destruct (attempt_settle_log 3 r1 (CostInUSDTicks price) None
              (log0 ++ replicate n (Submitted (r_KeyID r0) (r_EventID r0) (CostInUSDTicks (priced r))))) as (m & Hm & Hm0).
  assert (Hcalls : log0 ++ replicate n (Submitted (r_KeyID r0) (r_EventID r0) (CostInUSDTicks (priced r)))
                   ++ replicate m (Submitted (r_KeyID r1) (r_EventID r1) (CostInUSDTicks price))
                 = log0 ++ replicate (n + m) (Submitted (r_KeyID r0) (r_EventID r0) (CostInUSDTicks price))).
  { change (r_KeyID r1) with (r_KeyID r). change (r_EventID r1) with (r_EventID r). rewrite Hk, He, replicate_add.
    unfold price. destruct (pending r); [done|]. by rewrite (proj2 Hn (conj eq_refl eq_refl)). }
  specialize (Hm0 ltac:(done)). rewrite Hm, <- app_assoc, Hcalls.
  destruct (fst (attempt_settle 3 _ _ _ _ _)); eexists _, _, _; (split; [reflexivity|]);
    (split; [done|]); exists (n + m)%nat; (split; [reflexivity|]); (split; [lia|]); by intros [? ?].
Qed.

Lemma report_log us r0 r log0 log :
  (r_KeyID r0 =? 0) || is_empty (r_EventID r0) = false -> hold_log r0 r log0 log ->
  exists answers r' log', report us (Some r) log = (answers, Some r', log') /\ hold_log r0 r' log0 log'.
Proof.
  intros Hid. revert r log. induction us as [|u us IH]; intros r log Hl; [cbn; eauto|].
  cbn [report]. destruct (settle_usage_log u r0 r log0 log Hid Hl) as (a & r1 & log1 & -> & H1).
  destruct (IH r1 log1 H1) as (b & r2 & log2 & -> & H2). eauto.
Qed.

(** C39: a held request ends in exactly one of two ways: either nothing was
    submitted to the ledger and its hold is released, or its price was submitted
    and the hold is never released; all submissions of the request carry its key,
    its event and one and the same amount, whatever usages the handler reports,
    in whatever number, and whatever the ledger answers. *)
Theorem hold_is_released_or_settled gate us log0 r log result log1 :
  gate log0 = (Hold r, log) -> settled r = false -> pending r = false ->
  r_KeyID r <> 0 -> r_EventID r <> "" ->
  serve gate recorded_release (report us) log0 = (Some result, log1) ->
  log1 = log ++ [Released (r_KeyID r) (r_EventID r)]
  \/ exists n amount, log1 = log ++ replicate (Datatypes.S n) (Submitted (r_KeyID r) (r_EventID r) amount).
Proof.
  intros Hgate Hs Hp Hid Hev. unfold serve. rewrite Hgate.
  assert (Hok : (r_KeyID r =? 0) || is_empty (r_EventID r) = false).
  { apply orb_false_iff. split; [by apply Z.eqb_neq|by apply is_empty_false]. }
  destruct (report_log us r r log log Hok) as (a & r' & log' & -> & [[Hk He] (n & -> & Hn)]).
  { split; [done|]. exists 0%nat. cbn. by rewrite app_nil_r. }
  intros [= _ <-]. unfold finish. destruct (settled r' || pending r') eqn:E.
  - right. destruct n as [|n]; [|eauto]. exfalso. destruct (proj1 Hn eq_refl) as [H1 H2]. by rewrite H1, H2 in E.
  - left. apply orb_false_iff in E. rewrite (proj2 Hn E). cbn. by rewrite app_nil_r, Hk, He.
Qed.
End request.

(** A priced result submitted after an unconfirmed settlement carries its own
    price: the two submissions of one event differ. *)
Lemma media_result_changes_the_price :
  let r := mkReservation 7 "v2:0:req" 100 false false no_result in
  let answers := fun _ : nat => Some (Errorf "timeout") in
  let '(_, r', log) :=
    settle_usage answers (mkUsage "grok-4.6" UsageSourceUpstream false 10 0 1) r [] in
  let '(_, _, log') :=
    SettleAPIKeyBillingResult (Some (recorded_settle answers)) r' (mkResult "grok-imagine-image" 220000000) log in
  log = replicate 3 (Submitted 7 "v2:0:req" 260000)
  /\ log' = log ++ replicate 3 (Submitted 7 "v2:0:req" 220000000).
Proof. vm_compute. done. Qed.

(** ** The gate *)

(** the gate guards every billed request it can price: a request of a limited
    key to an inference path with a readable, valid body for a priced model
    reaches the handler only with a hold, which the ledger granted for this key
    and event and for a positive amount that covers any usage within the
    estimate; a refusal of the ledger answers 402 and an unavailable ledger 503,
    and in both cases the handler does not run. *)
Theorem gate_holds_before_the_handler {S A : Type} p (reserve : Z -> string -> Z -> instant -> S -> (bool + go_error) * S)
    release (next : option BillingReservation -> S -> A * option BillingReservation * S)
    ttl method path size v price ready now requestID s :
  readable size v -> size <> 0 ->
  p_ID p <> 0 -> 0 < p_BillingLimitUSDTicks p -> method = "POST" \/ method = "PUT" ->
  billingRequestPath path = true ->
  EstimateTextReservationFromBody size v = Some price ->
  let gate := APIKeyBillingReservation (Some p) (Some reserve) ttl method path (Body size (Some v)) ready now requestID in
  let asked := reserve (p_ID p) (EventID now requestID) (CostInUSDTicks price)
                 (Time.Add now (if ttl <=? 0 then DefaultBillingReservationTTL else ttl)) s in
  0 < CostInUSDTicks price
  /\ match ready, fst asked with
     | None, inl true =>
         gate s = (Hold (mkReservation (p_ID p) (EventID now requestID) (CostInUSDTicks price) false false no_result), snd asked)
     | None, inl false =>
         gate s = (Refuse 402 "API key billing limit exceeded" "billing_limit_exceeded", snd asked)
         /\ serve gate release next s = (None, snd asked)
     | None, inr _ => gate s = (billing_unavailable, snd asked) /\ serve gate release next s = (None, snd asked)
     | Some _, _ => gate s = (billing_unavailable, s) /\ serve gate release next s = (None, s)
     end.
Proof.
  intros Hread Hsize Hid Hlimit Hmethod Hpath Hprice gate asked.
  assert (Hpos : 0 < CostInUSDTicks price).
  { pose proof (reservation_positive size v price Hread Hprice) as H. exact H. }
  split; [exact Hpos|].
  assert (Hgate : gate s = if decide (ready = None) then
      match asked with
      | (inr _, s) => (billing_unavailable, s)
      | (inl false, s) => (Refuse 402 "API key billing limit exceeded" "billing_limit_exceeded", s)
      | (inl true, s) =>
          (Hold (mkReservation (p_ID p) (EventID now requestID) (CostInUSDTicks price) false false no_result), s)
      end else (billing_unavailable, s)).
  { unfold gate, APIKeyBillingReservation.
    rewrite (proj2 (Z.eqb_neq _ _) Hid), (proj2 (Z.leb_gt _ _) Hlimit), Hpath, (proj2 (Z.eqb_neq _ _) Hsize), Hprice.
    destruct Hmethod as [-> | ->]; reflexivity. }
  unfold serve. rewrite Hgate. destruct ready as [e|].
  - by rewrite decide_False.
  - rewrite decide_True by done. destruct asked as [[[]|e] s']; done.
Qed.

(** The gate looks for the member by its exact name: a limited key's request that
    spells it otherwise is passed on without a hold. *)
Lemma other_case_passes_unheld {S : Type} (reserve : Z -> string -> Z -> instant -> S -> (bool + go_error) * S) ttl now requestID s :
  APIKeyBillingReservation (Some (mkPrincipal 7 [] 0 1 "")) (Some reserve) ttl "POST" "/grok/v1/chat/completions"
    (Body 40 (Some (JObject [("Model", JString "grok-4.6")]))) None now requestID s = (PassThrough, s).
Proof. reflexivity. Qed.

(** ** Spending *)

Section spending.
Context (digest quoted : string -> string) (limit : Z) (Hlimit : 0 < limit < 2^53).

(** The ledger of one limited key under any number of requests: [now] is the
    second of the clock they share; a settlement comes while its hold is live and
    for no more than the amount held. *)
Inductive spending : Z -> ledger -> Prop :=
| sp_start now l :
    0 <= now -> l_reservations l = ∅ -> 0 <= used_of l <= limit -> limit_of l = limit -> spending now l
| sp_time now now' l : spending now l -> now <= now' -> spending now' l
| sp_reserve now l net fields t server id event amount expiresAt reserved l' :
    spending now l -> Time.Unix t = now ->
    fields ≡ₚ map_to_list (l_reservations (expire_keys server l)) ->
    amount < 10^14 -> now < Time.Unix expiresAt < 10^14 ->
    ReserveApiKeyBilling net fields t server id event amount expiresAt l = (reserved, l') ->
    spending now l'
| sp_settle now l net exists_ t server id event held amount err l' :
    spending now l -> holds_at now (expire_keys server l) !! event = Some held -> amount <= held ->
    KeyBilling.SettleApiKeyBilling digest quoted net exists_ t server id event amount l = (err, l') ->
    spending now l'
| sp_release now l net server id event released l' :
    spending now l -> ReleaseApiKeyBilling net server id event l = (released, l') -> spending now l'
| sp_reset now l net server id err l' :
    spending now l -> ResetApiKeyBilling net server id l = (err, l') -> spending now l'.

Record solvent (now : Z) (l : ledger) : Prop := {
  sv_now : 0 <= now;
  sv_limit : limit_of l = limit;
  sv_used : 0 <= used_of l;
  sv_holds : nonnegative (holds_at now l);
  sv_total : used_of l + sum_holds (holds_at now l) <= limit
}.

Lemma solvent_fewer now l l' :
  solvent now l -> limit_of l' = limit_of l -> 0 <= used_of l' <= used_of l ->
  holds_at now l' ⊆ holds_at now l -> solvent now l'.
Proof.
  intros [H0 Hl Hu Hn Ht] Hlim Hused Hsub. pose proof (sum_holds_submap _ _ Hn Hsub).
  split; [done|congruence|lia| |lia]. intros k n Hk. apply (Hn k). by apply (lookup_weaken (holds_at now l')).
Qed.

Lemma holds_at_submap now l l' :
  l_reservations l' ⊆ l_reservations l -> holds_at now l' ⊆ holds_at now l.
Proof. intros H. unfold holds_at. by apply map_omap_mono. Qed.

Lemma expire_keys_fields t l :
  limit_of (expire_keys t l) = limit_of l /\ l_reservations (expire_keys t l) ⊆ l_reservations l.
Proof.
  unfold expire_keys. destruct (match l_deadline l with Some _ => _ | None => _ end); [|done].
  split; [done|]. apply map_empty_subseteq.
Qed.

Lemma solvent_expire now t l : solvent now l -> solvent now (expire_keys t l).
Proof.
  intros H. destruct (expire_keys_fields t l) as [H1 H2]. pose proof (sv_used _ _ H).
  apply (solvent_fewer now l); [done|done|rewrite expire_keys_used; lia|by apply holds_at_submap].
Qed.

Lemma solvent_script now t net script l r l' :
  (solvent now (expire_keys t l) -> solvent now (snd (script (expire_keys t l)))) ->
  solvent now l -> run_script net script (expire_keys t l) = (r, l') -> solvent now l'.
Proof.
  intros Hs H Hrun. apply (solvent_expire now t) in H. specialize (Hs H). unfold run_script in Hrun.
  destruct net; [destruct (script (expire_keys t l)) as [[n|m] l1]|..]; injection Hrun as <- <-; done.
Qed.

Lemma solvent_reserve now fields event amount expires_at l :
  fields ≡ₚ map_to_list (l_reservations l) -> 0 < amount < 10^14 -> now < expires_at < 10^14 ->
  solvent now l -> solvent now (snd (reserveApiKeyBillingScript fields event amount now expires_at l)).
Proof.
  intros Hperm Ha He Hs. pose proof Hs as [H0 Hl Hu Hn Ht]. pose proof (sum_holds_nonneg _ Hn).
  destruct (reserve_refines fields event amount now expires_at l Hperm) as (Hspec & Hused & Hlim & _).
  { split; [lia..|done|lia|lia|lia]. }
  destruct (reserveApiKeyBillingScript _ _ _ _ _ _) as [r l']. cbn [fst snd] in *.
  unfold reserve_spec in Hspec. rewrite Hl in Hspec.
  destruct (holds_at now l !! event) as [held|] eqn:Ee.
  { apply pair_equal_spec in Hspec as [_ Hh]. split; rewrite ?Hh, ?Hused; lia || done. }
  destruct (0 <? limit) eqn:E1; [|apply Z.ltb_ge in E1; lia].
  destruct (limit <? _) eqn:E2; cbn [andb] in Hspec; apply pair_equal_spec in Hspec as [_ Hh]; to_prop.
  - split; rewrite ?Hh, ?Hused; lia || done.
  - split; rewrite ?Hh, ?Hused; [done|lia|done| |rewrite sum_holds_insert by done; lia].
    apply map_Forall_insert; [done|]. split; [lia|done].
Qed.

Lemma solvent_settle now net exists_ t server id event held amount l err l' :
  solvent now l -> holds_at now (expire_keys server l) !! event = Some held -> amount <= held ->
  KeyBilling.SettleApiKeyBilling digest quoted net exists_ t server id event amount l = (err, l') ->
  solvent now l'.
Proof.
  intros Hs Hheld Hle Hrun. pose proof (settle_keeps_limit digest quoted _ _ _ _ _ _ _ _ _ _ Hrun) as Hkept.
  pose proof (solvent_expire now server l Hs) as [H0 Hl0 Hu0 Hn0 Ht0]. rewrite expire_keys_used in Hu0, Ht0.
  assert (Hneg : amount < 0 -> l' = l).
  { intros Hneg. apply Z.ltb_lt in Hneg. revert Hrun. unfold KeyBilling.SettleApiKeyBilling. rewrite Hneg.
    destruct (_ || _); by intros [= _ <-]. }
  destruct (decide (amount < 0)) as [Ha|Ha]; [by rewrite Hneg|].
  assert (Hrestnn : nonnegative (delete event (holds_at now (expire_keys server l)))) by by apply map_Forall_delete.
  pose proof (sum_holds_nonneg _ Hrestnn) as Hrest. rewrite (sum_holds_delete _ _ _ Hheld) in Ht0.
  assert (Hf : fits amount l) by (unfold fits, max_int64; lia).
  destruct (settle_settled digest quoted _ _ _ _ _ _ _ _ _ _ Hrun Hf) as [Hset|[-> _]]; [|done].
  pose proof (sv_limit _ _ Hs) as Hlim.
  destruct Hset as [(_ & Hu & Hr & _)|(c & _ & _ & _ & _ & Hu & Hr)].
  - assert (Hh : holds_at now l' = holds_at now (expire_keys server l)) by (unfold holds_at; by rewrite Hr).
    split; rewrite ?Hh, ?Hu; [done|congruence|done|done|]. rewrite (sum_holds_delete _ _ _ Hheld). lia.
  - assert (Hh : holds_at now l' = delete event (holds_at now (expire_keys server l))).
    { unfold holds_at. by rewrite Hr, omap_delete. }
    split; rewrite ?Hh, ?Hu; [done|congruence|lia|done|lia].
Qed.

Lemma spending_solvent now l : spending now l -> solvent now l.
Proof.
  intros H. induction H as [now l Hnow Hres Hu Hl|now now' l _ IH Ht
    |now l net fields t server id event amount expiresAt res l' _ IH Hclock Hperm Ha He Hrun
    |now l net ex t server id event held amount err l' _ IH Hheld Hle Hrun
    |now l net server id event res l' _ IH Hrun|now l net server id err l' _ IH Hrun].
  - assert (Hh : holds_at now l = ∅) by (unfold holds_at; by rewrite Hres, omap_empty).
    split; rewrite ?Hh; [done|done|lia|apply map_Forall_empty|]. change (sum_holds ∅) with 0. lia.
  - pose proof (sv_used _ _ IH). pose proof (sv_now _ _ IH).
    destruct (solvent_fewer now l l IH eq_refl ltac:(lia) (reflexivity _)) as [_ Hl Hu Hn Htot].
    assert (Hsub : holds_at now' l ⊆ holds_at now l).
    { unfold holds_at. apply map_subseteq_spec. intros k n. rewrite !lookup_omap.
      destruct (l_reservations l !! k) as [[[held expiry]|]|]; [|done..]. cbn. intros Hk.
      destruct (expiry <=? now') eqn:E1; [done|]. destruct (expiry <=? now) eqn:E2; [to_prop; lia|done]. }
    pose proof (sum_holds_submap _ _ Hn Hsub). split; [lia|done|done| |lia].
    intros k n Hk. apply (Hn k). by apply (lookup_weaken (holds_at now' l)).
  - unfold ReserveApiKeyBilling in Hrun. destruct (_ || _); [by injection Hrun as <- <-|].
    destruct (amount <=? 0) eqn:Epos; [by injection Hrun as <- <-|]. destruct (Time.IsZero _); [by injection Hrun as <- <-|].
    destruct (run_script _ _ _) as [r l1] eqn:Er. injection Hrun as _ <-. rewrite Hclock in Er. to_prop.
    refine (solvent_script _ _ _ _ _ _ _ _ IH Er). apply solvent_reserve; [done|lia|lia].
  - by eapply solvent_settle.
  - unfold ReleaseApiKeyBilling in Hrun. destruct (_ || _); [by injection Hrun as <- <-|].
    destruct (run_script _ _ _) as [r l1] eqn:Er. injection Hrun as _ <-.
    refine (solvent_script _ _ _ _ _ _ _ _ IH Er). intros Hs. pose proof (sv_used _ _ Hs).
    apply (solvent_fewer now _ _ Hs); [done|by split|]. apply holds_at_submap.
    cbn [snd releaseApiKeyBillingScript]. rewrite drop_hold_reservations. apply delete_subseteq.
  - unfold ResetApiKeyBilling in Hrun. destruct (_ =? 0); [by injection Hrun as <- <-|].
    destruct (run_script _ _ _) as [r l1] eqn:Er. injection Hrun as _ <-.
    refine (solvent_script _ _ _ _ _ _ _ _ IH Er). intros Hs. pose proof (sv_used _ _ Hs).
    apply (solvent_fewer now _ _ Hs); [done|by split|]. apply holds_at_submap. apply map_empty_subseteq.
Qed.

(** C3: a limited key is never overspent: however many requests of one key
    reserve, settle and release at once, on any number of replicas and with any
    replies lost, so long as each settles while its hold is live and for no more
    than it holds, the settled usage and all live holds together stay within the
    limit at all times. *)
Theorem spending_stays_within_limit now l :
  spending now l ->
  0 <= used_of l <= limit /\ used_of l + sum_holds (holds_at now l) <= limit.
Proof.
  intros H. destruct (spending_solvent now l H) as [_ _ Hu Hn Ht]. pose proof (sum_holds_nonneg _ Hn). lia.
Qed.
End spending.

(** * Witnesses *)

Definition demo_key : APIKeyPrincipal := mkPrincipal 7 [] 0 1000 "".
Definition demo_body : json := JObject [("model", JString "grok-4.6"); ("max_tokens", JNumber "7")].
Definition demo_usage : usage := mkUsage "grok-4.6" UsageSourceUpstream false 10 0 1.

(** A store that grants every hold and keeps the calls. *)
Definition granting (key : Z) (event : string) (amount : Z) (_ : instant) (log : list call)
    : (bool + go_error) * list call := (inl true, log).

Definition demo_gate : list call -> admission * list call :=
  APIKeyBillingReservation (Some demo_key) (Some granting) 0 "POST" "/grok/v1/chat/completions"
    (Body 50 (Some demo_body)) None minute_one "req".

Lemma hold_is_released_or_settled_witness :
  exists n amount,
    snd (serve demo_gate recorded_release (report (fun _ => None) [demo_usage; demo_usage]) [])
    = [] ++ replicate (Datatypes.S n) (Submitted 7 demo_event amount).
Proof.
  assert (E : demo_gate [] = (Hold (mkReservation 7 demo_event 5540000 false false no_result), []))
    by (vm_compute; reflexivity).
  destruct (serve demo_gate recorded_release (report (fun _ => None) [demo_usage; demo_usage]) [])
    as [[result|] log1] eqn:Hrun.
  - destruct (hold_is_released_or_settled (fun _ => None) demo_gate [demo_usage; demo_usage] [] _ [] result log1 E
                eq_refl eq_refl ltac:(discriminate) ltac:(vm_compute; discriminate) Hrun) as [H|H].
    + exfalso. subst log1. revert Hrun. vm_compute. discriminate.
    + exact H.
  - exfalso. revert Hrun. vm_compute. discriminate.
Defined.

Lemma gate_holds_before_the_handler_witness :
  demo_gate [] = (Hold (mkReservation 7 demo_event 5540000 false false no_result), []).
Proof.
  destruct (gate_holds_before_the_handler (A := unit) demo_key granting (fun _ _ log => (inl true, log))
              (fun r log => (tt, r, log)) 0 "POST" "/grok/v1/chat/completions" 50 demo_body
              (mkResult "grok-4.6" 5540000) None minute_one "req" []) as [_ H].
  - unfold readable; cbn; lia.
  - discriminate.
  - discriminate.
  - reflexivity.
  - by left.
  - vm_compute. reflexivity.
  - vm_compute. reflexivity.
  - exact H.
Defined.

Definition reserved_ledger : ledger :=
  snd (ReserveApiKeyBilling Delivered [] minute_one 60000 7 demo_event 600 (minute_one + Hour) limited_ledger).
Definition settled_ledger : ledger :=
  snd (KeyBilling.SettleApiKeyBilling id id (ReplyLost (Errorf "timeout")) true minute_one 61000 7 demo_event 450
         reserved_ledger).

(** A key with a limit of 1,000 ticks holds 600 and settles 450 of them. *)
Lemma spending_stays_within_limit_witness :
  spending id id 1000 60 settled_ledger
  /\ used_of settled_ledger + sum_holds (holds_at 60 settled_ledger) <= 1000.
Proof.
  assert (H : spending id id 1000 60 settled_ledger).
  { refine (sp_settle _ _ _ 60 reserved_ledger (ReplyLost (Errorf "timeout")) true minute_one 61000 7 demo_event 600 450
              (Some (Errorf "timeout")) _ _ _ _ _).
    - refine (sp_reserve _ _ _ 60 limited_ledger Delivered [] minute_one 60000 7 demo_event 600 (minute_one + Hour)
                (inl true) _ _ _ _ _ _ _).
      + apply sp_start; [lia|reflexivity|vm_compute; intuition discriminate|reflexivity].
      + vm_compute. reflexivity.
      + reflexivity.
      + lia.
      + vm_compute. intuition discriminate.
      + vm_compute. reflexivity.
    - vm_compute. reflexivity.
    - lia.
    - vm_compute. reflexivity. }
  split; [exact H|]. by destruct (spending_stays_within_limit id id 1000 ltac:(lia) 60 settled_ledger H).
Defined.
