(* ===== verification/ApiKeys.v ===== *)
(** Client API keys in Redis ([internal/store/redis_api_keys.go],
    [store_api_keys.go], [api_key_secrets.go]): the rows with their hash index,
    limit mirror and usage counters, the optimistic row mutation, the lookup by
    hash with its process-local index, the per-minute limit, the billing period
    and the authorization of a client's key.

    A call is a sequence of Redis commands.  Before each of them, and before each
    section under a mutex, everybody else may act: [other] is what they do,
    [wire] whether the command is answered. *)

From Stdlib Require Import Ascii.
From S2P Require Import Prelude Json AccountCodec Pricing KeyBilling.

(** * The data *)

Record apiKeyRecord := mkRecord {
  r_EncryptedSecret : string;
  r_ID : Z;
  r_Name : string;
  r_KeyHash : string;
  r_KeyPrefix : string;
  r_KeySuffix : string;
  r_Enabled : bool;
  r_AllowedModels : list string;
  r_RPMLimit : Z;
  r_MaxConcurrent : Z;
  r_BillingLimitUSDTicks : Z;
  r_BillingUsedUSDTicks : Z;
  r_BillingPeriodDays : Z;
  r_BillingPeriodStartedAt : instant;
  r_ExpiresAt : option instant;
  r_LastUsedAt : option instant;
  r_CreatedAt : instant
}.

#[export] Instance record_eta : Eta apiKeyRecord := fun r =>
  mkRecord (r_EncryptedSecret r) (r_ID r) (r_Name r) (r_KeyHash r) (r_KeyPrefix r) (r_KeySuffix r) (r_Enabled r)
    (r_AllowedModels r) (r_RPMLimit r) (r_MaxConcurrent r) (r_BillingLimitUSDTicks r) (r_BillingUsedUSDTicks r)
    (r_BillingPeriodDays r) (r_BillingPeriodStartedAt r) (r_ExpiresAt r) (r_LastUsedAt r) (r_CreatedAt r).

Record ApiKey := mkApiKey {
  k_ID : Z;
  k_Name : string;
  k_KeyHash : string;
  k_KeyFull : string;
  k_KeyPrefix : string;
  k_SecretAvailable : bool;
  k_KeySuffix : string;
  k_Enabled : bool;
  k_AllowedModels : list string;
  k_RPMLimit : Z;
  k_MaxConcurrent : Z;
  k_BillingLimitUSDTicks : Z;
  k_BillingUsedUSDTicks : Z;
  k_BillingPeriodDays : Z;
  k_BillingPeriodStartedAt : instant;
  k_ExpiresAt : option instant;
  k_LastUsedAt : option instant;
  k_CreatedAt : instant
}.

#[export] Instance key_eta : Eta ApiKey := fun k =>
  mkApiKey (k_ID k) (k_Name k) (k_KeyHash k) (k_KeyFull k) (k_KeyPrefix k) (k_SecretAvailable k) (k_KeySuffix k)
    (k_Enabled k) (k_AllowedModels k) (k_RPMLimit k) (k_MaxConcurrent k) (k_BillingLimitUSDTicks k)
    (k_BillingUsedUSDTicks k) (k_BillingPeriodDays k) (k_BillingPeriodStartedAt k) (k_ExpiresAt k) (k_LastUsedAt k)
    (k_CreatedAt k).

Definition apiKeyRecordFromKey (key : ApiKey) : apiKeyRecord :=
  mkRecord "" (k_ID key) (k_Name key) (k_KeyHash key) (k_KeyPrefix key) (k_KeySuffix key) (k_Enabled key)
    (k_AllowedModels key) (k_RPMLimit key) (k_MaxConcurrent key) (k_BillingLimitUSDTicks key)
    (k_BillingUsedUSDTicks key) (k_BillingPeriodDays key) (k_BillingPeriodStartedAt key) (k_ExpiresAt key)
    (k_LastUsedAt key) (k_CreatedAt key).

Definition toApiKey (r : apiKeyRecord) : ApiKey :=
  mkApiKey (r_ID r) (r_Name r) (r_KeyHash r) "" (r_KeyPrefix r) (negb (is_empty (r_EncryptedSecret r)))
    (r_KeySuffix r) (r_Enabled r) (r_AllowedModels r) (r_RPMLimit r) (r_MaxConcurrent r)
    (r_BillingLimitUSDTicks r) (r_BillingUsedUSDTicks r) (r_BillingPeriodDays r) (r_BillingPeriodStartedAt r)
    (r_ExpiresAt r) (r_LastUsedAt r) (r_CreatedAt r).

(** * The database *)

(** A stored row: what it says, and whether Go still decodes it.  Go writes rows
    it can read; a script re-encodes every number of the row. *)
Record row := mkRow {
  w_record : apiKeyRecord;
  w_readable : bool
}.

(** [s_writes] counts the writes to a row's key: what [WATCH] notices. *)
Record keystore := mkKeystore {
  s_next : Z;                               (* api_keys:next_id *)
  s_ids : gset Z;                           (* api_keys:ids *)
  s_rows : gmap Z row;                      (* api_keys:id:<id> *)
  s_writes : Z -> Z;
  s_index : gmap string Z;                  (* api_keys:hash:<hash> *)
  s_ledgers : Z -> ledger;                  (* keybilling:*:<id> *)
  s_rpm : gmap (Z * Z) (Z * Z)              (* api_keys:rpm:<id>:<minute>: count, expiry ms *)
}.

#[export] Instance keystore_eta : Eta keystore := fun s =>
  mkKeystore (s_next s) (s_ids s) (s_rows s) (s_writes s) (s_index s) (s_ledgers s) (s_rpm s).

Definition at_key {A} (id : Z) (a : A) (f : Z -> A) : Z -> A := fun k => if k =? id then a else f k.

Definition touch_row (id : Z) (s : keystore) : keystore :=
  s <| s_writes := at_key id (s_writes s id + 1) (s_writes s) |>.

Definition put_row (id : Z) (w : row) (s : keystore) : keystore :=
  touch_row id (s <| s_rows := <[id := w]> (s_rows s) |>).

Definition del_row (id : Z) (s : keystore) : keystore :=
  touch_row id (s <| s_rows := delete id (s_rows s) |>).

Definition put_ledger (id : Z) (l : ledger) (s : keystore) : keystore :=
  s <| s_ledgers := at_key id l (s_ledgers s) |>.

(** The limit mirror. *)
Definition put_limit (id limit : Z) (s : keystore) : keystore :=
  put_ledger id ((s_ledgers s id) <| l_limit := Some limit |>) s.

(** * Commands, sections and their interleaving *)

(** A process's own memory beside the database. *)
Record world := mkWorld {
  w_keys : keystore;
  w_keyIndex : gmap string Z;
  w_keyTouches : gmap Z instant
}.

#[export] Instance world_eta : Eta world := fun w => mkWorld (w_keys w) (w_keyIndex w) (w_keyTouches w).

(** A command or pipeline is answered, or breaks after [ran] of its commands
    took effect. *)
Inductive wire := Answered | Broken (ran : nat) (err : go_error).

Section keys.
Context (other : nat -> world -> world) (net : nat -> wire) (clock : nat -> Z).

(** A call started at its [i]-th command: what it returns, the index of its next
    command and the world it leaves. *)
Definition M (A : Type) : Type := nat -> world -> A * nat * world.

Definition ret {A} (a : A) : M A := fun i w => (a, i, w).
Definition bind {A B} (m : M A) (f : A -> M B) : M B := fun i w => let '(a, i, w) := m i w in f a i w.
(** [if err != nil { return err }]. *)
Definition bind_ok {A B} (m : M (A + go_error)) (f : A -> M (B + go_error)) : M (B + go_error) :=
  bind m (fun a => match a with inl a => f a | inr err => ret (inr err) end).

(** A section under a mutex. *)
Definition section {A} (f : world -> A * world) : M A := fun i w =>
  let '(a, w) := f (other i w) in (a, S i, w).

(** A command, script or transaction: [f] gets the server's clock in
    milliseconds. *)
Definition command {A} (f : Z -> keystore -> (A + go_error) * keystore) : M (A + go_error) := fun i w =>
  let w := other i w in
  match net i with
  | Broken O err => (inr err, S i, w)
  | Broken (S _) err => (inr err, S i, w <| w_keys := snd (f (clock i) (w_keys w)) |>)
  | Answered => let '(a, s) := f (clock i) (w_keys w) in (a, S i, w <| w_keys := s |>)
  end.

Definition read {A} (f : keystore -> A) : M (A + go_error) := command (fun _ s => (inl (f s), s)).

(** The commands of a pipeline, one after the other, others between them. *)
Fixpoint run_each (fs : list (keystore -> keystore)) (i : nat) (w : world) : nat * world :=
  match fs with
  | [] => (i, w)
  | f :: fs => let w := other i w in run_each fs (S i) (w <| w_keys := f (w_keys w) |>)
  end.

Definition pipeline (fs : list (keystore -> keystore)) : M (option go_error) := fun i w =>
  match net i with
  | Answered => let '(j, w) := run_each fs i w in (None, j, w)
  | Broken n err => let '(j, w) := run_each (take n fs) i w in (Some err, S j, w)
  end.

(** * The store *)

Context {Aead : AEAD} {B64 : Base64}.
(** The cipher of the secrets is configured; the nonce it draws; the hexadecimal
    SHA-256 of a secret; what Go reads back of an integer that the scripts
    re-encoded, and whether it reads it as an integer at all. *)
Context (keySecrets : bool) (nonce : string + go_error) (digest : string -> string) (rewrite_int : Z -> Z * bool).
(** [time.Time]'s decoding of a text. *)
Context (parse_time : string -> option instant).

Notation "'let!' x ':=' e 'in' k" := (bind e (fun x => k))
  (at level 10, x name, e at level 100, k at level 200) : go_scope.
Notation "'try!' x ':=' e 'in' k" := (bind_ok e (fun x => k))
  (at level 10, x name, e at level 100, k at level 200) : go_scope.

Definition badJSON : go_error := Errorf "json: cannot unmarshal into Go struct field".
Definition notFound : go_error := Errorf "api key not found".

(** ** Rows *)

(** A row the scripts wrote back. *)
Definition rewritten (w : row) (r : apiKeyRecord) : row :=
  let ints := [r_ID r; r_RPMLimit r; r_MaxConcurrent r; r_BillingLimitUSDTicks r; r_BillingUsedUSDTicks r;
               r_BillingPeriodDays r] in
  let int n := fst (rewrite_int n) in
  mkRow
    (r <| r_ID := int (r_ID r) |> <| r_RPMLimit := int (r_RPMLimit r) |>
       <| r_MaxConcurrent := int (r_MaxConcurrent r) |> <| r_BillingLimitUSDTicks := int (r_BillingLimitUSDTicks r) |>
       <| r_BillingUsedUSDTicks := int (r_BillingUsedUSDTicks r) |>
       <| r_BillingPeriodDays := int (r_BillingPeriodDays r) |>)
    (w_readable w && forallb (fun n => snd (rewrite_int n)) ints).

(** [json.Unmarshal] of a row. *)
Definition decode (w : row) : apiKeyRecord + go_error :=
  if w_readable w then inl (w_record w) else inr badJSON.

(** ** Creating, reading and listing *)

Definition sealApiKey (secret : string) : string + go_error :=
  if keySecrets then encrypt true nonce secret else inr (Errorf "API key encryption is unavailable").

(** The transaction that stores a new row. *)
Definition create_row (id : Z) (record : apiKeyRecord) (s : keystore) : keystore :=
  let s := put_row id (mkRow record true) s in
  let s := s <| s_ids := {[id]} ∪ s_ids s |> in
  let s := if is_empty (r_KeyHash record) then s else s <| s_index := <[r_KeyHash record := id]> (s_index s) |> in
  let s := put_limit id (r_BillingLimitUSDTicks record) s in
  if 0 <? r_BillingUsedUSDTicks record
  then put_ledger id ((s_ledgers s id) <| l_used := Some (r_BillingUsedUSDTicks record) |>) s else s.

(** Its error and the caller's key after it. *)
Definition CreateApiKey (now : instant) (key : ApiKey) : M (option go_error * ApiKey) :=
  let! next := command (fun _ s =>
    let n := s_next s + 1 in
    if n <=? max_int64 then (inl n, s <| s_next := n |>)
    else (inr (Errorf "ERR increment or decrement would overflow"), s)) in
  match next with
  | inr err => ret (Some err, key)
  | inl id =>
      let key := key <| k_ID := id |> in
      let key := if Time.IsZero (k_CreatedAt key) then key <| k_CreatedAt := now |> else key in
      let record := apiKeyRecordFromKey key in
      match (if is_empty (k_KeyFull key) then inl (record, key)
             else match sealApiKey (k_KeyFull key) with
                  | inl sealed => inl (record <| r_EncryptedSecret := sealed |>, key <| k_SecretAvailable := true |>)
                  | inr err => inr err
                  end) with
      | inr err => ret (Some err, key)
      | inl (record, key) =>
          let! done := command (fun _ s => (inl tt, create_row id record s)) in
          ret (match done with inl _ => None | inr err => Some err end, key)
      end
  end.

(** The key of a row that was read together with the usage counter. *)
Definition read_key (id : Z) (w : row) (used : option Z) : ApiKey + go_error :=
  match decode w with
  | inr err => inr err
  | inl record =>
      let key := toApiKey record in
      let key := if k_ID key =? 0 then key <| k_ID := id |> else key in
      inl (match used with Some used => key <| k_BillingUsedUSDTicks := used |> | None => key end)
  end.

Definition getApiKeyByID (id : Z) : M (ApiKey + go_error) :=
  if id =? 0 then ret (inr ErrNoRows)
  else
    try! value := read (fun s => s_rows s !! id) in
    try! used := read (fun s => l_used (s_ledgers s id)) in
    ret (match value with
         | None => inr ErrNoRows
         | Some w => read_key id w used
         end).

(** The rows and counters come in one pipeline of two [MGET]s. *)
Definition getApiKeysByIDs (ids : list Z) : M (list ApiKey + go_error) :=
  match merge_sort (≤)%Z ids with
  | [] => ret (inl [])
  | idNums =>
      try! values := read (fun s => (fun id => s_rows s !! id) <$> idNums) in
      try! used := read (fun s => (fun id => l_used (s_ledgers s id)) <$> idNums) in
      let decode_at '(id, (value, used)) :=
        match value with
        | None => inl None
        | Some w => match read_key id w used with
                    | inl key => inl (Some key)
                    | inr err => inr (Errorf ("decode API key #" +:+ Itoa id +:+ ": " +:+ err_text err))
                    end
        end in
      let results := decode_at <$> zip idNums (zip values used) in
      match errors_Join ((fun r => match r with inl _ => None | inr err => Some err end) <$> results) with
      | Some err => ret (inr err)
      | None => ret (inl (omap (fun r => match r with inl key => key | inr _ => None end) results))
      end
  end.

Definition ListApiKeys : M (list ApiKey + go_error) :=
  try! ids := read s_ids in
  getApiKeysByIDs (elements ids).

(** ** The optimistic mutation *)

(** The transaction that replaces a row read with hash [oldHash]. *)
Definition commit_row (id : Z) (oldHash : string) (r : apiKeyRecord) (s : keystore) : keystore :=
  let s := put_row id (mkRow r true) s in
  let s := if String.eqb oldHash (r_KeyHash r) then s
           else s <| s_index := <[r_KeyHash r := id]> (delete oldHash (s_index s)) |> in
  put_limit id (r_BillingLimitUSDTicks r) s.

(** One attempt: the committed row, or [None] when the row was written since
    [WATCH]. *)
Definition mutate_attempt (id : Z) (change : apiKeyRecord -> apiKeyRecord + go_error)
    : M (option apiKeyRecord + go_error) :=
  try! watched := read (fun s => s_writes s id) in
  try! value := read (fun s => s_rows s !! id) in
  match value with
  | None => ret (inr ErrNoRows)
  | Some w =>
      match decode w with
      | inr err => ret (inr err)
      | inl r =>
          match change r with
          | inr err => ret (inr err)
          | inl r' =>
              command (fun _ s =>
                if s_writes s id =? watched then (inl (Some r'), commit_row id (r_KeyHash r) r' s)
                else (inl None, s))
          end
      end
  end.

Fixpoint mutate_loop (n : nat) (id : Z) (change : apiKeyRecord -> apiKeyRecord + go_error)
    : M (apiKeyRecord + go_error) :=
  match n with
  | O => ret (inr (Errorf "API key changed concurrently; retry the operation"))
  | S n =>
      try! committed := mutate_attempt id change in
      match committed with
      | Some r => ret (inl r)
      | None => mutate_loop n id change
      end
  end.

Definition mutateApiKey (id : Z) (change : apiKeyRecord -> apiKeyRecord + go_error) : M (apiKeyRecord + go_error) :=
  mutate_loop 8 id change.

(** [UpdateApiKey] keeps the identity of a row that bears a secret. *)
Definition update_change (key : ApiKey) (current : apiKeyRecord) : apiKeyRecord + go_error :=
  let next := apiKeyRecordFromKey key in
  let next := if is_empty (r_EncryptedSecret current) then next
              else next <| r_KeyHash := r_KeyHash current |> <| r_KeyPrefix := r_KeyPrefix current |>
                        <| r_KeySuffix := r_KeySuffix current |> in
  inl (next <| r_EncryptedSecret := r_EncryptedSecret current |>).

Definition UpdateApiKey (key : ApiKey) : M (option go_error) :=
  if k_ID key =? 0 then ret (Some ErrNoRows)
  else
    let! committed := mutateApiKey (k_ID key) (update_change key) in
    ret (match committed with inl _ => None | inr err => Some err end).

Definition rotate_change (secret sealed : string) (r : apiKeyRecord) : apiKeyRecord + go_error :=
  inl (r <| r_KeyHash := digest secret |> <| r_EncryptedSecret := sealed |> <| r_KeyPrefix := "sk-" |>
         <| r_KeySuffix := drop_bytes (String.length secret - 4) secret |>).

Definition RotateApiKey (id : Z) (secret : string) : M (ApiKey + go_error) :=
  if (String.length secret <? 7)%nat then ret (inr (Errorf "invalid API key secret"))
  else
    match sealApiKey secret with
    | inr err => ret (inr err)
    | inl sealed =>
        try! committed := mutateApiKey id (rotate_change secret sealed) in
        ret (inl (toApiKey committed))
    end.

(** Decoding a field of a patch into the row; [null] leaves a flag, a number or a
    list element as it is and clears a list or an optional time. *)
Definition decode_bool (v : json) (old : bool) : option bool :=
  match v with JBool b => Some b | JNull => Some old | _ => None end.
Definition decode_int (v : json) (old : Z) : option Z :=
  match v with JNumber literal => ParseInt literal | JNull => Some old | _ => None end.
Definition decode_time (v : json) : option (option instant) :=
  match v with JString text => Some <$> parse_time text | JNull => Some None | _ => None end.
Fixpoint decode_elements (vs : list json) (old : list string) : option (list string) :=
  match vs with
  | [] => Some []
  | v :: vs =>
      match (match v with JString model => Some model | JNull => Some (default "" (head old)) | _ => None end),
            decode_elements vs (tail old) with
      | Some model, Some models => Some (model :: models)
      | _, _ => None
      end
  end.
Definition decode_list (v : json) (old : list string) : option (list string) :=
  match v with JArray vs => decode_elements vs old | JNull => Some [] | _ => None end.

Definition patch_field (name : string) (v : json) (r : apiKeyRecord) : option apiKeyRecord :=
  if String.eqb name "enabled" then (fun b => r <| r_Enabled := b |>) <$> decode_bool v (r_Enabled r)
  else if String.eqb name "allowed_models" then
    (fun l => r <| r_AllowedModels := l |>) <$> decode_list v (r_AllowedModels r)
  else if String.eqb name "rpm_limit" then (fun n => r <| r_RPMLimit := n |>) <$> decode_int v (r_RPMLimit r)
  else if String.eqb name "max_concurrent" then
    (fun n => r <| r_MaxConcurrent := n |>) <$> decode_int v (r_MaxConcurrent r)
  else if String.eqb name "expires_at" then (fun t => r <| r_ExpiresAt := t |>) <$> decode_time v
  else if String.eqb name "billing_limit_usd_ticks" then
    (fun n => r <| r_BillingLimitUSDTicks := n |>) <$> decode_int v (r_BillingLimitUSDTicks r)
  else (fun n => r <| r_BillingPeriodDays := n |>) <$> decode_int v (r_BillingPeriodDays r).

Definition patchable : list string :=
  ["enabled"; "allowed_models"; "rpm_limit"; "max_concurrent"; "expires_at"; "billing_limit_usd_ticks";
   "billing_period_days"].

Definition patch_change (fields : list (string * json)) (r : apiKeyRecord) : apiKeyRecord + go_error :=
  match foldr (fun '(name, v) r => r ≫= patch_field name v) (Some r) fields with
  | Some r => inl r
  | None => inr badJSON
  end.

(** [PatchApiKey]: [fields] are the entries of the map. *)
Definition PatchApiKey (id : Z) (fields : list (string * json)) : M (option go_error) :=
  if forallb (fun name => str_in name patchable) fields.*1 then
    let! committed := mutateApiKey id (patch_change fields) in
    ret (match committed with inl _ => None | inr err => Some err end)
  else ret (Some (Errorf "unsupported API key policy field")).

(** ** Deleting *)

(** [DEL] of a key's holds, usage, settled hash and limit; its receipts stay. *)
Definition del_ledger (id : Z) (s : keystore) : keystore :=
  put_ledger id ((s_ledgers s id) <| l_reservations := ∅ |> <| l_deadline := None |> <| l_used := None |>
                   <| l_legacy := None |> <| l_limit := None |>) s.

Definition DeleteApiKey (id : Z) : M (option go_error) :=
  if id =? 0 then ret (Some ErrNoRows)
  else
    let! found := getApiKeyByID id in
    match found with
    | inr err => ret (Some err)
    | inl key =>
        pipeline
          ([del_row id; fun s => s <| s_ids := s_ids s ∖ {[id]} |>]
           ++ (if is_empty (k_KeyHash key) then [] else [fun s => s <| s_index := delete (k_KeyHash key) (s_index s) |>])
           ++ [del_ledger id])
    end.

(** ** Secrets *)

Definition GetApiKeySecret (id : Z) : M (string + go_error) :=
  try! value := read (fun s => s_rows s !! id) in
  ret (match value with
       | None => inr ErrNoRows
       | Some w =>
           match decode w with
           | inr err => inr err
           | inl r =>
               if is_empty (r_EncryptedSecret r) then inr (Errorf "API key secret unavailable")
               else if negb (HasPrefix (r_EncryptedSecret r) encryptedCredentialPrefix)
               then inr (Errorf "API key ciphertext is invalid")
               else if negb keySecrets then inr (Errorf "API key encryption is unavailable")
               else
                 match decrypt true (r_EncryptedSecret r) with
                 | inr _ => inr (Errorf "API key decryption failed")
                 | inl secret =>
                     if String.eqb (digest secret) (r_KeyHash r) then inl secret
                     else inr (Errorf "API key secret integrity check failed")
                 end
           end
       end).

(** ** Looking a key up by its hash *)

Definition maxKeyIndex : Z := 4096.

Definition remember (hash : string) (id : Z) (w : world) : unit * world :=
  (tt, w <| w_keyIndex :=
         <[hash := id]> (if maxKeyIndex <=? Z.of_nat (size (w_keyIndex w)) then ∅ else w_keyIndex w) |>).

Definition forget (hash : string) (w : world) : unit * world :=
  (tt, w <| w_keyIndex := delete hash (w_keyIndex w) |>).

(** By the index in the database. *)
Definition lookup_index (hash : string) : M (ApiKey + go_error) :=
  try! found := read (fun s => s_index s !! hash) in
  match found with
  | None => ret (inr ErrNoRows)
  | Some id =>
      try! key := getApiKeyByID id in
      if String.eqb (k_KeyHash key) hash then
        let! _ := section (remember hash id) in ret (inl key)
      else ret (inr ErrNoRows)
  end.

Definition GetApiKeyByHash (hash : string) : M (ApiKey + go_error) :=
  let hash := TrimSpace hash in
  if is_empty hash then ret (inr ErrNoRows)
  else
    let! cachedID := section (fun w => (default 0 (w_keyIndex w !! hash), w)) in
    if cachedID =? 0 then lookup_index hash
    else
      let! cached := getApiKeyByID cachedID in
      let stale := let! _ := section (forget hash) in lookup_index hash in
      match cached with
      | inl key => if String.eqb (k_KeyHash key) hash then ret (inl key) else stale
      | inr err => if decide (err = ErrNoRows) then stale else ret (inr err)
      end.

(** ** The scripts on a row *)

(** [consumeApiKeyRPMScript]; Redis drops counters whose time has passed. *)
Definition consumeApiKeyRPMScript (id minute : Z) (now : instant) (limit server : Z) (s : keystore)
    : (Z + go_error) * keystore :=
  match s_rows s !! id with
  | None => (inr notFound, s)
  | Some w =>
      let s := put_row id (rewritten w ((w_record w) <| r_LastUsedAt := Some now |>)) s in
      if limit <=? 0 then (inl 0, s)
      else
        let live := match s_rpm s !! (id, minute) with
                    | Some (count, expiry) => if expiry <=? server then None else Some (count, expiry)
                    | None => None
                    end in
        let '(count, expiry) := match live with
                                | Some (count, expiry) => (count + 1, expiry)
                                | None => (1, server + 120000)
                                end in
        (inl count, s <| s_rpm := <[(id, minute) := (count, expiry)]> (s_rpm s) |>)
  end.

Definition touchApiKeyLastUsedScript (id : Z) (now : instant) (s : keystore) : (Z + go_error) * keystore :=
  match s_rows s !! id with
  | None => (inr notFound, s)
  | Some w => (inl 1, put_row id (rewritten w ((w_record w) <| r_LastUsedAt := Some now |>)) s)
  end.

(** The text of an instant of the year 1 begins with "0001-". *)
Definition year_one (t : instant) : bool := (0 <=? t) && (t <? 365 * (24 * Hour)).

(** [rolloverApiKeyBillingScript]; [expected] is [None] for the empty text. *)
Definition rolloverApiKeyBillingScript (id : Z) (expected : option instant) (now : instant) (days : Z) (s : keystore)
    : (Z + go_error) * keystore :=
  match s_rows s !! id with
  | None => (inr notFound, s)
  | Some w =>
      let r := w_record w in
      let start := r_BillingPeriodStartedAt r in
      if negb (lua_number (r_BillingPeriodDays r) =? lua_number days) then (inl 0, s)
      else if negb (match expected with None => year_one start | Some e => start =? e end) then (inl 0, s)
      else
        let s := put_row id (rewritten w (r <| r_BillingPeriodStartedAt := now |>)) s in
        (inl 1, put_ledger id ((s_ledgers s id) <| l_used := Some 0 |> <| l_legacy := None |>) s)
  end.

(** ** Limits and periods *)

(** Whether the request is within the limit of its minute. *)
Definition ConsumeApiKeyRPM (id limit : Z) (now : instant) : M (bool + go_error) :=
  if id =? 0 then ret (inr ErrNoRows)
  else
    let minute := Z.quot (Time.Unix now) 60 in
    try! count := command (consumeApiKeyRPMScript id minute now limit) in
    ret (inl (count <=? limit)).

Definition TouchApiKeyLastUsed (id : Z) (now : instant) : M (option go_error) :=
  if id =? 0 then ret (Some ErrNoRows)
  else
    let! done := command (fun _ => touchApiKeyLastUsedScript id now) in
    ret (match done with inl _ => None | inr err => Some err end).

(** [AddDate(0, 0, days)] in UTC. *)
Definition AddDays (t : instant) (days : Z) : instant := t + days * (24 * Hour).

Definition RolloverApiKeyBilling (key : ApiKey) (now : instant) : M (bool + go_error) :=
  if k_ID key =? 0 then ret (inr ErrNoRows)
  else if k_BillingPeriodDays key <=? 0 then ret (inl false)
  else
    let started := k_BillingPeriodStartedAt key in
    if negb (Time.IsZero started) && Time.Before now (AddDays started (k_BillingPeriodDays key)) then ret (inl false)
    else
      let expected := if Time.IsZero started then None else Some started in
      try! rolled := command (fun _ => rolloverApiKeyBillingScript (k_ID key) expected now (k_BillingPeriodDays key)) in
      ret (inl (rolled =? 1)).

(** ** Authorization *)

(** [Store.rolloverApiKeyBilling]: the caller's key after it. *)
Definition rolloverApiKeyBilling (key : ApiKey) (now : instant) : M ApiKey :=
  if k_BillingPeriodDays key <=? 0 then ret key
  else
    let! rolled := RolloverApiKeyBilling key now in
    ret (match rolled with
         | inl true => key <| k_BillingUsedUSDTicks := 0 |> <| k_BillingPeriodStartedAt := now |>
         | _ => key
         end).

Definition maxKeyTouches : Z := 65536.

(** Whether this touch is due, and the time noted for it. *)
Definition note_touch (id : Z) (now : instant) (w : world) : bool * world :=
  let previous := default Time.zero (w_keyTouches w !! id) in
  if negb (Time.IsZero previous) && (Time.Sub now previous <? Minute) then (false, w)
  else
    let touches := if maxKeyTouches <=? Z.of_nat (size (w_keyTouches w)) then ∅ else w_keyTouches w in
    (true, w <| w_keyTouches := <[id := now]> touches |>).

Definition drop_touch (id : Z) (now : instant) (w : world) : unit * world :=
  (tt, if Time.Equal (default Time.zero (w_keyTouches w !! id)) now
       then w <| w_keyTouches := delete id (w_keyTouches w) |> else w).

Definition touchApiKeyCoalesced (id : Z) (now : instant) : M (option go_error) :=
  let! due := section (note_touch id now) in
  if due then
    let! failed := TouchApiKeyLastUsed id now in
    match failed with
    | Some err => let! _ := section (drop_touch id now) in ret (Some err)
    | None => ret None
    end
  else ret None.

Definition ErrApiKeyExpired : go_error := Errorf "api key expired".
Definition ErrApiKeyRateLimited : go_error := Errorf "api key rate limit exceeded".

Definition expired (now : instant) (expires : option instant) : bool :=
  match expires with Some t => negb (Time.Before now t) | None => false end.

Definition AuthorizeApiKey (now : instant) (raw : string) : M (ApiKey + go_error) :=
  let raw := TrimSpace raw in
  if is_empty raw then ret (inr ErrNoRows)
  else
    try! key := GetApiKeyByHash (digest raw) in
    if negb (k_Enabled key) then ret (inr ErrNoRows)
    else if expired now (k_ExpiresAt key) then ret (inr ErrApiKeyExpired)
    else
      let limit := k_RPMLimit key in
      try! allowed := (if 0 <? limit then ConsumeApiKeyRPM (k_ID key) limit now else ret (inl true)) in
      if negb allowed then ret (inr ErrApiKeyRateLimited)
      else
        let key := key <| k_LastUsedAt := Some now |> in
        let! failed := (if limit <=? 0 then touchApiKeyCoalesced (k_ID key) now else ret None) in
        match failed with
        | Some err => ret (inr err)
        | None => let! key := rolloverApiKeyBilling key now in ret (inl key)
        end.
End keys.
