(* ===== verification/ApiKeysCorrect.v ===== *)
(** What the key store promises ([ApiKeys]): its rows, hash index and limit mirror
    agree under any interleaving, a mutation is one write to the row it read, a
    key is authorized by what the database says during the call, rotated secrets
    are dead, and the per-minute limit and the billing period hold. *)

From Stdlib Require Import Ascii.
From S2P Require Import Prelude Json AccountCodec Pricing KeyBilling ApiKeys.

(** * Reasoning about calls *)

Section calls.
Context (other : nat -> world -> world) (net : nat -> wire) (clock : nat -> Z).

(** From a world satisfying [P], whenever the call starts, it ends with a result
    and a world satisfying [Q]. *)
Definition post {A} (P : world -> Prop) (m : M A) (Q : A -> world -> Prop) : Prop :=
  forall i w, P w -> Q (fst (fst (m i w))) (snd (m i w)).

Definition stable (P : world -> Prop) : Prop := forall i w, P w -> P (other i w).

Lemma stable_pure (F : Prop) : stable (fun _ => F).
Proof. by intros i w. Qed.

Definition with_keys (w : world) (s : keystore) : world := w <| w_keys := s |>.

Lemma post_ret {A} (P : world -> Prop) (a : A) (Q : A -> world -> Prop) : (forall w, P w -> Q a w) -> post P (ret a) Q.
Proof. intros H i w Hp. by apply H. Qed.

Lemma post_bind {A B} P (m : M A) (f : A -> M B) R Q :
  post P m R -> (forall a, post (R a) (f a) Q) -> post P (bind m f) Q.
Proof.
  intros Hm Hf i w Hp. unfold bind. specialize (Hm i w Hp). destruct (m i w) as [[a j] w']. by apply Hf.
Qed.

Lemma post_bind_ok {A B} P (m : M (A + go_error)) (f : A -> M (B + go_error)) R Q :
  post P m R -> (forall a, post (R (inl a)) (f a) Q) -> (forall err w, R (inr err) w -> Q (inr err) w) ->
  post P (bind_ok m f) Q.
Proof.
  intros Hm Hf He. eapply post_bind; [exact Hm|]. intros [a|err]; [apply Hf|]. apply post_ret. apply He.
Qed.

Lemma post_weaken {A} (P P' : world -> Prop) (m : M A) (Q Q' : A -> world -> Prop) :
  post P' m Q' -> (forall w, P w -> P' w) -> (forall a w, Q' a w -> Q a w) -> post P m Q.
Proof. intros H HP HQ i w Hp. apply HQ, H. by apply HP. Qed.

Lemma post_fact {A} (F : Prop) P (m : M A) (Q : A -> world -> Prop) :
  (F -> post P m Q) -> post (fun w => P w /\ F) m Q.
Proof. intros H i w [Hp Hf]. by apply H. Qed.

Lemma post_section {A} P (f : world -> A * world) (Q : A -> world -> Prop) :
  stable P -> (forall w, P w -> Q (fst (f w)) (snd (f w))) -> post P (section other f) Q.
Proof.
  intros Hs H i w Hp. unfold section. specialize (H (other i w) (Hs i w Hp)). by destruct (f (other i w)).
Qed.

Lemma post_command {A} P (f : Z -> keystore -> (A + go_error) * keystore) (Q : A + go_error -> world -> Prop) :
  stable P ->
  (forall t w, P w -> Q (fst (f t (w_keys w))) (with_keys w (snd (f t (w_keys w))))
                      /\ forall err, Q (inr err) w /\ Q (inr err) (with_keys w (snd (f t (w_keys w))))) ->
  post P (command other net clock f) Q.
Proof.
  intros Hs H i w Hp. unfold command. destruct (H (clock i) (other i w) (Hs i w Hp)) as [H1 H2].
  destruct (net i) as [|[|n] err]; cbn.
  - destruct (f (clock i) (w_keys (other i w))). exact H1.
  - by destruct (H2 err).
  - by destruct (H2 err).
Qed.

Lemma post_read {A} P (f : keystore -> A) (Q : A + go_error -> world -> Prop) :
  stable P -> (forall w, P w -> Q (inl (f (w_keys w))) w) -> (forall err w, P w -> Q (inr err) w) ->
  post P (read other net clock f) Q.
Proof.
  intros Hs Hok Herr. apply post_command; [done|]. intros t w Hp. cbn.
  replace (with_keys w (w_keys w)) with w by by destruct w.
  split; [by apply Hok|]. intros err. split; by apply Herr.
Qed.

Lemma run_each_inv (Inv : world -> Prop) fs i w :
  stable Inv -> (forall f w, f ∈ fs -> Inv w -> Inv (with_keys w (f (w_keys w)))) ->
  Inv w -> Inv (snd (run_each other fs i w)).
Proof.
  intros Hs. revert i w. induction fs as [|f fs IH]; intros i w Hf Hp; [done|]. cbn [run_each].
  apply IH; [intros g w' Hg; apply Hf; by apply elem_of_cons; right|].
  apply (Hf f); [by apply elem_of_cons; left|by apply Hs].
Qed.
End calls.

(** * The rows, the index and the mirror *)

(** The numbers of a row. *)
Definition ints (r : apiKeyRecord) : list Z :=
  [r_ID r; r_RPMLimit r; r_MaxConcurrent r; r_BillingLimitUSDTicks r; r_BillingUsedUSDTicks r; r_BillingPeriodDays r].

(** Numbers that survive the scripts' re-encoding. *)
Definition small (r : apiKeyRecord) : Prop := Forall (fun n => Z.abs n < 10^14) (ints r).

Section consistent.
(** Which key a hash may ever belong to: secrets are never shared. *)
Context (owner : string -> option Z).

Record kept (s : keystore) (id : Z) (w : row) : Prop := {
  kp_id : r_ID (w_record w) = id;
  kp_issued : 0 < id <= s_next s;
  kp_readable : w_readable w = true;
  kp_small : small (w_record w);
  kp_limit : l_limit (s_ledgers s id) = Some (r_BillingLimitUSDTicks (w_record w));
  kp_hash : r_KeyHash (w_record w) <> "" ->
    owner (r_KeyHash (w_record w)) = Some id /\ s_index s !! r_KeyHash (w_record w) = Some id
}.

Definition consistent (s : keystore) : Prop :=
  0 <= s_next s /\ forall id w, s_rows s !! id = Some w -> kept s id w.

(** A change that leaves the rows, the index and the mirrors. *)
Lemma consistent_frame s s' :
  consistent s -> s_next s <= s_next s' -> (forall id w, s_rows s' !! id = Some w -> s_rows s !! id = Some w) ->
  s_index s' = s_index s -> (forall id, is_Some (s_rows s' !! id) -> l_limit (s_ledgers s' id) = l_limit (s_ledgers s id)) ->
  consistent s'.
Proof.
  intros [H0 H] Hn Hr Hi Hl. split; [lia|]. intros id w Hw. destruct (H id w (Hr id w Hw)) as [? [? ?] ? ? Hlim Hhash].
  split; [done|lia|done|done| |].
  - rewrite (Hl id) by eauto. done.
  - intros Hne. rewrite Hi. by apply Hhash.
Qed.

Lemma at_key_eq {A} id (a : A) f : at_key id a f id = a.
Proof. unfold at_key. by rewrite Z.eqb_refl. Qed.

Lemma at_key_ne {A} id k (a : A) f : k <> id -> at_key id a f k = f k.
Proof. intros H. unfold at_key. by rewrite (proj2 (Z.eqb_neq _ _) H). Qed.

(** A record that may be stored for key [id]. *)
Record storable (id : Z) (r : apiKeyRecord) : Prop := {
  so_id : r_ID r = id;
  so_small : small r;
  so_owner : r_KeyHash r <> "" -> owner (r_KeyHash r) = Some id
}.

(** A row written with its limit, the index entries of other keys left alone. *)
Lemma consistent_write s s' id r :
  consistent s -> storable id r -> 0 < id <= s_next s -> s_next s' = s_next s ->
  s_rows s' = <[id := mkRow r true]> (s_rows s) ->
  (r_KeyHash r <> "" -> s_index s' !! r_KeyHash r = Some id) ->
  (forall h k, h <> "" -> k <> id -> owner h = Some k -> s_index s' !! h = s_index s !! h) ->
  l_limit (s_ledgers s' id) = Some (r_BillingLimitUSDTicks r) ->
  (forall k, k <> id -> s_ledgers s' k = s_ledgers s k) ->
  consistent s'.
Proof.
  intros [H0 H] [Hid Hsmall Hown] Hpos Hn Hr Hi Hx Hlim Hl. split; [lia|]. intros k w Hw. rewrite Hr in Hw.
  destruct (decide (k = id)) as [->|Hne].
  - rewrite lookup_insert_eq in Hw. injection Hw as <-. split; [done|lia|done|done|done|]. auto.
  - rewrite lookup_insert_ne in Hw by done. destruct (H k w Hw) as [? [? ?] ? ? Hlk Hhash].
    split; [done|lia|done|done|by rewrite Hl|]. intros Hh. destruct (Hhash Hh) as [Ho Hk]. split; [done|].
    by rewrite (Hx _ k Hh Hne Ho).
Qed.

Context (rewrite_int : Z -> Z * bool) (Hrewrite : forall n, Z.abs n < 10^14 -> rewrite_int n = (n, true)).

(** The scripts re-encode small numbers as they are. *)
Lemma rewritten_small r w :
  small r -> w_readable w = true -> rewritten rewrite_int w r = mkRow r true.
Proof.
  intros Hs Hw. unfold small, ints in Hs. rewrite !Forall_cons in Hs. destruct Hs as (H1 & H2 & H3 & H4 & H5 & H6 & _).
  unfold rewritten. cbn [forallb]. rewrite !Hrewrite, Hw by done. by destruct r.
Qed.
End consistent.

(** ** What each write does *)

Section writes.
Context (owner : string -> option Z).
Context (rewrite_int : Z -> Z * bool) (Hrewrite : forall n, Z.abs n < 10^14 -> rewrite_int n = (n, true)).
Abbreviation consistent := (consistent owner).

Abbreviation storable := (storable owner).

Lemma put_ledger_at id l s : s_ledgers (put_ledger id l s) id = l.
Proof. cbn. by rewrite at_key_eq. Qed.

Lemma put_ledger_other id l s k : k <> id -> s_ledgers (put_ledger id l s) k = s_ledgers s k.
Proof. intros H. cbn. by rewrite at_key_ne. Qed.

Lemma put_limit_at id n s : l_limit (s_ledgers (put_limit id n s) id) = Some n.
Proof. unfold put_limit. by rewrite put_ledger_at. Qed.

Lemma create_row_consistent id r s :
  consistent s -> 0 < id <= s_next s -> storable id r -> consistent (create_row id r s).
Proof.
  intros Hc Hid Hst. pose proof (so_owner _ _ _ Hst) as Ho. unfold create_row.
  set (s1 := (put_row id (mkRow r true) s) <| s_ids := {[id]} ∪ s_ids (put_row id (mkRow r true) s) |>).
  set (s2 := if is_empty (r_KeyHash r) then s1 else s1 <| s_index := <[r_KeyHash r := id]> (s_index s1) |>).
  assert (Hs2 : s_next s2 = s_next s /\ s_rows s2 = <[id := mkRow r true]> (s_rows s) /\ s_ledgers s2 = s_ledgers s
                /\ s_index s2 = if is_empty (r_KeyHash r) then s_index s else <[r_KeyHash r := id]> (s_index s)).
  { unfold s2. by destruct (is_empty (r_KeyHash r)). }
  destruct Hs2 as (Hn & Hr & Hl & Hi).
  assert (Hc3 : consistent (put_limit id (r_BillingLimitUSDTicks r) s2)).
  { apply (consistent_write owner s _ id r); [done|done|done|done|done| | |apply put_limit_at|].
    - intros Hne. change (s_index (put_limit id (r_BillingLimitUSDTicks r) s2)) with (s_index s2). rewrite Hi.
      rewrite (proj2 (is_empty_false _) Hne). apply lookup_insert_eq.
    - intros h k Hh Hk Hown. change (s_index (put_limit id (r_BillingLimitUSDTicks r) s2)) with (s_index s2). rewrite Hi.
      destruct (is_empty (r_KeyHash r)) eqn:E; [done|]. apply lookup_insert_ne. intros <-.
      rewrite Ho in Hown by by apply is_empty_false. by injection Hown as <-.
    - intros k Hk. unfold put_limit. by rewrite put_ledger_other, Hl. }
  destruct (0 <? _); [|done].
  apply (consistent_frame owner (put_limit id (r_BillingLimitUSDTicks r) s2)); [done|done|done|done|].
  intros k _. destruct (decide (k = id)) as [->|Hne]; [by rewrite put_ledger_at|by rewrite put_ledger_other].
Qed.

Lemma commit_row_consistent id w r s :
  consistent s -> s_rows s !! id = Some w -> storable id r ->
  consistent (commit_row id (r_KeyHash (w_record w)) r s).
Proof.
  intros Hc Hw Hst. pose proof (so_owner _ _ _ Hst) as Ho. destruct (proj2 Hc id w Hw) as [_ Hid _ _ _ Hhash].
  set (old := r_KeyHash (w_record w)) in *. unfold commit_row.
  set (s2 := if String.eqb old (r_KeyHash r) then put_row id (mkRow r true) s
             else (put_row id (mkRow r true) s)
                    <| s_index := <[r_KeyHash r := id]> (delete old (s_index (put_row id (mkRow r true) s))) |>).
  assert (Hs2 : s_next s2 = s_next s /\ s_rows s2 = <[id := mkRow r true]> (s_rows s) /\ s_ledgers s2 = s_ledgers s
                /\ s_index s2 = if String.eqb old (r_KeyHash r) then s_index s
                                else <[r_KeyHash r := id]> (delete old (s_index s))).
  { unfold s2. by destruct (String.eqb old (r_KeyHash r)). }
  destruct Hs2 as (Hn & Hr & Hl & Hi).
  apply (consistent_write owner s _ id r); [done|done|done|done|done| | |apply put_limit_at|].
  - intros Hne. change (s_index (put_limit id (r_BillingLimitUSDTicks r) s2)) with (s_index s2). rewrite Hi.
    destruct (String.eqb old (r_KeyHash r)) eqn:E; [|by rewrite lookup_insert_eq].
    apply String.eqb_eq in E. rewrite <- E. apply Hhash. by rewrite E.
  - intros h k Hh Hk Hown. change (s_index (put_limit id (r_BillingLimitUSDTicks r) s2)) with (s_index s2). rewrite Hi.
    destruct (String.eqb old (r_KeyHash r)) eqn:E; [done|]. apply String.eqb_neq in E.
    assert (Hne : r_KeyHash r <> h).
    { intros <-. rewrite Ho in Hown by done. by injection Hown as <-. }
    rewrite lookup_insert_ne by done. apply lookup_delete_ne. intros <-.
    destruct (Hhash Hh) as [Hx _]. rewrite Hx in Hown. by injection Hown as <-.
  - intros k Hk. unfold put_limit. by rewrite put_ledger_other, Hl.
Qed.

(** A script's rewriting of a row it found, when it leaves identity and limit. *)
Lemma script_row_consistent id w r s :
  consistent s -> s_rows s !! id = Some w ->
  r_ID r = r_ID (w_record w) -> r_KeyHash r = r_KeyHash (w_record w) ->
  r_BillingLimitUSDTicks r = r_BillingLimitUSDTicks (w_record w) -> ints r = ints (w_record w) ->
  consistent (put_row id (rewritten rewrite_int w r) s).
Proof.
  intros Hc Hw Hid Hh Hl Hi. destruct (proj2 Hc id w Hw) as [Hid' Hpos Hread Hsmall Hlim Hhash].
  assert (Hs : small r) by (unfold small; by rewrite Hi).
  rewrite (rewritten_small rewrite_int Hrewrite r w Hs Hread).
  apply (consistent_write owner s _ id r); try done.
  - split; [congruence|done|]. rewrite Hh. intros Hne. by apply Hhash.
  - intros Hne. change (s_index (put_row id (mkRow r true) s)) with (s_index s). rewrite Hh in Hne |- *. by apply Hhash.
  - rewrite Hl. exact Hlim.
Qed.

Lemma touch_script_consistent id now s :
  consistent s -> consistent (snd (touchApiKeyLastUsedScript rewrite_int id now s)).
Proof.
  intros Hc. unfold touchApiKeyLastUsedScript. destruct (s_rows s !! id) as [w|] eqn:E; [|done].
  by apply (script_row_consistent id w).
Qed.

Lemma rpm_script_consistent id minute now limit t s :
  consistent s -> consistent (snd (consumeApiKeyRPMScript rewrite_int id minute now limit t s)).
Proof.
  intros Hc. unfold consumeApiKeyRPMScript. destruct (s_rows s !! id) as [w|] eqn:E; [|done].
  assert (H : consistent (put_row id (rewritten rewrite_int w ((w_record w) <| r_LastUsedAt := Some now |>)) s))
    by by apply (script_row_consistent id w).
  destruct (limit <=? 0); [done|]. destruct (match _ with Some (count, expiry) => (_, expiry) | None => _ end) as [n e].
  by apply (consistent_frame owner _ _ H).
Qed.

Lemma rollover_script_consistent id expected now days s :
  consistent s -> consistent (snd (rolloverApiKeyBillingScript rewrite_int id expected now days s)).
Proof.
  intros Hc. unfold rolloverApiKeyBillingScript. destruct (s_rows s !! id) as [w|] eqn:E; [|done].
  destruct (negb _); [done|]. destruct (negb _); [done|].
  assert (H : consistent (put_row id (rewritten rewrite_int w ((w_record w) <| r_BillingPeriodStartedAt := now |>)) s))
    by by apply (script_row_consistent id w).
  apply (consistent_frame owner _ _ H); [done|done|done|]. intros k _. cbn [snd].
  destruct (decide (k = id)) as [->|Hne]; [by rewrite put_ledger_at|by rewrite put_ledger_other].
Qed.

(** Taking a key apart keeps the others consistent, once its row is gone. *)
Definition gone (id : Z) (s : keystore) : Prop := s_rows s !! id = None.

Lemma del_row_consistent id s : consistent s -> consistent (del_row id s) /\ gone id (del_row id s).
Proof.
  intros Hc. split; [|apply lookup_delete_eq].
  apply (consistent_frame owner s); [done|done| |done|done].
  intros k w Hk. change (delete id (s_rows s) !! k = Some w) in Hk. by apply lookup_delete_Some in Hk as [_ ?].
Qed.

Lemma del_index_consistent id h s :
  consistent s -> gone id s -> h <> "" -> owner h = Some id ->
  consistent (s <| s_index := delete h (s_index s) |>).
Proof.
  intros [H0 H] Hg Hh Ho. split; [done|]. intros k w Hw. destruct (H k w Hw) as [? ? ? ? ? Hk].
  split; [done..|]. intros Hne. destruct (Hk Hne) as [Hok Hik]. split; [done|]. cbn. rewrite lookup_delete_ne; [done|].
  intros E. rewrite <- E, Ho in Hok. injection Hok as ->. unfold gone in Hg. change (s_rows s !! k = Some w) in Hw. congruence.
Qed.

Lemma del_ledger_consistent id s : consistent s -> gone id s -> consistent (del_ledger id s).
Proof.
  intros Hc Hg. apply (consistent_frame owner s); [done|done|done|done|]. intros k [w Hk].
  change (s_rows s !! k = Some w) in Hk. unfold del_ledger. rewrite put_ledger_other; [done|]. intros ->.
  unfold gone in Hg. congruence.
Qed.
End writes.

(** * The operations under interference *)

Section operations.
Context (other : nat -> world -> world) (net : nat -> wire) (clock : nat -> Z).
Context {Aead : AEAD} {B64 : Base64} (keySecrets : bool) (nonce : string + go_error) (digest : string -> string).
Context (rewrite_int : Z -> Z * bool) (parse_time : string -> option instant).
Abbreviation post := post.
Abbreviation stable := (stable other).

(** A row changes only by a write to its key. *)
Definition writes_count : Prop := forall i w id,
  s_writes (w_keys w) id <= s_writes (w_keys (other i w)) id
  /\ (s_writes (w_keys (other i w)) id = s_writes (w_keys w) id ->
      s_rows (w_keys (other i w)) !! id = s_rows (w_keys w) !! id).

(** ** A mutation is one atomic step *)

Section mutation.
Context (Hwrites : writes_count).
Context (P : world -> Prop) (Q : apiKeyRecord + go_error -> world -> Prop).
Context (id : Z) (change : apiKeyRecord -> apiKeyRecord + go_error).
Context (Hstable : stable P).
Context (Hcommit : forall w row r r', P w -> s_rows (w_keys w) !! id = Some row -> decode row = inl r ->
  change r = inl r' ->
  let w' := with_keys w (commit_row id (r_KeyHash r) r' (w_keys w)) in Q (inl r') w' /\ forall err, Q (inr err) w').
Context (Herr : forall err w, P w -> Q (inr err) w).

Definition watching (v : Z) (w : world) : Prop := P w /\ v <= s_writes (w_keys w) id.
Definition seen (v : Z) (value : option row) (w : world) : Prop :=
  watching v w /\ (s_writes (w_keys w) id = v -> s_rows (w_keys w) !! id = value).

Lemma watching_stable v : stable (watching v).
Proof. intros i w [Hp Hv]. destruct (Hwrites i w id) as [H _]. split; [by apply Hstable|lia]. Qed.

Lemma seen_stable v value : stable (seen v value).
Proof.
  intros i w [Hw Hv]. split; [by apply watching_stable|]. intros E. destruct (Hwrites i w id) as [H1 H2].
  destruct Hw as [_ Hle]. rewrite H2 by lia. apply Hv. lia.
Qed.

Lemma post_attempt :
  post P (mutate_attempt other net clock id change)
    (fun res w => match res with inl (Some r) => Q (inl r) w | inl None => P w | inr err => Q (inr err) w end).
Proof.
  unfold mutate_attempt.
  apply (post_bind_ok _ _ _ (fun v w => match v with inl v => watching v w | inr err => Q (inr err) w end)); [| |done].
  { apply post_read; [done| |by auto]. intros w Hp. by split. }
  intros v. apply (post_bind_ok _ _ _ (fun x w => match x with inl x => seen v x w | inr err => Q (inr err) w end)); [| |done].
  { apply post_read; [apply watching_stable| |]. { intros w Hw. by split. } intros err w [Hp _]. by apply Herr. }
  intros [row|]; [|apply post_ret; intros w [[Hp _] _]; by apply Herr].
  destruct (decode row) as [r|err] eqn:Er; [|apply post_ret; intros w [[Hp _] _]; by apply Herr].
  destruct (change r) as [r'|err] eqn:Ec; [|apply post_ret; intros w [[Hp _] _]; by apply Herr].
  apply post_command; [apply seen_stable|]. intros t w [[Hp Hle] Hrow].
  destruct (s_writes (w_keys w) id =? v) eqn:E; cbn.
  - apply Z.eqb_eq in E. destruct (Hcommit w row r r' Hp (Hrow E) Er Ec) as [H1 H2]. split; [exact H1|]. intros err.
    split; [by apply Herr|apply H2].
  - replace (with_keys w (w_keys w)) with w by by destruct w. split; [done|]. intros err. split; by apply Herr.
Qed.

Lemma post_mutate : post P (mutateApiKey other net clock id change) Q.
Proof.
  unfold mutateApiKey. generalize 8%nat. intros n. induction n as [|n IH]; cbn [mutate_loop].
  { apply post_ret. by auto. }
  eapply post_bind_ok; [apply post_attempt| |]; [|done].
  intros [r|]; [by apply post_ret|exact IH].
Qed.
End mutation.

(** Others have acted, and nobody else. *)
Inductive drifted (w0 : world) : world -> Prop :=
| drift_none : drifted w0 w0
| drift_step i w : drifted w0 w -> drifted w0 (other i w).

(** a mutation of a key row happens in one indivisible step on the row as it is
    at that moment, however many replicas write to it meanwhile: when it succeeds,
    the changed row, its index entry and its limit mirror were written together
    over exactly the row the change was computed from; when it fails, it wrote
    nothing, unless the reply of its transaction was lost. *)
Theorem mutation_is_atomic id change i w0 r j w' (Hwrites : writes_count) :
  mutateApiKey other net clock id change i w0 = (r, j, w') ->
  let committed r' := exists w row old, drifted w0 w /\ s_rows (w_keys w) !! id = Some row /\ decode row = inl old
    /\ change old = inl r' /\ w' = with_keys w (commit_row id (r_KeyHash old) r' (w_keys w)) in
  match r with
  | inl r' => committed r'
  | inr _ => drifted w0 w' \/ exists r', committed r'
  end.
Proof.
  intros Hrun committed.
  pose proof (post_mutate Hwrites (drifted w0)
    (fun res w' => let committed r' := exists w row old, drifted w0 w /\ s_rows (w_keys w) !! id = Some row
                     /\ decode row = inl old /\ change old = inl r'
                     /\ w' = with_keys w (commit_row id (r_KeyHash old) r' (w_keys w)) in
                   match res with inl r' => committed r' | inr _ => drifted w0 w' \/ exists r', committed r' end)
    id change) as H.
  specialize (H (fun i w => drift_step w0 i w)). cbn zeta in H.
  specialize (H ltac:(intros w row old r' Hd Hrow Hdec Hch; split; [eauto 10|intros _; right; eauto 10])).
  specialize (H ltac:(intros err w Hd; by left) i w0 (drift_none w0)). rewrite Hrun in H. exact H.
Qed.

(** ** Reading *)

Section reading.
Context (S : keystore -> Prop).
Abbreviation on_keys := (fun w => S (w_keys w)).
Context (Hstable : stable on_keys).

(** What a row read as key [id] says. *)
Definition reads (id : Z) (w : row) (key : ApiKey) : Prop := exists used, read_key id w used = inl key.

(** [key] is a row's content at a moment [S] held. *)
Definition shown (id : Z) (key : ApiKey) : Prop := exists s w, S s /\ s_rows s !! id = Some w /\ reads id w key.

Definition answer (id : Z) (res : ApiKey + go_error) (w : world) : Prop :=
  S (w_keys w) /\ match res with inl key => shown id key | inr _ => True end.

Lemma post_get id : post on_keys (getApiKeyByID other net clock id) (answer id).
Proof.
  unfold getApiKeyByID. destruct (id =? 0); [by apply post_ret; intros w Hs|].
  apply (post_bind_ok _ _ _ (fun x w => S (w_keys w) /\ match x with
    | inl (Some row) => exists s, S s /\ s_rows s !! id = Some row | _ => True end)); [| |by intros err w [? _]].
  { apply post_read; [done| |done]. intros w Hs. split; [done|]. destruct (s_rows (w_keys w) !! id) eqn:E; eauto. }
  intros value. apply (post_bind_ok _ _ _ (fun _ w => S (w_keys w) /\ match value with
    | Some row => exists s, S s /\ s_rows s !! id = Some row | None => True end)); [| |by intros err w [? _]].
  { apply post_read.
    - intros i w [Hs Hv]. split; [by apply Hstable|done].
    - by intros w Hw.
    - by intros _ w Hw. }
  intros used. apply post_ret. intros w [Hs Hv]. split; [done|]. destruct value as [row|]; [|done].
  destruct Hv as (s & Hs0 & Hrow). destruct (read_key id row used) as [key|] eqn:E; [|done].
  exists s, row. split_and!; [done|done|by exists used].
Qed.

(** A key found by its hash had that hash. *)
Definition found (hash : string) (res : ApiKey + go_error) (w : world) : Prop :=
  S (w_keys w) /\ match res with inl key => k_KeyHash key = hash /\ exists id, shown id key | inr _ => True end.

Lemma post_memory {A} (f : world -> A * world) (a : A -> world -> Prop) :
  (forall w, w_keys (snd (f w)) = w_keys w) -> (forall w, S (w_keys w) -> a (fst (f w)) (snd (f w))) ->
  post on_keys (section other f) (fun x w => S (w_keys w) /\ a x w).
Proof. intros Hf Ha. apply post_section; [done|]. intros w Hs. rewrite Hf. split; [done|by apply Ha]. Qed.

Lemma post_lookup hash : post on_keys (lookup_index other net clock hash) (found hash).
Proof.
  unfold lookup_index. apply (post_bind_ok _ _ _ (fun _ w => S (w_keys w))); [by apply post_read|  |by intros].
  intros [id|]; [|by apply post_ret]. eapply post_bind_ok; [apply post_get| |by intros err w [? _]].
  intros key. destruct (String.eqb _ hash) eqn:E; [|apply post_ret; by intros w [? _]].
  apply String.eqb_eq in E.
  apply (post_bind _ _ _ (fun _ w => S (w_keys w) /\ shown id key)).
  - apply post_section; [|done]. intros i w [Hs Hk]. split; [by apply Hstable|done].
  - intros _. apply post_ret. intros w [Hs Hk]. split; [done|]. split; [done|eauto].
Qed.

Lemma post_by_hash hash : post on_keys (GetApiKeyByHash other net clock hash) (found (TrimSpace hash)).
Proof.
  unfold GetApiKeyByHash. destruct (is_empty _); [by apply post_ret|].
  eapply post_bind; [by apply (post_memory _ (fun _ _ => True))|]. intros cached. cbn beta.
  eapply post_weaken; [|by intros w [Hs _]; exact Hs|by intros a w Ha; exact Ha].
  destruct (cached =? 0); [apply post_lookup|].
  eapply post_bind; [apply post_get|].
  assert (Hstale : post on_keys (bind (section other (forget (TrimSpace hash)))
                     (fun _ => lookup_index other net clock (TrimSpace hash))) (found (TrimSpace hash))).
  { eapply post_bind; [by apply (post_memory _ (fun _ _ => True))|]. intros u.
    eapply post_weaken; [apply post_lookup|by intros w [Hs _]; exact Hs|done]. }
  intros [key|err]; cbn beta iota.
  - destruct (String.eqb _ _) eqn:E.
    + apply String.eqb_eq in E. apply post_ret. intros w [Hs Hk]. split; [done|]. split; [done|eauto].
    + eapply post_weaken; [exact Hstale|by intros w [Hs _]; exact Hs|done].
  - destruct (decide _); [|apply post_ret; by intros w [Hs _]].
    eapply post_weaken; [exact Hstale|by intros w [Hs _]; exact Hs|done].
Qed.
End reading.

(** ** Authorization *)

(** [key] carries the policy of row [r]. *)
Record policy_of (r : apiKeyRecord) (key : ApiKey) : Prop := {
  po_hash : k_KeyHash key = r_KeyHash r;
  po_enabled : k_Enabled key = r_Enabled r;
  po_expires : k_ExpiresAt key = r_ExpiresAt r;
  po_models : k_AllowedModels key = r_AllowedModels r;
  po_rpm : k_RPMLimit key = r_RPMLimit r;
  po_concurrent : k_MaxConcurrent key = r_MaxConcurrent r;
  po_billing : k_BillingLimitUSDTicks key = r_BillingLimitUSDTicks r
}.

Lemma reads_policy id w key : reads id w key -> w_readable w = true /\ policy_of (w_record w) key.
Proof.
  intros [used H]. unfold read_key, decode in H. destruct (w_readable w); [|done]. split; [done|].
  revert H. destruct used, (k_ID (toApiKey (w_record w)) =? 0); intros [= <-]; split; reflexivity.
Qed.

(** A request the script let through. *)
Definition admitted (S : keystore -> Prop) (id limit : Z) (now : instant) : Prop := exists server s n, S s /\
  fst (consumeApiKeyRPMScript rewrite_int id (Z.quot (Time.Unix now) 60) now limit server s) = inl n /\ n <= limit.

Lemma post_consume (S : keystore -> Prop) (F : Prop) id limit now :
  stable (fun w => S (w_keys w)) ->
  post (fun w => S (w_keys w) /\ F) (ConsumeApiKeyRPM other net clock rewrite_int id limit now)
    (fun res _ => F /\ (res = inl true -> admitted S id limit now)).
Proof.
  intros Hst. unfold ConsumeApiKeyRPM. destruct (id =? 0); [by apply post_ret; intros w [_ Hf]|].
  apply (post_bind_ok _ _ _ (fun res _ => F /\ forall n, res = inl n -> n <= limit -> admitted S id limit now)).
  - apply post_command; [intros i w [Hs Hf]; split; [by apply Hst|done]|]. intros t w [Hs Hf].
    split; [split; [done|]|by intros err]. intros n Hn Hle. by exists t, (w_keys w), n.
  - intros n. apply post_ret. intros w [Hf H]. split; [done|]. intros [= Hle]. apply Z.leb_le in Hle. by apply (H n).
  - by intros err w [Hf _].
Qed.

(** What remains of an authorization once the key is known. *)
Lemma post_rest (S : keystore -> Prop) (F : Prop) key now :
  stable (fun w => S (w_keys w)) ->
  post (fun w => S (w_keys w) /\ F)
    (let limit := k_RPMLimit key in
     bind_ok (if 0 <? limit then ConsumeApiKeyRPM other net clock rewrite_int (k_ID key) limit now else ret (inl true))
       (fun allowed =>
          if negb allowed then ret (inr ErrApiKeyRateLimited)
          else
            let key := key <| k_LastUsedAt := Some now |> in
            bind (if limit <=? 0 then touchApiKeyCoalesced other net clock rewrite_int (k_ID key) now else ret None)
              (fun failed => match failed with
                             | Some err => ret (inr err)
                             | None => bind (rolloverApiKeyBilling other net clock rewrite_int key now)
                                         (fun key => ret (inl key))
                             end)))
    (fun res _ => forall key', res = inl key' ->
       F /\ k_ID key' = k_ID key /\ (forall r, policy_of r key -> policy_of r key')
       /\ (0 < k_RPMLimit key -> admitted S (k_ID key) (k_RPMLimit key) now)).
Proof.
  intros Hst. cbn zeta. set (Fa := F /\ (0 < k_RPMLimit key -> admitted S (k_ID key) (k_RPMLimit key) now)).
  apply (post_bind_ok _ _ _ (fun res _ => res = inl true -> Fa)); [| |done].
  { destruct (0 <? k_RPMLimit key) eqn:E.
    - eapply post_weaken; [by apply (post_consume S F)|done|]. intros res _ [Hf H] Hres. split; [done|]. intros _. by apply H.
    - apply post_ret. intros w [_ Hf] _. split; [done|]. intros Hlt. to_prop. lia. }
  intros [|]; [|by apply post_ret]. cbn [negb].
  apply (post_bind _ _ _ (fun _ _ => Fa)).
  { intros i w Ha. by apply Ha. }
  intros [err|]; [by apply post_ret|].
  apply (post_bind _ _ _ (fun key' _ => Fa /\ k_ID key' = k_ID key /\ forall r, policy_of r key -> policy_of r key')).
  - assert (Hsame : forall r, policy_of r key -> policy_of r (key <| k_LastUsedAt := Some now |>)) by by intros r [].
    unfold rolloverApiKeyBilling. destruct (_ <=? 0); [by apply post_ret|].
    apply (post_bind _ _ _ (fun _ _ => Fa)); [by intros i w Ha|].
    intros [[|]|err]; apply post_ret; intros w Ha; (split; [done|]); (split; [done|]); [|done..].
    intros r Hr. by destruct (Hsame r Hr).
  - intros key'. apply post_ret. intros w [[Hf Ha] [Hid Hp]] k [= <-]. done.
Qed.

Lemma authorization_is_current_at (S : keystore -> Prop) now raw i w key j w' :
  stable (fun w => S (w_keys w)) -> S (w_keys w) ->
  AuthorizeApiKey other net clock digest rewrite_int now raw i w = (inl key, j, w') ->
  exists s id row, S s /\ s_rows s !! id = Some row
    /\ r_KeyHash (w_record row) = TrimSpace (digest (TrimSpace raw))
    /\ r_Enabled (w_record row) = true /\ (forall t, r_ExpiresAt (w_record row) = Some t -> now < t)
    /\ policy_of (w_record row) key
    /\ (0 < r_RPMLimit (w_record row) -> admitted S (k_ID key) (r_RPMLimit (w_record row)) now).
Proof.
  intros Hstable Hs Hrun.
  enough (H : post (fun w => S (w_keys w)) (AuthorizeApiKey other net clock digest rewrite_int now raw)
    (fun res _ => forall key, res = inl key -> exists s id row, S s /\ s_rows s !! id = Some row
      /\ r_KeyHash (w_record row) = TrimSpace (digest (TrimSpace raw))
      /\ r_Enabled (w_record row) = true /\ (forall t, r_ExpiresAt (w_record row) = Some t -> now < t)
      /\ policy_of (w_record row) key
      /\ (0 < r_RPMLimit (w_record row) -> admitted S (k_ID key) (r_RPMLimit (w_record row)) now))).
  { specialize (H i w Hs). rewrite Hrun in H. by apply H. }
  unfold AuthorizeApiKey. destruct (is_empty _); [by apply post_ret|].
  eapply post_bind_ok; [by apply (post_by_hash S)| |done]. intros key0.
  destruct (k_Enabled key0) eqn:Een; cbn [negb]; [|by apply post_ret].
  destruct (expired now (k_ExpiresAt key0)) eqn:Eex; [by apply post_ret|].
  eapply post_weaken; [by apply (post_rest S (exists id, shown S id key0 /\ k_KeyHash key0 = TrimSpace (digest (TrimSpace raw))))| |].
  { intros w0 [Hs0 [Hh [id Hk]]]. split; [done|]. by exists id. }
  intros res _ Hres k ->. destruct (Hres k eq_refl) as ([id [(s & row & Hss & Hrow & Hreads) Hh]] & Hid & Hpol & Hadm).
  destruct (reads_policy id row key0 Hreads) as [_ Hp]. exists s, id, row. destruct (Hp) as [H1 H2 H3 _ H5 _ _].
  split_and!; [done|done|congruence|congruence| |by apply Hpol|].
  - intros t Ht. rewrite H3, Ht in Eex. cbn in Eex. apply negb_false_iff in Eex. by apply Time.Before_true.
  - rewrite Hid, <- H5. exact Hadm.
Qed.


(** A patch leaves the identity of a row alone. *)
Lemma patch_keeps_identity fields r r' :
  patch_change parse_time fields r = inl r' ->
  r_EncryptedSecret r' = r_EncryptedSecret r /\ r_ID r' = r_ID r /\ r_KeyHash r' = r_KeyHash r.
Proof.
  revert r'. unfold patch_change. induction fields as [|[name v] fields IH]; intros r' Hch; cbn in Hch.
  { by injection Hch as <-. }
  destruct (foldr _ (Some r) fields) as [r1|]; [|done]. destruct (IH r1 eq_refl) as (<- & <- & <-). cbn in Hch.
  unfold patch_field in Hch.
  repeat match type of Hch with context [if ?c then _ else _] => destruct c end;
    match type of Hch with context [?f <$> ?x] => destruct x; [|done] end; by injection Hch as <-.
Qed.

(** ** Every operation keeps the database consistent *)

Section consistency.
Context (owner : string -> option Z).
Context (Hrewrite : forall n, Z.abs n < 10^14 -> rewrite_int n = (n, true)).
Abbreviation ok := (fun w => consistent owner (w_keys w)).
Context (Hstable : stable ok) (Hwrites : writes_count).
(** Ids are counted upwards. *)
Context (Hnext : forall i w, s_next (w_keys w) <= s_next (w_keys (other i w))).

Definition issued (id : Z) (w : world) : Prop := ok w /\ 0 < id <= s_next (w_keys w).

Lemma issued_stable id : stable (issued id).
Proof. intros i w [Hok Hid]. split; [by apply Hstable|]. specialize (Hnext i w). lia. Qed.

Lemma create_keeps now key :
  small ((apiKeyRecordFromKey key) <| r_ID := 0 |>) ->
  post ok (CreateApiKey other net clock keySecrets nonce now key)
    (fun res w => (k_KeyHash key <> "" -> owner (k_KeyHash key) = Some (k_ID (snd res))) ->
                  Z.abs (k_ID (snd res)) < 10^14 -> ok w).
Proof.
  intros Hsmall. unfold CreateApiKey.
  apply (post_bind _ _ _ (fun res w => match res with inl id => issued id w | inr _ => ok w end)).
  { apply post_command; [done|]. intros t w Hok. destruct (Hok) as [H0 _].
    assert (Hnew : issued (s_next (w_keys w) + 1)
                     (with_keys w ((w_keys w) <| s_next := s_next (w_keys w) + 1 |>))).
    { split; [|cbn; lia]. apply (consistent_frame owner (w_keys w)); [done|cbn; lia|done|done|done]. }
    destruct (s_next (w_keys w) + 1 <=? max_int64); cbn [fst snd].
    - split; [exact Hnew|]. intros err. split; [done|by destruct Hnew].
    - replace (with_keys w (w_keys w)) with w by by destruct w. split; [done|]. by intros err. }
  intros [id|err]; [|by apply post_ret]. cbv zeta.
  set (key1 := if Time.IsZero (k_CreatedAt (key <| k_ID := id |>)) then _ else _).
  assert (Hkey1 : k_ID key1 = id /\ k_KeyHash key1 = k_KeyHash key
                  /\ ints (apiKeyRecordFromKey key1) = id :: tail (ints (apiKeyRecordFromKey key)))
    by by unfold key1; destruct (Time.IsZero _).
  destruct Hkey1 as (Hid & Hhash & Hints). clearbody key1.
  destruct (if is_empty (k_KeyFull key1) then _ else _) as [[record key2]|err] eqn:E;
    [|apply post_ret; by intros w [Hok _]].
  assert (Hrec : k_ID key2 = id /\ r_ID record = id /\ r_KeyHash record = k_KeyHash key /\ ints record = ints (apiKeyRecordFromKey key1)).
  { revert E. destruct (is_empty (k_KeyFull key1)); [intros [= <- <-]; by rewrite <- Hid, <- Hhash|].
    destruct (sealApiKey _ _ _); [|done]. intros [= <- <-]. by rewrite <- Hid, <- Hhash. }
  destruct Hrec as (Hid2 & Hrid & Hrh & Hri).
  apply (post_bind _ _ _ (fun _ w => (k_KeyHash key <> "" -> owner (k_KeyHash key) = Some id) -> Z.abs id < 10^14 -> ok w)).
  - apply post_command; [apply issued_stable|]. intros t w [Hok Hpos]. cbn [fst snd].
    assert (Hnew : (k_KeyHash key <> "" -> owner (k_KeyHash key) = Some id) -> Z.abs id < 10^14 ->
                   ok (with_keys w (create_row id record (w_keys w)))).
    { intros Hown Hbig. apply create_row_consistent; [done|done|]. split; [done| |by rewrite Hrh].
      unfold small in *. rewrite Hri, Hints. rewrite Forall_cons. split; [done|]. by apply Forall_inv_tail in Hsmall. }
    split; [done|]. intros err. by split.
  - intros done_. apply post_ret. intros w H. cbn [snd]. by rewrite Hid2.
Qed.

Lemma mutate_keeps id change :
  (forall r r', storable owner id r -> change r = inl r' -> storable owner id r') ->
  post ok (mutateApiKey other net clock id change) (fun _ => ok).
Proof.
  intros Hch. apply (post_mutate Hwrites); [done| |done]. intros w row r r' Hok Hrow Hdec Hr'.
  destruct (proj2 Hok id row Hrow) as [Hid _ Hread Hsmall _ Hhash]. unfold decode in Hdec. rewrite Hread in Hdec.
  injection Hdec as <-.
  assert (Hnew : ok (with_keys w (commit_row id (r_KeyHash (w_record row)) r' (w_keys w)))).
  { apply (commit_row_consistent owner); [done|done|]. apply (Hch (w_record row)); [|done].
    split; [done|done|]. intros Hne. by apply Hhash. }
  by split.
Qed.

Lemma update_keeps key :
  small (apiKeyRecordFromKey key) -> (k_KeyHash key <> "" -> owner (k_KeyHash key) = Some (k_ID key)) ->
  post ok (UpdateApiKey other net clock key) (fun _ => ok).
Proof.
  intros Hs Ho. unfold UpdateApiKey. destruct (_ =? 0); [by apply post_ret|].
  apply (post_bind _ _ _ (fun _ => ok)); [|intros a; by apply post_ret]. apply mutate_keeps.
  intros r r' [_ _ Hown] [= <-].
  destruct (is_empty _); (split; [reflexivity|exact Hs|]); [exact Ho|exact Hown].
Qed.

Lemma rotate_keeps id secret :
  owner (digest secret) = Some id ->
  post ok (RotateApiKey other net clock keySecrets nonce digest id secret) (fun _ => ok).
Proof.
  intros Ho. unfold RotateApiKey. destruct (_ <? _)%nat; [by apply post_ret|].
  destruct (sealApiKey _ _ _) as [sealed|]; [|by apply post_ret].
  apply (post_bind_ok _ _ _ (fun _ => ok)); [|intros a; by apply post_ret|done]. apply mutate_keeps.
  intros r r' [Hid Hs _] [= <-]. split; [exact Hid|exact Hs|by intros _].
Qed.

Lemma patch_keeps id fields :
  (forall r r', small r -> patch_change parse_time fields r = inl r' -> small r') ->
  post ok (PatchApiKey other net clock parse_time id fields) (fun _ => ok).
Proof.
  intros Hs. unfold PatchApiKey. destruct (forallb _ _); [|by apply post_ret].
  apply (post_bind _ _ _ (fun _ => ok)); [|intros a; by apply post_ret]. apply mutate_keeps.
  intros r r' [Hid Hsm Ho] Hch.
  destruct (patch_keeps_identity fields r r' Hch) as (_ & E1 & E2). split; rewrite ?E1, ?E2; eauto.
Qed.

Lemma delete_keeps id :
  (forall i w, gone id (w_keys w) -> gone id (w_keys (other i w))) ->
  post ok (DeleteApiKey other net clock id) (fun _ => ok).
Proof.
  intros Hgone. unfold DeleteApiKey. destruct (id =? 0); [by apply post_ret|].
  eapply post_bind; [apply (post_get (consistent owner) Hstable)|]. intros [key|err]; [|apply post_ret; by intros w [? _]].
  intros i w [Hok (s & row & Hs & Hrow & Hreads)].
  destruct (reads_policy _ _ _ Hreads) as [_ [Hh _ _ _ _ _ _]]. destruct (proj2 Hs id row Hrow) as [_ _ _ _ _ Hhash].
  set (rest := [fun s => s <| s_ids := s_ids s ∖ {[id]} |>]
               ++ (if is_empty (k_KeyHash key) then [] else [fun s => s <| s_index := delete (k_KeyHash key) (s_index s) |>])
               ++ [del_ledger id]).
  change ([del_row id; fun s => s <| s_ids := s_ids s ∖ {[id]} |>] ++ _ ++ [del_ledger id]) with (del_row id :: rest).
  assert (Hall : forall n i w, ok w -> ok (snd (run_each other (take n (del_row id :: rest)) i w))).
  { clear i w Hok. intros [|n] i w Hok; [done|]. cbn [take run_each].
    destruct (del_row_consistent owner id _ (Hstable i w Hok)) as [H1 H2].
    apply (run_each_inv other (fun w => ok w /\ gone id (w_keys w))); [| |by split].
    - intros k v [Hv Hg]. split; [by apply Hstable|by apply Hgone].
    - intros f v Hf [Hv Hg]. apply subseteq_take in Hf. unfold rest in Hf.
      rewrite !elem_of_app, !elem_of_cons in Hf.
      destruct Hf as [[->|Hf]|[Hf|[->|Hf]]]; try by apply not_elem_of_nil in Hf.
      + split; [by apply (consistent_frame owner (w_keys v))|done].
      + destruct (is_empty (k_KeyHash key)) eqn:Ee; [by apply not_elem_of_nil in Hf|].
        apply elem_of_cons in Hf as [->|Hf]; [|by apply not_elem_of_nil in Hf]. apply is_empty_false in Ee.
        split; [|done]. apply (del_index_consistent owner id); [done|done|done|]. rewrite Hh in Ee |- *. by apply Hhash.
      + split; [by apply del_ledger_consistent|done]. }
  unfold pipeline. destruct (net i) as [|n err].
  - specialize (Hall (length (del_row id :: rest)) i w Hok). rewrite take_ge in Hall by done. by destruct (run_each _ _ _ _).
  - specialize (Hall n i w Hok). by destruct (run_each _ _ _ _).
Qed.

Lemma script_keeps (f : Z -> keystore -> (Z + go_error) * keystore) :
  (forall t s, consistent owner s -> consistent owner (snd (f t s))) ->
  post ok (command other net clock f) (fun _ => ok).
Proof. intros H. apply post_command; [done|]. intros t w Hok. pose proof (H t (w_keys w) Hok). split; [done|]. by intros err. Qed.

Lemma memory_keeps {A} (f : world -> A * world) :
  (forall w, w_keys (snd (f w)) = w_keys w) -> post ok (section other f) (fun _ => ok).
Proof. intros Hf. apply post_section; [done|]. intros w Hok. by rewrite Hf. Qed.

Lemma then_keeps {A B} (m : M A) (f : A -> M B) :
  post ok m (fun _ => ok) -> (forall a, post ok (f a) (fun _ => ok)) -> post ok (bind m f) (fun _ => ok).
Proof. intros Hm Hf. by apply (post_bind _ _ _ (fun _ => ok)). Qed.

Lemma return_keeps {A} (a : A) : post ok (ret a) (fun _ => ok).
Proof. by apply post_ret. Qed.

Lemma touch_keeps id now :
  post ok (touchApiKeyCoalesced other net clock rewrite_int id now) (fun _ => ok).
Proof.
  unfold touchApiKeyCoalesced. apply then_keeps.
  { apply memory_keeps. intros w. unfold note_touch. by destruct (_ && _). }
  intros [|]; [|apply return_keeps]. apply then_keeps.
  - unfold TouchApiKeyLastUsed. destruct (id =? 0); [apply return_keeps|]. apply then_keeps; [|intros; apply return_keeps].
    apply script_keeps. intros _. by apply touch_script_consistent.
  - intros [err|]; [|apply return_keeps]. apply then_keeps; [|intros; apply return_keeps].
    apply memory_keeps. intros w. unfold drop_touch. by destruct (Time.Equal _ _).
Qed.

Lemma rollover_keeps key now :
  post ok (RolloverApiKeyBilling other net clock rewrite_int key now) (fun _ => ok).
Proof.
  unfold RolloverApiKeyBilling. destruct (_ =? 0); [apply return_keeps|]. destruct (_ <=? 0); [apply return_keeps|].
  destruct (_ && _); [apply return_keeps|]. apply then_keeps; [|by intros [n|err]; apply return_keeps].
  apply script_keeps. intros _. by apply rollover_script_consistent.
Qed.

Lemma authorize_keeps now raw :
  post ok (AuthorizeApiKey other net clock digest rewrite_int now raw) (fun _ => ok).
Proof.
  unfold AuthorizeApiKey. destruct (is_empty _); [apply return_keeps|]. apply then_keeps.
  { eapply post_weaken; [by apply (post_by_hash (consistent owner))|done|by intros a w [Hok _]]. }
  intros [key|err]; [|apply return_keeps]. destruct (negb _); [apply return_keeps|].
  destruct (expired _ _); [apply return_keeps|]. apply then_keeps.
  { destruct (0 <? _); [|apply return_keeps]. unfold ConsumeApiKeyRPM. destruct (_ =? 0); [apply return_keeps|].
    apply then_keeps; [|by intros [n|err]; apply return_keeps]. apply script_keeps. intros t s. by apply rpm_script_consistent. }
  intros [[|]|err]; [|apply return_keeps..]. apply then_keeps.
  { destruct (_ <=? 0); [apply touch_keeps|apply return_keeps]. }
  intros [err|]; [apply return_keeps|]. apply then_keeps; [|intros; apply return_keeps].
  unfold rolloverApiKeyBilling. destruct (_ <=? 0); [apply return_keeps|].
  apply then_keeps; [apply rollover_keeps|intros; apply return_keeps].
Qed.

(** C14: the key rows, the hash index and the limit mirrors agree: every stored row
    carries its own id, bears numbers the scripts do not disturb, is found under
    its hash, and its spending limit is the one the reservation script reads.
    Creating, updating, rotating, patching, deleting and authorizing keys preserve
    this, whatever others that preserve it do between any two commands and
    wherever replies are lost, so long as no two keys ever share a secret, a
    deleted id is not written again and limits stay below 10^14 ticks.  The index
    may lead further than the rows: an entry can outlive its row where a deletion
    was cut short, and authorizing a key looks at the row. *)
Theorem keys_stay_consistent :
  (forall now key, small ((apiKeyRecordFromKey key) <| r_ID := 0 |>) ->
     post ok (CreateApiKey other net clock keySecrets nonce now key)
       (fun res w => (k_KeyHash key <> "" -> owner (k_KeyHash key) = Some (k_ID (snd res))) ->
                     Z.abs (k_ID (snd res)) < 10^14 -> ok w))
  /\ (forall key, small (apiKeyRecordFromKey key) ->
       (k_KeyHash key <> "" -> owner (k_KeyHash key) = Some (k_ID key)) ->
       post ok (UpdateApiKey other net clock key) (fun _ => ok))
  /\ (forall id secret, owner (digest secret) = Some id ->
       post ok (RotateApiKey other net clock keySecrets nonce digest id secret) (fun _ => ok))
  /\ (forall id fields, (forall r r', small r -> patch_change parse_time fields r = inl r' -> small r') ->
       post ok (PatchApiKey other net clock parse_time id fields) (fun _ => ok))
  /\ (forall id, (forall i w, gone id (w_keys w) -> gone id (w_keys (other i w))) ->
       post ok (DeleteApiKey other net clock id) (fun _ => ok))
  /\ (forall now raw, post ok (AuthorizeApiKey other net clock digest rewrite_int now raw) (fun _ => ok)).
Proof.
  split_and!; [exact create_keeps|exact update_keeps|exact rotate_keeps|exact patch_keeps|exact delete_keeps|].
  exact authorize_keeps.
Qed.

(** No row bears the hash. *)
Definition unused (hash : string) (s : keystore) : Prop :=
  forall id row, s_rows s !! id = Some row -> r_KeyHash (w_record row) <> hash.

Lemma rotate_retires id secret hash :
  owner (digest secret) = Some id -> owner hash = Some id -> hash <> "" -> digest secret <> hash ->
  post ok (RotateApiKey other net clock keySecrets nonce digest id secret)
    (fun res w => match res with inl _ => unused hash (w_keys w) | inr _ => True end).
Proof.
  intros Ho Hold Hne Hd. unfold RotateApiKey. destruct (_ <? _)%nat; [by apply post_ret|].
  destruct (sealApiKey _ _ _) as [sealed|]; [|by apply post_ret].
  apply (post_bind_ok _ _ _ (fun res w => match res with inl _ => unused hash (w_keys w) | inr _ => True end));
    [|intros a; by apply post_ret|done].
  apply (post_mutate Hwrites ok); [done| |done]. intros w row r r' Hok Hrow Hdec [= <-]. split; [|done].
  destruct (proj2 Hok id row Hrow) as [Hid Hpos Hread Hsmall _ Hhash]. unfold decode in Hdec. rewrite Hread in Hdec.
  injection Hdec as <-.
  assert (Hc : consistent owner (commit_row id (r_KeyHash (w_record row))
                (w_record row) <| r_KeyHash := digest secret |> <| r_EncryptedSecret := sealed |> <| r_KeyPrefix := "sk-" |>
                  <| r_KeySuffix := drop_bytes (String.length secret - 4) secret |> (w_keys w))).
  { apply commit_row_consistent; [done|done|]. split; [exact Hid|exact Hsmall|by intros _]. }
  intros k v Hk E. destruct (decide (k = id)) as [->|Hkne].
  - cbn in Hk. destruct (String.eqb _ _) in Hk; cbn in Hk; rewrite lookup_insert_eq in Hk; injection Hk as <-; by apply Hd.
  - destruct (proj2 Hc k v Hk) as [_ _ _ _ _ Hv]. rewrite E in Hv. destruct (Hv Hne) as [Hv' _].
    rewrite Hold in Hv'. by injection Hv' as ->.
Qed.

(** C20: a rotated secret is dead at once and everywhere: after a rotation has
    succeeded, no replica lets the previous secret in any more, whatever hashes it
    still remembers and whatever happens to the database, so long as nobody gives
    that secret to a key again. *)
Theorem rotated_secret_is_refused id old secret i w key j w1 now raw res k w' :
  ok w -> owner (digest secret) = Some id -> owner (digest old) = Some id ->
  digest old <> "" -> TrimSpace (digest old) = digest old -> digest secret <> digest old ->
  RotateApiKey other net clock keySecrets nonce digest id secret i w = (inl key, j, w1) ->
  stable (fun w => unused (digest old) (w_keys w)) -> TrimSpace raw = old ->
  forall index, AuthorizeApiKey other net clock digest rewrite_int now raw j (w1 <| w_keyIndex := index |>) = (res, k, w') ->
  exists err, res = inr err.
Proof.
  intros Hok Hown Hold Hne Htrim Hd Hrot Hunused Hraw index Hrun.
  pose proof (rotate_retires id secret (digest old) Hown Hold Hne Hd i w Hok) as Hdead. rewrite Hrot in Hdead. cbn in Hdead.
  destruct res as [k0|err]; [|eauto]. exfalso.
  destruct (authorization_is_current_at (unused (digest old)) now raw j (w1 <| w_keyIndex := index |>) k0 k w' Hunused)
    as (s & id' & row & Hs & Hrow & Hh & _); [done|done|].
  rewrite Hraw, Htrim in Hh. by apply (Hs id' row).
Qed.

(** *** A valid secret *)

Section valid.
Context (Hnet : forall i, net i = Answered).
Context (id : Z) (hash : string) (now : instant).

Definition good (r : apiKeyRecord) : Prop :=
  r_KeyHash r = hash /\ r_Enabled r = true /\ forall t, r_ExpiresAt r = Some t -> now < t.

(** The key [id] bears [hash] and may be used. *)
Definition usable (w : world) : Prop := ok w /\ exists row, s_rows (w_keys w) !! id = Some row /\ good (w_record row).
Context (Husable : stable usable) (Htrim : TrimSpace hash = hash) (Hne : hash <> "").

Definition usable_key (key : ApiKey) : Prop :=
  k_ID key = id /\ k_Enabled key = true /\ expired now (k_ExpiresAt key) = false.

Lemma post_answered {A} P (f : Z -> keystore -> (A + go_error) * keystore) (Q : A + go_error -> world -> Prop) :
  stable P -> (forall t w, P w -> Q (fst (f t (w_keys w))) (with_keys w (snd (f t (w_keys w))))) ->
  post P (command other net clock f) Q.
Proof.
  intros Hs H i w Hp. unfold command. rewrite Hnet. specialize (H (clock i) (other i w) (Hs i w Hp)).
  by destruct (f (clock i) (w_keys (other i w))).
Qed.

Lemma post_read_answered {A} P (f : keystore -> A) (Q : A + go_error -> world -> Prop) :
  stable P -> (forall w, P w -> Q (inl (f (w_keys w))) w) -> post P (read other net clock f) Q.
Proof. intros Hs H. apply post_answered; [done|]. intros t w Hp. cbn. replace (with_keys w (w_keys w)) with w by (by destruct w). by apply H. Qed.

(** What the key [k], read while [id] is usable, may look like. *)
Definition plausible (k : Z) (res : ApiKey + go_error) : Prop :=
  (res = inr ErrNoRows /\ k <> id) \/ exists key, res = inl key /\ (k_KeyHash key = hash <-> k = id) /\ (k = id -> usable_key key).

Lemma read_plausible k row used s :
  consistent owner s -> s_rows s !! k = Some row -> (k = id -> good (w_record row)) ->
  (exists good_row, s_rows s !! id = Some good_row /\ good (w_record good_row)) ->
  plausible k (read_key k row used).
Proof.
  intros [_ Hc] Hrow Hgood [row0 [Hrow0 [Hh0 _]]]. destruct (Hc k row Hrow) as [Hid Hpos Hread _ _ Hhash].
  destruct (Hc id row0 Hrow0) as [_ _ _ _ _ Hhash0]. unfold read_key, decode. rewrite Hread.
  assert (Hk0 : (k_ID (toApiKey (w_record row)) =? 0) = false) by (apply Z.eqb_neq; cbn; lia). rewrite Hk0.
  right. eexists. split; [reflexivity|]. split; [|intros E; destruct (Hgood E) as (_ & He & Hx)]; destruct used; cbn.
  1, 2: split; [intros E|intros ->; by destruct (Hgood eq_refl)];
    rewrite Hh0 in Hhash0; rewrite E in Hhash; destruct (Hhash0 Hne) as [Ho _]; destruct (Hhash Hne) as [Ho' _]; congruence.
  all: split; [by subst|]; (split; [done|]); cbn; unfold expired; destruct (r_ExpiresAt (w_record row)); [|done];
    apply negb_false_iff, Time.Before_true; by apply Hx.
Qed.

Lemma usable_issued w : usable w -> 0 < id.
Proof. intros [[_ H] (row & Hrow & _)]. destruct (H id row Hrow) as [_ ? _ _ _ _]. lia. Qed.

Lemma get_usable k : post usable (getApiKeyByID other net clock k) (fun res w => usable w /\ plausible k res).
Proof.
  unfold getApiKeyByID. destruct (k =? 0) eqn:E.
  { apply post_ret. intros w Hu. split; [done|]. left. split; [done|]. pose proof (usable_issued w Hu). to_prop. lia. }
  apply (post_bind_ok _ _ _ (fun x w => usable w /\ match x with
    | inl None => k <> id
    | inl (Some row) => forall used, plausible k (read_key k row used)
    | inr _ => False end)); [| |by intros err w [_ ?]].
  { apply post_read_answered; [done|]. intros w Hu. split; [done|]. destruct Hu as [Hok Hrow0].
    destruct (s_rows (w_keys w) !! k) as [row|] eqn:Er.
    - intros used. apply (read_plausible k row used (w_keys w)); [done|done| |done].
      intros ->. destruct Hrow0 as (row0 & H0 & Hg). rewrite Er in H0. by injection H0 as ->.
    - intros ->. destruct Hrow0 as (row0 & H0 & _). congruence. }
  intros value. apply (post_bind_ok _ _ _ (fun x w => usable w /\ (exists used, x = inl used) /\ match value with
    | None => k <> id | Some row => forall used, plausible k (read_key k row used) end)); [| |by intros err w (_ & [? ?] & _)].
  { apply post_read_answered; [|intros w [Hu Hv]; split; [done|]; split; [eauto|by destruct value]].
    intros i w [Hu Hv]. split; [by apply Husable|done]. }
  intros used. apply post_ret. intros w (Hu & _ & Hv). split; [done|]. destruct value; [apply Hv|by left].
Qed.

Lemma lookup_usable :
  post usable (lookup_index other net clock hash) (fun res w => usable w /\ exists key, res = inl key /\ usable_key key).
Proof.
  unfold lookup_index.
  apply (post_bind_ok _ _ _ (fun x w => usable w /\ x = inl (Some id))); [| |by intros err w [_ ?]].
  { apply post_read_answered; [done|]. intros w Hu. split; [done|]. destruct Hu as [[_ Hc] (row & Hrow & Hh & _)].
    destruct (Hc id row Hrow) as [_ _ _ _ _ Hx]. f_equal. rewrite Hh in Hx. by apply Hx. }
  intros x. destruct x as [k|]; [|apply post_ret; by intros w [_ ?]].
  apply post_fact. intros [= ->].
  apply (post_bind_ok usable _ _ (fun x w => usable w /\ exists key, x = inl key /\ usable_key key /\ k_KeyHash key = hash));
    [| |by intros err w [_ (? & ? & _)]].
  { eapply post_weaken; [apply get_usable|done|]. intros x w [Hu [[-> ?]|(key & -> & Hh & Hk)]]; [done|].
    split; [done|]. exists key. split_and!; [done|by apply Hk|by apply Hh]. }
  intros key. apply post_fact. intros (key0 & [= <-] & Hk & Hh). rewrite Hh, String.eqb_refl.
  apply (post_bind usable _ _ (fun _ => usable)); [|intros _; apply post_ret; eauto].
  apply post_section; [done|]. by intros w Hu.
Qed.

Lemma by_hash_usable :
  post usable (GetApiKeyByHash other net clock hash) (fun res w => usable w /\ exists key, res = inl key /\ usable_key key).
Proof.
  unfold GetApiKeyByHash. rewrite Htrim, (proj2 (is_empty_false _) Hne).
  apply (post_bind usable _ _ (fun _ => usable)); [by apply post_section|]. intros cached.
  destruct (cached =? 0); [apply lookup_usable|].
  assert (Hstale : post usable (bind (section other (forget hash)) (fun _ => lookup_index other net clock hash))
                     (fun res w => usable w /\ exists key, res = inl key /\ usable_key key)).
  { apply (post_bind usable _ _ (fun _ => usable)); [by apply post_section|]. intros _. apply lookup_usable. }
  eapply post_bind; [apply get_usable|]. intros res. apply post_fact. intros [[-> _]|(key & -> & Hh & Hk)].
  - by rewrite decide_True by done.
  - destruct (String.eqb (k_KeyHash key) hash) eqn:E; [|done]. apply String.eqb_eq in E.
    apply post_ret. intros w Hu. split; [done|]. exists key. split; [done|]. apply Hk. by apply Hh.
Qed.

(** A request the script counted beyond the limit. *)
Definition over_limit (limit : Z) : Prop := exists server w n, usable w /\
  fst (consumeApiKeyRPMScript rewrite_int id (Z.quot (Time.Unix now) 60) now limit server (w_keys w)) = inl n /\ limit < n.

Lemma usable_row_exists w : usable w -> exists row, s_rows (w_keys w) !! id = Some row.
Proof. intros [_ (row & Hrow & _)]. eauto. Qed.

Lemma consume_usable limit :
  post usable (ConsumeApiKeyRPM other net clock rewrite_int id limit now)
    (fun res _ => res = inl true \/ res = inl false /\ over_limit limit).
Proof.
  unfold ConsumeApiKeyRPM. destruct (id =? 0) eqn:E.
  { apply post_ret. intros w Hu. pose proof (usable_issued w Hu). to_prop. lia. }
  apply (post_bind_ok _ _ _ (fun x _ => exists n, x = inl n /\ (limit < n -> over_limit limit))); [| |by intros err w (? & ? & _)].
  - apply post_answered; [done|]. intros t w Hu. destruct (usable_row_exists w Hu) as [row Hrow].
    destruct (fst (consumeApiKeyRPMScript rewrite_int id (Z.quot (Time.Unix now) 60) now limit t (w_keys w))) as [n|err] eqn:Er.
    + exists n. split; [done|]. intros Hn. by exists t, w, n.
    + exfalso. revert Er. unfold consumeApiKeyRPMScript. rewrite Hrow. destruct (limit <=? 0); [done|].
      by destruct (match _ with Some (count, expiry) => (_, expiry) | None => _ end).
  - intros n. apply post_ret. intros w (n' & [= <-] & Hn). destruct (n <=? limit) eqn:El; [by left|]. right.
    split; [done|]. apply Hn. to_prop. lia.
Qed.

Lemma touch_usable :
  post usable (touchApiKeyCoalesced other net clock rewrite_int id now) (fun res _ => res = None).
Proof.
  unfold touchApiKeyCoalesced. apply (post_bind _ _ _ (fun _ => usable)).
  { apply post_section; [done|]. intros w Hu. unfold note_touch. by destruct (_ && _). }
  intros [|]; [|by apply post_ret]. apply (post_bind _ _ _ (fun res _ => res = None)).
  - unfold TouchApiKeyLastUsed. destruct (id =? 0) eqn:E.
    { apply post_ret. intros w Hu. pose proof (usable_issued w Hu). to_prop. lia. }
    apply (post_bind _ _ _ (fun x _ => x = inl 1)); [|intros x; apply post_ret; by intros w ->].
    apply post_answered; [done|]. intros t w Hu. destruct (usable_row_exists w Hu) as [row Hrow].
    unfold touchApiKeyLastUsedScript. by rewrite Hrow.
  - intros [err|]; [|by apply post_ret]. by intros i w [=].
Qed.

Lemma authorize_usable raw :
  hash = digest (TrimSpace raw) -> TrimSpace raw <> "" ->
  post usable (AuthorizeApiKey other net clock digest rewrite_int now raw)
    (fun res _ => (exists key, res = inl key /\ k_ID key = id)
                  \/ res = inr ErrApiKeyRateLimited /\ exists limit, 0 < limit /\ over_limit limit).
Proof.
  intros Hh Hraw. unfold AuthorizeApiKey. rewrite (proj2 (is_empty_false _) Hraw), <- Hh.
  eapply post_bind_ok; [apply by_hash_usable| |by intros err w [_ (? & ? & _)]].
  intros key. apply post_fact. intros (key0 & [= <-] & Hid & Hen & Hex). rewrite Hen, Hex. cbn [negb].
  apply (post_bind_ok _ _ _ (fun x w => x = inl true /\ (k_RPMLimit key <= 0 -> usable w)
                                        \/ x = inl false /\ exists limit, 0 < limit /\ over_limit limit)).
  { destruct (0 <? k_RPMLimit key) eqn:E.
    - rewrite Hid. eapply post_weaken; [apply consume_usable|done|]. intros x w [->|[-> Ho]]; [left|right; to_prop; eauto].
      split; [done|]. to_prop. lia.
    - apply post_ret. by left. }
  2: by intros err w [[? _]|[? _]].
  intros [|]; cbn [negb]; [|apply post_ret; intros w [[? _]|[_ Ho]]; [done|by right]].
  apply (post_bind _ _ _ (fun failed _ => failed = None)).
  { destruct (k_RPMLimit key <=? 0) eqn:E; [|by apply post_ret]. to_prop. change (k_ID (key <| k_LastUsedAt := Some now |>)) with (k_ID key).
    rewrite Hid. eapply post_weaken; [apply touch_usable| |done]. intros w [[_ Hu]|[? _]]; [by apply Hu|done]. }
  intros [err|]; [by intros i w [=]|].
  apply (post_bind _ _ _ (fun key' _ => k_ID key' = id)); [|intros key'; apply post_ret; left; eauto].
  unfold rolloverApiKeyBilling. destruct (_ <=? 0); [by apply post_ret|].
  apply (post_bind _ _ _ (fun _ _ => True)); [by intros i w _|]. intros [[|]|err]; by apply post_ret.
Qed.
End valid.

(** a valid secret gets in: when every command is answered and the database is
    consistent, the secret of a key that stays enabled and unexpired throughout
    the call is let in as that key, whatever else the replicas do and whatever
    this process remembers; the one other answer is the rate limit, and only when
    the key has one and the minute's count is beyond it. *)
Theorem valid_secret_is_admitted id raw now i w res j w' :
  (forall i, net i = Answered) -> TrimSpace raw <> "" ->
  let hash := digest (TrimSpace raw) in
  TrimSpace hash = hash -> hash <> "" ->
  stable (usable id hash now) -> usable id hash now w ->
  AuthorizeApiKey other net clock digest rewrite_int now raw i w = (res, j, w') ->
  (exists key, res = inl key /\ k_ID key = id)
  \/ res = inr ErrApiKeyRateLimited /\ exists limit, 0 < limit /\ over_limit id hash now limit.
Proof.
  intros Hnet Hraw hash Htrim Hne Hs Hu Hrun.
  pose proof (authorize_usable Hnet id hash now Hs Htrim Hne raw eq_refl Hraw i w Hu) as H. by rewrite Hrun in H.
Qed.
End consistency.

(** ** Secrets *)

(** Row [id] holds a secret that opens to [secret] and is its hash. *)
Definition holds_secret (id : Z) (secret : string) (w : world) : Prop :=
  exists row, s_rows (w_keys w) !! id = Some row /\ w_readable row = true
    /\ r_KeyHash (w_record row) = digest secret
    /\ HasPrefix (r_EncryptedSecret (w_record row)) encryptedCredentialPrefix = true
    /\ decrypt true (r_EncryptedSecret (w_record row)) = inl secret.

Lemma sealed_secret n secret sealed :
  nonce = inl n -> String.length n = NonceSize -> secret <> "" ->
  sealApiKey keySecrets nonce secret = inl sealed ->
  HasPrefix sealed encryptedCredentialPrefix = true /\ decrypt true sealed = inl secret.
Proof.
  intros -> Hn Hne H. unfold sealApiKey in H. destruct keySecrets; [|done]. unfold encrypt in H.
  rewrite (proj2 (is_empty_false _) Hne) in H. cbn [negb orb] in H. injection H as <-.
  split; [apply HasPrefix_app_self|by apply decrypt_sealed].
Qed.

Lemma secret_opens id secret :
  keySecrets = true -> (forall i, net i = Answered) -> stable (holds_secret id secret) ->
  post (holds_secret id secret) (GetApiKeySecret other net clock keySecrets digest id) (fun res _ => res = inl secret).
Proof.
  intros Hk Hnet Hs. unfold GetApiKeySecret.
  apply (post_bind_ok _ _ _ (fun x _ => exists row, x = inl (Some row) /\ w_readable row = true
    /\ r_KeyHash (w_record row) = digest secret
    /\ HasPrefix (r_EncryptedSecret (w_record row)) encryptedCredentialPrefix = true
    /\ decrypt true (r_EncryptedSecret (w_record row)) = inl secret)); [| |by intros err w (? & ? & _)].
  - intros i w Hw. unfold read, command. rewrite Hnet. destruct (Hs i w Hw) as (row & Hrow & H). exists row. cbn. by rewrite Hrow.
  - intros x. apply post_ret. intros w (row & [= ->] & Hread & Hh & Hp & Hd). unfold decode. rewrite Hread, Hp, Hk, Hd, Hh.
    rewrite String.eqb_refl. destruct (is_empty _) eqn:E; [|done]. by destruct (r_EncryptedSecret (w_record row)).
Qed.

Lemma change_keeps_secret id secret change :
  writes_count -> stable (holds_secret id secret) ->
  (forall r r', r_EncryptedSecret r <> "" -> change r = inl r' ->
     r_EncryptedSecret r' = r_EncryptedSecret r /\ r_KeyHash r' = r_KeyHash r) ->
  post (holds_secret id secret) (mutateApiKey other net clock id change) (fun _ => holds_secret id secret).
Proof.
  intros Hwrites Hs Hch. apply (post_mutate Hwrites); [done| |done].
  intros w row r r' (row0 & Hrow0 & Hread & Hh & Hp & Hd) Hrow Hdec Hr'. rewrite Hrow in Hrow0. injection Hrow0 as <-.
  unfold decode in Hdec. rewrite Hread in Hdec. injection Hdec as <-.
  destruct (Hch (w_record row) r') as [He Hk]; [by intros E; rewrite E in Hp|done|].
  assert (Hnew : holds_secret id secret (with_keys w (commit_row id (r_KeyHash (w_record row)) r' (w_keys w)))).
  { exists (mkRow r' true). cbn [w_record w_readable]. rewrite He, Hk. split_and!; [|done..].
    unfold commit_row. destruct (String.eqb _ _); apply lookup_insert_eq. }
  by split.
Qed.

(** a secret is recoverable and only itself: after a rotation the sealed
    secret of the row opens to exactly the secret rotated in, no policy change
    (an update or a patch, by any replica) loses it, and whatever secret is ever
    shown hashes to the hash its row carried. *)
Theorem rotated_secret_is_recoverable id secret n i w key j w1 :
  writes_count -> nonce = inl n -> String.length n = NonceSize -> keySecrets = true ->
  RotateApiKey other net clock keySecrets nonce digest id secret i w = (inl key, j, w1) ->
  holds_secret id secret w1
  /\ (stable (holds_secret id secret) -> (forall i, net i = Answered) ->
      fst (fst (GetApiKeySecret other net clock keySecrets digest id j w1)) = inl secret)
  /\ (stable (holds_secret id secret) -> forall change, id <> 0 ->
      (exists key, k_ID key = id /\ change = update_change key) \/ (exists fields, change = patch_change parse_time fields) ->
      holds_secret id secret (snd (mutateApiKey other net clock id change j w1)))
  /\ (forall i w shown j w', GetApiKeySecret other net clock keySecrets digest id i w = (inl shown, j, w') ->
      exists row, s_rows (w_keys (other i w)) !! id = Some row /\ r_KeyHash (w_record row) = digest shown).
Proof.
  intros Hwrites Hn Hlen Hk Hrun.
  assert (H1 : holds_secret id secret w1).
  { assert (Hpost : post (fun _ => True) (RotateApiKey other net clock keySecrets nonce digest id secret)
      (fun res w => match res with inl _ => holds_secret id secret w | inr _ => True end)).
    { unfold RotateApiKey. destruct (_ <? _)%nat eqn:El; [by apply post_ret|]. apply Nat.ltb_ge in El.
      destruct (sealApiKey _ _ _) as [sealed|] eqn:Es; [|by apply post_ret].
      apply (post_bind_ok _ _ _ (fun res w => match res with inl _ => holds_secret id secret w | inr _ => True end));
        [|intros a; by apply post_ret|done].
      apply (post_mutate Hwrites (fun _ => True)); [done| |done]. intros w0 row r r' _ Hrow Hdec [= <-]. split; [|done].
      destruct (sealed_secret n secret sealed Hn Hlen ltac:(by intros ->) Es) as [Hp Hd].
      eexists. split; [unfold commit_row; destruct (String.eqb _ _); apply lookup_insert_eq|].
      split_and!; [reflexivity|reflexivity|exact Hp|exact Hd]. }
    specialize (Hpost i w I). by rewrite Hrun in Hpost. }
  split_and!; [done| | |].
  - intros Hs Hnet. by apply (secret_opens id secret Hk Hnet Hs j w1).
  - intros Hs change Hid Hch. apply (change_keeps_secret id secret change Hwrites Hs); [|done].
    intros r r' Hr Hr'. destruct Hch as [(k & _ & ->)|(fields & ->)].
    + injection Hr' as <-. rewrite (proj2 (is_empty_false _) Hr). done.
    + by destruct (patch_keeps_identity fields r r' Hr') as (? & _ & ?).
  - intros i' w' shown j' w2 Hget. unfold GetApiKeySecret, bind_ok, bind, read, command in Hget.
    destruct (net i') as [|[|m] err]; cbn in Hget; [|done|done].
    destruct (s_rows (w_keys (other i' w')) !! id) as [row|]; [|done]. exists row. split; [done|].
    unfold decode in Hget. destruct (w_readable row); [|done]. destruct (is_empty _); [done|].
    destruct (negb _); [done|]. destruct (negb _); [done|]. destruct (decrypt _ _) as [s0|]; [|done].
    destruct (String.eqb _ _) eqn:E; [|done]. injection Hget as -> _ _. by apply String.eqb_eq in E.
Qed.
End operations.

(** * The limit of a minute *)

Section minute.
Context (rewrite_int : Z -> Z * bool) (id minute : Z).

(** The requests of one key counted against one minute, latest first: the
    server's time and whether the count was within the limit the client asked
    for.  Redis may drop the counter once it has expired. *)
Inductive minute_run (bound : Z) : Z -> keystore -> list (Z * bool) -> Prop :=
| mr_start t s : s_rpm s !! (id, minute) = None -> minute_run bound t s []
| mr_other t s log t' s' :
    minute_run bound t s log -> t <= t' -> s_rpm s' !! (id, minute) = s_rpm s !! (id, minute) ->
    minute_run bound t' s' log
| mr_expired t s log count expiry s' :
    minute_run bound t s log -> s_rpm s !! (id, minute) = Some (count, expiry) -> expiry <= t ->
    s_rpm s' !! (id, minute) = None -> minute_run bound t s' log
| mr_consume t s log now limit n s' :
    minute_run bound t s log -> 0 < limit <= bound ->
    consumeApiKeyRPMScript rewrite_int id minute now limit t s = (inl n, s') ->
    minute_run bound t s' ((t, n <=? limit) :: log).

Definition granted (log : list (Z * bool)) : nat := length (List.filter snd log).

(** The requests of the minute reach the server within two minutes. *)
Definition within_window (log : list (Z * bool)) : Prop :=
  forall t t', t ∈ log.*1 -> t' ∈ log.*1 -> t < t' + 120000.

Lemma within_window_tail e log : within_window (e :: log) -> within_window log.
Proof. intros H t t' Ht Ht'. apply H; apply elem_of_cons; by right. Qed.

Lemma granted_length log : (granted log <= length log)%nat.
Proof. induction log as [|[t []] log IH]; cbn; unfold granted in *; cbn; lia. Qed.

(** The counter counts the requests until it expires. *)
Record counted (bound t : Z) (s : keystore) (log : list (Z * bool)) : Prop := {
  ct_bound : Z.of_nat (granted log) <= Z.max 0 bound;
  ct_times : Forall (fun t' => t' <= t) log.*1;
  ct_counter :
    match log with
    | [] => s_rpm s !! (id, minute) = None
    | _ => exists first, first ∈ log.*1
             /\ (s_rpm s !! (id, minute) = Some (Z.of_nat (length log), first + 120000)
                 \/ s_rpm s !! (id, minute) = None /\ first + 120000 <= t)
    end
}.

Lemma minute_counted bound t s log :
  minute_run bound t s log -> within_window log -> counted bound t s log.
Proof.
  intros H. induction H as [t s H|t s log t' s' _ IH Ht Hs|t s log count expiry s' _ IH Hs He Hs'
    |t s log now limit n s' _ IH Hl Hscript]; intros Hw.
  - split; [cbn; lia|constructor|done].
  - destruct (IH Hw) as [H1 H2 H3]. split; [done| |].
    + eapply Forall_impl; [exact H2|]. cbn. lia.
    + rewrite Hs. destruct log; [done|]. destruct H3 as (f & Hf & [H3|[H3 H4]]); exists f; split; [done|by left|done|right; split; [done|lia]].
  - destruct (IH Hw) as [H1 H2 H3]. split; [done|done|]. destruct log; [congruence|].
    destruct H3 as (f & Hf & [H3|[H3 _]]); [|congruence]. rewrite Hs in H3. injection H3 as -> ->. exists f. eauto.
  - destruct (IH (within_window_tail _ _ Hw)) as [H1 H2 H3]. revert Hscript. unfold consumeApiKeyRPMScript.
    destruct (s_rows s !! id) as [row|]; [|done]. rewrite (proj2 (Z.leb_gt _ _)) by lia.
    change (s_rpm (put_row id _ s)) with (s_rpm s).
    assert (Hcount : exists first, first ∈ t :: log.*1 /\
      match (match s_rpm s !! (id, minute) with
             | Some (count, expiry) => if expiry <=? t then None else Some (count, expiry) | None => None end) with
      | Some (count, expiry) => (count + 1, expiry) | None => (1, t + 120000) end
      = (Z.of_nat (S (length log)), first + 120000)).
    { destruct log as [|e log].
      - rewrite H3. exists t. split; [by apply elem_of_cons; left|done].
      - destruct H3 as (f & Hf & H3).
        assert (Hlt : t < f + 120000) by (apply Hw; [by apply elem_of_cons; left|by apply elem_of_cons; right]).
        destruct H3 as [->|[_ H3]]; [|lia]. rewrite (proj2 (Z.leb_gt _ _)) by lia. exists f.
        split; [by apply elem_of_cons; right|]. f_equal. lia. }
    destruct Hcount as (f & Hf & ->). intros [= <- <-]. split.
    + unfold granted in *. cbn [List.filter snd]. pose proof (granted_length log) as Hg. unfold granted in Hg.
      destruct (Z.of_nat (S (length log)) <=? limit) eqn:E; cbn [length]; to_prop; lia.
    + cbn. constructor; [lia|done].
    + exists f. split; [done|]. left. cbn [s_rpm]. apply lookup_insert_eq.
Qed.

(** C22: the per-minute limit holds: of all the requests that replicas count against
    one key and one minute, in any interleaving with each other and with every
    other use of the database, at most the limit are let through; a reply that is
    lost only lowers the number.  The requests must reach Redis within two minutes
    of each other, the life of the counter. *)
Theorem minute_limit_holds bound t s log :
  0 <= bound -> minute_run bound t s log -> within_window log -> Z.of_nat (granted log) <= bound.
Proof. intros Hb Hrun Hw. destruct (minute_counted bound t s log Hrun Hw) as [H _ _]. lia. Qed.
End minute.

(** * The billing period *)

Section period.
Context (rewrite_int : Z -> Z * bool) (id : Z).

(** One call of [RolloverApiKeyBilling] on the database as it stands. *)
Definition rollover (net : wire) (key : ApiKey) (now : instant) (s : keystore) : keystore :=
  w_keys (snd (RolloverApiKeyBilling (fun _ w => w) (fun _ => net) (fun _ => 0) rewrite_int key now 0%nat
                 (mkWorld s ∅ ∅))).

Definition start_of (s : keystore) : option instant := (fun w => r_BillingPeriodStartedAt (w_record w)) <$> s_rows s !! id.

(** The periods begun on one key's row, latest first: their length in days, as the
    caller's copy of the key has it, and when they began.  The callers' copies
    may be as old as they like. *)
Inductive period_run : keystore -> list (Z * instant) -> Prop :=
| pr_start s : period_run s []
| pr_other s log s' : period_run s log -> start_of s' = start_of s \/ start_of s' = None -> period_run s' log
| pr_rollover s log net key now :
    period_run s log -> k_ID key = id -> 365 * (24 * Hour) <= now ->
    period_run (rollover net key now s)
      (if decide (start_of (rollover net key now s) = start_of s) then log else (k_BillingPeriodDays key, now) :: log).

(** Each period begins after its predecessor has lasted its days. *)
Fixpoint spaced (log : list (Z * instant)) : Prop :=
  match log with
  | [] => True
  | (days, t) :: log =>
      0 < days /\ 365 * (24 * Hour) <= t
      /\ match log with [] => True | (_, t') :: _ => AddDays t' days <= t end /\ spaced log
  end.

(** What a rollover may do: nothing, or begin a period that is due. *)
Lemma rollover_effect net key now s :
  k_ID key = id ->
  let s' := rollover net key now s in
  s' = s
  \/ (0 < k_BillingPeriodDays key
      /\ start_of s' = Some now
      /\ (exists start, start_of s = Some start
          /\ (year_one start = true \/ AddDays start (k_BillingPeriodDays key) <= now))
      /\ s_ledgers s' id = (s_ledgers s id) <| l_used := Some 0 |> <| l_legacy := None |>
      /\ forall k, k <> id -> s_ledgers s' k = s_ledgers s k).
Proof.
  intros Hid. unfold rollover, RolloverApiKeyBilling. rewrite Hid. destruct (id =? 0); [by left|].
  destruct (k_BillingPeriodDays key <=? 0) eqn:Ed; [by left|].
  destruct (negb (Time.IsZero _) && _) eqn:Edue; [by left|].
  set (expected := if Time.IsZero (k_BillingPeriodStartedAt key) then None else Some (k_BillingPeriodStartedAt key)).
  set (script := rolloverApiKeyBillingScript rewrite_int id expected now (k_BillingPeriodDays key)).
  assert (Hscript : snd (script s) = s
    \/ (start_of (snd (script s)) = Some now
      /\ (exists start, start_of s = Some start
          /\ (year_one start = true \/ AddDays start (k_BillingPeriodDays key) <= now))
      /\ s_ledgers (snd (script s)) id = (s_ledgers s id) <| l_used := Some 0 |> <| l_legacy := None |>
      /\ forall k, k <> id -> s_ledgers (snd (script s)) k = s_ledgers s k)).
  { unfold script, rolloverApiKeyBillingScript. destruct (s_rows s !! id) as [w|] eqn:Ew; [|by left].
    destruct (negb (lua_number _ =? _)); [by left|].
    destruct (negb (match expected with None => _ | Some _ => _ end)) eqn:Ee; [by left|].
    apply negb_false_iff in Ee. right. split_and!.
    - unfold start_of. cbn. by rewrite lookup_insert_eq.
    - exists (r_BillingPeriodStartedAt (w_record w)). unfold start_of. rewrite Ew. split; [done|].
      unfold expected in Ee. destruct (Time.IsZero _); [by left|]. right. cbn [negb andb] in Edue. to_prop. rewrite Ee.
      by apply Time.Before_false.
    - cbn. by rewrite at_key_eq.
    - intros k Hk. cbn. by rewrite at_key_ne. }
  assert (Hcase : w_keys (snd (bind_ok (command (fun _ w => w) (fun _ => net) (fun _ => 0) (fun _ => script))
                    (fun rolled => ret (inl (rolled =? 1))) 0%nat (mkWorld s ∅ ∅))) = s
               \/ w_keys (snd (bind_ok (command (fun _ w => w) (fun _ => net) (fun _ => 0) (fun _ => script))
                    (fun rolled => ret (inl (rolled =? 1))) 0%nat (mkWorld s ∅ ∅))) = snd (script s)).
  { unfold bind_ok, bind, command. cbn. destruct net as [|[|n] err]; cbn; [|by left|by right].
    destruct (script s) as [[n|err] s']; by right. }
  cbn zeta. destruct Hcase as [->| ->]; [by left|]. destruct Hscript as [->|H]; [by left|right]. split; [to_prop; lia|exact H].
Qed.

Lemma period_spaced s log :
  period_run s log ->
  spaced log /\ match log, start_of s with (_, t) :: _, Some start => start = t | _, _ => True end.
Proof.
  intros H. induction H as [s|s log s' _ IH Hs|s log net key now _ [IH1 IH2] Hid Hnow]; [done| |].
  - destruct IH as [IH1 IH2]. split; [done|]. destruct Hs as [-> | ->]; [done|]. by destruct log as [|[? ?] ?].
  - destruct (rollover_effect net key now s Hid) as [E|(Hd & Hs' & (start & Hs & Hdue) & _)].
    { rewrite E, decide_True by done. done. }
    destruct (decide _) as [Heq|Hne]; [by rewrite Heq|]. rewrite Hs'. split; [|done]. cbn [spaced].
    split; [done|]. split; [done|]. split; [|done]. destruct log as [|[d t] log]; [done|]. rewrite Hs in IH2. subst start.
    destruct IH1 as (_ & Ht & _). destruct Hdue as [Hy|Hdue]; [|done]. unfold year_one in Hy. to_prop. lia.
Qed.

(** C24: usage is reset once per billing period: however many replicas find a period
    elapsed at once, with copies of the key of whatever age and with replies lost,
    the periods begun on a row are at least their length apart, so at most one
    reset falls into any of them; and a rollover leaves the live holds, the limit
    and the receipts of the key, and every other key, as they are. *)
Theorem one_reset_per_period s log :
  period_run s log ->
  spaced log
  /\ forall net key now, k_ID key = id ->
       let s' := rollover net key now s in
       l_reservations (s_ledgers s' id) = l_reservations (s_ledgers s id)
       /\ l_limit (s_ledgers s' id) = l_limit (s_ledgers s id) /\ l_receipts (s_ledgers s' id) = l_receipts (s_ledgers s id)
       /\ (forall k, k <> id -> s_ledgers s' k = s_ledgers s k)
       /\ (l_used (s_ledgers s' id) <> l_used (s_ledgers s id) -> start_of s' = Some now /\ l_used (s_ledgers s' id) = Some 0).
Proof.
  intros Hrun. split; [apply (period_spaced s log Hrun)|]. intros net key now Hid s'.
  destruct (rollover_effect net key now s Hid) as [E|(_ & Hs' & _ & Hl & Hk)]; subst s'.
  - rewrite E. by split_and!.
  - rewrite Hl. by split_and!.
Qed.
End period.

(** * Witnesses *)

Section demo.
#[local] Existing Instance plain_aead.
#[local] Existing Instance plain_base64.

(** Nobody else is around and Redis answers. *)
Definition alone : nat -> world -> world := fun _ w => w.
Definition answered : nat -> wire := fun _ => Answered.
Definition still : nat -> Z := fun _ => 0.
Definition demo_digest (secret : string) : string := "h" +:+ secret.
Definition exactly (n : Z) : Z * bool := (n, true).
Definition demo_nonce : string + go_error := inl "00".
Definition demo_owner : string -> option Z := fun _ => Some 7.
Definition demo_now : instant := 800 * (24 * Hour).

(** Key 7, with the secret "sk-old", two requests a minute and 30 day periods. *)
Definition demo_record : apiKeyRecord :=
  mkRecord "enc:v1:00sk-old" 7 "ci" (demo_digest "sk-old") "sk-" "-old" true [] 2 0 1000 0 30 (700 * (24 * Hour)) None None 1.
Definition demo_store : keystore :=
  mkKeystore 7 {[7]} {[7 := mkRow demo_record true]} (fun _ => 0) {[demo_digest "sk-old" := 7]}
    (fun _ => empty_ledger <| l_limit := Some 1000 |> <| l_used := Some 400 |>) ∅.
Definition demo_world : world := mkWorld demo_store {[demo_digest "sk-old" := 7]} ∅.

Lemma demo_row_only id w : s_rows demo_store !! id = Some w -> id = 7 /\ w = mkRow demo_record true.
Proof. unfold demo_store. cbn [s_rows]. intros H. by apply lookup_singleton_Some in H as [<- <-]. Qed.

Lemma demo_consistent : consistent demo_owner demo_store.
Proof.
  split; [by cbn|]. intros id w H. apply demo_row_only in H as [-> ->].
  split; [reflexivity|by cbn|reflexivity| |reflexivity|by split].
  unfold small, ints. repeat apply Forall_cons_2; [reflexivity..|apply Forall_nil_2].
Qed.

Lemma alone_stable (P : world -> Prop) : stable alone P.
Proof. by intros i w. Qed.

Lemma alone_counts : writes_count alone.
Proof. intros i w id. unfold alone. split; [lia|done]. Qed.

Lemma mutation_is_atomic_witness :
  exists r w', fst (fst (mutateApiKey alone answered still 7 (patch_change (fun _ => None) [("enabled", JBool false)]) 0%nat demo_world))
      = inl r
    /\ r_Enabled r = false /\ w' = snd (mutateApiKey alone answered still 7
                                    (patch_change (fun _ => None) [("enabled", JBool false)]) 0%nat demo_world)
    /\ exists w old, drifted alone demo_world w /\ w' = with_keys w (commit_row 7 (r_KeyHash old) r (w_keys w)).
Proof.
  destruct (mutateApiKey alone answered still 7 (patch_change (fun _ => None) [("enabled", JBool false)]) 0%nat demo_world)
    as [[res j] w'] eqn:E.
  pose proof (mutation_is_atomic alone answered still 7 _ 0%nat demo_world res j w' alone_counts E) as H.
  assert (Hres : res = inl (demo_record <| r_Enabled := false |>)).
  { change res with (fst (fst (res, j, w'))). rewrite <- E. vm_compute. reflexivity. }
  subst res. destruct H as (w & row & old & Hd & _ & _ & _ & Hw').
  exists (demo_record <| r_Enabled := false |>), w'. split; [reflexivity|]. split; [reflexivity|]. split; [reflexivity|].
  exists w, old. split; [exact Hd|exact Hw'].
Defined.

Lemma keys_stay_consistent_witness :
  consistent demo_owner
    (w_keys (snd (RotateApiKey alone answered still true demo_nonce demo_digest 7 "sk-newer" 0%nat demo_world))).
Proof.
  destruct (keys_stay_consistent alone answered still true demo_nonce demo_digest exactly (fun _ => None) demo_owner)
    as (_ & _ & H & _).
  - by intros n _.
  - apply alone_stable.
  - apply alone_counts.
  - intros i w. unfold alone. lia.
  - apply (H 7 "sk-newer" eq_refl 0%nat demo_world demo_consistent).
Defined.


Lemma rotated_secret_is_refused_witness :
  exists err,
    let '(_, j, w1) := RotateApiKey alone answered still true demo_nonce demo_digest 7 "sk-newer" 0%nat demo_world in
    fst (fst (AuthorizeApiKey alone answered still demo_digest exactly demo_now "sk-old" j
                (w1 <| w_keyIndex := w_keyIndex demo_world |>))) = inr err.
Proof.
  destruct (RotateApiKey alone answered still true demo_nonce demo_digest 7 "sk-newer" 0%nat demo_world) as [[res j] w2] eqn:E.
  assert (Hj : exists key, res = inl key) by (apply (f_equal (fun x => fst (fst x))) in E; revert E; vm_compute; eauto).
  destruct Hj as [key ->].
  destruct (AuthorizeApiKey alone answered still demo_digest exactly demo_now "sk-old" j
              (w2 <| w_keyIndex := w_keyIndex demo_world |>)) as [[res k] w'] eqn:Ea.
  destruct (rotated_secret_is_refused alone answered still true demo_nonce demo_digest exactly demo_owner
              (alone_stable _) alone_counts 7 "sk-old" "sk-newer" 0%nat demo_world key j w2 demo_now "sk-old" res k w') with
    (index := w_keyIndex demo_world) as [err Herr].
  - apply demo_consistent.
  - reflexivity.
  - reflexivity.
  - discriminate.
  - vm_compute. reflexivity.
  - discriminate.
  - exact E.
  - apply alone_stable.
  - vm_compute. reflexivity.
  - exact Ea.
  - exists err. exact Herr.
Defined.

Lemma demo_usable : usable demo_owner 7 (demo_digest "sk-old") demo_now demo_world.
Proof.
  split; [apply demo_consistent|]. exists (mkRow demo_record true). split; [reflexivity|]. by split_and!.
Qed.

Lemma valid_secret_is_admitted_witness :
  let res := fst (fst (AuthorizeApiKey alone answered still demo_digest exactly demo_now "sk-old" 0%nat demo_world)) in
  (exists key, res = inl key /\ k_ID key = 7)
  \/ res = inr ErrApiKeyRateLimited
     /\ exists limit, 0 < limit /\ over_limit exactly demo_owner 7 (demo_digest "sk-old") demo_now limit.
Proof.
  destruct (AuthorizeApiKey alone answered still demo_digest exactly demo_now "sk-old" 0%nat demo_world)
    as [[res j] w'] eqn:E.
  refine (valid_secret_is_admitted alone answered still demo_digest exactly demo_owner 7 "sk-old" demo_now 0%nat
            demo_world res j w' _ _ _ _ _ _ E).
  - reflexivity.
  - vm_compute. discriminate.
  - vm_compute. reflexivity.
  - vm_compute. discriminate.
  - apply alone_stable.
  - replace (TrimSpace "sk-old") with "sk-old" by (vm_compute; reflexivity). apply demo_usable.
Defined.

Lemma rotated_secret_is_recoverable_witness :
  let '(_, j, w1) := RotateApiKey alone answered still true demo_nonce demo_digest 7 "sk-newer" 0%nat demo_world in
  fst (fst (GetApiKeySecret alone answered still true demo_digest 7 j w1)) = inl "sk-newer".
Proof.
  destruct (RotateApiKey alone answered still true demo_nonce demo_digest 7 "sk-newer" 0%nat demo_world) as [[res j] w1] eqn:E.
  assert (Hj : exists key, res = inl key) by (apply (f_equal (fun x => fst (fst x))) in E; revert E; vm_compute; eauto).
  destruct Hj as [key ->].
  destruct (rotated_secret_is_recoverable (Aead := plain_aead) (B64 := plain_base64) alone answered still true demo_nonce demo_digest (fun _ => None) 7 "sk-newer" "00"
              0%nat demo_world key j w1 alone_counts eq_refl eq_refl eq_refl E) as (_ & H & _).
  apply H; [apply alone_stable|reflexivity].
Defined.

(** Three requests in one minute under a limit of two. *)
Definition consume_at (t : Z) (s : keystore) : keystore := snd (consumeApiKeyRPMScript exactly 7 100 demo_now 2 t s).

Lemma minute_limit_holds_witness : Z.of_nat (granted [(3, false); (2, true); (1, true)]) <= 2.
Proof.
  refine (minute_limit_holds exactly 7 100 2 3 (consume_at 3 (consume_at 2 (consume_at 1 demo_store)))
            [(3, false); (2, true); (1, true)] ltac:(lia) _ _).
  - refine (mr_consume exactly 7 100 2 3 (consume_at 2 (consume_at 1 demo_store)) [(2, true); (1, true)] demo_now 2 3
              (consume_at 3 (consume_at 2 (consume_at 1 demo_store))) _ ltac:(lia) _); [|vm_compute; reflexivity].
    apply (mr_other exactly 7 100 2 2 (consume_at 2 (consume_at 1 demo_store))); [|lia|reflexivity].
    refine (mr_consume exactly 7 100 2 2 (consume_at 1 demo_store) [(1, true)] demo_now 2 2
              (consume_at 2 (consume_at 1 demo_store)) _ ltac:(lia) _); [|vm_compute; reflexivity].
    apply (mr_other exactly 7 100 2 1 (consume_at 1 demo_store)); [|lia|reflexivity].
    refine (mr_consume exactly 7 100 2 1 demo_store [] demo_now 2 1 (consume_at 1 demo_store) _ ltac:(lia) _);
      [|vm_compute; reflexivity].
    apply mr_start. reflexivity.
  - intros t t' Ht Ht'. cbn in Ht, Ht'. rewrite !elem_of_cons in Ht, Ht'.
    destruct Ht as [->|[->|[->|H]]]; [..|by apply not_elem_of_nil in H];
      destruct Ht' as [->|[->|[->|H]]]; try lia; by apply not_elem_of_nil in H.
Defined.

(** Two replicas find the period elapsed; the second one's reset is void. *)
Lemma one_reset_per_period_witness : spaced [(30, demo_now)].
Proof.
  set (key := toApiKey demo_record).
  set (s1 := rollover exactly Answered key demo_now demo_store).
  refine (proj1 (one_reset_per_period exactly 7 (rollover exactly Answered key (demo_now + 1) s1) [(30, demo_now)] _)).
  assert (H1 : period_run exactly 7 s1 [(30, demo_now)]).
  { pose proof (pr_rollover exactly 7 demo_store [] Answered key demo_now (pr_start exactly 7 demo_store) eq_refl
                  ltac:(vm_compute; discriminate)) as H.
    replace (if decide _ then _ else _) with [(30, demo_now)] in H by (vm_compute; reflexivity). exact H. }
  pose proof (pr_rollover exactly 7 s1 _ Answered key (demo_now + 1) H1 eq_refl ltac:(vm_compute; discriminate)) as H.
  replace (if decide _ then _ else _) with [(30, demo_now)] in H by (vm_compute; reflexivity). exact H.
Defined.

(** A caller that writes back the whole key it read earlier undoes what others
    changed since: here an operator's disabling of the key. *)
Lemma stale_update_reenables_a_key :
  let '(read, i, w) := getApiKeyByID alone answered still 7 0%nat demo_world in
  let '(patched, i, w) := PatchApiKey alone answered still (fun _ => None) 7 [("enabled", JBool false)] i w in
  match read with
  | inl key =>
      let '(updated, i, w) := UpdateApiKey alone answered still key i w in
      patched = None /\ updated = None
      /\ (fun row => r_Enabled (w_record row)) <$> s_rows (w_keys w) !! 7 = Some true
  | inr _ => False
  end.
Proof. vm_compute. done. Qed.
End demo.
