(* ===== verification/Interleaving.v ===== *)
(** Requests that run side by side: programs made of atomic actions on a shared
    state, the interleavings of any number of them, and a small program logic
    in which each request carries a ticket that says what it holds.  The
    logic's adequacy theorem turns a proof about one request into an invariant
    of every interleaving. *)

From S2P Require Import Prelude.

(** * Programs *)

Section programs.
Context {W : Type}.

(** A program returns, or runs one atomic action on the shared state, or repeats
    a body until it produces a value ([for { ... break }]); [Loop body cur k]
    is a loop whose current round has [cur] left to run. *)
Inductive prog : Type -> Type :=
| Ret {A : Type} (a : A) : prog A
| Act {A B : Type} (f : W -> B * W) (k : B -> prog A) : prog A
| Loop {A B : Type} (body cur : prog (option B)) (k : B -> prog A) : prog A.

Fixpoint bind {A B : Type} (p : prog A) : (A -> prog B) -> prog B :=
  match p with
  | Ret a => fun g => g a
  | Act f k => fun g => Act f (fun b => bind (k b) g)
  | Loop body cur k => fun g => Loop body cur (fun b => bind (k b) g)
  end.

Definition atomically {B : Type} (f : W -> B * W) : prog B := Act f Ret.

Definition modify (f : W -> W) : prog unit := atomically (fun w => (tt, f w)).

Definition repeat_until {B : Type} (body : prog (option B)) : prog B := Loop body body Ret.

(** [defer cleanup]: it runs whichever way the body ends. *)
Definition defer {A : Type} (cleanup : prog unit) (body : prog A) : prog A :=
  bind body (fun a => bind cleanup (fun _ => Ret a)).

Definition result {A : Type} (p : prog A) : option A :=
  match p with Ret a => Some a | _ => None end.

(** The next step of a program; a round that ends without a value starts the
    loop's body again. *)
Fixpoint next {A : Type} (p : prog A) (w : W) : option (prog A * W) :=
  match p with
  | Ret _ => None
  | Act f k => let '(b, w) := f w in Some (k b, w)
  | Loop body cur k =>
      match next cur w with
      | Some (cur, w) => Some (Loop body cur k, w)
      | None =>
          match result cur with
          | Some (Some b) => Some (k b, w)
          | _ => Some (Loop body body k, w)
          end
      end
  end.

(** A program run by itself. *)
Fixpoint alone {A : Type} (fuel : nat) (p : prog A) (w : W) : option (A * W) :=
  match result p, fuel with
  | Some a, _ => Some (a, w)
  | None, O => None
  | None, S fuel => match next p w with Some (p, w) => alone fuel p w | None => None end
  end.

(** * Interleavings *)

Record system (A : Type) := mkSystem { shared : W; threads : list (prog A) }.
Arguments mkSystem {A} _ _.
Arguments shared {A} _.
Arguments threads {A} _.

Section runs.
Context {A : Type} (spawns : prog A -> Prop) (environment : W -> W -> Prop).

(** A request arrives, a request takes its next step, or the rest of the process
    moves. *)
Inductive step : system A -> system A -> Prop :=
| step_arrival w ps p : spawns p -> step (mkSystem w ps) (mkSystem w (ps ++ [p]))
| step_action w ps i p p' w' :
    ps !! i = Some p -> next p w = Some (p', w') ->
    step (mkSystem w ps) (mkSystem w' (<[i := p']> ps))
| step_environment w ps w' : environment w w' -> step (mkSystem w ps) (mkSystem w' ps).

(** The [i]-th request takes its next step, if it has one. *)
Definition poke (i : nat) (s : system A) : system A :=
  match threads s !! i with
  | Some p =>
      match next p (shared s) with
      | Some (p', w') => mkSystem w' (<[i := p']> (threads s))
      | None => s
      end
  | None => s
  end.

Inductive reachable (w0 : W) : system A -> Prop :=
| reach_start : reachable w0 (mkSystem w0 [])
| reach_step s s' : reachable w0 s -> step s s' -> reachable w0 s'.
End runs.

Definition over {A : Type} (ps : list (prog A)) : Prop := Forall (fun p => is_Some (result p)) ps.

Definition all_over {A : Type} (ps : list (prog A)) : bool :=
  forallb (fun p => match result p with Some _ => true | None => false end) ps.

Lemma all_over_spec {A : Type} (ps : list (prog A)) : all_over ps = true -> over ps.
Proof.
  unfold all_over, over. rewrite forallb_forall, Forall_forall. intros H p Hp%list_elem_of_In.
  specialize (H p Hp). destruct (result p); eauto. done.
Qed.

Lemma poke_reachable {A} (spawns : prog A -> Prop) environment w0 s i :
  reachable spawns environment w0 s -> reachable spawns environment w0 (poke i s).
Proof.
  intros Hs. destruct s as [w ps]. unfold poke. cbn. destruct (ps !! i) as [p|] eqn:Ei; [|done].
  destruct (next p w) as [[p' w']|] eqn:En; [|done]. eapply reach_step; [exact Hs|]. by apply step_action with (p := p).
Qed.

Lemma pokes_reachable {A} (spawns : prog A -> Prop) environment w0 s schedule :
  reachable spawns environment w0 s -> reachable spawns environment w0 (foldl (fun s i => poke i s) s schedule).
Proof. revert s. induction schedule as [|i schedule IH]; intros s Hs; cbn; [done|]. by apply IH, poke_reachable. Qed.

(** ** No request is ever blocked *)

Lemma next_total {A} (p : prog A) w : result p = None -> is_Some (next p w).
Proof.
  destruct p; cbn; intros H; [done|..]; repeat case_match; eauto.
Qed.

(** ** A program that runs to its end with nobody in between *)

Inductive ends {A : Type} : prog A -> W -> A -> W -> Prop :=
| ends_ret a w : ends (Ret a) w a w
| ends_step p w p' w' a w'' : next p w = Some (p', w') -> ends p' w' a w'' -> ends p w a w''.

Lemma result_Ret {A} (p : prog A) a : result p = Some a -> p = Ret a.
Proof. destruct p; cbn; congruence. Qed.

Lemma alone_ends {A} n (p : prog A) w a w' : alone n p w = Some (a, w') -> ends p w a w'.
Proof.
  revert p w. induction n as [|n IH]; intros p w; cbn [alone]; destruct (result p) as [b|] eqn:Er.
  - intros [= <- <-]. rewrite (result_Ret p b Er). constructor.
  - done.
  - intros [= <- <-]. rewrite (result_Ret p b Er). constructor.
  - destruct (next p w) as [[p' w1]|] eqn:En; [|done]. intros H. eapply ends_step; [exact En|by apply IH].
Qed.

Lemma ends_cases {A} (p : prog A) w a w' :
  ends p w a w' -> p = Ret a /\ w' = w \/ exists p1 w1, next p w = Some (p1, w1) /\ ends p1 w1 a w'.
Proof. intros H. destruct H; [by left|right; eauto]. Qed.

Lemma ends_unique {A} (p : prog A) w a w1 b w2 : ends p w a w1 -> ends p w b w2 -> a = b /\ w1 = w2.
Proof.
  intros H. revert b w2. induction H as [a w|p w p' w' a w'' Hn _ IH]; intros b w2 H2; apply ends_cases in H2.
  - destruct H2 as [[Hp ->]|(p' & w' & Hn & _)]; [|done]. apply (f_equal result) in Hp. by injection Hp as ->.
  - destruct H2 as [[-> ->]|(p1 & w1 & Hn1 & H1)]; [done|]. rewrite Hn in Hn1. injection Hn1 as <- <-. by apply IH.
Qed.

Lemma ends_act {A B} (f : W -> B * W) (k : B -> prog A) w a w' :
  ends (k (fst (f w))) (snd (f w)) a w' -> ends (Act f k) w a w'.
Proof. intros H. eapply ends_step; [|exact H]. cbn. by destruct (f w). Qed.

Lemma ends_modify (f : W -> W) w : ends (modify f) w tt (f w).
Proof. apply ends_act. constructor. Qed.

Lemma next_bind {A B} (p : prog A) (g : A -> prog B) w p' w' :
  next p w = Some (p', w') -> next (bind p g) w = Some (bind p' g, w').
Proof.
  destruct p; cbn; intros H; [done|..]; repeat case_match; simplify_eq; done.
Qed.

Lemma ends_bind {A B} (p : prog A) (g : A -> prog B) w a w1 b w2 :
  ends p w a w1 -> ends (g a) w1 b w2 -> ends (bind p g) w b w2.
Proof.
  intros Hp Hg. induction Hp as [a w|p w p' w' a w'' Hn _ IH]; [done|].
  eapply ends_step; [by apply next_bind|]. by apply IH.
Qed.

Lemma ends_atomically {A B} (f : W -> B * W) (g : B -> prog A) w a w' :
  ends (g (fst (f w))) (snd (f w)) a w' -> ends (bind (atomically f) g) w a w'.
Proof. intros H. by apply ends_act. Qed.

Lemma ends_defer {A} (cleanup : prog unit) (body : prog A) w a w1 w2 :
  ends body w a w1 -> ends cleanup w1 tt w2 -> ends (defer cleanup body) w a w2.
Proof. intros Hb Hc. eapply ends_bind; [exact Hb|]. eapply ends_bind; [exact Hc|constructor]. Qed.

(** A loop whose first round produces a value. *)
Lemma ends_repeat {B} (body : prog (option B)) w b w' : ends body w (Some b) w' -> ends (repeat_until body) w b w'.
Proof.
  unfold repeat_until. generalize body at 2. intros cur H. remember (Some b) as o eqn:Eo.
  induction H as [a w|p w p' w' a w'' Hn _ IH]; subst.
  - eapply ends_step; [reflexivity|constructor].
  - eapply ends_step; [|by apply IH]. cbn. by rewrite Hn.
Qed.

(** * The logic *)

Section logic.
Context {R : Type} (inv : list R -> W -> Prop).

(** [wp p x Q]: from a state of the invariant, whatever the other requests hold
    and do between its steps, [p] keeps the invariant while it moves its own
    ticket from [x], and what it returns with which ticket satisfies [Q]. *)
Fixpoint wp {A : Type} (p : prog A) (x : R) : (A -> R -> Prop) -> Prop :=
  match p with
  | Ret a => fun Q => Q a x
  | Act f k => fun Q =>
      forall l1 l2 w, inv (l1 ++ x :: l2) w ->
        exists x', inv (l1 ++ x' :: l2) (snd (f w)) /\ wp (k (fst (f w))) x' Q
  | Loop body cur k => fun Q =>
      exists I : R -> Prop,
        let round := fun o y => match o with Some b => wp (k b) y Q | None => I y end in
        wp cur x round /\ forall y, I y -> wp body y round
  end.

Definition restores {A} (p : prog A) (x : R) : Prop := wp p x (fun _ y => y = x).

Lemma wp_weaken {A} (p : prog A) x (Q Q' : A -> R -> Prop) :
  (forall a y, Q a y -> Q' a y) -> wp p x Q -> wp p x Q'.
Proof.
  revert x Q Q'. induction p as [A a|A B f k IH|A B body IHb cur IHc k IH]; intros x Q Q' HQ; cbn.
  - apply HQ.
  - intros H l1 l2 w Hw. destruct (H l1 l2 w Hw) as (x' & Hw' & Hk). eauto.
  - intros (I & Hcur & Hbody). exists I.
    split; [revert Hcur; apply IHc|intros y Hy; generalize (Hbody y Hy); apply IHb];
      intros [b|] z; eauto.
Qed.

Lemma wp_bind {A B} (p : prog A) (g : A -> prog B) x Q :
  wp p x (fun a y => wp (g a) y Q) -> wp (bind p g) x Q.
Proof.
  revert x. induction p as [A a|A C f k IH|A C body IHb cur IHc k IH]; intros x; cbn.
  - done.
  - intros H l1 l2 w Hw. destruct (H l1 l2 w Hw) as (x' & Hw' & Hk). eauto.
  - intros (I & Hcur & Hbody). exists I.
    split; [revert Hcur|intros y Hy; generalize (Hbody y Hy)]; apply wp_weaken; intros [c|] z; auto.
Qed.

Lemma wp_atomically {B} (f : W -> B * W) x (Q : B -> R -> Prop) :
  (forall l1 l2 w, inv (l1 ++ x :: l2) w -> exists x', inv (l1 ++ x' :: l2) (snd (f w)) /\ Q (fst (f w)) x') ->
  wp (atomically f) x Q.
Proof. done. Qed.

Lemma wp_modify (f : W -> W) x x' :
  (forall l1 l2 w, inv (l1 ++ x :: l2) w -> inv (l1 ++ x' :: l2) (f w)) ->
  wp (modify f) x (fun _ y => y = x').
Proof. intros H l1 l2 w Hw. exists x'. split; [by apply H|done]. Qed.

(** A loop whose body keeps its ticket until it produces a value. *)
Lemma wp_repeat {B} (body : prog (option B)) x (Q : B -> R -> Prop) :
  wp body x (fun o y => match o with Some b => Q b y | None => y = x end) -> wp (repeat_until body) x Q.
Proof. intros H. exists (fun y => y = x). split; [exact H|intros y ->; exact H]. Qed.

Lemma wp_defer {A} (cleanup : prog unit) (body : prog A) x y :
  restores body x -> wp cleanup x (fun _ z => z = y) -> wp (defer cleanup body) x (fun _ z => z = y).
Proof.
  intros Hb Hc. apply wp_bind. revert Hb. apply wp_weaken. intros a z ->. apply wp_bind.
  revert Hc. by apply wp_weaken.
Qed.

Lemma wp_result {A} (p : prog A) a x Q : wp p x Q -> result p = Some a -> Q a x.
Proof. destruct p; cbn; intros H; [by intros [= <-]|done..]. Qed.

(** One step keeps the invariant, at the cost of a new ticket. *)
Lemma wp_next {A} (p : prog A) x Q l1 l2 w p' w' :
  wp p x Q -> inv (l1 ++ x :: l2) w -> next p w = Some (p', w') ->
  exists x', inv (l1 ++ x' :: l2) w' /\ wp p' x' Q.
Proof.
  revert x Q p'. induction p as [A a|A B f k IH|A B body IHb cur IHc k IH]; intros x Q p' Hp Hw Hn; cbn in *.
  - done.
  - destruct (Hp l1 l2 w Hw) as (x' & H1 & H2). destruct (f w) as [b w1]. injection Hn as <- <-. eauto.
  - destruct Hp as (I & Hcur & Hbody). destruct (next cur w) as [[cur' w1]|] eqn:Ec.
    + injection Hn as <- <-. destruct (IHc x _ cur' Hcur Hw eq_refl) as (x' & H1 & H2).
      exists x'. split; [done|]. by exists I.
    + destruct (result cur) as [o|] eqn:Er; [|exfalso; destruct (next_total cur w Er); congruence].
      pose proof (wp_result cur o x _ Hcur Er) as Hround. cbn in Hround.
      destruct o as [b|]; injection Hn as <- <-; exists x; (split; [done|]); [done|].
      exists I. split; [|done]. by apply Hbody.
Qed.

(** ** Adequacy *)

Section adequacy.
Context {A : Type} (spawns : prog A -> Prop) (environment : W -> W -> Prop) (idle : R).
Context (Hspawns : forall p, spawns p -> restores p idle).
Context (Harrival : forall l w, inv l w -> inv (l ++ [idle]) w).
Context (Henvironment : forall l w w', inv l w -> environment w w' -> inv l w').

(** The tickets of a system's requests: each request ends with the ticket it
    arrived with. *)
Definition ticketed (s : system A) (l : list R) : Prop :=
  Forall2 (fun p x => wp p x (fun _ y => y = idle)) (threads s) l /\ inv l (shared s).

Lemma step_ticketed s s' l :
  ticketed s l -> step spawns environment s s' -> exists l', ticketed s' l'.
Proof.
  intros [Hl Hw] Hstep. destruct Hstep as [w ps p Hp|w ps i p p' w' Hi Hn|w ps w' He]; cbn in *.
  - exists (l ++ [idle]). split; cbn; [|by apply Harrival].
    apply Forall2_app; [done|]. constructor; [by apply Hspawns|constructor].
  - destruct (Forall2_lookup_l _ _ _ _ _ Hl Hi) as (x & Hx & Hpx).
    rewrite <- (take_drop_middle l i x Hx) in Hw.
    destruct (wp_next p x _ _ _ w p' w' Hpx Hw Hn) as (x' & Hw' & Hp').
    exists (<[i := x']> l). split; cbn; [by apply Forall2_insert|].
    by rewrite insert_take_drop by (by apply lookup_lt_Some in Hx).
  - exists l. split; cbn; [done|]. by apply (Henvironment l w).
Qed.

Theorem adequacy w0 s : inv [] w0 -> reachable spawns environment w0 s -> exists l, ticketed s l.
Proof.
  intros H0 Hr. induction Hr as [|s s' _ [l Hl] Hstep]; [by exists []; split|].
  by apply (step_ticketed s s' l).
Qed.

(** When every request is over, nothing is held any more. *)
Lemma ticketed_over s l : ticketed s l -> over (threads s) -> l = replicate (length l) idle.
Proof.
  intros [Hl _] Ho. symmetry. apply replicate_as_Forall_2; [done|]. induction Hl as [|p x ps l Hp _ IH]; [constructor|].
  apply Forall_cons in Ho as [[a Ha] Ho]. constructor; [|by apply IH].
  symmetry. by apply (wp_result p a x _ Hp Ha).
Qed.
End adequacy.
End logic.
End programs.

Arguments mkSystem {W A} _ _.
Arguments shared {W A} _.
Arguments threads {W A} _.
Arguments prog W A : clear implicits.

Declare Scope prog_scope.
Delimit Scope prog_scope with prog.
Notation "'let*' x ':=' e 'in' k" := (bind e (fun x => k))
  (at level 10, x name, e at level 100, k at level 200) : prog_scope.
Notation "'do*' e 'in' k" := (bind e (fun _ => k))
  (at level 10, e at level 100, k at level 200) : prog_scope.

(** A program on a part of the state, run on the whole of it. *)
Section lift.
Context {V W : Type} (get : W -> V) (put : V -> W -> W).

Fixpoint lift {A : Type} (p : prog V A) : prog W A :=
  match p with
  | Ret a => Ret a
  | Act f k => Act (fun w => let '(b, v) := f (get w) in (b, put v w)) (fun b => lift (k b))
  | Loop body cur k => Loop (lift body) (lift cur) (fun b => lift (k b))
  end.

Lemma result_lift {A} (p : prog V A) : result (lift p) = result p.
Proof. by destruct p. Qed.

Section lens.
Context (Hget : forall v w, get (put v w) = v) (Hput : forall v v' w, put v (put v' w) = put v w).
Context (Hself : forall w, put (get w) w = w).

Lemma next_lift {A} (p : prog V A) w p' v :
  next p (get w) = Some (p', v) -> next (lift p) w = Some (lift p', put v w).
Proof.
  revert p' v. induction p as [A a|A B f k IH|A B body IHb cur IHc k IH]; intros p' v; cbn.
  - done.
  - destruct (f (get w)) as [b v']. by intros [= <- <-].
  - destruct (next cur (get w)) as [[cur' v']|] eqn:En.
    + intros [= <- <-]. by rewrite (IHc cur' v' eq_refl).
    + assert (next (lift cur) w = None) as ->.
      { destruct cur; cbn in *; [done|by destruct (f (get w))|]. by repeat case_match. }
      rewrite result_lift. destruct (result cur) as [[b|]|]; intros [= <- <-]; cbn; by rewrite Hself.
Qed.

(** Alone, it does to its part what the program does. *)
Lemma ends_lift {A} (p : prog V A) w a v : ends p (get w) a v -> ends (lift p) w a (put v w).
Proof.
  remember (get w) as u eqn:Eu. intros H. revert w Eu.
  induction H as [a u|p u p' u' a u'' Hn _ IH]; intros w ->; [rewrite Hself; constructor|].
  eapply ends_step; [by apply next_lift|]. rewrite <- (Hput u'' u'). apply IH. by rewrite Hget.
Qed.
End lens.

(** It leaves alone an invariant that does not speak of that part. *)
Lemma lift_restores {R A} (inv : list R -> W -> Prop) (p : prog V A) x :
  (forall l v w, inv l w -> inv l (put v w)) -> restores inv (lift p) x.
Proof.
  intros Hput. unfold restores. induction p as [A a|A B f k IH|A B body IHb cur IHc k IH]; cbn.
  - done.
  - intros l1 l2 w Hw. exists x. destruct (f (get w)) as [b v]. split; [by apply Hput|apply IH].
  - exists (fun y => y = x).
    split; [revert IHc|intros y ->; revert IHb]; apply wp_weaken; intros [b|] z ->; done.
Qed.
End lift.

(** * Counting tickets *)

Definition total {B} (f : B -> Z) (l : list B) : Z := foldr (fun x n => f x + n) 0 l.

Section totals.
Context {B : Type} (f g : B -> Z).
Implicit Types l : list B.

Lemma total_app l1 l2 : total f (l1 ++ l2) = total f l1 + total f l2.
Proof. unfold total. induction l1 as [|x l1 IH]; cbn; [done|]. rewrite IH. lia. Qed.

(** One ticket changes. *)
Lemma total_mid l1 l2 x x' : total f (l1 ++ x' :: l2) = total f (l1 ++ x :: l2) - f x + f x'.
Proof. rewrite !total_app. cbn. lia. Qed.

Lemma total_le l : (forall x, x ∈ l -> f x <= g x) -> total f l <= total g l.
Proof.
  induction l as [|x l IH]; intros H; cbn; [lia|].
  pose proof (H x ltac:(left)). pose proof (IH ltac:(intros; apply H; by right)). unfold total in *. lia.
Qed.

Lemma total_replicate n x : total f (replicate n x) = Z.of_nat n * f x.
Proof. induction n as [|n IH]; [done|]. cbn [replicate]. cbn in *. unfold total in IH. rewrite IH. lia. Qed.

Lemma total_nonneg l : (forall x, 0 <= f x) -> 0 <= total f l.
Proof. intros Hf. unfold total. induction l as [|x l IH]; cbn; [lia|]. pose proof (Hf x). lia. Qed.

Lemma total_in l x : (forall y, 0 <= f y) -> x ∈ l -> f x <= total f l.
Proof.
  intros Hf (l1 & l2 & ->)%list_elem_of_split. rewrite total_app. cbn.
  pose proof (total_nonneg l1 Hf). pose proof (total_nonneg l2 Hf). unfold total in *. lia.
Qed.
End totals.

Lemma total_map {B C} (f : C -> Z) (h : B -> C) l : total f (map h l) = total (fun x => f (h x)) l.
Proof. unfold total. induction l as [|x l IH]; cbn; [done|]. by rewrite IH. Qed.

Lemma total_ext {B} (f g : B -> Z) l : (forall x, x ∈ l -> f x = g x) -> total f l = total g l.
Proof. intros H. apply Z.le_antisymm; apply total_le; intros x Hx; by rewrite (H x Hx). Qed.

Lemma total_zero {B} (l : list B) : total (fun _ => 0) l = 0.
Proof. unfold total. induction l as [|x l IH]; cbn; [done|exact IH]. Qed.

Lemma total_plus {B} (f g : B -> Z) l : total (fun x => f x + g x) l = total f l + total g l.
Proof. unfold total. induction l as [|x l IH]; cbn; [done|]. rewrite IH. lia. Qed.

Lemma total_swap {B C} (f : B -> C -> Z) l l' :
  total (fun b => total (f b) l') l = total (fun c => total (fun b => f b c) l) l'.
Proof.
  induction l as [|b l IH]; cbn; [by rewrite total_zero|]. fold (total (fun b => total (f b) l') l).
  rewrite IH. by rewrite <- total_plus.
Qed.

Lemma total_flat_map {B C} (f : C -> Z) (h : B -> list C) l : total f (flat_map h l) = total (fun b => total f (h b)) l.
Proof. induction l as [|b l IH]; cbn [flat_map]; [done|]. rewrite total_app, IH. done. Qed.

(** How many hold [b]. *)
Definition holds {B} `{EqDecision B} (b : B) (o : option B) : Z := one_if (bool_decide (o = Some b)).
Definition holders {B} `{EqDecision B} (b : B) (l : list (option B)) : Z := total (holds b) l.

Lemma one_if_nonneg b : 0 <= one_if b.
Proof. by destruct b. Qed.

Section holders.
Context {B : Type} `{EqDecision B}.
Implicit Types (b : B) (l : list (option B)).

Lemma holders_nonneg b l : 0 <= holders b l.
Proof. apply total_nonneg. intros. apply one_if_nonneg. Qed.

Lemma holds_same b : holds b (Some b) = 1.
Proof. unfold holds. by rewrite bool_decide_eq_true_2. Qed.

Lemma holds_other b o : o <> Some b -> holds b o = 0.
Proof. intros. unfold holds. by rewrite bool_decide_eq_false_2. Qed.

Lemma holders_take b l1 l2 c :
  holders b (l1 ++ Some c :: l2) = holders b (l1 ++ None :: l2) + one_if (bool_decide (b = c)).
Proof.
  unfold holders. rewrite (total_mid _ l1 l2 None (Some c)). rewrite (holds_other b None) by done.
  unfold holds. rewrite (bool_decide_ext (Some c = Some b) (b = c)) by (split; congruence). lia.
Qed.

Lemma holders_in b l : Some b ∈ l -> 1 <= holders b l.
Proof.
  intros H. rewrite <- (holds_same b). apply total_in; [intros; apply one_if_nonneg|done].
Qed.

Lemma holders_absent b l : Some b ∉ l -> holders b l = 0.
Proof.
  unfold holders, total. induction l as [|o l IH]; cbn; [done|]. intros [Hne Hnin]%not_elem_of_cons.
  by rewrite holds_other, IH.
Qed.

Lemma holders_snoc b l : holders b (l ++ [None]) = holders b l.
Proof. unfold holders. rewrite total_app. cbn. rewrite holds_other by done. lia. Qed.
End holders.

(** One thing is one of several at most once. *)
Lemma total_holds_one {B} `{EqDecision B} (b : B) keys :
  NoDup keys -> total (fun key => holds key (Some b)) keys = one_if (bool_decide (b ∈ keys)).
Proof.
  induction 1 as [|key keys Hin _ IH]; cbn; [done|].
  fold (total (fun key => holds key (Some b)) keys). rewrite IH.
  destruct (decide (b = key)) as [->|Hne].
  - rewrite holds_same, bool_decide_eq_false_2, bool_decide_eq_true_2 by (done || left). done.
  - rewrite holds_other, Z.add_0_l by congruence. f_equal. apply bool_decide_ext. rewrite elem_of_cons. tauto.
Qed.

Definition holders_of_true (l : list bool) : Z := total one_if l.
