(* ===== verification/Admission.v ===== *)
(** The admission of an inference request ([cmd/server/routes.go],
    [internal/middleware]: [concurrency.go], [provider_admission.go],
    [session.go], [flow.go]): the chain of gates every request passes, the slots
    it takes at each and gives back, and what any number of requests running side
    by side may hold. *)

From Stdlib Require Import Ascii.
From stdpp Require Import fin_maps.
From S2P Require Import Prelude Channel ConnTracker Pricing BillingMiddleware ApiKeys Interleaving.

#[local] Open Scope prog_scope.

(** * Tokens *)

(** [strings.Fields]. *)
Fixpoint Fields (s : string) : list string :=
  match s with
  | EmptyString => []
  | String c rest =>
      if is_space c then Fields rest
      else
        match rest with
        | String d _ =>
            if is_space d then String c "" :: Fields rest
            else match Fields rest with
                 | word :: words => String c word :: words
                 | [] => [String c ""]
                 end
        | EmptyString => [String c ""]
        end
  end.

(** What the gates read of a request, and what its context carries: the mark of
    the limiter that admitted it with the time it was given, and the key it was
    authenticated with. *)
Record request := mkRequest {
  r_Method : string;
  r_Path : string;
  r_Header : string -> string;
  r_Body : request_body;
  r_RequestID : string;
  r_admitted : bool;
  r_timeouts : list duration;
  r_fingerprint : string;
  r_principal : option APIKeyPrincipal
}.

#[export] Instance request_eta : Eta request := fun r =>
  mkRequest (r_Method r) (r_Path r) (r_Header r) (r_Body r) (r_RequestID r) (r_admitted r) (r_timeouts r)
    (r_fingerprint r) (r_principal r).

Definition bearerToken (r : request) : string :=
  let authHeader := TrimSpace (r_Header r "Authorization") in
  if is_empty authHeader then ""
  else
    match Fields authHeader with
    | [scheme; token] => if EqualFold scheme "Bearer" then token else ""
    | _ => ""
    end.

Definition apiKeyToken (r : request) : string :=
  let token := bearerToken r in
  if negb (is_empty token) then token else TrimSpace (r_Header r "x-api-key").

Example bearer_tokens :
  map (fun h => bearerToken (mkRequest "POST" "/" (fun _ => h) Unreadable "" false [] "" None))
    ["Bearer sk-1"; "  bearer   sk-1 "; "Bearer"; "Bearer a b"; "sk-1"; ""] = ["sk-1"; "sk-1"; ""; ""; ""; ""].
Proof. reflexivity. Qed.

Definition APIKeyAllowsModel (principal : option APIKeyPrincipal) (model : string) : bool :=
  match principal with
  | None => true
  | Some p =>
      match p_AllowedModels p with
      | [] => true
      | allowed =>
          let model := ToLower (TrimSpace model) in
          existsb (fun a => let a := ToLower (TrimSpace a) in
                            String.eqb a "*" || (negb (is_empty model) && String.eqb a model)) allowed
      end
  end.

(** * Answers *)

(** A refusal, or what came of running the handler (its answer or its panic: the
    deferred calls run after either). *)
Inductive response (A : Type) :=
| Refused (status : Z) (headers : list (string * string)) (message type code : string)
| Served (a : A).
Arguments Refused {A} _ _ _ _ _.
Arguments Served {A} _.

(** [writeAPIKeyError], after the headers already set. *)
Definition writeAPIKeyError {A} (headers : list (string * string)) (status : Z) (message code : string) : response A :=
  Refused status (headers ++ [("WWW-Authenticate", "Bearer"); ("Content-Type", "application/json")]) message
    (if status =? 429 then "rate_limit_error"
     else if status =? 402 then "insufficient_quota" else "authentication_error") code.

Definition APIKeyDenialExpired : string := "invalid_api_key".
Definition APIKeyDenialRateLimited : string := "rate_limit_exceeded".

(** What the routes make of the store's verdict on a key. *)
Definition principal_of (authorized : ApiKey + go_error) : option APIKeyPrincipal + go_error :=
  match authorized with
  | inl key =>
      inl (Some (mkPrincipal (k_ID key) (k_AllowedModels key) (k_MaxConcurrent key) (k_BillingLimitUSDTicks key) ""))
  | inr err =>
      if decide (err = ErrNoRows) then inl None
      else if decide (err = ErrApiKeyExpired) then inl (Some (mkPrincipal 0 [] 0 0 APIKeyDenialExpired))
      else if decide (err = ErrApiKeyRateLimited) then inl (Some (mkPrincipal 0 [] 0 0 APIKeyDenialRateLimited))
      else inr err
  end.

(** * The semaphore

    [golang.org/x/sync/semaphore]: what is held of its size. *)

Class Semaphore (Sm : Type) := {
  NewWeighted : Z -> Sm;
  sem_TryAcquire : Z -> Sm -> bool * Sm;
  sem_Release : Z -> Sm -> Sm;
  sem_size : Sm -> Z;
  sem_held : Sm -> Z
}.

Class SemaphoreLaws (Sm : Type) {S : Semaphore Sm} : Prop := {
  sem_new n : sem_size (NewWeighted n) = n /\ sem_held (NewWeighted n) = 0;
  sem_try n s : fst (sem_TryAcquire n s) = (sem_held s + n <=? sem_size s)
    /\ sem_size (snd (sem_TryAcquire n s)) = sem_size s
    /\ sem_held (snd (sem_TryAcquire n s)) = (if sem_held s + n <=? sem_size s then sem_held s + n else sem_held s);
  sem_release n s : n <= sem_held s ->
    sem_size (sem_Release n s) = sem_size s /\ sem_held (sem_Release n s) = sem_held s - n
}.

(** A counter of what is held. *)
#[export] Instance CountingSemaphore : Semaphore (Z * Z) := {|
  NewWeighted n := (n, 0);
  sem_TryAcquire n '(size, held) := if held + n <=? size then (true, (size, held + n)) else (false, (size, held));
  sem_Release n '(size, held) := (size, held - n);
  sem_size := fst;
  sem_held := snd
|}.

#[export] Instance CountingSemaphore_laws : SemaphoreLaws (Z * Z).
Proof.
  split; [done|intros n [size held]; cbn; by destruct (_ <=? _)|by intros n [size held]].
Qed.

(** * The shared state *)

Record flow_route := mkRoute { Active : Z; Started : Z; Completed : Z }.

#[export] Instance flow_route_eta : Eta flow_route := fun r => mkRoute (Active r) (Started r) (Completed r).

Section chain.
Context {Sm T L : Type} {S : Semaphore Sm} {Tr : ConnTracker T} {Limited : LimitedConnTracker T}.

(** The counters of the gates, each behind its own mutex or atomic, where the
    entries of the keys are those of the route that made them: every call of
    [inferenceAuth] makes a map of its own; the tracker all replicas share; the
    provider limits of the current configuration (nil
    without one); and what the rest of the process keeps. *)
Record world := mkWorld {
  w_sem : Sm;
  w_activeCount : Z;
  w_rejectedReqs : Z;
  w_counts : gmap string Z;
  w_entries : gmap (nat * Z) positive;
  w_cells : gmap positive Z;
  w_tracker : T;
  w_routes : gmap string flow_route;
  w_config : option (gmap string Z);
  w_store : L
}.

#[export] Instance world_eta : Eta world := fun w =>
  mkWorld (w_sem w) (w_activeCount w) (w_rejectedReqs w) (w_counts w) (w_entries w) (w_cells w) (w_tracker w)
    (w_routes w) (w_config w) (w_store w).

Abbreviation handler A := (request -> prog world A).

(** * The gates *)

(** ** [ConcurrencyLimiter.Limit]: one slot of the whole gateway *)

Definition take_slot (w : world) : bool * world :=
  let '(ok, s) := sem_TryAcquire 1 (w_sem w) in (ok, w <| w_sem := s |>).
Definition return_slot (w : world) : world := w <| w_sem := sem_Release 1 (w_sem w) |>.
Definition add_active (d : Z) (w : world) : world := w <| w_activeCount := i64 (w_activeCount w + d) |>.
Definition add_rejected (w : world) : world := w <| w_rejectedReqs := i64 (w_rejectedReqs w + 1) |>.

Definition overloaded {A} : response A :=
  Refused 503 [("Content-Type", "application/json"); ("Retry-After", "1")]
    "server is overloaded; retry later" "server_error" "server_overloaded".

Definition Limit {A} (timeout : duration) (next : handler (response A)) : handler (response A) := fun r =>
  if r_admitted r then next r
  else
    let* ok := atomically take_slot in
    if negb ok then do* modify add_rejected in Ret overloaded
    else
      do* modify (add_active 1) in
      defer (do* modify return_slot in modify (add_active (-1)))
        (next (r <| r_timeouts := timeout :: r_timeouts r |> <| r_admitted := true |>)).

(** ** [ProviderAdmission]: one slot of the provider *)

(** [strings.Cut(s, "/")], what comes before. *)
Fixpoint before_slash (s : string) : string :=
  match s with
  | String c rest => if Ascii.eqb c "/" then "" else String c (before_slash rest)
  | EmptyString => ""
  end.

Definition provider_name (path : string) : string :=
  before_slash (match CutPrefix path "/" with Some rest => rest | None => path end).

(** [counts[name] = &atomic.Int64{}], for every channel. *)
Definition new_counts : gmap string Z := list_to_map (map (fun d => (chan_ID d, 0)) definitions).

Definition load_count (name : string) (w : world) : Z * world := (default 0 (w_counts w !! name), w).

Definition swap_count (name : string) (old new : Z) (w : world) : bool * world :=
  if default 0 (w_counts w !! name) =? old then (true, w <| w_counts := <[name := new]> (w_counts w) |>)
  else (false, w).

Definition add_count (name : string) (d : Z) (w : world) : world :=
  w <| w_counts := <[name := i64 (default 0 (w_counts w !! name) + d)]> (w_counts w) |>.

(** One round of the compare-and-swap loop: refused, admitted, or once more. *)
Definition count_round (name : string) (limit : Z) : prog world (option bool) :=
  let* n := atomically (load_count name) in
  if limit <=? n then Ret (Some false)
  else let* ok := atomically (swap_count name n (i64 (n + 1))) in Ret (if ok then Some true else None).

Definition ProviderAdmission {A} (limits : option (world -> gmap string Z)) (next : handler (response A))
    : handler (response A) := fun r =>
  let name := provider_name (r_Path r) in
  match new_counts !! name, limits with
  | Some _, Some limits =>
      let* limit := atomically (fun w => (default 0 (limits w !! name), w)) in
      if limit <=? 0 then next r
      else
        let* admitted := repeat_until (count_round name limit) in
        if negb admitted
        then Ret (writeAPIKeyError [("Retry-After", "1")] 503 "provider is overloaded; retry later" "provider_overloaded")
        else defer (modify (add_count name (-1))) (next r)
  | _, _ => next r
  end.

(** ** [APIKeyAuth]: a managed key *)

Definition on_store {B} (f : L -> B * L) (w : world) : B * world :=
  let '(b, s) := f (w_store w) in (b, w <| w_store := s |>).

Definition APIKeyAuth {A} (digest : string -> string) (validate : string -> L -> (option APIKeyPrincipal + go_error) * L)
    (next : handler (response A)) : handler (response A) := fun r =>
  let token := apiKeyToken r in
  if is_empty token then Ret (writeAPIKeyError [] 401 "Missing API key" "invalid_api_key")
  else
    let* answer := atomically (on_store (validate token)) in
    match answer with
    | inr _ => Ret (writeAPIKeyError [] 503 "API key validation unavailable" "auth_unavailable")
    | inl None => Ret (writeAPIKeyError [] 401 "Invalid API key" "invalid_api_key")
    | inl (Some principal) =>
        if String.eqb (p_DenialCode principal) APIKeyDenialExpired
        then Ret (writeAPIKeyError [] 401 "API key has expired" APIKeyDenialExpired)
        else if String.eqb (p_DenialCode principal) APIKeyDenialRateLimited
        then Ret (writeAPIKeyError [("Retry-After", "60")] 429 "API key rate limit exceeded" APIKeyDenialRateLimited)
        else next (r <| r_fingerprint := digest token |> <| r_principal := Some principal |>)
    end.

(** ** [APIKeyConcurrencyWithTracker]: one slot of the key *)

(** The tracker passed: none, or one that takes slots below a limit or not. *)
Inductive tracker_kind := NoTracker | Tracker (limited : bool).

Definition tracker_id (id : Z) : Z := i64 (- id).

Definition take_key_slot (limited : bool) (id max : Z) : prog world bool :=
  if limited
  then atomically (fun w => let '(ok, t) := tr_TryAcquire (tracker_id id) max (w_tracker w) in (ok, w <| w_tracker := t |>))
  else
    let* n := atomically (fun w => (tr_GetCount (tracker_id id) (w_tracker w), w)) in
    if n <? max
    then do* modify (fun w => w <| w_tracker := tr_Acquire (tracker_id id) (w_tracker w) |>) in Ret true
    else Ret false.

Definition return_key_slot (id : Z) (w : world) : world :=
  w <| w_tracker := tr_Release (tracker_id id) (w_tracker w) |>.

(** The entry of a key in the map of one route, which requests share by pointer;
    the mutex makes each of the two sections atomic. *)
Definition take_entry (id : nat * Z) (max : Z) (w : world) : option positive * world :=
  let '(entry, w) :=
    match w_entries w !! id with
    | Some entry => (entry, w)
    | None =>
        let entry := fresh (dom (w_cells w)) in
        (entry, w <| w_cells := <[entry := 0]> (w_cells w) |> <| w_entries := <[id := entry]> (w_entries w) |>)
    end in
  let active := default 0 (w_cells w !! entry) in
  if max <=? active then (None, w)
  else (Some entry, w <| w_cells := <[entry := i64 (active + 1)]> (w_cells w) |>).

Definition return_entry (id : nat * Z) (entry : positive) (w : world) : world :=
  let active := i64 (default 0 (w_cells w !! entry) - 1) in
  let w := w <| w_cells := <[entry := active]> (w_cells w) |> in
  if active <=? 0 then w <| w_entries := delete id (w_entries w) |> else w.

Definition key_busy {A} : response A :=
  writeAPIKeyError [("Retry-After", "1")] 429 "API key concurrency limit exceeded" "concurrency_limit_exceeded".

Definition APIKeyConcurrencyWithTracker {A} (route : nat) (next : handler (response A)) (tracker : tracker_kind)
    : handler (response A) := fun r =>
  match r_principal r with
  | None => next r
  | Some principal =>
      let id := p_ID principal in
      let max := p_MaxConcurrent principal in
      if (id =? 0) || (max <=? 0) then next r
      else
        match tracker with
        | Tracker limited =>
            let* acquired := take_key_slot limited id max in
            if negb acquired then Ret key_busy else defer (modify (return_key_slot id)) (next r)
        | NoTracker =>
            let* entry := atomically (take_entry (route, id) max) in
            match entry with
            | None => Ret key_busy
            | Some entry => defer (modify (return_entry (route, id) entry)) (next r)
            end
        end
  end.

(** ** [APIKeyBillingReservation]: a hold on the key's budget

    The handler is a program over the rest of the process; it is given the hold
    and leaves it settled, pending or as it was. *)

Abbreviation inner A := (option BillingReservation -> request -> prog L (A * option BillingReservation)).

Definition put_store (s : L) (w : world) : world := w <| w_store := s |>.

Record billing := mkBilling {
  b_reserve : option (Z -> string -> Z -> instant -> L -> (bool + go_error) * L);
  b_release : Z -> string -> L -> (bool + go_error) * L;
  b_ttl : duration;
  b_Ready : L -> option go_error;
  b_Now : L -> instant
}.

Definition billing_gate (b : billing) (r : request) (s : L) : admission * L :=
  APIKeyBillingReservation (r_principal r) (b_reserve b) (b_ttl b) (r_Method r) (r_Path r) (r_Body r)
    (b_Ready b s) (b_Now b s) (r_RequestID r) s.

(** [next] is given the hold. *)
Definition with_billing {A} (b : billing) (next : option BillingReservation -> handler (A * option BillingReservation))
    : handler (response A) := fun r =>
  let* admission := atomically (on_store (billing_gate b r)) in
  match admission with
  | Refuse status message code => Ret (writeAPIKeyError [] status message code)
  | PassThrough => let* answer := next None r in Ret (Served (fst answer))
  | Hold held =>
      let* answer := next (Some held) r in
      do* modify (fun w => match snd answer with
                           | Some held => put_store (finish (b_release b) held (w_store w)) w
                           | None => w
                           end) in
      Ret (Served (fst answer))
  end.

(** ** [FlowTracker.Track]: the handlers at work

    Its counts of requests; the samples of usage and latency it also keeps are
    written by the handler's observers. *)

Definition flow_protocol (method path : string) : option (string * string) :=
  match EndpointFromPath path with
  | Some (id, endpoint) =>
      if String.eqb method "POST" then
        if String.eqb endpoint "chat/completions" then Some (id, "chat")
        else if str_in endpoint ["responses"; "responses/"; "responses/compact"] then Some (id, "responses")
        else if String.eqb endpoint "messages" then Some (id, "messages") else None
      else None
  | None => None
  end.

Definition flow_key (id protocol : string) : string := id +:+ ":" +:+ protocol.

Definition protocols : list string := ["chat"; "responses"; "messages"].

(** [NewFlowTracker]. *)
Definition new_routes : gmap string flow_route :=
  list_to_map (flat_map (fun d => map (fun p => (flow_key (chan_ID d) p, mkRoute 0 0 0)) protocols) definitions).

Definition update_route (key : string) (f : flow_route -> flow_route) (w : world) : world :=
  w <| w_routes := alter f key (w_routes w) |>.

Definition route_started (r : flow_route) : flow_route :=
  r <| Active := i64 (Active r + 1) |> <| Started := i64 (Started r + 1) |>.
Definition route_finished (r : flow_route) : flow_route :=
  r <| Active := i64 (Active r - 1) |> <| Completed := i64 (Completed r + 1) |>.

Definition Track {A} (next : handler A) : handler A := fun r =>
  match flow_protocol (r_Method r) (r_Path r) with
  | None => next r
  | Some (id, protocol) =>
      do* modify (update_route (flow_key id protocol) route_started) in
      defer (modify (update_route (flow_key id protocol) route_finished)) (next r)
  end.

(** ** The chain *)

Record gateway := mkGateway {
  g_timeout : duration;
  g_digest : string -> string;
  g_validate : string -> L -> (option APIKeyPrincipal + go_error) * L;
  g_tracker : tracker_kind;
  g_billing : billing
}.

(** [currentConfig().ProviderConcurrencyLimits]; a nil configuration has none. *)
Definition provider_limits (w : world) : gmap string Z := default ∅ (w_config w).

(** [route] is which of the calls of [inferenceAuth] in [registerRoutes] made this
    chain; the limiter, the provider counters and the tracker are shared by all. *)
Definition inferenceAuth {A} (g : gateway) (route : nat) (next : inner A) : handler (response A) :=
  Limit (g_timeout g)
    (ProviderAdmission (Some provider_limits)
      (APIKeyAuth (g_digest g) (g_validate g)
        (APIKeyConcurrencyWithTracker route
          (with_billing (g_billing g) (fun held => Track (fun r => lift w_store put_store (next held r))))
          (g_tracker g)))).

(** The state of a process that starts. *)
Definition NewConcurrencyLimiter (maxConcurrent : Z) (timeout : duration) : Sm * duration :=
  (NewWeighted (if maxConcurrent <=? 0 then 100 else maxConcurrent),
   if timeout <=? 0 then 120 * Second else timeout).

Definition new_world (maxConcurrent : Z) (t : T) (config : option (gmap string Z)) (s : L) : world :=
  mkWorld (fst (NewConcurrencyLimiter maxConcurrent 0)) 0 0 new_counts ∅ ∅ t new_routes config s.
End chain.

Arguments world Sm T L : clear implicits.
Arguments gateway L : clear implicits.
Arguments billing L : clear implicits.
