(* ===== verification/AdmissionCorrect.v ===== *)
(** What the admission chain guarantees: the ticket of a request, the invariant
    that ties the gates' counters to the tickets, and the theorems on every
    interleaving of requests. *)

From Stdlib Require Import Ascii.
From stdpp Require Import fin_maps.
From S2P Require Import Prelude Channel ConnTracker KeySlots Pricing BillingMiddleware ApiKeys Interleaving Admission.

#[local] Open Scope prog_scope.

(** * Paths and channels *)

Definition channel_ids : list string := map chan_ID definitions.

Lemma new_counts_channels name : is_Some (new_counts !! name) <-> name ∈ channel_ids.
Proof.
  unfold new_counts, channel_ids. rewrite <- elem_of_dom, dom_list_to_map_L. rewrite elem_of_list_to_set.
  by rewrite <- list_fmap_compose.
Qed.

(** The counter a request is held against is that of the channel that serves it. *)
Lemma provider_of_endpoint path id endpoint :
  EndpointFromPath path = Some (id, endpoint) -> provider_name path = id /\ id ∈ channel_ids.
Proof.
  intros H. assert (Hid : id ∈ channel_ids).
  { revert H. unfold EndpointFromPath, channel_ids. generalize definitions. intros ds.
    induction ds as [|d ds IH]; cbn [endpoint_in map]; [done|].
    destruct (endpoint_under _ _); [intros [= <- <-]; left|intros H; right; by apply IH]. }
  split; [|done]. apply endpoint_in_Some, endpoint_under_Some in H as (base & Hbase & Hpath).
  unfold channel_ids in Hid. cbn in Hid. set_unfold in Hid.
  destruct Hid as [->|[->|[->|[]]]];
    (match type of Hbase with _ ∈ ?l => let v := eval vm_compute in l in change l with v in Hbase end);
    set_unfold in Hbase; destruct Hbase as [->|[->|[]]]; destruct Hpath as [[-> _]| ->]; reflexivity.
Qed.

Lemma new_counts_zero name n : new_counts !! name = Some n -> n = 0.
Proof.
  unfold new_counts. intros H%elem_of_list_to_map_2. apply list_elem_of_In, in_map_iff in H as (d & [= _ <-] & _). done.
Qed.

Lemma new_routes_idle key r : new_routes !! key = Some r -> r = mkRoute 0 0 0.
Proof.
  unfold new_routes. intros H%elem_of_list_to_map_2.
  apply list_elem_of_In, in_flat_map in H as (d & _ & H%in_map_iff). by destruct H as (p & [= _ <-] & _).
Qed.

Lemma flow_key_channel id id' protocol protocol' :
  id ∈ channel_ids -> id' ∈ channel_ids -> protocol ∈ protocols -> protocol' ∈ protocols ->
  flow_key id protocol = flow_key id' protocol' -> id = id'.
Proof.
  unfold channel_ids, protocols. cbn. intros H1 H2 H3 H4. set_unfold.
  destruct H1 as [->|[->|[->|[]]]], H2 as [->|[->|[->|[]]]]; try done;
    destruct H3 as [->|[->|[->|[]]]], H4 as [->|[->|[->|[]]]]; discriminate.
Qed.

Lemma flow_keys_distinct : NoDup (flat_map (fun id => map (flow_key id) protocols) channel_ids).
Proof. apply (bool_decide_unpack _). vm_compute. exact I. Qed.

Lemma flow_keys_of_channel id : id ∈ channel_ids -> NoDup (map (flow_key id) protocols).
Proof.
  unfold channel_ids. cbn. intros H. set_unfold.
  destruct H as [->|[->|[->|[]]]]; apply (bool_decide_unpack _); vm_compute; exact I.
Qed.

Lemma new_routes_has id protocol :
  id ∈ channel_ids -> protocol ∈ protocols -> is_Some (new_routes !! flow_key id protocol).
Proof.
  unfold channel_ids, protocols. cbn [map definitions chan_ID]. intros H1 H2. set_unfold.
  destruct H1 as [->|[->|[->|[]]]], H2 as [->|[->|[->|[]]]]; eexists; vm_compute; reflexivity.
Qed.

(** * Tickets *)

(** What a request holds: the gateway's slot and its place in [activeCount], the
    slot of a provider, the slot of a key at the tracker, or its entry in the
    process, and its place among the handlers at work. *)
Record ticket := mkTicket {
  t_sem : bool;
  t_active : bool;
  t_provider : option string;
  t_slot : option Z;
  t_entry : option ((nat * Z) * positive);
  t_route : option string
}.

Definition idle : ticket := mkTicket false false None None None None.

Section admission.
Context {Sm T L : Type} {S : Semaphore Sm} {Tr : ConnTracker T} {Limited : LimitedConnTracker T}.
Context {Weighted : SemaphoreLaws Sm} {Slots : KeySlots T}.
Abbreviation world := (world Sm T L).

(** The limits: of the gateway; of the providers that always have one; of the
    keys, by the id they have at the tracker. *)
Context (capacity : Z) (Hcapacity : 0 < capacity <= max_int64).
Context (ceiling : string -> option Z).
Context (key_ceiling : Z -> Z) (Hkeys : forall tid, 0 <= key_ceiling tid < max_int64).

(** ** The invariant of each gate *)

Record limiter_inv (sems actives : list bool) (s : Sm) (active : Z) : Prop := {
  li_size : sem_size s = capacity;
  li_held : sem_held s = holders_of_true sems;
  li_limit : holders_of_true sems <= capacity;
  li_active : active = i64 (holders_of_true actives)
}.

Record provider_inv (held : list (option string)) (counts : gmap string Z) : Prop := {
  pi_channels name : is_Some (counts !! name) <-> name ∈ channel_ids;
  pi_count name n : counts !! name = Some n -> n = holders name held /\ n <= max_int64;
  pi_limit name n m : counts !! name = Some n -> ceiling name = Some m -> n <= m
}.

Definition config_ok (config : option (gmap string Z)) : Prop :=
  forall name, let limit := default 0 (default ∅ config !! name) in
    limit <= max_int64 /\ forall m, ceiling name = Some m -> 0 < limit <= m.

Record slots_inv (held : list (option Z)) (t : T) : Prop := {
  si_key tid : Some tid ∈ held -> tid < 0;
  si_ok : ks_ok t;
  si_own tid : tid < 0 -> ks_own tid t = holders tid held;
  si_limit tid : tid < 0 -> ks_count tid t <= key_ceiling tid
}.

Record entries_inv (held : list (option ((nat * Z) * positive))) (entries : gmap (nat * Z) positive) (cells : gmap positive Z) : Prop := {
  ei_held id entry : Some (id, entry) ∈ held -> entries !! id = Some entry;
  ei_entry id entry : entries !! id = Some entry ->
    cells !! entry = Some (holders (id, entry) held)
    /\ 0 < holders (id, entry) held <= key_ceiling (tracker_id (snd id));
  ei_own id id' entry : entries !! id = Some entry -> entries !! id' = Some entry -> id = id'
}.

Record flow_inv (held : list (option string)) (routes : gmap string flow_route) : Prop := {
  fi_routes key : is_Some (routes !! key) <-> is_Some (new_routes !! key);
  fi_active key r : routes !! key = Some r -> Active r = i64 (holders key held)
}.

(** A handler at work holds the gateway's slot, and its provider's when that
    always has a limit. *)
Definition covered (x : ticket) : Prop :=
  forall key, t_route x = Some key ->
    t_sem x = true /\ exists id protocol, key = flow_key id protocol /\ id ∈ channel_ids /\ protocol ∈ protocols
      /\ (is_Some (ceiling id) -> t_provider x = Some id).

Record inv (l : list ticket) (w : world) : Prop := {
  i_limiter : limiter_inv (map t_sem l) (map t_active l) (w_sem w) (w_activeCount w);
  i_provider : provider_inv (map t_provider l) (w_counts w);
  i_config : config_ok (w_config w);
  i_slots : slots_inv (map t_slot l) (w_tracker w);
  i_entries : entries_inv (map t_entry l) (w_entries w) (w_cells w);
  i_flow : flow_inv (map t_route l) (w_routes w);
  i_covered : Forall covered l
}.

(** *** The gateway's slots *)

Lemma limiter_take l1 l2 x actives (s : Sm) active :
  x = false -> limiter_inv (l1 ++ x :: l2) actives s active ->
  limiter_inv (l1 ++ fst (sem_TryAcquire 1 s) :: l2) actives (snd (sem_TryAcquire 1 s)) active.
Proof.
  intros -> [Hsize Hheld Hlimit Hact]. destruct (sem_try 1 s) as (Hok & Hsize' & Hheld').
  pose proof (total_mid one_if l1 l2 false (fst (sem_TryAcquire 1 s))) as Hmid. fold (holders_of_true (l1 ++ false :: l2)) in Hmid.
  rewrite Hok, Hsize, Hheld in *. cbn [one_if] in Hmid.
  assert (holders_of_true (l1 ++ (holders_of_true (l1 ++ false :: l2) + 1 <=? capacity) :: l2)
          = if holders_of_true (l1 ++ false :: l2) + 1 <=? capacity
            then holders_of_true (l1 ++ false :: l2) + 1 else holders_of_true (l1 ++ false :: l2)) as E.
  { unfold holders_of_true at 1. rewrite Hmid. destruct (_ <=? _); cbn; lia. }
  split; [congruence|by rewrite E|rewrite E; destruct (_ <=? _) eqn:El; to_prop; lia|done].
Qed.

Lemma limiter_return l1 l2 actives (s : Sm) active :
  limiter_inv (l1 ++ true :: l2) actives s active ->
  limiter_inv (l1 ++ false :: l2) actives (sem_Release 1 s) active.
Proof.
  intros [Hsize Hheld Hlimit Hact].
  pose proof (total_mid one_if l1 l2 true false) as Hmid. cbn [one_if] in Hmid.
  assert (1 <= holders_of_true (l1 ++ true :: l2)).
  { apply (total_in one_if _ true one_if_nonneg). apply elem_of_app. right. left. }
  destruct (sem_release 1 s) as [Hsize' Hheld']; [lia|]. unfold holders_of_true in *.
  split; unfold holders_of_true; [congruence|lia..|done].
Qed.

Lemma limiter_active l1 l2 sems (s : Sm) active b b' :
  limiter_inv sems (l1 ++ b :: l2) s active ->
  limiter_inv sems (l1 ++ b' :: l2) s (i64 (active + (one_if b' - one_if b))).
Proof.
  intros [Hsize Hheld Hlimit Hact]. split; [done..|]. rewrite Hact, i64_add_l. f_equal.
  unfold holders_of_true. rewrite (total_mid _ l1 l2 b b'). lia.
Qed.

(** *** The provider's slots *)

Lemma provider_swap l1 l2 counts name n limit :
  provider_inv (l1 ++ None :: l2) counts -> name ∈ channel_ids ->
  n < limit -> limit <= max_int64 -> (forall m, ceiling name = Some m -> limit <= m) ->
  default 0 (counts !! name) = n ->
  provider_inv (l1 ++ Some name :: l2) (<[name := i64 (n + 1)]> counts).
Proof.
  intros [Hch Hc Hl] Hname Hn Hmax Hm Hold.
  destruct (proj2 (Hch name) Hname) as [c Ec]. rewrite Ec in Hold. cbn in Hold. subst c.
  destruct (Hc name n Ec) as [Hheld _]. pose proof (holders_nonneg name (l1 ++ None :: l2)).
  assert (Hi : i64 (n + 1) = n + 1) by (apply i64_small; unfold in_i64, min_int64; lia). rewrite Hi.
  split.
  - intros name'. destruct (decide (name' = name)) as [->|Hne]; [rewrite lookup_insert_eq; split; eauto|].
    by rewrite lookup_insert_ne by congruence.
  - intros name' c. rewrite holders_take. destruct (decide (name' = name)) as [->|Hne].
    + rewrite lookup_insert_eq, bool_decide_eq_true_2 by done. intros [= <-]. cbn. lia.
    + rewrite lookup_insert_ne, bool_decide_eq_false_2 by congruence. intros Hc'. destruct (Hc _ _ Hc'). cbn. lia.
  - intros name' c m. destruct (decide (name' = name)) as [->|Hne].
    + rewrite lookup_insert_eq. intros [= <-] Hcm. specialize (Hm m Hcm). lia.
    + rewrite lookup_insert_ne by congruence. by apply Hl.
Qed.

Lemma provider_return l1 l2 counts name :
  provider_inv (l1 ++ Some name :: l2) counts -> name ∈ channel_ids ->
  provider_inv (l1 ++ None :: l2) (<[name := i64 (default 0 (counts !! name) + -1)]> counts).
Proof.
  intros [Hch Hc Hl] Hname.
  destruct (proj2 (Hch name) Hname) as [n Ec]. rewrite Ec. cbn.
  destruct (Hc name n Ec) as [Hheld Hmax]. pose proof (holders_nonneg name (l1 ++ None :: l2)).
  pose proof (holders_take name l1 l2 name) as Ht. rewrite bool_decide_eq_true_2 in Ht by done. cbn in Ht.
  assert (Hi : i64 (n + -1) = n - 1) by (rewrite i64_small; [lia|unfold in_i64, min_int64, max_int64 in *; lia]).
  rewrite Hi. split.
  - intros name'. destruct (decide (name' = name)) as [->|Hne]; [rewrite lookup_insert_eq; split; eauto|].
    by rewrite lookup_insert_ne by congruence.
  - intros name' c. destruct (decide (name' = name)) as [->|Hne].
    + rewrite lookup_insert_eq. intros [= <-]. lia.
    + rewrite lookup_insert_ne by congruence. intros Hc'. destruct (Hc _ _ Hc') as [-> ?].
      rewrite holders_take, bool_decide_eq_false_2 in * by congruence. cbn in *. lia.
  - intros name' c m. destruct (decide (name' = name)) as [->|Hne].
    + rewrite lookup_insert_eq. intros [= <-] Hcm. specialize (Hl name n m Ec Hcm). lia.
    + rewrite lookup_insert_ne by congruence. by apply Hl.
Qed.

(** *** The key's slots at the tracker *)

Lemma in_mid {B} (l1 l2 : list (option B)) (b : B) (x : option B) :
  Some b ∈ l1 ++ x :: l2 -> Some b ∈ l1 ++ None :: l2 \/ x = Some b.
Proof. intros [H|[H|H]%elem_of_cons]%elem_of_app; [left|by right|left]; apply elem_of_app; [by left|right; by right]. Qed.

Lemma in_mid_none {B} (l1 l2 : list (option B)) (b : B) (x : option B) :
  Some b ∈ l1 ++ None :: l2 -> Some b ∈ l1 ++ x :: l2.
Proof. intros [H|[H|H]%elem_of_cons]%elem_of_app; [|done|]; apply elem_of_app; [by left|right; by right]. Qed.

Lemma slots_take l1 l2 t tid limit :
  slots_inv (l1 ++ None :: l2) t -> tid < 0 -> 0 < limit <= key_ceiling tid ->
  slots_inv (l1 ++ (if fst (tr_TryAcquire tid limit t) then Some tid else None) :: l2) (snd (tr_TryAcquire tid limit t)).
Proof.
  intros [Hkey Hok Hown Hlimit] Htid Hl. pose proof (Hlimit tid Htid). pose proof (Hkeys tid).
  destruct (tr_TryAcquire tid limit t) as [[] t'] eqn:E; cbn.
  - destruct (ks_taken tid limit t t' Hok Htid (proj1 Hl) ltac:(lia) E) as (Hok' & Hmax & Hown' & Hcount). split; [|done| |].
    + intros j [?| [= <-]]%in_mid; [by apply Hkey|done].
    + intros j Hj. rewrite Hown', holders_take, (Hown j Hj) by done. f_equal. f_equal.
      apply Bool.eq_iff_eq_true. by rewrite Z.eqb_eq, bool_decide_eq_true.
    + intros j Hj. destruct (decide (j = tid)) as [->|Hne]; [lia|]. rewrite Hcount by done. by apply Hlimit.
  - destruct (ks_refused tid limit t t' Hok Htid (proj1 Hl) ltac:(lia) E) as (Hok' & Hmax & Hown' & Hcount). split; [done|done| |].
    + intros j Hj. rewrite Hown' by done. by apply Hown.
    + intros j Hj. destruct (decide (j = tid)) as [->|Hne]; [lia|]. rewrite Hcount by done. by apply Hlimit.
Qed.

Lemma slots_return l1 l2 t tid :
  slots_inv (l1 ++ Some tid :: l2) t -> slots_inv (l1 ++ None :: l2) (tr_Release tid t).
Proof.
  intros [Hkey Hok Hown Hlimit].
  assert (Hin : Some tid ∈ l1 ++ Some tid :: l2) by (apply elem_of_app; right; left).
  pose proof (Hkey tid Hin) as Htid. pose proof (holders_in tid _ Hin). pose proof (Hown tid Htid).
  pose proof (Hlimit tid Htid). pose proof (Hkeys tid).
  destruct (ks_released tid t Hok Htid ltac:(lia) ltac:(lia)) as [Hok' Hall]. split; [|done| |].
  - intros j Hj. apply Hkey. by apply in_mid_none.
  - intros j Hj. rewrite (proj1 (Hall j Hj)), (Hown j Hj), holders_take.
    case_bool_decide; destruct (Z.eqb_spec j tid); try done; cbn; lia.
  - intros j Hj. pose proof (Hlimit j Hj). pose proof (proj2 (Hall j Hj)). lia.
Qed.

(** *** The key's entry in the process *)

Lemma entries_take l1 l2 id limit (w : world) :
  entries_inv (l1 ++ None :: l2) (w_entries w) (w_cells w) -> 0 < limit <= key_ceiling (tracker_id (snd id)) ->
  exists es cs, snd (take_entry id limit w) = w <| w_cells := cs |> <| w_entries := es |>
    /\ entries_inv (l1 ++ (pair id <$> fst (take_entry id limit w)) :: l2) es cs.
Proof.
  intros [Hheld Hentry Hown] Hlimit. pose proof (Hkeys (tracker_id (snd id))). unfold take_entry.
  destruct (w_entries w !! id) as [entry|] eqn:E.
  - destruct (Hentry id entry E) as [Ec [Hpos Hle]]. rewrite Ec.
    set (n := holders (id, entry) (l1 ++ None :: l2)) in *. change (default 0 (Some n)) with n.
    destruct (limit <=? n) eqn:El; to_prop; cbn [fst snd fmap option_fmap option_map].
    + exists (w_entries w), (w_cells w). split; [by destruct w|done].
    + exists (w_entries w), (<[entry := i64 (n + 1)]> (w_cells w)). split; [done|].
      rewrite i64_small by (unfold in_i64, min_int64; lia). split.
      * intros id' e [?|[= <- <-]]%in_mid; [by apply Hheld|done].
      * intros id' e He. rewrite holders_take. destruct (Hentry id' e He) as [Ec' ?].
        destruct (decide (e = entry)) as [->|Hne].
        -- rewrite (Hown id' id entry He E) in *. rewrite lookup_insert_eq, bool_decide_eq_true_2 by done.
           fold n. cbn. split; [done|lia].
        -- rewrite lookup_insert_ne, bool_decide_eq_false_2 by congruence. cbn. by rewrite Z.add_0_r.
      * done.
  - set (entry := fresh (dom (w_cells w))).
    assert (Hfresh : w_cells w !! entry = None) by (apply not_elem_of_dom; apply is_fresh).
    assert (Hnew : forall id' e, w_entries w !! id' = Some e -> e <> entry).
    { intros id' e He ->. destruct (Hentry id' _ He) as [Ec _]. congruence. }
    assert (Hnone : holders (id, entry) (l1 ++ None :: l2) = 0).
    { destruct (decide (Some (id, entry) ∈ l1 ++ None :: l2)) as [Hin|Hnin]; [by rewrite (Hheld _ _ Hin) in E|].
      by apply holders_absent. }
    change (w_cells (_ <| w_entries := _ |>)) with (<[entry := 0]> (w_cells w)). rewrite lookup_insert_eq. change (default 0 (Some 0)) with 0.
    replace (limit <=? 0) with false by (symmetry; apply Z.leb_gt; lia). cbn [fst snd fmap option_fmap option_map].
    exists (<[id := entry]> (w_entries w)), (<[entry := i64 (0 + 1)]> (<[entry := 0]> (w_cells w))).
    split; [done|]. change (i64 (0 + 1)) with 1. split.
    + intros id' e [Hin|[= <- <-]]%in_mid; [|apply lookup_insert_eq].
      destruct (decide (id' = id)) as [->|Hne]; [by rewrite (Hheld _ _ Hin) in E|].
      rewrite lookup_insert_ne by congruence. by apply Hheld.
    + intros id' e. rewrite holders_take. destruct (decide (id' = id)) as [->|Hne].
      * rewrite lookup_insert_eq. intros [= <-]. rewrite lookup_insert_eq, bool_decide_eq_true_2, Hnone by done.
        cbn. split; [done|lia].
      * rewrite lookup_insert_ne by congruence. intros He. destruct (Hentry id' e He) as [Ec ?].
        rewrite !lookup_insert_ne, bool_decide_eq_false_2 by (pose proof (Hnew id' e He); congruence).
        cbn. by rewrite Z.add_0_r.
    + intros a b e. destruct (decide (a = id)) as [->|Ha], (decide (b = id)) as [->|Hb]; [done|..];
        rewrite ?lookup_insert_eq, ?lookup_insert_ne by congruence.
      * intros [= <-] He. by destruct (Hnew b entry He).
      * intros He [= <-]. by destruct (Hnew a entry He).
      * apply Hown.
Qed.

Lemma entries_return l1 l2 id entry (w : world) :
  entries_inv (l1 ++ Some (id, entry) :: l2) (w_entries w) (w_cells w) ->
  exists es cs, return_entry id entry w = w <| w_cells := cs |> <| w_entries := es |>
    /\ entries_inv (l1 ++ None :: l2) es cs.
Proof.
  intros [Hheld Hentry Hown]. unfold return_entry.
  pose proof (Hheld id entry ltac:(apply elem_of_app; right; left)) as He.
  destruct (Hentry id entry He) as [Ec [Hpos Hle]]. pose proof (Hkeys (tracker_id (snd id))). rewrite Ec.
  pose proof (holders_take (id, entry) l1 l2 (id, entry)) as Ht. rewrite bool_decide_eq_true_2 in Ht by done. cbn in Ht.
  set (n := holders (id, entry) (l1 ++ Some (id, entry) :: l2)) in *. change (default 0 (Some n)) with n.
  assert (i64 (n - 1) = n - 1) as -> by (apply i64_small; unfold in_i64, min_int64, max_int64 in *; lia).
  assert (Hrest : forall id' e, w_entries w !! id' = Some e -> id' <> id -> e <> entry).
  { intros id' e H1 H2 ->. apply H2. by apply (Hown id' id entry). }
  assert (Hother : forall id' e, w_entries w !! id' = Some e -> id' <> id ->
            <[entry := n - 1]> (w_cells w) !! e = Some (holders (id', e) (l1 ++ None :: l2))
            /\ 0 < holders (id', e) (l1 ++ None :: l2) <= key_ceiling (tracker_id (snd id'))).
  { intros id' e H1 H2. pose proof (Hrest id' e H1 H2). destruct (Hentry id' e H1) as [Ec' Hb].
    rewrite lookup_insert_ne, Ec' by congruence.
    rewrite holders_take, bool_decide_eq_false_2, Z.add_0_r in * by congruence. by split. }
  destruct (n - 1 <=? 0) eqn:E; to_prop.
  - exists (delete id (w_entries w)), (<[entry := n - 1]> (w_cells w)). split; [done|]. split.
    + intros id' e Hin. destruct (decide (id' = id)) as [->|Hne].
      * assert (e = entry) as ->.
        { pose proof (Hheld id e (in_mid_none _ _ _ _ Hin)). congruence. }
        apply holders_in in Hin. lia.
      * rewrite lookup_delete_ne by congruence. by apply Hheld, in_mid_none.
    + intros id' e [Hne H1]%lookup_delete_Some. by apply Hother.
    + intros a b e [_ H1]%lookup_delete_Some [_ H2]%lookup_delete_Some. by apply (Hown a b e).
  - exists (w_entries w), (<[entry := n - 1]> (w_cells w)). split; [by destruct w|]. split.
    + intros id' e Hin. by apply Hheld, in_mid_none.
    + intros id' e H1. destruct (decide (id' = id)) as [->|Hne]; [|by apply Hother].
      rewrite He in H1. injection H1 as <-. rewrite lookup_insert_eq. split; [f_equal; lia|lia].
    + done.
Qed.

(** *** The handlers at work *)

Lemma flow_update l1 l2 routes key f d x x' :
  flow_inv (l1 ++ x :: l2) routes ->
  (forall r, Active (f r) = i64 (Active r + d)) -> holds key x' = holds key x + d ->
  (forall key', key' <> key -> holds key' x' = holds key' x) ->
  flow_inv (l1 ++ x' :: l2) (alter f key routes).
Proof.
  intros [Hr Ha] Hf Hd Hother. unfold holders in *. split.
  - intros key'. rewrite lookup_alter. case_decide; [|apply Hr]. subst key'. rewrite fmap_is_Some. apply Hr.
  - intros key' r. unfold holders. rewrite lookup_alter. rewrite (total_mid _ l1 l2 x x'). case_decide as Ek.
    + subst key'. intros (r0 & H0 & ->)%fmap_Some. rewrite Hf, (Ha key r0 H0), i64_add_l. f_equal. lia.
    + intros H0. rewrite (Ha key' r H0). f_equal. rewrite (Hother key') by congruence. lia.
Qed.

(** ** One gate at a time *)

Lemma covered_mid l1 l2 x x' : Forall covered (l1 ++ x :: l2) -> covered x' -> Forall covered (l1 ++ x' :: l2).
Proof. rewrite !Forall_app, !Forall_cons. tauto. Qed.

Lemma uncovered s a p k e : covered (mkTicket s a p k e None).
Proof. done. Qed.
#[local] Hint Resolve uncovered : core.

Ltac open_inv :=
  match goal with
  | H : inv _ _ |- _ =>
      destruct H as [Hlimiter Hprovider Hconfig Hslots Hentries Hflow Hcovered];
      repeat rewrite map_app in Hlimiter; rewrite map_app in Hprovider, Hslots, Hentries, Hflow;
      cbn [map t_sem t_active t_provider t_slot t_entry t_route] in *
  end.

(** What a step leaves alone holds as before. *)
Ltac close_inv :=
  split; repeat rewrite map_app; cbn [map t_sem t_active t_provider t_slot t_entry t_route];
  try assumption; try (eapply covered_mid; [eassumption|auto; fail]).

Abbreviation restores := (restores inv).

(** A step of another part of the state. *)
Lemma wp_elsewhere {B} (f : world -> B * world) x (Q : B -> ticket -> Prop) :
  (forall l w, inv l w -> inv l (snd (f w)) /\ Q (fst (f w)) x) -> wp inv (atomically f) x Q.
Proof. intros H l1 l2 w Hw. exists x. by apply H. Qed.

Lemma inv_store l w s : inv l w -> inv l (put_store s w).
Proof. intros Hw. destruct Hw. by split. Qed.

Lemma inv_on_store {B} (f : L -> B * L) l w : inv l w -> inv l (snd (on_store f w)) /\ fst (on_store f w) = fst (f (w_store w)).
Proof. intros Hw. unfold on_store. destruct (f (w_store w)) as [b s]. split; [by apply (inv_store l w s)|done]. Qed.

Lemma restores_Limit {A} timeout (next : request -> prog world (response A)) r p k e :
  r_admitted r = false ->
  restores (next (r <| r_timeouts := timeout :: r_timeouts r |> <| r_admitted := true |>)) (mkTicket true true p k e None) ->
  restores (Limit timeout next r) (mkTicket false false p k e None).
Proof.
  intros Hr Hnext. unfold Limit. rewrite Hr. apply wp_bind, wp_atomically. intros l1 l2 w Hw.
  exists (mkTicket (fst (sem_TryAcquire 1 (w_sem w))) false p k e None).
  assert (Hf : take_slot w = (fst (sem_TryAcquire 1 (w_sem w)), w <| w_sem := snd (sem_TryAcquire 1 (w_sem w)) |>)).
  { unfold take_slot. by destruct (sem_TryAcquire 1 (w_sem w)). }
  rewrite Hf. cbn [fst snd]. split; [open_inv; close_inv; by apply limiter_take with (x := false)|].
  destruct (fst (sem_TryAcquire 1 (w_sem w))); cbn [negb]; apply wp_bind.
  - apply wp_weaken with (Q := fun _ y => y = mkTicket true true p k e None).
    + intros _ y ->. apply wp_defer; [exact Hnext|]. apply wp_bind.
      apply wp_weaken with (Q := fun _ y => y = mkTicket false true p k e None).
      * intros _ y ->. apply wp_modify. intros l1' l2' w' Hw'. open_inv. close_inv.
        by apply limiter_active with (b := true) (b' := false).
      * apply wp_modify. intros l1' l2' w' Hw'. open_inv. close_inv. by apply limiter_return.
    + apply wp_modify. intros l1' l2' w' Hw'. open_inv. close_inv.
      by apply limiter_active with (b := false) (b' := true).
  - apply wp_elsewhere. intros l w' Hw'. split; [|done]. destruct Hw'. by split.
Qed.

Lemma restores_ProviderAdmission {A} (next : request -> prog world (response A)) r s a k e :
  let name := provider_name (r_Path r) in
  (name ∉ channel_ids \/ ceiling name = None -> restores (next r) (mkTicket s a None k e None)) ->
  (name ∈ channel_ids -> restores (next r) (mkTicket s a (Some name) k e None)) ->
  restores (ProviderAdmission (Some provider_limits) next r) (mkTicket s a None k e None).
Proof.
  intros name Hfree Hheld. unfold ProviderAdmission. fold name.
  pose proof (new_counts_channels name) as Hn. destruct (new_counts !! name) as [c|] eqn:E.
  2:{ apply Hfree. left. intros Hin. by apply Hn in Hin as [? ?]. }
  assert (Hin : name ∈ channel_ids) by (apply Hn; eauto).
  apply wp_bind, wp_elsewhere. intros l w Hw. split; [done|]. cbn [fst].
  destruct (i_config l w Hw name) as [Hmax Hm]. change (default ∅ (w_config w)) with (provider_limits w) in Hm, Hmax.
  set (limit := default 0 (provider_limits w !! name)) in *. cbv beta zeta in Hm, Hmax. clear Hw.
  destruct (limit <=? 0) eqn:El; to_prop.
  { apply Hfree. right. destruct (ceiling name) as [m|]; [|done]. destruct (Hm m eq_refl). lia. }
  apply wp_bind. apply wp_repeat. unfold count_round. apply wp_bind, wp_elsewhere. intros l' w1 Hw1.
  split; [done|]. unfold load_count. cbn [fst]. set (n := default 0 (w_counts w1 !! name)). clearbody n. clear Hw1.
  destruct (limit <=? n) eqn:Efull; to_prop; [reflexivity|].
  apply wp_bind, wp_atomically. intros l1 l2 w2 Hw2. unfold swap_count.
  destruct (default 0 (w_counts w2 !! name) =? n) eqn:Ecas; to_prop; cbn [fst snd].
  - exists (mkTicket s a (Some name) k e None). split.
    + open_inv. close_inv. apply provider_swap with (limit := limit); try done. intros m Hc. by destruct (Hm m Hc).
    + apply wp_defer; [by apply Hheld|]. apply wp_modify. intros l1' l2' w' Hw'. open_inv. close_inv.
      by apply provider_return.
  - by exists (mkTicket s a None k e None).
Qed.

(** What the store may answer: a refusal, or a key with an id of its own and a
    concurrency limit below its ceiling. *)
Definition valid_principal (p : APIKeyPrincipal) : Prop :=
  p_ID p = 0 \/ 0 < p_ID p <= max_int64 /\ p_MaxConcurrent p <= key_ceiling (tracker_id (p_ID p)).

Definition validates (validate : string -> L -> (option APIKeyPrincipal + go_error) * L) : Prop :=
  forall token s p s', validate token s = (inl (Some p), s') -> valid_principal p.

Lemma restores_APIKeyAuth {A} digest validate (next : request -> prog world (response A)) r x :
  validates validate ->
  (forall p token, valid_principal p ->
     restores (next (r <| r_fingerprint := digest token |> <| r_principal := Some p |>)) x) ->
  restores (APIKeyAuth digest validate next r) x.
Proof.
  intros Hv Hnext. unfold APIKeyAuth. destruct (is_empty _); [reflexivity|].
  apply wp_bind, wp_elsewhere. intros l w Hw. destruct (inv_on_store (validate (apiKeyToken r)) l w Hw) as [H1 ->].
  split; [exact H1|]. destruct (validate (apiKeyToken r) (w_store w)) as [[[p|]|e] s'] eqn:E; cbn [fst]; [|reflexivity..].
  destruct (String.eqb _ _); [reflexivity|]. destruct (String.eqb _ _); [reflexivity|].
  apply Hnext. by apply (Hv _ _ _ _ E).
Qed.

Lemma tracker_id_negative id : 0 < id <= max_int64 -> tracker_id id < 0.
Proof. intros H. unfold tracker_id. rewrite i64_small by (unfold in_i64, min_int64, max_int64 in *; lia). lia. Qed.

Lemma restores_APIKeyConcurrency {A} (route : nat) (next : request -> prog world (response A)) tracker r s a p :
  tracker <> Tracker false -> (forall principal, r_principal r = Some principal -> valid_principal principal) ->
  (forall k e, restores (next r) (mkTicket s a p k e None)) ->
  restores (APIKeyConcurrencyWithTracker route next tracker r) (mkTicket s a p None None None).
Proof.
  intros Htracker Hvalid Hnext. unfold APIKeyConcurrencyWithTracker.
  destruct (r_principal r) as [principal|] eqn:Er; [|apply Hnext].
  destruct ((p_ID principal =? 0) || (p_MaxConcurrent principal <=? 0)) eqn:E0; [apply Hnext|]. to_prop.
  destruct (Hvalid principal eq_refl) as [?|[Hid Hmax]]; [done|]. pose proof (tracker_id_negative _ Hid) as Hneg.
  destruct tracker as [|[]]; [| |done].
  - apply wp_bind, wp_atomically. intros l1 l2 w Hw.
    set (entry := fst (take_entry (route, p_ID principal) (p_MaxConcurrent principal) w)).
    exists (mkTicket s a p None (pair (route, p_ID principal) <$> entry) None).
    open_inv. destruct (entries_take _ _ (route, p_ID principal) (p_MaxConcurrent principal) w Hentries) as (es & cs & -> & Hes); [cbn [snd]; lia|].
    fold entry in Hes. split; [by close_inv|]. destruct entry as [entry|]; [|reflexivity].
    apply wp_defer; [apply Hnext|]. apply wp_modify. intros l1' l2' w' Hw'. clear Hlimiter Hprovider Hconfig Hslots Hentries Hflow Hcovered. open_inv.
    destruct (entries_return _ _ _ _ _ Hentries) as (es' & cs' & -> & Hes'). by close_inv.
  - apply wp_bind, wp_atomically. intros l1 l2 w Hw.
    set (taken := tr_TryAcquire (tracker_id (p_ID principal)) (p_MaxConcurrent principal) (w_tracker w)).
    exists (mkTicket s a p (if fst taken then Some (tracker_id (p_ID principal)) else None) None None).
    open_inv. pose proof (slots_take _ _ _ (tracker_id (p_ID principal)) (p_MaxConcurrent principal) Hslots Hneg) as Hsl.
    specialize (Hsl ltac:(lia)). fold taken in Hsl. destruct taken as [ok t]. cbn [fst snd] in *.
    split; [by close_inv|]. destruct ok; cbn [negb]; [|reflexivity].
    apply wp_defer; [apply Hnext|]. apply wp_modify. intros l1' l2' w' Hw'. clear Hlimiter Hprovider Hconfig Hslots Hentries Hflow Hcovered. open_inv.
    close_inv. by apply slots_return.
Qed.

Lemma restores_with_billing {A} b (next : option BillingReservation -> request -> prog world (A * option BillingReservation)) r x :
  (forall held, restores (next held r) x) -> restores (with_billing b next r) x.
Proof.
  intros Hnext. unfold with_billing. apply wp_bind, wp_elsewhere. intros l w Hw.
  destruct (inv_on_store (billing_gate b r) l w Hw) as [H1 ->]. split; [exact H1|].
  destruct (fst (billing_gate b r (w_store w))) as [|status message code|held]; [|reflexivity|]; apply wp_bind.
  - generalize (Hnext None). apply wp_weaken. by intros answer y ->.
  - generalize (Hnext (Some held)). apply wp_weaken. intros answer y ->. apply wp_bind, wp_elsewhere.
    intros l' w' Hw'. split; [|reflexivity]. cbn [snd]. destruct (answer.2); [|exact Hw']. by apply inv_store.
Qed.

Lemma flow_protocol_Some method path id protocol :
  flow_protocol method path = Some (id, protocol) ->
  protocol ∈ protocols /\ exists endpoint, EndpointFromPath path = Some (id, endpoint).
Proof.
  unfold flow_protocol. destruct (EndpointFromPath path) as [[i e]|]; [|done].
  repeat case_match; intros [= <- <-]; (split; [set_unfold; tauto|eauto]).
Qed.

Lemma restores_Track {A} (next : request -> prog world A) r a p k e :
  (forall id endpoint, EndpointFromPath (r_Path r) = Some (id, endpoint) -> is_Some (ceiling id) -> p = Some id) ->
  (forall x, restores (next r) x) -> restores (Track next r) (mkTicket true a p k e None).
Proof.
  intros Hp Hnext. unfold Track. destruct (flow_protocol (r_Method r) (r_Path r)) as [[id protocol]|] eqn:E; [|apply Hnext].
  apply flow_protocol_Some in E as [Hprot [endpoint Hpath]]. apply wp_bind.
  apply wp_weaken with (Q := fun _ y => y = mkTicket true a p k e (Some (flow_key id protocol))).
  - intros _ y ->. apply wp_defer; [apply Hnext|]. apply wp_modify. intros l1 l2 w Hw. open_inv. close_inv.
    apply flow_update with (d := -1) (x := Some (flow_key id protocol)); [done|done| |].
    + by rewrite holds_same, holds_other.
    + intros key' Hne. rewrite !holds_other by congruence. done.
  - apply wp_modify. intros l1 l2 w Hw. open_inv. close_inv.
    + apply flow_update with (d := 1) (x := None); [done|done| |].
      * by rewrite holds_same, holds_other.
      * intros key' Hne. by rewrite !holds_other by congruence.
    + eapply covered_mid; [eassumption|]. intros key [= <-]. split; [done|]. exists id, protocol.
      split_and!; [done|by apply (provider_of_endpoint _ _ _ Hpath)|done|]. by apply (Hp id endpoint).
Qed.

(** A request that passes the chain ends with what it had when it came. *)
Lemma restores_inferenceAuth {A} (g : gateway L) (route : nat) (next : option BillingReservation -> request -> prog L (A * option BillingReservation)) r :
  validates (g_validate g) -> g_tracker g <> Tracker false -> r_admitted r = false ->
  restores (inferenceAuth g route next r) idle.
Proof.
  intros Hv Ht Hr. unfold inferenceAuth. apply restores_Limit; [done|]. set (r1 := r <| r_timeouts := _ |> <| r_admitted := true |>).
  assert (Hinner : forall p, (forall id endpoint, EndpointFromPath (r_Path r) = Some (id, endpoint) -> is_Some (ceiling id) -> p = Some id) ->
    restores (APIKeyAuth (g_digest g) (g_validate g)
      (APIKeyConcurrencyWithTracker route
        (with_billing (g_billing g) (fun held => Track (fun r => lift w_store put_store (next held r)))) (g_tracker g)) r1)
      (mkTicket true true p None None None)).
  { intros p Hp. apply restores_APIKeyAuth; [done|]. intros principal token Hprincipal.
    apply restores_APIKeyConcurrency; [done|by intros ? [= <-]|]. intros k e. apply restores_with_billing. intros held.
    apply restores_Track; [exact Hp|]. intros x. apply lift_restores. intros l v w. apply inv_store. }
  apply restores_ProviderAdmission.
  - intros Hfree. apply Hinner. intros id endpoint Hpath [m Hm].
    destruct (provider_of_endpoint _ _ _ Hpath) as [<- Hin]. destruct Hfree as [H|H]; [done|].
    change (r_Path r1) with (r_Path r) in H. congruence.
  - intros Hin. apply Hinner. intros id endpoint Hpath _. by destruct (provider_of_endpoint _ _ _ Hpath) as [<- _].
Qed.

(** ** Any number of requests *)

Lemma map_replicate {B C} (f : B -> C) n x : map f (replicate n x) = replicate n (f x).
Proof. exact (fmap_replicate f n x). Qed.

Lemma in_snoc_none {B} (b : B) (l : list (option B)) : Some b ∈ l ++ [None] -> Some b ∈ l.
Proof. intros [H|H]%elem_of_app; [done|]. by apply list_elem_of_singleton in H. Qed.

Section requests.
Context {A : Type} (g : gateway L) (next : nat -> option BillingReservation -> request -> prog L (A * option BillingReservation)).
Context (Hvalidates : validates (g_validate g)) (Htracker : g_tracker g <> Tracker false).

(** A request from outside comes to one of the routes, and carries no admission
    mark. *)
Definition arrives (p : prog world (response A)) : Prop :=
  exists route r, r_admitted r = false /\ p = inferenceAuth g route (next route) r.

(** What the rest of the process may do between the steps of the requests: reload
    the configuration, use the tracker for accounts (which have positive ids),
    write to the store; and what the other replicas may do at the tracker: take
    slots of a key while it has some left, and give theirs back. *)
Definition environment (w w' : world) : Prop :=
  w_sem w' = w_sem w /\ w_activeCount w' = w_activeCount w /\ w_counts w' = w_counts w
  /\ w_entries w' = w_entries w /\ w_cells w' = w_cells w /\ w_routes w' = w_routes w
  /\ (ks_ok (w_tracker w) -> ks_ok (w_tracker w'))
  /\ (forall tid, tid < 0 -> ks_own tid (w_tracker w') = ks_own tid (w_tracker w)
       /\ ks_count tid (w_tracker w') <= Z.max (key_ceiling tid) (ks_count tid (w_tracker w)))
  /\ config_ok (w_config w').

Definition starts (w : world) : Prop :=
  exists t config s, w = new_world capacity t config s /\ config_ok config
    /\ ks_ok t /\ forall tid, tid < 0 -> ks_own tid t = 0 /\ ks_count tid t <= key_ceiling tid.

Lemma inv_start w : starts w -> inv [] w.
Proof.
  intros (t & config & s & -> & Hconfig & Hok & Ht). unfold new_world.
  split; cbn [map w_sem w_activeCount w_counts w_config w_tracker w_entries w_cells w_routes].
  - unfold NewConcurrencyLimiter. cbn [fst]. replace (capacity <=? 0) with false by (symmetry; apply Z.leb_gt; lia).
    destruct (sem_new capacity) as [H1 H2]. split; [done..| |reflexivity]. unfold holders_of_true. cbn. lia.
  - split; [intros name; apply new_counts_channels|by intros name n ->%new_counts_zero|].
    intros name n m ->%new_counts_zero Hm. destruct (Hconfig name) as [_ Hc]. destruct (Hc m Hm). lia.
  - done.
  - split; [intros tid H; by apply not_elem_of_nil in H|done|intros tid Htid; apply (Ht tid Htid)..].
  - split; [intros ? ? H; by apply not_elem_of_nil in H|done|done].
  - split; [done|]. intros key r Hr. by rewrite (new_routes_idle key r Hr).
  - constructor.
Qed.

Lemma inv_arrival l w : inv l w -> inv (l ++ [idle]) w.
Proof.
  intros [[H1 H2 H3 H4] [P1 P2 P3] Hc [S1 S4 S2 S3] [E1 E2 E3] [F1 F2] Hcov].
  assert (Hsnoc : forall l, holders_of_true (l ++ [false]) = holders_of_true l).
  { intros l'. unfold holders_of_true. rewrite total_app. cbn. lia. }
  split; repeat rewrite map_app; cbn [map idle t_sem t_active t_provider t_slot t_entry t_route];
    [split|split|exact Hc|split|split|split|]; rewrite ?Hsnoc; try done.
  - intros name n. rewrite holders_snoc. apply P2.
  - intros tid Hin. apply S1. by apply in_snoc_none.
  - intros tid. rewrite holders_snoc. apply S2.
  - intros id entry Hin. apply E1. by apply in_snoc_none.
  - intros id entry. rewrite holders_snoc. apply E2.
  - intros key r. rewrite holders_snoc. apply F2.
  - apply Forall_app. split; [done|]. by constructor; [intros ? ?|constructor].
Qed.

Lemma inv_environment l w w' : inv l w -> environment w w' -> inv l w'.
Proof.
  intros [[H1 H2 H3 H4] [P1 P2 P3] Hc [S1 S4 S2 S3] [E1 E2 E3] [F1 F2] Hcov]
    (Hsem & Hact & Hcounts & Hes & Hcs & Hroutes & Hok & Htr & Hc').
  split; [split|split| |split|split|split|]; rewrite ?Hsem, ?Hact, ?Hcounts, ?Hes, ?Hcs, ?Hroutes; try done.
  - by apply Hok.
  - intros tid Htid. rewrite (proj1 (Htr tid Htid)). by apply S2.
  - intros tid Htid. pose proof (proj2 (Htr tid Htid)). pose proof (S3 tid Htid). lia.
Qed.

Lemma tickets w0 s :
  starts w0 -> reachable arrives environment w0 s ->
  exists l, inv l (shared s) /\ (over (threads s) -> l = replicate (length l) idle).
Proof.
  intros H0 Hr. destruct (adequacy inv arrives environment idle) with (w0 := w0) (s := s) as [l Hl]; try done.
  - intros p (route & r & Hr' & ->). by apply restores_inferenceAuth.
  - apply inv_arrival.
  - apply inv_environment.
  - by apply inv_start.
  - exists l. split; [apply Hl|]. by apply (ticketed_over inv idle s l).
Qed.


(** A tracker that answers how many slots this process holds. *)
Definition counts_exactly : Prop :=
  forall tid (t : T), ks_ok t -> tid < 0 -> tr_GetCount tid t = ks_own tid t.

(** C29: what a request takes it gives back, whichever gate turned it away and
    whatever its handler did: when every request is over, every counter of the
    gates is back at zero, and no entry of a key is left in the process.  Of the
    slots at a tracker, this process holds none: one that counts exactly is back
    at zero too. *)
Theorem admission_is_returned w0 s :
  starts w0 -> reachable arrives environment w0 s -> over (threads s) ->
  let w := shared s in
  sem_held (w_sem w) = 0 /\ w_activeCount w = 0
  /\ (forall name n, w_counts w !! name = Some n -> n = 0)
  /\ (forall tid, tid < 0 ->
       ks_own tid (w_tracker w) = 0 /\ (counts_exactly -> tr_GetCount tid (w_tracker w) = 0))
  /\ w_entries w = ∅
  /\ (forall key r, w_routes w !! key = Some r -> Active r = 0).
Proof.
  intros H0 Hr Hover. destruct (tickets w0 s H0 Hr) as (l & [Hl Hp _ Hs He Hf _] & Hidle).
  assert (exists n, l = replicate n idle) as [n ->] by eauto.
  repeat rewrite map_replicate in Hl. rewrite map_replicate in Hp. rewrite map_replicate in Hs. rewrite map_replicate in He. rewrite map_replicate in Hf.
  cbn [idle t_sem t_active t_provider t_slot t_entry t_route] in *.
  assert (Hnone : forall B (E : EqDecision B) (b : B) n, holders b (replicate n None) = 0).
  { intros. unfold holders. rewrite total_replicate, holds_other by done. lia. }
  assert (Hfalse : forall n, holders_of_true (replicate n false) = 0).
  { intros. unfold holders_of_true. rewrite total_replicate. cbn. lia. }
  split_and!.
  - by rewrite (li_held _ _ _ _ Hl).
  - by rewrite (li_active _ _ _ _ Hl), Hfalse.
  - intros name c Hc. destruct (pi_count _ _ Hp name c Hc) as [-> _]. apply Hnone.
  - intros tid Htid. assert (ks_own tid (w_tracker (shared s)) = 0) as Hzero by (rewrite (si_own _ _ Hs tid Htid); apply Hnone).
    split; [exact Hzero|]. intros Hexact. by rewrite Hexact by (done || apply Hs).
  - apply map_empty. intros id. destruct (w_entries (shared s) !! id) as [entry|] eqn:E; [|done].
    destruct (ei_entry _ _ _ He id entry E) as [_ Hn]. rewrite Hnone in Hn. lia.
  - intros key r Hr'. by rewrite (fi_active _ _ Hf key r Hr'), Hnone.
Qed.

(** The handlers of a route at work, as the flow tracker counts them. *)
Definition active_of (w : world) (id protocol : string) : Z :=
  match w_routes w !! flow_key id protocol with Some r => Active r | None => 0 end.

Definition active_in (w : world) (id : string) : Z := total (active_of w id) protocols.

(** the handlers at work, as the flow tracker shows them to an operator, are
    never more than the gateway's limit in all and never more than the provider's
    limit on the routes of one channel: no path reaches a handler around the
    gates. *)
Theorem handlers_within_limits w0 s :
  starts w0 -> reachable arrives environment w0 s ->
  let w := shared s in
  (forall id protocol, id ∈ channel_ids -> protocol ∈ protocols -> 0 <= active_of w id protocol)
  /\ total (active_in w) channel_ids <= capacity
  /\ (forall id m, id ∈ channel_ids -> ceiling id = Some m -> active_in w id <= m).
Proof.
  intros H0 Hr. cbv zeta. destruct (tickets w0 s H0 Hr) as (l & [Hl Hp _ _ _ Hf Hcov] & _).
  rewrite Forall_forall in Hcov.
  assert (Hroute : forall id protocol, id ∈ channel_ids -> protocol ∈ protocols ->
            active_of (shared s) id protocol = total (fun x => holds (flow_key id protocol) (t_route x)) l).
  { intros id protocol Hid Hprot. unfold active_of.
    destruct (proj2 (fi_routes _ _ Hf _) (new_routes_has id protocol Hid Hprot)) as [r Er]. rewrite Er, (fi_active _ _ Hf _ r Er).
    unfold holders. rewrite total_map. apply i64_small.
    assert (total (fun x => holds (flow_key id protocol) (t_route x)) l <= total (fun x => one_if (t_sem x)) l).
    { apply total_le. intros x Hx. destruct (t_route x) as [key|] eqn:E; [|apply one_if_nonneg].
      destruct (Hcov x Hx key E) as [-> _]. unfold holds. by case_bool_decide. }
    pose proof (li_limit _ _ _ _ Hl) as Hlimit. unfold holders_of_true in Hlimit. rewrite total_map in Hlimit.
    pose proof (total_nonneg (fun x => holds (flow_key id protocol) (t_route x)) l (fun x => one_if_nonneg _)).
    unfold in_i64, min_int64, max_int64 in *. lia. }
  split_and!.
  - intros id protocol Hid Hprot. rewrite Hroute by done. apply total_nonneg. intros. apply one_if_nonneg.
  - pose proof (li_limit _ _ _ _ Hl) as Hlimit. unfold holders_of_true in Hlimit. rewrite total_map in Hlimit.
    etransitivity; [|exact Hlimit]. unfold active_in.
    rewrite (total_ext _ (fun id => total (fun key => total (fun x => holds key (t_route x)) l) (map (flow_key id) protocols))).
    2:{ intros id Hid. rewrite total_map. apply total_ext. intros protocol Hprot. by apply Hroute. }
    rewrite <- total_flat_map, total_swap. apply total_le. intros x Hx. destruct (t_route x) as [key|] eqn:E.
    + destruct (Hcov x Hx key E) as [-> _]. rewrite total_holds_one; [by case_bool_decide|apply flow_keys_distinct].
    + rewrite (total_ext _ (fun _ => 0)) by done. rewrite total_zero. apply one_if_nonneg.
  - intros id m Hid Hm. destruct (proj2 (pi_channels _ _ Hp id) Hid) as [n Hn].
    pose proof (pi_limit _ _ Hp id n m Hn Hm) as Hlimit. destruct (pi_count _ _ Hp id n Hn) as [-> _].
    unfold holders in Hlimit. rewrite total_map in Hlimit. etransitivity; [|exact Hlimit]. unfold active_in.
    rewrite (total_ext _ (fun protocol => total (fun x => holds (flow_key id protocol) (t_route x)) l)).
    2:{ intros protocol Hprot. by apply Hroute. }
    rewrite total_swap. apply total_le. intros x Hx.
    rewrite <- (total_map (fun key => holds key (t_route x)) (flow_key id) protocols).
    destruct (t_route x) as [key|] eqn:E.
    + rewrite total_holds_one by by apply flow_keys_of_channel. case_bool_decide as Hin; [|apply one_if_nonneg].
      destruct (Hcov x Hx key E) as [_ (id' & protocol' & -> & Hid' & Hprot' & Hprov)].
      apply list_elem_of_fmap in Hin as (protocol & Heq & Hprot).
      rewrite (flow_key_channel id' id protocol' protocol) in * by done.
      rewrite Hprov by eauto. by rewrite holds_same.
    + rewrite (total_ext _ (fun _ => 0)) by done. rewrite total_zero. apply one_if_nonneg.
Qed.
End requests.

(** ** What becomes of a request that meets no other

    The abstract specification of the chain: the gates in their order, as
    questions on the state, without the slots they take and give back. *)

Inductive fate (A : Type) :=
| Turned (answer : response A)
| Reaches (held : option BillingReservation) (r : request).
Arguments Turned {A} _.
Arguments Reaches {A} _ _.

Section spec.
Context {A : Type} (g : gateway L).

Definition gateway_full (w : world) : bool := negb (sem_held (w_sem w) + 1 <=? sem_size (w_sem w)).

Definition provider_full (path : string) (w : world) : bool :=
  let name := provider_name path in
  let limit := default 0 (provider_limits w !! name) in
  bool_decide (name ∈ channel_ids) && (0 <? limit) && (limit <=? default 0 (w_counts w !! name)).

Definition key_full (route : nat) (p : APIKeyPrincipal) (w : world) : bool :=
  negb (p_ID p =? 0) && (0 <? p_MaxConcurrent p)
  && match g_tracker g with
     | NoTracker =>
         p_MaxConcurrent p <=? match w_entries w !! (route, p_ID p) with
                               | Some entry => default 0 (w_cells w !! entry)
                               | None => 0
                               end
     | Tracker true => negb (fst (tr_TryAcquire (tracker_id (p_ID p)) (p_MaxConcurrent p) (w_tracker w)))
     | Tracker false => p_MaxConcurrent p <=? tr_GetCount (tracker_id (p_ID p)) (w_tracker w)
     end.

Definition billing_fate (r : request) (s : L) : fate A * L :=
  match billing_gate (g_billing g) r s with
  | (Refuse status message code, s) => (Turned (writeAPIKeyError [] status message code), s)
  | (PassThrough, s) => (Reaches None r, s)
  | (Hold held, s) => (Reaches (Some held) r, s)
  end.

Definition key_fate (route : nat) (r : request) (w : world) : fate A * L :=
  let token := apiKeyToken r in
  if is_empty token then (Turned (writeAPIKeyError [] 401 "Missing API key" "invalid_api_key"), w_store w)
  else
    match g_validate g token (w_store w) with
    | (inr _, s) => (Turned (writeAPIKeyError [] 503 "API key validation unavailable" "auth_unavailable"), s)
    | (inl None, s) => (Turned (writeAPIKeyError [] 401 "Invalid API key" "invalid_api_key"), s)
    | (inl (Some p), s) =>
        if String.eqb (p_DenialCode p) APIKeyDenialExpired
        then (Turned (writeAPIKeyError [] 401 "API key has expired" APIKeyDenialExpired), s)
        else if String.eqb (p_DenialCode p) APIKeyDenialRateLimited
        then (Turned (writeAPIKeyError [("Retry-After", "60")] 429 "API key rate limit exceeded" APIKeyDenialRateLimited), s)
        else if key_full route p w then (Turned key_busy, s)
        else billing_fate (r <| r_fingerprint := g_digest g token |> <| r_principal := Some p |>) s
    end.

Definition fate_of (route : nat) (r : request) (w : world) : fate A * L :=
  if gateway_full w then (Turned overloaded, w_store w)
  else if provider_full (r_Path r) w
  then (Turned (writeAPIKeyError [("Retry-After", "1")] 503 "provider is overloaded; retry later" "provider_overloaded"),
        w_store w)
  else key_fate route (r <| r_timeouts := g_timeout g :: r_timeouts r |> <| r_admitted := true |>) w.
End spec.

Section refinement.
Context {A : Type} (g : gateway L) (route : nat) (next : option BillingReservation -> request -> prog L (A * option BillingReservation)).

(** The store after a handler that was given [held] and left [held'] and [s]. *)
Definition released (held held' : option BillingReservation) (s : L) : L :=
  match held, held' with
  | Some _, Some r => finish (b_release (g_billing g)) r s
  | _, _ => s
  end.

(** A handler chain meets a fate: it ends as the fate says, whatever the handler
    does when it is reached. *)
Definition meets (p : prog world (response A)) (w : world) (f : fate A * L) : Prop :=
  match f with
  | (Turned answer, s) => exists w', ends p w answer w' /\ w_store w' = s
  | (Reaches held r, s) =>
      forall a held' s', ends (next held r) s (a, held') s' ->
        exists w', ends p w (Served a) w' /\ w_store w' = released held held' s'
  end.

(** Going on from a later point, and a deferred call, change nothing of it. *)
Lemma meets_later (p q : prog world (response A)) w w1 f :
  (forall a w', ends q w1 a w' -> exists w'', ends p w a w'' /\ w_store w'' = w_store w') ->
  meets q w1 f -> meets p w f.
Proof.
  intros Hpq. destruct f as [[answer|held r] s]; cbn.
  - intros (w' & Hq & Hs). destruct (Hpq _ _ Hq) as (w'' & Hp & Hs'). exists w''. split; [done|congruence].
  - intros Hq a held' s' Hn. destruct (Hq a held' s' Hn) as (w' & Hw & Hs). destruct (Hpq _ _ Hw) as (w'' & Hp & Hs').
    exists w''. split; [done|congruence].
Qed.

Lemma meets_defer (cleanup : prog world unit) (q : prog world (response A)) w f :
  (forall w', exists w'', ends cleanup w' tt w'' /\ w_store w'' = w_store w') ->
  meets q w f -> meets (defer cleanup q) w f.
Proof.
  intros Hc. apply meets_later. intros a w' Hq. destruct (Hc w') as (w'' & Hw & Hs). exists w''.
  split; [by eapply ends_defer|done].
Qed.

Lemma meets_atomically {B} (f : world -> B * world) (k : B -> prog world (response A)) w o :
  meets (k (fst (f w))) (snd (f w)) o -> meets (bind (atomically f) k) w o.
Proof. apply meets_later. intros a w' H. exists w'. split; [by apply ends_atomically|done]. Qed.

Lemma meets_modify (f : world -> world) (k : unit -> prog world (response A)) w o :
  meets (k tt) (f w) o -> meets (bind (modify f) k) w o.
Proof. exact (meets_atomically (fun w => (tt, f w)) k w o). Qed.

Lemma meets_turned (answer : response A) w s : w_store w = s -> meets (Ret answer) w (Turned answer, s).
Proof. intros <-. exists w. split; [constructor|done]. Qed.

Lemma meets_bind {B} (p : prog world B) (k : B -> prog world (response A)) w b w1 o :
  ends p w b w1 -> meets (k b) w1 o -> meets (bind p k) w o.
Proof. intros Hp. apply meets_later. intros a w' H. exists w'. split; [by eapply ends_bind|done]. Qed.

Definition handle (held : option BillingReservation) : request -> prog world (A * option BillingReservation) :=
  Track (fun r => lift w_store put_store (next held r)).

Lemma ends_handle held r w x s' :
  ends (next held r) (w_store w) x s' -> exists w', ends (handle held r) w x w' /\ w_store w' = s'.
Proof.
  intros H. assert (Hlift : forall w0 : world, w_store w0 = w_store w ->
    ends (lift w_store put_store (next held r)) w0 x (put_store s' w0)).
  { intros w0 Hw0. apply ends_lift; [done|done|by intros []|by rewrite Hw0]. }
  unfold handle, Track. destruct (flow_protocol _ _) as [[id protocol]|].
  - eexists. split.
    + eapply ends_bind; [apply ends_modify|]. eapply ends_defer; [by apply Hlift|apply ends_modify].
    + done.
  - exists (put_store s' w). split; [by apply Hlift|done].
Qed.

Lemma on_store_eq {B} (f : L -> B * L) (w : world) : on_store f w = (fst (f (w_store w)), put_store (snd (f (w_store w))) w).
Proof. unfold on_store. by destruct (f (w_store w)). Qed.

Lemma meets_billing r w : meets (with_billing (g_billing g) handle r) w (billing_fate g r (w_store w)).
Proof.
  unfold with_billing, billing_fate. apply meets_atomically. rewrite on_store_eq. cbn [fst snd].
  destruct (billing_gate (g_billing g) r (w_store w)) as [[|status message code|held] s]; cbn [fst snd].
  - intros a held' s' Hn. destruct (ends_handle None r (put_store s w) (a, held') s' Hn) as (w' & Hw & Hs).
    exists w'. split; [|done]. eapply ends_bind; [exact Hw|constructor].
  - by apply meets_turned.
  - intros a held' s' Hn. destruct (ends_handle (Some held) r (put_store s w) (a, held') s' Hn) as (w' & Hw & Hs).
    eexists. split; [eapply ends_bind; [exact Hw|]; eapply ends_bind; [apply ends_modify|constructor]|].
    cbn [snd]. destruct held' as [held'|]; cbn; by rewrite Hs.
Qed.

Lemma return_entry_store id entry (w : world) : w_store (return_entry id entry w) = w_store w.
Proof. unfold return_entry. cbv zeta. case_match; done. Qed.

Lemma meets_APIKeyConcurrency (inner : request -> prog world (response A)) r p w f :
  r_principal r = Some p -> (forall w', w_store w' = w_store w -> meets (inner r) w' f) ->
  meets (APIKeyConcurrencyWithTracker route inner (g_tracker g) r) w
    (if key_full g route p w then (Turned key_busy, w_store w) else f).
Proof.
  intros Hr Hinner. unfold APIKeyConcurrencyWithTracker, key_full. rewrite Hr. rewrite Z.ltb_antisym.
  destruct (p_ID p =? 0); cbn [negb andb orb]; [by apply Hinner|].
  destruct (p_MaxConcurrent p <=? 0) eqn:Emax; cbn [negb andb]; [by apply Hinner|].
  destruct (g_tracker g) as [|[]]; cbn [take_key_slot].
  - apply meets_atomically. unfold take_entry. destruct (w_entries w !! (route, p_ID p)) as [entry|].
    + destruct (p_MaxConcurrent p <=? default 0 (w_cells w !! entry)); cbn [fst snd]; [by apply meets_turned|].
      apply meets_defer; [|by apply Hinner]. intros w'. eexists. split; [apply ends_modify|].
      apply return_entry_store.
    + change (w_cells (_ <| w_entries := _ |>)) with (<[fresh (dom (w_cells w)) := 0]> (w_cells w)).
      rewrite lookup_insert_eq. change (default 0 (Some 0)) with 0. rewrite Emax. cbn [fst snd].
      apply meets_defer; [|by apply Hinner]. intros w'. eexists. split; [apply ends_modify|].
      apply return_entry_store.
  - apply meets_atomically. destruct (tr_TryAcquire _ _ _) as [[] t]; cbn [fst snd negb]; [|by apply meets_turned].
    apply meets_defer; [|by apply Hinner]. intros w'. eexists. split; [apply ends_modify|done].
  - unfold take_key_slot. eapply meets_bind.
    + apply ends_atomically. cbn [fst snd]. rewrite Z.ltb_antisym.
      instantiate (1 := if p_MaxConcurrent p <=? tr_GetCount (tracker_id (p_ID p)) (w_tracker w) then w
                        else w <| w_tracker := tr_Acquire (tracker_id (p_ID p)) (w_tracker w) |>).
      instantiate (1 := negb (p_MaxConcurrent p <=? tr_GetCount (tracker_id (p_ID p)) (w_tracker w))).
      destruct (p_MaxConcurrent p <=? tr_GetCount _ _); cbn [negb]; [constructor|]. eapply ends_bind; [apply ends_modify|constructor].
    + destruct (p_MaxConcurrent p <=? tr_GetCount _ _); cbn [negb]; [by apply meets_turned|].
      apply meets_defer; [|by apply Hinner]. intros w'. eexists. split; [apply ends_modify|done].
Qed.

Definition keyed : request -> prog world (response A) :=
  APIKeyAuth (g_digest g) (g_validate g)
    (APIKeyConcurrencyWithTracker route (with_billing (g_billing g) handle) (g_tracker g)).

Lemma meets_keyed r w : meets (keyed r) w (key_fate g route r w).
Proof.
  unfold keyed, APIKeyAuth, key_fate. destruct (is_empty _); [by apply meets_turned|].
  apply meets_atomically. rewrite on_store_eq. cbn [fst snd].
  destruct (g_validate g (apiKeyToken r) (w_store w)) as [[[p|]|e] s]; cbn [fst snd]; [|by apply meets_turned..].
  destruct (String.eqb _ _); [by apply meets_turned|]. destruct (String.eqb _ _); [by apply meets_turned|].
  apply (meets_APIKeyConcurrency _ _ p (put_store s w)); [done|]. intros w' Hw'.
  change s with (w_store (put_store s w)). rewrite <- Hw'. apply meets_billing.
Qed.

(** The rest of the state, from the point of view of a gate. *)
Definition same_keys (w w' : world) : Prop :=
  w_store w' = w_store w /\ w_tracker w' = w_tracker w /\ w_entries w' = w_entries w /\ w_cells w' = w_cells w.

Lemma key_fate_same r w w' : same_keys w w' -> key_fate (A := A) g route r w' = key_fate g route r w.
Proof. intros (H1 & H2 & H3 & H4). unfold key_fate, key_full. by rewrite H1, H2, H3, H4. Qed.

Lemma meets_ProviderAdmission (inner : request -> prog world (response A)) r w f :
  (forall w', same_keys w w' -> meets (inner r) w' f) ->
  meets (ProviderAdmission (Some provider_limits) inner r) w
    (if provider_full (r_Path r) w
     then (Turned (writeAPIKeyError [("Retry-After", "1")] 503 "provider is overloaded; retry later" "provider_overloaded"),
           w_store w) else f).
Proof.
  intros Hinner. unfold ProviderAdmission, provider_full. set (name := provider_name (r_Path r)).
  pose proof (new_counts_channels name) as Hn. destruct (new_counts !! name) as [c|].
  2:{ rewrite bool_decide_eq_false_2 by (rewrite <- Hn; by intros [? ?]). by apply Hinner. }
  rewrite bool_decide_eq_true_2 by (apply Hn; eauto). rewrite Z.ltb_antisym. cbn [andb].
  apply meets_atomically. cbn [fst snd]. set (limit := default 0 (provider_limits w !! name)).
  destruct (limit <=? 0); cbn [negb andb]; [by apply Hinner|].
  destruct (limit <=? default 0 (w_counts w !! name)) eqn:Efull.
  - eapply meets_bind; [apply ends_repeat; unfold count_round; apply ends_atomically; cbn [load_count fst snd];
      rewrite Efull; constructor|]. by apply meets_turned.
  - eapply meets_bind.
    + apply ends_repeat. unfold count_round. apply ends_atomically. cbn [load_count fst snd]. rewrite Efull.
      apply ends_atomically. unfold swap_count. rewrite Z.eqb_refl. cbn [fst snd]. constructor.
    + cbn [negb]. apply meets_defer; [|by apply Hinner]. intros w'. eexists. split; [apply ends_modify|done].
Qed.

Lemma meets_Limit timeout (inner : request -> prog world (response A)) r w f :
  r_admitted r = false ->
  (forall w', same_keys w w' -> w_counts w' = w_counts w -> w_config w' = w_config w ->
     meets (inner (r <| r_timeouts := timeout :: r_timeouts r |> <| r_admitted := true |>)) w' f) ->
  meets (Limit timeout inner r) w (if gateway_full w then (Turned overloaded, w_store w) else f).
Proof.
  intros Hr Hinner. unfold Limit, gateway_full. rewrite Hr. apply meets_atomically. unfold take_slot.
  destruct (sem_try 1 (w_sem w)) as (Hok & _ & _). destruct (sem_TryAcquire 1 (w_sem w)) as [ok s]. cbn [fst snd] in *.
  subst ok. destruct (_ <=? _); cbn [negb].
  - apply meets_modify. apply meets_defer; [|by apply Hinner]. intros w'. eexists.
    split; [eapply ends_bind; [apply ends_modify|apply ends_modify]|done].
  - apply meets_modify. by apply meets_turned.
Qed.

(** C37: the chain of gates, run by one request alone, does what its abstract
    specification says: it ends, with the refusal of the first gate that is
    closed, the handler not run and the store as the key check and the ledger
    left it; or, when every gate is open, it runs the handler with the hold the
    ledger granted, answers what the handler answered, and then releases the hold
    if nothing was settled. *)
Theorem lone_request_meets_its_fate r w :
  r_admitted r = false -> meets (inferenceAuth g route next r) w (fate_of g route r w).
Proof.
  intros Hr. unfold inferenceAuth, fate_of. apply meets_Limit; [done|]. intros w1 H1 Hcounts Hconfig.
  set (r1 := r <| r_timeouts := _ |> <| r_admitted := true |>).
  assert (provider_full (r_Path r) w = provider_full (r_Path r1) w1) as ->.
  { unfold provider_full, provider_limits. by rewrite Hcounts, Hconfig. }
  destruct H1 as (Hs & H1). rewrite <- Hs. rewrite <- (key_fate_same r1 w w1) by done.
  apply meets_ProviderAdmission. intros w2 H2. rewrite <- (key_fate_same r1 w1 w2 H2). apply meets_keyed.
Qed.
End refinement.
End admission.

Arguments Turned {A} _.
Arguments Reaches {A} _ _.

(** * The store's verdict on a key *)

(** each verdict of the store on a key has its own answer: an unknown or
    disabled key and an expired one are 401, a key above its rate is 429 with a
    retry after one minute, a store that cannot answer is 503, and in none of
    these cases is a budget held or the handler reached; an authorized key carries
    its own identity and limits to the gates behind. *)
Theorem key_verdicts {Sm T L A : Type} {S : Semaphore Sm} {Tr : ConnTracker T} {Limited : LimitedConnTracker T}
    (g : gateway L) (route : nat) (authorize : string -> L -> (ApiKey + go_error) * L) (r : request) (w : world Sm T L) :
  g_validate g = (fun token s => (principal_of (fst (authorize token s)), snd (authorize token s))) ->
  apiKeyToken r <> "" ->
  let '(verdict, s) := authorize (apiKeyToken r) (w_store w) in
  match verdict with
  | inr err =>
      exists status headers message type code, key_fate (A := A) g route r w = (Turned (Refused status headers message type code), s)
        /\ status = (if decide (err = ErrNoRows) then 401 else if decide (err = ErrApiKeyExpired) then 401
                     else if decide (err = ErrApiKeyRateLimited) then 429 else 503)
        /\ (("Retry-After", "60") ∈ headers <-> status = 429)
  | inl key =>
      let p := mkPrincipal (k_ID key) (k_AllowedModels key) (k_MaxConcurrent key) (k_BillingLimitUSDTicks key) "" in
      key_fate (A := A) g route r w
      = if key_full g route p w then (Turned key_busy, s)
        else billing_fate g (r <| r_fingerprint := g_digest g (apiKeyToken r) |> <| r_principal := Some p |>) s
  end.
Proof.
  intros Hv Htoken. unfold key_fate. rewrite (proj2 (is_empty_false _) Htoken), Hv.
  destruct (authorize (apiKeyToken r) (w_store w)) as [[key|err] s]; cbn [fst snd principal_of]; [reflexivity|].
  repeat case_decide; cbn [p_DenialCode]; subst; eexists _, _, _, _, _; (split; [reflexivity|]); (split; [reflexivity|]);
    set_unfold; naive_solver.
Qed.

(** * A gateway at work *)

(** The store counts what the handlers did; one key, one slot. *)
Definition demo_validate (token : string) (s : nat) : (option APIKeyPrincipal + go_error) * nat :=
  if String.eqb token "k" then (inl (Some (mkPrincipal 5 [] 1 0 "")), s) else (inl None, s).

Definition demo_gateway (tracker : tracker_kind) : gateway nat :=
  mkGateway (2 * Minute) (fun s => s) demo_validate tracker
    (mkBilling None (fun _ _ s => (inl true, s)) 0 (fun _ => None) (fun _ => 0)).

Definition demo_handler (held : option BillingReservation) (r : request)
    : prog nat (string * option BillingReservation) :=
  do* modify Datatypes.S in let* n := atomically (fun n => (n, n)) in Ret ("answer", held).

Definition demo_request (token : string) : request :=
  mkRequest "POST" "/grok/v1/chat/completions"
    (fun h => if String.eqb h "Authorization" then "Bearer " +:+ token else "") Unreadable "req" false [] "" None.

Definition demo_config : option (gmap string Z) := Some {["grok" := 2]}.
Definition demo_ceiling (name : string) : option Z := if String.eqb name "grok" then Some 2 else None.
Definition demo_key_ceiling (tid : Z) : Z := if tid =? -5 then 1 else 0.

Section demo.
Context {T : Type} {Tr : ConnTracker T} {Limited : LimitedConnTracker T} {Slots : KeySlots T}.

Definition demo_start (t : T) : world (Z * Z) T nat := new_world 2 t demo_config 0%nat.

(** Requests to routes, with their keys, and who moves when. *)
Definition demo_run (t : T) (tracker : tracker_kind) (requests : list (nat * string)) (schedule : list nat)
    : system (W := world (Z * Z) T nat) (response string) :=
  foldl (fun s i => poke i s)
    (mkSystem (demo_start t)
       (map (fun '(route, token) => inferenceAuth (demo_gateway tracker) route demo_handler (demo_request token)) requests))
    schedule.

Lemma demo_reachable t tracker requests schedule :
  reachable (arrives (demo_gateway tracker) (fun _ => demo_handler)) (environment demo_ceiling demo_key_ceiling)
    (demo_start t) (demo_run t tracker requests schedule).
Proof.
  apply pokes_reachable. induction requests as [|[route token] requests IH] using rev_ind; [constructor|].
  rewrite map_app. eapply reach_step; [exact IH|]. apply step_arrival. by exists route, (demo_request token).
Qed.
End demo.

Lemma demo_keys tid : 0 <= demo_key_ceiling tid < max_int64.
Proof. unfold demo_key_ceiling. destruct (tid =? -5); done. Qed.

Lemma demo_validates : validates (L := nat) demo_key_ceiling demo_validate.
Proof.
  intros token s p s'. unfold demo_validate. destruct (String.eqb _ _); [|done]. intros [= <- <-].
  right. vm_compute. split; [split|]; done.
Qed.

Lemma demo_config_ok : config_ok demo_ceiling demo_config.
Proof.
  intros name. unfold demo_config, demo_ceiling.
  destruct (String.eqb_spec name "grok") as [->|Hne].
  - vm_compute. split; [done|]. by intros m [= <-].
  - change (default ∅ (Some {["grok" := 2]})) with ({["grok" := 2]} : gmap string Z).
    cbv zeta. rewrite lookup_singleton_ne by congruence. by split.
Qed.

Lemma demo_starts {T} {Tr : ConnTracker T} {Limited : LimitedConnTracker T} {Slots : KeySlots T} (t : T) :
  ks_ok t -> (forall tid, tid < 0 -> ks_own tid t = 0 /\ ks_count tid t = 0) ->
  starts 2 demo_ceiling demo_key_ceiling (demo_start t).
Proof.
  intros Hok Ht. exists t, demo_config, 0%nat. split; [reflexivity|]. split; [apply demo_config_ok|]. split; [exact Hok|].
  intros tid Htid. destruct (Ht tid Htid) as [-> ->]. split; [done|]. by destruct (demo_keys tid).
Qed.

(** The leases in a Redis that answers, and the counters in memory. *)
Definition demo_server : Leases.LeaseServer := Leases.mem_server 0.
Definition demo_names (n : nat) : string := "lease-" +:+ Itoa (Z.of_nat n).

Lemma demo_names_distinct : Inj (=) (=) demo_names.
Proof. intros n m H. apply (inj (String.append "lease-")), Itoa_inj in H. lia. Qed.

#[local] Instance demo_ops : ConnTracker (Shared.tracker demo_server) := Shared.ops "conns:" demo_names.
#[local] Instance demo_limited_ops : LimitedConnTracker (Shared.tracker demo_server) := Shared.limited_ops "conns:" demo_names.
#[local] Instance demo_slots : KeySlots (Shared.tracker demo_server) :=
  Shared.slots "conns:" demo_names (Laws := Leases.mem_server_laws 0) (Drawn := demo_names_distinct).

Definition demo_redis : Shared.tracker demo_server :=
  Shared.mkTracker demo_server (Leases.mkProc ∅ false None) (fun _ => Leases.ZNone) 0 0.

Lemma demo_redis_starts : starts 2 demo_ceiling demo_key_ceiling (demo_start demo_redis).
Proof.
  apply demo_starts.
  - split; [done|intros tid; constructor|intros tid lease H; by apply not_elem_of_nil in H|by intros].
  - done.
Qed.

Lemma demo_memory_starts : starts 2 demo_ceiling demo_key_ceiling (demo_start (T := gmap Z Z) ∅).
Proof. by apply demo_starts. Qed.

Lemma memory_counts_exactly : counts_exactly (T := gmap Z Z).
Proof. by intros tid t. Qed.

(** Two requests of a key with one slot: the first is in its handler; the second
    has been turned away by the key's gate and still holds the slots before it. *)
Definition demo_schedule : list nat := replicate 10 0%nat ++ replicate 8 1%nat.


(** Without a tracker, the same two requests at two routes are both in their
    handlers, of a key that may have one request at a time; at one route the
    second is turned away. *)
Example key_limit_is_per_route :
  let served routes := omap result (threads (demo_run (T := gmap Z Z) ∅ NoTracker (map (fun route => (route, "k")) routes)
                              (replicate 10 0%nat ++ replicate 20 1%nat ++ replicate 10 0%nat))) in
  served [0%nat; 1%nat] = [Served "answer"; Served "answer"]
  /\ served [0%nat; 0%nat] = [Served "answer"; key_busy].
Proof. vm_compute. by split. Qed.

(** Both run to their ends, counted by the process. *)
Definition demo_to_the_end : list nat := demo_schedule ++ replicate 4 1%nat ++ replicate 10 0%nat.

Lemma admission_is_returned_witness :
  let s := demo_run (T := gmap Z Z) ∅ NoTracker [(0%nat, "k"); (0%nat, "k")] demo_to_the_end in
  over (threads s) /\ omap result (threads s) = [Served "answer"; key_busy]
  /\ sem_held (w_sem (shared s)) = 0 /\ tr_GetCount (-5) (w_tracker (shared s)) = 0 /\ w_entries (shared s) = ∅.
Proof.
  assert (Hover : over (threads (demo_run (T := gmap Z Z) ∅ NoTracker [(0%nat, "k"); (0%nat, "k")] demo_to_the_end))).
  { apply all_over_spec. vm_compute. reflexivity. }
  split; [exact Hover|]. split; [vm_compute; reflexivity|].
  destruct (admission_is_returned (T := gmap Z Z) 2 ltac:(done) demo_ceiling demo_key_ceiling demo_keys
              (demo_gateway NoTracker) (fun _ => demo_handler) demo_validates ltac:(done)
              (demo_start (T := gmap Z Z) ∅) (demo_run (T := gmap Z Z) ∅ NoTracker [(0%nat, "k"); (0%nat, "k")] demo_to_the_end) demo_memory_starts
              (demo_reachable _ _ _ _) Hover)
    as (H1 & _ & _ & H2 & H3 & _).
  split; [exact H1|]. split; [exact (proj2 (H2 (-5) eq_refl) memory_counts_exactly)|exact H3].
Defined.

Lemma handlers_within_limits_witness :
  let w := shared (demo_run demo_redis (Tracker true) [(0%nat, "k"); (1%nat, "k")] demo_schedule) in
  active_in w "grok" = 1 /\ total (active_in w) channel_ids <= 2 /\ active_in w "grok" <= 2.
Proof.
  split; [vm_compute; reflexivity|].
  destruct (handlers_within_limits 2 ltac:(done) demo_ceiling demo_key_ceiling demo_keys
              (demo_gateway (Tracker true)) (fun _ => demo_handler) demo_validates ltac:(done) (demo_start demo_redis)
              (demo_run demo_redis (Tracker true) [(0%nat, "k"); (1%nat, "k")] demo_schedule) demo_redis_starts
              (demo_reachable _ _ _ _))
    as (_ & H1 & H2).
  split; [exact H1|]. apply H2; [vm_compute; by repeat (left || right)|reflexivity].
Defined.

(** A request with an unknown key, and one with a known key. *)
Lemma lone_request_meets_its_fate_witness :
  let answer := Refused 401 [("WWW-Authenticate", "Bearer"); ("Content-Type", "application/json")]
                  "Invalid API key" "authentication_error" "invalid_api_key" in
  let g := demo_gateway NoTracker in
  let start := demo_start (T := gmap Z Z) ∅ in
  fate_of g 3 (demo_request "x") start = (Turned answer, 0%nat)
  /\ (exists w', ends (inferenceAuth g 3 demo_handler (demo_request "x")) start answer w' /\ w_store w' = 0%nat)
  /\ (exists w', ends (inferenceAuth g 3 demo_handler (demo_request "k")) start (Served "answer") w'
                /\ w_store w' = 1%nat).
Proof.
  split; [vm_compute; reflexivity|]. split.
  - exact (lone_request_meets_its_fate (demo_gateway NoTracker) 3 demo_handler (demo_request "x") (demo_start (T := gmap Z Z) ∅) eq_refl).
  - pose proof (lone_request_meets_its_fate (demo_gateway NoTracker) 3 demo_handler (demo_request "k")
                  (demo_start (T := gmap Z Z) ∅) eq_refl) as H.
    assert (exists r, fate_of (A := string) (demo_gateway NoTracker) 3 (demo_request "k") (demo_start (T := gmap Z Z) ∅)
                      = (Reaches None r, 0%nat)) as [r E] by (eexists; reflexivity).
    rewrite E in H. apply (H "answer" None 1%nat). apply (alone_ends 4). reflexivity.
Defined.

Definition demo_authorize (token : string) (s : nat) : (ApiKey + go_error) * nat :=
  (inr (if String.eqb token "busy" then ErrApiKeyRateLimited else Errorf "connection refused"), s).

Lemma key_verdicts_witness :
  let g := mkGateway (2 * Minute) (fun s => s)
             (fun token s => (principal_of (fst (demo_authorize token s)), snd (demo_authorize token s)))
             NoTracker (g_billing (demo_gateway NoTracker)) in
  apiKeyToken (demo_request "busy") <> ""
  /\ exists status headers message type code,
       key_fate (A := string) g 0 (demo_request "busy") (demo_start (T := gmap Z Z) ∅) = (Turned (Refused status headers message type code), 0%nat)
       /\ status = 429 /\ (("Retry-After", "60") ∈ headers <-> status = 429).
Proof.
  assert (Ht : apiKeyToken (demo_request "busy") <> "") by (vm_compute; discriminate).
  split; [exact Ht|].
  exact (key_verdicts (A := string)
           (mkGateway (2 * Minute) (fun s => s)
             (fun token s => (principal_of (fst (demo_authorize token s)), snd (demo_authorize token s)))
             NoTracker (g_billing (demo_gateway NoTracker)))
           0 demo_authorize (demo_request "busy") (demo_start (T := gmap Z Z) ∅) eq_refl Ht).
Defined.
