(* ===== verification/RefreshQueue.v ===== *)
(** The gate in front of a rotating grant ([src/internal/refreshqueue]): one refresh
    of a credential at a time, whichever client instance asks for it, and the lease
    set of the account checks.

    [credential_gate_excludes]: at most one request is behind the gate of a
    credential, though gates are made and removed as requests come and go, and
    none is left when all are over.  [one_check_per_account]: the same of the
    leases.  A client of the gate proves its own invariant with [gates_ok],
    [wp_AcquireCredential] and [wp_release]. *)

From stdpp Require Import fin_maps.
From S2P Require Import Prelude Interleaving.

#[local] Open Scope prog_scope.

(** * Gates ([credentials.go]) *)

(** [credentialGate]: whether its token is taken, and its users. *)
Record credentialGate := mkGate { token : bool; users : Z }.
#[export] Instance eta_gate : Eta credentialGate := fun g => mkGate (token g) (users g).

(** [credentialGates]: the entries and the gates they point to. *)
Record gates := mkGates { entries : gmap string nat; gate_heap : gmap nat credentialGate; next_gate : nat }.
#[export] Instance eta_gates : Eta gates := fun g => mkGates (entries g) (gate_heap g) (next_gate g).

Definition no_gates : gates := mkGates ∅ ∅ 0.

(** The first critical section: the gate of [key] has one user more. *)
Definition enter (key : string) (g : gates) : nat * gates :=
  match entries g !! key with
  | Some id => (id, g <| gate_heap := alter (fun c => c <| users := users c + 1 |>) id (gate_heap g) |>)
  | None =>
      let id := next_gate g in
      (id, mkGates (<[key := id]> (entries g)) (<[id := mkGate false 1]> (gate_heap g)) (S id))
  end.

(** [g.token <- struct{}{}] and [<-g.token]. *)
Definition take_token (id : nat) (g : gates) : bool * gates :=
  match gate_heap g !! id with
  | Some c => if token c then (false, g) else (true, g <| gate_heap := <[id := c <| token := true |>]> (gate_heap g) |>)
  | None => (false, g)
  end.

Definition put_token (id : nat) (g : gates) : gates := g <| gate_heap := alter (fun c => c <| token := false |>) id (gate_heap g) |>.

(** [drop]. *)
Definition drop_user (key : string) (id : nat) (g : gates) : gates :=
  match gate_heap g !! id with
  | Some c =>
      let c := c <| users := users c - 1 |> in
      mkGates (if users c =? 0 then delete key (entries g) else entries g) (<[id := c]> (gate_heap g)) (next_gate g)
  | None => g
  end.

(** ** Acquiring *)

(** The account store of a client, as [%T] and [%p] print it. *)
Definition pointer : Type := string * string.

(** [key]; none without an owner ([nilCredentialOwner]) or an account. *)
Definition credential_key (provider : string) (owner : option pointer) (id : Z) : option string :=
  match owner with
  | Some (kind, address) => if id =? 0 then None else Some (provider +:+ ":" +:+ kind +:+ ":" +:+ address +:+ ":" +:+ Itoa id)
  | None => None
  end.

(** The gate passed, [None] where the credential needs none, or the context's end. *)
Inductive acquired := Acquired (gate : option (string * nat)) | Cancelled.

Section acquire.
Context {W : Type} (get : W -> gates) (put : gates -> W -> W) (ended done_first : W -> bool).

Definition on_gates {B} (f : gates -> B * gates) (w : W) : B * W := let '(b, g) := f (get w) in (b, put g w).

(** One look at the two channels of the [select]; where both are ready either may
    be chosen ([done_first]). *)
Definition gate_round (id : nat) (w : W) : option bool * W :=
  let over := ended w in
  if over && done_first w then (Some false, w)
  else
    let '(taken, w) := on_gates (take_token id) w in
    (if taken then Some true else if over then Some false else None, w).

Definition drop_gate (key : string) (id : nat) : prog W unit := modify (fun w => put (drop_user key id (get w)) w).

(** [AcquireCredential]. *)
Definition AcquireCredential (provider : string) (owner : option pointer) (id : Z) : prog W acquired :=
  let* over := atomically (fun w => (ended w, w)) in
  if over then Ret Cancelled
  else
    match credential_key provider owner id with
    | None => let* over := atomically (fun w => (ended w, w)) in Ret (if over then Cancelled else Acquired None)
    | Some key =>
        let* id := atomically (on_gates (enter key)) in
        let* passed := repeat_until (atomically (gate_round id)) in
        if passed then Ret (Acquired (Some (key, id)))
        else do* drop_gate key id in Ret Cancelled
    end.

(** The function it returns; what calls it runs it once. *)
Definition release (gate : option (string * nat)) : prog W unit :=
  match gate with
  | None => Ret tt
  | Some (key, id) => do* modify (fun w => put (put_token id (get w)) w) in drop_gate key id
  end.
End acquire.

(** * Leases of account checks ([refreshqueue.go]) *)

(** [Hub]: the accounts being refreshed. *)
Definition hub := gset Z.

Definition TryAcquire (accountID : Z) (h : hub) : bool * hub :=
  if accountID =? 0 then (true, h) else if bool_decide (accountID ∈ h) then (false, h) else (true, {[accountID]} ∪ h).

Definition Release (accountID : Z) (h : hub) : hub := if accountID =? 0 then h else h ∖ {[accountID]}.

Definition Len (h : hub) : Z := Z.of_nat (size h).

(** [WithLease]. *)
Definition WithLease {W : Type} (get : W -> hub) (put : hub -> W -> W) (accountID : Z) (fn : prog W unit) : prog W bool :=
  let* got := atomically (fun w => let '(got, h) := TryAcquire accountID (get w) in (got, put h w)) in
  if got then defer (modify (fun w => put (Release accountID (get w)) w)) (do* fn in Ret true) else Ret false.

(** * What a request holds *)

Inductive gate_ticket :=
| Outside
| Waiting (key : string) (id : nat)
| Holding (key : string) (id : nat)
| Leaving (key : string) (id : nat).

(** The gate it counts as a user of, and the gate whose token it has. *)
Definition place (t : gate_ticket) : option (string * nat) :=
  match t with Outside => None | Waiting key id | Holding key id | Leaving key id => Some (key, id) end.
Definition user_of (t : gate_ticket) : option nat := snd <$> place t.
Definition holding (t : gate_ticket) : option nat := match t with Holding _ id => Some id | _ => None end.

Record gates_ok (l : list gate_ticket) (g : gates) : Prop := {
  go_users : forall id c, gate_heap g !! id = Some c -> users c = holders id (user_of <$> l);
  go_token : forall id c, gate_heap g !! id = Some c -> one_if (token c) = holders id (holding <$> l);
  go_place : forall t key id, t ∈ l -> place t = Some (key, id) -> entries g !! key = Some id;
  go_entry : forall key id, entries g !! key = Some id -> exists c, gate_heap g !! id = Some c /\ 0 < users c;
  go_inj : forall k k' id, entries g !! k = Some id -> entries g !! k' = Some id -> k = k';
  go_next : forall id, (next_gate g <= id)%nat -> gate_heap g !! id = None
}.

Lemma no_gates_ok : gates_ok [] no_gates.
Proof. split; try done. intros t key id Ht. by apply not_elem_of_nil in Ht. Qed.

Lemma gates_ok_arrival l g : gates_ok l g -> gates_ok (l ++ [Outside]) g.
Proof.
  intros [H1 H2 H3 H4 H5 H6]. split; try done.
  - intros id c Hc. rewrite fmap_app. change (user_of <$> [Outside]) with [@None nat]. rewrite holders_snoc. by apply H1.
  - intros id c Hc. rewrite fmap_app. change (holding <$> [Outside]) with [@None nat]. rewrite holders_snoc. by apply H2.
  - intros t key id [Ht|Ht]%elem_of_app Hp; [by apply (H3 t)|]. apply list_elem_of_singleton in Ht as ->. done.
Qed.

(** One ticket changes. *)
Lemma holders_mid {B} (f : gate_ticket -> option B) `{EqDecision B} (b : B) l1 l2 x x' :
  holders b (f <$> (l1 ++ x' :: l2)) = holders b (f <$> (l1 ++ x :: l2)) - holds b (f x) + holds b (f x').
Proof. rewrite !fmap_app, !fmap_cons. apply (total_mid (holds b)). Qed.

Lemma elem_mid {B} (t x x' : B) l1 l2 : t ∈ l1 ++ x' :: l2 -> t = x' \/ t ∈ l1 ++ x :: l2.
Proof. rewrite !elem_of_app, !elem_of_cons. tauto. Qed.

Lemma holds_if (id i : nat) : holds id (Some i) = one_if (bool_decide (id = i)).
Proof. unfold holds. f_equal. apply bool_decide_ext. split; congruence. Qed.

Lemma holds_none (id : nat) : holds id None = 0.
Proof. by apply holds_other. Qed.

Section invariant.
Context (l1 l2 : list gate_ticket).
Implicit Types (g : gates) (key : string) (id : nat).

Abbreviation at_ x := (l1 ++ x :: l2).

Lemma place_user key id : forall t, place t = Some (key, id) -> user_of t = Some id.
Proof. intros t Ht. unfold user_of. by rewrite Ht. Qed.

Lemma enter_ok key g :
  gates_ok (at_ Outside) g -> gates_ok (at_ (Waiting key (enter key g).1)) (enter key g).2.
Proof.
  intros [H1 H2 H3 H4 H5 H6]. unfold enter. destruct (entries g !! key) as [id|] eqn:Ek; cbn [fst snd].
  - destruct (H4 key id Ek) as (c & Hc & Hpos). split; cbn [entries gate_heap next_gate set_field update_with].
    + intros i d Hd. rewrite (holders_mid user_of i l1 l2 Outside), (holds_none i : holds i (user_of Outside) = 0).
      change (user_of (Waiting key id)) with (Some id). rewrite holds_if. destruct (decide (i = id)) as [->|Hne].
      * rewrite lookup_alter_eq, Hc in Hd. injection Hd as <-. rewrite bool_decide_eq_true_2 by done. cbn. rewrite (H1 id c Hc). lia.
      * rewrite lookup_alter_ne in Hd by done. rewrite bool_decide_eq_false_2 by done. rewrite (H1 i d Hd). cbn. lia.
    + intros i d Hd. rewrite (holders_mid holding i l1 l2 Outside). cbn [holding]. rewrite holds_none, Z.sub_0_r, Z.add_0_r.
      destruct (decide (i = id)) as [->|Hne].
      * rewrite lookup_alter_eq, Hc in Hd. injection Hd as <-. exact (H2 id c Hc).
      * rewrite lookup_alter_ne in Hd by done. by apply H2.
    + intros t k i [->|Ht]%(elem_mid _ Outside) Hp; [by injection Hp as <- <-|by apply (H3 t)].
    + intros k i Hk. destruct (H4 k i Hk) as (d & Hd & Hp). destruct (decide (i = id)) as [->|Hne].
      * rewrite lookup_alter_eq, Hd. eexists. split; [done|]. cbn. lia.
      * exists d. by rewrite lookup_alter_ne.
    + done.
    + intros i Hi. destruct (decide (i = id)) as [->|Hne]; [by rewrite H6 in Hc|]. rewrite lookup_alter_ne by done. by apply H6.
  - set (id := next_gate g). assert (gate_heap g !! id = None) as Hfresh by (by apply H6).
    assert (forall t, t ∈ at_ Outside -> user_of t <> Some id) as Hunused.
    { intros t Ht Hu. unfold user_of in Hu. destruct (place t) as [[k i]|] eqn:Ep; [|done]. injection Hu as Hi. cbn in Hi. subst i.
      pose proof (H3 t k id Ht Ep) as Hk. destruct (H4 k id Hk) as (c & Hc & _). congruence. }
    assert (holders id (user_of <$> at_ Outside) = 0) as Hzero.
    { apply holders_absent. intros (t & Ht & Hin)%list_elem_of_fmap. by apply (Hunused t Hin). }
    assert (holders id (holding <$> at_ Outside) = 0) as Hzero'.
    { apply holders_absent. intros (t & Ht & Hin)%list_elem_of_fmap. apply (Hunused t Hin). destruct t; try done. }
    split; cbn [entries gate_heap next_gate].
    + intros i d Hd. rewrite (holders_mid user_of i l1 l2 Outside), (holds_none i : holds i (user_of Outside) = 0).
      change (user_of (Waiting key id)) with (Some id). rewrite holds_if. destruct (decide (i = id)) as [->|Hne].
      * rewrite lookup_insert_eq in Hd. injection Hd as <-. rewrite bool_decide_eq_true_2 by done. cbn in *. lia.
      * rewrite lookup_insert_ne in Hd by done. rewrite bool_decide_eq_false_2 by done. rewrite (H1 i d Hd). cbn. lia.
    + intros i d Hd. rewrite (holders_mid holding i l1 l2 Outside). cbn [holding]. rewrite holds_none, Z.sub_0_r, Z.add_0_r.
      destruct (decide (i = id)) as [->|Hne].
      * rewrite lookup_insert_eq in Hd. injection Hd as <-. by rewrite Hzero'.
      * rewrite lookup_insert_ne in Hd by done. by apply H2.
    + intros t k i [->|Ht]%(elem_mid _ Outside) Hp; [injection Hp as <- <-; by rewrite lookup_insert_eq|].
      destruct (decide (k = key)) as [->|Hne]; [by rewrite (H3 t key i Ht Hp) in Ek|]. rewrite lookup_insert_ne by done. by apply (H3 t).
    + intros k i Hk. destruct (decide (k = key)) as [->|Hne].
      * rewrite lookup_insert_eq in Hk. injection Hk as <-. rewrite lookup_insert_eq. eexists. split; [done|]. cbn. lia.
      * rewrite lookup_insert_ne in Hk by done. destruct (H4 k i Hk) as (d & Hd & Hp). exists d. split; [|done].
        rewrite lookup_insert_ne; [done|]. congruence.
    + intros k k' i Hk Hk'. destruct (decide (k = key)) as [->|Hne], (decide (k' = key)) as [->|Hne']; [done| | |].
      * rewrite lookup_insert_eq in Hk. rewrite lookup_insert_ne in Hk' by done. injection Hk as <-. destruct (H4 k' id Hk') as (c & Hc & _). congruence.
      * rewrite lookup_insert_eq in Hk'. rewrite lookup_insert_ne in Hk by done. injection Hk' as <-. destruct (H4 k id Hk) as (c & Hc & _). congruence.
      * rewrite lookup_insert_ne in Hk, Hk' by done. by apply (H5 k k' i).
    + intros i Hi. rewrite lookup_insert_ne by lia. apply H6. lia.
Qed.

Lemma take_ok key id g :
  gates_ok (at_ (Waiting key id)) g ->
  gates_ok (at_ (if (take_token id g).1 then Holding key id else Waiting key id)) (take_token id g).2.
Proof.
  intros [H1 H2 H3 H4 H5 H6]. unfold take_token. destruct (gate_heap g !! id) as [c|] eqn:Hc; [|by split].
  destruct (token c) eqn:Et; [by split|]. cbn [fst snd]. split; cbn [entries gate_heap next_gate set_field update_with].
  - intros i d Hd. rewrite (holders_mid user_of i l1 l2 (Waiting key id)).
    change (user_of (Holding key id)) with (user_of (Waiting key id)). destruct (decide (i = id)) as [->|Hne].
    + rewrite lookup_insert_eq in Hd. injection Hd as <-. cbn [users]. rewrite (H1 id c Hc). lia.
    + rewrite lookup_insert_ne in Hd by done. rewrite (H1 i d Hd). lia.
  - intros i d Hd. rewrite (holders_mid holding i l1 l2 (Waiting key id)). cbn [holding]. rewrite holds_none, holds_if.
    destruct (decide (i = id)) as [->|Hne].
    + rewrite lookup_insert_eq in Hd. injection Hd as <-. rewrite bool_decide_eq_true_2 by done. cbn [token].
      rewrite <- (H2 id c Hc), Et. done.
    + rewrite lookup_insert_ne in Hd by done. rewrite bool_decide_eq_false_2 by done. cbn. rewrite (H2 i d Hd). lia.
  - intros t k i [->|Ht]%(elem_mid _ (Waiting key id)) Hp; [|by apply (H3 t)]. injection Hp as <- <-.
    apply (H3 (Waiting key id)); [set_solver|done].
  - intros k i Hk. destruct (H4 k i Hk) as (d & Hd & Hp). destruct (decide (i = id)) as [->|Hne].
    + rewrite lookup_insert_eq. eexists. split; [done|]. cbn [users]. rewrite Hc in Hd. by injection Hd as <-.
    + exists d. by rewrite lookup_insert_ne.
  - done.
  - intros i Hi. destruct (decide (i = id)) as [->|Hne]; [by rewrite H6 in Hc|]. rewrite lookup_insert_ne by done. by apply H6.
Qed.

Lemma place_in key id x g : place x = Some (key, id) -> gates_ok (at_ x) g -> exists c, gate_heap g !! id = Some c /\ entries g !! key = Some id.
Proof.
  intros Hp [H1 H2 H3 H4 H5 H6]. pose proof (H3 x key id ltac:(set_solver) Hp) as Hk. destruct (H4 key id Hk) as (c & Hc & _). by exists c.
Qed.

Lemma put_ok key id g : gates_ok (at_ (Holding key id)) g -> gates_ok (at_ (Leaving key id)) (put_token id g).
Proof.
  intros H. destruct (place_in key id (Holding key id) g eq_refl H) as (c & Hc & _). destruct H as [H1 H2 H3 H4 H5 H6].
  unfold put_token. split; cbn [entries gate_heap next_gate set_field update_with].
  - intros i d Hd. rewrite (holders_mid user_of i l1 l2 (Holding key id)).
    change (user_of (Holding key id)) with (user_of (Leaving key id)). destruct (decide (i = id)) as [->|Hne].
    + rewrite lookup_alter_eq, Hc in Hd. injection Hd as <-. cbn [users]. rewrite (H1 id c Hc). lia.
    + rewrite lookup_alter_ne in Hd by done. rewrite (H1 i d Hd). lia.
  - intros i d Hd. rewrite (holders_mid holding i l1 l2 (Holding key id)). cbn [holding]. rewrite holds_none, holds_if.
    destruct (decide (i = id)) as [->|Hne].
    + rewrite lookup_alter_eq, Hc in Hd. injection Hd as <-. rewrite bool_decide_eq_true_2 by done. cbn [token].
      assert (1 <= holders id (holding <$> at_ (Holding key id))) as Hin.
      { apply holders_in, list_elem_of_fmap. exists (Holding key id). split; [done|set_solver]. }
      rewrite <- (H2 id c Hc) in Hin |- *. destruct (token c); cbn in *; lia.
    + rewrite lookup_alter_ne in Hd by done. rewrite bool_decide_eq_false_2 by done. cbn. rewrite (H2 i d Hd). lia.
  - intros t k i [->|Ht]%(elem_mid _ (Holding key id)) Hp; [|by apply (H3 t)]. injection Hp as <- <-.
    apply (H3 (Holding key id)); [set_solver|done].
  - intros k i Hk. destruct (H4 k i Hk) as (d & Hd & Hp). destruct (decide (i = id)) as [->|Hne].
    + rewrite lookup_alter_eq, Hd. eexists. by split.
    + exists d. by rewrite lookup_alter_ne.
  - done.
  - intros i Hi. destruct (decide (i = id)) as [->|Hne]; [by rewrite H6 in Hc|]. rewrite lookup_alter_ne by done. by apply H6.
Qed.

(** Leaving, or giving up waiting. *)
Lemma drop_ok key id x g :
  x = Leaving key id \/ x = Waiting key id -> gates_ok (at_ x) g -> gates_ok (at_ Outside) (drop_user key id g).
Proof.
  intros Hx H. assert (place x = Some (key, id) /\ holding x = None) as [Hp Hh] by (by destruct Hx as [->| ->]).
  destruct (place_in key id x g Hp H) as (c & Hc & Hkey). destruct H as [H1 H2 H3 H4 H5 H6].
  assert (forall i, holders i (user_of <$> at_ Outside) = holders i (user_of <$> at_ x) - one_if (bool_decide (i = id))) as Huse.
  { intros i. rewrite (holders_mid user_of i l1 l2 x), (place_user key id x Hp), holds_if. change (user_of Outside) with (@None nat).
    rewrite holds_none. lia. }
  assert (holding <$> at_ Outside = holding <$> at_ x) as Ehold by (rewrite !fmap_app, !fmap_cons, Hh; done).
  assert (forall t k i, t ∈ at_ Outside -> place t = Some (k, i) -> entries g !! k = Some i /\ (k = key -> users c - 1 <> 0)) as Hothers.
  { intros t k i Ht Hpt. assert (t ∈ at_ x) as Htx.
    { apply (elem_mid t x Outside) in Ht as [->|Ht]; [|exact Ht]. done. }
    split; [by apply (H3 t)|]. intros ->. pose proof (H3 t key i Htx Hpt) as Hi. rewrite Hkey in Hi. injection Hi as <-.
    assert (1 <= holders id (user_of <$> at_ Outside)) as Hin.
    { apply holders_in, list_elem_of_fmap. exists t. split; [by rewrite (place_user key id t Hpt)|done]. }
    rewrite Huse, bool_decide_eq_true_2, <- (H1 id c Hc) in Hin by done. cbn in Hin. lia. }
  destruct (H4 key id Hkey) as (c' & Hc' & Hpos). rewrite Hc in Hc'. injection Hc' as <-.
  unfold drop_user. rewrite Hc. cbv zeta. cbn [users set_field update_with].
  set (es := if users c - 1 =? 0 then delete key (entries g) else entries g).
  assert (forall k i, es !! k = Some i -> entries g !! k = Some i /\ (k = key -> users c - 1 <> 0)) as Hes.
  { intros k i. subst es. destruct (users c - 1 =? 0) eqn:E; [|intros Hk; split; [done|lia]].
    intros [Hne Hk]%lookup_delete_Some. split; [done|congruence]. }
  split; cbn [entries gate_heap next_gate].
  - intros i d Hd. rewrite Huse. destruct (decide (i = id)) as [->|Hne].
    + rewrite lookup_insert_eq in Hd. injection Hd as <-. cbn [users]. rewrite bool_decide_eq_true_2 by done. rewrite (H1 id c Hc). done.
    + rewrite lookup_insert_ne in Hd by done. rewrite bool_decide_eq_false_2 by done. rewrite (H1 i d Hd). cbn. lia.
  - intros i d Hd. rewrite Ehold. destruct (decide (i = id)) as [->|Hne].
    + rewrite lookup_insert_eq in Hd. injection Hd as <-. exact (H2 id c Hc).
    + rewrite lookup_insert_ne in Hd by done. by apply H2.
  - intros t k i Ht Hpt. destruct (Hothers t k i Ht Hpt) as [Hk Hne]. subst es. destruct (users c - 1 =? 0) eqn:E; [|done].
    rewrite lookup_delete_ne; [done|]. intros ->. apply Z.eqb_eq in E. by apply Hne.
  - intros k i Hk. destruct (Hes k i Hk) as [Hk' Hne]. destruct (H4 k i Hk') as (d & Hd & Hp'). destruct (decide (i = id)) as [->|Hni].
    + rewrite lookup_insert_eq. eexists. split; [done|]. cbn [users]. specialize (Hne (H5 k key id Hk' Hkey)). lia.
    + exists d. by rewrite lookup_insert_ne.
  - intros k k' i Hk Hk'. destruct (Hes k i Hk) as [? _], (Hes k' i Hk') as [? _]. by apply (H5 k k' i).
  - intros i Hi. destruct (decide (i = id)) as [->|Hne]; [by rewrite H6 in Hc|]. rewrite lookup_insert_ne by done. by apply H6.
Qed.
End invariant.

(** Two tickets never hold the gate of one credential. *)
Lemma one_holding key id i j l g :
  gates_ok l g -> l !! i = Some (Holding key id) -> l !! j = Some (Holding key id) -> i = j.
Proof.
  intros H Hi Hj. destruct (decide (i = j)) as [|Hne]; [done|]. exfalso.
  assert (exists l1 l2, l = l1 ++ Holding key id :: l2 /\ Holding key id ∈ l1 ++ l2) as (l1 & l2 & -> & Hin).
  { exists (take i l), (drop (S i) l). split; [symmetry; by apply take_drop_middle|].
    apply elem_of_app. destruct (decide (j < i)%nat) as [Hlt|Hge].
    - left. apply list_elem_of_lookup. exists j. by rewrite lookup_take_lt.
    - right. apply list_elem_of_lookup. exists (j - S i)%nat. rewrite lookup_drop. by replace (S i + (j - S i))%nat with j by lia. }
  destruct (place_in l1 l2 key id (Holding key id) g eq_refl H) as (c & Hc & _). pose proof (go_token _ _ H id c Hc) as Ht.
  rewrite fmap_app, fmap_cons in Ht. unfold holders in Ht. rewrite total_app in Ht. cbn [total foldr] in Ht.
  fold (total (holds id) (holding <$> l2)) in Ht. change (holding (Holding key id)) with (Some id) in Ht. rewrite holds_same in Ht.
  assert (1 <= holders id (holding <$> (l1 ++ l2))) as H1.
  { apply holders_in, list_elem_of_fmap. by exists (Holding key id). }
  unfold holders in H1. rewrite fmap_app, total_app in H1. destruct (token c); cbn in Ht; lia.
Qed.

(** Without tickets there are no entries. *)
Lemma all_outside n g : gates_ok (replicate n Outside) g -> entries g = ∅.
Proof.
  intros [H1 _ _ H4 _ _]. apply map_empty. intros key. destruct (entries g !! key) as [id|] eqn:E; [|done].
  destruct (H4 key id E) as (c & Hc & Hp). rewrite (H1 id c Hc), fmap_replicate in Hp. unfold holders in Hp.
  rewrite total_replicate in Hp. cbn in Hp. rewrite holds_none in Hp. lia.
Qed.

(** * The rules of the gate

    For any state that contains the gates, and an invariant that contains
    [gates_ok] and does not otherwise depend on gates and places. *)

Section rules.
Context {W R : Type} (get : W -> gates) (put : gates -> W -> W) (ended done_first : W -> bool).
Context (inv : list R -> W -> Prop) (at_gate : gate_ticket -> R).
Context (inv_gates : forall l1 l2 x x' w g,
  inv (l1 ++ at_gate x :: l2) w ->
  (forall k1 k2, gates_ok (k1 ++ x :: k2) (get w) -> gates_ok (k1 ++ x' :: k2) g) ->
  inv (l1 ++ at_gate x' :: l2) (put g w)).

Lemma wp_drop key id x :
  x = Leaving key id \/ x = Waiting key id -> wp inv (drop_gate get put key id) (at_gate x) (fun _ y => y = at_gate Outside).
Proof. intros Hx. apply wp_modify. intros l1 l2 w Hw. apply (inv_gates _ _ x _ _ _ Hw). intros k1 k2. by apply drop_ok. Qed.

Lemma wp_release gate x :
  x = match gate with Some (key, id) => Holding key id | None => Outside end ->
  wp inv (release get put gate) (at_gate x) (fun _ y => y = at_gate Outside).
Proof.
  intros ->. destruct gate as [[key id]|]; [|done]. cbn [release]. apply wp_bind.
  apply wp_weaken with (Q := fun _ y => y = at_gate (Leaving key id)).
  - intros _ y ->. apply wp_drop. by left.
  - apply wp_modify. intros l1 l2 w Hw. apply (inv_gates _ _ (Holding key id) _ _ _ Hw). intros k1 k2. apply put_ok.
Qed.

Lemma wp_gate_round key id :
  wp inv (atomically (gate_round get put ended done_first id)) (at_gate (Waiting key id))
    (fun o y => match o with Some b => y = at_gate (if b then Holding key id else Waiting key id) | None => y = at_gate (Waiting key id) end).
Proof.
  apply wp_atomically. intros l1 l2 w Hw. unfold gate_round. destruct (ended w && done_first w); [by exists (at_gate (Waiting key id))|].
  exists (at_gate (if (take_token id (get w)).1 then Holding key id else Waiting key id)).
  pose proof (inv_gates l1 l2 (Waiting key id) (if (take_token id (get w)).1 then Holding key id else Waiting key id) w (take_token id (get w)).2 Hw
    (fun k1 k2 => take_ok k1 k2 key id (get w))) as Htake.
  unfold on_gates. destruct (take_token id (get w)) as [taken g]. cbn [fst snd] in *. split; [exact Htake|]. destruct taken, (ended w); done.
Qed.

Lemma wp_AcquireCredential provider owner id (Q : acquired -> R -> Prop) :
  Q Cancelled (at_gate Outside) -> (credential_key provider owner id = None -> Q (Acquired None) (at_gate Outside)) ->
  (forall k i, credential_key provider owner id = Some k -> Q (Acquired (Some (k, i))) (at_gate (Holding k i))) ->
  wp inv (AcquireCredential get put ended done_first provider owner id) (at_gate Outside) Q.
Proof.
  intros Hc Hn Hs. unfold AcquireCredential. apply wp_bind, wp_atomically. intros l1 l2 w Hw. exists (at_gate Outside). split; [exact Hw|].
  cbn [fst]. destruct (ended w); [exact Hc|]. clear l1 l2 w Hw. destruct (credential_key provider owner id) as [key|] eqn:Ek.
  2: { apply wp_bind, wp_atomically. intros l1 l2 w Hw. exists (at_gate Outside). split; [exact Hw|]. cbn [fst]. destruct (ended w); [exact Hc|by apply Hn]. }
  apply wp_bind, wp_atomically. intros l1 l2 w Hw. unfold on_gates. exists (at_gate (Waiting key (enter key (get w)).1)).
  pose proof (inv_gates l1 l2 Outside (Waiting key (enter key (get w)).1) w (enter key (get w)).2 Hw
    (fun k1 k2 => enter_ok k1 k2 key (get w))) as Henter.
  destruct (enter key (get w)) as [i g]. cbn [fst snd] in *. split; [exact Henter|]. clear l1 l2 w Hw g Henter. apply wp_bind.
  apply wp_weaken with (Q := fun (b : bool) y => y = at_gate (if b then Holding key i else Waiting key i)).
  - intros [] _ ->; [by apply Hs|]. apply wp_bind. apply wp_weaken with (Q := fun _ y => y = at_gate Outside); [by intros _ _ ->|].
    apply wp_drop. by right.
  - apply wp_repeat, wp_gate_round.
Qed.
End rules.

(** * Requests at the gate *)

(** The gates, the requests behind the gate of each credential, and the time, which
    decides whose context has ended. *)
Record gate_world := mkGateWorld { g_gates : gates; g_inside : gmap string Z; g_time : nat }.
#[export] Instance eta_gate_world : Eta gate_world := fun w => mkGateWorld (g_gates w) (g_inside w) (g_time w).

Definition inside (key : string) (w : gate_world) : Z := default 0 (g_inside w !! key).
Definition count_inside (key : string) (d : Z) (w : gate_world) : gate_world := w <| g_inside := <[key := inside key w + d]> (g_inside w) |>.

Definition put_gates (g : gates) (w : gate_world) : gate_world := w <| g_gates := g |>.

(** A request that acquires the gate of a credential, is inside for a while, and
    leaves; without a gate nobody is counted. *)
Definition visit (ended done_first : gate_world -> bool) (provider : string) (owner : option pointer) (id : Z) : prog gate_world unit :=
  let* a := AcquireCredential g_gates put_gates ended done_first provider owner id in
  match a with
  | Cancelled => Ret tt
  | Acquired gate =>
      defer (release g_gates put_gates gate)
        match credential_key provider owner id with
        | Some key => do* modify (count_inside key 1) in modify (count_inside key (-1))
        | None => Ret tt
        end
  end.

Definition visits (p : prog gate_world unit) : Prop :=
  exists ended done_first provider owner id, p = visit ended done_first provider owner id.
Definition time_passes (w w' : gate_world) : Prop := g_gates w' = g_gates w /\ g_inside w' = g_inside w.

(** The ticket: the gate, and whether the request is inside. *)
Abbreviation visit_ticket := (gate_ticket * bool)%type.
Definition inside_of (key : string) (x : visit_ticket) : Z :=
  match x with (Holding k _, true) => one_if (String.eqb k key) | _ => 0 end.

Record visit_ok (l : list visit_ticket) (w : gate_world) : Prop := {
  vo_gates : gates_ok (fst <$> l) (g_gates w);
  vo_inside : forall key, inside key w = total (inside_of key) l
}.

Lemma visit_gates l1 l2 x x' w g :
  visit_ok (l1 ++ (x, false) :: l2) w ->
  (forall k1 k2, gates_ok (k1 ++ x :: k2) (g_gates w) -> gates_ok (k1 ++ x' :: k2) g) ->
  visit_ok (l1 ++ (x', false) :: l2) (put_gates g w).
Proof.
  intros [H1 H2] Hg. split.
  - rewrite fmap_app, fmap_cons in H1 |- *. by apply Hg.
  - intros key. change (inside key (put_gates g w)) with (inside key w). rewrite H2.
    pose proof (total_mid (inside_of key) l1 l2 (x, false) (x', false)) as Hm.
    assert (forall y, inside_of key (y, false) = 0) as Hz by (by intros []). rewrite !Hz in Hm. lia.
Qed.

Lemma visit_count l1 l2 key id w b b' d :
  d = one_if b' - one_if b -> visit_ok (l1 ++ (Holding key id, b) :: l2) w ->
  visit_ok (l1 ++ (Holding key id, b') :: l2) (count_inside key d w).
Proof.
  intros -> [H1 H2]. split; [by rewrite fmap_app, fmap_cons in H1 |- *|]. intros k. unfold count_inside, inside. cbn [g_inside set_field update_with].
  rewrite (total_mid _ l1 l2 (Holding key id, b)), <- H2. cbn [inside_of].
  destruct (decide (k = key)) as [->|Hne].
  - rewrite lookup_insert_eq, String.eqb_refl. cbn [default]. unfold inside. destruct b, b'; cbn; lia.
  - rewrite lookup_insert_ne by done. assert (String.eqb key k = false) as -> by (apply String.eqb_neq; congruence).
    unfold inside. destruct b, b'; cbn; lia.
Qed.

Lemma restores_visit p : visits p -> restores visit_ok p (Outside, false).
Proof.
  intros (ended & done_first & provider & owner & id & ->). unfold visit, restores. apply wp_bind.
  assert (forall gate x, x = match gate with Some (key, i) => Holding key i | None => Outside end ->
    restores visit_ok (match credential_key provider owner id with
        | Some key => do* modify (count_inside key 1) in modify (count_inside key (-1)) | None => Ret tt end) (x, false) ->
    wp visit_ok (defer (release g_gates put_gates gate) (match credential_key provider owner id with
        | Some key => do* modify (count_inside key 1) in modify (count_inside key (-1)) | None => Ret tt end)) (x, false)
      (fun _ y => y = (Outside, false))) as Hleave.
  { intros gate x Hx Hbody. apply wp_bind. apply wp_weaken with (2 := Hbody). intros [] _ ->. apply wp_bind.
    apply wp_weaken with (Q := fun _ y => y = (Outside, false)); [by intros _ _ ->|].
    by apply (wp_release g_gates put_gates visit_ok (fun t => (t, false)) visit_gates). }
  apply (wp_AcquireCredential g_gates put_gates ended done_first visit_ok (fun t => (t, false)) visit_gates); [done| |].
  - intros Hk. apply Hleave; [done|]. by rewrite Hk.
  - intros k i Hk. apply Hleave; [done|]. rewrite Hk. apply wp_bind. apply wp_weaken with (Q := fun _ y => y = (Holding k i, true)).
    + intros _ _ ->. apply wp_modify. intros l1 l2 w Hw. by apply visit_count with (b := true).
    + apply wp_modify. intros l1 l2 w Hw. by apply visit_count with (b := false).
Qed.

Lemma visit_inside l w key : visit_ok l w -> 0 <= inside key w <= 1.
Proof.
  intros [H1 H2]. rewrite H2. split.
  { apply total_nonneg. intros [[] []]; cbn; try lia. apply one_if_nonneg. }
  assert (forall k i b, (Holding k i, b) ∈ l -> entries (g_gates w) !! k = Some i) as Hin.
  { intros k i b Hx. apply (go_place _ _ H1 (Holding k i)); [|done]. apply list_elem_of_fmap. by exists (Holding k i, b). }
  destruct (entries (g_gates w) !! key) as [id|] eqn:Ek.
  - destruct (go_entry _ _ H1 key id Ek) as (c & Hc & _). pose proof (go_token _ _ H1 id c Hc) as Ht.
    etrans; [apply (total_le _ (fun x => holds id (holding x.1)))|].
    + intros [[|k i|k i|k i] []] Hx; cbn; try apply one_if_nonneg. destruct (String.eqb k key) eqn:E; [|apply one_if_nonneg].
      apply String.eqb_eq in E as ->. rewrite (Hin key i true Hx) in Ek. injection Ek as ->. by rewrite holds_same.
    + unfold holders in Ht. rewrite <- list_fmap_compose in Ht.
      rewrite <- (total_map (holds id) (fun x : visit_ticket => holding x.1) l).
      change (map (fun x : visit_ticket => holding x.1) l) with ((holding ∘ fst) <$> l). rewrite <- Ht. by destruct (token c).
  - etrans; [apply (total_le _ (fun _ => 0))|by rewrite total_zero].
    intros [[|k i|k i|k i] []] Hx; cbn; try done. destruct (String.eqb k key) eqn:E; [|done].
    apply String.eqb_eq in E as ->. by rewrite (Hin key i true Hx) in Ek.
Qed.

Definition gates_start : gate_world := mkGateWorld no_gates ∅ 0.

Lemma visit_tickets s :
  reachable visits time_passes gates_start s ->
  exists l, visit_ok l (shared s) /\ (over (threads s) -> l = replicate (length l) (Outside, false)).
Proof.
  intros Hr. destruct (adequacy visit_ok visits time_passes (Outside, false)) with (w0 := gates_start) (s := s) as [l Hl]; try done.
  - apply restores_visit.
  - intros l w [H1 H2]. split; [rewrite fmap_app; by apply gates_ok_arrival|]. intros key. rewrite total_app, <- H2. cbn. lia.
  - intros l w w' [H1 H2] [Eg Ei]. split; [by rewrite Eg|]. intros key. unfold inside. rewrite Ei. apply H2.
  - split; [apply no_gates_ok|done].
  - exists l. split; [apply Hl|]. by apply (ticketed_over visit_ok (Outside, false) s l).
Qed.

(** C27: However the requests for credentials interleave, wait, give up waiting and
    leave, at most one is behind the gate of a credential, though its gate is
    made when the first arrives and removed when the last leaves; and when all are
    over no gate is left. *)
Theorem credential_gate_excludes s :
  reachable visits time_passes gates_start s ->
  (forall key, 0 <= inside key (shared s) <= 1) /\ (over (threads s) -> entries (g_gates (shared s)) = ∅).
Proof.
  intros Hr. destruct (visit_tickets s Hr) as (l & Hl & Hidle). split; [intros key; by apply (visit_inside l)|].
  intros Hover. destruct Hl as [H1 _]. rewrite (Hidle Hover), fmap_replicate in H1. by apply all_outside in H1.
Qed.

(** * Checks of one account

    The leases, and how many checks of each account run. *)
Record check_world := mkCheckWorld { c_hub : hub; c_running : gmap Z Z }.
#[export] Instance eta_check_world : Eta check_world := fun w => mkCheckWorld (c_hub w) (c_running w).

Definition running (id : Z) (w : check_world) : Z := default 0 (c_running w !! id).
Definition count_running (id d : Z) (w : check_world) : check_world := w <| c_running := <[id := running id w + d]> (c_running w) |>.

Definition check (id : Z) : prog check_world bool :=
  WithLease c_hub (fun h w => w <| c_hub := h |>) id (do* modify (count_running id 1) in modify (count_running id (-1))).
Definition checks (p : prog check_world bool) : Prop := exists id, p = check id.

(** The ticket: the account leased, and whether its check runs. *)
Abbreviation check_ticket := (option Z * bool)%type.
Definition runs_of (id : Z) (x : check_ticket) : Z := match x with (o, true) => holds id o | _ => 0 end.

Record hub_ok (l : list check_ticket) (w : check_world) : Prop := {
  ho_lease : forall id, id <> 0 -> holders id (fst <$> l) = one_if (bool_decide (id ∈ c_hub w));
  ho_zero : 0 ∉ c_hub w;
  ho_runs : forall id, running id w = total (runs_of id) l
}.

Lemma holders_fst {B C} `{EqDecision B} (b : B) l1 l2 o o' (c c' : C) :
  holders b (fst <$> (l1 ++ (o', c') :: l2)) = holders b (fst <$> (l1 ++ (o, c) :: l2)) - holds b o + holds b o'.
Proof. rewrite !fmap_app, !fmap_cons. apply (total_mid (holds b)). Qed.

Lemma runs_idle id l1 l2 o o' : total (runs_of id) (l1 ++ (o', false) :: l2) = total (runs_of id) (l1 ++ (o, false) :: l2).
Proof. rewrite (total_mid _ l1 l2 (o, false)). cbn. lia. Qed.

Lemma lease_ok l1 l2 id w :
  hub_ok (l1 ++ (None, false) :: l2) w ->
  let '(got, h) := TryAcquire id (c_hub w) in
  hub_ok (l1 ++ (if got then Some id else None, false) :: l2) (w <| c_hub := h |>).
Proof.
  intros [H1 H2 H3]. unfold TryAcquire. destruct (Z.eqb_spec id 0) as [->|Hid].
  { split; cbn [c_hub set_field update_with]; [|done|intros i; rewrite (runs_idle i l1 l2 None); apply H3].
    intros i Hi. rewrite (holders_fst i l1 l2 None _ false), <- H1 by done. rewrite (holds_other i None), (holds_other i (Some 0)) by congruence. lia. }
  destruct (decide (id ∈ c_hub w)) as [Hin|Hin]; [rewrite bool_decide_eq_true_2 by done|rewrite bool_decide_eq_false_2 by done].
  { by split. }
  split; cbn [c_hub set_field update_with]; [|set_solver|intros i; rewrite (runs_idle i l1 l2 None); apply H3].
  intros i Hi. rewrite (holders_fst i l1 l2 None _ false), H1 by done. rewrite (holds_other i None) by done.
  destruct (decide (i = id)) as [->|Hne].
  - rewrite holds_same, bool_decide_eq_false_2, bool_decide_eq_true_2 by set_solver. done.
  - rewrite (holds_other i (Some id)) by congruence. rewrite (bool_decide_ext (i ∈ {[id]} ∪ c_hub w) (i ∈ c_hub w)) by set_solver. lia.
Qed.

Lemma return_ok l1 l2 id w :
  hub_ok (l1 ++ (Some id, false) :: l2) w -> hub_ok (l1 ++ (None, false) :: l2) (w <| c_hub := Release id (c_hub w) |>).
Proof.
  intros [H1 H2 H3]. unfold Release. destruct (Z.eqb_spec id 0) as [->|Hid]; split; cbn [c_hub set_field update_with];
    [|exact H2|intros i; rewrite (runs_idle i l1 l2 (Some 0)); apply H3| |by intros [? _]%elem_of_difference|intros i; rewrite (runs_idle i l1 l2 (Some id)); apply H3].
  - intros i Hi. rewrite (holders_fst i l1 l2 (Some 0) None false false), H1 by done.
    pose proof (holds_other i (Some 0) ltac:(congruence)). pose proof (holds_other i None ltac:(done)). lia.
  - intros i Hi. rewrite (holders_fst i l1 l2 (Some id) _ false), H1 by done. rewrite (holds_other i None) by done.
    destruct (decide (i = id)) as [->|Hne].
    + rewrite holds_same, (bool_decide_eq_false_2 (id ∈ _ ∖ _)) by set_solver.
      pose proof (H1 id Hi) as Hl. rewrite bool_decide_eq_true_2; [cbn; lia|]. apply dec_stable. intros Hn.
      rewrite bool_decide_eq_false_2 in Hl by done. assert (1 <= holders id (fst <$> (l1 ++ (Some id, false) :: l2))) as Hge.
      { apply holders_in, list_elem_of_fmap. exists (Some id, false). split; [done|set_solver]. }
      cbn in Hl. lia.
    + rewrite (holds_other i (Some id)) by congruence. rewrite (bool_decide_ext (i ∈ c_hub w ∖ {[id]}) (i ∈ c_hub w)) by set_solver. lia.
Qed.

Lemma running_ok l1 l2 id w b b' d :
  d = one_if b' - one_if b -> hub_ok (l1 ++ (Some id, b) :: l2) w -> hub_ok (l1 ++ (Some id, b') :: l2) (count_running id d w).
Proof.
  intros -> [H1 H2 H3]. split; [by rewrite fmap_app, fmap_cons in H1 |- *|done|].
  intros i. rewrite (total_mid _ l1 l2 (Some id, b)), <- H3. unfold count_running, running. cbn [c_running set_field update_with runs_of].
  destruct (decide (i = id)) as [->|Hne].
  - rewrite lookup_insert_eq, holds_same. cbn [default]. unfold running. destruct b, b'; cbn; lia.
  - rewrite lookup_insert_ne by done. rewrite holds_other by congruence. destruct b, b'; lia.
Qed.

Lemma restores_check p : checks p -> restores hub_ok p (None, false).
Proof.
  intros [id ->]. unfold check, WithLease, restores. apply wp_bind, wp_atomically. intros l1 l2 w Hw.
  pose proof (lease_ok l1 l2 id w Hw) as Hl. destruct (TryAcquire id (c_hub w)) as [got h].
  exists (if got then Some id else None, false). split; [exact Hl|]. cbn [fst]. clear l1 l2 w Hw Hl h. destruct got; [|done].
  apply wp_bind. apply wp_weaken with (Q := fun _ y => y = (Some id, false)).
  - intros b _ ->. apply wp_bind. apply wp_weaken with (Q := fun _ y => y = (None, false)); [by intros _ _ ->|].
    apply wp_modify. intros l1 l2 w. apply return_ok.
  - apply wp_bind. apply wp_weaken with (Q := fun _ y => y = (Some id, false)); [by intros _ _ ->|].
    apply wp_bind. apply wp_weaken with (Q := fun _ y => y = (Some id, true)).
    + intros _ _ ->. apply wp_modify. intros l1 l2 w. by apply running_ok with (b := true).
    + apply wp_modify. intros l1 l2 w. by apply running_ok with (b := false).
Qed.

Definition checks_start : check_world := mkCheckWorld ∅ ∅.

(** However checks of accounts interleave, at most one of each account runs, and
    when all are over no lease is left. *)
Theorem one_check_per_account s :
  reachable checks eq checks_start s ->
  (forall id, id <> 0 -> 0 <= running id (shared s) <= 1) /\ (over (threads s) -> c_hub (shared s) = ∅).
Proof.
  intros Hr. destruct (adequacy hub_ok checks eq (None, false)) with (w0 := checks_start) (s := s) as [l Hl]; try done.
  - apply restores_check.
  - intros l w [H1 H2 H3]. split; [|done|].
    + intros id Hid. rewrite fmap_app. change (fst <$> [(None, false)]) with [@None Z]. rewrite holders_snoc. by apply H1.
    + intros id. rewrite total_app, <- H3. cbn. lia.
  - intros l w w' Hw <-. exact Hw.
  - split.
    + intros id Hid. assert (hub_ok l (shared s)) as [H1 _ H3] by apply Hl. rewrite H3. split.
      { apply total_nonneg. intros [o []]; [apply one_if_nonneg|done]. }
      etrans; [apply (total_le _ (fun x => holds id x.1))|].
      * intros [o []] _; cbn; [done|apply one_if_nonneg].
      * rewrite <- (total_map (holds id) (fun x : check_ticket => x.1) l). pose proof (H1 id Hid) as H. unfold holders in H.
        change (map (fun x : check_ticket => x.1) l) with (fst <$> l). rewrite H. by destruct (bool_decide _).
    + intros Hover. rewrite (ticketed_over hub_ok (None, false) s l Hl Hover) in Hl.
      assert (hub_ok (replicate (length l) (None, false)) (shared s)) as [H1 H2 _] by apply Hl.
      apply set_eq. intros id. split; [|by intros ?%elem_of_empty]. intros Hin. destruct (decide (id = 0)) as [->|Hid]; [done|].
      specialize (H1 id Hid). rewrite bool_decide_eq_true_2, fmap_replicate in H1 by done. unfold holders in H1.
      rewrite total_replicate in H1. cbn in H1. rewrite holds_other in H1 by done. lia.
Qed.

(** Two accounts of one client have gates of their own. *)
Lemma credential_keys_differ provider owner id id' key :
  credential_key provider owner id = Some key -> credential_key provider owner id' = Some key -> id = id'.
Proof.
  unfold credential_key. destruct owner as [[kind address]|]; [|done]. destruct (id =? 0), (id' =? 0); try done.
  intros [= <-] [= H]. repeat apply (inj (String.append _)) in H. symmetry. by apply Itoa_inj.
Qed.

(** * Three requests: one is inside, one waits, one gives up *)

Definition patient (w : gate_world) : bool := false.
Definition hasty (w : gate_world) : bool := (0 <? g_time w)%nat.

Definition store_at : option pointer := Some ("*store.Store", "0xc0001")%string.
Definition refresh (ended : gate_world -> bool) : prog gate_world unit := visit ended patient "cline" store_at 7.
Definition three : system unit := mkSystem gates_start [refresh patient; refresh patient; refresh hasty].

(** Everybody enters; the first takes the token and goes inside. *)
Definition contended : system unit := foldl (fun s i => poke i s) three [0; 0; 0; 0; 0; 1; 1; 1; 1; 2; 2; 2]%nat.

Lemma three_reachable : reachable visits time_passes gates_start three.
Proof.
  assert (forall ended ps, reachable visits time_passes gates_start (mkSystem gates_start ps) ->
    reachable visits time_passes gates_start (mkSystem gates_start (ps ++ [refresh ended]))) as Harrive.
  { intros ended ps Hr. eapply reach_step; [exact Hr|]. constructor. by exists ended, patient, "cline"%string, store_at, 7. }
  apply (Harrive hasty [_; _]), (Harrive patient [_]), (Harrive patient []). constructor.
Qed.

Abbreviation key_of_seven := "cline:*store.Store:0xc0001:7".

Lemma credential_gate_excludes_witness :
  inside key_of_seven (shared contended) = 1 /\ 0 <= inside key_of_seven (shared contended) <= 1.
Proof.
  split; [vm_compute; reflexivity|].
  assert (reachable visits time_passes gates_start contended) as Hr by (apply pokes_reachable, three_reachable).
  destruct (credential_gate_excludes contended Hr) as [H _]. apply H.
Defined.
