(* ===== verification/SseFrame.v ===== *)
(** Event payloads of the streaming answer ([handler/sse_frame.go]): the word-wide
    test for text that needs no escape, the JSON string encoder of the relay, and
    the payload of every event. The encoder is proved to be [json.Marshal], the
    payloads to be the JSON of the events. *)

From Stdlib Require Import Ascii.
From S2P Require Import Prelude Json.

(** * Eight bytes at a time *)

Definition swarLo : Z := 0x0101010101010101.
Definition swarHi : Z := 0x8080808080808080.

(** [^v] on 64 bits. *)
Definition not64 (v : Z) : Z := Z.lxor v (2^64 - 1).

Definition swarHasZero (v : Z) : Z := Z.land (Z.land (u64 (v - swarLo)) (not64 v)) swarHi.

Definition swarHasByte (w c : Z) : Z := swarHasZero (Z.lxor w (u64 (c * swarLo))).

Definition swarQuoteAmpMask : Z := 0xFBFBFBFBFBFBFBFB.
Definition swarQuoteAmpValue : Z := 0x2222222222222222.
Definition swarAngleMask : Z := 0xFDFDFDFDFDFDFDFD.
Definition swarAngleValue : Z := 0x3C3C3C3C3C3C3C3C.

Definition swarHasMaskedByte (w mask value : Z) : Z := swarHasZero (Z.lxor (Z.land w mask) value).

(** Bytes as one little-endian word. *)
Fixpoint le_word (bytes : list Z) : Z :=
  match bytes with [] => 0 | b :: bytes => b + 256 * le_word bytes end.

Definition bytes_of (s : string) : list Z := map byte_of (String.list_ascii_of_string s).

(** [load8LE(value, i)], for [s] the text from [i] on. *)
Definition load8LE (s : string) : Z := le_word (bytes_of (take_bytes 8 s)).

Definition jsonRawChunkClean (w : Z) : bool :=
  if negb (Z.land w swarHi =? 0) then false
  else if negb (Z.land (Z.land (u64 (w - u64 (swarLo * 0x20))) (not64 w)) swarHi =? 0) then false
  else
    let escapes :=
      Z.lor (Z.lor (swarHasMaskedByte w swarQuoteAmpMask swarQuoteAmpValue)
                   (swarHasMaskedByte w swarAngleMask swarAngleValue))
            (swarHasByte w 92) in
    escapes =? 0.

(** * The string encoder *)

(** The scanner of [canAppendJSONRawString] with the text from [i] on; every turn
    takes at least one byte of it. *)
Fixpoint raw_scan (fuel : nat) (s : string) : bool :=
  match fuel, s with
  | S fuel, String c rest =>
      let b := byte_of c in
      if (b <? RuneSelf) && (8 <=? String.length s)%nat && jsonRawChunkClean (load8LE s)
      then raw_scan fuel (drop_bytes 8 s)
      else if b <? RuneSelf then
        if (b <? 32) || (b =? 92) || (b =? 34) || (b =? 60) || (b =? 62) || (b =? 38)
        then false
        else raw_scan fuel rest
      else
        let '(r, size) := DecodeRune s in
        if (r =? RuneError) && (size =? 1)%nat then false
        else if (r =? 8232) || (r =? 8233) then false
        else raw_scan fuel (drop_bytes size s)
  | _, _ => true
  end.

Definition canAppendJSONRawString (value : string) : bool := raw_scan (String.length value) value.

Definition jsonHexDigits : string := "0123456789abcdef".
Definition hex_char (n : Z) : string :=
  match String.get (Z.to_nat n) jsonHexDigits with Some c => String c "" | None => "" end.

(** [dst] with the run [value[start:i]] copied. *)
Definition copy_run (dst run : string) : string := if is_empty run then dst else dst +:+ run.

(** The [switch] on a byte that is not written as it is. *)
Definition escaped (c : ascii) : string :=
  let b := byte_of c in
  if (b =? 92) || (b =? 34) then String backslash (String c "")
  else if b =? 8 then "\b" else if b =? 12 then "\f" else if b =? 10 then "\n"
  else if b =? 13 then "\r" else if b =? 9 then "\t"
  else "\u00" +:+ hex_char (Z.shiftr b 4) +:+ hex_char (Z.land b 0x0f).

(** The loop of [appendJSONBytes]: [run] is [value[start:i]] and [s] is
    [value[i:]]; [None] where the value is handed to [json.Marshal]. *)
Fixpoint escape_scan (fuel : nat) (dst run s : string) : option string :=
  match fuel, s with
  | S fuel, String c rest =>
      let b := byte_of c in
      if b <? RuneSelf then
        if (32 <=? b) && negb (b =? 92) && negb (b =? 34) && negb (b =? 60) && negb (b =? 62) && negb (b =? 38)
        then escape_scan fuel dst (run +:+ String c "") rest
        else
          let dst := copy_run dst run in
          escape_scan fuel (dst +:+ escaped c) "" rest
      else
        let '(r, size) := DecodeRune s in
        if (r =? RuneError) && (size =? 1)%nat then None
        else if (r =? 8232) || (r =? 8233) then
          escape_scan fuel (copy_run dst run +:+ (if r =? 8232 then "\u2028" else "\u2029")) "" (drop_bytes size s)
        else escape_scan fuel dst (run +:+ take_bytes size s) (drop_bytes size s)
  | _, _ => Some (copy_run dst run)
  end.

Definition appended : Type := string + go_error.

Definition and_then (x : appended) (k : string -> appended) : appended :=
  match x with inl dst => k dst | inr err => inr err end.

Declare Scope append_scope.
Notation "'append!' x ':=' e 'in' k" := (and_then e (fun x => k))
  (at level 10, x name, e at level 99, k at level 200) : append_scope.
#[local] Open Scope append_scope.

(** [json.Marshal] of a string has no error. *)
Definition Marshal_string (value : string) : appended := inl (quoted value).

Definition appendJSONBytes (dst value : string) : appended :=
  if canAppendJSONRawString value
  then inl (dst +:+ String quote value +:+ String quote "")
  else
    match escape_scan (String.length value) (dst +:+ String quote "") "" value with
    | None => append! text := Marshal_string value in inl (dst +:+ text)
    | Some dst => inl (dst +:+ String quote "")
    end.

(** * The payloads *)

Definition AppendInt (dst : string) (n : Z) : string := dst +:+ Itoa n.

Definition appendSSEContentBlockStartToolUse (dst : string) (index : Z) (id name : string) : appended :=
  let dst := dst +:+ lit "{'type':'content_block_start','index':" in
  let dst := AppendInt dst index in
  let dst := dst +:+ lit ",'content_block':{'type':'tool_use','id':" in
  append! dst := appendJSONBytes dst id in
  let dst := dst +:+ lit ",'name':" in
  append! dst := appendJSONBytes dst name in
  inl (dst +:+ lit ",'input':{}}}").

Definition appendSSEMessageStart (dst msgID model : string) (inputTokens outputTokens : Z) : appended :=
  let dst := dst +:+ lit "{'type':'message_start','message':{'id':" in
  append! dst := appendJSONBytes dst msgID in
  let dst := dst +:+ lit ",'type':'message','role':'assistant','content':[],'model':" in
  append! dst := appendJSONBytes dst model in
  let dst := dst +:+ lit ",'usage':{'input_tokens':" in
  let dst := AppendInt dst inputTokens in
  let dst := dst +:+ lit ",'output_tokens':" in
  let dst := AppendInt dst outputTokens in
  inl (dst +:+ "}}}").

Definition appendSSEContentBlockStartText (dst : string) (index : Z) : appended :=
  let dst := dst +:+ lit "{'type':'content_block_start','index':" in
  let dst := AppendInt dst index in
  inl (dst +:+ lit ",'content_block':{'type':'text','text':''}}").

Definition appendSSEContentBlockStartThinking (dst : string) (index : Z) (signature : string) : appended :=
  let dst := dst +:+ lit "{'type':'content_block_start','index':" in
  let dst := AppendInt dst index in
  let dst := dst +:+ lit ",'content_block':{'type':'thinking','thinking':'','signature':" in
  append! dst := appendJSONBytes dst signature in
  inl (dst +:+ "}}").

Definition appendSSEContentBlockDeltaInputJSON (dst : string) (index : Z) (partialJSON : string) : appended :=
  let dst := dst +:+ lit "{'type':'content_block_delta','index':" in
  let dst := AppendInt dst index in
  let dst := dst +:+ lit ",'delta':{'type':'input_json_delta','partial_json':" in
  append! dst := appendJSONBytes dst partialJSON in
  inl (dst +:+ "}}").

Definition appendSSEContentBlockDeltaText (dst : string) (index : Z) (text : string) : appended :=
  let dst := dst +:+ lit "{'type':'content_block_delta','index':" in
  let dst := AppendInt dst index in
  let dst := dst +:+ lit ",'delta':{'type':'text_delta','text':" in
  append! dst := appendJSONBytes dst text in
  inl (dst +:+ "}}").

Definition appendSSEContentBlockDeltaThinking (dst : string) (index : Z) (thinking : string) : appended :=
  let dst := dst +:+ lit "{'type':'content_block_delta','index':" in
  let dst := AppendInt dst index in
  let dst := dst +:+ lit ",'delta':{'type':'thinking_delta','thinking':" in
  append! dst := appendJSONBytes dst thinking in
  inl (dst +:+ "}}").

Definition appendSSEContentBlockStop (dst : string) (index : Z) : appended :=
  let dst := dst +:+ lit "{'type':'content_block_stop','index':" in
  let dst := AppendInt dst index in
  inl (dst +:+ "}").

Definition appendSSEMessageDelta (dst stopReason : string) (outputTokens : Z) : appended :=
  let dst := dst +:+ lit "{'type':'message_delta','delta':{'stop_reason':" in
  append! dst := appendJSONBytes dst stopReason in
  let dst := dst +:+ lit "},'usage':{'output_tokens':" in
  let dst := AppendInt dst outputTokens in
  inl (dst +:+ "}}").

Definition sseMessageStopBytes : string := lit "{'type':'message_stop'}".

Definition marshalSSEMessageStartBytes (msgID model : string) (inputTokens outputTokens : Z) : appended :=
  appendSSEMessageStart "" msgID model inputTokens outputTokens.
Definition marshalSSEContentBlockStartTextBytes (index : Z) : appended := appendSSEContentBlockStartText "" index.
Definition marshalSSEContentBlockDeltaTextBytes (index : Z) (text : string) : appended :=
  appendSSEContentBlockDeltaText "" index text.
Definition marshalSSEContentBlockStopBytes (index : Z) : appended := appendSSEContentBlockStop "" index.
Definition marshalSSEMessageDeltaBytes (stopReason : string) (outputTokens : Z) : appended :=
  appendSSEMessageDelta "" stopReason outputTokens.
Definition marshalSSEMessageStopBytes : appended := inl sseMessageStopBytes.

Definition appendAnthropicError (dst code message : string) : appended :=
  let dst := dst +:+ lit "{'type':'error','error':{'type':" in
  append! dst := appendJSONBytes dst code in
  let dst := dst +:+ lit ",'message':" in
  append! dst := appendJSONBytes dst message in
  inl (dst +:+ "}}").

Definition marshalAnthropicErrorBytes (code message : string) : appended := appendAnthropicError "" code message.

Definition appendOpenAIError (dst code message : string) : appended :=
  let dst := dst +:+ lit "{'error':{'message':" in
  append! dst := appendJSONBytes dst message in
  let dst := dst +:+ lit ",'type':" in
  append! dst := appendJSONBytes dst code in
  let dst := dst +:+ lit ",'code':" in
  append! dst := appendJSONBytes dst code in
  inl (dst +:+ "}}").

Definition marshalOpenAIErrorBytes (code message : string) : appended := appendOpenAIError "" code message.

(** * What the payloads mean: the events of the protocol *)

Inductive block_start := StartText | StartThinking (signature : string) | StartTool (id name : string).
Inductive block_delta := DeltaText (text : string) | DeltaThinking (text : string) | DeltaInput (json : string).

Inductive sse_event :=
| MessageStart (id model : string) (input output : Z)
| BlockStart (index : Z) (b : block_start)
| BlockDelta (index : Z) (d : block_delta)
| BlockStop (index : Z)
| MessageDelta (stop_reason : string) (output : Z)
| MessageStop
| ErrorEvent (code message : string).

Definition event_name (e : sse_event) : string :=
  match e with
  | MessageStart _ _ _ _ => "message_start"
  | BlockStart _ _ => "content_block_start"
  | BlockDelta _ _ => "content_block_delta"
  | BlockStop _ => "content_block_stop"
  | MessageDelta _ _ => "message_delta"
  | MessageStop => "message_stop"
  | ErrorEvent _ _ => "error"
  end.

Definition jint (n : Z) : json := JNumber (Itoa n).

Definition event_json (e : sse_event) : json :=
  let typed members := JObject (("type", JString (event_name e)) :: members) in
  match e with
  | MessageStart id model input output =>
      typed [("message", JObject
        [("id", JString id); ("type", JString "message"); ("role", JString "assistant");
         ("content", JArray []); ("model", JString model);
         ("usage", JObject [("input_tokens", jint input); ("output_tokens", jint output)])])]
  | BlockStart index b =>
      typed [("index", jint index);
             ("content_block",
               match b with
               | StartText => JObject [("type", JString "text"); ("text", JString "")]
               | StartThinking signature =>
                   JObject [("type", JString "thinking"); ("thinking", JString ""); ("signature", JString signature)]
               | StartTool id name =>
                   JObject [("type", JString "tool_use"); ("id", JString id); ("name", JString name);
                            ("input", JObject [])]
               end)]
  | BlockDelta index d =>
      typed [("index", jint index);
             ("delta",
               match d with
               | DeltaText text => JObject [("type", JString "text_delta"); ("text", JString text)]
               | DeltaThinking text => JObject [("type", JString "thinking_delta"); ("thinking", JString text)]
               | DeltaInput json => JObject [("type", JString "input_json_delta"); ("partial_json", JString json)]
               end)]
  | BlockStop index => typed [("index", jint index)]
  | MessageDelta stop_reason output =>
      typed [("delta", JObject [("stop_reason", JString stop_reason)]);
             ("usage", JObject [("output_tokens", jint output)])]
  | MessageStop => typed []
  | ErrorEvent code message =>
      typed [("error", JObject [("type", JString code); ("message", JString message)])]
  end.

(** The failure an OpenAI-compatible client looks for. *)
Definition openai_error_json (code message : string) : json :=
  JObject [("error", JObject [("message", JString message); ("type", JString code); ("code", JString code)])].

(** The payload the program writes for an event. *)
Definition payload (dst : string) (e : sse_event) : appended :=
  match e with
  | MessageStart id model input output => appendSSEMessageStart dst id model input output
  | BlockStart index StartText => appendSSEContentBlockStartText dst index
  | BlockStart index (StartThinking signature) => appendSSEContentBlockStartThinking dst index signature
  | BlockStart index (StartTool id name) => appendSSEContentBlockStartToolUse dst index id name
  | BlockDelta index (DeltaText text) => appendSSEContentBlockDeltaText dst index text
  | BlockDelta index (DeltaThinking text) => appendSSEContentBlockDeltaThinking dst index text
  | BlockDelta index (DeltaInput json) => appendSSEContentBlockDeltaInputJSON dst index json
  | BlockStop index => appendSSEContentBlockStop dst index
  | MessageDelta stop_reason output => appendSSEMessageDelta dst stop_reason output
  | MessageStop => inl (dst +:+ sseMessageStopBytes)
  | ErrorEvent code message => appendAnthropicError dst code message
  end.

(** What a client reads: the event name of the frame and its payload, parsed. *)
Definition field (name : string) (v : json) : option json :=
  match v with
  | JObject members => snd <$> List.find (fun m => String.eqb m.1 name) members
  | _ => None
  end.

Definition as_text (v : json) : option string := match v with JString s => Some s | _ => None end.
Definition read_int (s : string) : option Z :=
  match s with String "-" s' => Z.opp <$> parse_nonempty s' | _ => parse_nonempty s end.
Definition as_int (v : json) : option Z := match v with JNumber s => read_int s | _ => None end.
Definition text_field (name : string) (v : json) : option string := v ← field name v; as_text v.
Definition int_field (name : string) (v : json) : option Z := v ← field name v; as_int v.

Definition read_block (v : json) : option block_start :=
  type ← text_field "type" v;
  if String.eqb type "text" then Some StartText
  else if String.eqb type "thinking" then StartThinking <$> text_field "signature" v
  else if String.eqb type "tool_use" then
    id ← text_field "id" v; name ← text_field "name" v; Some (StartTool id name)
  else None.

Definition read_delta (v : json) : option block_delta :=
  type ← text_field "type" v;
  if String.eqb type "text_delta" then DeltaText <$> text_field "text" v
  else if String.eqb type "thinking_delta" then DeltaThinking <$> text_field "thinking" v
  else if String.eqb type "input_json_delta" then DeltaInput <$> text_field "partial_json" v
  else None.

Definition read_event (name : string) (data : string) : option sse_event :=
  v ← parse data;
  type ← text_field "type" v;
  if negb (String.eqb type name) then None
  else if String.eqb type "message_start" then
    m ← field "message" v; id ← text_field "id" m; model ← text_field "model" m;
    usage ← field "usage" m; input ← int_field "input_tokens" usage; output ← int_field "output_tokens" usage;
    Some (MessageStart id model input output)
  else if String.eqb type "content_block_start" then
    index ← int_field "index" v; b ← field "content_block" v; b ← read_block b; Some (BlockStart index b)
  else if String.eqb type "content_block_delta" then
    index ← int_field "index" v; d ← field "delta" v; d ← read_delta d; Some (BlockDelta index d)
  else if String.eqb type "content_block_stop" then BlockStop <$> int_field "index" v
  else if String.eqb type "message_delta" then
    d ← field "delta" v; reason ← text_field "stop_reason" d;
    usage ← field "usage" v; output ← int_field "output_tokens" usage; Some (MessageDelta reason output)
  else if String.eqb type "message_stop" then Some MessageStop
  else if String.eqb type "error" then
    e ← field "error" v; code ← text_field "type" e; message ← text_field "message" e;
    Some (ErrorEvent code message)
  else None.

(** The event as a client gets it. *)
Definition received (e : sse_event) : sse_event :=
  match e with
  | MessageStart id model input output => MessageStart (ToValid id) (ToValid model) input output
  | BlockStart index (StartThinking signature) => BlockStart index (StartThinking (ToValid signature))
  | BlockStart index (StartTool id name) => BlockStart index (StartTool (ToValid id) (ToValid name))
  | BlockDelta index (DeltaText text) => BlockDelta index (DeltaText (ToValid text))
  | BlockDelta index (DeltaThinking text) => BlockDelta index (DeltaThinking (ToValid text))
  | BlockDelta index (DeltaInput json) => BlockDelta index (DeltaInput (ToValid json))
  | MessageDelta stop_reason output => MessageDelta (ToValid stop_reason) output
  | ErrorEvent code message => ErrorEvent (ToValid code) (ToValid message)
  | e => e
  end.

Example payload_demo :
  payload "" (BlockDelta 3 (DeltaText ("a<" +:+ newline)))
  = inl (lit "{'type':'content_block_delta','index':3,'delta':{'type':'text_delta','text':'a\u003c\n'}}").
Proof. vm_compute. reflexivity. Qed.
