(* ===== verification/SseFrameCorrect.v ===== *)
(** The payload encoder of the streaming answer is right: the word-wide test is
    the byte test, [appendJSONBytes] is [json.Marshal], every payload is the JSON
    of its event and reads back as that event, and no payload breaks its frame. *)

From Stdlib Require Import Ascii.
From S2P Require Import Prelude Json SseFrame.

(** * The word test is the byte test *)

Definition is_byte (b : Z) : Prop := 0 <= b < 256.

Lemma lane_bits a x n : is_byte a -> 0 <= n ->
  Z.testbit (a + 256 * x) n = if n <? 8 then Z.testbit a n else Z.testbit x (n - 8).
Proof.
  intros Ha Hn. destruct (Z.ltb_spec n 8) as [H|H].
  - rewrite <- (Z.mod_pow2_bits_low (a + 256 * x) 8) by lia. change (2 ^ 8) with 256.
    replace ((a + 256 * x) mod 256) with a; [done|]. unfold is_byte in Ha. Z.to_euclidean_division_equations; lia.
  - replace n with (n - 8 + 8) at 1 by lia. rewrite <- Z.div_pow2_bits by lia. change (2 ^ 8) with 256.
    replace ((a + 256 * x) / 256) with x; [done|]. unfold is_byte in Ha. Z.to_euclidean_division_equations; lia.
Qed.

Lemma byte_op_range op f a b :
  (forall x y n, Z.testbit (op x y) n = f (Z.testbit x n) (Z.testbit y n)) -> f false false = false ->
  (forall x y, 0 <= x -> 0 <= y -> 0 <= op x y) -> is_byte a -> is_byte b -> is_byte (op a b).
Proof.
  intros Hop Hf Hpos Ha Hb. unfold is_byte in *. assert (0 <= op a b) by (apply Hpos; lia). split; [done|].
  change 256 with (2 ^ 8) in *. apply Z.bounded_iff_bits_nonneg; [lia|done|]. intros l Hl. rewrite Hop.
  rewrite (proj1 (Z.bounded_iff_bits_nonneg 8 a ltac:(lia) ltac:(lia)) ltac:(lia) l Hl).
  by rewrite (proj1 (Z.bounded_iff_bits_nonneg 8 b ltac:(lia) ltac:(lia)) ltac:(lia) l Hl).
Qed.

Lemma lane_op op f a x b y :
  (forall x y n, Z.testbit (op x y) n = f (Z.testbit x n) (Z.testbit y n)) -> f false false = false ->
  (forall x y, 0 <= x -> 0 <= y -> 0 <= op x y) -> is_byte a -> is_byte b ->
  op (a + 256 * x) (b + 256 * y) = op a b + 256 * op x y.
Proof.
  intros Hop Hf Hpos Ha Hb. apply Z.bits_inj'. intros n Hn.
  rewrite Hop, !lane_bits by (try done; by eapply byte_op_range).
  destruct (n <? 8); by rewrite Hop.
Qed.

(** A bitwise operation on words works on their bytes. *)
Section lanes.
Context (op : Z -> Z -> Z) (f : bool -> bool -> bool).
Hypothesis op_bits : forall x y n, Z.testbit (op x y) n = f (Z.testbit x n) (Z.testbit y n).
Hypothesis f_false : f false false = false.
Hypothesis op_nonneg : forall x y, 0 <= x -> 0 <= y -> 0 <= op x y.

Lemma le_word_op l m : is_byte m -> Forall is_byte l ->
  op (le_word l) (le_word (replicate (length l) m)) = le_word (map (fun b => op b m) l)
  /\ Forall is_byte (map (fun b => op b m) l).
Proof.
  intros Hm. induction 1 as [|b l Hb Hl [IH IHb]].
  - split; [|constructor]. cbn. apply Z.bits_inj'. intros n Hn. rewrite op_bits, !Z.bits_0. done.
  - cbn [length replicate le_word map]. rewrite (lane_op op f), IH by done.
    split; [done|]. constructor; [|done]. by apply (byte_op_range op f).
Qed.
End lanes.

Lemma land_nonneg x y : 0 <= x -> 0 <= y -> 0 <= Z.land x y.
Proof. intros. apply Z.land_nonneg. by left. Qed.

Lemma lxor_nonneg x y : 0 <= x -> 0 <= y -> 0 <= Z.lxor x y.
Proof. intros. by apply Z.lxor_nonneg. Qed.

Definition le_word_land := le_word_op Z.land andb Z.land_spec eq_refl land_nonneg.
Definition le_word_lxor := le_word_op Z.lxor xorb Z.lxor_spec eq_refl lxor_nonneg.

Lemma le_word_nonneg l : Forall is_byte l -> 0 <= le_word l.
Proof. induction 1 as [|b l Hb Hl IH]; cbn; [lia|]. unfold is_byte in Hb. lia. Qed.

Lemma le_word_zero l : Forall is_byte l -> le_word l = 0 <-> Forall (fun b => b = 0) l.
Proof.
  induction 1 as [|b l Hb Hl IH]; cbn; [by split|]. pose proof (le_word_nonneg l Hl). unfold is_byte in Hb.
  rewrite list.Forall_cons, <- IH. lia.
Qed.

Lemma le_word_bound l : Forall is_byte l -> le_word l < 256 ^ Z.of_nat (length l).
Proof.
  induction 1 as [|b l Hb Hl IH]; [done|]. cbn [le_word length]. unfold is_byte in Hb.
  rewrite Nat2Z.inj_succ, Z.pow_succ_r by lia. lia.
Qed.

Lemma byte_cases (P : Z -> bool) : forallb P (seqZ 0 256) = true -> forall b, is_byte b -> P b = true.
Proof.
  intros H b Hb. rewrite forallb_forall in H. apply H. apply list_elem_of_In, elem_of_seqZ. unfold is_byte in Hb. lia.
Qed.

(** Subtracting [t] from every byte: the byte that borrows shows in its high bit. *)
Definition borrow_bit (t b : Z) : Z := Z.land (Z.land (if t <=? b then b - t else b - t + 256) (Z.lxor b 255)) 128.

Lemma borrow_bit_spec t b : t = 1 \/ t = 32 -> is_byte b -> borrow_bit t b = if t <=? b then 0 else 128.
Proof.
  intros Ht Hb. apply Z.eqb_eq.
  destruct Ht as [-> | ->]; revert b Hb; apply byte_cases; vm_compute; reflexivity.
Qed.

Lemma sub_lanes t b l n : is_byte t -> is_byte b ->
  0 < n ->
  (b + 256 * l) mod (256 * n) = b + 256 * (l mod n).
Proof.
  intros Ht Hb Hn. unfold is_byte in *. symmetry. apply (Z.mod_unique_pos _ _ (l / n)).
  - pose proof (Z.mod_pos_bound l n Hn). nia.
  - pose proof (Z.div_mod l n ltac:(lia)). nia.
Qed.

Lemma land_byte a b : is_byte a -> is_byte b -> is_byte (Z.land a b).
Proof. apply (byte_op_range Z.land andb _ _ Z.land_spec eq_refl land_nonneg). Qed.

Lemma lxor_byte a b : is_byte a -> is_byte b -> is_byte (Z.lxor a b).
Proof. apply (byte_op_range Z.lxor xorb _ _ Z.lxor_spec eq_refl lxor_nonneg). Qed.

Lemma land_lane a x b y : is_byte a -> is_byte b ->
  Z.land (a + 256 * x) (b + 256 * y) = Z.land a b + 256 * Z.land x y.
Proof. apply (lane_op Z.land andb _ _ _ _ Z.land_spec eq_refl land_nonneg). Qed.

Lemma no_borrow t l : t = 1 \/ t = 32 -> Forall is_byte l ->
  let n := length l in
  Z.land (Z.land ((le_word l - le_word (replicate n t)) mod 256 ^ Z.of_nat n)
                 (le_word (map (fun b => Z.lxor b 255) l)))
         (le_word (replicate n 128)) = 0
  <-> Forall (fun b => t <= b) l.
Proof.
  intros Ht Hl. induction Hl as [|b l Hb Hl IH]; [by split|].
  cbn [length replicate le_word map]. rewrite Nat2Z.inj_succ, Z.pow_succ_r by lia.
  assert (Hbt : is_byte t) by (unfold is_byte; lia).
  pose proof (Z.pow_pos_nonneg 256 (Z.of_nat (length l)) ltac:(lia) ltac:(lia)) as Hpow.
  pose proof (le_word_lxor l 255 ltac:(done) Hl) as [_ Hx].
  rewrite list.Forall_cons. pose proof (borrow_bit_spec t b Ht Hb) as Hbit. unfold borrow_bit in Hbit.
  destruct (Z.leb_spec t b) as [Hle|Hlt].
  - replace (b + 256 * le_word l - _) with (b - t + 256 * (le_word l - le_word (replicate (length l) t))) by lia.
    assert (Hd : is_byte (b - t)) by (unfold is_byte in *; lia).
    rewrite (sub_lanes t), !land_lane, Hbit by (done || by apply lxor_byte || by apply land_byte, lxor_byte).
    cbn in IH. rewrite <- IH. lia.
  - replace (b + 256 * le_word l - _) with (b - t + 256 + 256 * (le_word l - le_word (replicate (length l) t) - 1)) by lia.
    assert (Hd : is_byte (b - t + 256)) by (unfold is_byte in *; lia).
    rewrite (sub_lanes t), !land_lane, Hbit by (done || by apply lxor_byte || by apply land_byte, lxor_byte).
    match goal with |- 128 + 256 * ?x = 0 <-> _ => assert (0 <= x) end; [|split; [lia|intros [? _]; lia]].
    repeat apply land_nonneg; [apply Z.mod_pos_bound; lia|by apply le_word_nonneg|].
    apply le_word_nonneg, Forall_replicate. by cbv.
Qed.

(** The constants, byte by byte. *)
Lemma swar_constants :
  swarLo = le_word (replicate 8 1) /\ u64 (swarLo * 0x20) = le_word (replicate 8 32)
  /\ swarHi = le_word (replicate 8 128) /\ 2^64 - 1 = le_word (replicate 8 255)
  /\ swarQuoteAmpMask = le_word (replicate 8 0xFB) /\ swarQuoteAmpValue = le_word (replicate 8 0x22)
  /\ swarAngleMask = le_word (replicate 8 0xFD) /\ swarAngleValue = le_word (replicate 8 0x3C)
  /\ u64 (92 * swarLo) = le_word (replicate 8 92) /\ 2^64 = 256 ^ Z.of_nat 8.
Proof. by vm_compute. Qed.

Lemma swarHasZero_spec l : length l = 8%nat -> Forall is_byte l ->
  swarHasZero (le_word l) = 0 <-> Forall (fun b => 1 <= b) l.
Proof.
  intros Hlen Hl. pose proof (no_borrow 1 l ltac:(by left) Hl) as H. cbn zeta in H. rewrite Hlen in H.
  destruct swar_constants as (Elo & _ & Ehi & Eff & _ & _ & _ & _ & _ & E64).
  unfold swarHasZero, not64, u64. rewrite Elo, Ehi, Eff, E64.
  destruct (le_word_lxor l 255 ltac:(done) Hl) as [Ex _]. rewrite Hlen in Ex. by rewrite Ex.
Qed.

Lemma masked_byte_spec l m v : length l = 8%nat -> Forall is_byte l -> is_byte m -> is_byte v ->
  swarHasMaskedByte (le_word l) (le_word (replicate 8 m)) (le_word (replicate 8 v)) = 0
  <-> Forall (fun b => Z.land b m <> v) l.
Proof.
  intros Hlen Hl Hm Hv. unfold swarHasMaskedByte.
  destruct (le_word_land l m Hm Hl) as [E1 H1]. rewrite Hlen in E1. rewrite E1.
  destruct (le_word_lxor (map (fun b => Z.land b m) l) v Hv H1) as [E2 H2]. rewrite length_map, Hlen in E2. rewrite E2.
  rewrite swarHasZero_spec by (done || by rewrite !length_map). rewrite !Forall_map.
  rewrite Forall_forall in Hl. rewrite !Forall_forall. apply forall_proper. intros b.
  assert (b ∈ l -> (1 <= Z.lxor (Z.land b m) v <-> Z.land b m <> v)) as Hiff; [|cbn; naive_solver].
  intros Hb. pose proof (lxor_byte _ v (land_byte b m (Hl b Hb) Hm) Hv) as [H0 _].
  rewrite <- (Z.lxor_eq_0_iff (Z.land b m) v). lia.
Qed.

Lemma has_byte_spec l c : length l = 8%nat -> Forall is_byte l -> is_byte c ->
  u64 (c * swarLo) = le_word (replicate 8 c) ->
  swarHasByte (le_word l) c = 0 <-> Forall (fun b => b <> c) l.
Proof.
  intros Hlen Hl Hc E. unfold swarHasByte. rewrite E.
  destruct (le_word_lxor l c Hc Hl) as [E2 H2]. rewrite Hlen in E2. rewrite E2.
  rewrite swarHasZero_spec by (done || by rewrite length_map). rewrite Forall_map.
  rewrite Forall_forall in Hl. rewrite !Forall_forall. apply forall_proper. intros b.
  assert (b ∈ l -> (1 <= Z.lxor b c <-> b <> c)) as Hiff; [|cbn; naive_solver].
  intros Hb. pose proof (lxor_byte b c (Hl b Hb) Hc) as [H0 _].
  rewrite <- (Z.lxor_eq_0_iff b c). lia.
Qed.

(** A byte that [encoding/json] writes as it is. *)
Definition clean_byte (b : Z) : bool := (b <? RuneSelf) && html_safe b.

Lemma clean_byte_spec b : is_byte b ->
  clean_byte b = (Z.land b 128 =? 0) && (32 <=? b)
    && negb (Z.land b 0xFB =? 0x22) && negb (Z.land b 0xFD =? 0x3C) && negb (b =? 92).
Proof. intros Hb. apply eqb_prop. revert b Hb. apply byte_cases. vm_compute. reflexivity. Qed.

(** Eight bytes are taken at once exactly where each of them may be. *)
Lemma jsonRawChunkClean_spec l : length l = 8%nat -> Forall is_byte l ->
  jsonRawChunkClean (le_word l) = forallb clean_byte l.
Proof.
  intros Hlen Hl. destruct swar_constants as (Elo & E20 & Ehi & Eff & Eqm & Eqv & Eam & Eav & Ebs & E64).
  pose proof (no_borrow 32 l ltac:(by right) Hl) as H32. cbn zeta in H32. rewrite Hlen in H32.
  pose proof (masked_byte_spec l 0xFB 0x22 Hlen Hl ltac:(done) ltac:(done)) as Hq.
  pose proof (masked_byte_spec l 0xFD 0x3C Hlen Hl ltac:(done) ltac:(done)) as Ha.
  pose proof (has_byte_spec l 92 Hlen Hl ltac:(done) Ebs) as Hb.
  destruct (le_word_land l 128 ltac:(done) Hl) as [Eh Hh]. rewrite Hlen in Eh.
  destruct (le_word_lxor l 255 ltac:(done) Hl) as [Ex _]. rewrite Hlen in Ex.
  pose proof (le_word_zero _ Hh) as H128. rewrite Forall_map in H128.
  apply eq_true_iff_eq. rewrite forallb_forall. setoid_rewrite <- list_elem_of_In.
  unfold jsonRawChunkClean, not64, u64 at 1. rewrite E20, Eff, E64, Ehi, Eqm, Eqv, Eam, Eav, Ex, Eh.
  transitivity (le_word (map (fun b => Z.land b 128) l) = 0
    /\ Forall (fun b => 32 <= b) l /\ Forall (fun b => Z.land b 0xFB <> 0x22) l
    /\ Forall (fun b => Z.land b 0xFD <> 0x3C) l /\ Forall (fun b => b <> 92) l).
  { rewrite <- H32, <- Hq, <- Ha, <- Hb. clear.
    destruct (Z.eqb_spec (le_word (map (fun b => Z.land b 128) l)) 0); cbn [negb]; [|split; [done|by intros [? _]]].
    destruct (Z.eqb_spec (Z.land (Z.land ((le_word l - le_word (replicate 8 32)) mod 256 ^ Z.of_nat 8)
      (le_word (map (fun b => Z.lxor b 255) l))) (le_word (replicate 8 128))) 0); cbn [negb];
      [|split; [done|by intros (_ & ? & _)]].
    rewrite Z.eqb_eq, !Z.lor_eq_0_iff. tauto. }
  rewrite H128, !Forall_forall. rewrite Forall_forall in Hl. split.
  - intros (H1 & H2 & H3 & H4 & H5) b Hin. rewrite clean_byte_spec by by apply Hl.
    rewrite !andb_true_iff, !negb_true_iff, !Z.eqb_eq, !Z.eqb_neq, Z.leb_le. eauto 10.
  - intros H. assert (forall b, b ∈ l -> _) as H'
      by (intros b Hin; specialize (H b Hin); rewrite clean_byte_spec in H by (by apply Hl);
          rewrite !andb_true_iff, !negb_true_iff, !Z.eqb_eq, !Z.eqb_neq, Z.leb_le in H; exact H).
    cbn in H'. split_and!; intros b Hin; by apply H'.
Qed.

(** * The encoder is [json.Marshal] *)

Definition raw_rune (x : string * Z) : bool := String.eqb (escape_rune x) x.1.

Lemma clean_byte_ascii c :
  clean_byte (byte_of c) = true <-> byte_of c < 128 /\ escape_byte (byte_of c) = String c "".
Proof.
  assert (clean_byte (byte_of c)
    = (byte_of c <? 128) && String.eqb (escape_byte (byte_of c)) (String (byte_char (byte_of c)) "")) as ->.
  { apply eqb_prop. generalize (byte_of_range c). generalize (byte_of c). apply byte_cases. by vm_compute. }
  by rewrite byte_char_of, andb_true_iff, Z.ltb_lt, String.eqb_eq.
Qed.

Lemma raw_rune_starts s x r t : starts s x r t ->
  raw_rune (x, r) =
    if r <? 128 then html_safe r
    else negb (is_bad (r, String.length x)) && negb ((r =? 8232) || (r =? 8233)).
Proof.
  intros Hs. unfold raw_rune, escape_rune. cbn [fst snd]. unfold RuneSelf.
  destruct Hs as [c s H|x r s H|c s H E].
  - rewrite (proj2 (Z.ltb_lt _ _)) by done. apply eq_true_iff_eq. rewrite String.eqb_eq.
    pose proof (clean_byte_ascii c) as Hc. unfold clean_byte, RuneSelf in Hc.
    rewrite (proj2 (Z.ltb_lt _ _)) in Hc by done. cbn [andb] in Hc. naive_solver.
  - destruct H as [_ He Hr Hb Hl]. rewrite (proj2 (Z.ltb_ge r 128)) by done.
    assert (is_bad (r, String.length x) = false) as ->.
    { apply not_true_iff_false. unfold is_bad. cbn [fst snd]. rewrite andb_true_iff, Nat.eqb_eq. lia. }
    destruct (Z.eqb_spec r 8232) as [->|]; [by rewrite <- He|].
    destruct (Z.eqb_spec r 8233) as [->|]; [by rewrite <- He|]. cbn. by rewrite String.eqb_refl.
  - cbn. ascii_cases c; try done; exfalso; by vm_compute in H.
Qed.

(** The first [n] bytes are clean: each is a rune of its own, copied as it is. *)
Lemma clean_prefix n s : forallb clean_byte (bytes_of (take_bytes n s)) = true ->
  forallb raw_rune (runes s) = forallb raw_rune (runes (drop_bytes n s)).
Proof.
  revert s. induction n as [|n IH]; intros s; [done|]. destruct s as [|c s]; [done|].
  cbn [take_bytes bytes_of drop_bytes]. unfold bytes_of. cbn [String.list_ascii_of_string map forallb].
  intros [Hc Hs]%andb_true_iff. pose proof Hc as Hc'. apply clean_byte_ascii in Hc as [Hlt He].
  assert (Hst : starts (String c s) (String c "") (byte_of c) s) by by constructor.
  rewrite (runes_starts _ _ _ _ Hst). cbn [forallb]. rewrite <- IH by done.
  rewrite (raw_rune_starts _ _ _ _ Hst), (proj2 (Z.ltb_lt _ _)) by done.
  unfold clean_byte in Hc'. apply andb_true_iff in Hc' as [_ ->]. done.
Qed.

Lemma bytes_of_range s : Forall is_byte (bytes_of s).
Proof.
  unfold bytes_of. induction s as [|c s IH]; cbn; constructor; [|done]. apply byte_of_range.
Qed.

Lemma take_bytes_length n s : (n <= String.length s)%nat -> String.length (take_bytes n s) = n.
Proof.
  revert s. induction n as [|n IH]; intros s; [done|].
  destruct s as [|c s]; cbn; intros H; [lia|]. by rewrite IH by lia.
Qed.

Lemma bytes_of_length s : length (bytes_of s) = String.length s.
Proof. unfold bytes_of. rewrite length_map. induction s; cbn; congruence. Qed.

Lemma raw_scan_spec fuel s : (String.length s <= fuel)%nat -> raw_scan fuel s = forallb raw_rune (runes s).
Proof.
  revert s. induction fuel as [|fuel IH]; intros s Hf.
  { destruct s; [done|cbn in Hf; lia]. }
  destruct s as [|c s]; [done|]. cbn [raw_scan].
  destruct ((byte_of c <? RuneSelf) && _ && _) eqn:Hchunk.
  - apply andb_true_iff in Hchunk as [[_ H8]%andb_true_iff Hchunk]. apply Nat.leb_le in H8.
    rewrite IH by (rewrite drop_bytes_length; lia). symmetry. apply clean_prefix.
    rewrite <- jsonRawChunkClean_spec; [done| |apply bytes_of_range].
    by rewrite bytes_of_length, take_bytes_length.
  - clear Hchunk. destruct (DecodeRune_starts c s) as (x & r & t & Hs).
    pose proof (starts_split _ _ _ _ Hs) as [E Hlen].
    rewrite (runes_starts _ _ _ _ Hs), (starts_decode _ _ _ _ Hs). cbn [forallb].
    rewrite (raw_rune_starts _ _ _ _ Hs).
    replace (drop_bytes (String.length x) (String c s)) with t by (rewrite E; symmetry; apply drop_bytes_app).
    assert (Hf' : (String.length t <= fuel)%nat).
    { pose proof (f_equal String.length E) as El. rewrite string_length_app in El. cbn in El, Hf. lia. }
    rewrite (IH t Hf'). change (if (byte_of c <? RuneSelf) then ?a else ?b) with (if byte_of c <? 128 then a else b).
    destruct (starts_cases _ _ _ _ _ Hs) as [(Hc & -> & -> & ->)|[(Hc & Hr)|(Hc & -> & -> & ->)]].
    + rewrite (proj2 (Z.ltb_lt (byte_of c) 128)) by done. unfold html_safe.
      destruct (Z.ltb_spec (byte_of c) 32), (Z.leb_spec 32 (byte_of c)); cbn [andb orb]; try lia.
      rewrite (IH s Hf').
      destruct (byte_of c =? 34), (byte_of c =? 92), (byte_of c =? 60), (byte_of c =? 62), (byte_of c =? 38); done.
    + rewrite (proj2 (Z.ltb_ge (byte_of c) 128)), (proj2 (Z.ltb_ge r 128)) by (done || apply Hr).
      rewrite rune_not_bad by done. pose proof (rune_not_bad x r Hr) as Hb. unfold is_bad in Hb. cbn [fst snd] in Hb.
      rewrite Hb. by destruct (_ || _).
    + rewrite (proj2 (Z.ltb_ge (byte_of c) 128)) by done. done.
Qed.

Lemma sapp_inj x a b : x +:+ a = x +:+ b -> a = b.
Proof. induction x as [|c x IH]; [done|]. rewrite !sapp_cons. intros [= E]. by apply IH. Qed.

Lemma sapp_inj_r x a b : a +:+ x = b +:+ x -> a = b.
Proof.
  revert b. induction a as [|c a IH]; intros b E; pose proof (f_equal String.length E) as El;
    rewrite !string_length_app in El; destruct b as [|d b]; cbn in El; try lia; [done|].
  rewrite !sapp_cons in E. injection E as -> E. by rewrite (IH _ E).
Qed.

Lemma escape_rune_grows s x r t : starts s x r t ->
  escape_rune (x, r) = x \/ (String.length x < String.length (escape_rune (x, r)))%nat.
Proof.
  intros Hs. destruct Hs as [c s H|x r s H|c s H E].
  - ascii_cases c; try (exfalso; by vm_compute in H); first [by left|right; vm_compute; lia].
  - unfold escape_rune. cbn [fst snd]. rewrite rune_not_bad by done. destruct H as [_ He Hr _ _].
    unfold RuneSelf. rewrite (proj2 (Z.ltb_ge r 128)) by done.
    destruct (Z.eqb_spec r 8232) as [->|]; [right; rewrite <- He; vm_compute; lia|].
    destruct (Z.eqb_spec r 8233) as [->|]; [right; rewrite <- He; vm_compute; lia|]. by left.
  - right. cbn. lia.
Qed.

(** [canAppendJSONRawString] holds exactly for the texts a JSON string holds as
    they are. *)
Lemma raw_runes_verbatim s : forallb raw_rune (runes s) = true <-> concat_map escape_rune (runes s) = s.
Proof.
  assert (forall s, (String.length s <= String.length (concat_map escape_rune (runes s)))%nat) as Hlen.
  { clear. intros s. induction s as [|s x r t Hs IH] using runes_ind; [cbn; lia|].
    rewrite (runes_starts _ _ _ _ Hs), concat_map_cons, string_length_app.
    pose proof (escape_rune_grows _ _ _ _ Hs) as [H|H]; destruct (starts_split _ _ _ _ Hs) as [-> _];
      rewrite string_length_app; [rewrite H|]; lia. }
  induction s as [|s x r t Hs IH] using runes_ind; [done|].
  rewrite (runes_starts _ _ _ _ Hs), concat_map_cons. cbn [forallb]. rewrite andb_true_iff, IH.
  destruct (starts_split _ _ _ _ Hs) as [-> _]. unfold raw_rune. cbn [fst]. rewrite String.eqb_eq.
  pose proof (escape_rune_grows _ _ _ _ Hs) as [H|H].
  - rewrite H. split; [by intros [_ ->]|]. intros E. split; [done|]. by apply (sapp_inj x).
  - split; [intros [E _]; rewrite E in H; lia|]. intros E. apply (f_equal String.length) in E.
    rewrite !string_length_app in E. pose proof (Hlen t). lia.
Qed.

Lemma escaped_spec c : byte_of c < 128 ->
  let b := byte_of c in
  escape_rune (String c "", b) =
    if (32 <=? b) && negb (b =? 92) && negb (b =? 34) && negb (b =? 60) && negb (b =? 62) && negb (b =? 38)
    then String c "" else escaped c.
Proof. intros H. ascii_cases c; try (exfalso; by vm_compute in H); by vm_compute. Qed.

Lemma copy_run_spec dst run : copy_run dst run = dst +:+ run.
Proof. unfold copy_run. destruct run; [by rewrite sapp_nil_r|done]. Qed.

Lemma escape_scan_spec fuel dst run s : (String.length s <= fuel)%nat ->
  escape_scan fuel dst run s =
    if forallb decodes (runes s) then Some (dst +:+ run +:+ concat_map escape_rune (runes s)) else None.
Proof.
  revert dst run s. induction fuel as [|fuel IH]; intros dst run s Hf.
  { destruct s; [|cbn in Hf; lia]. cbn. by rewrite copy_run_spec, sapp_nil_r. }
  destruct s as [|c s]; [cbn; by rewrite copy_run_spec, sapp_nil_r|]. cbn [escape_scan].
  destruct (DecodeRune_starts c s) as (x & r & t & Hs).
  pose proof (starts_split _ _ _ _ Hs) as [E Hlen].
  rewrite (runes_starts _ _ _ _ Hs), (starts_decode _ _ _ _ Hs). rewrite concat_map_cons.
  change (forallb decodes ((x, r) :: runes t)) with (negb (is_bad (r, String.length x)) && forallb decodes (runes t)).
  replace (drop_bytes (String.length x) (String c s)) with t by (rewrite E; symmetry; apply drop_bytes_app).
  replace (take_bytes (String.length x) (String c s)) with x by (rewrite E; symmetry; apply take_bytes_app).
  assert (Hf' : (String.length t <= fuel)%nat).
  { pose proof (f_equal String.length E) as El. rewrite string_length_app in El. cbn in El, Hf. lia. }
  rewrite !copy_run_spec.
  destruct (starts_cases _ _ _ _ _ Hs) as [(Hc & -> & -> & ->)|[(Hc & Hr)|(Hc & -> & -> & ->)]].
  - rewrite (proj2 (Z.ltb_lt _ RuneSelf)) by done. rewrite !IH, escaped_spec by done.
    replace (is_bad _) with false by (symmetry; unfold is_bad; cbn [fst snd]; rewrite andb_false_iff, Z.eqb_neq; unfold RuneError; lia).
    cbn [negb andb]. destruct (forallb decodes (runes s)); [|by destruct (_ && negb (byte_of c =? 38))].
    destruct (_ && negb (byte_of c =? 38)); by rewrite ?sapp_assoc.
  - rewrite (proj2 (Z.ltb_ge _ RuneSelf)) by done. rewrite rune_not_bad by done.
    pose proof (rune_not_bad x r Hr) as Hb. unfold is_bad in Hb. cbn [fst snd] in Hb. rewrite Hb. cbn [negb andb].
    unfold escape_rune at 1. cbn [fst snd]. rewrite rune_not_bad by done.
    rewrite (proj2 (Z.ltb_ge r RuneSelf)) by apply Hr.
    destruct (Z.eqb_spec r 8232), (Z.eqb_spec r 8233); cbn [orb];
      rewrite IH by done; destruct (forallb decodes (runes t)); by rewrite ?sapp_assoc.
  - by rewrite (proj2 (Z.ltb_ge _ RuneSelf)).
Qed.

Lemma appendJSONBytes_quoted dst value : appendJSONBytes dst value = inl (dst +:+ quoted value).
Proof.
  unfold appendJSONBytes, canAppendJSONRawString. rewrite raw_scan_spec by done.
  destruct (forallb raw_rune (runes value)) eqn:Hraw.
  - apply raw_runes_verbatim in Hraw. unfold quoted. rewrite Hraw. done.
  - rewrite escape_scan_spec by done. destruct (forallb decodes (runes value)); cbn; [|done].
    by rewrite !sapp_assoc.
Qed.

(** Evaluates the constant texts of a printed value. *)
Ltac constant_texts :=
  repeat match goal with
  | |- context [quoted ?s] =>
      match s with String _ _ => idtac | EmptyString => idtac end;
      let v := eval vm_compute in (quoted s) in change (quoted s) with v
  | |- context [lit ?s] => let v := eval vm_compute in (lit s) in change (lit s) with v
  end.

Lemma encode_object members : encode (JObject members) = "{" +:+ String.concat "," (map print_member members) +:+ "}".
Proof. done. Qed.

Ltac print_json :=
  cbn [event_json event_name encode String.concat map fst snd jint];
  cbn [fst snd]; constant_texts; rewrite ?sapp_assoc; cbn [String.app]; rewrite ?sapp_cons, ?sapp_assoc; cbn [String.app].

Lemma payload_json dst e : payload dst e = inl (dst +:+ encode (event_json e)).
Proof.
  destruct e as [id model input output|index [|sg|id name]|index [t|t|j]|index|reason output| |code message];
    cbn [payload];
    unfold appendSSEMessageStart, appendSSEContentBlockStartText, appendSSEContentBlockStartThinking,
      appendSSEContentBlockStartToolUse, appendSSEContentBlockDeltaText, appendSSEContentBlockDeltaThinking,
      appendSSEContentBlockDeltaInputJSON, appendSSEContentBlockStop, appendSSEMessageDelta, appendAnthropicError,
      AppendInt; rewrite ?appendJSONBytes_quoted; cbn [and_then]; rewrite ?appendJSONBytes_quoted; cbn [and_then];
    rewrite ?sapp_assoc; do 2 f_equal; print_json; reflexivity.
Qed.

Lemma openai_error_encoded code message :
  marshalOpenAIErrorBytes code message = inl (encode (openai_error_json code message)).
Proof.
  unfold marshalOpenAIErrorBytes, appendOpenAIError. rewrite appendJSONBytes_quoted. cbn [and_then].
  rewrite appendJSONBytes_quoted. cbn [and_then]. rewrite appendJSONBytes_quoted. cbn [and_then].
  rewrite ?sapp_assoc. f_equal. unfold openai_error_json. print_json. reflexivity.
Qed.

(** * The payload reads back as its event *)

Lemma event_numbers e : numbers_ok (event_json e) = true.
Proof.
  destruct e as [id model input output|index [|sg|id name]|index [t|t|j]|index|reason output| |code message];
    cbn [event_json numbers_ok forallb snd jint]; by rewrite ?isValidNumber_Itoa.
Qed.

Ltac constant_valid :=
  repeat match goal with
  | |- context [ToValid ?s] =>
      match s with String _ _ => idtac | EmptyString => idtac end;
      let v := eval vm_compute in (ToValid s) in change (ToValid s) with v
  end.

Lemma read_int_Itoa n : read_int (Itoa n) = Some n.
Proof.
  assert (forall x : N, read_int (pretty x) = Some (Z.of_N x)) as Hn.
  { intros x. destruct (pretty_N_head x) as (d & t & E & Hd & Hp). rewrite E in *. rewrite <- Hp.
    clear E Hp. digit_cases d. }
  destruct n as [|p|p]; [done|apply (Hn (N.pos p))|].
  change (read_int (String "-" (pretty (N.pos p))) = Some (Z.neg p)). cbn [read_int].
  by destruct (pretty_N_head (N.pos p)) as (d & t & _ & _ & ->).
Qed.

Lemma read_payload e :
  read_event (event_name e) (encode (event_json e)) = Some (received e).
Proof.
  unfold read_event. rewrite (parse_encode _ (event_numbers e)).
  destruct e as [id model input output|index [|sg|id name]|index [t|t|j]|index|reason output| |code message];
    cbn [event_json as_read map fst snd jint event_name received]; constant_valid;
    unfold text_field, int_field, read_block, read_delta, text_field; cbn; rewrite ?read_int_Itoa; done.
Qed.

(** * No payload breaks its line *)

Definition one_line (s : string) : bool := forallb (fun b => negb ((b =? 10) || (b =? 13))) (bytes_of s).

Lemma one_line_app a b : one_line (a +:+ b) = one_line a && one_line b.
Proof.
  unfold one_line, bytes_of. induction a as [|c a IH]; [done|]. rewrite sapp_cons. cbn. rewrite IH. apply andb_assoc.
Qed.

Lemma one_line_wide x : Forall (fun c => 128 <= byte_of c) (String.list_ascii_of_string x) -> one_line x = true.
Proof.
  induction x as [|c x IH]; [done|]. cbn [String.list_ascii_of_string]. rewrite list.Forall_cons. intros [Hc Hx].
  unfold one_line, bytes_of in *. cbn [String.list_ascii_of_string map forallb]. rewrite IH by done.
  rewrite !(proj2 (Z.eqb_neq (byte_of c) _)) by lia. done.
Qed.

Lemma one_line_no_space s : no_space s = true -> one_line s = true.
Proof.
  induction s as [|c s IH]; [done|]. cbn [no_space]. intros [Hc Hs]%andb_true_iff.
  unfold one_line, bytes_of in *. cbn [String.list_ascii_of_string map forallb]. rewrite IH by done.
  rewrite andb_true_r. revert Hc. clear. ascii_cases c; by vm_compute.
Qed.

Lemma one_line_quoted s : one_line (quoted s) = true.
Proof.
  unfold quoted. rewrite sapp_cons. change (String quote ?x) with (String quote "" +:+ x).
  rewrite !one_line_app. change (one_line (String quote "")) with true.
  change (one_line (String quote "" +:+ "")) with true. rewrite andb_true_r. cbn [andb].
  induction s as [|s x r t Hs IH] using runes_ind; [done|].
  rewrite (runes_starts _ _ _ _ Hs), concat_map_cons, one_line_app, IH, andb_true_r.
  destruct Hs as [c s H|x r s H|c s H E].
  - clear IH. ascii_cases c; try (exfalso; by vm_compute in H); by vm_compute.
  - unfold escape_rune. cbn [fst snd]. rewrite rune_not_bad by done. destruct H as [_ _ Hr Hb _].
    rewrite (proj2 (Z.ltb_ge r RuneSelf)) by done.
    destruct (r =? 8232); [done|]. destruct (r =? 8233); [done|]. by apply one_line_wide.
  - done.
Qed.

Fixpoint plain_numbers (v : json) : bool :=
  match v with
  | JNumber literal => one_line literal
  | JArray items => forallb plain_numbers items
  | JObject members => forallb (fun m => plain_numbers m.2) members
  | _ => true
  end.

Lemma one_line_concat l : forallb one_line l = true -> one_line (String.concat "," l) = true.
Proof.
  induction l as [|a l IH]; [done|]. cbn [forallb]. intros [Ha Hl]%andb_true_iff. specialize (IH Hl).
  destruct l as [|b l]; [done|]. rewrite concat_cons, !one_line_app, Ha, IH. done.
Qed.

Lemma one_line_encode v : plain_numbers v = true -> one_line (encode v) = true.
Proof.
  induction v as [|b|l|s|items IH|members IH] using json_nested_ind; intros H; [done|by destruct b|done| | |].
  - apply one_line_quoted.
  - cbn [encode plain_numbers] in *. rewrite !one_line_app. rewrite one_line_concat; [done|].
    rewrite forallb_forall in *. intros x Hx. apply in_map_iff in Hx as (y & <- & Hy).
    rewrite List.Forall_forall in IH. by apply IH, H.
  - cbn [encode plain_numbers] in *. rewrite !one_line_app. rewrite one_line_concat; [done|].
    rewrite forallb_forall in *. intros x Hx. apply in_map_iff in Hx as (y & <- & Hy).
    rewrite List.Forall_forall in IH. rewrite !one_line_app, one_line_quoted. by apply IH, H.
Qed.

Lemma payload_one_line e : one_line (encode (event_json e)) = true.
Proof.
  apply one_line_encode.
  assert (forall n, one_line (Itoa n) = true) as Hn by (intros n; apply one_line_no_space, Itoa_no_space).
  destruct e as [id model input output|index [|sg|id name]|index [t|t|j]|index|reason output| |code message];
    cbn [event_json plain_numbers forallb snd jint]; by rewrite ?Hn.
Qed.

(** [jsonRawChunkClean] of eight bytes read as one little-endian word tells
    exactly whether each of the bytes may stand in a JSON string as it is. *)
Theorem word_test_is_byte_test s (Hlen : (8 <= String.length s)%nat) :
  jsonRawChunkClean (load8LE s) = forallb clean_byte (bytes_of (take_bytes 8 s)).
Proof. apply jsonRawChunkClean_spec; [by rewrite bytes_of_length, take_bytes_length|apply bytes_of_range]. Qed.

Lemma word_test_is_byte_test_witness : jsonRawChunkClean (load8LE "answer & more") = false.
Proof. rewrite (word_test_is_byte_test "answer & more"); [vm_compute; reflexivity|cbn; lia]. Defined.

(** C34: [appendJSONBytes] appends what [json.Marshal] gives for the string, for every
    string of bytes, and never fails; [canAppendJSONRawString] holds exactly for the
    strings that [json.Marshal] copies between quotes. *)
Theorem appendJSONBytes_is_Marshal dst value :
  appendJSONBytes dst value = inl (dst +:+ quoted value)
  /\ (canAppendJSONRawString value = true <-> quoted value = String quote value +:+ String quote "").
Proof.
  split; [apply appendJSONBytes_quoted|]. unfold canAppendJSONRawString. rewrite raw_scan_spec, raw_runes_verbatim by done.
  unfold quoted. rewrite !sapp_cons. split; [by intros ->|]. intros [= E]. by apply (sapp_inj_r (String quote "")).
Qed.

(** the payload of every event is one line of JSON that a client reads back as
    the very event, its texts with U+FFFD in place of bytes that are not UTF-8. *)
Theorem payload_reads_back dst e :
  exists data, payload dst e = inl (dst +:+ data)
    /\ read_event (event_name e) data = Some (received e) /\ one_line data = true.
Proof.
  exists (encode (event_json e)). split; [apply payload_json|]. split; [apply read_payload|apply payload_one_line].
Qed.
