(* ===== verification/Tokens.v ===== *)
(** The token estimate of an answer ([tiktoken/tokenizer.go]): a counting machine
    over the bytes of the fragments an answer arrives in. Its count does not depend
    on how the answer was cut into fragments. *)

From Corelib Require Import SpecFloat.
From Stdlib Require Import Ascii.
From S2P Require Import Prelude GoFloat Json.

(** [math.Round]: half away from zero. *)
Definition f64_round (x : float64) : float64 :=
  match x with
  | S754_finite neg m e =>
      if 0 <=? e then x
      else
        let n := (Z.pos m + 2 ^ (- e - 1)) / 2 ^ (- e) in
        if n =? 0 then S754_zero neg else f64_of_int (if neg then - n else n)
  | _ => x
  end.

Inductive byte_class := classWord | classSpace | classPunct | classNonASCII.

Definition asciiClass (b : Z) : byte_class :=
  if RuneSelf <=? b then classNonASCII
  else if between 97 b 122 || between 65 b 90 || between 48 b 57 then classWord
  else if (b =? 32) || (b =? 9) || (b =? 10) || (b =? 13) then classSpace
  else classPunct.

Record Estimator := { tokens : float64; inWord : bool }.

Definition one : float64 := f64_of_int 1.
Definition three_halves : float64 := f64_div (f64_of_int 3) (f64_of_int 2).

(** [e.tokens++] and [e.inWord = false] where a word run is open. *)
Definition close_word (e : Estimator) : Estimator :=
  if inWord e then {| tokens := f64_add (tokens e) one; inWord := false |} else e.

Definition add_tokens (e : Estimator) (n : float64) : Estimator :=
  {| tokens := f64_add (tokens e) n; inWord := inWord e |}.

(** The inner loop of the word class. *)
Fixpoint skip_word (s : string) : string :=
  match s with
  | String c rest => match asciiClass (byte_of c) with classWord => skip_word rest | _ => s end
  | EmptyString => s
  end.

(** The loop of [Add], on the text from [i] on. *)
Fixpoint add_loop (fuel : nat) (e : Estimator) (s : string) : Estimator :=
  match fuel, s with
  | S fuel, String c rest =>
      match asciiClass (byte_of c) with
      | classWord => add_loop fuel {| tokens := tokens e; inWord := true |} (skip_word rest)
      | classSpace => add_loop fuel (close_word e) rest
      | classPunct => add_loop fuel (add_tokens (close_word e) one) rest
      | classNonASCII =>
          let '(_, size) := DecodeRune s in
          add_loop fuel (add_tokens (close_word e) three_halves) (drop_bytes size s)
      end
  | _, _ => e
  end.

Definition Estimator_Add (e : Estimator) (text : string) : Estimator := add_loop (String.length text) e text.

Definition Estimator_Count (e : Estimator) : Z :=
  let n := if inWord e then f64_add (tokens e) one else tokens e in
  f64_to_int64 (f64_round n).

Definition Estimator_Reset : Estimator := {| tokens := f64_zero; inWord := false |}.

Definition EstimateTextTokens (text : string) : Z :=
  if is_empty text then 0 else Estimator_Count (Estimator_Add Estimator_Reset text).

Example estimate_demo : EstimateTextTokens "Hello, world 42!" = 5.
Proof. vm_compute. reflexivity. Qed.

(** * One step per rune *)

Definition rune_step (e : Estimator) (x : string * Z) : Estimator :=
  match asciiClass x.2 with
  | classWord => {| tokens := tokens e; inWord := true |}
  | classSpace => close_word e
  | classPunct => add_tokens (close_word e) one
  | classNonASCII => add_tokens (close_word e) three_halves
  end.

Lemma asciiClass_wide b : 128 <= b -> asciiClass b = classNonASCII.
Proof. intros H. unfold asciiClass, RuneSelf. by rewrite (proj2 (Z.leb_le 128 b)). Qed.

Lemma asciiClass_starts c s x r t : starts (String c s) x r t -> asciiClass r = asciiClass (byte_of c).
Proof.
  intros H. destruct (starts_cases _ _ _ _ _ H) as [(_ & _ & -> & _)|[(Hc & Hr)|(Hc & _ & -> & _)]]; [done| |].
  - rewrite !asciiClass_wide; [done..|apply Hr].
  - by rewrite !asciiClass_wide.
Qed.

Lemma skip_word_steps s : forall e,
  inWord e = true -> fold_left rune_step (runes s) e = fold_left rune_step (runes (skip_word s)) e.
Proof.
  induction s as [|c s IH]; intros e He; [done|]. cbn [skip_word].
  destruct (asciiClass (byte_of c)) eqn:Hc; try done.
  assert (Hs : starts (String c s) (String c "") (byte_of c) s).
  { constructor. destruct (Z.ltb_spec (byte_of c) 128); [done|]. by rewrite asciiClass_wide in Hc. }
  rewrite (runes_starts _ _ _ _ Hs). cbn [fold_left]. unfold rune_step at 2. cbn [snd]. rewrite Hc.
  rewrite <- IH by done. f_equal. destruct e as [n []]; [done|done].
Qed.

Lemma skip_word_length s : (String.length (skip_word s) <= String.length s)%nat.
Proof. induction s as [|c s IH]; cbn; [lia|]. destruct (asciiClass _); cbn; lia. Qed.

Lemma add_loop_steps fuel e s : (String.length s <= fuel)%nat ->
  add_loop fuel e s = fold_left rune_step (runes s) e.
Proof.
  revert e s. induction fuel as [|fuel IH]; intros e s Hf.
  { destruct s; [done|cbn in Hf; lia]. }
  destruct s as [|c s]; [done|]. cbn [add_loop].
  destruct (DecodeRune_starts c s) as (x & r & t & Hs).
  pose proof (starts_split _ _ _ _ Hs) as [E Hlen].
  rewrite (runes_starts _ _ _ _ Hs), (starts_decode _ _ _ _ Hs). cbn [fold_left].
  unfold rune_step at 2. cbn [snd]. rewrite (asciiClass_starts _ _ _ _ _ Hs).
  assert (Hlt : asciiClass (byte_of c) <> classNonASCII -> t = s).
  { destruct (starts_cases _ _ _ _ _ Hs) as [(_ & _ & _ & ->)|[(Hc & Hr)|(Hc & _ & -> & ->)]]; [done| |done].
    by rewrite asciiClass_wide. }
  assert (Hf' : (String.length t <= fuel)%nat).
  { pose proof (f_equal String.length E) as El. rewrite string_length_app in El. cbn in El, Hf. lia. }
  destruct (asciiClass (byte_of c)).
  - rewrite Hlt in * by done. rewrite IH by (pose proof (skip_word_length s); lia). by rewrite <- skip_word_steps.
  - rewrite Hlt in * by done. by apply IH.
  - rewrite Hlt in * by done. by apply IH.
  - replace (drop_bytes (String.length x) (String c s)) with t by (rewrite E; symmetry; apply drop_bytes_app).
    by apply IH.
Qed.

Lemma Add_steps e s : Estimator_Add e s = fold_left rune_step (runes s) e.
Proof. by apply add_loop_steps. Qed.

(** the estimate of an answer does not depend on how it was cut into
    fragments: adding them one by one, each of whole runes, counts what adding
    the whole text counts. *)
Theorem estimate_ignores_fragments e fragments
    (Hvalid : forallb valid_utf8 fragments = true) :
  fold_left Estimator_Add fragments e = Estimator_Add e (concat_map id fragments).
Proof.
  revert e. induction fragments as [|a fragments IH]; intros e; [done|].
  cbn [forallb] in Hvalid. apply andb_true_iff in Hvalid as [Ha Hrest].
  cbn [fold_left]. rewrite IH, concat_map_cons by done. unfold id at 2.
  by rewrite !Add_steps, runes_app, fold_left_app by done.
Qed.

Lemma estimate_ignores_fragments_witness :
  fold_left Estimator_Add ["Hel"; "lo, w"; EncodeRune 233; "rld 4"; "2!"] Estimator_Reset
  = Estimator_Add Estimator_Reset ("Hello, w" +:+ EncodeRune 233 +:+ "rld 42!").
Proof. apply (estimate_ignores_fragments Estimator_Reset ["Hel"; "lo, w"; EncodeRune 233; "rld 4"; "2!"]). vm_compute. reflexivity. Defined.
