(* ===== verification/OpenAISSE.v ===== *)
(** The OpenAI view of the streaming answer ([adapter/openai_sse.go]): the chunk a
    chat-completions client gets for an event of the relay. The fast path copies
    string literals out of the event's payload by marker; the slow one decodes the
    payload. *)

From Stdlib Require Import Ascii.
From S2P Require Import Prelude Json SseFrame.

(** * Literals by marker *)

(** What follows the opening quote, up to the closing one. *)
Fixpoint literal_end (escaped : bool) (s : string) : option string :=
  match s with
  | EmptyString => None
  | String c rest =>
      if escaped then String c <$> literal_end false rest
      else if byte_of c =? 92 then String c <$> literal_end true rest
      else if byte_of c =? 34 then Some (String c "")
      else String c <$> literal_end false rest
  end.

Definition literal_at (s : string) : option string :=
  match skip_space s with
  | String c rest => if byte_of c =? 34 then String c <$> literal_end false rest else None
  | EmptyString => None
  end.

Definition extractJSONStringValueAfter (data marker : string) : option string :=
  idx ← Index data marker; literal_at (drop_bytes (idx + String.length marker) data).

Definition openAIModelMarker : string := lit "'model':".
Definition openAIToolUseTypeMarker : string := lit "'type':'tool_use'".
Definition openAITextContentTypeMarker : string := lit "'type':'text'".
Definition openAITextDeltaMarker : string := lit "'type':'text_delta'".
Definition openAIInputJSONMarker : string := lit "'type':'input_json_delta'".
Definition openAIThinkingDeltaMarker : string := lit "'type':'thinking_delta'".
Definition openAIStopReasonMarker : string := lit "'stop_reason':".
Definition openAITextMarker : string := lit "'text':".
Definition openAIPartialJSONMarker : string := lit "'partial_json':".
Definition openAIThinkingMarker : string := lit "'thinking':".
Definition openAIIDMarker : string := lit "'id':".
Definition openAINameMarker : string := lit "'name':".

Definition normalizeOpenAIStopReasonQuoted (quoted_reason : string) : string :=
  if is_empty quoted_reason || String.eqb quoted_reason (lit "''") || String.eqb quoted_reason (lit "'stop'")
     || String.eqb quoted_reason (lit "'end_turn'") then lit "'stop'"
  else if String.eqb quoted_reason (lit "'tool_use'") then lit "'tool_calls'"
  else if String.eqb quoted_reason (lit "'max_tokens'") then lit "'length'"
  else if String.eqb quoted_reason (lit "'refusal'") then lit "'content_filter'"
  else quoted_reason.

Definition normalizeOpenAIStopReason (reason : string) : string :=
  let r := TrimSpace reason in
  if is_empty r || String.eqb r "stop" || String.eqb r "end_turn" then "stop"
  else if String.eqb r "tool_use" then "tool_calls"
  else if String.eqb r "max_tokens" then "length"
  else if String.eqb r "refusal" then "content_filter"
  else r.

(** * The fast path *)

(** Bytes [appendOpenAIJSONString] copies as they are. *)
Definition openai_raw (b : Z) : bool := negb ((b <? 32) || (b =? 92) || (b =? 34) || (RuneSelf <=? b)).

Definition appendOpenAIJSONString (dst value : string) : string :=
  if forallb openai_raw (bytes_of value) then dst +:+ String quote value +:+ String quote ""
  else dst +:+ quoted value.

Definition appendOpenAIChunkPrefix (dst msgID : string) (created : Z) (quotedModel : string) : string :=
  let dst := dst +:+ lit "{'id':" in
  let dst := appendOpenAIJSONString dst msgID in
  let dst := dst +:+ lit ",'object':'chat.completion.chunk','created':" in
  let dst := AppendInt dst created in
  let dst := dst +:+ lit ",'model':" in
  let dst := dst +:+ (if is_empty quotedModel then lit "''" else quotedModel) in
  dst +:+ lit ",'choices':[{'index':0,".

Definition appendOpenAIChunkMessageStart (dst msgID : string) (created : Z) (quotedModel : string) : string :=
  appendOpenAIChunkPrefix dst msgID created quotedModel +:+ lit "'delta':{'role':'assistant'}}]}".

Definition appendOpenAIChunkText (dst msgID : string) (created : Z) (quotedText : string) : string :=
  appendOpenAIChunkPrefix dst msgID created "" +:+ lit "'delta':{'content':" +:+ quotedText +:+ "}}]}".

Definition appendOpenAIChunkThinking (dst msgID : string) (created : Z) (quotedThinking : string) : string :=
  appendOpenAIChunkPrefix dst msgID created "" +:+ lit "'delta':{'reasoning_content':" +:+ quotedThinking +:+ "}}]}".

Definition appendOpenAIChunkToolArgs (dst msgID : string) (created index : Z) (quotedArgs : string) : string :=
  AppendInt (appendOpenAIChunkPrefix dst msgID created "" +:+ lit "'delta':{'tool_calls':[{'index':") index
    +:+ lit ",'function':{'arguments':" +:+ quotedArgs +:+ "}}]}}]}".

Definition appendOpenAIChunkToolStart (dst msgID : string) (created index : Z) (quotedID quotedName : string) : string :=
  AppendInt (appendOpenAIChunkPrefix dst msgID created "" +:+ lit "'delta':{'tool_calls':[{'index':") index
    +:+ lit ",'id':" +:+ quotedID
    +:+ lit ",'type':'function','function':{'name':" +:+ quotedName
    +:+ lit ",'arguments':''}}]}}]}".

Definition appendOpenAIChunkMessageDelta (dst msgID : string) (created : Z) (quotedStopReason : string) : string :=
  appendOpenAIChunkPrefix dst msgID created "" +:+ lit "'delta':{},'finish_reason':" +:+ quotedStopReason +:+ "}]}".

(** * Decoding a payload into the structs of the adapter

    [encoding/json] matches a member to a field whatever the case of its letters,
    takes the members in order and leaves a field alone on [null]. *)

Definition fold_rune (x : string * Z) : string :=
  if between 97 x.2 122 then String (byte_char (x.2 - 32)) ""
  else if x.2 =? 383 then "S" else if x.2 =? 8490 then "K" else x.1.

Definition fold_name (s : string) : string := concat_map fold_rune (runes s).
Definition names (field key : string) : bool := String.eqb (fold_name field) (fold_name key).

Definition decode_struct {S} (f : string -> json -> S -> option S) (v : json) (s : S) : option S :=
  match v with
  | JObject members => foldl (fun acc m => acc ← acc; f m.1 m.2 acc) (Some s) members
  | JNull => Some s
  | _ => None
  end.

Definition decode_text (v : json) (old : string) : option string :=
  match v with JString s => Some s | JNull => Some old | _ => None end.

Definition decode_text_ptr (v : json) : option (option string) :=
  match v with JString s => Some (Some s) | JNull => Some None | _ => None end.

Definition decode_int (v : json) (old : Z) : option Z :=
  match v with JNumber s => ParseInt s | JNull => Some old | _ => None end.

(** A pointer to a struct: [null] clears it, an object fills what is there. *)
Definition decode_ptr {S} (zero : S) (f : string -> json -> S -> option S) (v : json) (old : option S)
    : option (option S) :=
  match v with JNull => Some None | _ => Some <$> decode_struct f v (default zero old) end.

Definition index_field (key : string) (v : json) (index : Z) : option Z :=
  if names "index" key then decode_int v index else Some index.

Definition openAIToolIndex (data : string) : option Z :=
  v ← parse data; index ← decode_struct index_field v 0;
  if index <? 0 then None else Some index.

Definition openAIMessageStartPayload (data : string) : option (option string) :=
  v ← parse data;
  decode_struct (fun key v message =>
    if names "message" key
    then decode_ptr "" (fun key v model => if names "model" key then decode_text v model else Some model) v message
    else Some message) v None.

Record openai_block := { ob_type : string; ob_text : string; ob_id : string; ob_name : string }.

#[export] Instance eta_openai_block : Eta openai_block := fun b => Build_openai_block (ob_type b) (ob_text b) (ob_id b) (ob_name b).

Definition block_field (key : string) (v : json) (b : openai_block) : option openai_block :=
  if names "type" key then t ← decode_text v (ob_type b); Some (b <| ob_type := t |>)
  else if names "text" key then t ← decode_text v (ob_text b); Some (b <| ob_text := t |>)
  else if names "id" key then t ← decode_text v (ob_id b); Some (b <| ob_id := t |>)
  else if names "name" key then t ← decode_text v (ob_name b); Some (b <| ob_name := t |>)
  else Some b.

Definition openAIContentBlockStartPayload (data : string) : option (Z * option openai_block) :=
  v ← parse data;
  decode_struct (fun key v p =>
    if names "index" key then index ← decode_int v p.1; Some (index, p.2)
    else if names "content_block" key
    then b ← decode_ptr {| ob_type := ""; ob_text := ""; ob_id := ""; ob_name := "" |} block_field v p.2; Some (p.1, b)
    else Some p) v (0, None).

Record openai_delta := {
  od_type : string; od_text : option string; od_json : option string; od_thinking : option string
}.

#[export] Instance eta_openai_delta : Eta openai_delta := fun d => Build_openai_delta (od_type d) (od_text d) (od_json d) (od_thinking d).

Definition delta_field (key : string) (v : json) (d : openai_delta) : option openai_delta :=
  if names "type" key then t ← decode_text v (od_type d); Some (d <| od_type := t |>)
  else if names "text" key then t ← decode_text_ptr v; Some (d <| od_text := t |>)
  else if names "partial_json" key then t ← decode_text_ptr v; Some (d <| od_json := t |>)
  else if names "thinking" key then t ← decode_text_ptr v; Some (d <| od_thinking := t |>)
  else Some d.

Definition openAIContentBlockDeltaPayload (data : string) : option (Z * option openai_delta) :=
  v ← parse data;
  decode_struct (fun key v p =>
    if names "index" key then index ← decode_int v p.1; Some (index, p.2)
    else if names "delta" key
    then d ← decode_ptr {| od_type := ""; od_text := None; od_json := None; od_thinking := None |} delta_field v p.2;
         Some (p.1, d)
    else Some p) v (0, None).

Definition openAIMessageDeltaPayload (data : string) : option (option (option string)) :=
  v ← parse data;
  decode_struct (fun key v d =>
    if names "delta" key
    then decode_ptr None (fun key v reason => if names "stop_reason" key then decode_text_ptr v else Some reason) v d
    else Some d) v None.

(** * The chunk *)

Inductive tool_delta := ToolStart (index : Z) (id name : string) | ToolArgs (index : Z) (arguments : string).

(** What an [openAIDelta] says; the adapter sets one of its fields at most. *)
Inductive chunk_delta :=
| NoDelta | RoleDelta | ContentDelta (text : string) | ReasoningDelta (text : string) | ToolDelta (t : tool_delta).

Definition omit_empty (name : string) (s : string) : list (string * json) :=
  if is_empty s then [] else [(name, JString s)].

Definition tool_json (t : tool_delta) : json :=
  match t with
  | ToolStart index id name =>
      JObject ([("index", jint index)] ++ omit_empty "id" id
        ++ [("type", JString "function");
            ("function", JObject [("name", JString name); ("arguments", JString "")])])
  | ToolArgs index arguments =>
      JObject [("index", jint index); ("function", JObject [("arguments", JString arguments)])]
  end.

Definition delta_json (d : chunk_delta) : json :=
  match d with
  | NoDelta => JObject []
  | RoleDelta => JObject [("role", JString "assistant")]
  | ContentDelta text => JObject [("content", JString text)]
  | ReasoningDelta text => JObject [("reasoning_content", JString text)]
  | ToolDelta t => JObject [("tool_calls", JArray [tool_json t])]
  end.

(** [json.Marshal] of an [openAIChunk]. *)
Definition chunk_json (msgID : string) (created : Z) (model : string) (d : chunk_delta) (finish : option string) : json :=
  JObject [("id", JString msgID); ("object", JString "chat.completion.chunk"); ("created", jint created);
           ("model", JString model);
           ("choices", JArray [JObject ([("index", jint 0); ("delta", delta_json d)]
              ++ match finish with Some reason => [("finish_reason", JString reason)] | None => [] end)])].

Definition appendOpenAIChunkFast (dst msgID : string) (created : Z) (event data : string) : option string :=
  if String.eqb event "message_start" then
    appendOpenAIChunkMessageStart dst msgID created <$> extractJSONStringValueAfter data openAIModelMarker
  else if String.eqb event "content_block_start" then
    let text :=
      if contains data openAITextContentTypeMarker then
        match extractJSONStringValueAfter data openAITextMarker with
        | Some quotedText =>
            if (2 <? String.length quotedText)%nat then Some (appendOpenAIChunkText dst msgID created quotedText) else None
        | None => None
        end
      else None in
    if contains data openAIToolUseTypeMarker then
      match extractJSONStringValueAfter data openAIIDMarker, extractJSONStringValueAfter data openAINameMarker with
      | Some quotedID, Some quotedName =>
          index ← openAIToolIndex data; Some (appendOpenAIChunkToolStart dst msgID created index quotedID quotedName)
      | _, _ => text
      end
    else text
  else if String.eqb event "content_block_delta" then
    if contains data openAITextDeltaMarker then
      appendOpenAIChunkText dst msgID created <$> extractJSONStringValueAfter data openAITextMarker
    else if contains data openAIInputJSONMarker then
      quotedArgs ← extractJSONStringValueAfter data openAIPartialJSONMarker;
      index ← openAIToolIndex data; Some (appendOpenAIChunkToolArgs dst msgID created index quotedArgs)
    else if contains data openAIThinkingDeltaMarker then
      appendOpenAIChunkThinking dst msgID created <$> extractJSONStringValueAfter data openAIThinkingMarker
    else None
  else if String.eqb event "message_delta" then
    quotedStopReason ← extractJSONStringValueAfter data openAIStopReasonMarker;
    Some (appendOpenAIChunkMessageDelta dst msgID created (normalizeOpenAIStopReasonQuoted quotedStopReason))
  else None.

(** [buildOpenAIChunkSlow]. *)
Definition slow_chunk (event data : string) : option (string * chunk_delta * option string) :=
  if String.eqb event "message_start" then
    message ← openAIMessageStartPayload data; model ← message; Some (model, RoleDelta, None)
  else if String.eqb event "content_block_start" then
    '(index, block) ← openAIContentBlockStartPayload data; block ← block;
    if index <? 0 then None
    else if String.eqb (ob_type block) "text" then
      Some ("", if is_empty (ob_text block) then NoDelta else ContentDelta (ob_text block), None)
    else if String.eqb (ob_type block) "tool_use" then
      Some ("", ToolDelta (ToolStart index (ob_id block) (ob_name block)), None)
    else None
  else if String.eqb event "content_block_delta" then
    '(index, delta) ← openAIContentBlockDeltaPayload data; delta ← delta;
    if index <? 0 then None
    else if String.eqb (od_type delta) "text_delta" then text ← od_text delta; Some ("", ContentDelta text, None)
    else if String.eqb (od_type delta) "input_json_delta" then
      json ← od_json delta; Some ("", ToolDelta (ToolArgs index json), None)
    else if String.eqb (od_type delta) "thinking_delta" then
      thinking ← od_thinking delta; Some ("", ReasoningDelta thinking, None)
    else None
  else if String.eqb event "message_delta" then
    delta ← openAIMessageDeltaPayload data; reason ← delta; reason ← reason;
    Some ("", NoDelta, Some (normalizeOpenAIStopReason reason))
  else None.

Definition buildOpenAIChunkSlow (msgID : string) (created : Z) (event data : string) : option string :=
  '(model, delta, finish) ← slow_chunk event data;
  match delta, finish with
  | NoDelta, None => None
  | _, _ => Some (encode (chunk_json msgID created model delta finish))
  end.

Definition AppendOpenAIChunk (dst msgID : string) (created : Z) (event data : string) : option string :=
  match appendOpenAIChunkFast dst msgID created event data with
  | Some raw => Some raw
  | None => raw ← buildOpenAIChunkSlow msgID created event data; Some (dst +:+ raw)
  end.

Example chunk_demo :
  AppendOpenAIChunk "" "chatcmpl-1" 7 "content_block_delta"
    (encode (event_json (BlockDelta 2 (DeltaText (lit "say 'text':'no'")))))
  = Some (encode (chunk_json "chatcmpl-1" 7 "" (ContentDelta (lit "say 'text':'no'")) None)).
Proof. vm_compute. reflexivity. Qed.
