(* ===== verification/OpenAISSECorrect.v ===== *)
(** The OpenAI chunk of every event of the relay is the marshalled struct, whatever
    the text, the tool arguments or the identifiers of the event hold: no marker can
    be forged from inside a JSON string. *)

From Stdlib Require Import Ascii.
From S2P Require Import Prelude Json SseFrame SseFrameCorrect OpenAISSE.

(** * Searching for a marker *)

(** The text from the first occurrence of [m] on. *)
Fixpoint find (m s : string) : option string :=
  if HasPrefix s m then Some s
  else match s with String _ rest => find m rest | EmptyString => None end.

Lemma contains_find m s : contains s m = match find m s with Some _ => true | None => false end.
Proof.
  induction s as [|c s IH]; cbn [contains find]; destruct (HasPrefix _ m); try done.
Qed.

Lemma Index_find m s :
  match Index s m with Some i => Some (drop_bytes i s) | None => None end = find m s.
Proof.
  induction s as [|c s IH]; cbn [Index find]; destruct (HasPrefix _ m); try done.
  rewrite <- IH. by destruct (Index s m).
Qed.

Lemma extract_find data m :
  extractJSONStringValueAfter data m = s ← find m data; literal_at (drop_bytes (String.length m) s).
Proof.
  unfold extractJSONStringValueAfter. rewrite <- Index_find. destruct (Index data m) as [i|]; [|done]. cbn.
  by rewrite drop_bytes_add.
Qed.

Definition no_quote (s : string) : bool := forallb (fun b => negb (b =? 34)) (bytes_of s).

(** The markers: a quoted key and a colon, and possibly more. *)
Definition marker (key more : string) : string := String quote (key +:+ String quote (String ":" more)).

(** A text with every quote behind a backslash. *)
Fixpoint guarded (before : bool) (s : string) : bool :=
  match s with
  | EmptyString => true
  | String c rest => (before || negb (byte_of c =? 34)) && guarded (byte_of c =? 92) rest
  end.

Definition plain_key (key : string) : bool :=
  negb (is_empty key) && forallb (fun b => 95 <=? b) (bytes_of key) && forallb (fun b => b <=? 122) (bytes_of key).

Lemma guarded_weaken b s : guarded false s = true -> guarded b s = true.
Proof. destruct s as [|c s]; [done|]. cbn. destruct b; [|done]. by intros [_ ?]%andb_true_iff. Qed.

Lemma guarded_wide b x t :
  Forall (fun c => 128 <= byte_of c) (String.list_ascii_of_string x) -> guarded false t = true ->
  guarded b (x +:+ t) = true.
Proof.
  revert b. induction x as [|c x IH]; intros b; [intros _; apply guarded_weaken|].
  cbn [String.list_ascii_of_string]. rewrite list.Forall_cons. intros [Hc Hx] Ht. rewrite sapp_cons. cbn [guarded].
  rewrite (proj2 (Z.eqb_neq _ 34)), orb_true_r by lia. by apply IH.
Qed.

Lemma guarded_escaped s : guarded false (concat_map escape_rune (runes s)) = true.
Proof.
  induction s as [|s x r t Hs IH] using runes_ind; [done|].
  rewrite (runes_starts _ _ _ _ Hs), concat_map_cons.
  destruct Hs as [c s H|x r s H|c s H E].
  - pose proof (guarded_weaken true _ IH) as IH'. revert IH IH'. generalize (concat_map escape_rune (runes s)).
    ascii_cases c; try (exfalso; by vm_compute in H); done.
  - unfold escape_rune at 1. cbn [fst snd]. rewrite rune_not_bad by done. destruct H as [_ _ Hr Hb _].
    rewrite (proj2 (Z.ltb_ge r RuneSelf)) by done.
    destruct (r =? 8232); [done|]. destruct (r =? 8233); [done|]. by apply guarded_wide.
  - done.
Qed.

Lemma HasPrefix_cons c s d p : HasPrefix (String c s) (String d p) = Ascii.eqb d c && HasPrefix s p.
Proof. done. Qed.

Lemma marker_mismatch key more w c rest :
  forallb (fun b => 95 <=? b) (bytes_of key) = true -> forallb (fun b => b <=? 122) (bytes_of key) = true ->
  guarded false w = true -> byte_of c <> 58 ->
  HasPrefix (w +:+ String quote (String c rest)) (key +:+ String quote (String ":" more)) = false.
Proof.
  intros Hlo Hhi Hw Hc. revert w Hw. induction key as [|k key IH]; intros w Hw.
  - destruct w as [|d w].
    + change ("" +:+ ?x) with x. rewrite !HasPrefix_cons, Ascii.eqb_refl. cbn [andb].
      rewrite (proj2 (Ascii.eqb_neq _ _)); [done|]. by intros <-.
    + cbn [guarded orb] in Hw. apply andb_true_iff in Hw as [Hd _]. apply negb_true_iff, Z.eqb_neq in Hd.
      change ("" +:+ ?x) with x. rewrite sapp_cons, HasPrefix_cons. rewrite (proj2 (Ascii.eqb_neq _ _)); [done|]. by intros <-.
  - unfold bytes_of in Hlo, Hhi. cbn [String.list_ascii_of_string map forallb] in Hlo, Hhi.
    apply andb_true_iff in Hlo as [Hk1 Hlo], Hhi as [Hk2 Hhi]. apply Z.leb_le in Hk1, Hk2. rewrite sapp_cons.
    destruct w as [|d w].
    + change ("" +:+ ?x) with x. rewrite HasPrefix_cons, (proj2 (Ascii.eqb_neq _ _)); [done|]. intros ->.
      vm_compute in Hk1. done.
    + rewrite sapp_cons, HasPrefix_cons. destruct (Ascii.eqb_spec k d) as [<-|]; [|done]. cbn [andb].
      apply IH; [done..|]. cbn [guarded] in Hw. apply andb_true_iff in Hw as [_ Hw].
      by rewrite (proj2 (Z.eqb_neq _ 92)) in Hw by lia.
Qed.

(** A marker does not match inside a string literal that something other than a
    colon follows. *)
Lemma find_body key more before w c rest :
  plain_key key = true -> guarded before w = true -> c = ","%char \/ c = "}"%char ->
  find (marker key more) (w +:+ String quote (String c rest)) = find (marker key more) (String c rest).
Proof.
  unfold plain_key. intros [[Hne Hlo]%andb_true_iff Hhi]%andb_true_iff Hw Hc. apply negb_true_iff, is_empty_false in Hne.
  assert (Hcolon : byte_of c <> 58) by (destruct Hc as [-> | ->]; by vm_compute).
  revert before Hw. induction w as [|d w IH]; intros before Hw.
  - change ("" +:+ ?x) with x. cbn [find]. unfold marker at 1. rewrite HasPrefix_cons, Ascii.eqb_refl. cbn [andb].
    destruct key as [|k key]; [done|]. rewrite sapp_cons, HasPrefix_cons.
    unfold bytes_of in Hlo. cbn [String.list_ascii_of_string map forallb] in Hlo, Hhi.
    unfold bytes_of in Hhi. cbn [String.list_ascii_of_string map forallb] in Hhi.
    apply andb_true_iff in Hlo as [Hk1 _], Hhi as [Hk2 _]. apply Z.leb_le in Hk1, Hk2.
    rewrite (proj2 (Ascii.eqb_neq k c)); [done|]. intros ->. destruct Hc as [-> | ->]; by vm_compute in Hk1, Hk2.
  - rewrite sapp_cons. cbn [find]. cbn [guarded] in Hw. apply andb_true_iff in Hw as [_ Hw].
    rewrite (IH _ Hw). unfold marker at 1. rewrite HasPrefix_cons.
    destruct (Ascii.eqb_spec quote d) as [<-|]; [|done]. cbn [andb].
    by rewrite marker_mismatch.
Qed.

Lemma find_quoted key more v c rest :
  plain_key key = true -> c = ","%char \/ c = "}"%char ->
  find (marker key more) (quoted v +:+ String c rest) = find (marker key more) (String c rest).
Proof.
  intros Hk Hc. unfold quoted. rewrite !sapp_cons, sapp_assoc.
  change (String quote (concat_map escape_rune (runes v) +:+ (String quote "" +:+ String c rest)))
    with (String quote (concat_map escape_rune (runes v)) +:+ String quote (String c rest)).
  apply (find_body key more true); [done| |done]. cbn [guarded orb]. apply guarded_escaped.
Qed.

(** ** Constant text around the literals *)

(** No occurrence of [m] starts in [p], whatever follows. *)
Fixpoint clear_of (m p : string) : bool :=
  match p with
  | EmptyString => true
  | String _ rest => negb (HasPrefix p m) && negb (HasPrefix m p) && clear_of m rest
  end.

Lemma HasPrefix_split a t m : HasPrefix (a +:+ t) m = true -> HasPrefix a m = true \/ HasPrefix m a = true.
Proof.
  revert m. induction a as [|c a IH]; intros m; [by right|]. destruct m as [|d m]; [by left|].
  rewrite sapp_cons. cbn [HasPrefix]. destruct (Ascii.eqb_spec d c) as [->|]; [|done]. cbn [andb].
  rewrite Ascii.eqb_refl. apply IH.
Qed.

Lemma find_clear m p t : clear_of m p = true -> find m (p +:+ t) = find m t.
Proof.
  induction p as [|c p IH]; [done|]. cbn [clear_of]. intros [[H1 H2]%andb_true_iff H]%andb_true_iff.
  rewrite sapp_cons. cbn [find]. destruct (HasPrefix (String c (p +:+ t)) m) eqn:E; [|by apply IH].
  rewrite <- sapp_cons in E. apply HasPrefix_split in E as [E|E]; by rewrite E in *.
Qed.

Lemma HasPrefix_within a t m : (String.length m <= String.length a)%nat ->
  HasPrefix (a +:+ t) m = true -> HasPrefix a m = true.
Proof.
  revert m. induction a as [|c a IH]; intros m Hl.
  - destruct m; [done|cbn in Hl; lia].
  - destruct m as [|d m]; [done|]. rewrite sapp_cons. cbn [HasPrefix]. cbn in Hl.
    intros [-> H]%andb_true_iff. apply IH; [lia|done].
Qed.

Lemma HasPrefix_length s m : HasPrefix s m = true -> (String.length m <= String.length s)%nat.
Proof.
  revert s. induction m as [|d m IH]; intros s H; [cbn; lia|]. destruct s as [|c s]; [done|].
  rewrite HasPrefix_cons in H. apply andb_true_iff in H as [_ H]. apply IH in H. cbn. lia.
Qed.

Lemma find_length m s u : find m s = Some u -> (String.length m <= String.length s)%nat.
Proof.
  revert u. induction s as [|c s IH]; intros u; cbn [find]; destruct (HasPrefix _ m) eqn:E; try done;
    try (intros _; by apply HasPrefix_length in E).
  intros H. apply IH in H. cbn. lia.
Qed.

Lemma find_const m p t u : find m p = Some u -> find m (p +:+ t) = Some (u +:+ t).
Proof.
  revert u. induction p as [|c p IH]; intros u.
  - cbn [find]. destruct m as [|d m]; [|done]. cbn. intros [= <-]. by destruct t.
  - cbn [find]. rewrite sapp_cons. cbn [find]. destruct (HasPrefix (String c p) m) eqn:E.
    + intros [= <-]. rewrite <- sapp_cons. by rewrite (HasPrefix_app _ _ t E).
    + intros H. pose proof (find_length _ _ _ H) as Hl.
      destruct (HasPrefix (String c (p +:+ t)) m) eqn:E'; [|by apply IH].
      rewrite <- sapp_cons in E'. apply HasPrefix_within in E'; [congruence|cbn; lia].
Qed.

Lemma clear_no_quote m p : no_quote p = true -> clear_of (String quote m) p = true.
Proof.
  induction p as [|c p IH]; [done|]. unfold no_quote, bytes_of. cbn [String.list_ascii_of_string map forallb].
  intros [Hc Hp]%andb_true_iff. apply negb_true_iff, Z.eqb_neq in Hc. cbn [clear_of]. rewrite !HasPrefix_cons.
  rewrite (IH Hp), (proj2 (Ascii.eqb_neq quote c)), (proj2 (Ascii.eqb_neq c quote)); [done| |]; intros E; subst c; by apply Hc.
Qed.

Lemma no_quote_Itoa n : no_quote (Itoa n) = true.
Proof.
  assert (forall s, digits_end s = "" -> no_quote s = true) as Hd.
  { induction s as [|c s IH]; [done|]. cbn [digits_end]. case_bool_decide as Hc; [|done].
    intros H. unfold no_quote, bytes_of. cbn [String.list_ascii_of_string map forallb]. fold (bytes_of s) (no_quote s).
    rewrite (IH H), andb_true_r. apply negb_true_iff, Z.eqb_neq. intros E. unfold digit_value, byte_of in *.
    rewrite E in Hc. destruct Hc. done. }
  assert (forall x : N, no_quote (pretty x) = true) as Hn.
  { intros x. unfold pretty, pretty_N. case_decide; [done|]. apply Hd, digits_end_go. done. }
  destruct n as [|p|p]; [done|apply (Hn (N.pos p))|].
  change (no_quote (String "-" (pretty (N.pos p))) = true). apply (Hn (N.pos p)).
Qed.

Lemma find_Itoa key more n t : find (marker key more) (Itoa n +:+ t) = find (marker key more) t.
Proof. apply find_clear, clear_no_quote, no_quote_Itoa. Qed.

(** A text the scan of a literal goes through. *)
Fixpoint neutral (escaped : bool) (s : string) : bool :=
  match s with
  | EmptyString => negb escaped
  | String c rest =>
      if escaped then neutral false rest
      else if byte_of c =? 92 then neutral true rest
      else if byte_of c =? 34 then false
      else neutral false rest
  end.

Lemma literal_end_neutral escaped s t u : neutral escaped s = true ->
  literal_end false t = Some u -> literal_end escaped (s +:+ t) = Some (s +:+ u).
Proof.
  intros Hs Ht. revert escaped Hs. induction s as [|c s IH]; intros escaped; [by destruct escaped|].
  rewrite !sapp_cons. cbn [neutral literal_end].
  destruct escaped; [by intros H; rewrite (IH _ H)|].
  destruct (byte_of c =? 92); [by intros H; rewrite (IH _ H)|].
  destruct (byte_of c =? 34); [done|]. by intros H; rewrite (IH _ H).
Qed.

Lemma neutral_wide x : Forall (fun c => 128 <= byte_of c) (String.list_ascii_of_string x) -> neutral false x = true.
Proof.
  induction x as [|c x IH]; [done|]. cbn [String.list_ascii_of_string]. rewrite list.Forall_cons. intros [Hc Hx].
  cbn [neutral]. rewrite !(proj2 (Z.eqb_neq (byte_of c) _)) by lia. by apply IH.
Qed.

Lemma neutral_escape s x r t : starts s x r t -> neutral false (escape_rune (x, r)) = true.
Proof.
  intros [c u H|y q u H|c u H E].
  - ascii_cases c; try (exfalso; by vm_compute in H); by vm_compute.
  - unfold escape_rune. cbn [fst snd]. rewrite rune_not_bad by done. destruct H as [_ _ Hr Hb _].
    rewrite (proj2 (Z.ltb_ge q RuneSelf)) by done.
    destruct (q =? 8232); [done|]. destruct (q =? 8233); [done|]. by apply neutral_wide.
  - done.
Qed.

(** The literal is copied whole. *)
Lemma literal_at_quoted v t : literal_at (quoted v +:+ t) = Some (quoted v).
Proof.
  unfold literal_at, quoted. rewrite !sapp_cons, sapp_assoc.
  change (skip_space (String quote ?x)) with (String quote x). cbn match.
  change (byte_of quote =? 34) with true. cbn match.
  assert (literal_end false (concat_map escape_rune (runes v) +:+ String quote "" +:+ t)
    = Some (concat_map escape_rune (runes v) +:+ String quote "")) as ->; [|done].
  induction v as [|v x r u Hs IH] using runes_ind; [done|].
  rewrite (runes_starts _ _ _ _ Hs), concat_map_cons, !sapp_assoc.
  apply literal_end_neutral; [|done]. by eapply neutral_escape.
Qed.

(** * The chunk of an event *)

(** What an OpenAI client should get for an event, if anything. *)
Definition chunk_of (e : sse_event) : option (string * chunk_delta * option string) :=
  match e with
  | MessageStart _ model _ _ => Some (model, RoleDelta, None)
  | BlockStart index (StartTool id name) => Some ("", ToolDelta (ToolStart index id name), None)
  | BlockDelta _ (DeltaText text) => Some ("", ContentDelta text, None)
  | BlockDelta _ (DeltaThinking text) => Some ("", ReasoningDelta text, None)
  | BlockDelta index (DeltaInput json) => Some ("", ToolDelta (ToolArgs index json), None)
  | MessageDelta reason _ => Some ("", NoDelta, Some (normalizeOpenAIStopReason reason))
  | _ => None
  end.

(** The events the relay hands to the adapter: block positions of an [int], a tool
    block with its identifier, and the reasons [finishResponse] ends with. *)
Definition relay_event (e : sse_event) : Prop :=
  match e with
  | BlockStart index b => 0 <= index <= max_int64 /\ (match b with StartTool id _ => id <> "" | _ => True end)
  | BlockDelta index _ => 0 <= index <= max_int64
  | MessageDelta reason _ => reason ∈ ["end_turn"; "tool_use"; "max_tokens"]
  | ErrorEvent _ _ => False
  | _ => True
  end.

(** An identifier that [encoding/json] writes as it is. *)
Definition plain_id (s : string) : bool := forallb clean_byte (bytes_of s).

Lemma plain_id_quoted s : plain_id s = true -> quoted s = String quote s +:+ String quote "".
Proof.
  intros H. unfold quoted. replace (concat_map escape_rune (runes s)) with s; [done|]. symmetry.
  apply raw_runes_verbatim. rewrite (clean_prefix (String.length s)).
  - by rewrite drop_bytes_nil.
  - rewrite <- (sapp_nil_r s) at 2. by rewrite take_bytes_app.
Qed.

Lemma appendOpenAIJSONString_quoted dst s : plain_id s = true -> appendOpenAIJSONString dst s = dst +:+ quoted s.
Proof. intros H. unfold appendOpenAIJSONString. destruct (forallb _ _); [by rewrite plain_id_quoted|done]. Qed.

(** The payload in pieces: constant text, numbers and literals. *)
Definition pieces (e : sse_event) : string :=
  match e with
  | MessageStart id model input output =>
      lit "{'type':'message_start','message':{'id':" +:+ quoted id
      +:+ lit ",'type':'message','role':'assistant','content':[],'model':" +:+ quoted model
      +:+ lit ",'usage':{'input_tokens':" +:+ Itoa input +:+ lit ",'output_tokens':" +:+ Itoa output +:+ "}}}"
  | BlockStart index b =>
      lit "{'type':'content_block_start','index':" +:+ Itoa index +:+
      match b with
      | StartText => lit ",'content_block':{'type':'text','text':''}}"
      | StartThinking signature =>
          lit ",'content_block':{'type':'thinking','thinking':'','signature':" +:+ quoted signature +:+ "}}"
      | StartTool id name =>
          lit ",'content_block':{'type':'tool_use','id':" +:+ quoted id +:+ lit ",'name':" +:+ quoted name
          +:+ lit ",'input':{}}}"
      end
  | BlockDelta index d =>
      lit "{'type':'content_block_delta','index':" +:+ Itoa index +:+
      match d with
      | DeltaText text => lit ",'delta':{'type':'text_delta','text':" +:+ quoted text
      | DeltaThinking text => lit ",'delta':{'type':'thinking_delta','thinking':" +:+ quoted text
      | DeltaInput json => lit ",'delta':{'type':'input_json_delta','partial_json':" +:+ quoted json
      end +:+ "}}"
  | BlockStop index => lit "{'type':'content_block_stop','index':" +:+ Itoa index +:+ "}"
  | MessageDelta reason output =>
      lit "{'type':'message_delta','delta':{'stop_reason':" +:+ quoted reason
      +:+ lit "},'usage':{'output_tokens':" +:+ Itoa output +:+ "}}"
  | MessageStop => sseMessageStopBytes
  | ErrorEvent code message =>
      lit "{'type':'error','error':{'type':" +:+ quoted code +:+ lit ",'message':" +:+ quoted message +:+ "}}"
  end.

Lemma encode_pieces e : encode (event_json e) = pieces e.
Proof.
  pose proof (payload_json "" e) as H. change ("" +:+ ?x) with x in H.
  enough (payload "" e = inl (pieces e)) as H' by congruence. clear H.
  destruct e as [id model input output|index [|sg|id name]|index [t|t|j]|index|reason output| |code message];
    cbn [payload pieces];
    unfold appendSSEMessageStart, appendSSEContentBlockStartText, appendSSEContentBlockStartThinking,
      appendSSEContentBlockStartToolUse, appendSSEContentBlockDeltaText, appendSSEContentBlockDeltaThinking,
      appendSSEContentBlockDeltaInputJSON, appendSSEContentBlockStop, appendSSEMessageDelta, appendAnthropicError,
      AppendInt; rewrite ?appendJSONBytes_quoted; cbn [and_then]; rewrite ?appendJSONBytes_quoted; cbn [and_then];
    rewrite ?sapp_assoc; reflexivity.
Qed.

Definition ends_literal (p : string) : bool :=
  match p with String c _ => (byte_of c =? 44) || (byte_of c =? 125) | EmptyString => false end.

Lemma find_quoted_app key more v p t :
  plain_key key = true -> ends_literal p = true ->
  find (marker key more) (quoted v +:+ p +:+ t) = find (marker key more) (p +:+ t).
Proof.
  intros Hk Hp. destruct p as [|c p]; [done|]. rewrite sapp_cons. apply find_quoted; [done|].
  apply orb_true_iff in Hp as [Hp|Hp]; apply Z.eqb_eq in Hp; rewrite <- (byte_char_of c), Hp; [by left|by right].
Qed.

Lemma find_quoted_end key more v p :
  plain_key key = true -> ends_literal p = true ->
  find (marker key more) (quoted v +:+ p) = find (marker key more) p.
Proof. intros Hk Hp. pose proof (find_quoted_app key more v p "" Hk Hp) as H. by rewrite !sapp_nil_r in H. Qed.

Ltac seek_const :=
  match goal with
  | |- context [find ?m (?p +:+ ?t)] =>
      match p with String _ _ => idtac | lit _ => idtac end;
      let u := eval vm_compute in (find m p) in
      match u with
      | Some ?w => rewrite (find_const m p t w) by (vm_compute; reflexivity)
      | None => rewrite (find_clear m p t) by (vm_compute; reflexivity)
      end
  | |- context [find ?m ?p] =>
      match p with String _ _ => idtac | lit _ => idtac | EmptyString => idtac end;
      let u := eval vm_compute in (find m p) in change (find m p) with u
  end.

Ltac seek :=
  rewrite ?sapp_assoc, ?contains_find, ?extract_find;
  change openAIModelMarker with (marker "model" "");
  change openAIToolUseTypeMarker with (marker "type" (lit "'tool_use'"));
  change openAITextContentTypeMarker with (marker "type" (lit "'text'"));
  change openAITextDeltaMarker with (marker "type" (lit "'text_delta'"));
  change openAIInputJSONMarker with (marker "type" (lit "'input_json_delta'"));
  change openAIThinkingDeltaMarker with (marker "type" (lit "'thinking_delta'"));
  change openAIStopReasonMarker with (marker "stop_reason" "");
  change openAITextMarker with (marker "text" "");
  change openAIPartialJSONMarker with (marker "partial_json" "");
  change openAIThinkingMarker with (marker "thinking" "");
  change openAIIDMarker with (marker "id" "");
  change openAINameMarker with (marker "name" "");
  repeat first [rewrite find_Itoa | rewrite find_quoted_app by reflexivity | rewrite find_quoted_end by reflexivity | seek_const].

Lemma literal_behind m m' v t : m' = m ->
  literal_at (drop_bytes (String.length m) (m' +:+ quoted v +:+ t)) = Some (quoted v).
Proof. intros ->. rewrite drop_bytes_app. apply literal_at_quoted. Qed.

Ltac take_literal :=
  change (Some ?x ≫= ?f) with (f x); cbv beta; rewrite literal_behind by reflexivity.

Ltac constant_names :=
  repeat match goal with
  | |- context [names ?a ?b] =>
      match b with String _ _ => idtac end;
      let v := eval vm_compute in (names a b) in change (names a b) with v
  end.

Lemma openAIToolIndex_block data a index k b :
  parse data = Some (JObject [("type", a); ("index", jint index); (k, b)]) ->
  names "index" k = false -> 0 <= index <= max_int64 -> openAIToolIndex data = Some index.
Proof.
  intros E Hk Hi. unfold openAIToolIndex, index_field. rewrite E.
  cbn [mbind option_bind decode_struct foldl fst snd]. constant_names. rewrite Hk. cbn match.
  cbn [mbind option_bind]. unfold decode_int, jint. rewrite ParseInt_Itoa by (unfold in_i64, min_int64; lia).
  cbn [mbind option_bind]. by rewrite (proj2 (Z.ltb_ge index 0)) by lia.
Qed.

Lemma chunk_prefix dst msgID created quotedModel : plain_id msgID = true ->
  appendOpenAIChunkPrefix dst msgID created quotedModel
  = dst +:+ lit "{'id':" +:+ quoted msgID +:+ lit ",'object':'chat.completion.chunk','created':" +:+ Itoa created
    +:+ lit ",'model':" +:+ (if is_empty quotedModel then lit "''" else quotedModel) +:+ lit ",'choices':[{'index':0,".
Proof.
  intros H. unfold appendOpenAIChunkPrefix, AppendInt. rewrite appendOpenAIJSONString_quoted by done.
  by rewrite !sapp_assoc.
Qed.

Lemma quoted_not_empty s : is_empty (quoted s) = false.
Proof. done. Qed.

(** The marker [m] is in the payload or not; the literal behind it. *)
Ltac has m b :=
  match goal with |- context [contains ?d m] =>
    assert (contains d m = b) as -> by (seek; reflexivity); cbn match
  end.

Ltac takes m v :=
  match goal with |- context [extractJSONStringValueAfter ?d m] =>
    assert (extractJSONStringValueAfter d m = Some v) as -> by (seek; take_literal; reflexivity); cbn match
  end.

Lemma tool_start_json index id name : id <> "" ->
  tool_json (ToolStart index id name)
  = JObject [("index", jint index); ("id", JString id); ("type", JString "function");
             ("function", JObject [("name", JString name); ("arguments", JString "")])].
Proof. by destruct id. Qed.

Ltac print_chunk :=
  cbn [fmap option_fmap option_map mbind option_bind]; f_equal;
  unfold appendOpenAIChunkMessageStart, appendOpenAIChunkText, appendOpenAIChunkThinking, appendOpenAIChunkToolArgs,
    appendOpenAIChunkToolStart, appendOpenAIChunkMessageDelta, AppendInt;
  rewrite chunk_prefix, ?quoted_not_empty by done; rewrite ?sapp_assoc; f_equal;
  unfold chunk_json, delta_json; rewrite ?tool_start_json by done; unfold tool_json; cbn [app];
  unfold jint; cbn [encode String.concat map fst snd]; constant_texts;
  rewrite ?sapp_assoc; cbn [String.app]; rewrite ?sapp_cons, ?sapp_assoc; cbn [String.app].

Lemma tool_index_pieces index b : 0 <= index <= max_int64 ->
  openAIToolIndex (pieces (BlockStart index b)) = Some index.
Proof.
  intros Hi. rewrite <- encode_pieces. eapply openAIToolIndex_block;
    [rewrite (parse_encode _ (event_numbers _)); reflexivity|vm_compute; reflexivity|done].
Qed.

Lemma tool_index_delta index d : 0 <= index <= max_int64 ->
  openAIToolIndex (pieces (BlockDelta index d)) = Some index.
Proof.
  intros Hi. rewrite <- encode_pieces. eapply openAIToolIndex_block;
    [rewrite (parse_encode _ (event_numbers _)); reflexivity|vm_compute; reflexivity|done].
Qed.

(** What the fast path answers. *)
Lemma fast_event dst msgID created e : plain_id msgID = true -> relay_event e ->
  appendOpenAIChunkFast dst msgID created (event_name e) (pieces e)
  = '(model, delta, finish) ← chunk_of e; Some (dst +:+ encode (chunk_json msgID created model delta finish)).
Proof.
  intros Hid He. unfold appendOpenAIChunkFast.
  destruct e as [id model input output|index [|sg|id name]|index [t|t|j]|index|reason output| |code message];
    cbn [event_name String.eqb Ascii.eqb Bool.eqb chunk_of] in *.
  - unfold pieces. takes openAIModelMarker (quoted model). print_chunk. reflexivity.
  - unfold pieces. has openAIToolUseTypeMarker false. has openAITextContentTypeMarker true.
    match goal with |- context [extractJSONStringValueAfter ?d ?m] =>
      assert (extractJSONStringValueAfter d m = Some (lit "''")) as -> by (seek; reflexivity) end. reflexivity.
  - unfold pieces. has openAIToolUseTypeMarker false. has openAITextContentTypeMarker false. reflexivity.
  - destruct He as [Hi Hne]. rewrite tool_index_pieces by done. unfold pieces.
    has openAIToolUseTypeMarker true. takes openAIIDMarker (quoted id). takes openAINameMarker (quoted name).
    print_chunk. reflexivity.
  - unfold pieces. has openAITextDeltaMarker true. takes openAITextMarker (quoted t). print_chunk. reflexivity.
  - unfold pieces. has openAITextDeltaMarker false. has openAIInputJSONMarker false. has openAIThinkingDeltaMarker true.
    takes openAIThinkingMarker (quoted t). print_chunk. reflexivity.
  - rewrite tool_index_delta by done. unfold pieces. has openAITextDeltaMarker false. has openAIInputJSONMarker true.
    takes openAIPartialJSONMarker (quoted j). print_chunk. reflexivity.
  - done.
  - unfold pieces. takes openAIStopReasonMarker (quoted reason).
    repeat (apply elem_of_cons in He as [->|He]; [print_chunk; reflexivity|]). by apply elem_of_nil in He.
  - done.
  - done.
Qed.

(** The slow path has nothing for the events that make no chunk. *)
Lemma slow_event msgID created e : relay_event e -> chunk_of e = None ->
  buildOpenAIChunkSlow msgID created (event_name e) (pieces e) = None.
Proof.
  intros He Hc. rewrite <- encode_pieces. unfold buildOpenAIChunkSlow, slow_chunk.
  destruct e as [id model input output|index [|sg|id name]|index [t|t|j]|index|reason output| |code message];
    try done; destruct He as [Hi _]; cbn [event_name String.eqb Ascii.eqb Bool.eqb];
    unfold openAIContentBlockStartPayload; rewrite (parse_encode _ (event_numbers _));
    cbn [event_json event_name as_read map fst snd jint]; constant_valid;
    cbn [mbind option_bind decode_struct foldl fst snd]; constant_names; cbn match;
    cbn [mbind option_bind]; unfold decode_int; rewrite ParseInt_Itoa by (unfold in_i64, min_int64; lia);
    cbn [mbind option_bind fst snd]; constant_names; cbn match;
    unfold decode_ptr, decode_struct, block_field; cbn [default foldl fst snd mbind option_bind]; constant_names; cbn match;
    cbn [mbind option_bind decode_text fmap option_fmap option_map]; constant_names; cbn match;
    rewrite (proj2 (Z.ltb_ge index 0)) by lia; reflexivity.
Qed.

Lemma chunk_of_event dst msgID created e : plain_id msgID = true -> relay_event e ->
  AppendOpenAIChunk dst msgID created (event_name e) (encode (event_json e))
  = '(model, delta, finish) ← chunk_of e; Some (dst +:+ encode (chunk_json msgID created model delta finish)).
Proof.
  intros Hid He. unfold AppendOpenAIChunk. rewrite encode_pieces, fast_event by done.
  destruct (chunk_of e) as [[[model delta] finish]|] eqn:Hc; [done|]. cbn [mbind option_bind].
  by rewrite slow_event.
Qed.

(** C23: for every event the relay hands over, whatever the text, the tool
    arguments, the signature or the identifiers in it hold, the chunk of
    [AppendOpenAIChunk] is the marshalled chunk that belongs to the event: no text
    can pass for a marker. An event that says nothing to an OpenAI client makes no
    chunk. *)
Theorem openai_chunk_of_event dst msgID created e
    (Hid : plain_id msgID = true) (He : relay_event e) :
  AppendOpenAIChunk dst msgID created (event_name e) (encode (event_json e))
  = '(model, delta, finish) ← chunk_of e; Some (dst +:+ encode (chunk_json msgID created model delta finish)).
Proof. by apply chunk_of_event. Qed.

Lemma openai_chunk_of_event_witness :
  let forged := lit "x','id':'y','type':'tool_use'" in
  let e := BlockDelta 3 (DeltaText forged) in
  AppendOpenAIChunk "" "chatcmpl-1" 7 (event_name e) (encode (event_json e))
  = Some ("" +:+ encode (chunk_json "chatcmpl-1" 7 "" (ContentDelta forged) None)).
Proof.
  intros forged e. apply (openai_chunk_of_event "" "chatcmpl-1" 7 e).
  - vm_compute. reflexivity.
  - split; vm_compute; discriminate.
Defined.
