(* ===== verification/AppErrors.v ===== *)
(** Application errors as HTTP answers ([errors/errors.go]): the error object with its
    details and the response that carries it. *)

From Corelib Require Import SpecFloat.
From S2P Require Import Prelude GoFloat Json.

Record AppError := {
  Code : string;
  Message : string;
  HTTPStatus : Z;
  RetryAfter : duration;
  Details : gmap string json
}.

(** The members of a map in the order [json.Marshal] prints them. *)
Fixpoint insert_member (m : string * json) (l : list (string * json)) : list (string * json) :=
  match l with
  | [] => [m]
  | x :: l' => if String.leb m.1 x.1 then m :: l else x :: insert_member m l'
  end.

Definition sorted_members (m : gmap string json) : list (string * json) := foldr insert_member [] (map_to_list m).

Definition error_detail (e : AppError) : gmap string json :=
  <["message" := JString (Message e)]> {[ "type" := JString (Code e) ]} ∪ Details e.

Definition ToJSON (e : AppError) : string :=
  encode (JObject [("error", JObject (sorted_members (error_detail e))); ("type", JString "error")]).

(** [math.Ceil]. *)
Definition f64_ceil (x : float64) : float64 :=
  match x with
  | S754_finite neg m e =>
      if 0 <=? e then x
      else
        let n := if neg then - (Z.pos m / 2 ^ (- e)) else (Z.pos m + 2 ^ (- e) - 1) / 2 ^ (- e) in
        if n =? 0 then S754_zero neg else f64_of_int n
  | _ => x
  end.

(** [Duration.Seconds]. *)
Definition Seconds (d : duration) : float64 :=
  f64_add (f64_of_int (Z.quot d Second)) (f64_div (f64_of_int (Z.rem d Second)) (f64_of_int 1000000000)).

Record http_answer := { an_status : Z; an_headers : list (string * string); an_body : string }.

Definition WriteResponse (e : AppError) : http_answer :=
  {| an_status := HTTPStatus e;
     an_headers := ("Content-Type", "application/json")
       :: (if 0 <? RetryAfter e
           then [("Retry-After", Itoa (Z.max (f64_to_int64 (f64_ceil (Seconds (RetryAfter e)))) 1))] else []);
     an_body := ToJSON e |}.

Definition New (code message : string) (httpStatus : Z) : AppError :=
  {| Code := code; Message := message; HTTPStatus := httpStatus; RetryAfter := 0; Details := ∅ |}.

#[export] Instance eta_AppError : Eta AppError := fun e => Build_AppError (Code e) (Message e) (HTTPStatus e) (RetryAfter e) (Details e).

(** Later details win over earlier ones. *)
Definition WithDetails (e : AppError) (details : gmap string json) : AppError :=
  e <| Details := details ∪ Details e |>.

Definition NewWithRetryAfter (code message : string) (httpStatus : Z) (retryAfter : duration) : AppError :=
  let err := New code message httpStatus in
  if 0 <? retryAfter then err <| RetryAfter := retryAfter |> else err.

Example answer_demo :
  WriteResponse (WithDetails (NewWithRetryAfter "rate_limit" "busy" 429 1500000000) {[ "scope" := JString "pool"; "type" := JNull ]})
  = {| an_status := 429;
       an_headers := [("Content-Type", "application/json"); ("Retry-After", "2")];
       an_body := lit "{'error':{'message':'busy','scope':'pool','type':'rate_limit'},'type':'error'}" |}.
Proof. vm_compute. reflexivity. Qed.
