(* ===== verification/StreamHandler.v ===== *)
(** The translator of upstream events into the client's answer
    ([handler/stream_handler.go], [stream_frames.go], [stream_terminal.go],
    [stream_tools.go], [stream_state.go], [stream_usage.go],
    [response_projection.go] and the end of [request_completion.go]).

    A [streamHandler] is driven by the request's goroutine, while a timer writes
    keep-alives. Its mutex is modelled where it is taken: [lock] lets the keep-alives
    that got there first run ([sched] says which, and how long the request has been
    running at each). The connection breaks at an arbitrary write or flush
    ([io_left]), and for good: every later one fails as well. *)

From Stdlib Require Import Ascii.
From Corelib Require Import SpecFloat.
From S2P Require Import Prelude GoFloat UpstreamErrors Json SseFrame Tokens OpenAISSE AppErrors.

(** * Data *)

Inductive ResponseFormat := FormatAnthropic | FormatOpenAI.

#[export] Instance ResponseFormat_eq_dec : EqDecision ResponseFormat.
Proof. solve_decision. Defined.

(** The values of an upstream event ([map[string]any]). *)
Inductive any :=
| VNil | VBool (b : bool) | VString (s : string)
| VInt (n : Z) | VInt64 (n : Z) | VFloat (x : float64) | VNumber (literal : string)
| VMap (members : list (string * any)) | VSlice (items : list any).

Definition map_get (m : list (string * any)) (key : string) : option any :=
  snd <$> List.find (fun p => String.eqb p.1 key) m.

(** [m[key].(string)], with the empty string where the assertion fails. *)
Definition get_string (m : list (string * any)) (key : string) : option string :=
  match map_get m key with Some (VString s) => Some s | _ => None end.
Definition string_of (m : list (string * any)) (key : string) : string := default "" (get_string m key).
Definition get_map (m : list (string * any)) (key : string) : option (list (string * any)) :=
  match map_get m key with Some (VMap m) => Some m | _ => None end.

Record SSEMessage := { Type_ : string; Event : list (string * any) }.

Record toolCall := { tc_id : string; tc_name : string; tc_input : string }.

(** A block of the answer kept for the non-streaming response; the text of a text or
    thinking block is in its builder until the end. *)
Inductive content_block :=
| CThinking (signature : string)
| CText
| CTool (id name : string) (input : json).

Record streamHandler := {
  isStream : bool;
  useUpstreamUsage : bool;
  responseFormat : ResponseFormat;
  disallowToolCalls : bool;
  allowedToolNames : gset string;
  structured : option (string -> option go_error);
  flusher : bool;
  returned : bool;
  blockIndex : Z;
  msgID : string;
  created : Z;
  hasReturn : bool;
  requestFailed : bool;
  completionLogged : bool;
  messageStartWritten : bool;
  nonStreamKeepAlive : bool;
  nonStreamOpened : bool;
  pendingModel : string;
  hasReasoningOutput : bool;
  finalStopReason : string;
  outputTokens : Z;
  inputTokens : Z;
  cachedInputTokens : Z;
  cacheWriteTokens : Z;
  reasoningTokens : Z;
  activeThinkingBlockIndex : Z;
  activeThinkingSSEIndex : Z;
  activeTextBlockIndex : Z;
  activeTextSSEIndex : Z;
  activeBlockType : string;
  responseText : string;
  outputEstimator : Estimator;
  textBlockBuilders : list (option string);
  thinkingBlockBuilders : list (option string);
  thinkingBlockSigs : list string;
  contentBlocks : list content_block;
  pendingThinkingSig : string;
  hasTextOutput : bool;
  firstContentDeltaFlushed : bool;
  pendingToolCalls : list toolCall;
  toolCallHandled : gset string;
  toolCallEmitted : gset string;
  streamingTools : gmap string Z;
  toolCallCount : Z;
  wire : list string;
  io_left : option nat;
  sched : list (list duration);
  upstream_cancelled : bool;
  stream_failed : bool;
  answer : option http_answer
}.

#[export] Instance eta_streamHandler : Eta streamHandler := fun h => {|
  isStream := isStream h;
  useUpstreamUsage := useUpstreamUsage h;
  responseFormat := responseFormat h;
  disallowToolCalls := disallowToolCalls h;
  allowedToolNames := allowedToolNames h;
  structured := structured h;
  flusher := flusher h;
  returned := returned h;
  blockIndex := blockIndex h;
  msgID := msgID h;
  created := created h;
  hasReturn := hasReturn h;
  requestFailed := requestFailed h;
  completionLogged := completionLogged h;
  messageStartWritten := messageStartWritten h;
  nonStreamKeepAlive := nonStreamKeepAlive h;
  nonStreamOpened := nonStreamOpened h;
  pendingModel := pendingModel h;
  hasReasoningOutput := hasReasoningOutput h;
  finalStopReason := finalStopReason h;
  outputTokens := outputTokens h;
  inputTokens := inputTokens h;
  cachedInputTokens := cachedInputTokens h;
  cacheWriteTokens := cacheWriteTokens h;
  reasoningTokens := reasoningTokens h;
  activeThinkingBlockIndex := activeThinkingBlockIndex h;
  activeThinkingSSEIndex := activeThinkingSSEIndex h;
  activeTextBlockIndex := activeTextBlockIndex h;
  activeTextSSEIndex := activeTextSSEIndex h;
  activeBlockType := activeBlockType h;
  responseText := responseText h;
  outputEstimator := outputEstimator h;
  textBlockBuilders := textBlockBuilders h;
  thinkingBlockBuilders := thinkingBlockBuilders h;
  thinkingBlockSigs := thinkingBlockSigs h;
  contentBlocks := contentBlocks h;
  pendingThinkingSig := pendingThinkingSig h;
  hasTextOutput := hasTextOutput h;
  firstContentDeltaFlushed := firstContentDeltaFlushed h;
  pendingToolCalls := pendingToolCalls h;
  toolCallHandled := toolCallHandled h;
  toolCallEmitted := toolCallEmitted h;
  streamingTools := streamingTools h;
  toolCallCount := toolCallCount h;
  wire := wire h;
  io_left := io_left h;
  sched := sched h;
  upstream_cancelled := upstream_cancelled h;
  stream_failed := stream_failed h;
  answer := answer h
|}.

Definition sseEventPrefix : string := "event: ".
Definition sseDataPrefix : string := "data: ".
Definition sseLineBreak : string := newline +:+ newline.
Definition sseDataJoin : string := newline +:+ "data: ".
Definition sseDoneLine : string := "data: [DONE]" +:+ sseLineBreak.
Definition sseKeepAlive : string := ": keep-alive" +:+ sseLineBreak.
Definition ssePing : string := "event: ping" +:+ sseDataJoin +:+ lit "{'type': 'ping'}" +:+ sseLineBreak.

Definition silentCommitAfter : duration := 45 * Second.
Definition nonStreamOpenAfter : duration := 60 * Second.
Definition nonStreamOpenPadding : string :=
  String.string_of_list_ascii (repeat " "%char (Z.to_nat 1023)) +:+ newline.

(** * The connection *)

(** One write of the response: whether it went through. *)
Definition write (text : string) (h : streamHandler) : bool * streamHandler :=
  match io_left h with
  | Some O => (false, h)
  | n => (true, h <| wire := wire h ++ [text] |> <| io_left := Nat.pred <$> n |>)
  end.

Definition flush (h : streamHandler) : bool * streamHandler :=
  match io_left h with
  | Some O => (false, h)
  | n => (true, h <| io_left := Nat.pred <$> n |>)
  end.

Definition markWriteErrorLocked (h : streamHandler) : streamHandler :=
  h <| hasReturn := true |> <| requestFailed := true |> <| returned := true |>
    <| finalStopReason := "write_error" |> <| upstream_cancelled := true |> <| stream_failed := true |>.

(** * Frames ([stream_frames.go]) *)

(** The known events have their header ready. *)
Definition sseFramePrefix (event : string) : option string :=
  if str_in event ["message_start"; "message_delta"; "message_stop"; "content_block_start";
                   "content_block_delta"; "content_block_stop"]
  then Some (sseEventPrefix +:+ event +:+ sseDataJoin) else None.

Definition stream_frame (event data : string) : string :=
  (if negb (is_empty event) then
     match sseFramePrefix event with
     | Some prefix => prefix
     | None => sseEventPrefix +:+ event +:+ sseDataJoin
     end
   else sseDataPrefix) +:+ data +:+ sseLineBreak.

Definition writeStreamFrameLocked (event data : string) (h : streamHandler) : bool * streamHandler :=
  write (stream_frame event data) h.

Definition flushStreamLocked (h : streamHandler) : streamHandler :=
  let '(ok, h) := flush h in
  if ok then h else markWriteErrorLocked h.

Definition flushSSEWithLenLocked (event : string) (h : streamHandler) : streamHandler :=
  if negb (flusher h) then h
  else
    let h := if String.eqb event "content_block_delta" then h <| firstContentDeltaFlushed := true |> else h in
    flushStreamLocked h.

(** Whether a chunk was written, or that the write failed. *)
Definition writeOpenAISSEBytes (event data : string) (h : streamHandler) : (bool + unit) * streamHandler :=
  match AppendOpenAIChunk "" (msgID h) (created h) event data with
  | None => (inl false, h)
  | Some raw =>
      let '(ok, h) := writeStreamFrameLocked "" raw h in
      if ok then (inl true, h) else (inr tt, h)
  end.

Definition emitSSEFrameLocked (event data : string) (final : bool) (h : streamHandler) : streamHandler :=
  if negb (isStream h) || requestFailed h then h
  else
    match responseFormat h with
    | FormatOpenAI =>
        let '(written, h) := writeOpenAISSEBytes event data h in
        match written with
        | inr _ => markWriteErrorLocked h
        | inl written =>
            let h := if written then flushSSEWithLenLocked event h else h in
            if final && String.eqb event "message_stop" && negb (requestFailed h) then
              let '(ok, h) := write sseDoneLine h in
              if ok then flushSSEWithLenLocked event h else markWriteErrorLocked h
            else h
        end
    | FormatAnthropic =>
        let '(ok, h) := writeStreamFrameLocked event data h in
        if ok then flushSSEWithLenLocked event h else markWriteErrorLocked h
    end.

(** [writeFinalSSEBytesLocked]: the frames of [finishResponse]. *)
Definition writeFinalSSEBytesLocked (event data : string) (h : streamHandler) : streamHandler :=
  emitSSEFrameLocked event data true h.

(** [writeSSEBytesLocked]; also [writeSSEBytesLockedWithHint] for the opening frame,
    which needs no open stream. *)
Definition writeSSEBytesLocked (event data : string) (h : streamHandler) : streamHandler :=
  if negb (isStream h) || hasReturn h then h else emitSSEFrameLocked event data false h.

Definition writeMessageStartLocked (model : string) (inputTokens outputTokens : Z) (h : streamHandler) : streamHandler :=
  if negb (isStream h) || hasReturn h then h
  else
    match appendSSEMessageStart "" (msgID h) model inputTokens outputTokens with
    | inr _ => markWriteErrorLocked h
    | inl raw => writeSSEBytesLocked "message_start" raw (h <| messageStartWritten := true |>)
    end.

Definition ensureMessageStartLocked (h : streamHandler) : bool * streamHandler :=
  if messageStartWritten h then (true, h)
  else if requestFailed h || hasReturn h || negb (isStream h) then (false, h)
  else
    let h := writeMessageStartLocked (pendingModel h) (inputTokens h) 0 h in
    (messageStartWritten h, h).

(** Of every event but the opening frame. *)
Definition writeSSEBytesLockedWithHint (event data : string) (h : streamHandler) : streamHandler :=
  if negb (isStream h) || hasReturn h then h
  else
    let '(opened, h) := ensureMessageStartLocked h in
    if opened then emitSSEFrameLocked event data false h else h.

(** A payload just serialized, as the [write...Locked] functions hand it on. *)
Definition write_payload (event : string) (raw : appended) (final : bool) (h : streamHandler) : streamHandler :=
  match raw with
  | inr _ => markWriteErrorLocked h
  | inl raw => if final then writeFinalSSEBytesLocked event raw h else writeSSEBytesLockedWithHint event raw h
  end.

Definition writeSSEContentBlockStartToolUseLocked (index : Z) (id name : string) (final : bool) (h : streamHandler) :=
  write_payload "content_block_start" (appendSSEContentBlockStartToolUse "" index id name) final h.
Definition writeSSEContentBlockStartTextLocked (index : Z) (final : bool) (h : streamHandler) :=
  write_payload "content_block_start" (appendSSEContentBlockStartText "" index) final h.
Definition writeSSEContentBlockDeltaInputJSONLocked (index : Z) (partialJSON : string) (final : bool) (h : streamHandler) :=
  write_payload "content_block_delta" (appendSSEContentBlockDeltaInputJSON "" index partialJSON) final h.
Definition writeSSEContentBlockDeltaTextLocked (index : Z) (text : string) (final : bool) (h : streamHandler) :=
  write_payload "content_block_delta" (appendSSEContentBlockDeltaText "" index text) final h.
Definition writeSSEContentBlockDeltaThinkingLocked (index : Z) (thinking : string) (final : bool) (h : streamHandler) :=
  write_payload "content_block_delta" (appendSSEContentBlockDeltaThinking "" index thinking) final h.
Definition writeSSEContentBlockStopLocked (index : Z) (final : bool) (h : streamHandler) :=
  write_payload "content_block_stop" (appendSSEContentBlockStop "" index) final h.
Definition writeSSEMessageDeltaLocked (stopReason : string) (outputTokens : Z) (final : bool) (h : streamHandler) :=
  write_payload "message_delta" (appendSSEMessageDelta "" stopReason outputTokens) final h.

(** * Keep-alives *)

(** [writeKeepAlive] of a stream, [elapsed] into the request. *)
Definition stream_keep_alive (elapsed : duration) (h : streamHandler) : streamHandler :=
  if hasReturn h then h
  else
    let '(opened, h) :=
      if messageStartWritten h then (true, h)
      else if elapsed <? silentCommitAfter then (false, h)
      else ensureMessageStartLocked h in
    if negb opened then h
    else
      let text := match responseFormat h with FormatAnthropic => ssePing | FormatOpenAI => sseKeepAlive end in
      let '(ok, h) := write text h in
      if ok then flushSSEWithLenLocked "keep-alive" h else markWriteErrorLocked h.

Definition writeNonStreamKeepAlive (elapsed : duration) (h : streamHandler) : streamHandler :=
  if negb (nonStreamKeepAlive h) || hasReturn h || requestFailed h || (elapsed <? nonStreamOpenAfter) then h
  else
    let chunk := if nonStreamOpened h then newline else nonStreamOpenPadding in
    let '(ok, h) := write chunk h in
    if negb ok then markWriteErrorLocked h
    else
      let '(ok, h) := flush (h <| nonStreamOpened := true |>) in
      if ok then h else markWriteErrorLocked h.

Definition writeKeepAlive (elapsed : duration) (h : streamHandler) : streamHandler :=
  if isStream h then stream_keep_alive elapsed h else writeNonStreamKeepAlive elapsed h.

(** [h.mu.Lock()]: the keep-alives that got the mutex before this goroutine. *)
Definition lock (h : streamHandler) : streamHandler :=
  match sched h with
  | [] => h
  | ticks :: rest => foldl (fun h elapsed => writeKeepAlive elapsed h) (h <| sched := rest |>) ticks
  end.

(** * Blocks ([stream_handler.go], [stream_state.go]) *)

(** [growBuilderSlots] and [growSigSlots]. *)
Definition grow {A} (zero : A) (slots : list A) (idx : nat) : list A := slots ++ repeat zero (S idx - length slots).

Definition thinkingBlockSigAt (idx : Z) (h : streamHandler) : option string :=
  if idx <? 0 then None else thinkingBlockSigs h !! Z.to_nat idx.

Definition builderAt (slots : list (option string)) (idx : nat) : option string := mjoin (slots !! idx).

(** [historyBuilderAt(&slots, idx).WriteString(delta)]. *)
Definition write_history (slots : list (option string)) (idx : nat) (delta : string) : list (option string) :=
  let slots := grow None slots idx in
  <[idx := Some (default "" (builderAt slots idx) +:+ delta)]> slots.

(** The stop frame of the active block, where it has one. *)
Definition popActiveBlockStopDataLocked (h : streamHandler) : option string * streamHandler :=
  if is_empty (activeBlockType h) then (None, h)
  else
    let stop (sseIdx : Z) (h : streamHandler) :=
      let h := h <| activeBlockType := "" |> in
      match marshalSSEContentBlockStopBytes sseIdx with inl data => (Some data, h) | inr _ => (None, h) end in
    if String.eqb (activeBlockType h) "thinking" then
      stop (activeThinkingSSEIndex h) (h <| activeThinkingBlockIndex := -1 |> <| activeThinkingSSEIndex := -1 |>)
    else if String.eqb (activeBlockType h) "text" then
      stop (activeTextSSEIndex h) (h <| activeTextBlockIndex := -1 |> <| activeTextSSEIndex := -1 |>)
    else (None, h <| activeBlockType := "" |>).

Definition closeActiveBlockLocked (h : streamHandler) : streamHandler :=
  let '(stopData, h) := popActiveBlockStopDataLocked h in
  match stopData with
  | None => h
  | Some data => writeSSEBytesLocked "content_block_stop" data h
  end.

Definition closeActiveBlock (h : streamHandler) : streamHandler := closeActiveBlockLocked (lock h).

(** The three steps of [ensureBlock]: a block of another type is closed; the block of
    the type that is active already is the one; otherwise one is opened. *)
Definition close_other (blockType : string) (h : streamHandler) : streamHandler :=
  if negb (is_empty (activeBlockType h)) && negb (String.eqb (activeBlockType h) blockType)
  then closeActiveBlockLocked h else h.

Definition active_position (blockType : string) (h : streamHandler) : option Z :=
  if String.eqb (activeBlockType h) blockType && String.eqb blockType "thinking" then Some (activeThinkingSSEIndex h)
  else if String.eqb (activeBlockType h) blockType && String.eqb blockType "text" then Some (activeTextSSEIndex h)
  else None.

Definition start_block (blockType : string) (h : streamHandler) : streamHandler :=
  let h := h <| blockIndex := blockIndex h + 1 |> in
  let sseIdx := blockIndex h in
  let h := h <| activeBlockType := blockType |> in
  if String.eqb blockType "thinking" then
    let signature := pendingThinkingSig h in
    let internalIdx := length (contentBlocks h) in
    let h := h <| pendingThinkingSig := "" |>
               <| contentBlocks := contentBlocks h ++ [CThinking signature] |>
               <| activeThinkingBlockIndex := Z.of_nat internalIdx |>
               <| activeThinkingSSEIndex := sseIdx |>
               <| thinkingBlockBuilders := <[internalIdx := Some ""]> (grow None (thinkingBlockBuilders h) internalIdx) |>
               <| thinkingBlockSigs := <[internalIdx := signature]> (grow "" (thinkingBlockSigs h) internalIdx) |> in
    write_payload "content_block_start" (appendSSEContentBlockStartThinking "" sseIdx signature) false h
  else if String.eqb blockType "text" then
    let internalIdx := length (contentBlocks h) in
    let h := h <| contentBlocks := contentBlocks h ++ [CText] |>
               <| activeTextBlockIndex := Z.of_nat internalIdx |>
               <| activeTextSSEIndex := sseIdx |>
               <| textBlockBuilders := <[internalIdx := Some ""]> (grow None (textBlockBuilders h) internalIdx) |> in
    writeSSEContentBlockStartTextLocked sseIdx false h
  else h.

(** The stream position of the active block of the type, opened if need be. *)
Definition ensureBlock (blockType : string) (h : streamHandler) : Z * streamHandler :=
  let h := close_other blockType (lock h) in
  match active_position blockType h with
  | Some sseIdx => (sseIdx, h)
  | None => (blockIndex h + 1, start_block blockType h)
  end.

Definition in_blocks (internalIdx : Z) (h : streamHandler) : bool :=
  (0 <=? internalIdx) && (internalIdx <? Z.of_nat (length (contentBlocks h))).

(** The signature of a thinking block that had none. *)
Definition set_block_signature (internalIdx : Z) (sig : string) (h : streamHandler) : streamHandler :=
  if in_blocks internalIdx h then
    match thinkingBlockSigAt internalIdx h with
    | Some "" =>
        let i := Z.to_nat internalIdx in
        h <| thinkingBlockSigs := <[i := sig]> (thinkingBlockSigs h) |>
          <| contentBlocks := alter (fun b => match b with CThinking _ => CThinking sig | b => b end) i (contentBlocks h) |>
    | _ => h
    end
  else h.

Definition extractThinkingSignature (event : list (string * any)) : string :=
  match get_string event "signature" with
  | Some sig => TrimSpace sig
  | None => TrimSpace (default "" (data ← get_map event "data"; get_string data "signature"))
  end.

(** * Token accounting ([stream_usage.go]) *)

Definition addOutputTokens (text : string) (h : streamHandler) : streamHandler :=
  if is_empty text then h
  else
    let h := lock h in
    if useUpstreamUsage h then h else h <| outputEstimator := Estimator_Add (outputEstimator h) text |>.

Definition finalizeOutputTokens (h : streamHandler) : streamHandler :=
  let h := lock h in
  if useUpstreamUsage h then h else h <| outputTokens := Estimator_Count (outputEstimator h) |>.

Definition getUsageIntValue (usage : list (string * any)) (key : string) : option Z :=
  match map_get usage key with
  | Some (VInt n) | Some (VInt64 n) => Some n
  | Some (VFloat x) => Some (f64_to_int64 x)
  | Some (VNumber literal) => ParseInt literal
  | _ => None
  end.

Fixpoint read_usage (usage : list (string * any)) (keys : list string) : option Z :=
  match keys with
  | [] => None
  | key :: keys =>
      match getUsageIntValue usage key with Some n => Some n | None => read_usage usage keys end
  end.

Definition applyUpstreamUsageTokens (usage : list (string * any)) (h : streamHandler) : streamHandler :=
  match usage with
  | [] => h
  | _ =>
      let input := read_usage usage ["inputTokens"; "input_tokens"] in
      let output := read_usage usage ["outputTokens"; "output_tokens"] in
      let cached := read_usage usage ["cacheReadTokens"; "cache_read_tokens"] in
      let cacheWrite := read_usage usage ["cacheWriteTokens"; "cache_creation_input_tokens"] in
      let reasoning := read_usage usage ["reasoningTokens"; "reasoning_tokens"] in
      match input, output, cached, cacheWrite, reasoning with
      | None, None, None, None, None => h
      | _, _, _, _, _ =>
          let h := lock h in
          h <| useUpstreamUsage := true |>
            <| inputTokens := default (inputTokens h) input |>
            <| outputTokens := default (outputTokens h) output |>
            <| cachedInputTokens := default (cachedInputTokens h) cached |>
            <| cacheWriteTokens := default (cacheWriteTokens h) cacheWrite |>
            <| reasoningTokens := default (reasoningTokens h) reasoning |>
      end
  end.

Definition setUsageTokens (input output : Z) (h : streamHandler) : streamHandler :=
  let h := lock h in
  let h := h <| useUpstreamUsage := true |> in
  let h := if 0 <=? input then h <| inputTokens := input |> else h in
  if 0 <=? output then h <| outputTokens := output |> else h.

(** * Tools ([stream_tools.go]) *)

(** [strings.TrimSpace] of the input, and an empty object for none. *)
Definition input_json (input : string) : string :=
  let input := TrimSpace input in if is_empty input then "{}" else input.

Definition emitToolCallNonStream (call : toolCall) (h : streamHandler) : streamHandler :=
  let h := addOutputTokens (tc_name call) h in
  let h := addOutputTokens (tc_input call) h in
  let inputValue := default (JObject []) (parse (input_json (tc_input call))) in
  h <| contentBlocks := contentBlocks h ++ [CTool (tc_id call) (tc_name call) inputValue] |>.

(** The three frames of a tool call. *)
Definition tool_frames (idx : Z) (id name inputJSON : string) (final : bool) (h : streamHandler) : streamHandler :=
  let h := writeSSEContentBlockStartToolUseLocked idx id name final h in
  let h := writeSSEContentBlockDeltaInputJSONLocked idx inputJSON final h in
  writeSSEContentBlockStopLocked idx final h.

Definition emitToolCallStream (call : toolCall) (idx : Z) (final : bool) (h : streamHandler) : streamHandler :=
  if is_empty (tc_id call) then h
  else
    let h := addOutputTokens (tc_name call) h in
    let h := addOutputTokens (tc_input call) h in
    let h := lock h in
    if idx <? 0 then
      let h := h <| blockIndex := blockIndex h + 1 |> in
      tool_frames (blockIndex h) (tc_id call) (tc_name call) (input_json (tc_input call)) final h
    else tool_frames idx (tc_id call) (tc_name call) (input_json (tc_input call)) final h.

(** A call takes the next block. *)
Definition next_call (h : streamHandler) : streamHandler :=
  h <| toolCallCount := toolCallCount h + 1 |> <| blockIndex := blockIndex h + 1 |>.

Definition emitToolUseFromInput (toolID toolName inputStr : string) (h : streamHandler) : streamHandler :=
  if is_empty toolID || is_empty toolName then h
  else if bool_decide (toolID ∈ toolCallEmitted h) then h
  else
    let h := h <| toolCallEmitted := {[ toolID ]} ∪ toolCallEmitted h |> in
    let h := addOutputTokens toolName h in
    let h := next_call (lock h) in
    tool_frames (blockIndex h) toolID toolName (input_json inputStr) false h.

Definition flushPendingToolCalls (h : streamHandler) : streamHandler :=
  let h := lock h in
  let calls := pendingToolCalls h in
  let h := h <| pendingToolCalls := [] |> in
  foldl (fun h call => if isStream h then emitToolCallStream call (-1) true h else emitToolCallNonStream call h) h calls.

Definition handleToolCallAfterChecks (call : toolCall) (h : streamHandler) : streamHandler :=
  let h := lock h in
  h <| pendingToolCalls := pendingToolCalls h ++ [call] |> <| toolCallCount := toolCallCount h + 1 |>.

(** Native function arguments must be a JSON object. *)
Definition validToolCallInput (name input : string) : bool :=
  negb (is_empty (TrimSpace name)) && match parse input with Some (JObject _) => true | _ => false end.

Definition shouldAcceptToolCall (call : toolCall) (h : streamHandler) : bool * streamHandler :=
  let h := lock h in
  let allowedTool :=
    bool_decide (allowedToolNames h = ∅) || bool_decide (TrimSpace (tc_name call) ∈ allowedToolNames h) in
  (negb (disallowToolCalls h) && allowedTool && validToolCallInput (tc_name call) (tc_input call), h).

(** The two halves of [emitIncrementalTool]: opening the block of a tool call, and its
    next piece of arguments. *)
Definition stream_tool (id : string) (h : streamHandler) : streamHandler :=
  let h := next_call h in
  h <| streamingTools := <[id := blockIndex h]> (streamingTools h) |>
    <| toolCallEmitted := {[ id ]} ∪ toolCallEmitted h |>.

Definition open_tool_block (id name : string) (h : streamHandler) : Z * streamHandler :=
  let h := addOutputTokens name (closeActiveBlock h) in
  let h := stream_tool id (lock h) in
  (blockIndex h, writeSSEContentBlockStartToolUseLocked (blockIndex h) id name false h).

Definition publish_tool_delta (idx : Z) (delta : string) (h : streamHandler) : streamHandler :=
  let h := addOutputTokens delta h in
  if is_empty delta then h else writeSSEContentBlockDeltaInputJSONLocked idx delta false (lock h).

Definition emitIncrementalTool (event : list (string * any)) (h : streamHandler) : streamHandler :=
  if negb (isStream h) then h
  else
    let id := string_of event "toolCallId" in
    let name := string_of event "toolName" in
    let delta := string_of event "delta" in
    if is_empty id || is_empty name || bool_decide (id ∈ toolCallHandled h) then h
    else
      match streamingTools h !! id with
      | Some idx => publish_tool_delta idx delta h
      | None =>
          let '(accepted, h) := shouldAcceptToolCall {| tc_id := id; tc_name := name; tc_input := "{}" |} h in
          if negb accepted then h
          else let '(idx, h) := open_tool_block id name h in publish_tool_delta idx delta h
      end.

Definition setDisallowToolCalls (disallow : bool) (h : streamHandler) : streamHandler :=
  (lock h) <| disallowToolCalls := disallow |>.

Definition setAllowedToolNames (names : list string) (h : streamHandler) : streamHandler :=
  (lock h) <| allowedToolNames := list_to_set (filter (fun name => is_empty name = false) (map TrimSpace names)) |>.

(** * The end of an answer ([stream_terminal.go]) *)

Definition terminalState (h : streamHandler) : (bool * bool) * streamHandler :=
  let h := lock h in ((hasReturn h, requestFailed h), h).

Definition hasCommitted (h : streamHandler) : bool * streamHandler :=
  let h := lock h in (messageStartWritten h || hasReturn h, h).

Definition has_tool_calls (h : streamHandler) : bool :=
  (0 <? toolCallCount h) || (0 <? length (pendingToolCalls h))%nat || negb (bool_decide (toolCallEmitted h = ∅)).

Definition writeStreamError (category message : string) (h : streamHandler) : streamHandler :=
  if negb (isStream h) then h
  else
    let h := lock h in
    if hasReturn h then h
    else
      let h := h <| hasReturn := true |> <| requestFailed := true |> <| returned := true |> <| stream_failed := true |> in
      match responseFormat h with
      | FormatOpenAI =>
          match marshalOpenAIErrorBytes category message with
          | inr _ => h
          | inl data =>
              let '(ok, h) := writeStreamFrameLocked "" data h in
              if negb ok then markWriteErrorLocked h
              else
                let '(ok, h) := write sseDoneLine h in
                if negb ok then markWriteErrorLocked h
                else if flusher h then flushStreamLocked h else h
          end
      | FormatAnthropic =>
          match marshalAnthropicErrorBytes category message with
          | inr _ => h
          | inl data =>
              let '(ok, h) := writeStreamFrameLocked "error" data h in
              if negb ok then markWriteErrorLocked h
              else if flusher h then flushStreamLocked h else h
          end
      end.

Definition reportRequestFailure (category message : string) (retryAfter : duration) (details : list (gmap string json))
    (h : streamHandler) : streamHandler :=
  let '(committed, h) := if isStream h then hasCommitted h else (false, h) in
  if committed then writeStreamError category message h
  else
    let h := lock h in
    if hasReturn h then h
    else
      let h := h <| hasReturn := true |> <| requestFailed := true |> <| returned := true |> in
      let failure :=
        foldl WithDetails (NewWithRetryAfter category message (StatusForCategory category) retryAfter) details in
      if nonStreamOpened h then snd (write (ToJSON failure) h)
      else h <| answer := Some (WriteResponse failure) |>.

Definition validateStructuredAnswer (h : streamHandler) : option go_error * streamHandler :=
  let h := lock h in
  match structured h with
  | None => (None, h)
  | Some check => (if is_empty (TrimSpace (responseText h)) then None else check (responseText h), h)
  end.

Definition finalizeCompletion (h : streamHandler) : streamHandler :=
  let h := lock h in
  if completionLogged h then h else h <| completionLogged := true |>.

(** The frames that end a stream, the response being claimed. *)
Definition finish_stream (stopReason : string) (h : streamHandler) : streamHandler :=
  let h := lock h in
  let '(stopData, h) := popActiveBlockStopDataLocked h in
  let h := match stopData with
           | Some data => writeFinalSSEBytesLocked "content_block_stop" data (lock h)
           | None => h
           end in
  let h := flushPendingToolCalls h in
  let h := finalizeOutputTokens h in
  let h := lock h in
  let h := writeSSEMessageDeltaLocked stopReason (outputTokens h) true h in
  match marshalSSEMessageStopBytes with
  | inr _ => h
  | inl stopData => writeFinalSSEBytesLocked "message_stop" stopData (lock h)
  end.

(** The parts of [finishResponse]: claiming the response and ending it, after the
    opening frame, after the check of a structured answer. *)
Definition claim_response (stopReason : string) (h : streamHandler) : streamHandler :=
  let h := lock h in
  if hasReturn h then h
  else
    let h := h <| hasReturn := true |> <| returned := true |> <| finalStopReason := stopReason |> in
    let h := if isStream h then finish_stream stopReason h
             else finalizeOutputTokens (flushPendingToolCalls h) in
    finalizeCompletion h.

Definition open_and_claim (stopReason : string) (h : streamHandler) : streamHandler :=
  let '(opened, h) := ensureMessageStartLocked (lock h) in
  let '(alreadyOpen, h) :=
    if isStream h && negb opened then let h := lock h in (messageStartWritten h, h) else (true, h) in
  if negb alreadyOpen then h else claim_response stopReason h.

(** A call for tools without any tool call ends the turn. *)
Definition settled_reason (stopReason : string) (h : streamHandler) : string * streamHandler :=
  if String.eqb stopReason "tool_use" then
    let h := lock h in (if has_tool_calls h then stopReason else "end_turn", h)
  else (stopReason, h).

Definition finishResponse (stopReason : string) (h : streamHandler) : streamHandler :=
  let '(stopReason, h) := settled_reason stopReason h in
  let '(invalid, h) := validateStructuredAnswer h in
  match invalid with
  | Some err => reportRequestFailure "schema_mismatch" (err_text err) 0 [] h
  | None => open_and_claim stopReason h
  end.

Definition forceFinishIfMissing (h : streamHandler) : streamHandler :=
  let h := lock h in
  if hasReturn h then h
  else finishResponse (if has_tool_calls h then "tool_use" else "end_turn") h.

Definition hasVisibleOutput (h : streamHandler) : bool * streamHandler :=
  let h := lock h in
  (hasTextOutput h || has_tool_calls h || negb (is_empty (responseText h)), h).

Definition hasAnyOutput (h : streamHandler) : bool * streamHandler :=
  let h := lock h in
  if hasReasoningOutput h || useUpstreamUsage h then (true, h) else hasVisibleOutput h.

Definition InjectNoAvailableAccountError (lastErr : string) (selectErr : option go_error) (h : streamHandler) : streamHandler :=
  let out := ClassifyPoolExhaustion selectErr lastErr in
  let out :=
    if PoolExhaustion_Empty out
    then mkPool (Category (ClassifyUpstreamError lastErr)) PoolRetriesExhaustedMessage else out in
  reportRequestFailure (pool_category out) (pool_message out) 0 [] h.

(** * Upstream events ([handleMessage]) *)

Definition event_key (msg : SSEMessage) : string :=
  if String.eqb (Type_ msg) "model" then
    match get_string (Event msg) "type" with Some t => "model." +:+ t | None => Type_ msg end
  else Type_ msg.

Definition reasoning_start (event : list (string * any)) (h : streamHandler) : streamHandler :=
  let h := h <| pendingThinkingSig := "" |> in
  let sig := extractThinkingSignature event in
  if is_empty sig then h else snd (ensureBlock "thinking" (h <| pendingThinkingSig := sig |>)).

(** The signature a thinking block is to carry: the pending one, or that of the
    event, which becomes the pending one. *)
Definition reasoning_signature (event : list (string * any)) (h : streamHandler) : string * streamHandler :=
  let h := lock h in
  if is_empty (pendingThinkingSig h) then
    let sig := extractThinkingSignature event in
    (sig, if is_empty sig then h else (lock h) <| pendingThinkingSig := sig |>)
  else (pendingThinkingSig h, h).

(** The positions of the thinking block to write to, opened unless it is active. *)
Definition thinking_position (h : streamHandler) : Z * Z * streamHandler :=
  let sseIdx := activeThinkingSSEIndex h in
  if sseIdx <? 0 then
    let '(sseIdx, h) := ensureBlock "thinking" h in
    let h := lock h in (sseIdx, activeThinkingBlockIndex h, h)
  else (sseIdx, activeThinkingBlockIndex h, h).

(** What the handler keeps of a piece of reasoning. *)
Definition keep_thinking (internalIdx : Z) (delta : string) (h : streamHandler) : streamHandler :=
  let h := if isStream h && negb (useUpstreamUsage h)
           then h <| outputTokens := outputTokens h + EstimateTextTokens delta |> else h in
  if in_blocks internalIdx h
  then h <| thinkingBlockBuilders := write_history (thinkingBlockBuilders h) (Z.to_nat internalIdx) delta |>
  else h.

Definition reasoning_delta (event : list (string * any)) (h : streamHandler) : streamHandler :=
  let '(sig, h) := reasoning_signature event h in
  let delta := string_of event "delta" in
  if is_empty delta then
    if is_empty sig then h
    else
      let '(_, h) := ensureBlock "thinking" h in
      let h := lock h in
      set_block_signature (activeThinkingBlockIndex h) sig h
  else
    let h := (lock h) <| hasReasoningOutput := true |> in
    let h := if is_empty sig then h else set_block_signature (activeThinkingBlockIndex h) sig h in
    let '(sseIdx, internalIdx, h) := thinking_position h in
    writeSSEContentBlockDeltaThinkingLocked sseIdx delta false (keep_thinking internalIdx delta h).

Definition text_position (h : streamHandler) : Z * Z * streamHandler :=
  let sseIdx := activeTextSSEIndex h in
  if sseIdx <? 0 then
    let '(sseIdx, h) := ensureBlock "text" h in
    let h := lock h in (sseIdx, activeTextBlockIndex h, h)
  else (sseIdx, activeTextBlockIndex h, h).

(** What the handler keeps of a piece of text. *)
Definition keep_text (internalIdx : Z) (delta : string) (h : streamHandler) : streamHandler :=
  let h := if useUpstreamUsage h then h else h <| outputEstimator := Estimator_Add (outputEstimator h) delta |> in
  let h := if isStream h then h else h <| responseText := responseText h +:+ delta |> in
  if in_blocks internalIdx h
  then h <| textBlockBuilders := write_history (textBlockBuilders h) (Z.to_nat internalIdx) delta |>
  else h.

Definition text_delta (event : list (string * any)) (h : streamHandler) : streamHandler :=
  let delta := string_of event "delta" in
  if is_empty delta then h
  else
    let h := (lock h) <| hasTextOutput := true |> in
    let '(sseIdx, internalIdx, h) := text_position h in
    writeSSEContentBlockDeltaTextLocked sseIdx delta false (keep_text internalIdx delta h).

Definition tool_call (event : list (string * any)) (h : streamHandler) : streamHandler :=
  let toolID := string_of event "toolCallId" in
  let toolName := string_of event "toolName" in
  let inputStr := string_of event "input" in
  if is_empty toolID then h
  else if bool_decide (toolID ∈ toolCallHandled h) then h
  else
    let call := {| tc_id := toolID; tc_name := toolName; tc_input := inputStr |} in
    let '(accepted, h) := shouldAcceptToolCall call h in
    if negb accepted then h
    else
      let h := h <| toolCallHandled := {[ toolID ]} ∪ toolCallHandled h |> in
      match streamingTools h !! toolID with
      | Some idx =>
          let h := writeSSEContentBlockStopLocked idx false (lock h) in
          h <| streamingTools := delete toolID (streamingTools h) |>
      | None =>
          if isStream h then emitToolUseFromInput toolID toolName inputStr h
          else handleToolCallAfterChecks call h
      end.

Definition finish_reason (event : list (string * any)) : string :=
  match get_string event "finishReason" with
  | Some r =>
      if str_in r ["tool-calls"; "tool_use"] then "tool_use"
      else if str_in r ["max_tokens"; "max_token_limit"] then "max_tokens"
      else "end_turn"
  | None => "end_turn"
  end.

Definition finish (event : list (string * any)) (h : streamHandler) : streamHandler :=
  let h := match get_map event "usage" with Some usage => applyUpstreamUsageTokens usage h | None => h end in
  let stopReason := finish_reason event in
  let h := lock h in
  let toolUseEmitted := negb (bool_decide (toolCallEmitted h = ∅)) in
  let hadToolCalls := has_tool_calls h in
  let stopReason := if toolUseEmitted && String.eqb stopReason "end_turn" then "tool_use" else stopReason in
  let stopReason := if String.eqb stopReason "tool_use" && negb hadToolCalls then "end_turn" else stopReason in
  finishResponse stopReason (closeActiveBlock h).

Definition handleMessage (msg : SSEMessage) (h : streamHandler) : streamHandler :=
  if returned h then h
  else
    let key := event_key msg in
    let event := Event msg in
    if String.eqb key "model.reasoning-start" then reasoning_start event h
    else if String.eqb key "model.reasoning-delta" then reasoning_delta event h
    else if String.eqb key "model.reasoning-end" then closeActiveBlock h
    else if String.eqb key "model.text-start" then snd (ensureBlock "text" h)
    else if String.eqb key "model.text-delta" then text_delta event h
    else if String.eqb key "model.text-end" then closeActiveBlock h
    else if String.eqb key "model.tool-call-delta" then emitIncrementalTool event h
    else if String.eqb key "model.tool-call" then tool_call event h
    else if String.eqb key "model.tokens-used" then applyUpstreamUsageTokens event h
    else if String.eqb key "model.finish" then finish event h
    else h.

(** * A request *)

(** The fields [resetRoundState] sets, the active block being closed. *)
Definition clear_round (h : streamHandler) : streamHandler :=
  h <| activeThinkingBlockIndex := -1 |> <| activeThinkingSSEIndex := -1 |>
    <| activeTextBlockIndex := -1 |> <| activeTextSSEIndex := -1 |> <| activeBlockType := "" |>
    <| hasReturn := false |> <| returned := false |>
    <| responseText := "" |> <| contentBlocks := [] |>
    <| textBlockBuilders := [] |> <| thinkingBlockBuilders := [] |> <| thinkingBlockSigs := [] |>
    <| pendingToolCalls := [] |> <| toolCallHandled := ∅ |> <| toolCallEmitted := ∅ |> <| streamingTools := ∅ |>
    <| toolCallCount := 0 |> <| outputTokens := 0 |> <| cachedInputTokens := 0 |> <| cacheWriteTokens := 0 |>
    <| reasoningTokens := 0 |> <| completionLogged := false |> <| outputEstimator := Estimator_Reset |>
    <| useUpstreamUsage := false |> <| finalStopReason := "" |> <| hasTextOutput := false |>
    <| firstContentDeltaFlushed := false |>.

Definition resetRoundState (h : streamHandler) : streamHandler := clear_round (closeActiveBlockLocked (lock h)).

(** [newStreamHandler] on a connection that has [io] more writes and flushes in it,
    with the keep-alives of [ticks] to come. *)
Definition newStreamHandler (stream canFlush : bool) (format : ResponseFormat) (id : string) (now : Z)
    (io : option nat) (ticks : list (list duration)) : streamHandler := {|
  isStream := stream; useUpstreamUsage := false; responseFormat := format; disallowToolCalls := false;
  allowedToolNames := ∅; structured := None; flusher := stream && canFlush; returned := false; blockIndex := -1;
  msgID := id; created := now; hasReturn := false; requestFailed := false; completionLogged := false;
  messageStartWritten := false; nonStreamKeepAlive := false; nonStreamOpened := false; pendingModel := "";
  hasReasoningOutput := false; finalStopReason := ""; outputTokens := 0; inputTokens := 0; cachedInputTokens := 0;
  cacheWriteTokens := 0; reasoningTokens := 0; activeThinkingBlockIndex := -1; activeThinkingSSEIndex := -1;
  activeTextBlockIndex := -1; activeTextSSEIndex := -1; activeBlockType := ""; responseText := "";
  outputEstimator := Estimator_Reset; textBlockBuilders := []; thinkingBlockBuilders := []; thinkingBlockSigs := [];
  contentBlocks := []; pendingThinkingSig := ""; hasTextOutput := false; firstContentDeltaFlushed := false;
  pendingToolCalls := []; toolCallHandled := ∅; toolCallEmitted := ∅; streamingTools := ∅; toolCallCount := 0;
  wire := []; io_left := io; sched := ticks; upstream_cancelled := false; stream_failed := false; answer := None
|}.

(** What [HandleMessages] sets on it before the first attempt; the timer of the
    keep-alives starts last. *)
Record request_setup := {
  rq_stream : bool; rq_can_flush : bool; rq_format : ResponseFormat; rq_id : string; rq_now : Z;
  rq_model : string; rq_tools : list string; rq_no_tools : bool; rq_check : option (string -> option go_error);
  rq_input_tokens : Z; rq_keep_alive_disabled : bool
}.

Definition start_request (rq : request_setup) (io : option nat) (ticks : list (list duration)) : streamHandler :=
  let h := newStreamHandler (rq_stream rq) (rq_can_flush rq) (rq_format rq) (rq_id rq) (rq_now rq) io [] in
  let h := setAllowedToolNames (rq_tools rq) h in
  let h := setDisallowToolCalls (rq_no_tools rq) h in
  let h := (lock h) <| structured := rq_check rq |> in
  let h := setUsageTokens (rq_input_tokens rq) (-1) h in
  h <| pendingModel := rq_model rq |>
    <| nonStreamKeepAlive := negb (rq_stream rq) && negb (rq_keep_alive_disabled rq) && rq_can_flush rq |>
    <| sched := ticks |>.

(** What the request's goroutine does with the handler: the start of an attempt of the
    retry loop, an upstream event of the attempt, and the ends of an attempt. *)
Inductive request_op :=
| NextAttempt
| Upstream (msg : SSEMessage)
| AttemptDone
| FinishWith (stopReason : string)
| Fail (category message : string) (retryAfter : duration) (details : list (gmap string json))
| NoAccount (lastErr : string) (selectErr : option go_error).

(** The retry loop resets the handler only where nothing has been returned. *)
Definition next_attempt (h : streamHandler) : streamHandler :=
  let '(state, h) := terminalState h in
  if state.1 then h else resetRoundState h.

Definition run_op (h : streamHandler) (op : request_op) : streamHandler :=
  match op with
  | NextAttempt => next_attempt h
  | Upstream msg => handleMessage msg h
  | AttemptDone => forceFinishIfMissing h
  | FinishWith stopReason => finishResponse stopReason h
  | Fail category message retryAfter details => reportRequestFailure category message retryAfter details h
  | NoAccount lastErr selectErr => InjectNoAvailableAccountError lastErr selectErr h
  end.

(** * The non-streaming answer ([request_completion.go], [response_projection.go]) *)

Inductive answer_block :=
| AText (text : string)
| AThinking (thinking signature : string)
| ATool (id name : string) (input : json).

(** [materializeBlockField] over the blocks. *)
Definition materialize (h : streamHandler) : list answer_block :=
  imap (fun i b =>
    match b with
    | CText => AText (default "" (builderAt (textBlockBuilders h) i))
    | CThinking signature => AThinking (default "" (builderAt (thinkingBlockBuilders h) i)) signature
    | CTool id name input => ATool id name input
    end) (contentBlocks h).

Record answer_usage := { input_tokens : Z; output_tokens : Z }.

Record anthropic_answer := {
  aa_id : string; aa_model : string; aa_stop_reason : string; aa_content : list answer_block; aa_usage : answer_usage
}.

Record openai_answer := {
  oa_id : string; oa_model : string; oa_created : Z; oa_content : string; oa_reasoning : string;
  oa_tool_calls : list (string * string * json); oa_finish_reason : string;
  oa_prompt_tokens : Z; oa_completion_tokens : Z; oa_total_tokens : Z
}.

Inductive final_answer := AnthropicAnswer (a : anthropic_answer) | OpenAIAnswer (a : openai_answer).

Definition mapStopReasonToOpenAIFinishReason (stopReason : string) : string :=
  let r := TrimSpace stopReason in
  if str_in r [""; "end_turn"; "stop"] then "stop"
  else if String.eqb r "tool_use" then "tool_calls"
  else if String.eqb r "max_tokens" then "length"
  else if String.eqb r "refusal" then "content_filter"
  else stopReason.

(** The arguments of a call are what [json.Marshal] prints for the input. *)
Definition buildOpenAINonStreamResponse (h : streamHandler) (blocks : list answer_block) (model stopReason : string)
    : openai_answer :=
  let content := concat_map (fun b => match b with AText text => text | _ => "" end) blocks in
  let calls := omap (fun b => match b with ATool id name input => Some (id, name, input) | _ => None end) blocks in {|
  oa_id := msgID h; oa_model := model; oa_created := created h;
  oa_content := if is_empty (TrimSpace content) && (0 <? length calls)%nat then "" else content;
  oa_reasoning := concat_map (fun b => match b with AThinking text _ => text | _ => "" end) blocks;
  oa_tool_calls := calls;
  oa_finish_reason := mapStopReasonToOpenAIFinishReason stopReason;
  oa_prompt_tokens := inputTokens h; oa_completion_tokens := outputTokens h;
  oa_total_tokens := i64 (inputTokens h + outputTokens h)
|}.

Definition final_response (model : string) (h : streamHandler) : final_answer :=
  let stopReason := if is_empty (finalStopReason h) then "end_turn" else finalStopReason h in
  let blocks := materialize h in
  let blocks := if bool_decide (contentBlocks h = []) && negb (is_empty (responseText h))
                then [AText (responseText h)] else blocks in
  match responseFormat h with
  | FormatOpenAI => OpenAIAnswer (buildOpenAINonStreamResponse h blocks model stopReason)
  | FormatAnthropic =>
      AnthropicAnswer {| aa_id := msgID h; aa_model := model; aa_stop_reason := stopReason; aa_content := blocks;
                         aa_usage := {| input_tokens := inputTokens h; output_tokens := outputTokens h |} |}
  end.

(** What [finishMessages] answers, counts for the account and writes to the journal. *)
Record completion := {
  cp_answer : option final_answer;   (* the JSON body of a non-streaming answer *)
  cp_stats : Z * Z;                  (* input and output tokens counted for the account *)
  cp_success : bool;
  cp_upstream_usage : bool;
  cp_input : Z; cp_cached : Z; cp_cache_write : Z; cp_reasoning : Z; cp_output : Z; cp_total : Z
}.

(** Encoding the body onto the connection: one write; the bytes are those of
    [cp_answer]. *)
Definition write_body (h : streamHandler) : bool * streamHandler := flush h.

Definition finishMessages (model : string) (h : streamHandler) : completion * streamHandler :=
  let h := if hasReturn h then h else finishResponse "end_turn" h in
  let body := if negb (isStream h) && negb (requestFailed h) then Some (final_response model h) else None in
  let h :=
    match body with
    | None => h
    | Some _ => let '(ok, h) := write_body h in if ok then h else markWriteErrorLocked (lock h)
    end in
  ({| cp_answer := body;
      cp_stats := if requestFailed h && negb (useUpstreamUsage h) then (0, 0) else (inputTokens h, outputTokens h);
      cp_success := negb (requestFailed h || (is_empty (finalStopReason h) && negb (hasReturn h)));
      cp_upstream_usage := useUpstreamUsage h;
      cp_input := inputTokens h; cp_cached := cachedInputTokens h; cp_cache_write := cacheWriteTokens h;
      cp_reasoning := reasoningTokens h; cp_output := outputTokens h;
      cp_total := i64 (inputTokens h + outputTokens h) |}, h).

Definition model_event (members : list (string * any)) : SSEMessage := {| Type_ := "model"; Event := members |}.

Definition demo_request (stream : bool) : request_setup := {|
  rq_stream := stream; rq_can_flush := true; rq_format := FormatAnthropic; rq_id := "msg_1"; rq_now := 7;
  rq_model := "m"; rq_tools := ["f"]; rq_no_tools := false; rq_check := None; rq_input_tokens := 3;
  rq_keep_alive_disabled := false
|}.

Definition demo_ops : list request_op :=
  [NextAttempt;
   Upstream (model_event [("type", VString "reasoning-delta"); ("delta", VString "hm")]);
   Upstream (model_event [("type", VString "text-delta"); ("delta", VString "Hi")]);
   Upstream (model_event [("type", VString "tool-call-delta"); ("toolCallId", VString "c1"); ("toolName", VString "f"); ("delta", VString "{}")]);
   Upstream (model_event [("type", VString "tool-call"); ("toolCallId", VString "c1"); ("toolName", VString "f"); ("input", VString "{}")]);
   Upstream (model_event [("type", VString "text-delta"); ("delta", VString "!")]);
   Upstream (model_event [("type", VString "finish"); ("finishReason", VString "stop")]);
   AttemptDone].

Example stream_demo :
  let h := foldl run_op (start_request (demo_request true) None [[]; [50 * Second]]) demo_ops in
  length (wire h) = 16%nat /\ hasReturn h = true /\ finalStopReason h = "tool_use" /\ outputTokens h = 4.
Proof. vm_compute. repeat split. Qed.
