(* ===== verification/StreamProtocol.v ===== *)
(** What a client of the stream relies on: the order of the events of an answer, as
    an automaton over the events it has read; how the events look on the wire; and
    a reader of server-sent events that gets them back from the bytes. *)

From Stdlib Require Import Ascii.
From S2P Require Import Prelude Json SseFrame SseFrameCorrect OpenAISSE StreamHandler.

(** * The order of events *)

Inductive block_kind := KText | KThinking | KTool (id name : string).

Record client_block := { cb_kind : block_kind; cb_text : string; cb_open : bool }.

Inductive ending := Stopped (reason : string) | Failed (code message : string).

(** A client that has read some events: whether the message is open, its blocks so
    far, the stop reason once announced, and how the message ended. *)
Record client := {
  cl_opened : bool;
  cl_blocks : list client_block;
  cl_reason : option string;
  cl_end : option ending
}.

Definition client_start : client := {| cl_opened := false; cl_blocks := []; cl_reason := None; cl_end := None |}.

Definition new_block (b : block_start) : client_block :=
  {| cb_kind := match b with StartText => KText | StartThinking _ => KThinking | StartTool id name => KTool id name end;
     cb_text := ""; cb_open := true |}.

(** A delta fits an open block of its kind. *)
Definition extend_block (d : block_delta) (b : client_block) : option client_block :=
  if negb (cb_open b) then None
  else
    let add t := Some {| cb_kind := cb_kind b; cb_text := cb_text b +:+ t; cb_open := true |} in
    match d, cb_kind b with
    | DeltaText t, KText | DeltaThinking t, KThinking | DeltaInput t, KTool _ _ => add t
    | _, _ => None
    end.

Definition close_block (b : client_block) : option client_block :=
  if cb_open b then Some {| cb_kind := cb_kind b; cb_text := cb_text b; cb_open := false |} else None.

Definition change_block (bs : list client_block) (index : Z) (f : client_block -> option client_block)
    : option (list client_block) :=
  if index <? 0 then None
  else b ← bs !! Z.to_nat index; b ← f b; Some (<[Z.to_nat index := b]> bs).

(** One event more; [None] where the protocol does not allow it. *)
Definition client_step (c : client) (e : sse_event) : option client :=
  match cl_end c, e with
  | Some _, _ => None
  | None, MessageStart _ _ _ _ =>
      if cl_opened c then None else Some {| cl_opened := true; cl_blocks := []; cl_reason := None; cl_end := None |}
  | None, ErrorEvent code message =>
      if cl_opened c
      then Some {| cl_opened := true; cl_blocks := cl_blocks c; cl_reason := cl_reason c; cl_end := Some (Failed code message) |}
      else None
  | None, MessageStop =>
      match cl_reason c with
      | Some reason =>
          Some {| cl_opened := true; cl_blocks := cl_blocks c; cl_reason := Some reason; cl_end := Some (Stopped reason) |}
      | None => None
      end
  | None, _ =>
      if negb (cl_opened c) then None
      else
        match cl_reason c with
        | Some _ => None
        | None =>
            match e with
            | BlockStart index b =>
                if index =? Z.of_nat (length (cl_blocks c))
                then Some {| cl_opened := true; cl_blocks := cl_blocks c ++ [new_block b]; cl_reason := None; cl_end := None |}
                else None
            | BlockDelta index d =>
                bs ← change_block (cl_blocks c) index (extend_block d);
                Some {| cl_opened := true; cl_blocks := bs; cl_reason := None; cl_end := None |}
            | BlockStop index =>
                bs ← change_block (cl_blocks c) index close_block;
                Some {| cl_opened := true; cl_blocks := bs; cl_reason := None; cl_end := None |}
            | MessageDelta reason _ =>
                Some {| cl_opened := true; cl_blocks := cl_blocks c; cl_reason := Some reason; cl_end := None |}
            | _ => None
            end
        end
  end.

(** Between the events, while the message is open, keep-alives. *)
Inductive log_item := Ev (e : sse_event) | Alive.

Definition log_step (c : client) (x : log_item) : option client :=
  match x with
  | Ev e => client_step c e
  | Alive => if cl_opened c then match cl_end c with None => Some c | Some _ => None end else None
  end.

Definition run_log (log : list log_item) : option client :=
  foldl (fun c x => c ← c; log_step c x) (Some client_start) log.

Definition log_events (log : list log_item) : list sse_event :=
  omap (fun x => match x with Ev e => Some e | Alive => None end) log.

(** The text of an answer, as its client puts it together. *)
Definition blocks_text (bs : list client_block) : string :=
  concat_map (fun b => match cb_kind b with KText => cb_text b | _ => "" end) bs.

(** * The events on the wire *)

(** The frames of a log item in the format of the response. *)
Definition render (h : streamHandler) (x : log_item) : list string :=
  match responseFormat h, x with
  | FormatAnthropic, Ev e => [stream_frame (event_name e) (encode (event_json e))]
  | FormatAnthropic, Alive => [ssePing]
  | FormatOpenAI, Ev (ErrorEvent code message) =>
      [stream_frame "" (encode (openai_error_json code message)); sseDoneLine]
  | FormatOpenAI, Ev e =>
      match AppendOpenAIChunk "" (msgID h) (created h) (event_name e) (encode (event_json e)) with
      | Some chunk => [stream_frame "" chunk]
      | None => []
      end ++ match e with MessageStop => [sseDoneLine] | _ => [] end
  | FormatOpenAI, Alive => [sseKeepAlive]
  end.

Definition render_log (h : streamHandler) (log : list log_item) : list string := concat (map (render h) log).

(** * Reading server-sent events *)

Record sse_reader := {
  rd_line : string;                  (* of the current line *)
  rd_event : string;
  rd_data : option string;
  rd_out : list (string * string)    (* the events read: name and data *)
}.

Definition reader_start : sse_reader := {| rd_line := ""; rd_event := ""; rd_data := None; rd_out := [] |}.

(** A complete line: a field, a comment or the end of an event. *)
Definition read_line (r : sse_reader) : sse_reader :=
  let line := rd_line r in
  if is_empty line then
    {| rd_line := ""; rd_event := ""; rd_data := None;
       rd_out := rd_out r ++ match rd_data r with Some data => [(rd_event r, data)] | None => [] end |}
  else if HasPrefix line "event: " then
    {| rd_line := ""; rd_event := drop_bytes 7 line; rd_data := rd_data r; rd_out := rd_out r |}
  else if HasPrefix line "data: " then
    let data := drop_bytes 6 line in
    {| rd_line := ""; rd_event := rd_event r;
       rd_data := Some (match rd_data r with Some d => d +:+ newline +:+ data | None => data end); rd_out := rd_out r |}
  else {| rd_line := ""; rd_event := rd_event r; rd_data := rd_data r; rd_out := rd_out r |}.

Definition read_byte (r : sse_reader) (c : ascii) : sse_reader :=
  if byte_of c =? 10 then read_line r
  else {| rd_line := rd_line r +:+ String c ""; rd_event := rd_event r; rd_data := rd_data r; rd_out := rd_out r |}.

Definition read_bytes (r : sse_reader) (s : string) : sse_reader := foldl read_byte r (String.list_ascii_of_string s).

(** What was sent, byte by byte, and the events a reader makes of it. *)
Definition sent_bytes (h : streamHandler) : string := concat_map id (wire h).
Definition read_stream (s : string) : list (string * string) := rd_out (read_bytes reader_start s).
