(* ===== verification/StreamQuiet.v ===== *)
(** What the operations of [StreamHandler.v] keep of the connection, whatever they do:
    one lemma per operation, found by the [quiet] hint database. A broken connection
    stays broken with nothing more sent, one that does not break stays so, and the
    response's format and mode never change. *)

From S2P Require Import Prelude UpstreamErrors Json SseFrame SseFrameCorrect Tokens OpenAISSE AppErrors StreamHandler StreamProtocol.

(** * What is kept *)

Definition config_of (h : streamHandler) : bool * ResponseFormat * string * Z :=
  (isStream h, responseFormat h, msgID h, created h).

(** A property of what was sent and of the connection that writes and flushes keep. *)
Record keeper := {
  kept : option nat -> list string -> bool * ResponseFormat * string * Z -> Prop;
  kept_write n w c text : n <> Some 0%nat -> kept n w c -> kept (Nat.pred <$> n) (w ++ [text]) c;
  kept_flush n w c : n <> Some 0%nat -> kept n w c -> kept (Nat.pred <$> n) w c
}.

Definition keeps (k : keeper) (h : streamHandler) : Prop := kept k (io_left h) (wire h) (config_of h).

(** The connection of [h0] is broken, and nothing more was sent. *)
Definition broken_as (h0 : streamHandler) : keeper.
Proof.
  refine {| kept n w c := n = Some 0%nat /\ w = wire h0 /\ c = config_of h0 |}; by intros n w c; intros; destruct_and?.
Defined.

(** The connection does not break. *)
Definition unbroken (cfg : bool * ResponseFormat * string * Z) : keeper.
Proof. by refine {| kept n w c := n = None /\ c = cfg |}; intros n w c; intros; destruct_and?; subst. Defined.

Create HintDb quiet discriminated.

Ltac inner_match :=
  match goal with
  | |- context [match ?x with _ => _ end] =>
      lazymatch x with
      | context [match _ with _ => _ end] => fail
      | _ => destruct x eqn:?
      end
  end.

Lemma keeps_write k text h ok h' : write text h = (ok, h') -> keeps k h -> keeps k h'.
Proof.
  intros E Hk. unfold write in E. pose proof Hk as Hk'. unfold keeps in Hk'.
  destruct (io_left h) as [[|n]|] eqn:Hio; injection E as <- <-; [exact Hk|..];
    refine (kept_write k _ _ _ text _ Hk'); done.
Qed.

Lemma keeps_flush k h ok h' : flush h = (ok, h') -> keeps k h -> keeps k h'.
Proof.
  intros E Hk. unfold flush in E. pose proof Hk as Hk'. unfold keeps in Hk'.
  destruct (io_left h) as [[|n]|] eqn:Hio; injection E as <- <-; [exact Hk|..];
    refine (kept_flush k _ _ _ _ Hk'); done.
Qed.

#[export] Hint Extern 1 (keeps ?k ?h) => (match goal with
  | H : keeps k h |- _ => exact H
  | E : write _ _ = (_, h) |- _ => apply (keeps_write _ _ _ _ _ E)
  | E : flush _ = (_, h) |- _ => apply (keeps_flush _ _ _ _ E)
  end) : quiet.
#[export] Hint Extern 2 (keeps ?k (set_field _ _ ?h)) => change (keeps k h) : quiet.

(** Goes through a body: each handler bound on the way keeps it in its turn. *)
Ltac quiet_let :=
  match goal with
  | |- keeps ?k (let x := ?e in @?b x) =>
      change (keeps k (b e));
      lazymatch type of e with
      | streamHandler =>
          let H := fresh "Hq" in assert (H : keeps k e); [|revert H; generalize e; intros ? H; cbv beta]
      | _ => generalize e; intro; cbv beta
      end
  | |- (let x := ?e in @?b x) = ?r -> keeps ?k ?h' =>
      change (b e = r -> keeps k h');
      lazymatch type of e with
      | streamHandler =>
          let H := fresh "Hq" in assert (H : keeps k e); [|revert H; generalize e; intros ? H; cbv beta]
      | _ => generalize e; intro; cbv beta
      end
  | |- (_, _) = (_, _) -> keeps _ _ => (intros [= <- <- <-] || intros [= <- <-])
  end.

Ltac quiet := repeat first [solve [eauto 40 with quiet nocore] | quiet_let | inner_match | progress cbv beta iota].

Lemma quiet_markWriteErrorLocked k h : keeps k h -> keeps k (markWriteErrorLocked h).
Proof. intros H. exact H. Qed.
#[export] Hint Resolve quiet_markWriteErrorLocked : quiet.

Lemma quiet_flushStreamLocked k h : keeps k h -> keeps k (flushStreamLocked h).
Proof. intros H. unfold flushStreamLocked. quiet. Qed.
#[export] Hint Resolve quiet_flushStreamLocked : quiet.

Lemma quiet_flushSSEWithLenLocked k event h : keeps k h -> keeps k (flushSSEWithLenLocked event h).
Proof. intros H. unfold flushSSEWithLenLocked. quiet. Qed.
#[export] Hint Resolve quiet_flushSSEWithLenLocked : quiet.

Lemma quiet_emitSSEFrameLocked k event data final h : keeps k h -> keeps k (emitSSEFrameLocked event data final h).
Proof. intros H. unfold emitSSEFrameLocked, writeOpenAISSEBytes, writeStreamFrameLocked. quiet. Qed.
#[export] Hint Resolve quiet_emitSSEFrameLocked : quiet.

(* GEN *)
Lemma quiet_writeFinalSSEBytesLocked k event data h : keeps k h -> keeps k (writeFinalSSEBytesLocked event data h).
Proof. intros H. unfold writeFinalSSEBytesLocked. quiet. Qed.
#[export] Hint Resolve quiet_writeFinalSSEBytesLocked : quiet.

Lemma quiet_writeSSEBytesLocked k event data h : keeps k h -> keeps k (writeSSEBytesLocked event data h).
Proof. intros H. unfold writeSSEBytesLocked. quiet. Qed.
#[export] Hint Resolve quiet_writeSSEBytesLocked : quiet.

Lemma quiet_writeMessageStartLocked k model i o h : keeps k h -> keeps k (writeMessageStartLocked model i o h).
Proof. intros H. unfold writeMessageStartLocked. quiet. Qed.
#[export] Hint Resolve quiet_writeMessageStartLocked : quiet.

Lemma quiet_ensureMessageStartLocked k  h x h' : ensureMessageStartLocked  h = (x, h') -> keeps k h -> keeps k h'.
Proof. intros E H. revert E. unfold ensureMessageStartLocked. quiet. Qed.
#[export] Hint Extern 1 (keeps _ ?h) => (match goal with E : ensureMessageStartLocked  _ = (_, h) |- _ => apply (quiet_ensureMessageStartLocked _ _ _ _ E) end) : quiet.

Lemma quiet_writeSSEBytesLockedWithHint k event data h : keeps k h -> keeps k (writeSSEBytesLockedWithHint event data h).
Proof. intros H. unfold writeSSEBytesLockedWithHint. quiet. Qed.
#[export] Hint Resolve quiet_writeSSEBytesLockedWithHint : quiet.

Lemma quiet_write_payload k event raw final h : keeps k h -> keeps k (write_payload event raw final h).
Proof. intros H. unfold write_payload. quiet. Qed.
#[export] Hint Resolve quiet_write_payload : quiet.

Lemma quiet_writeSSEContentBlockStartToolUseLocked k index id name final h : keeps k h -> keeps k (writeSSEContentBlockStartToolUseLocked index id name final h).
Proof. intros H. unfold writeSSEContentBlockStartToolUseLocked. quiet. Qed.
#[export] Hint Resolve quiet_writeSSEContentBlockStartToolUseLocked : quiet.

Lemma quiet_writeSSEContentBlockStartTextLocked k index final h : keeps k h -> keeps k (writeSSEContentBlockStartTextLocked index final h).
Proof. intros H. unfold writeSSEContentBlockStartTextLocked. quiet. Qed.
#[export] Hint Resolve quiet_writeSSEContentBlockStartTextLocked : quiet.

Lemma quiet_writeSSEContentBlockDeltaInputJSONLocked k index j final h : keeps k h -> keeps k (writeSSEContentBlockDeltaInputJSONLocked index j final h).
Proof. intros H. unfold writeSSEContentBlockDeltaInputJSONLocked. quiet. Qed.
#[export] Hint Resolve quiet_writeSSEContentBlockDeltaInputJSONLocked : quiet.

Lemma quiet_writeSSEContentBlockDeltaTextLocked k index t final h : keeps k h -> keeps k (writeSSEContentBlockDeltaTextLocked index t final h).
Proof. intros H. unfold writeSSEContentBlockDeltaTextLocked. quiet. Qed.
#[export] Hint Resolve quiet_writeSSEContentBlockDeltaTextLocked : quiet.

Lemma quiet_writeSSEContentBlockDeltaThinkingLocked k index t final h : keeps k h -> keeps k (writeSSEContentBlockDeltaThinkingLocked index t final h).
Proof. intros H. unfold writeSSEContentBlockDeltaThinkingLocked. quiet. Qed.
#[export] Hint Resolve quiet_writeSSEContentBlockDeltaThinkingLocked : quiet.

Lemma quiet_writeSSEContentBlockStopLocked k index final h : keeps k h -> keeps k (writeSSEContentBlockStopLocked index final h).
Proof. intros H. unfold writeSSEContentBlockStopLocked. quiet. Qed.
#[export] Hint Resolve quiet_writeSSEContentBlockStopLocked : quiet.

Lemma quiet_writeSSEMessageDeltaLocked k r o final h : keeps k h -> keeps k (writeSSEMessageDeltaLocked r o final h).
Proof. intros H. unfold writeSSEMessageDeltaLocked. quiet. Qed.
#[export] Hint Resolve quiet_writeSSEMessageDeltaLocked : quiet.

Lemma quiet_stream_keep_alive k elapsed h : keeps k h -> keeps k (stream_keep_alive elapsed h).
Proof. intros H. unfold stream_keep_alive. quiet. Qed.
#[export] Hint Resolve quiet_stream_keep_alive : quiet.

Lemma quiet_writeNonStreamKeepAlive k elapsed h : keeps k h -> keeps k (writeNonStreamKeepAlive elapsed h).
Proof. intros H. unfold writeNonStreamKeepAlive. quiet. Qed.
#[export] Hint Resolve quiet_writeNonStreamKeepAlive : quiet.

Lemma quiet_writeKeepAlive k elapsed h : keeps k h -> keeps k (writeKeepAlive elapsed h).
Proof. intros H. unfold writeKeepAlive. quiet. Qed.
#[export] Hint Resolve quiet_writeKeepAlive : quiet.

Lemma quiet_lock k  h : keeps k h -> keeps k (lock  h).
Proof.
  intros H. unfold lock. destruct (sched h) as [|ticks rest]; [done|].
  assert (keeps k (h <| sched := rest |>)) as H' by exact H. revert H'. generalize (h <| sched := rest |>).
  induction ticks as [|elapsed ticks IH]; intros h' H'; [done|]. cbn [foldl]. apply IH. quiet.
Qed.
#[export] Hint Resolve quiet_lock : quiet.

Lemma quiet_popActiveBlockStopDataLocked k  h x h' : popActiveBlockStopDataLocked  h = (x, h') -> keeps k h -> keeps k h'.
Proof. intros E H. revert E. unfold popActiveBlockStopDataLocked. quiet. Qed.
#[export] Hint Extern 1 (keeps _ ?h) => (match goal with E : popActiveBlockStopDataLocked  _ = (_, h) |- _ => apply (quiet_popActiveBlockStopDataLocked _ _ _ _ E) end) : quiet.

Lemma quiet_closeActiveBlockLocked k  h : keeps k h -> keeps k (closeActiveBlockLocked  h).
Proof. intros H. unfold closeActiveBlockLocked. quiet. Qed.
#[export] Hint Resolve quiet_closeActiveBlockLocked : quiet.

Lemma quiet_closeActiveBlock k  h : keeps k h -> keeps k (closeActiveBlock  h).
Proof. intros H. unfold closeActiveBlock. quiet. Qed.
#[export] Hint Resolve quiet_closeActiveBlock : quiet.

Lemma quiet_close_other k t h : keeps k h -> keeps k (close_other t h).
Proof. intros H. unfold close_other. quiet. Qed.
#[export] Hint Resolve quiet_close_other : quiet.

Lemma quiet_start_block k t h : keeps k h -> keeps k (start_block t h).
Proof. intros H. unfold start_block. quiet. Qed.
#[export] Hint Resolve quiet_start_block : quiet.

Lemma quiet_ensureBlock k t h x h' : ensureBlock t h = (x, h') -> keeps k h -> keeps k h'.
Proof. intros E H. revert E. unfold ensureBlock. quiet. Qed.
#[export] Hint Extern 1 (keeps _ ?h) => (match goal with E : ensureBlock _ _ = (_, h) |- _ => apply (quiet_ensureBlock _ _ _ _ _ E) end) : quiet.

Lemma quiet_set_block_signature k i sig h : keeps k h -> keeps k (set_block_signature i sig h).
Proof. intros H. unfold set_block_signature. quiet. Qed.
#[export] Hint Resolve quiet_set_block_signature : quiet.

Lemma quiet_addOutputTokens k text h : keeps k h -> keeps k (addOutputTokens text h).
Proof. intros H. unfold addOutputTokens. quiet. Qed.
#[export] Hint Resolve quiet_addOutputTokens : quiet.

Lemma quiet_finalizeOutputTokens k  h : keeps k h -> keeps k (finalizeOutputTokens  h).
Proof. intros H. unfold finalizeOutputTokens. quiet. Qed.
#[export] Hint Resolve quiet_finalizeOutputTokens : quiet.

Lemma quiet_applyUpstreamUsageTokens k usage h : keeps k h -> keeps k (applyUpstreamUsageTokens usage h).
Proof.
  intros H. assert (Hl : keeps k (lock h)) by quiet. unfold applyUpstreamUsageTokens. destruct usage as [|u usage]; [done|].
  repeat (match goal with |- context [read_usage (u :: usage) ?l] => generalize (read_usage (u :: usage) l); intro end).
  repeat case_match; first [exact H|exact Hl].
Qed.
#[export] Hint Resolve quiet_applyUpstreamUsageTokens : quiet.

Lemma quiet_setUsageTokens k i o h : keeps k h -> keeps k (setUsageTokens i o h).
Proof. intros H. unfold setUsageTokens. quiet. Qed.
#[export] Hint Resolve quiet_setUsageTokens : quiet.

Lemma quiet_emitToolCallNonStream k call h : keeps k h -> keeps k (emitToolCallNonStream call h).
Proof. intros H. unfold emitToolCallNonStream. quiet. Qed.
#[export] Hint Resolve quiet_emitToolCallNonStream : quiet.

Lemma quiet_tool_frames k idx id name j final h : keeps k h -> keeps k (tool_frames idx id name j final h).
Proof. intros H. unfold tool_frames. quiet. Qed.
#[export] Hint Resolve quiet_tool_frames : quiet.

Lemma quiet_emitToolCallStream k call idx final h : keeps k h -> keeps k (emitToolCallStream call idx final h).
Proof. intros H. unfold emitToolCallStream. quiet. Qed.
#[export] Hint Resolve quiet_emitToolCallStream : quiet.

Lemma quiet_next_call k h : keeps k h -> keeps k (next_call h).
Proof. intros H. exact H. Qed.
#[export] Hint Resolve quiet_next_call : quiet.

Lemma quiet_stream_tool k id h : keeps k h -> keeps k (stream_tool id h).
Proof. intros H. exact H. Qed.
#[export] Hint Resolve quiet_stream_tool : quiet.

Lemma quiet_emitToolUseFromInput k id name input h : keeps k h -> keeps k (emitToolUseFromInput id name input h).
Proof. intros H. unfold emitToolUseFromInput. quiet. Qed.
#[export] Hint Resolve quiet_emitToolUseFromInput : quiet.

Lemma quiet_flushPendingToolCalls k  h : keeps k h -> keeps k (flushPendingToolCalls  h).
Proof.
  intros H. unfold flushPendingToolCalls.
  assert (keeps k ((lock h) <| pendingToolCalls := [] |>)) as H' by quiet. revert H'.
  generalize ((lock h) <| pendingToolCalls := [] |>), (pendingToolCalls (lock h)). intros h' calls. revert h'.
  induction calls as [|call calls IH]; intros h' H'; [done|]. cbn [foldl]. apply IH. quiet.
Qed.
#[export] Hint Resolve quiet_flushPendingToolCalls : quiet.

Lemma quiet_handleToolCallAfterChecks k call h : keeps k h -> keeps k (handleToolCallAfterChecks call h).
Proof. intros H. unfold handleToolCallAfterChecks. quiet. Qed.
#[export] Hint Resolve quiet_handleToolCallAfterChecks : quiet.

Lemma quiet_shouldAcceptToolCall k call h x h' : shouldAcceptToolCall call h = (x, h') -> keeps k h -> keeps k h'.
Proof. intros E H. revert E. unfold shouldAcceptToolCall. quiet. Qed.
#[export] Hint Extern 1 (keeps _ ?h) => (match goal with E : shouldAcceptToolCall _ _ = (_, h) |- _ => apply (quiet_shouldAcceptToolCall _ _ _ _ _ E) end) : quiet.

Lemma quiet_open_tool_block k id name h x h' : open_tool_block id name h = (x, h') -> keeps k h -> keeps k h'.
Proof. intros E H. revert E. unfold open_tool_block. quiet. Qed.
#[export] Hint Extern 1 (keeps _ ?h) => (match goal with E : open_tool_block _ _ _ = (_, h) |- _ => apply (quiet_open_tool_block _ _ _ _ _ _ E) end) : quiet.

Lemma quiet_publish_tool_delta k idx delta h : keeps k h -> keeps k (publish_tool_delta idx delta h).
Proof. intros H. unfold publish_tool_delta. quiet. Qed.
#[export] Hint Resolve quiet_publish_tool_delta : quiet.

Lemma quiet_emitIncrementalTool k event h : keeps k h -> keeps k (emitIncrementalTool event h).
Proof. intros H. unfold emitIncrementalTool. quiet. Qed.
#[export] Hint Resolve quiet_emitIncrementalTool : quiet.

Lemma quiet_terminalState k  h x h' : terminalState  h = (x, h') -> keeps k h -> keeps k h'.
Proof. intros E H. revert E. unfold terminalState. quiet. Qed.
#[export] Hint Extern 1 (keeps _ ?h) => (match goal with E : terminalState  _ = (_, h) |- _ => apply (quiet_terminalState _ _ _ _ E) end) : quiet.

Lemma quiet_hasCommitted k  h x h' : hasCommitted  h = (x, h') -> keeps k h -> keeps k h'.
Proof. intros E H. revert E. unfold hasCommitted. quiet. Qed.
#[export] Hint Extern 1 (keeps _ ?h) => (match goal with E : hasCommitted  _ = (_, h) |- _ => apply (quiet_hasCommitted _ _ _ _ E) end) : quiet.

Lemma quiet_writeStreamError k c m h : keeps k h -> keeps k (writeStreamError c m h).
Proof. intros H. unfold writeStreamError, writeStreamFrameLocked. quiet. Qed.
#[export] Hint Resolve quiet_writeStreamError : quiet.

Lemma quiet_snd_write k text h : keeps k h -> keeps k (snd (write text h)).
Proof. intros H. destruct (write text h) as [ok h'] eqn:E. by apply (keeps_write _ _ _ _ _ E). Qed.
#[export] Hint Resolve quiet_snd_write : quiet.

Lemma quiet_snd_ensureBlock k t h : keeps k h -> keeps k (snd (ensureBlock t h)).
Proof. intros H. destruct (ensureBlock t h) as [x h'] eqn:E. by apply (quiet_ensureBlock _ _ _ _ _ E). Qed.
#[export] Hint Resolve quiet_snd_ensureBlock : quiet.

Lemma quiet_reportRequestFailure k c m r d h : keeps k h -> keeps k (reportRequestFailure c m r d h).
Proof. intros H. unfold reportRequestFailure. quiet. Qed.
#[export] Hint Resolve quiet_reportRequestFailure : quiet.

Lemma quiet_validateStructuredAnswer k  h x h' : validateStructuredAnswer  h = (x, h') -> keeps k h -> keeps k h'.
Proof. intros E H. revert E. unfold validateStructuredAnswer. quiet. Qed.
#[export] Hint Extern 1 (keeps _ ?h) => (match goal with E : validateStructuredAnswer  _ = (_, h) |- _ => apply (quiet_validateStructuredAnswer _ _ _ _ E) end) : quiet.

Lemma quiet_finalizeCompletion k  h : keeps k h -> keeps k (finalizeCompletion  h).
Proof. intros H. unfold finalizeCompletion. quiet. Qed.
#[export] Hint Resolve quiet_finalizeCompletion : quiet.

Lemma quiet_finish_stream k r h : keeps k h -> keeps k (finish_stream r h).
Proof. intros H. unfold finish_stream. quiet. Qed.
#[export] Hint Resolve quiet_finish_stream : quiet.

Lemma quiet_claim_response k r h : keeps k h -> keeps k (claim_response r h).
Proof. intros H. unfold claim_response. quiet. Qed.
#[export] Hint Resolve quiet_claim_response : quiet.

Lemma quiet_open_and_claim k r h : keeps k h -> keeps k (open_and_claim r h).
Proof. intros H. unfold open_and_claim. quiet. Qed.
#[export] Hint Resolve quiet_open_and_claim : quiet.

Lemma quiet_settled_reason k r h x h' : settled_reason r h = (x, h') -> keeps k h -> keeps k h'.
Proof. intros E H. revert E. unfold settled_reason. quiet. Qed.
#[export] Hint Extern 1 (keeps _ ?h) => (match goal with E : settled_reason _ _ = (_, h) |- _ => apply (quiet_settled_reason _ _ _ _ _ E) end) : quiet.

Lemma quiet_finishResponse k r h : keeps k h -> keeps k (finishResponse r h).
Proof. intros H. unfold finishResponse. quiet. Qed.
#[export] Hint Resolve quiet_finishResponse : quiet.

Lemma quiet_forceFinishIfMissing k  h : keeps k h -> keeps k (forceFinishIfMissing  h).
Proof. intros H. unfold forceFinishIfMissing. quiet. Qed.
#[export] Hint Resolve quiet_forceFinishIfMissing : quiet.

Lemma quiet_InjectNoAvailableAccountError k l s h : keeps k h -> keeps k (InjectNoAvailableAccountError l s h).
Proof. intros H. unfold InjectNoAvailableAccountError. quiet. Qed.
#[export] Hint Resolve quiet_InjectNoAvailableAccountError : quiet.

Lemma quiet_reasoning_start k event h : keeps k h -> keeps k (reasoning_start event h).
Proof. intros H. unfold reasoning_start. quiet. Qed.
#[export] Hint Resolve quiet_reasoning_start : quiet.

Lemma quiet_reasoning_signature k event h x h' : reasoning_signature event h = (x, h') -> keeps k h -> keeps k h'.
Proof. intros E H. revert E. unfold reasoning_signature. quiet. Qed.
#[export] Hint Extern 1 (keeps _ ?h) => (match goal with E : reasoning_signature _ _ = (_, h) |- _ => apply (quiet_reasoning_signature _ _ _ _ _ E) end) : quiet.

Lemma quiet_thinking_position k h x y h' : thinking_position h = (x, y, h') -> keeps k h -> keeps k h'.
Proof. intros E H. revert E. unfold thinking_position. quiet. Qed.
#[export] Hint Extern 1 (keeps _ ?h) => (match goal with E : thinking_position _ = (_, _, h) |- _ => apply (quiet_thinking_position _ _ _ _ _ E) end) : quiet.

Lemma quiet_keep_thinking k i d h : keeps k h -> keeps k (keep_thinking i d h).
Proof. intros H. unfold keep_thinking. repeat case_match; exact H. Qed.
#[export] Hint Resolve quiet_keep_thinking : quiet.

Lemma quiet_reasoning_delta k event h : keeps k h -> keeps k (reasoning_delta event h).
Proof. intros H. unfold reasoning_delta. quiet. Qed.
#[export] Hint Resolve quiet_reasoning_delta : quiet.

Lemma quiet_text_position k h x y h' : text_position h = (x, y, h') -> keeps k h -> keeps k h'.
Proof. intros E H. revert E. unfold text_position. quiet. Qed.
#[export] Hint Extern 1 (keeps _ ?h) => (match goal with E : text_position _ = (_, _, h) |- _ => apply (quiet_text_position _ _ _ _ _ E) end) : quiet.

Lemma quiet_keep_text k i d h : keeps k h -> keeps k (keep_text i d h).
Proof. intros H. unfold keep_text. repeat case_match; exact H. Qed.
#[export] Hint Resolve quiet_keep_text : quiet.

Lemma quiet_text_delta k event h : keeps k h -> keeps k (text_delta event h).
Proof. intros H. unfold text_delta. quiet. Qed.
#[export] Hint Resolve quiet_text_delta : quiet.

Lemma quiet_tool_call k event h : keeps k h -> keeps k (tool_call event h).
Proof. intros H. unfold tool_call. quiet. Qed.
#[export] Hint Resolve quiet_tool_call : quiet.

Lemma quiet_finish k event h : keeps k h -> keeps k (finish event h).
Proof. intros H. unfold finish. quiet. Qed.
#[export] Hint Resolve quiet_finish : quiet.

Lemma quiet_handleMessage k msg h : keeps k h -> keeps k (handleMessage msg h).
Proof. intros H. unfold handleMessage. quiet. Qed.
#[export] Hint Resolve quiet_handleMessage : quiet.

Lemma quiet_clear_round k  h : keeps k h -> keeps k (clear_round  h).
Proof. intros H. unfold clear_round. repeat case_match; exact H. Qed.
#[export] Hint Resolve quiet_clear_round : quiet.

Lemma quiet_resetRoundState k  h : keeps k h -> keeps k (resetRoundState  h).
Proof. intros H. unfold resetRoundState. quiet. Qed.
#[export] Hint Resolve quiet_resetRoundState : quiet.

Lemma quiet_next_attempt k  h : keeps k h -> keeps k (next_attempt  h).
Proof. intros H. unfold next_attempt. quiet. Qed.
#[export] Hint Resolve quiet_next_attempt : quiet.

Lemma quiet_run_op k h op : keeps k h -> keeps k (run_op h op).
Proof. intros H. destruct op; cbn [run_op]; quiet. Qed.
