(* ===== verification/StreamCorrect.v ===== *)
(** The stream the program sends is an answer its client can follow. *)

From S2P Require Import Prelude UpstreamErrors Json SseFrame SseFrameCorrect Tokens OpenAISSE AppErrors StreamHandler StreamProtocol StreamQuiet.

(** * Sending *)

(** What an attempt to send [items] comes to: they are on the wire, or the connection
    broke on the way. *)
Inductive outcome (h : streamHandler) (items : list string) (h' : streamHandler) : Prop :=
| out_sent n f :
    h' = h <| wire := wire h ++ items |> <| io_left := n |> <| firstContentDeltaFlushed := f |> -> outcome h items h'
| out_broken :
    io_left h' = Some 0%nat -> config_of h' = config_of h -> wire h' `prefix_of` wire h ++ items -> outcome h items h'.

Lemma write_cases text h :
  (exists n, write text h = (true, h <| wire := wire h ++ [text] |> <| io_left := n |>))
  \/ (write text h = (false, h) /\ io_left h = Some 0%nat).
Proof. unfold write. destruct (io_left h) as [[|n]|] eqn:E; eauto. Qed.

Lemma flush_cases h :
  (exists n, flush h = (true, h <| io_left := n |>)) \/ (flush h = (false, h) /\ io_left h = Some 0%nat).
Proof. unfold flush. destruct (io_left h) as [[|n]|] eqn:E; eauto. Qed.

Lemma flushSSE_cases event h :
  (exists n f, flushSSEWithLenLocked event h = h <| io_left := n |> <| firstContentDeltaFlushed := f |>)
  \/ (io_left (flushSSEWithLenLocked event h) = Some 0%nat
      /\ config_of (flushSSEWithLenLocked event h) = config_of h /\ wire (flushSSEWithLenLocked event h) = wire h).
Proof.
  unfold flushSSEWithLenLocked, flushStreamLocked. destruct (flusher h); cbn [negb].
  2: { left. exists (io_left h), (firstContentDeltaFlushed h). by destruct h. }
  destruct (String.eqb event "content_block_delta").
  - destruct (flush_cases (h <| firstContentDeltaFlushed := true |>)) as [[n ->]|[-> E]].
    + left. exists n, true. done.
    + right. split_and!; [exact E|done|done].
  - destruct (flush_cases h) as [[n ->]|[-> E]].
    + left. exists n, (firstContentDeltaFlushed h). by destruct h.
    + right. split_and!; [exact E|done|done].
Qed.

Lemma outcome_nil h : outcome h [] h.
Proof.
  apply (out_sent _ _ _ (io_left h) (firstContentDeltaFlushed h)). rewrite app_nil_r. by destruct h.
Qed.

Lemma outcome_app h items1 h1 items2 h2 : outcome h items1 h1 ->
  (forall n f, h1 = h <| wire := wire h ++ items1 |> <| io_left := n |> <| firstContentDeltaFlushed := f |> ->
    outcome h1 items2 h2) ->
  (io_left h1 = Some 0%nat -> keeps (broken_as h1) h2) ->
  outcome h (items1 ++ items2) h2.
Proof.
  intros [n f E|E1 E2 E3] Hnext Hquiet.
  - destruct (Hnext n f E) as [n' f' ->|E1 E2 E3]; subst h1.
    + apply (out_sent _ _ _ n' f'). cbn. unfold set_field, update_with. cbn. by rewrite app_assoc.
    + apply out_broken; [done|exact E2|]. rewrite app_assoc. exact E3.
  - destruct Hquiet as (Q1 & Q2 & Q3); [done|].  apply out_broken; [done|congruence|].
    rewrite Q2. etrans; [exact E3|]. rewrite app_assoc. by apply prefix_app_r.
Qed.

Lemma outcome_frame event text h :
  outcome h [text]
    (let '(ok, h) := write text h in if ok then flushSSEWithLenLocked event h else markWriteErrorLocked h).
Proof.
  destruct (write_cases text h) as [[n ->]|[-> E]].
  - destruct (flushSSE_cases event (h <| wire := wire h ++ [text] |> <| io_left := n |>)) as [(n' & f & ->)|(E1 & E2 & E3)].
    + by apply (out_sent _ _ _ n' f).
    + apply out_broken; [done|exact E2|]. by rewrite E3.
  - apply out_broken; [exact E|done|]. by apply prefix_app_r.
Qed.

Lemma outcome_openai event (chunk : option string) (last : bool) h :
  requestFailed h = false ->
  outcome h (match chunk with Some c => [stream_frame "" c] | None => [] end ++ (if last then [sseDoneLine] else []))
    (let '(written, h) :=
       match chunk with
       | None => (inl false, h)
       | Some raw => let '(ok, h) := write (stream_frame "" raw) h in if ok then (inl true, h) else (inr tt, h)
       end in
     match written : bool + unit with
     | inr _ => markWriteErrorLocked h
     | inl written =>
         let h := if written then flushSSEWithLenLocked event h else h in
         if last && negb (requestFailed h) then
           let '(ok, h) := write sseDoneLine h in
           if ok then flushSSEWithLenLocked event h else markWriteErrorLocked h
         else h
     end).
Proof.
  intros Hf.
  assert (Hdone : forall h1 items, (exists n f, h1 = h <| wire := wire h ++ items |> <| io_left := n |> <| firstContentDeltaFlushed := f |>)
      \/ (io_left h1 = Some 0%nat /\ config_of h1 = config_of h /\ wire h1 = wire h ++ items) ->
    outcome h (items ++ (if last then [sseDoneLine] else []))
      (if last && negb (requestFailed h1) then
         let '(ok, h) := write sseDoneLine h1 in
         if ok then flushSSEWithLenLocked event h else markWriteErrorLocked h
       else h1)).
  { intros h1 items [(n & f & ->)|(E1 & E2 & E3)].
    - destruct last; cbn [andb]; [|rewrite app_nil_r; by apply (out_sent _ _ _ n f)].
      match goal with |- context [requestFailed ?x] => change (requestFailed x) with (requestFailed h) end.
      rewrite Hf. cbn [negb].
      destruct (outcome_frame event sseDoneLine (h <| wire := wire h ++ items |> <| io_left := n |> <| firstContentDeltaFlushed := f |>))
        as [n' f' ->|E1 E2 E3].
      + apply (out_sent _ _ _ n' f'). rewrite app_assoc. done.
      + apply out_broken; [done|exact E2|]. rewrite app_assoc. exact E3.
    - assert (Hw : write sseDoneLine h1 = (false, h1)) by (unfold write; by rewrite E1).
      rewrite Hw. destruct (last && negb (requestFailed h1)); (apply out_broken; [exact E1|exact E2|]);
        rewrite app_assoc; (etrans; [|apply prefix_app_r; reflexivity]); change (wire h1 `prefix_of` wire h ++ items); by rewrite E3. }
  destruct chunk as [c|].
  - destruct (write_cases (stream_frame "" c) h) as [[n ->]|[-> E]]; cbv beta iota.
    + apply Hdone. destruct (flushSSE_cases event (h <| wire := wire h ++ [stream_frame "" c] |> <| io_left := n |>))
        as [(n' & f & ->)|(E1 & E2 & E3)]; [left; by exists n', f|right; by split_and!].
    + apply out_broken; [exact E|done|]. by apply prefix_app_r.
  - apply Hdone. left. exists (io_left h), (firstContentDeltaFlushed h). rewrite app_nil_r. by destruct h.
Qed.

(** One event: its frames are sent, or the connection broke. *)
Lemma emit_outcome e final h :
  isStream h = true -> requestFailed h = false -> (e = MessageStop -> final = true) ->
  (forall code message, e <> ErrorEvent code message) ->
  outcome h (render h (Ev e)) (emitSSEFrameLocked (event_name e) (encode (event_json e)) final h).
Proof.
  intros Hs Hf Hfinal Herr. unfold emitSSEFrameLocked, render. rewrite Hs, Hf. cbn [negb orb].
  destruct (responseFormat h) eqn:Hfmt; [unfold writeStreamFrameLocked; apply outcome_frame|].
  pose proof (outcome_openai (event_name e) (AppendOpenAIChunk "" (msgID h) (created h) (event_name e) (encode (event_json e)))
    (final && String.eqb (event_name e) "message_stop") h Hf) as H.
  assert (Hlast : (if final && String.eqb (event_name e) "message_stop" then [sseDoneLine] else [])
    = match e with MessageStop => [sseDoneLine] | _ => [] end).
  { destruct e; cbn [event_name String.eqb Ascii.eqb Bool.eqb]; rewrite ?andb_false_r; try done. by rewrite Hfinal. }
  rewrite Hlast in H. unfold writeOpenAISSEBytes, writeStreamFrameLocked.
  destruct e; try exact H. by edestruct Herr.
Qed.

(** * A live stream *)

(** The block the handler writes to. *)
Inductive active_block := NoBlock | TextAt (n : nat) | ThinkingAt (n : nat).

Definition active_fields (h : streamHandler) (a : active_block) : Prop :=
  match a with
  | NoBlock => activeBlockType h = "" /\ activeTextSSEIndex h = -1 /\ activeThinkingSSEIndex h = -1
  | TextAt n => activeBlockType h = "text" /\ activeTextSSEIndex h = Z.of_nat n /\ activeThinkingSSEIndex h = -1
  | ThinkingAt n => activeBlockType h = "thinking" /\ activeTextSSEIndex h = -1 /\ activeThinkingSSEIndex h = Z.of_nat n
  end.

Definition open_block (k : block_kind) (t : string) : client_block := {| cb_kind := k; cb_text := t; cb_open := true |}.

(** The active block is open, and the last of its kind. *)
Definition active_open (bs : list client_block) (a : active_block) : Prop :=
  match a with
  | NoBlock => True
  | TextAt n =>
      (exists t, bs !! n = Some (open_block KText t))
      /\ forall m b, (n < m)%nat -> bs !! m = Some b -> cb_kind b <> KText
  | ThinkingAt n => exists t, bs !! n = Some (open_block KThinking t)
  end.

(** Every other open block is a tool's. *)
Definition others_closed (bs : list client_block) (a : active_block) : Prop :=
  forall n b, bs !! n = Some b -> cb_open b = true ->
    match cb_kind b with KText => a = TextAt n | KThinking => a = ThinkingAt n | KTool _ _ => True end.

(** The streaming tools have open blocks of their own. *)
Definition tools_open (tools : gmap string Z) (bs : list client_block) : Prop :=
  (forall id i, tools !! id = Some i ->
     exists n id' name t, i = Z.of_nat n /\ bs !! n = Some (open_block (KTool id' name) t))
  /\ forall id id' i, tools !! id = Some i -> tools !! id' = Some i -> id = id'.

(** The fields of a stream that has not failed, and the blocks its client has. *)
Record layout (ret : bool) (h : streamHandler) (bs : list client_block) (a : active_block) : Prop := {
  lo_stream : isStream h = true;
  lo_return : hasReturn h = ret;
  lo_returned : returned h = ret;
  lo_failed : requestFailed h = false;
  lo_cancelled : upstream_cancelled h = false;
  lo_answer : answer h = None;
  lo_pending : pendingToolCalls h = [];
  lo_text : responseText h = "";
  lo_silent : nonStreamOpened h = false;
  lo_count : Z.of_nat (length bs) = blockIndex h + 1;
  lo_active : active_fields h a;
  lo_open : active_open bs a;
  lo_others : others_closed bs a;
  lo_tools : tools_open (streamingTools h) bs
}.

Definition client_of (h : streamHandler) (bs : list client_block) : client :=
  {| cl_opened := messageStartWritten h; cl_blocks := bs; cl_reason := None; cl_end := None |}.

(** What was sent is the log of the answer so far. *)
Record wired (h : streamHandler) (log : list log_item) (bs : list client_block) : Prop := {
  wi_wire : wire h = render_log h log;
  wi_run : run_log log = Some (client_of h bs);
  wi_unopened : messageStartWritten h = false -> bs = []
}.

Definition sendable (h : streamHandler) : Prop :=
  isStream h = true /\ hasReturn h = false /\ requestFailed h = false.

Definition live (h : streamHandler) (bs : list client_block) (a : active_block) : Prop :=
  layout false h bs a /\ exists log, wired h log bs.

(** The connection broke; what got through is the beginning of an answer. *)
Definition dead (h : streamHandler) : Prop :=
  isStream h = true /\ io_left h = Some 0%nat
  /\ exists log c, run_log log = Some c /\ wire h `prefix_of` render_log h log.

(** Fields that sending and locking change. *)
Definition moved (h h' : streamHandler) : Prop :=
  exists w n s m f,
    h' = h <| wire := w |> <| io_left := n |> <| sched := s |> <| messageStartWritten := m |>
           <| firstContentDeltaFlushed := f |>.

Lemma moved_refl h : moved h h.
Proof. exists (wire h), (io_left h), (sched h), (messageStartWritten h), (firstContentDeltaFlushed h). by destruct h. Qed.

Lemma moved_trans h1 h2 h3 : moved h1 h2 -> moved h2 h3 -> moved h1 h3.
Proof. intros (? & ? & ? & ? & ? & ->) (w & n & s & m & f & ->). by exists w, n, s, m, f. Qed.

Lemma layout_moved ret h h' bs a : layout ret h bs a -> moved h h' -> layout ret h' bs a.
Proof. intros [] (w & n & s & m & f & ->). by split. Qed.

Lemma render_config h h' : config_of h' = config_of h -> forall log, render_log h' log = render_log h log.
Proof.
  intros E log. unfold config_of in E. injection E as _ E2 E3 E4. unfold render_log. f_equal. apply map_ext.
  intros x. unfold render. by rewrite E2, E3, E4.
Qed.

Lemma config_stream h h' : config_of h' = config_of h -> isStream h' = isStream h.
Proof. intros E. exact (f_equal (fun c => c.1.1.1) E). Qed.

Lemma moved_config h h' : moved h h' -> config_of h' = config_of h.
Proof. by intros (w & n & s & m & f & ->). Qed.

Lemma render_log_app h log1 log2 : render_log h (log1 ++ log2) = render_log h log1 ++ render_log h log2.
Proof. unfold render_log. by rewrite map_app, concat_app. Qed.

Lemma render_log_one h x : render_log h [x] = render h x.
Proof. unfold render_log. cbn. apply app_nil_r. Qed.

Lemma run_log_app log x c : run_log log = Some c -> run_log (log ++ [x]) = log_step c x.
Proof. intros E. unfold run_log in *. by rewrite foldl_app, E. Qed.

Lemma dead_kept h h' : dead h -> keeps (broken_as h) h' -> dead h'.
Proof.
  intros (Hs & _ & log & c & Hrun & Hw) (Q1 & Q2 & Q3). split_and!; [|done|].
  - unfold config_of in Q3. congruence.
  - exists log, c. split; [done|]. by rewrite Q2, (render_config h h' Q3).
Qed.

Lemma dead_self h : dead h -> keeps (broken_as h) h.
Proof. by intros (_ & ? & _). Qed.

(** What is done to a broken connection leaves it as it is. *)
Lemma dead_step h (f : streamHandler -> streamHandler) :
  dead h -> (forall k h, keeps k h -> keeps k (f h)) -> dead (f h).
Proof. intros Hd Hq. apply (dead_kept _ _ Hd), Hq, dead_self, Hd. Qed.

(** Sending what the protocol allows next. *)
Lemma outcome_wired h log bs x c h' :
  isStream h = true -> wired h log bs -> log_step (client_of h bs) x = Some c -> outcome h (render h x) h' ->
  dead h' \/ (moved h h' /\ sched h' = sched h /\ messageStartWritten h' = messageStartWritten h
              /\ wire h' = render_log h' (log ++ [x]) /\ run_log (log ++ [x]) = Some c).
Proof.
  intros Hs [Hw Hr Hu] Hstep [n f ->|E1 E2 E3].
  - right. split_and!; [|done|done| |].
    + exists (wire h ++ render h x), n, (sched h), (messageStartWritten h), f. by destruct h.
    + rewrite (render_config h _) by done. rewrite render_log_app, render_log_one, <- Hw. done.
    + by rewrite (run_log_app _ _ _ Hr).
  - left. split_and!; [|done|].
    + by rewrite (config_stream _ _ E2).
    + exists (log ++ [x]), c. split; [by rewrite (run_log_app _ _ _ Hr)|].
      rewrite (render_config _ _ E2), render_log_app, render_log_one, <- Hw. done.
Qed.

Lemma moved_sendable h h' : moved h h' -> sendable h -> sendable h'.
Proof. by intros (w & n & s & m & f & ->). Qed.

(** The opening frame. *)
Lemma ensure_wired h log bs : sendable h -> wired h log bs ->
  dead (snd (ensureMessageStartLocked h))
  \/ (fst (ensureMessageStartLocked h) = true /\ moved h (snd (ensureMessageStartLocked h))
      /\ messageStartWritten (snd (ensureMessageStartLocked h)) = true
      /\ exists log', wired (snd (ensureMessageStartLocked h)) log' bs).
Proof.
  intros (H1 & H2 & H3) Hwi. pose proof Hwi as [Hw Hr Hu]. unfold ensureMessageStartLocked.
  destruct (messageStartWritten h) eqn:Hm.
  { right. split_and!; [done|apply moved_refl|done|]. by exists log. }
  rewrite H3, H2, H1. cbn [orb negb fst snd]. unfold writeMessageStartLocked. rewrite H1, H2. cbn [negb orb].
  pose proof (payload_json "" (MessageStart (msgID h) (pendingModel h) (inputTokens h) 0)) as Hp.
  cbn [payload] in Hp. rewrite Hp. change ("" +:+ ?x) with x. unfold writeSSEBytesLocked.
  set (h1 := h <| messageStartWritten := true |>).
  change (isStream h1) with (isStream h). change (hasReturn h1) with (hasReturn h). rewrite H1, H2. cbn [negb orb].
  set (e := MessageStart (msgID h) (pendingModel h) (inputTokens h) 0).
  pose proof (emit_outcome e false h1 H1 H3 ltac:(done) ltac:(done)) as Ho.
  change "message_start" with (event_name e).
  destruct Ho as [n f E|E1 E2 E3].
  - right. rewrite E. specialize (Hu eq_refl) as ->. split_and!; [done| |done|].
    { exists (wire h ++ render h (Ev e)), n, (sched h), true, f. by destruct h. }
    exists (log ++ [Ev e]). split.
    + rewrite (render_config h _) by done. rewrite render_log_app, render_log_one, <- Hw. done.
    + rewrite (run_log_app _ _ _ Hr). unfold client_of. rewrite Hm. done.
    + done.
  - left. split_and!; [|exact E1|].
    { rewrite <- H1. exact (config_stream _ _ E2). }
    exists (log ++ [Ev e]). eexists. split.
    + rewrite (run_log_app _ _ _ Hr). unfold client_of. rewrite Hm. done.
    + rewrite (render_config h _) by exact E2. rewrite render_log_app, render_log_one, <- Hw. exact E3.
Qed.

(** The events of an open message. *)
Definition content_event (e : sse_event) : Prop :=
  match e with BlockStart _ _ | BlockDelta _ _ | BlockStop _ => True | _ => False end.

Definition open_client (bs : list client_block) : client :=
  {| cl_opened := true; cl_blocks := bs; cl_reason := None; cl_end := None |}.

Lemma emit_wired h log bs e bs' :
  sendable h -> wired h log bs -> messageStartWritten h = true -> content_event e ->
  client_step (open_client bs) e = Some (open_client bs') ->
  let h' := emitSSEFrameLocked (event_name e) (encode (event_json e)) false h in
  dead h' \/ (moved h h' /\ exists log', wired h' log' bs').
Proof.
  intros (H1 & H2 & H3) Hwi Hm He Hstep h'.
  assert (outcome h (render h (Ev e)) h') as Ho by (apply emit_outcome; [done..|by destruct e|by destruct e]).
  destruct (outcome_wired h log bs (Ev e) (open_client bs') h' H1 Hwi) as [Hd|(Hmv & _ & Hm' & Hw & Hr)]; [|done|by left|].
  { cbn [log_step]. unfold client_of. by rewrite Hm. }
  right. split; [done|]. exists (log ++ [Ev e]). split; [done| |].
  - rewrite Hr. unfold client_of. by rewrite Hm', Hm.
  - by rewrite Hm', Hm.
Qed.

Lemma hint_wired h log bs e bs' :
  sendable h -> wired h log bs -> content_event e ->
  client_step (open_client bs) e = Some (open_client bs') ->
  let h' := writeSSEBytesLockedWithHint (event_name e) (encode (event_json e)) h in
  dead h' \/ (moved h h' /\ exists log', wired h' log' bs').
Proof.
  intros Hse Hwi He Hstep h'. subst h'. unfold writeSSEBytesLockedWithHint.
  pose proof Hse as (H1 & H2 & _). rewrite H1, H2. cbn [negb orb].
  destruct (ensure_wired h log bs Hse Hwi) as [Hd|(Ho & Hmv & Hm & log1 & Hwi1)];
    destruct (ensureMessageStartLocked h) as [opened h1]; cbn [fst snd] in *.
  - left. destruct opened; [|done]. apply (dead_step _ (emitSSEFrameLocked _ _ _)); [done|]. intros. by apply quiet_emitSSEFrameLocked.
  - subst opened. destruct (emit_wired h1 log1 bs e bs' (moved_sendable _ _ Hmv Hse) Hwi1 Hm He Hstep) as [Hd|(Hmv1 & Hx)];
      [by left|right]. split; [|done]. by eapply moved_trans.
Qed.

Lemma payload_wired h log bs e bs' :
  sendable h -> wired h log bs -> content_event e ->
  client_step (open_client bs) e = Some (open_client bs') ->
  let h' := write_payload (event_name e) (payload "" e) false h in
  dead h' \/ (moved h h' /\ exists log', wired h' log' bs').
Proof.
  intros Hse Hwi He Hstep. unfold write_payload. rewrite payload_json. change ("" +:+ ?x) with x.
  by apply (hint_wired h log bs).
Qed.

(** * Keep-alives and the lock *)

Lemma layout_sendable h bs a : layout false h bs a -> sendable h.
Proof. intros []. done. Qed.

Lemma keep_alive_live elapsed h bs a : live h bs a ->
  dead (writeKeepAlive elapsed h) \/ (live (writeKeepAlive elapsed h) bs a /\ moved h (writeKeepAlive elapsed h)).
Proof.
  intros [Hl [log Hwi]]. pose proof (layout_sendable _ _ _ Hl) as Hse. pose proof Hse as (H1 & H2 & H3).
  unfold writeKeepAlive, stream_keep_alive. rewrite H1, H2.
  assert (forall h1 log1, moved h h1 -> wired h1 log1 bs -> messageStartWritten h1 = true ->
    let text := match responseFormat h1 with FormatAnthropic => ssePing | FormatOpenAI => sseKeepAlive end in
    let h' := (let '(ok, h) := write text h1 in
               if ok then flushSSEWithLenLocked "keep-alive" h else markWriteErrorLocked h) in
    dead h' \/ (live h' bs a /\ moved h h')) as Hping.
  { intros h1 log1 Hmv Hwi1 Hm text h'.
    assert (outcome h1 (render h1 Alive) h') as Ho.
    { unfold render. subst h' text. destruct (responseFormat h1); apply outcome_frame. }
    assert (isStream h1 = true) as Hs1 by (rewrite <- H1; exact (config_stream _ _ (moved_config _ _ Hmv))).
    destruct (outcome_wired h1 log1 bs Alive (client_of h1 bs) h' Hs1 Hwi1) as [Hd|(Hmv' & _ & Hm' & Hw & Hr)]; [|done|by left|].
    { cbn. by rewrite Hm. }
    right. split; [|by eapply moved_trans]. split; [apply (layout_moved _ h); [done|by eapply moved_trans]|].
    exists (log1 ++ [Alive]). split; [done| |by rewrite Hm', Hm]. rewrite Hr. unfold client_of. by rewrite Hm'. }
  destruct (messageStartWritten h) eqn:Hm; cbn [negb].
  { apply (Hping h log); [apply moved_refl|done|done]. }
  destruct (elapsed <? silentCommitAfter); cbn [negb].
  { right. split; [|apply moved_refl]. split; [done|]. by exists log. }
  destruct (ensure_wired h log bs Hse Hwi) as [Hd|(Ho & Hmv & Hm1 & log1 & Hwi1)];
    destruct (ensureMessageStartLocked h) as [opened h1]; cbn [fst snd] in *.
  - left. destruct opened; cbn [negb]; [|done]. apply (dead_kept _ _ Hd). pose proof (dead_self _ Hd) as Hq. quiet.
  - subst opened. cbn [negb]. by apply (Hping h1 log1).
Qed.

Lemma lock_live h bs a : live h bs a -> dead (lock h) \/ (live (lock h) bs a /\ moved h (lock h)).
Proof.
  intros Hl. unfold lock. destruct (sched h) as [|ticks rest]; [right; split; [done|apply moved_refl]|].
  assert (live (h <| sched := rest |>) bs a /\ moved h (h <| sched := rest |>)) as [Hl1 Hmv].
  { assert (moved h (h <| sched := rest |>)) as Hmv.
    { exists (wire h), (io_left h), rest, (messageStartWritten h), (firstContentDeltaFlushed h). by destruct h. }
    split; [|done]. destruct Hl as [Hl [log [Hw Hr Hu]]]. split; [by apply (layout_moved _ h)|]. by exists log. }
  revert Hl1 Hmv. generalize (h <| sched := rest |>). clear Hl rest.
  induction ticks as [|elapsed ticks IH]; intros h1 Hl1 Hmv; [by right|]. cbn [foldl].
  destruct (keep_alive_live elapsed h1 bs a Hl1) as [Hd|[Hl2 Hmv2]].
  - left. clear IH. revert Hd. generalize (writeKeepAlive elapsed h1). induction ticks as [|e ticks IH]; intros h2 Hd; [done|].
    cbn [foldl]. apply IH. apply (dead_step _ (writeKeepAlive e)); [done|]. intros. by apply quiet_writeKeepAlive.
  - apply IH; [done|]. by eapply moved_trans.
Qed.

(** * Blocks *)

Definition closed_block (k : block_kind) (t : string) : client_block := {| cb_kind := k; cb_text := t; cb_open := false |}.

Lemma step_start bs b :
  client_step (open_client bs) (BlockStart (Z.of_nat (length bs)) b) = Some (open_client (bs ++ [new_block b])).
Proof. cbn. by rewrite Z.eqb_refl. Qed.

Lemma change_block_at bs n b b' (f : client_block -> option client_block) :
  bs !! n = Some b -> f b = Some b' -> change_block bs (Z.of_nat n) f = Some (<[n := b']> bs).
Proof.
  intros Hn Hf. unfold change_block. rewrite (proj2 (Z.ltb_ge (Z.of_nat n) 0)) by lia.
  rewrite Nat2Z.id, Hn. cbn. by rewrite Hf.
Qed.

Lemma step_stop bs n k t : bs !! n = Some (open_block k t) ->
  client_step (open_client bs) (BlockStop (Z.of_nat n)) = Some (open_client (<[n := closed_block k t]> bs)).
Proof. intros Hn. cbn. by rewrite (change_block_at _ _ _ _ close_block Hn eq_refl). Qed.

(** The text of a delta for a block of this kind. *)
Definition delta_for (k : block_kind) (d : block_delta) (u : string) : Prop :=
  match d, k with
  | DeltaText t, KText | DeltaThinking t, KThinking | DeltaInput t, KTool _ _ => u = t
  | _, _ => False
  end.

Lemma step_delta bs n k t d u : bs !! n = Some (open_block k t) -> delta_for k d u ->
  client_step (open_client bs) (BlockDelta (Z.of_nat n) d) = Some (open_client (<[n := open_block k (t +:+ u)]> bs)).
Proof.
  intros Hn Hd. cbn. rewrite (change_block_at _ _ _ (open_block k (t +:+ u)) (extend_block d) Hn); [done|].
  destruct d, k; cbn in Hd; try done; by subst.
Qed.

Definition block_text (b : client_block) : string := match cb_kind b with KText => cb_text b | _ => "" end.

Lemma concat_map_app {A} (f : A -> string) l1 l2 : concat_map f (l1 ++ l2) = concat_map f l1 +:+ concat_map f l2.
Proof. induction l1 as [|x l1 IH]; [done|]. cbn [app]. by rewrite !concat_map_cons, IH, sapp_assoc. Qed.

Lemma blocks_text_app bs1 bs2 : blocks_text (bs1 ++ bs2) = blocks_text bs1 +:+ blocks_text bs2.
Proof. apply concat_map_app. Qed.

Lemma blocks_text_new bs b : blocks_text (bs ++ [new_block b]) = blocks_text bs.
Proof. rewrite blocks_text_app. destruct b; apply sapp_nil_r. Qed.

(** A block changed by a text that does not count, or a last text block that grew. *)
Lemma blocks_text_insert bs n b b' : bs !! n = Some b -> block_text b' = block_text b ->
  blocks_text (<[n := b']> bs) = blocks_text bs.
Proof.
  intros Hn Hb. rewrite (insert_take_drop bs n b') by by eapply lookup_lt_Some.
  rewrite <- (take_drop_middle bs n b Hn) at 3. rewrite !blocks_text_app. f_equal.
  change (block_text b' +:+ blocks_text (drop (S n) bs) = block_text b +:+ blocks_text (drop (S n) bs)). by rewrite Hb.
Qed.

Lemma blocks_text_none bs : (forall b, b ∈ bs -> cb_kind b <> KText) -> blocks_text bs = "".
Proof.
  induction bs as [|b bs IH]; intros H; [done|]. unfold blocks_text. rewrite concat_map_cons.
  change (block_text b +:+ blocks_text bs = ""). rewrite IH by (intros; apply H; by apply elem_of_cons; right).
  specialize (H b ltac:(apply elem_of_cons; by left)). unfold block_text. by destruct (cb_kind b).
Qed.

Lemma blocks_text_grow bs n t u : bs !! n = Some (open_block KText t) ->
  (forall m b, (n < m)%nat -> bs !! m = Some b -> cb_kind b <> KText) ->
  blocks_text (<[n := open_block KText (t +:+ u)]> bs) = blocks_text bs +:+ u.
Proof.
  intros Hn Hlast. rewrite insert_take_drop by by eapply lookup_lt_Some.
  rewrite <- (take_drop_middle bs n _ Hn) at 3. rewrite !blocks_text_app, sapp_assoc. f_equal.
  assert (blocks_text (drop (S n) bs) = "") as E.
  { apply blocks_text_none. intros b Hb. apply list_elem_of_lookup in Hb as [i Hi]. rewrite lookup_drop in Hi.
    apply (Hlast (S n + i)%nat); [lia|done]. }
  change ((t +:+ u) +:+ blocks_text (drop (S n) bs) = (t +:+ blocks_text (drop (S n) bs)) +:+ u).
  by rewrite E, !sapp_nil_r.
Qed.

Lemma others_insert bs a n b b' : others_closed bs a -> bs !! n = Some b -> cb_kind b' = cb_kind b ->
  (cb_open b' = true -> cb_open b = true) -> others_closed (<[n := b']> bs) a.
Proof.
  intros H Hn Hk Ho m c Hm Hc. destruct (decide (m = n)) as [->|Hne].
  - rewrite list_lookup_insert_eq in Hm by by eapply lookup_lt_Some. injection Hm as <-.
    rewrite Hk. apply (H n b Hn), Ho, Hc.
  - rewrite list_lookup_insert_ne in Hm by done. by apply (H m c).
Qed.

Lemma tools_insert tools bs n b b' : tools_open tools bs -> bs !! n = Some b ->
  (forall id name, cb_kind b = KTool id name -> exists t, b' = open_block (KTool id name) t) ->
  tools_open tools (<[n := b']> bs).
Proof.
  intros [H Hinj] Hn Hb. split; [|done]. intros id i Hi. destruct (H id i Hi) as (m & id' & name & t & -> & Hm).
  destruct (decide (m = n)) as [->|Hne].
  - rewrite Hm in Hn. injection Hn as <-. destruct (Hb id' name eq_refl) as [t' ->].
    exists n, id', name, t'. split; [done|]. apply list_lookup_insert_eq. by eapply lookup_lt_Some.
  - exists m, id', name, t. split; [done|]. by rewrite list_lookup_insert_ne.
Qed.

Lemma tools_app tools bs b : tools_open tools bs -> tools_open tools (bs ++ [b]).
Proof.
  intros [H Hinj]. split; [|done]. intros id i Hi. destruct (H id i Hi) as (m & id' & name & t & -> & Hm).
  exists m, id', name, t. split; [done|]. by apply lookup_app_l_Some.
Qed.

(** A new block becomes the active one, none being active. *)
Lemma others_app bs b a : others_closed bs NoBlock ->
  (cb_open b = true -> match cb_kind b with KText => a = TextAt (length bs) | KThinking => a = ThinkingAt (length bs) | KTool _ _ => True end) ->
  others_closed (bs ++ [b]) a.
Proof.
  intros H Hb m c Hm Hc. apply lookup_app_Some in Hm as [Hm|[Hlen Hm]].
  - specialize (H m c Hm Hc). by destruct (cb_kind c).
  - apply list_lookup_singleton_Some in Hm as [Hi <-]. assert (m = length bs) as -> by lia. by apply Hb.
Qed.
