(* ===== verification/StreamBlocks.v ===== *)
(** The blocks of a live stream: every operation that opens, extends or closes one
    sends what the protocol allows next, and the text the client has put together
    grows by the text deltas alone. *)

From S2P Require Import Prelude UpstreamErrors Json SseFrame SseFrameCorrect Tokens OpenAISSE AppErrors StreamHandler StreamProtocol StreamQuiet StreamCorrect.

(** * States of a stream *)

(** The fields a live stream is about. *)
Definition view (h : streamHandler) :=
  (config_of h, (hasReturn h, returned h, requestFailed h, upstream_cancelled h, finalStopReason h), (answer h, pendingToolCalls h, responseText h, nonStreamOpened h),
   (blockIndex h, activeBlockType h, activeTextSSEIndex h, activeThinkingSSEIndex h, streamingTools h),
   (messageStartWritten h, wire h)).

Definition with_blocks (h : streamHandler) (index : Z) (kind : string) (textAt thinkingAt : Z) (tools : gmap string Z) :=
  (config_of h, (hasReturn h, returned h, requestFailed h, upstream_cancelled h, finalStopReason h), (answer h, pendingToolCalls h, responseText h, nonStreamOpened h),
   (index, kind, textAt, thinkingAt, tools), (messageStartWritten h, wire h)).

Lemma layout_view ret h h' bs a : view h' = view h -> layout ret h bs a -> layout ret h' bs a.
Proof.
  intros E []. unfold view, config_of in E. simplify_eq. split; try congruence; [|done].
  destruct a; cbn in *; intuition congruence.
Qed.

Lemma with_blocks_sent h h' index kind ti th tools : view h' = with_blocks h index kind ti th tools ->
  config_of h' = config_of h /\ messageStartWritten h' = messageStartWritten h /\ wire h' = wire h.
Proof.
  intros E. split; [exact (f_equal (fun v => v.1.1.1.1) E)|]. by injection (f_equal snd E).
Qed.

Lemma wired_blocks h h' log bs index kind ti th tools :
  view h' = with_blocks h index kind ti th tools -> wired h log bs -> wired h' log bs.
Proof.
  intros E [Hw Hr Hu]. destruct (with_blocks_sent _ _ _ _ _ _ _ E) as (E1 & E2 & E3). split.
  - rewrite (render_config _ _ E1). congruence.
  - rewrite Hr. unfold client_of. congruence.
  - intros ?. apply Hu. congruence.
Qed.

Lemma live_view h h' bs a : view h' = view h -> live h bs a -> live h' bs a.
Proof. intros E [Hl [log Hw]]. split; [by apply (layout_view _ h)|]. exists log. by apply (wired_blocks h _ _ _ _ _ _ _ _ E). Qed.

(** The stream is at these blocks, unless its connection broke. *)
Definition at_ (bs : list client_block) (a : active_block) (h : streamHandler) : Prop := dead h \/ live h bs a.

(** The client's text is [T] so far, unless its connection broke. *)
Definition says (T : string) (h : streamHandler) : Prop :=
  dead h \/ exists bs a, live h bs a /\ blocks_text bs = T.

Lemma at_says bs a h : at_ bs a h -> says (blocks_text bs) h.
Proof. intros [Hd|Hl]; [by left|right; eauto]. Qed.

Lemma live_says h bs a T : live h bs a -> blocks_text bs = T -> says T h.
Proof. right. eauto. Qed.

Lemma dead_view h h' : view h' = view h -> io_left h' = io_left h -> dead h -> dead h'.
Proof.
  intros E E2 Hd. apply (dead_kept h); [done|]. pose proof (dead_self h Hd) as (? & _ & _).
  destruct (with_blocks_sent _ _ _ _ _ _ _ E) as (? & _ & ?). by split_and!; [congruence|..].
Qed.

Lemma at_step bs a h (f : streamHandler -> streamHandler) (K : streamHandler -> Prop) :
  at_ bs a h -> (live h bs a -> K (f h)) -> (forall k h, keeps k h -> keeps k (f h)) -> (forall h, dead h -> K h) -> K (f h).
Proof. intros [Hd|Hl] Hf Hq Hk; [|by apply Hf]. apply Hk. by apply dead_step. Qed.

Lemma says_step T T' h (f : streamHandler -> streamHandler) :
  says T h -> (forall bs a, live h bs a -> blocks_text bs = T -> says T' (f h)) ->
  (forall k h, keeps k h -> keeps k (f h)) -> says T' (f h).
Proof. intros [Hd|(bs & a & Hl & Ht)] Hf Hq; [left; by apply dead_step|by apply (Hf bs a)]. Qed.

Ltac kept := let k := fresh in let h := fresh in let H := fresh in intros k h H; quiet.

Lemma lock_at bs a h : at_ bs a h -> at_ bs a (lock h).
Proof.
  intros Ha. apply (at_step bs a h lock); [done|intros Hl|kept|by left].
  destruct (lock_live _ _ _ Hl) as [?|[? _]]; first [by left|by right].
Qed.

Lemma lock_says T h : says T h -> says T (lock h).
Proof. intros [Hd|(bs & a & Hl & <-)]; [|by apply (at_says bs a), lock_at; right]. left. by apply dead_step; [|kept]. Qed.

(** Of fields that do not matter to the stream. *)
Lemma at_view bs a h h' : view h' = view h -> io_left h' = io_left h -> at_ bs a h -> at_ bs a h'.
Proof.
  intros E E2 [Hd|Hl]; [left; by apply (dead_view h)|right; by apply (live_view h)].
Qed.

Lemma says_view T h h' : view h' = view h -> io_left h' = io_left h -> says T h -> says T h'.
Proof.
  intros E E2 [Hd|(bs & a & Hl & <-)]; [|by apply (at_says bs a), (at_view _ _ h); [..|right]].
  left. by apply (dead_view h).
Qed.

Lemma addOutputTokens_at bs a text h : at_ bs a h -> at_ bs a (addOutputTokens text h).
Proof.
  intros Ha. unfold addOutputTokens. destruct (is_empty text); [done|]. pose proof (lock_at _ _ _ Ha) as Hl.
  cbv zeta. destruct (useUpstreamUsage (lock h)); [done|]. by apply (at_view _ _ (lock h)).
Qed.

Lemma applyUpstreamUsageTokens_says T usage h : says T h -> says T (applyUpstreamUsageTokens usage h).
Proof.
  intros H. pose proof (lock_says _ _ H) as Hl. unfold applyUpstreamUsageTokens. destruct usage as [|u usage]; [done|].
  repeat (match goal with |- context [read_usage (u :: usage) ?l] => generalize (read_usage (u :: usage) l); intro end).
  repeat case_match; first [exact H|by apply (says_view _ (lock h))].
Qed.

(** * Sending from a new layout *)

Lemma payload_live h bs0 bs a e : layout false h bs a -> (exists log, wired h log bs0) -> content_event e ->
  client_step (open_client bs0) e = Some (open_client bs) ->
  let h' := write_payload (event_name e) (payload "" e) false h in dead h' \/ (live h' bs a /\ moved h h').
Proof.
  intros Hl [log Hw] He Hstep. destruct (payload_wired h log bs0 e bs (layout_sendable _ _ _ Hl) Hw He Hstep) as [?|[Hmv Hx]].
  - by left.
  - right. split; [|done]. split; [by apply (layout_moved _ h)|done].
Qed.

Lemma payload_at h bs0 bs a e : layout false h bs a -> (exists log, wired h log bs0) -> content_event e ->
  client_step (open_client bs0) e = Some (open_client bs) -> at_ bs a (write_payload (event_name e) (payload "" e) false h).
Proof. intros Hl Hw He Hstep. destruct (payload_live _ _ _ _ _ Hl Hw He Hstep) as [?|[? _]]; [by left|by right]. Qed.

(** * Closing the active block *)

Lemma pop_stop ret h bs a : layout ret h bs a ->
  popActiveBlockStopDataLocked h = match a with
    | NoBlock => (None, h)
    | TextAt n => (Some (encode (event_json (BlockStop (Z.of_nat n)))),
                   h <| activeTextBlockIndex := -1 |> <| activeTextSSEIndex := -1 |> <| activeBlockType := "" |>)
    | ThinkingAt n => (Some (encode (event_json (BlockStop (Z.of_nat n)))),
                   h <| activeThinkingBlockIndex := -1 |> <| activeThinkingSSEIndex := -1 |> <| activeBlockType := "" |>)
    end.
Proof.
  intros []. unfold popActiveBlockStopDataLocked, marshalSSEContentBlockStopBytes.
  destruct a as [|n|n]; destruct lo_active as (E1 & E2 & E3); rewrite E1; [done|..]; cbn [is_empty String.eqb Ascii.eqb Bool.eqb];
    rewrite ?E2, ?E3; pose proof (payload_json "" (BlockStop (Z.of_nat n))) as Hp; cbn [payload] in Hp; by rewrite Hp.
Qed.

Definition kind_of (a : active_block) : block_kind := match a with ThinkingAt _ => KThinking | _ => KText end.
Definition place_of (a : active_block) : option nat := match a with NoBlock => None | TextAt n | ThinkingAt n => Some n end.

Lemma active_block_open bs a n : active_open bs a -> place_of a = Some n -> exists t, bs !! n = Some (open_block (kind_of a) t).
Proof. destruct a; cbn; intros H E; simplify_eq; [by destruct H|done]. Qed.

Lemma others_stop bs a n t : others_closed bs a -> place_of a = Some n -> bs !! n = Some (open_block (kind_of a) t) ->
  others_closed (<[n := closed_block (kind_of a) t]> bs) NoBlock.
Proof.
  intros H Ha Hn m b Hm Hb. destruct (decide (m = n)) as [->|Hne].
  - rewrite list_lookup_insert_eq in Hm by by eapply lookup_lt_Some. by injection Hm as <-.
  - rewrite list_lookup_insert_ne in Hm by done. specialize (H m b Hm Hb).
    destruct (cb_kind b); [..|done]; subst a; cbn in Ha; simplify_eq.
Qed.

(** The layout once the active block is stopped. *)
Lemma layout_stopped ret h h' bs a n t : layout ret h bs a -> place_of a = Some n -> bs !! n = Some (open_block (kind_of a) t) ->
  view h' = with_blocks h (blockIndex h) "" (-1) (-1) (streamingTools h) ->
  layout ret h' (<[n := closed_block (kind_of a) t]> bs) NoBlock.
Proof.
  intros [] Ha Hn E. apply (layout_view _ (h <| activeTextSSEIndex := -1 |> <| activeThinkingSSEIndex := -1 |> <| activeBlockType := "" |>)); [exact E|].
  split; try done.
  - by rewrite length_insert.
  - by apply others_stop.
  - apply (tools_insert _ _ _ _ _ lo_tools Hn). intros id name E'. by destruct a.
Qed.

Lemma popped_view h bs a : layout false h bs a ->
  view (snd (popActiveBlockStopDataLocked h))
  = with_blocks h (blockIndex h) "" (-1) (-1) (streamingTools h).
Proof.
  intros Hl. rewrite (pop_stop _ _ _ _ Hl). destruct Hl, a as [|n|n]; destruct lo_active as (E1 & E2 & E3); cbn [snd].
  - change (view h) with (with_blocks h (blockIndex h) (activeBlockType h) (activeTextSSEIndex h) (activeThinkingSSEIndex h) (streamingTools h)).
    by rewrite E1, E2, E3.
  - match goal with |- view ?x = _ => change (view x) with (with_blocks h (blockIndex h) "" (-1) (activeThinkingSSEIndex h) (streamingTools h)) end.
    by rewrite E3.
  - match goal with |- view ?x = _ => change (view x) with (with_blocks h (blockIndex h) "" (activeTextSSEIndex h) (-1) (streamingTools h)) end.
    by rewrite E2.
Qed.

Lemma closeActiveBlockLocked_live h bs a : live h bs a ->
  exists bs', blocks_text bs' = blocks_text bs /\ at_ bs' NoBlock (closeActiveBlockLocked h).
Proof.
  intros [Hl [log Hw]]. pose proof (pop_stop _ _ _ _ Hl) as Hp. pose proof (popped_view _ _ _ Hl) as Hv.
  unfold closeActiveBlockLocked. destruct (place_of a) as [n|] eqn:Ha.
  2: { assert (a = NoBlock) as -> by by destruct a. rewrite Hp. exists bs. split; [done|]. right. split; [done|by exists log]. }
  destruct (active_block_open _ _ _ (lo_open _ _ _ _ Hl) Ha) as [t Hn].
  exists (<[n := closed_block (kind_of a) t]> bs). split; [apply (blocks_text_insert _ _ _ _ Hn); by destruct a|].
  assert (exists h1, popActiveBlockStopDataLocked h = (Some (encode (event_json (BlockStop (Z.of_nat n)))), h1)) as [h1 E].
  { rewrite Hp. destruct a; cbn in Ha; simplify_eq; eauto. }
  rewrite E in *. cbn [snd] in Hv. pose proof (layout_stopped _ _ h1 _ _ _ _ Hl Ha Hn Hv) as Hl1.
  pose proof (layout_sendable _ _ _ Hl1) as Hse. unfold writeSSEBytesLocked. rewrite (proj1 Hse), (proj1 (proj2 Hse)). cbn [negb orb].
  destruct (with_blocks_sent _ _ _ _ _ _ _ Hv) as (_ & Em & _).
  assert (messageStartWritten h = true) as Hm.
  { destruct (messageStartWritten h) eqn:Hm; [done|]. by rewrite (wi_unopened _ _ _ Hw Hm) in Hn. }
  destruct (emit_wired h1 log bs (BlockStop (Z.of_nat n)) _ Hse (wired_blocks _ _ _ _ _ _ _ _ _ Hv Hw) ltac:(congruence) I (step_stop _ _ _ _ Hn)) as [Hd|[Hmv Hx]].
  - by left.
  - right. split; [by apply (layout_moved _ h1)|done].
Qed.

Lemma closeActiveBlockLocked_says T h : says T h -> says T (closeActiveBlockLocked h).
Proof.
  intros Hs. apply (says_step T _ h closeActiveBlockLocked); [done| |kept]. intros bs a Hl <-.
  destruct (closeActiveBlockLocked_live _ _ _ Hl) as (bs' & <- & Ha). by apply at_says in Ha.
Qed.

Lemma closeActiveBlock_says T h : says T h -> says T (closeActiveBlock h).
Proof. intros Hs. apply closeActiveBlockLocked_says, lock_says, Hs. Qed.

(** * Opening a block *)

Definition started (k : block_kind) (n : nat) : active_block := match k with KText => TextAt n | KThinking => ThinkingAt n | _ => NoBlock end.
Definition start_kind (b : block_start) : block_kind := cb_kind (new_block b).

(** The layout once a block is started. *)
Lemma layout_started h h' bs b : layout false h bs NoBlock ->
  view h' = with_blocks h (blockIndex h + 1)
              match start_kind b with KText => "text" | KThinking => "thinking" | _ => "" end
              match start_kind b with KText => blockIndex h + 1 | _ => -1 end
              match start_kind b with KThinking => blockIndex h + 1 | _ => -1 end (streamingTools h) ->
  layout false h' (bs ++ [new_block b]) (started (start_kind b) (length bs)).
Proof.
  intros [] E. unfold start_kind in *.
  set (kind := match cb_kind (new_block b) with KText => "text" | _ => _ end) in E.
  set (ti := match cb_kind (new_block b) with KText => _ | _ => -1 end) in E.
  set (th := match cb_kind (new_block b) with KThinking => _ | _ => -1 end) in E.
  apply (layout_view _ (h <| blockIndex := blockIndex h + 1 |> <| activeBlockType := kind |>
                          <| activeTextSSEIndex := ti |> <| activeThinkingSSEIndex := th |>)); [exact E|].
  assert ((bs ++ [new_block b]) !! length bs = Some (new_block b)) as Hlast by by rewrite lookup_app_r, Nat.sub_diag by lia.
  split; try done.
  - rewrite length_app. change (Z.of_nat (length bs + 1) = blockIndex h + 1 + 1). lia.
  - destruct b; cbn [started new_block cb_kind active_fields]; (split_and!; [reflexivity|..]);
      first [reflexivity|change (blockIndex h + 1 = Z.of_nat (length bs)); lia].
  - destruct b; cbn [started new_block cb_kind active_open]; [split; [by exists ""|]|by exists ""|done].
    intros m c Hm Hc. apply lookup_lt_Some in Hc. rewrite length_app in Hc. cbn in Hc. lia.
  - apply others_app; [done|]. by destruct b.
  - by apply tools_app.
Qed.

Definition type_of (a : active_block) : string := match a with NoBlock => "" | TextAt _ => "text" | ThinkingAt _ => "thinking" end.

Lemma active_type ret h bs a : layout ret h bs a -> activeBlockType h = type_of a.
Proof. intros []. by destruct a, lo_active. Qed.

Lemma close_other_at blockType h bs a : live h bs a ->
  exists bs', blocks_text bs' = blocks_text bs
    /\ at_ bs' (if String.eqb (type_of a) blockType then a else NoBlock) (close_other blockType h).
Proof.
  intros Hl. unfold close_other. rewrite (active_type _ _ _ _ (proj1 Hl)).
  destruct (String.eqb (type_of a) blockType); cbn [negb]; rewrite ?andb_false_r, ?andb_true_r.
  { exists bs. split; [done|by right]. }
  destruct (is_empty (type_of a)) eqn:E; cbn [negb]; [|by apply (closeActiveBlockLocked_live _ _ a)].
  exists bs. split; [done|]. right. by destruct a.
Qed.

(** The kinds of block [ensureBlock] opens. *)
Inductive ensured : block_kind -> string -> Prop := ensure_text : ensured KText "text" | ensure_thinking : ensured KThinking "thinking".

Lemma start_block_at kind blockType h bs : ensured kind blockType -> live h bs NoBlock ->
  blockIndex h + 1 = Z.of_nat (length bs)
  /\ exists bs', blocks_text bs' = blocks_text bs /\ at_ bs' (started kind (length bs)) (start_block blockType h).
Proof.
  intros Hk [Hl [log Hw]]. pose proof Hl as []. split; [lia|]. destruct Hk.
  - exists (bs ++ [new_block StartText]). split; [apply blocks_text_new|]. unfold start_block. cbv zeta.
    change (String.eqb "text" "thinking") with false. change (String.eqb "text" "text") with true. cbv iota.
    match goal with |- at_ _ _ (writeSSEContentBlockStartTextLocked _ _ ?x) => set (h1 := x) end.
    change (at_ (bs ++ [new_block StartText]) (started KText (length bs))
      (write_payload (event_name (BlockStart (blockIndex h + 1) StartText)) (payload "" (BlockStart (blockIndex h + 1) StartText)) false h1)).
    assert (view h1 = with_blocks h (blockIndex h + 1) "text" (blockIndex h + 1) (-1) (streamingTools h)) as Hv.
    { destruct lo_active as (_ & _ & <-). reflexivity. }
    apply (payload_at _ bs).
    + by apply (layout_started h h1 bs StartText).
    + exists log. by apply (wired_blocks _ _ _ _ _ _ _ _ _ Hv).
    + done.
    + rewrite <- lo_count. apply step_start.
  - set (b := StartThinking (pendingThinkingSig h)).
    exists (bs ++ [new_block b]). split; [apply blocks_text_new|]. unfold start_block. cbv zeta.
    change (String.eqb "thinking" "thinking") with true. cbv iota.
    match goal with |- at_ _ _ (write_payload _ _ _ ?x) => set (h1 := x) end.
    change (at_ (bs ++ [new_block b]) (started KThinking (length bs))
      (write_payload (event_name (BlockStart (blockIndex h + 1) b)) (payload "" (BlockStart (blockIndex h + 1) b)) false h1)).
    assert (view h1 = with_blocks h (blockIndex h + 1) "thinking" (-1) (blockIndex h + 1) (streamingTools h)) as Hv.
    { destruct lo_active as (_ & <- & _). reflexivity. }
    apply (payload_at _ bs).
    + by apply (layout_started h h1 bs b).
    + exists log. by apply (wired_blocks _ _ _ _ _ _ _ _ _ Hv).
    + done.
    + rewrite <- lo_count. apply step_start.
Qed.

(** The block an [ensureBlock] answers with is the active one, and no text is added. *)
Lemma ensureBlock_live kind blockType h T : ensured kind blockType -> says T h ->
  dead (snd (ensureBlock blockType h))
  \/ exists bs n, fst (ensureBlock blockType h) = Z.of_nat n /\ live (snd (ensureBlock blockType h)) bs (started kind n)
       /\ blocks_text bs = T.
Proof.
  intros Hk Hs. pose proof (lock_says _ _ Hs) as [Hd|(bs & a & Hl & <-)]; unfold ensureBlock.
  { left. assert (dead (close_other blockType (lock h))) as Hd' by (apply dead_step; [done|kept]).
    destruct (active_position blockType _); [done|]. cbn [snd]. apply (dead_step _ (start_block blockType)); [done|kept]. }
  destruct (close_other_at blockType _ _ _ Hl) as (bs' & <- & Ha). cbv zeta. generalize dependent (close_other blockType (lock h)).
  intros h1 Ha. destruct Ha as [Hd|Hl1].
  { left. destruct (active_position blockType _); [done|]. apply (dead_step _ (start_block blockType)); [done|kept]. }
  unfold active_position. rewrite (active_type _ _ _ _ (proj1 Hl1)).
  destruct (String.eqb_spec (type_of a) blockType) as [Hty|_].
  - right. exists bs'. pose proof (lo_active _ _ _ _ (proj1 Hl1)) as Hf.
    destruct Hk, a; try done; destruct Hf as (_ & E1 & E2); [exists n|exists n]; by split_and!.
  - destruct (start_block_at kind blockType h1 bs' Hk Hl1) as (Hn & bs2 & <- & [Hd|Hl2]).
    + left. by destruct Hk.
    + right. exists bs2, (length bs'). by destruct Hk.
Qed.

(** * Text and reasoning *)

(** Like a block the handler writes to, whose position it has. *)
Definition placed (kind : block_kind) (T : string) (at_pos : Z) (h : streamHandler) : Prop :=
  dead h \/ exists bs n, at_pos = Z.of_nat n /\ live h bs (started kind n) /\ blocks_text bs = T.

Lemma placed_lock kind T i h : placed kind T i h -> placed kind T i (lock h).
Proof.
  intros [Hd|(bs & n & -> & Hl & <-)]; [left; by apply dead_step; [|kept]|].
  destruct (lock_at bs (started kind n) h ltac:(by right)) as [?|?]; [by left|right; eauto].
Qed.

Lemma placed_view kind T i h h' : view h' = view h -> io_left h' = io_left h -> placed kind T i h -> placed kind T i h'.
Proof.
  intros E1 E2 [Hd|(bs & n & -> & Hl & <-)]; [left; by apply (dead_view h)|right]. exists bs, n.
  split_and!; [done|by apply (live_view h)|done].
Qed.

Lemma text_position_placed T h : says T h -> placed KText T (text_position h).1.1 (text_position h).2.
Proof.
  intros Hs. unfold text_position. cbv zeta. destruct (Z.ltb_spec (activeTextSSEIndex h) 0) as [_|Hpos].
  - pose proof (ensureBlock_live KText "text" h T ensure_text Hs) as He.
    destruct (ensureBlock "text" h) as [i h1]. by apply placed_lock.
  - destruct Hs as [Hd|(bs & a & Hl & <-)]; [by left|]. right. pose proof (lo_active _ _ _ _ (proj1 Hl)) as Hf.
    destruct a as [|n|n]; destruct Hf as (_ & E1 & E2); rewrite E1 in *; try lia. by exists bs, n.
Qed.

Lemma thinking_position_placed T h : says T h -> placed KThinking T (thinking_position h).1.1 (thinking_position h).2.
Proof.
  intros Hs. unfold thinking_position. cbv zeta. destruct (Z.ltb_spec (activeThinkingSSEIndex h) 0) as [_|Hpos].
  - pose proof (ensureBlock_live KThinking "thinking" h T ensure_thinking Hs) as He.
    destruct (ensureBlock "thinking" h) as [i h1]. by apply placed_lock.
  - destruct Hs as [Hd|(bs & a & Hl & <-)]; [by left|]. right. pose proof (lo_active _ _ _ _ (proj1 Hl)) as Hf.
    destruct a as [|n|n]; destruct Hf as (_ & E1 & E2); rewrite E2 in *; try lia. by exists bs, n.
Qed.

Lemma says_stream T h : says T h -> isStream h = true.
Proof. by intros [[? _]|(bs & a & [[] _] & _)]. Qed.

Lemma placed_stream kind T i h : placed kind T i h -> isStream h = true.
Proof. by intros [[? _]|(bs & n & _ & [[] _] & _)]. Qed.

Lemma keep_text_view i delta h : isStream h = true -> view (keep_text i delta h) = view h /\ io_left (keep_text i delta h) = io_left h.
Proof.
  intros Hs. unfold keep_text. cbv zeta. destruct (useUpstreamUsage h);
    match goal with |- context [if isStream ?x then _ else _] => change (isStream x) with (isStream h); rewrite Hs end;
    case_match; done.
Qed.

Lemma keep_thinking_view i delta h : view (keep_thinking i delta h) = view h /\ io_left (keep_thinking i delta h) = io_left h.
Proof. unfold keep_thinking. cbv zeta. destruct (isStream h && _); case_match; done. Qed.

(** An active block that grows. *)
Lemma layout_grown h bs a n t u : layout false h bs a -> place_of a = Some n -> bs !! n = Some (open_block (kind_of a) t) ->
  layout false h (<[n := open_block (kind_of a) (t +:+ u)]> bs) a.
Proof.
  intros [] Ha Hn. split; try done.
  - by rewrite length_insert.
  - destruct a as [|m|m]; cbn in *; simplify_eq.
    + split; [eexists; apply list_lookup_insert_eq; by eapply lookup_lt_Some|]. intros k b Hk Hb.
      rewrite list_lookup_insert_ne in Hb by lia. by apply (proj2 lo_open k).
    + eexists. apply list_lookup_insert_eq. by eapply lookup_lt_Some.
  - by apply (others_insert _ _ _ _ _ lo_others Hn).
  - apply (tools_insert _ _ _ _ _ lo_tools Hn). by destruct a.
Qed.

Lemma delta_says kind T i h d u : placed kind T i h -> delta_for kind d u -> kind = KText \/ kind = KThinking ->
  says (match kind with KText => T +:+ u | _ => T end) (write_payload "content_block_delta" (payload "" (BlockDelta i d)) false h).
Proof.
  intros Hp Hd Hk. destruct Hp as [Hdead|(bs & n & -> & [Hl Hw] & <-)].
  { left. apply (dead_step _ (write_payload _ _ _)); [done|kept]. }
  assert (place_of (started kind n) = Some n /\ kind_of (started kind n) = kind) as [Ha Hkind] by by destruct Hk; subst.
  destruct (active_block_open _ _ _ (lo_open _ _ _ _ Hl) Ha) as [t Hn].
  pose proof (layout_grown _ _ _ _ _ u Hl Ha Hn) as Hl'. rewrite Hkind in *.
  destruct (payload_at h bs _ _ (BlockDelta (Z.of_nat n) d) Hl' Hw I (step_delta _ _ _ _ _ _ Hn Hd)) as [?|Hlive]; [by left|].
  right. do 2 eexists. split; [exact Hlive|]. pose proof (lo_open _ _ _ _ Hl) as Ho. destruct Hk; subst kind.
  - apply blocks_text_grow; [done|]. by apply Ho.
  - by apply (blocks_text_insert _ _ _ _ Hn).
Qed.

Lemma text_delta_says T event h : says T h -> says (T +:+ string_of event "delta") (text_delta event h).
Proof.
  intros Hs. unfold text_delta. cbv zeta. destruct (is_empty (string_of event "delta")) eqn:E.
  { by rewrite (proj1 (is_empty_true _) E), sapp_nil_r. }
  pose proof (text_position_placed T ((lock h) <| hasTextOutput := true |>)
    ltac:(by apply (says_view _ (lock h)); [..|apply lock_says])) as Hp.
  destruct (text_position _) as [[i j] h1]. cbn [fst snd] in Hp.
  destruct (keep_text_view j (string_of event "delta") h1 (placed_stream _ _ _ _ Hp)) as [E1 E2].
  apply (delta_says KText T i _ (DeltaText (string_of event "delta"))); [|done|by left]. by apply (placed_view _ _ _ h1).
Qed.

Lemma set_block_signature_view i sig h :
  view (set_block_signature i sig h) = view h /\ io_left (set_block_signature i sig h) = io_left h.
Proof. unfold set_block_signature. repeat case_match; done. Qed.

Lemma set_block_signature_says T i sig h : says T h -> says T (set_block_signature i sig h).
Proof. destruct (set_block_signature_view i sig h). by apply says_view. Qed.

Lemma ensureBlock_says T kind blockType h : ensured kind blockType -> says T h -> says T (snd (ensureBlock blockType h)).
Proof.
  intros Hk Hs. destruct (ensureBlock_live kind blockType h T Hk Hs) as [?|(bs & n & _ & Hl & Ht)]; [by left|right; eauto].
Qed.

Lemma reasoning_start_says T event h : says T h -> says T (reasoning_start event h).
Proof.
  intros Hs. unfold reasoning_start. cbv zeta. destruct (is_empty _); [by apply (says_view _ h)|].
  apply (ensureBlock_says _ _ _ _ ensure_thinking). by apply (says_view _ h).
Qed.

Lemma reasoning_signature_says T event h : says T h -> says T (snd (reasoning_signature event h)).
Proof.
  intros Hs. pose proof (lock_says _ _ Hs) as Hl. unfold reasoning_signature. cbv zeta. destruct (is_empty (pendingThinkingSig _)); [|done].
  cbn [snd]. destruct (is_empty _); [done|]. apply (says_view _ (lock (lock h))); [done..|by apply lock_says].
Qed.

Lemma reasoning_delta_says T event h : says T h -> says T (reasoning_delta event h).
Proof.
  intros Hs. unfold reasoning_delta. pose proof (reasoning_signature_says T event h Hs) as Hs1.
  destruct (reasoning_signature event h) as [sig h1]. cbn [snd] in Hs1. cbv zeta. destruct (is_empty (string_of event "delta")).
  - destruct (is_empty sig); [done|]. pose proof (ensureBlock_says _ _ _ _ ensure_thinking Hs1) as Hs2.
    destruct (ensureBlock "thinking" h1) as [i h2]. apply set_block_signature_says, lock_says, Hs2.
  - assert (forall h2, says T h2 -> says T (let '(sseIdx, internalIdx, h) := thinking_position h2 in
      writeSSEContentBlockDeltaThinkingLocked sseIdx (string_of event "delta") false (keep_thinking internalIdx (string_of event "delta") h)))
      as Hgo.
    { intros h2 Hs2. pose proof (thinking_position_placed _ _ Hs2) as Hp. destruct (thinking_position h2) as [[i j] h3].
      cbn [fst snd] in Hp. destruct (keep_thinking_view j (string_of event "delta") h3) as [E1 E2].
      apply (delta_says KThinking T i _ (DeltaThinking (string_of event "delta")) (string_of event "delta")); [|done|by right].
      by apply (placed_view _ _ _ h3). }
    assert (says T ((lock h1) <| hasReasoningOutput := true |>)) as Hs2 by by apply (says_view _ (lock h1)); [..|apply lock_says].
    destruct (is_empty sig); [by apply Hgo|]. apply Hgo, set_block_signature_says, Hs2.
Qed.

(** * Tools *)

Lemma active_open_app bs a b : cb_kind b <> KText -> active_open bs a -> active_open (bs ++ [b]) a.
Proof.
  intros Hb Ha. destruct a as [|n|n]; [done|..].
  - destruct Ha as [[t Hn] Hlast]. split; [exists t; by apply lookup_app_l_Some|]. intros m c Hm Hc.
    apply lookup_app_Some in Hc as [Hc|[_ Hc]]; [by apply (Hlast m)|]. by apply list_lookup_singleton_Some in Hc as [_ <-].
  - destruct Ha as [t Hn]. exists t. by apply lookup_app_l_Some.
Qed.

Lemma active_open_insert bs a n b b' : bs !! n = Some b -> cb_kind b <> KText -> cb_kind b <> KThinking -> cb_kind b' = cb_kind b ->
  active_open bs a -> active_open (<[n := b']> bs) a.
Proof.
  intros Hn Hk1 Hk2 Hk Ha. destruct a as [|m|m]; [done|..].
  - destruct Ha as [[t Hm] Hlast]. split.
    + exists t. rewrite list_lookup_insert_ne; [done|]. intros ->. by simplify_eq.
    + intros k c Hlt Hc. destruct (decide (k = n)) as [->|?]; [|rewrite list_lookup_insert_ne in Hc by done; by apply (Hlast k)].
      rewrite list_lookup_insert_eq in Hc by by eapply lookup_lt_Some. injection Hc as <-. by rewrite Hk.
  - destruct Ha as [t Hm]. exists t. rewrite list_lookup_insert_ne; [done|]. intros ->. by simplify_eq.
Qed.

Lemma others_app_tool bs b a id name : others_closed bs a -> cb_kind b = KTool id name -> others_closed (bs ++ [b]) a.
Proof.
  intros H Hb m c Hm Hc. apply lookup_app_Some in Hm as [Hm|[_ Hm]]; [by apply (H m)|].
  apply list_lookup_singleton_Some in Hm as [_ <-]. by rewrite Hb.
Qed.

Lemma replace_last {A} (l : list A) x y : <[length l := y]> (l ++ [x]) = l ++ [y].
Proof. rewrite insert_app_r_alt, Nat.sub_diag by lia. done. Qed.

Lemma last_tool_open bs id name t : (bs ++ [open_block (KTool id name) t]) !! length bs = Some (open_block (KTool id name) t).
Proof. by rewrite lookup_app_r, Nat.sub_diag by lia. Qed.

Lemma last_tool bs id name : (bs ++ [new_block (StartTool id name)]) !! length bs = Some (open_block (KTool id name) "").
Proof. apply last_tool_open. Qed.

Lemma tools_start tools bs id i name : tools_open tools bs ->
  tools_open (<[i := Z.of_nat (length bs)]> tools) (bs ++ [new_block (StartTool id name)]).
Proof.
  intros [Ht Hinj]. split.
  - intros k p Hk. apply lookup_insert_Some in Hk as [[<- <-]|[_ Hk]].
    + exists (length bs), id, name, "". split; [done|apply last_tool].
    + destruct (Ht k p Hk) as (m & id' & name' & t & -> & Hm). exists m, id', name', t. split; [done|by apply lookup_app_l_Some].
  - assert (forall k p, tools !! k = Some p -> p <> Z.of_nat (length bs)) as Hnew.
    { intros k p Hk. destruct (Ht k p Hk) as (m & id' & name' & t & -> & Hm). apply lookup_lt_Some in Hm. lia. }
    intros k k' p Hk Hk'. apply lookup_insert_Some in Hk as [[<- <-]|[Hk0 Hk]], Hk' as [[<- E]|[Hk1 Hk']]; try done.
    + by destruct (Hnew _ _ Hk').
    + subst p. by destruct (Hnew _ _ Hk).
    + by apply (Hinj k k' p).
Qed.

(** The layout once a tool's block is started, with the tools being streamed. *)
Lemma layout_tool h h' bs a id name tools : layout false h bs a ->
  view h' = with_blocks h (blockIndex h + 1) (activeBlockType h) (activeTextSSEIndex h) (activeThinkingSSEIndex h) tools ->
  tools_open tools (bs ++ [new_block (StartTool id name)]) ->
  layout false h' (bs ++ [new_block (StartTool id name)]) a.
Proof.
  intros [] E Htools. apply (layout_view _ (h <| blockIndex := blockIndex h + 1 |> <| streamingTools := tools |>)); [exact E|].
  split; try done.
  - rewrite length_app. change (Z.of_nat (length bs + 1) = blockIndex h + 1 + 1). lia.
  - by apply active_open_app.
  - by eapply others_app_tool.
Qed.

(** A tool's block that changes. *)
Lemma layout_tool_block h bs a n id name t b' : layout false h bs a -> bs !! n = Some (open_block (KTool id name) t) ->
  cb_kind b' = KTool id name -> (forall i k, streamingTools h !! i = Some k -> k = Z.of_nat n -> exists t', b' = open_block (KTool id name) t') ->
  layout false h (<[n := b']> bs) a.
Proof.
  intros [] Hn Hk Hb. split; try done.
  - by rewrite length_insert.
  - by apply (active_open_insert _ _ _ (open_block (KTool id name) t)).
  - by apply (others_insert _ _ _ (open_block (KTool id name) t)).
  - destruct lo_tools as [Ht Hinj]. split; [|done]. intros i k Hi. destruct (Ht i k Hi) as (m & id' & name' & u & -> & Hm).
    destruct (decide (m = n)) as [->|?].
    + destruct (Hb i _ Hi eq_refl) as [t' ->]. exists n, id, name, t'. split; [done|]. apply list_lookup_insert_eq. by eapply lookup_lt_Some.
    + exists m, id', name', u. by rewrite list_lookup_insert_ne.
Qed.

(** The stream is at these blocks and streams these tools, unless its connection broke. *)
Definition tools_at (tools : gmap string Z) (bs : list client_block) (a : active_block) (h : streamHandler) : Prop :=
  dead h \/ (live h bs a /\ streamingTools h = tools).

Lemma tools_at_at tools bs a h : tools_at tools bs a h -> at_ bs a h.
Proof. intros [?|[? _]]; [by left|by right]. Qed.

Lemma moved_tools h h' : moved h h' -> streamingTools h' = streamingTools h.
Proof. by intros (w & n & s & m & f & ->). Qed.

(** The start of a tool's block, the layout being the new one already. *)
Lemma tool_start_at h bs a id name : layout false h (bs ++ [new_block (StartTool id name)]) a -> (exists log, wired h log bs) ->
  tools_at (streamingTools h) (bs ++ [new_block (StartTool id name)]) a
    (writeSSEContentBlockStartToolUseLocked (Z.of_nat (length bs)) id name false h).
Proof.
  intros Hl Hw. destruct (payload_live h bs _ _ (BlockStart (Z.of_nat (length bs)) (StartTool id name)) Hl Hw I (step_start _ _))
    as [?|[? Hmv]]; [by left|right]. split; [done|by apply moved_tools in Hmv].
Qed.

Lemma tool_delta_at tools h bs a n id name t u : tools_at tools bs a h -> bs !! n = Some (open_block (KTool id name) t) ->
  tools_at tools (<[n := open_block (KTool id name) (t +:+ u)]> bs) a (writeSSEContentBlockDeltaInputJSONLocked (Z.of_nat n) u false h).
Proof.
  intros [Hd|[[Hl Hw] <-]] Hn; [left; apply (dead_step _ (writeSSEContentBlockDeltaInputJSONLocked _ _ _)); [done|kept]|].
  assert (layout false h (<[n := open_block (KTool id name) (t +:+ u)]> bs) a) as Hl'.
  { apply (layout_tool_block _ _ _ _ id name t); [done..|]. intros i k _ _. by exists (t +:+ u). }
  destruct (payload_live h bs _ _ (BlockDelta (Z.of_nat n) (DeltaInput u)) Hl' Hw I (step_delta _ _ (KTool id name) _ (DeltaInput u) u Hn eq_refl))
    as [?|[? Hmv]]; [by left|right]. split; [done|by apply moved_tools in Hmv].
Qed.

(** The stop of a tool, which is not streamed any longer. *)
Lemma layout_forget h bs a i : layout false h bs a -> layout false (h <| streamingTools := delete i (streamingTools h) |>) bs a.
Proof.
  intros []. split; try done. destruct lo_tools as [Ht Hinj]. split.
  - intros k p Hk. change (delete i (streamingTools h) !! k = Some p) in Hk. apply lookup_delete_Some in Hk as [_ Hk]. by apply (Ht k).
  - intros k k' p Hk Hk'. change (delete i (streamingTools h) !! k = Some p) in Hk.
    change (delete i (streamingTools h) !! k' = Some p) in Hk'. apply lookup_delete_Some in Hk as [_ Hk], Hk' as [_ Hk']. by apply (Hinj k k' p).
Qed.

Lemma tool_stop_at h i bs a n id name t : live h bs a -> streamingTools h !! i = Some (Z.of_nat n) ->
  bs !! n = Some (open_block (KTool id name) t) ->
  let h' := writeSSEContentBlockStopLocked (Z.of_nat n) false h in
  at_ (<[n := closed_block (KTool id name) t]> bs) a (h' <| streamingTools := delete i (streamingTools h') |>).
Proof.
  intros [Hl [log Hw]] Hi Hn h'.
  destruct (payload_wired h log bs (BlockStop (Z.of_nat n)) _ (layout_sendable _ _ _ Hl) Hw I (step_stop _ _ _ _ Hn))
    as [Hd|[Hmv [log' Hw']]].
  { left. apply (dead_step _ (fun x => x <| streamingTools := delete i (streamingTools x) |>)); [exact Hd|]. intros k x Hx. exact Hx. }
  change (moved h h') in Hmv. change (wired h' log' (<[n := closed_block (KTool id name) t]> bs)) in Hw'. right. split.
  - rewrite (moved_tools _ _ Hmv). apply (layout_moved _ (h <| streamingTools := delete i (streamingTools h) |>)).
    + apply (layout_tool_block _ _ _ _ id name t); [by apply layout_forget|done|done|]. intros j k Hj ->.
      change (delete i (streamingTools h) !! j = Some (Z.of_nat n)) in Hj. apply lookup_delete_Some in Hj as [Hne Hj]. by destruct (Hne (proj2 (lo_tools _ _ _ _ Hl) i j _ Hi Hj)).
    + destruct Hmv as (w & j & s & m & f & ->). by exists w, j, s, m, f.
  - exists log'. destruct Hw' as [W R U]. by split.
Qed.

(** The three frames of a call made at once. *)
Lemma tool_frames_at h h1 bs a id name j : live h bs a ->
  view h1 = with_blocks h (blockIndex h + 1) (activeBlockType h) (activeTextSSEIndex h) (activeThinkingSSEIndex h) (streamingTools h) ->
  at_ (bs ++ [closed_block (KTool id name) j]) a (tool_frames (blockIndex h1) id name j false h1).
Proof.
  intros [Hl [log Hw]] Hv.
  pose proof (layout_tool _ _ _ _ id name _ Hl Hv (tools_app _ _ _ (lo_tools _ _ _ _ Hl))) as Hl1.
  assert (blockIndex h1 = Z.of_nat (length bs)) as Hidx.
  { pose proof (lo_count _ _ _ _ Hl1) as E. rewrite length_app in E. cbn in E. lia. }
  assert (streamingTools h1 = streamingTools h) as Ht by exact (f_equal (fun v => v.1.2.2) Hv).
  unfold tool_frames. rewrite Hidx. cbv zeta.
  pose proof (tool_start_at _ _ _ _ _ Hl1 (ex_intro _ log (wired_blocks _ _ _ _ _ _ _ _ _ Hv Hw))) as Ha.
  pose proof (tool_delta_at _ _ _ _ _ _ _ _ j Ha (last_tool bs id name)) as Ha2. revert Ha2.
  generalize (writeSSEContentBlockDeltaInputJSONLocked (Z.of_nat (length bs)) j false
    (writeSSEContentBlockStartToolUseLocked (Z.of_nat (length bs)) id name false h1)). intros h2 Ha2.
  rewrite replace_last in Ha2. change ("" +:+ j) with j in Ha2.
  destruct Ha2 as [Hd|[[Hl2 Hw2] Ht2]]; [left; apply (dead_step _ (writeSSEContentBlockStopLocked _ _)); [done|kept]|].
  pose proof (layout_tool_block h2 _ a (length bs) id name j (closed_block (KTool id name) j) Hl2 (last_tool_open bs id name j) eq_refl) as Hl3.
  rewrite replace_last in Hl3.
  apply (payload_at h2 (bs ++ [open_block (KTool id name) j]) _ _ (BlockStop (Z.of_nat (length bs)))); [|done|done|].
  - apply Hl3. rewrite Ht2, Ht. intros i k Hi Hk. destruct (proj1 (lo_tools _ _ _ _ Hl) i k Hi) as (m & id' & name' & u & E & Hm).
    apply lookup_lt_Some in Hm. lia.
  - rewrite (step_stop _ _ _ _ (last_tool_open bs id name j)). by rewrite replace_last.
Qed.

Lemma blocks_text_tool bs id name t : blocks_text (bs ++ [closed_block (KTool id name) t]) = blocks_text bs.
Proof. rewrite blocks_text_app. apply sapp_nil_r. Qed.

Lemma addOutputTokens_says T text h : says T h -> says T (addOutputTokens text h).
Proof.
  intros [Hd|(bs & a & Hl & <-)]; [left; apply (dead_step _ (addOutputTokens text)); [done|kept]|].
  apply (at_says bs a), addOutputTokens_at. by right.
Qed.

(** A call made at once adds no text. *)
Lemma emitToolUseFromInput_says T id name input h : says T h -> says T (emitToolUseFromInput id name input h).
Proof.
  intros Hs. unfold emitToolUseFromInput. destruct (is_empty id || is_empty name); [done|]. destruct (bool_decide _); [done|]. cbv zeta.
  assert (says T (lock (addOutputTokens name (h <| toolCallEmitted := {[ id ]} ∪ toolCallEmitted h |>)))) as Hs1.
  { apply lock_says, addOutputTokens_says. by apply (says_view _ h). }
  revert Hs1. generalize (lock (addOutputTokens name (h <| toolCallEmitted := {[ id ]} ∪ toolCallEmitted h |>))). intros h1 Hs1.
  destruct Hs1 as [Hd|(bs & a & Hl & <-)].
  { left. apply (dead_step (next_call h1) (tool_frames _ _ _ _ _)); [apply (dead_step _ next_call); [done|kept]|kept]. }
  rewrite <- (blocks_text_tool bs id name (input_json input)). apply (at_says _ a). by apply (tool_frames_at h1 (next_call h1)).
Qed.

(** The tool's block at a position. *)
Definition tool_placed (T : string) (at_pos : Z) (h : streamHandler) : Prop :=
  dead h \/ exists bs a n id name t, at_pos = Z.of_nat n /\ live h bs a /\ bs !! n = Some (open_block (KTool id name) t) /\ blocks_text bs = T.

Lemma publish_says T idx delta h : tool_placed T idx h -> says T (publish_tool_delta idx delta h).
Proof.
  intros [Hd|(bs & a & n & id & name & t & -> & Hl & Hn & <-)]; [left; apply (dead_step _ (publish_tool_delta _ _)); [done|kept]|].
  unfold publish_tool_delta. cbv zeta. pose proof (addOutputTokens_at bs a delta h (or_intror Hl)) as Ha.
  destruct (is_empty delta); [by apply (at_says bs a)|]. apply lock_at in Ha.
  assert (tools_at (streamingTools (lock (addOutputTokens delta h))) bs a (lock (addOutputTokens delta h))) as Ht
    by (destruct Ha; [by left|by right]).
  pose proof (tools_at_at _ _ _ _ (tool_delta_at _ _ _ _ _ _ _ _ delta Ht Hn)) as Ha2.
  rewrite <- (blocks_text_insert bs n _ (open_block (KTool id name) (t +:+ delta)) Hn eq_refl). by apply (at_says _ a).
Qed.

Lemma open_tool_block_placed T id name h : says T h -> tool_placed T (open_tool_block id name h).1 (open_tool_block id name h).2.
Proof.
  intros Hs. unfold open_tool_block. cbv zeta.
  assert (says T (lock (addOutputTokens name (closeActiveBlock h)))) as Hs1.
  { by apply lock_says, addOutputTokens_says, closeActiveBlock_says. }
  revert Hs1. generalize (lock (addOutputTokens name (closeActiveBlock h))). clear h Hs. intros h [Hd|(bs & a & [Hl [log Hw]] & <-)].
  { left. apply (dead_step (stream_tool id h) (writeSSEContentBlockStartToolUseLocked _ _ _ _));
      [apply (dead_step _ (stream_tool id)); [done|kept]|kept]. }
  cbn [fst snd]. set (h1 := stream_tool id h). change (blockIndex h1) with (blockIndex h + 1).
  assert (blockIndex h + 1 = Z.of_nat (length bs)) as Hidx by (rewrite (lo_count _ _ _ _ Hl); lia).
  assert (view h1 = with_blocks h (blockIndex h + 1) (activeBlockType h) (activeTextSSEIndex h) (activeThinkingSSEIndex h)
    (<[id := blockIndex h + 1]> (streamingTools h))) as Hv by done.
  assert (layout false h1 (bs ++ [new_block (StartTool id name)]) a) as Hl1.
  { apply (layout_tool h h1 bs a id name _ Hl Hv). rewrite Hidx. apply tools_start, (lo_tools _ _ _ _ Hl). }
  rewrite Hidx.
  destruct (tool_start_at h1 bs a id name Hl1 (ex_intro _ log (wired_blocks _ _ _ _ _ _ _ _ _ Hv Hw))) as [Hd|[Hl2 _]]; [by left|].
  right. exists (bs ++ [new_block (StartTool id name)]), a, (length bs), id, name, "". split_and!; [done|done|apply last_tool|].
  apply blocks_text_new.
Qed.

Lemma emitIncrementalTool_says T event h : says T h -> says T (emitIncrementalTool event h).
Proof.
  intros Hs. unfold emitIncrementalTool. rewrite (says_stream _ _ Hs). cbn [negb]. cbv zeta. destruct (_ || _); [done|].
  destruct (streamingTools h !! string_of event "toolCallId") as [idx|] eqn:Ht.
  - apply publish_says. destruct Hs as [Hd|(bs & a & Hl & <-)]; [by left|right].
    destruct (proj1 (lo_tools _ _ _ _ (proj1 Hl)) _ _ Ht) as (n & id & name & t & -> & Hn). by exists bs, a, n, id, name, t.
  - unfold shouldAcceptToolCall. cbv zeta. destruct (negb _); [by apply lock_says|].
    pose proof (open_tool_block_placed T (string_of event "toolCallId") (string_of event "toolName") _ (lock_says _ _ Hs)) as Hp.
    destruct (open_tool_block _ _ _) as [idx h1]. by apply publish_says.
Qed.

Lemma tool_call_says T event h : says T h -> says T (tool_call event h).
Proof.
  intros Hs. unfold tool_call. cbv zeta. destruct (is_empty _); [done|]. destruct (bool_decide _); [done|].
  unfold shouldAcceptToolCall. cbv zeta. destruct (negb _); [by apply lock_says|].
  assert (says T ((lock h) <| toolCallHandled := {[ string_of event "toolCallId" ]} ∪ toolCallHandled (lock h) |>)) as Hs1
    by by apply (says_view _ (lock h)); [..|apply lock_says].
  revert Hs1. generalize ((lock h) <| toolCallHandled := {[ string_of event "toolCallId" ]} ∪ toolCallHandled (lock h) |>).
  clear h Hs. intros h Hs. destruct (streamingTools h !! _) as [idx|] eqn:Ht.
  2: { rewrite (says_stream _ _ Hs). by apply emitToolUseFromInput_says. }
  destruct Hs as [Hd|(bs & a & Hl & <-)].
  { left. apply (dead_step _ (fun x => x <| streamingTools := delete (string_of event "toolCallId") (streamingTools x) |>));
      [|intros k x Hx; exact Hx]. apply (dead_step _ (writeSSEContentBlockStopLocked _ _)); [|kept]. by apply dead_step; [|kept]. }
  destruct (lock_live _ _ _ Hl) as [Hd|[Hl1 Hmv]].
  { left. apply (dead_step _ (fun x => x <| streamingTools := delete (string_of event "toolCallId") (streamingTools x) |>));
      [|intros k x Hx; exact Hx]. apply (dead_step _ (writeSSEContentBlockStopLocked _ _)); [done|kept]. }
  rewrite <- (moved_tools _ _ Hmv) in Ht.
  destruct (proj1 (lo_tools _ _ _ _ (proj1 Hl1)) _ _ Ht) as (n & id & name & t & -> & Hn).
  rewrite <- (blocks_text_insert bs n _ (closed_block (KTool id name) t) Hn eq_refl). apply (at_says _ a).
  by apply (tool_stop_at (lock h) (string_of event "toolCallId") bs a n id name t).
Qed.

(** * A new attempt *)

(** The round starts anew: the tools being streamed are forgotten, their blocks left
    open. *)
Lemma clear_round_says T h : (dead h \/ exists bs, live h bs NoBlock /\ blocks_text bs = T) -> says T (clear_round h).
Proof.
  intros [Hd|(bs & [Hl [log Hw]] & <-)]; [left; apply (dead_step _ clear_round); [done|kept]|].
  right. exists bs, NoBlock. split; [|done]. split.
  - destruct Hl. split; done.
  - exists log. destruct Hw. by split.
Qed.

Lemma resetRoundState_says T h : says T h -> says T (resetRoundState h).
Proof.
  intros Hs. apply lock_says in Hs. unfold resetRoundState. apply clear_round_says.
  destruct Hs as [Hd|(bs & a & Hl & <-)]; [left; apply (dead_step _ closeActiveBlockLocked); [done|kept]|].
  destruct (closeActiveBlockLocked_live _ _ _ Hl) as (bs' & <- & [?|?]); [by left|right; eauto].
Qed.
