(* ===== verification/StreamEnd.v ===== *)
(** The end of a streamed answer, and the run of a whole request: the client gets an
    answer the protocol allows, with the text of the upstream's text deltas, and gets
    its end. *)

From S2P Require Import Prelude UpstreamErrors Json SseFrame SseFrameCorrect Tokens OpenAISSE AppErrors StreamHandler StreamProtocol StreamQuiet StreamCorrect StreamBlocks.

(** * The mutex once the response is claimed *)

Lemma keep_alive_returned elapsed h : isStream h = true -> hasReturn h = true -> writeKeepAlive elapsed h = h.
Proof. intros Hs Hr. unfold writeKeepAlive, stream_keep_alive. by rewrite Hs, Hr. Qed.

Lemma lock_returned h : isStream h = true -> hasReturn h = true -> exists s, lock h = h <| sched := s |>.
Proof.
  intros Hs Hr. unfold lock. destruct (sched h) as [|ticks rest] eqn:E; [exists (sched h); by destruct h|].
  exists rest. assert (isStream (h <| sched := rest |>) = true /\ hasReturn (h <| sched := rest |>) = true) as [H1 H2] by done.
  revert H1 H2. generalize (h <| sched := rest |>). clear E. intros h1 H1 H2. induction ticks as [|t ticks IH]; [done|].
  cbn [foldl]. by rewrite keep_alive_returned.
Qed.

Lemma view_of_sched h s : view (h <| sched := s |>) = view h /\ io_left (h <| sched := s |>) = io_left h.
Proof. done. Qed.

(** * The last frames *)

(** What was sent is this log, of which the client made [c]. *)
Definition sent (h : streamHandler) (c : client) : Prop :=
  exists log, wire h = render_log h log /\ run_log log = Some c.

Lemma sent_view h h' c : view h' = view h -> sent h c -> sent h' c.
Proof.
  intros E [log [Hw Hr]]. destruct (with_blocks_sent _ _ _ _ _ _ _ E) as (E1 & _ & E2). exists log.
  split; [|done]. rewrite (render_config _ _ E1). congruence.
Qed.

(** A stream whose response is claimed, and what its client has. *)
Definition closing (h : streamHandler) (c : client) (reason : string) : Prop :=
  isStream h = true /\ finalStopReason h = reason /\ hasReturn h = true /\ returned h = true /\ requestFailed h = false /\ messageStartWritten h = true
  /\ answer h = None /\ pendingToolCalls h = [] /\ responseText h = "" /\ sent h c.

Lemma closing_view h h' c r : view h' = view h -> closing h c r -> closing h' c r.
Proof.
  intros E (H1 & H0 & H2 & H3 & H4 & H5 & H6 & H7 & H8 & H9). pose proof (sent_view _ _ _ E H9). unfold view, config_of in E. simplify_eq.
  unfold closing. by split_and!; try congruence.
Qed.

Lemma closing_lock h c r : closing h c r -> closing (lock h) c r.
Proof.
  intros Hc. pose proof Hc as (H1 & _ & H2 & _). destruct (lock_returned h H1 H2) as [s ->]. by apply (closing_view h).
Qed.

(** The stream is closing, unless its connection broke. *)
Definition closes (c : client) (reason : string) (h : streamHandler) : Prop := dead h \/ closing h c reason.

Lemma closes_lock h c r : closes c r h -> closes c r (lock h).
Proof. intros [Hd|Hc]; [left; by apply dead_step; [|kept]|right; by apply closing_lock]. Qed.

Lemma closes_view h h' c r : view h' = view h -> io_left h' = io_left h -> closes c r h -> closes c r h'.
Proof. intros E1 E2 [Hd|Hc]; [left; by apply (dead_view h)|right; by apply (closing_view h)]. Qed.

Lemma outcome_closes h c x c' h' r : closing h c r -> log_step c x = Some c' -> outcome h (render h x) h' -> closes c' r h'.
Proof.
  intros (H1 & H0 & H2 & H3 & H4 & H5 & H6 & H7 & H8 & log & Hw & Hr) Hstep [n f ->|E1 E2 E3].
  - right. unfold closing. split_and!; [done..|]. exists (log ++ [x]). split; [|by rewrite (run_log_app _ _ _ Hr)].
    rewrite (render_config h _) by done. rewrite render_log_app, render_log_one, <- Hw. done.
  - left. split_and!; [by rewrite (config_stream _ _ E2)|done|]. exists (log ++ [x]), c'.
    split; [by rewrite (run_log_app _ _ _ Hr)|]. by rewrite (render_config _ _ E2), render_log_app, render_log_one, <- Hw.
Qed.

Lemma final_closes h c e c' r : closes c r h -> client_step c e = Some c' -> (forall code message, e <> ErrorEvent code message) ->
  closes c' r (writeFinalSSEBytesLocked (event_name e) (encode (event_json e)) h).
Proof.
  intros [Hd|Hc] Hstep He; [left; apply (dead_step _ (writeFinalSSEBytesLocked _ _)); [done|kept]|].
  pose proof Hc as (H1 & _ & _ & _ & H4 & _). apply (outcome_closes h c (Ev e)); [done..|]. by apply emit_outcome.
Qed.

(** * [finish_stream] *)

(** A client that has everything but the reason and the end. *)
Definition told (bs : list client_block) : client := open_client bs.
Definition stopped (bs : list client_block) (reason : string) : client :=
  {| cl_opened := true; cl_blocks := bs; cl_reason := Some reason; cl_end := Some (Stopped reason) |}.

Lemma pop_final h bs a r : layout true h bs a -> closes (told bs) r h ->
  exists bs', blocks_text bs' = blocks_text bs /\ others_closed bs' NoBlock
    /\ closes (told bs') r (let '(stopData, h) := popActiveBlockStopDataLocked h in
         match stopData with Some data => writeFinalSSEBytesLocked "content_block_stop" data (lock h) | None => h end).
Proof.
  intros Hl Hc. destruct (place_of a) as [n|] eqn:Ha.
  - destruct (active_block_open _ _ _ (lo_open _ _ _ _ Hl) Ha) as [t Hn].
    exists (<[n := closed_block (kind_of a) t]> bs). split_and!.
    + apply (blocks_text_insert _ _ _ _ Hn). by destruct a.
    + apply others_stop; [apply Hl|done|done].
    + rewrite (pop_stop _ _ _ _ Hl).
      assert (forall h1, closes (told bs) r h1 -> closes (told (<[n := closed_block (kind_of a) t]> bs)) r
        (writeFinalSSEBytesLocked "content_block_stop" (encode (event_json (BlockStop (Z.of_nat n)))) (lock h1))) as Hgo.
      { intros h1 Hc1. apply (final_closes (lock h1) (told bs) (BlockStop (Z.of_nat n))); [by apply closes_lock| |done].
        apply (step_stop _ _ _ _ Hn). }
      destruct a as [|m|m]; cbn in Ha; simplify_eq; apply Hgo; exact Hc.
  - assert (a = NoBlock) as -> by by destruct a. exists bs. split_and!; [done|apply Hl|]. by rewrite (pop_stop _ _ _ _ Hl).
Qed.

Lemma finish_stream_closes stopReason h bs a r : layout true h bs a -> closes (told bs) r h ->
  exists bs', blocks_text bs' = blocks_text bs /\ others_closed bs' NoBlock /\ closes (stopped bs' stopReason) r (finish_stream stopReason h).
Proof.
  intros Hl Hc. pose proof Hl as []. destruct (lock_returned h lo_stream lo_return) as [s Hs].
  assert (layout true (lock h) bs a) as Hl1 by by rewrite Hs; apply (layout_view _ h).
  destruct (pop_final _ _ _ _ Hl1 (closes_lock _ _ _ Hc)) as (bs' & Ht & Ho & Hc1). exists bs'. split_and!; [done|done|].
  unfold finish_stream. cbv zeta. destruct (popActiveBlockStopDataLocked (lock h)) as [stopData h1]. revert Hc1.
  generalize (match stopData with Some data => writeFinalSSEBytesLocked "content_block_stop" data (lock h1) | None => h1 end).
  clear. intros h Hc.
  assert (closes (told bs') r (flushPendingToolCalls h)) as Hc1.
  { destruct Hc as [Hd|Hc]; [left; by apply dead_step; [|kept]|right]. apply closing_lock in Hc. unfold flushPendingToolCalls. cbv zeta.
    pose proof Hc as (_ & _ & _ & _ & _ & _ & _ & E & _). rewrite E. cbn [foldl].
    assert ((lock h) <| pendingToolCalls := [] |> = lock h) as -> by (destruct (lock h); cbn in E; by subst). done. }
  assert (closes (told bs') r (lock (finalizeOutputTokens (flushPendingToolCalls h)))) as Hc2.
  { apply closes_lock. unfold finalizeOutputTokens. cbv zeta. apply closes_lock in Hc1. by destruct (useUpstreamUsage _). }
  revert Hc2. generalize (lock (finalizeOutputTokens (flushPendingToolCalls h))). clear. intros h Hc.
  apply (final_closes _ _ (MessageDelta stopReason (outputTokens h)) {| cl_opened := true; cl_blocks := bs'; cl_reason := Some stopReason; cl_end := None |}) in Hc;
    [|done|done].
  assert (writeSSEMessageDeltaLocked stopReason (outputTokens h) true h
    = writeFinalSSEBytesLocked (event_name (MessageDelta stopReason (outputTokens h)))
        (encode (event_json (MessageDelta stopReason (outputTokens h)))) h) as ->.
  { unfold writeSSEMessageDeltaLocked, write_payload.
    pose proof (payload_json "" (MessageDelta stopReason (outputTokens h))) as Hp. cbn [payload] in Hp. by rewrite Hp. }
  apply closes_lock in Hc. unfold marshalSSEMessageStopBytes. cbv iota. revert Hc.
  generalize (lock (writeFinalSSEBytesLocked (event_name (MessageDelta stopReason (outputTokens h)))
        (encode (event_json (MessageDelta stopReason (outputTokens h)))) h)). clear. intros h Hc.
  by apply (final_closes _ _ MessageStop (stopped bs' stopReason)) in Hc.
Qed.

(** * The opening frame, once sent *)

Lemma keep_alive_opened elapsed h : messageStartWritten h = true -> messageStartWritten (writeKeepAlive elapsed h) = true.
Proof.
  intros E. unfold writeKeepAlive, stream_keep_alive, writeNonStreamKeepAlive, flushSSEWithLenLocked, flushStreamLocked. rewrite E.
  unfold write, flush. repeat (case_match; simplify_eq; try done).
Qed.

Lemma lock_opened h : messageStartWritten h = true -> messageStartWritten (lock h) = true.
Proof.
  intros E. unfold lock. destruct (sched h) as [|ticks rest]; [done|].
  assert (messageStartWritten (h <| sched := rest |>) = true) as E' by done. revert E'. generalize (h <| sched := rest |>). clear.
  induction ticks as [|t ticks IH]; intros h E; [done|]. cbn [foldl]. by apply IH, keep_alive_opened.
Qed.

Lemma log_step_opened c x c' : log_step c x = Some c' -> cl_opened c' = true.
Proof.
  destruct x as [e|]; cbn [log_step].
  - unfold client_step. destruct (cl_end c); [done|]. destruct e; repeat case_match; intros E; simplify_option_eq; done.
  - intros E. repeat case_match; simplify_eq. done.
Qed.

(** A client that has not seen the opening frame has seen nothing. *)
Lemma run_log_unopened log c : run_log log = Some c -> cl_opened c = false -> log = [].
Proof.
  destruct log as [|x log] using rev_ind; [done|]. unfold run_log. rewrite foldl_app. cbn [foldl].
  destruct (foldl _ _ log) as [c0|]; cbn; [|done]. intros E Hc. apply log_step_opened in E. congruence.
Qed.

(** * The ends of an answer *)

(** The client got the stop reason the handler keeps, or the failure it reports; or
    the request was answered with a status, at most the opening frame and keep-alives
    being sent. *)
Inductive final (T : string) (h : streamHandler) : Prop :=
| final_stop c : sent h c -> messageStartWritten h = true -> blocks_text (cl_blocks c) = T -> requestFailed h = false ->
    cl_end c = Some (Stopped (finalStopReason h)) -> others_closed (cl_blocks c) NoBlock -> final T h
| final_fail c code message : sent h c -> messageStartWritten h = true -> blocks_text (cl_blocks c) = T -> requestFailed h = true ->
    cl_end c = Some (Failed code message) -> final T h
| final_refused c a : sent h c -> cl_blocks c = [] -> cl_end c = None -> T = "" -> requestFailed h = true ->
    answer h = Some a -> (messageStartWritten h = false -> wire h = []) -> final T h.

Definition over (T : string) (h : streamHandler) : Prop :=
  isStream h = true /\ hasReturn h = true /\ returned h = true /\ responseText h = "" /\ final T h.

Definition ends (T : string) (h : streamHandler) : Prop := dead h \/ over T h.

Lemma over_view T h h' : view h' = view h -> over T h -> over T h'.
Proof.
  intros E (H1 & H2 & H3 & H4 & Hf). pose proof (sent_view h h') as Hs. specialize (fun c => Hs c E).
  unfold view, config_of in E. simplify_eq. unfold over. (split_and!; [congruence..|]).
  destruct Hf as [c ? ? ? ? ? ?|c code message ? ? ? ? ?|c a ? ? ? ? ? ? Hw0].
  - apply (final_stop _ _ c); try congruence; auto.
  - apply (final_fail _ _ c code message); try congruence; auto.
  - apply (final_refused _ _ c a); try congruence; auto. intros E. specialize (Hw0 ltac:(congruence)). congruence.
Qed.

Lemma over_lock T h : over T h -> over T (lock h).
Proof. intros Ho. destruct (lock_returned h (proj1 Ho) (proj1 (proj2 Ho))) as [s ->]. by apply (over_view _ h). Qed.

(** * [finishResponse] *)

Lemma ensure_live h bs a : live h bs a ->
  dead (snd (ensureMessageStartLocked h))
  \/ (fst (ensureMessageStartLocked h) = true /\ messageStartWritten (snd (ensureMessageStartLocked h)) = true
      /\ live (snd (ensureMessageStartLocked h)) bs a).
Proof.
  intros [Hl [log Hw]]. destruct (ensure_wired h log bs (layout_sendable _ _ _ Hl) Hw) as [?|(E & Hmv & Hm & Hx)]; [by left|right].
  split_and!; [done|done|]. split; [by apply (layout_moved _ h)|done].
Qed.

(** The response claimed: the stream is closing. *)
Lemma claim_closing h bs a stopReason : live h bs a -> messageStartWritten h = true ->
  let h' := h <| hasReturn := true |> <| returned := true |> <| finalStopReason := stopReason |> in
  layout true h' bs a /\ closing h' (told bs) stopReason.
Proof.
  intros [[] [log [Hw Hr Hu]]] Hm h'. split; [by split|]. unfold closing. split_and!; [done..|]. exists log.
  split; [done|]. rewrite Hr. unfold client_of. by rewrite Hm.
Qed.

Lemma claim_ends h bs a stopReason : live h bs a -> messageStartWritten h = true ->
  ends (blocks_text bs) (finalizeCompletion (finish_stream stopReason
    (h <| hasReturn := true |> <| returned := true |> <| finalStopReason := stopReason |>))).
Proof.
  intros Hl Hm. destruct (claim_closing _ _ _ stopReason Hl Hm) as [Hl' Hc].
  destruct (finish_stream_closes stopReason _ _ _ _ Hl' (or_intror Hc)) as (bs' & <- & Ho & Hc').
  revert Ho Hc'. generalize (finish_stream stopReason (h <| hasReturn := true |> <| returned := true |> <| finalStopReason := stopReason |>)).
  clear. intros h Ho Hc. apply closes_lock in Hc. unfold finalizeCompletion. cbv zeta. revert Hc. generalize (lock h). clear h. intros h Hc.
  assert (ends (blocks_text bs') h) as He.
  { destruct Hc as [Hd|(H1 & H0 & H2 & H3 & H4 & H5 & H6 & H7 & H8 & H9)]; [by left|right]. unfold over. split_and!; [done..|].
    apply (final_stop _ _ (stopped bs' stopReason)); [done..|cbn; congruence|done]. }
  destruct (completionLogged h); [done|]. destruct He as [Hd|Hv]; [by left; apply (dead_view h)|by right; apply (over_view _ h)].
Qed.

(** Nothing of a stream is kept for the check of a structured answer. *)
Lemma validate_nothing h : responseText (lock h) = "" -> validateStructuredAnswer h = (None, lock h).
Proof. intros E. unfold validateStructuredAnswer. cbv zeta. rewrite E. by destruct (structured (lock h)). Qed.

Lemma says_at T h : says T h -> dead h \/ exists bs a, at_ bs a h /\ blocks_text bs = T.
Proof. intros [Hd|(bs & a & Hl & Ht)]; [by left|right]. exists bs, a. split; [by right|done]. Qed.

Lemma claim_response_ends T r h : says T h -> messageStartWritten h = true -> ends T (claim_response r h).
Proof.
  intros [Hd|(bs & a & Hl & <-)] Hm; [left; by apply dead_step; [|kept]|]. apply lock_opened in Hm. unfold claim_response. cbv zeta.
  destruct (lock_live _ _ _ Hl) as [Hd|[Hl1 _]].
  - left. destruct (hasReturn (lock h)); [done|]. generalize dependent (lock h). intros h1 _ Hd. apply (dead_kept h1); [done|].
    pose proof (dead_self _ Hd) as Hq. quiet.
  - pose proof Hl1 as [[] _]. rewrite lo_return.
    match goal with |- context [if isStream ?x then _ else _] => change (isStream x) with (isStream (lock h)) end.
    rewrite lo_stream. by apply (claim_ends _ _ a).
Qed.

Lemma open_and_claim_ends T r h : says T h -> ends T (open_and_claim r h).
Proof.
  intros Hs. apply lock_says in Hs. unfold open_and_claim. revert Hs. generalize (lock h). clear h. intros h Hs.
  destruct Hs as [Hd|(bs & a & Hl & <-)].
  { left. apply (dead_kept h); [done|]. pose proof (dead_self _ Hd) as Hq. quiet. }
  destruct (ensure_live _ _ _ Hl) as [Hd|(Ho & Hm & Hl1)]; destruct (ensureMessageStartLocked h) as [opened h1]; cbn [fst snd] in *.
  - left. apply (dead_kept h1); [done|]. pose proof (dead_self _ Hd) as Hq. quiet.
  - subst opened. rewrite andb_false_r. cbn [negb]. apply claim_response_ends; [by apply (live_says _ _ _ _ Hl1)|done].
Qed.

Lemma settled_reason_says T r h : says T h -> says T (settled_reason r h).2.
Proof. intros Hs. unfold settled_reason. destruct (String.eqb r "tool_use"); [by apply lock_says|done]. Qed.

Lemma finishResponse_ends T r h : says T h -> ends T (finishResponse r h).
Proof.
  intros Hs. apply (settled_reason_says T r) in Hs. unfold finishResponse. destruct (settled_reason r h) as [r1 h1].
  cbn [snd] in Hs. clear h. apply lock_says in Hs as Hs1.
  destruct Hs as [Hd|(bs & a & Hl & Ht)].
  { left. apply (dead_kept h1); [done|]. pose proof (dead_self _ Hd) as Hq. quiet. }
  destruct (lock_live _ _ _ Hl) as [Hd|[[[] _] _]].
  - left. unfold validateStructuredAnswer. cbv zeta. revert Hd. generalize (lock h1). intros h2 Hd. apply (dead_kept h2); [done|].
    pose proof (dead_self _ Hd) as Hq. quiet.
  - rewrite validate_nothing by done. by apply open_and_claim_ends.
Qed.

Lemma finish_says T event h : says T h -> ends T (finish event h).
Proof.
  intros Hs. unfold finish. cbv zeta.
  assert (says T (match get_map event "usage" with Some usage => applyUpstreamUsageTokens usage h | None => h end)) as Hs1
    by (destruct (get_map event "usage"); [by apply applyUpstreamUsageTokens_says|done]).
  by apply finishResponse_ends, closeActiveBlock_says, lock_says.
Qed.

(** * Failures *)

Lemma outcome_error code message h :
  outcome h (render h (Ev (ErrorEvent code message)))
    match responseFormat h with
    | FormatOpenAI =>
        let '(ok, h) := writeStreamFrameLocked "" (encode (openai_error_json code message)) h in
        if negb ok then markWriteErrorLocked h
        else
          let '(ok, h) := write sseDoneLine h in
          if negb ok then markWriteErrorLocked h else if flusher h then flushStreamLocked h else h
    | FormatAnthropic =>
        let '(ok, h) := writeStreamFrameLocked "error" (encode (event_json (ErrorEvent code message))) h in
        if negb ok then markWriteErrorLocked h else if flusher h then flushStreamLocked h else h
    end.
Proof.
  assert (forall text h, outcome h [text] (let '(ok, h) := write text h in
    if negb ok then markWriteErrorLocked h else if flusher h then flushStreamLocked h else h)) as Hone.
  { clear. intros text h. pose proof (outcome_frame "error" text h) as Ho. unfold flushSSEWithLenLocked in Ho.
    destruct (write text h) as [ok h1]. change (String.eqb "error" "content_block_delta") with false in Ho. cbv iota in Ho.
    destruct ok; cbn [negb]; [|done]. by destruct (flusher h1). }
  unfold render. destruct (responseFormat h) eqn:Hfmt; [apply Hone|]. unfold writeStreamFrameLocked.
  set (text := stream_frame "" (encode (openai_error_json code message))).
  destruct (write_cases text h) as [[n ->]|[-> Hio]]; cbn [negb].
  - destruct (Hone sseDoneLine (h <| wire := wire h ++ [text] |> <| io_left := n |>)) as [n' f E|E1 E2 E3].
    + apply (out_sent _ _ _ n' f). rewrite E. change [text; sseDoneLine] with ([text] ++ [sseDoneLine]). rewrite app_assoc. done.
    + apply out_broken; [done|exact E2|]. etrans; [exact E3|]. change [text; sseDoneLine] with ([text] ++ [sseDoneLine]). rewrite app_assoc. done.
  - apply out_broken; [exact Hio|done|]. by apply prefix_app_r.
Qed.

Lemma writeStreamError_ends T code message h : says T h -> messageStartWritten h = true -> ends T (writeStreamError code message h).
Proof.
  intros Hs Hm. pose proof (says_stream _ _ Hs) as Hstream. apply lock_says in Hs. apply lock_opened in Hm.
  unfold writeStreamError. rewrite Hstream. cbn [negb]. revert Hs Hm. generalize (lock h). clear h Hstream. cbv zeta. intros h [Hd|(bs & a & Hl & <-)] Hm.
  { left. destruct (hasReturn h); [done|]. apply (dead_kept h); [done|]. pose proof (dead_self _ Hd) as Hq. unfold writeStreamFrameLocked. quiet. }
  destruct Hl as [[] [log [Hw Hr Hu]]]. rewrite lo_return.
  set (h1 := h <| hasReturn := true |> <| requestFailed := true |> <| returned := true |> <| stream_failed := true |>).
  change (responseFormat (h <| hasReturn := true |> <| requestFailed := true |> <| returned := true |> <| stream_failed := true |>))
    with (responseFormat h1).
  assert (marshalOpenAIErrorBytes code message = inl (encode (openai_error_json code message))) as -> by apply openai_error_encoded.
  assert (marshalAnthropicErrorBytes code message = inl (encode (event_json (ErrorEvent code message)))) as ->
    by exact (payload_json "" (ErrorEvent code message)).
  assert (forall h', outcome h1 (render h1 (Ev (ErrorEvent code message))) h' -> ends (blocks_text bs) h') as Hgo; [|exact (Hgo _ (outcome_error code message h1))].
  set (c := {| cl_opened := true; cl_blocks := bs; cl_reason := None; cl_end := Some (Failed code message) |}).
  assert (run_log (log ++ [Ev (ErrorEvent code message)]) = Some c) as Hrun by (rewrite (run_log_app _ _ _ Hr); unfold client_of; by rewrite Hm).
  assert (render_log h1 (log ++ [Ev (ErrorEvent code message)]) = wire h1 ++ render h1 (Ev (ErrorEvent code message))) as Hren.
  { rewrite render_log_app, render_log_one. f_equal. rewrite (render_config h h1) by done. by rewrite <- Hw. }
  intros h' [n f ->|E1 E2 E3].
  - right. unfold over. (split_and!; [done..|]). apply (final_fail _ _ c code message); [|done..]. exists (log ++ [Ev (ErrorEvent code message)]).
    split; [|done]. rewrite (render_config h1 _) by done. by rewrite Hren.
  - left. split_and!; [by rewrite (config_stream _ _ E2)|done|]. exists (log ++ [Ev (ErrorEvent code message)]), c.
    split; [done|]. by rewrite (render_config _ _ E2), Hren.
Qed.

(** Answered with a status. *)
Lemma refused_over h a answer_ : live h [] a ->
  over "" (h <| hasReturn := true |> <| requestFailed := true |> <| returned := true |> <| answer := Some answer_ |>).
Proof.
  intros [[] [log [Hw Hr Hu]]]. unfold over. (split_and!; [done..|]).
  apply (final_refused _ _ (client_of h []) answer_); try done; [by exists log|].
  intros Hm. change (messageStartWritten h = false) in Hm. change (wire h = []). rewrite Hw.
  rewrite (run_log_unopened _ _ Hr); [done|]. exact Hm.
Qed.

Lemma reportRequestFailure_ends T code message retryAfter details h : says T h ->
  ends T (reportRequestFailure code message retryAfter details h).
Proof.
  intros Hs. pose proof (says_stream _ _ Hs) as Hstream. apply lock_says in Hs.
  unfold reportRequestFailure, hasCommitted. rewrite Hstream. cbv zeta.
  destruct Hs as [Hd|(bs & a & Hl & <-)].
  { left. apply (dead_kept (lock h)); [done|]. pose proof (dead_self _ Hd) as Hq. revert Hd Hq. generalize (lock h). intros h1 _ Hq. quiet. }
  pose proof Hl as [[] [log [Hw Hr Hu]]]. rewrite lo_return, orb_false_r.
  destruct (messageStartWritten (lock h)) eqn:Hm; [apply writeStreamError_ends; [by apply (live_says _ bs a)|done]|].
  specialize (Hu eq_refl) as ->. clear -Hl. revert Hl. generalize (lock h). clear h. intros h Hl.
  destruct (lock_live _ _ _ Hl) as [Hd|[Hl1 _]].
  - left. apply (dead_kept (lock h)); [done|]. pose proof (dead_self _ Hd) as Hq. revert Hd Hq. generalize (lock h). intros h1 _ Hq. quiet.
  - pose proof Hl1 as [[] _]. rewrite lo_return.
    match goal with |- context [nonStreamOpened ?x] => change (nonStreamOpened x) with (nonStreamOpened (lock h)) end. rewrite lo_silent.
    right. by apply (refused_over _ a).
Qed.

Lemma InjectNoAvailableAccountError_ends T lastErr selectErr h : says T h -> ends T (InjectNoAvailableAccountError lastErr selectErr h).
Proof. intros Hs. unfold InjectNoAvailableAccountError. by apply reportRequestFailure_ends. Qed.

(** * A request *)

(** The stream goes on or is over, its client having this text, unless its connection
    broke. *)
Definition stands (T : string) (h : streamHandler) : Prop := says T h \/ over T h.

Lemma ends_stands T h : ends T h -> stands T h.
Proof. intros [?|?]; [by left; left|by right]. Qed.

(** The text an operation adds: that of a text delta, while the response is open. *)
Definition added_text (h : streamHandler) (op : request_op) : string :=
  match op with
  | Upstream msg =>
      if returned h then ""
      else if String.eqb (event_key msg) "model.text-delta" then string_of (Event msg) "delta" else ""
  | _ => ""
  end.

Lemma handleMessage_live T msg h : says T h -> returned h = false ->
  stands (T +:+ (if String.eqb (event_key msg) "model.text-delta" then string_of (Event msg) "delta" else "")) (handleMessage msg h).
Proof.
  intros Hs Hr. unfold handleMessage. rewrite Hr. cbv zeta.
  assert (forall k, String.eqb (event_key msg) k = true -> String.eqb k "model.text-delta" = false ->
    String.eqb (event_key msg) "model.text-delta" = false) as Hne by by intros k ->%String.eqb_eq.
  pose proof (finish_says T (Event msg) h Hs) as Hfinish. pose proof (text_delta_says T (Event msg) h Hs) as Htext.
  repeat match goal with |- stands _ (if String.eqb _ ?k then _ else _) =>
    let E := fresh in destruct (String.eqb (event_key msg) k) eqn:E;
    [try rewrite (Hne k E eq_refl); rewrite ?sapp_nil_r|] end.
  - left. by apply reasoning_start_says.
  - left. by apply reasoning_delta_says.
  - left. by apply closeActiveBlock_says.
  - left. by apply (ensureBlock_says T KText "text" h ensure_text).
  - by left.
  - left. by apply closeActiveBlock_says.
  - left. by apply emitIncrementalTool_says.
  - left. by apply tool_call_says.
  - left. by apply applyUpstreamUsageTokens_says.
  - by apply ends_stands.
  - left. by rewrite ?sapp_nil_r.
Qed.

Lemma says_returned T h : says T h -> dead h \/ returned h = false.
Proof. intros [?|(bs & a & [[] _] & _)]; [by left|by right]. Qed.

Lemma run_op_says T h op : says T h -> stands (T +:+ added_text h op) (run_op h op).
Proof.
  intros Hs. destruct (says_returned _ _ Hs) as [Hd|Hr].
  { left; left. apply (dead_step _ (fun h => run_op h op)); [done|]. intros k x Hx. by apply quiet_run_op. }
  destruct op as [|msg| |r|code message ra details|lastErr selectErr]; cbn [run_op added_text]; rewrite ?Hr, ?sapp_nil_r.
  - unfold next_attempt, terminalState. cbv zeta. apply lock_says in Hs. cbn [fst]. destruct (hasReturn (lock h)); [by left|].
    left. by apply resetRoundState_says.
  - by apply handleMessage_live.
  - unfold forceFinishIfMissing. cbv zeta. apply lock_says in Hs. destruct (hasReturn (lock h)); [by left|].
    by apply ends_stands, finishResponse_ends.
  - by apply ends_stands, finishResponse_ends.
  - by apply ends_stands, reportRequestFailure_ends.
  - by apply ends_stands, InjectNoAvailableAccountError_ends.
Qed.

(** What is over stays over. *)
Lemma writeStreamError_over T code message h : over T h -> over T (writeStreamError code message h).
Proof.
  intros Ho. apply over_lock in Ho as Ho1. destruct Ho as (H1 & _), Ho1 as (H2 & H3 & H4). unfold writeStreamError. rewrite H1. cbn [negb].
  by rewrite H3.
Qed.

Lemma reportRequestFailure_over T code message ra details h : over T h -> over T (reportRequestFailure code message ra details h).
Proof.
  intros Ho. unfold reportRequestFailure, hasCommitted. rewrite (proj1 Ho). cbv zeta. apply over_lock in Ho.
  rewrite (proj1 (proj2 Ho)), orb_true_r. by apply writeStreamError_over.
Qed.

Lemma claim_response_over T r h : over T h -> over T (claim_response r h).
Proof. intros Ho. apply over_lock in Ho. unfold claim_response. cbv zeta. by rewrite (proj1 (proj2 Ho)). Qed.

Lemma open_and_claim_over T r h : over T h -> over T (open_and_claim r h).
Proof.
  intros Ho. apply over_lock in Ho. unfold open_and_claim. revert Ho. generalize (lock h). clear h. intros h Ho.
  unfold ensureMessageStartLocked. destruct (messageStartWritten h) eqn:Hm; [rewrite andb_false_r; by apply claim_response_over|].
  pose proof Ho as (H1 & H2 & _). rewrite H1, H2, orb_true_r. cbn [orb negb]. rewrite H1. cbn [andb]. apply over_lock in Ho.
  destruct (negb (messageStartWritten (lock h))); [done|by apply claim_response_over].
Qed.

Lemma finishResponse_over T r h : over T h -> over T (finishResponse r h).
Proof.
  intros Ho. unfold finishResponse.
  assert (over T (settled_reason r h).2) as Ho1 by (unfold settled_reason; destruct (String.eqb r "tool_use"); [by apply over_lock|done]).
  destruct (settled_reason r h) as [r1 h1]. cbn [snd] in Ho1. apply over_lock in Ho1.
  rewrite validate_nothing by apply Ho1. by apply open_and_claim_over.
Qed.

Lemma run_op_over T h op : over T h -> over T (run_op h op).
Proof.
  intros Ho. apply over_lock in Ho as Hl. destruct op as [|msg| |r|code message ra details|lastErr selectErr]; cbn [run_op].
  - unfold next_attempt, terminalState. cbv zeta. cbn [fst]. by rewrite (proj1 (proj2 Hl)).
  - unfold handleMessage. by rewrite (proj1 (proj2 (proj2 Ho))).
  - unfold forceFinishIfMissing. cbv zeta. by rewrite (proj1 (proj2 Hl)).
  - by apply finishResponse_over.
  - by apply reportRequestFailure_over.
  - unfold InjectNoAvailableAccountError. by apply reportRequestFailure_over.
Qed.

Lemma added_over T h op : over T h -> added_text h op = "".
Proof. intros (_ & _ & Hr & _). destruct op; cbn; by rewrite ?Hr. Qed.

(** The texts the operations of a run add. *)
Fixpoint said (h : streamHandler) (ops : list request_op) : string :=
  match ops with
  | [] => ""
  | op :: ops => added_text h op +:+ said (run_op h op) ops
  end.

Lemma run_stands ops T h : stands T h -> stands (T +:+ said h ops) (foldl run_op h ops).
Proof.
  revert T h. induction ops as [|op ops IH]; intros T h Hs; cbn [foldl said]; [by rewrite sapp_nil_r|].
  rewrite <- sapp_assoc. apply IH. destruct Hs as [Hs|Ho]; [by apply run_op_says|].
  right. rewrite (added_over _ _ _ Ho), sapp_nil_r. by apply run_op_over.
Qed.

Lemma new_says flush format id now io ticks : says "" (newStreamHandler true flush format id now io ticks).
Proof.
  right. exists [], NoBlock. split; [|done]. split.
  - by split.
  - exists []. by split.
Qed.

Lemma start_view rq io ticks :
  view (start_request rq io ticks)
  = view (newStreamHandler (rq_stream rq) (rq_can_flush rq) (rq_format rq) (rq_id rq) (rq_now rq) io [])
  /\ io_left (start_request rq io ticks) = io.
Proof. unfold start_request, setUsageTokens. destruct (0 <=? rq_input_tokens rq); by split. Qed.

Lemma start_says rq io ticks : rq_stream rq = true -> says "" (start_request rq io ticks).
Proof.
  intros Hs. destruct (start_view rq io ticks) as [Hv Hio]. rewrite Hs in Hv.
  by apply (says_view _ _ _ Hv Hio), new_says.
Qed.

(** The run of a streamed request, the handler being the one it ends with. *)
Lemma request_stands rq io ticks ops : rq_stream rq = true ->
  stands (said (start_request rq io ticks) ops) (foldl run_op (start_request rq io ticks) ops).
Proof. intros Hs. apply (run_stands ops "" (start_request rq io ticks)). left. by apply start_says. Qed.

(** A connection that does not break leaves no dead handler. *)
Lemma run_keeps k ops h : keeps k h -> keeps k (foldl run_op h ops).
Proof. revert h. induction ops as [|op ops IH]; intros h Hk; [done|]. cbn [foldl]. by apply IH, quiet_run_op. Qed.

Lemma request_unbroken rq ticks ops : ~ dead (foldl run_op (start_request rq None ticks) ops).
Proof.
  intros (_ & Hio & _).
  assert (keeps (unbroken (config_of (start_request rq None ticks))) (start_request rq None ticks)) as Hk.
  { split; [apply start_view|done]. }
  apply (run_keeps _ ops) in Hk as [Hn _]. congruence.
Qed.
