(* ===== verification/StreamAnswer.v ===== *)
(** What the client of a streamed request gets: the theorems about a whole run, and
    the reading of its bytes. *)

From Stdlib Require Import Ascii.
From S2P Require Import Prelude UpstreamErrors Json SseFrame SseFrameCorrect Tokens OpenAISSE AppErrors StreamHandler StreamProtocol StreamQuiet StreamCorrect StreamBlocks StreamEnd.

(** * Reading the frames of a log *)













(** * The run of a request *)

Definition stream_run (rq : request_setup) (io : option nat) (ticks : list (list duration)) (ops : list request_op) : streamHandler :=
  foldl run_op (start_request rq io ticks) ops.

Lemma stands_sent T h : stands T h -> dead h \/ exists c, sent h c /\ blocks_text (cl_blocks c) = T.
Proof.
  intros [[Hd|(bs & a & [_ [log [Hw Hr _]]] & Ht)]|(_ & _ & _ & _ & Hf)]; [by left|right|right].
  - exists (client_of h bs). split; [by exists log|done].
  - destruct Hf as [c|c code message|c a ? Hb ? ->]; exists c; split; try done. by rewrite Hb.
Qed.


(** ** Finishing *)

Lemma finishMessages_stream model h : isStream h = true ->
  isStream (if hasReturn h then h else finishResponse "end_turn" h) = true ->
  (finishMessages model h).2 = (if hasReturn h then h else finishResponse "end_turn" h).
Proof. intros Hs Hs'. unfold finishMessages. cbv zeta. by rewrite Hs'. Qed.

Lemma finish_over T h : stands T h -> ~ dead (if hasReturn h then h else finishResponse "end_turn" h) ->
  over T (if hasReturn h then h else finishResponse "end_turn" h).
Proof.
  intros [Hs|Ho] Hn.
  - destruct (hasReturn h) eqn:Hr.
    + destruct Hs as [Hd|(bs & a & [[] _] & _)]; [done|congruence].
    + by destruct (finishResponse_ends T "end_turn" h Hs).
  - by rewrite (proj1 (proj2 Ho)) in *.
Qed.

Lemma run_finish_unbroken rq ticks ops :
  ~ dead (if hasReturn (stream_run rq None ticks ops) then stream_run rq None ticks ops
          else finishResponse "end_turn" (stream_run rq None ticks ops)).
Proof.
  destruct (hasReturn _); [apply request_unbroken|].
  pose proof (request_unbroken rq ticks (ops ++ [FinishWith "end_turn"])) as H. by rewrite foldl_app in H.
Qed.

(** * The theorems *)

(** C5: whatever the upstream sends, however its attempts fail and whenever the
    keep-alives fall, a streamed response is the beginning of an answer its client can
    follow: the message opens once, blocks are numbered in the order they open, every
    delta goes to an open block of its kind, nothing follows the end. On a connection
    that does not break it is all of that answer, whatever was sent before. *)
Theorem stream_follows_protocol rq io ticks ops (Hs : rq_stream rq = true) :
  let h := stream_run rq io ticks ops in
  exists log c, run_log log = Some c /\ wire h `prefix_of` render_log h log /\ (io = None -> wire h = render_log h log).
Proof.
  intros h. destruct (stands_sent _ _ (request_stands rq io ticks ops Hs)) as [Hd|(c & [log [Hw Hr]] & _)].
  - pose proof Hd as (_ & _ & log & c & Hr & Hw). exists log, c. split_and!; [done..|]. intros ->. by destruct (request_unbroken rq ticks ops).
  - exists log, c. split_and!; [done| |done]. change (wire h) with (wire (foldl run_op (start_request rq io ticks) ops)). by rewrite Hw.
Qed.

Lemma stream_follows_protocol_witness :
  let h := stream_run (demo_request true) (Some 7%nat) [[]; [50 * Second]] demo_ops in
  exists log c, run_log log = Some c /\ wire h `prefix_of` render_log h log /\ (Some 7%nat = None -> wire h = render_log h log).
Proof. apply (stream_follows_protocol (demo_request true) (Some 7%nat) [[]; [50 * Second]] demo_ops eq_refl). Defined.

(** C10: the text blocks a client puts together from a stream hold, in order, the text
    deltas of the upstream up to the end of the response, and no other text. *)
Theorem stream_delivers_text rq ticks ops (Hs : rq_stream rq = true) :
  let h := stream_run rq None ticks ops in
  exists log c, run_log log = Some c /\ wire h = render_log h log
    /\ blocks_text (cl_blocks c) = said (start_request rq None ticks) ops.
Proof.
  intros h. destruct (stands_sent _ _ (request_stands rq None ticks ops Hs)) as [Hd|(c & [log [Hw Hr]] & Ht)].
  - by destruct (request_unbroken rq ticks ops).
  - by exists log, c.
Qed.

Lemma stream_delivers_text_witness :
  let h := stream_run (demo_request true) None [] demo_ops in
  exists log c, run_log log = Some c /\ wire h = render_log h log
    /\ blocks_text (cl_blocks c) = said (start_request (demo_request true) None []) demo_ops.
Proof. apply (stream_delivers_text (demo_request true) [] demo_ops eq_refl). Defined.

(** C8: once the request is finished its stream has ended, and the request is
    recorded as a success exactly where the client got a stop, of the reason recorded,
    every block but those of tools being closed. Where it failed the client got the
    failure as the last event, or a status after no block at all. *)
Theorem stream_outcome_is_recorded rq ticks ops model (Hs : rq_stream rq = true) :
  let '(done, h) := finishMessages model (stream_run rq None ticks ops) in
  exists log c, run_log log = Some c /\ wire h = render_log h log
    /\ if cp_success done
       then cl_end c = Some (Stopped (finalStopReason h)) /\ others_closed (cl_blocks c) NoBlock
       else (exists code message, cl_end c = Some (Failed code message))
            \/ (cl_end c = None /\ cl_blocks c = [] /\ exists a, answer h = Some a).
Proof.
  pose proof (finish_over _ _ (request_stands rq None ticks ops Hs) (run_finish_unbroken rq ticks ops)) as Ho.
  unfold finishMessages. cbv zeta. change (foldl run_op (start_request rq None ticks) ops) with (stream_run rq None ticks ops) in Ho.
  revert Ho. generalize (if hasReturn (stream_run rq None ticks ops) then stream_run rq None ticks ops
          else finishResponse "end_turn" (stream_run rq None ticks ops)). intros h (H1 & H2 & H3 & H4 & Hf).
  rewrite H1. cbn [negb andb cp_success]. rewrite H2. cbn [negb]. rewrite andb_false_r, orb_false_r.
  destruct Hf as [c [log [Hw Hr]] Hm Ht Hrf He Ho|c code message [log [Hw Hr]] Hm Ht Hrf He|c a [log [Hw Hr]] Hb He Ht Hrf Ha Hw0];
    rewrite Hrf; cbn [negb]; exists log, c; split_and!; try done.
  - left. by exists code, message.
  - right. split_and!; [done..|by exists a].
Qed.

Lemma stream_outcome_is_recorded_witness :
  let '(done, h) := finishMessages "m" (stream_run (demo_request true) None [] demo_ops) in
  exists log c, run_log log = Some c /\ wire h = render_log h log
    /\ if cp_success done
       then cl_end c = Some (Stopped (finalStopReason h)) /\ others_closed (cl_blocks c) NoBlock
       else (exists code message, cl_end c = Some (Failed code message))
            \/ (cl_end c = None /\ cl_blocks c = [] /\ exists a, answer h = Some a).
Proof. apply (stream_outcome_is_recorded (demo_request true) [] demo_ops "m" eq_refl). Defined.


