(* ===== verification/WholeAnswer.v ===== *)
(** The answer of a request that is not streamed: the handler keeps the texts of its
    blocks, and the body holds the text deltas of the last attempt. *)

From S2P Require Import Prelude UpstreamErrors Json SseFrame SseFrameCorrect Tokens OpenAISSE AppErrors StreamHandler StreamProtocol StreamQuiet StreamCorrect StreamBlocks StreamEnd.

(** * What is kept *)

(** The fields the text of the answer is in. *)
Definition content (h : streamHandler) :=
  (isStream h, (contentBlocks h, textBlockBuilders h), (activeBlockType h, activeTextBlockIndex h, activeTextSSEIndex h), responseText h).

Definition block_text_at (builders : list (option string)) (i : nat) (b : content_block) : string :=
  match b with CText => default "" (builderAt builders i) | _ => "" end.

Definition kept_text (h : streamHandler) : string :=
  concat_map id (imap (block_text_at (textBlockBuilders h)) (contentBlocks h)).

(** The text block written to is there, and the last. *)
Definition text_active (h : streamHandler) : Prop :=
  exists n, activeTextBlockIndex h = Z.of_nat n /\ contentBlocks h !! n = Some CText
    /\ forall m, (n < m)%nat -> contentBlocks h !! m <> Some CText.

Record whole (T : string) (h : streamHandler) : Prop := {
  wh_stream : isStream h = false;
  wh_kept : kept_text h = T;
  wh_text : responseText h = T;
  wh_active : activeBlockType h = "text" -> text_active h;
  wh_type : activeBlockType h <> "text" -> activeTextSSEIndex h < 0
}.

Lemma whole_content T h h' : content h' = content h -> whole T h -> whole T h'.
Proof.
  intros E [Hs Hk Ht Ha Hty]. unfold content in E. injection E as E1 E2 E3 E4 E5 E6 E7. split.
  - congruence.
  - unfold kept_text in *. by rewrite E2, E3.
  - congruence.
  - unfold text_active in *. by rewrite E2, E4, E5.
  - by rewrite E4, E6.
Qed.

(** Nothing of a stream is sent. *)
Lemma keep_alive_content elapsed h : isStream h = false -> content (writeKeepAlive elapsed h) = content h.
Proof.
  intros Hs. unfold writeKeepAlive, writeNonStreamKeepAlive. rewrite Hs. destruct (_ || _); [done|]. cbv zeta.
  destruct (write _ h) as [ok h1] eqn:E. assert (content h1 = content h) as E1.
  { unfold write in E. destruct (io_left h) as [[|n]|]; by injection E as <- <-. }
  destruct ok; cbn [negb]; [|exact E1]. destruct (flush _) as [ok h2] eqn:E2. rewrite <- E1. unfold flush in E2.
  destruct (io_left _) as [[|n]|]; by injection E2 as <- <-.
Qed.

Lemma lock_content h : isStream h = false -> content (lock h) = content h.
Proof.
  intros Hs. unfold lock. destruct (sched h) as [|ticks rest]; [done|].
  assert (content (h <| sched := rest |>) = content h) as <- by done.
  assert (isStream (h <| sched := rest |>) = false) as Hs' by done. revert Hs'. generalize (h <| sched := rest |>). clear.
  induction ticks as [|t ticks IH]; intros h Hs; [done|]. cbn [foldl].
  assert (isStream (writeKeepAlive t h) = false) as Hs'.
  { rewrite <- Hs. exact (f_equal (fun c => c.1.1.1) (keep_alive_content t h Hs)). }
  rewrite IH by done. by apply keep_alive_content.
Qed.

Lemma lock_whole T h : whole T h -> whole T (lock h).
Proof. intros Hw. apply (whole_content _ h); [|done]. apply lock_content, (wh_stream _ _ Hw). Qed.

Lemma payload_unsent event e final h : isStream h = false -> write_payload event (payload "" e) final h = h.
Proof.
  intros Hs. unfold write_payload, writeFinalSSEBytesLocked, writeSSEBytesLockedWithHint, emitSSEFrameLocked.
  rewrite payload_json, Hs. by destruct final.
Qed.

Lemma addOutputTokens_whole T text h : whole T h -> whole T (addOutputTokens text h).
Proof.
  intros Hw. unfold addOutputTokens. destruct (is_empty text); [done|]. cbv zeta. apply lock_whole in Hw.
  destruct (useUpstreamUsage (lock h)); [done|]. by apply (whole_content _ (lock h)).
Qed.

Lemma applyUpstreamUsageTokens_whole T usage h : whole T h -> whole T (applyUpstreamUsageTokens usage h).
Proof.
  intros H. pose proof (lock_whole _ _ H) as Hl. unfold applyUpstreamUsageTokens. destruct usage as [|u usage]; [done|].
  repeat (match goal with |- context [read_usage (u :: usage) ?l] => generalize (read_usage (u :: usage) l); intro end).
  repeat case_match; first [exact H|by apply (whole_content _ (lock h))].
Qed.

(** * Blocks *)

Lemma close_whole T h : whole T h ->
  whole T (closeActiveBlockLocked h) /\ activeTextSSEIndex (closeActiveBlockLocked h) < 0
  /\ activeBlockType (closeActiveBlockLocked h) = "".
Proof.
  intros [Hs Hk Ht Ha Hty]. unfold closeActiveBlockLocked, popActiveBlockStopDataLocked, marshalSSEContentBlockStopBytes.
  assert (forall h1 event data, isStream h1 = false -> writeSSEBytesLocked event data h1 = h1) as Hno
    by (intros h1 event data E; unfold writeSSEBytesLocked; by rewrite E).
  destruct (is_empty (activeBlockType h)) eqn:E.
  { apply is_empty_true in E. split_and!; [by split|apply Hty; by rewrite E|done]. }
  destruct (String.eqb_spec (activeBlockType h) "thinking") as [E1|_].
  { pose proof (payload_json "" (BlockStop (activeThinkingSSEIndex h))) as Hp. cbn [payload] in Hp.
    match goal with |- context [appendSSEContentBlockStop "" ?x] => change x with (activeThinkingSSEIndex h) end. rewrite Hp, Hno by done.
    split_and!; [|apply Hty; by rewrite E1|done]. split; try done. intros _. apply Hty. by rewrite E1. }
  destruct (String.eqb_spec (activeBlockType h) "text") as [E1|Hne].
  { pose proof (payload_json "" (BlockStop (activeTextSSEIndex h))) as Hp. cbn [payload] in Hp.
    match goal with |- context [appendSSEContentBlockStop "" ?x] => change x with (activeTextSSEIndex h) end. rewrite Hp, Hno by done.
    split_and!; [by split|done|done]. }
  split_and!; [|by apply Hty|done]. split; try done. intros _. by apply Hty.
Qed.

(** ** The builders *)

Lemma builderAt_grow slots n i : builderAt (grow None slots n) i = builderAt slots i.
Proof.
  unfold builderAt, grow. destruct (decide (i < length slots)%nat) as [Hi|Hi]; [by rewrite lookup_app_l|].
  rewrite lookup_app_r by lia. rewrite (lookup_ge_None_2 slots) by lia. destruct (_ !! (i - _)%nat) as [b|] eqn:E; [|done].
  apply list_elem_of_lookup_2, list_elem_of_In, repeat_spec in E. by subst b.
Qed.

Lemma builderAt_insert slots n b i : (n < length slots)%nat ->
  builderAt (<[n := Some b]> slots) i = if decide (i = n) then Some b else builderAt slots i.
Proof.
  intros Hn. unfold builderAt. destruct (decide (i = n)) as [->|Hi]; [by rewrite list_lookup_insert_eq|by rewrite list_lookup_insert_ne].
Qed.

Lemma grow_length {A} (zero : A) slots n : (n < length (grow zero slots n))%nat.
Proof. unfold grow. rewrite length_app, repeat_length. lia. Qed.

Lemma builderAt_write slots n delta i :
  builderAt (write_history slots n delta) i = if decide (i = n) then Some (default "" (builderAt slots n) +:+ delta) else builderAt slots i.
Proof. unfold write_history. cbv zeta. by rewrite builderAt_insert, !builderAt_grow by apply grow_length. Qed.

Lemma concat_map_nothing {A} (f : nat -> A -> string) l : (forall i x, l !! i = Some x -> f i x = "") -> concat_map id (imap f l) = "".
Proof.
  revert f. induction l as [|x l IH]; intros f Hf; [done|]. rewrite imap_cons, concat_map_cons.
  change (f 0%nat x +:+ concat_map id (imap (f ∘ S) l) = ""). rewrite (Hf 0%nat x eq_refl), IH; [done|]. intros i y Hy. by apply (Hf (S i)).
Qed.

Lemma kept_text_app blocks builders builders' b :
  (forall i, (i < length blocks)%nat -> builderAt builders' i = builderAt builders i) ->
  concat_map id (imap (block_text_at builders') (blocks ++ [b]))
  = concat_map id (imap (block_text_at builders) blocks) +:+ block_text_at builders' (length blocks) b.
Proof.
  intros Hb. rewrite imap_app, concat_map_app. f_equal.
  - f_equal. apply imap_ext. intros i x Hx. destruct x; [done| |done]. cbn. by rewrite Hb by by eapply lookup_lt_Some.
  - rewrite imap_cons, concat_map_cons. etrans; [apply sapp_nil_r|]. unfold compose, id. by rewrite Nat.add_0_r.
Qed.

Lemma kept_text_write blocks builders n delta : blocks !! n = Some CText ->
  (forall m, (n < m)%nat -> blocks !! m <> Some CText) ->
  concat_map id (imap (block_text_at (write_history builders n delta)) blocks)
  = concat_map id (imap (block_text_at builders) blocks) +:+ delta.
Proof.
  intros Hn Hlast. rewrite <- (take_drop_middle blocks n CText Hn). rewrite !imap_app, !imap_cons, !concat_map_app, !concat_map_cons, !sapp_assoc.
  assert (length (take n blocks) = n) as Hlen by (apply length_take_le, Nat.lt_le_incl; by eapply lookup_lt_Some).
  assert (forall bld, concat_map id (imap ((fun i => block_text_at bld (length (take n blocks) + i)%nat) ∘ S) (drop (S n) blocks)) = "") as Hrest.
  { intros bld. apply concat_map_nothing. intros i x Hx. rewrite lookup_drop in Hx. specialize (Hlast (S n + i)%nat ltac:(lia)).
    destruct x; [done| |done]. congruence. }
  f_equal.
  - f_equal. apply imap_ext. intros i x Hx. apply lookup_lt_Some in Hx. rewrite Hlen in Hx. destruct x; [done| |done].
    cbn. rewrite builderAt_write. by rewrite decide_False by lia.
  - rewrite !Hrest, sapp_nil_r. change ("" +:+ delta) with delta. unfold id. cbn [block_text_at].
    by rewrite Hlen, Nat.add_0_r, builderAt_write, decide_True by done.
Qed.

(** ** Text *)

Lemma whole_stream_false T h : whole T h -> isStream h = false.
Proof. by intros []. Qed.

Lemma start_text_whole T h : whole T h -> whole T (start_block "text" h) /\ activeBlockType (start_block "text" h) = "text".
Proof.
  intros [Hs Hk Ht Ha Hty]. unfold start_block. cbv zeta. change (String.eqb "text" "thinking") with false.
  change (String.eqb "text" "text") with true. cbv iota.
  match goal with |- whole _ (writeSSEContentBlockStartTextLocked ?i _ ?x) /\ _ =>
    assert (writeSSEContentBlockStartTextLocked i false x = x) as -> by by apply (payload_unsent "content_block_start" (BlockStart i StartText)) end.
  split; [|done]. set (n := length (contentBlocks h)). set (slots := grow None (textBlockBuilders h) n).
  assert (forall i, builderAt (<[n := Some ""]> slots) i = if decide (i = n) then Some "" else builderAt (textBlockBuilders h) i) as Hb.
  { intros i. unfold slots. rewrite builderAt_insert by apply grow_length. by rewrite builderAt_grow. }
  split; [done| |done| |done].
  - rewrite <- Hk. change (concat_map id (imap (block_text_at (<[n := Some ""]> slots)) (contentBlocks h ++ [CText])) = kept_text h).
    rewrite (kept_text_app _ (textBlockBuilders h)) by (intros i Hi; rewrite Hb; by rewrite decide_False by (unfold n; lia)).
    cbn [block_text_at]. rewrite Hb, decide_True by done. apply sapp_nil_r.
  - intros _. exists n. change (Z.of_nat n = Z.of_nat n /\ (contentBlocks h ++ [CText]) !! n = Some CText
      /\ forall m, (n < m)%nat -> (contentBlocks h ++ [CText]) !! m <> Some CText). split_and!; [done|by rewrite lookup_app_r, Nat.sub_diag|].
    intros m Hm E. apply lookup_lt_Some in E. rewrite length_app in E. cbn in E. unfold n in Hm. lia.
Qed.

Lemma start_thinking_whole T h : whole T h -> activeTextSSEIndex h < 0 -> whole T (start_block "thinking" h).
Proof.
  intros [Hs Hk Ht Ha Hty] Hi. unfold start_block. cbv zeta. change (String.eqb "thinking" "thinking") with true. cbv iota.
  match goal with |- whole _ (write_payload _ (appendSSEContentBlockStartThinking "" ?i ?s) _ ?x) =>
    assert (write_payload "content_block_start" (appendSSEContentBlockStartThinking "" i s) false x = x) as ->
      by by apply (payload_unsent "content_block_start" (BlockStart i (StartThinking s))) end.
  split; [done| |done|done|done]. rewrite <- Hk.
  change (concat_map id (imap (block_text_at (textBlockBuilders h)) (contentBlocks h ++ [CThinking (pendingThinkingSig h)])) = kept_text h).
  rewrite (kept_text_app _ (textBlockBuilders h)) by done. apply sapp_nil_r.
Qed.

Lemma close_other_whole T blockType h : whole T h ->
  whole T (close_other blockType h)
  /\ (activeBlockType (close_other blockType h) = blockType \/ activeBlockType (close_other blockType h) = "" /\ activeTextSSEIndex (close_other blockType h) < 0).
Proof.
  intros Hw. unfold close_other. destruct (is_empty (activeBlockType h)) eqn:E; cbn [negb andb].
  { apply is_empty_true in E. split; [done|]. right. split; [done|]. apply (wh_type _ _ Hw). by rewrite E. }
  destruct (String.eqb_spec (activeBlockType h) blockType) as [Hb|_]; cbn [negb]; [by split; [|left]|].
  destruct (close_whole _ _ Hw) as (H1 & H2 & H3). split; [done|by right].
Qed.

Lemma ensureBlock_text_whole T h : whole T h ->
  whole T (ensureBlock "text" h).2 /\ activeBlockType (ensureBlock "text" h).2 = "text".
Proof.
  intros Hw. apply lock_whole in Hw. unfold ensureBlock. cbv zeta.
  destruct (close_other_whole _ "text" _ Hw) as [Hw1 [Ht|[Ht Hi]]]; unfold active_position; rewrite Ht; [done|].
  by apply start_text_whole.
Qed.

Lemma ensureBlock_thinking_whole T h : whole T h -> whole T (ensureBlock "thinking" h).2.
Proof.
  intros Hw. apply lock_whole in Hw. unfold ensureBlock. cbv zeta.
  destruct (close_other_whole _ "thinking" _ Hw) as [Hw1 [Ht|[Ht Hi]]]; unfold active_position; rewrite Ht; [done|].
  by apply start_thinking_whole.
Qed.

Lemma text_position_whole T h : whole T h ->
  whole T (text_position h).2 /\ activeBlockType (text_position h).2 = "text"
  /\ (text_position h).1.2 = activeTextBlockIndex (text_position h).2.
Proof.
  intros Hw. unfold text_position. cbv zeta. destruct (Z.ltb_spec (activeTextSSEIndex h) 0) as [_|Hpos].
  - destruct (ensureBlock_text_whole _ _ Hw) as [Hw1 Ht]. destruct (ensureBlock "text" h) as [i h1]. cbn [fst snd] in *.
    pose proof (lock_content h1 (wh_stream _ _ Hw1)) as Hc. split_and!; [by apply (whole_content _ h1)| |done].
    rewrite <- Ht. exact (f_equal (fun c => c.1.2.1.1) Hc).
  - cbn [fst snd]. split_and!; [done| |done]. destruct (decide (activeBlockType h = "text")) as [?|Hn]; [done|].
    pose proof (wh_type _ _ Hw Hn). lia.
Qed.

Lemma keep_text_whole T delta h : whole T h -> activeBlockType h = "text" ->
  whole (T +:+ delta) (keep_text (activeTextBlockIndex h) delta h).
Proof.
  intros [Hs Hk Ht Ha Hty] Htype. destruct (Ha Htype) as (n & Hidx & Hn & Hlast). unfold keep_text. cbv zeta.
  set (h1 := if useUpstreamUsage h then h else h <| outputEstimator := Estimator_Add (outputEstimator h) delta |>).
  assert (content h1 = content h) as E by (subst h1; by destruct (useUpstreamUsage h)).
  unfold content in E. injection E as E1 E2 E3 E4 E5 E6 E7. rewrite E1, Hs.
  assert (in_blocks (activeTextBlockIndex h) (h1 <| responseText := responseText h1 +:+ delta |>) = true) as ->.
  { unfold in_blocks. change (contentBlocks (h1 <| responseText := _ |>)) with (contentBlocks h1). rewrite E2, Hidx.
    apply lookup_lt_Some in Hn. apply andb_true_iff. split; [apply Z.leb_le|apply Z.ltb_lt]; lia. }
  rewrite Hidx, Nat2Z.id.
  split; [by change (isStream h1 = false); rewrite E1|..].
  - change (concat_map id (imap (block_text_at (write_history (textBlockBuilders h1) n delta)) (contentBlocks h1)) = T +:+ delta).
    rewrite E2, E3, (kept_text_write _ _ _ _ Hn Hlast), <- Hk. done.
  - change (responseText h1 +:+ delta = T +:+ delta). by rewrite E7, Ht.
  - intros _. exists n. change ((activeTextBlockIndex h1 = Z.of_nat n) /\ contentBlocks h1 !! n = Some CText /\
      forall m, (n < m)%nat -> contentBlocks h1 !! m <> Some CText). rewrite E2, E5. by split_and!.
  - intros Hne. change (activeBlockType h1 <> "text") in Hne. by rewrite E4 in Hne.
Qed.

Lemma text_delta_whole T event h : whole T h -> whole (T +:+ string_of event "delta") (text_delta event h).
Proof.
  intros Hw. unfold text_delta. cbv zeta. destruct (is_empty (string_of event "delta")) eqn:E.
  { by rewrite (proj1 (is_empty_true _) E), sapp_nil_r. }
  destruct (text_position_whole T ((lock h) <| hasTextOutput := true |>)) as (Hw1 & Ht & Hi).
  { apply (whole_content _ (lock h)); [done|by apply lock_whole]. }
  destruct (text_position _) as [[i j] h1]. cbn [fst snd] in *. rewrite Hi.
  pose proof (keep_text_whole T (string_of event "delta") h1 Hw1 Ht) as Hw2.
  assert (writeSSEContentBlockDeltaTextLocked i (string_of event "delta") false (keep_text (activeTextBlockIndex h1) (string_of event "delta") h1)
    = keep_text (activeTextBlockIndex h1) (string_of event "delta") h1) as ->; [|done].
  apply (payload_unsent "content_block_delta" (BlockDelta i (DeltaText (string_of event "delta")))). by destruct Hw2.
Qed.

(** ** Reasoning *)

Lemma whole_blocks T h h' blocks : whole T h -> content h' = (isStream h, (blocks, textBlockBuilders h),
    (activeBlockType h, activeTextBlockIndex h, activeTextSSEIndex h), responseText h) ->
  kept_text (h <| contentBlocks := blocks |>) = kept_text h ->
  (forall i, contentBlocks h !! i = Some CText -> blocks !! i = Some CText) ->
  (forall i, blocks !! i = Some CText -> contentBlocks h !! i = Some CText) -> whole T h'.
Proof.
  intros [Hs Hk Ht Ha Hty] E Hkept H1 H2. apply (whole_content _ (h <| contentBlocks := blocks |>)); [exact E|].
  split; [done|by rewrite Hkept|done| |done]. intros Hact. destruct (Ha Hact) as (n & E1 & E2 & E3).
  exists n. change (activeTextBlockIndex h = Z.of_nat n /\ blocks !! n = Some CText /\ forall m, (n < m)%nat -> blocks !! m <> Some CText).
  split_and!; [done|by apply H1|]. intros m Hm E4. by apply (E3 m Hm), H2.
Qed.

Lemma set_block_signature_whole T i sig h : whole T h -> whole T (set_block_signature i sig h).
Proof.
  intros Hw. unfold set_block_signature. destruct (in_blocks i h); [|done].
  destruct (thinkingBlockSigAt i h) as [[|c s]|]; [|done|done]. cbv zeta.
  set (f := fun b => match b with CThinking _ => CThinking sig | b => b end).
  assert (forall k, alter f (Z.to_nat i) (contentBlocks h) !! k = Some CText <-> contentBlocks h !! k = Some CText) as Hf.
  { intros k. destruct (decide (k = Z.to_nat i)) as [->|Hk]; [|by rewrite list_lookup_alter_ne].
    rewrite list_lookup_alter_eq. destruct (contentBlocks h !! Z.to_nat i) as [[]|]; cbn; [split; congruence|done|split; congruence|done]. }
  apply (whole_blocks T h _ (alter f (Z.to_nat i) (contentBlocks h)) Hw); [done| |apply Hf|apply Hf].
  change (concat_map id (imap (block_text_at (textBlockBuilders h)) (alter f (Z.to_nat i) (contentBlocks h))) = kept_text h).
  unfold kept_text. f_equal. apply list_eq. intros j. rewrite !list_lookup_imap.
  destruct (decide (j = Z.to_nat i)) as [->|Hj]; [|by rewrite list_lookup_alter_ne].
  rewrite list_lookup_alter_eq. by destruct (contentBlocks h !! Z.to_nat i) as [[]|].
Qed.

Lemma app_block_whole T h h' b : whole T h -> (match b with CText => False | _ => True end) ->
  content h' = (isStream h, (contentBlocks h ++ [b], textBlockBuilders h),
    (activeBlockType h, activeTextBlockIndex h, activeTextSSEIndex h), responseText h) -> whole T h'.
Proof.
  intros Hw Hb E. apply (whole_blocks T h _ (contentBlocks h ++ [b]) Hw E).
  - change (concat_map id (imap (block_text_at (textBlockBuilders h)) (contentBlocks h ++ [b])) = kept_text h).
    rewrite (kept_text_app _ (textBlockBuilders h)) by done. destruct b; [apply sapp_nil_r|done|apply sapp_nil_r].
  - intros i Hi. by apply lookup_app_l_Some.
  - intros i Hi. apply lookup_app_Some in Hi as [Hi|[_ Hi]]; [done|]. apply list_lookup_singleton_Some in Hi as [_ ->]. done.
Qed.

Lemma reasoning_start_whole T event h : whole T h -> whole T (reasoning_start event h).
Proof.
  intros Hw. unfold reasoning_start. cbv zeta. destruct (is_empty _); [by apply (whole_content _ h)|].
  apply ensureBlock_thinking_whole. by apply (whole_content _ h).
Qed.

Lemma reasoning_signature_whole T event h : whole T h -> whole T (reasoning_signature event h).2.
Proof.
  intros Hw. apply lock_whole in Hw. unfold reasoning_signature. cbv zeta. destruct (is_empty (pendingThinkingSig _)); [|done].
  cbn [snd]. destruct (is_empty _); [done|]. apply (whole_content _ (lock (lock h))); [done|by apply lock_whole].
Qed.

Lemma thinking_position_whole T h : whole T h -> whole T (thinking_position h).2.
Proof.
  intros Hw. unfold thinking_position. cbv zeta. destruct (activeThinkingSSEIndex h <? 0); [|done].
  apply ensureBlock_thinking_whole in Hw. destruct (ensureBlock "thinking" h) as [i h1]. by apply lock_whole.
Qed.

Lemma keep_thinking_whole T i delta h : whole T h -> whole T (keep_thinking i delta h).
Proof.
  intros Hw. apply (whole_content _ h); [|done]. unfold keep_thinking. cbv zeta. rewrite (wh_stream _ _ Hw). by case_match.
Qed.

Lemma reasoning_delta_whole T event h : whole T h -> whole T (reasoning_delta event h).
Proof.
  intros Hw. apply (reasoning_signature_whole T event) in Hw. unfold reasoning_delta.
  destruct (reasoning_signature event h) as [sig h1]. cbn [snd] in Hw. cbv zeta. destruct (is_empty (string_of event "delta")).
  - destruct (is_empty sig); [done|]. apply ensureBlock_thinking_whole in Hw. destruct (ensureBlock "thinking" h1) as [i h2].
    by apply set_block_signature_whole, lock_whole.
  - assert (forall h2, whole T h2 -> whole T (let '(sseIdx, internalIdx, h) := thinking_position h2 in
      writeSSEContentBlockDeltaThinkingLocked sseIdx (string_of event "delta") false (keep_thinking internalIdx (string_of event "delta") h)))
      as Hgo.
    { intros h2 Hw2. apply thinking_position_whole in Hw2. destruct (thinking_position h2) as [[i j] h3]. cbn [snd] in Hw2.
      apply (keep_thinking_whole T j (string_of event "delta")) in Hw2.
      assert (writeSSEContentBlockDeltaThinkingLocked i (string_of event "delta") false (keep_thinking j (string_of event "delta") h3)
        = keep_thinking j (string_of event "delta") h3) as ->; [|done].
      apply (payload_unsent "content_block_delta" (BlockDelta i (DeltaThinking (string_of event "delta")))). by destruct Hw2. }
    assert (whole T ((lock h1) <| hasReasoningOutput := true |>)) as Hw2 by by apply (whole_content _ (lock h1)); [|apply lock_whole].
    destruct (is_empty sig); [by apply Hgo|]. by apply Hgo, set_block_signature_whole.
Qed.

(** ** Tools and the end *)

Lemma emitToolCallNonStream_whole T call h : whole T h -> whole T (emitToolCallNonStream call h).
Proof.
  intros Hw. unfold emitToolCallNonStream. cbv zeta.
  assert (whole T (addOutputTokens (tc_input call) (addOutputTokens (tc_name call) h))) as Hw1 by by do 2 apply addOutputTokens_whole.
  by apply (app_block_whole T _ _ (CTool (tc_id call) (tc_name call) (default (JObject []) (parse (input_json (tc_input call))))) Hw1).
Qed.

Lemma flushPendingToolCalls_whole T h : whole T h -> whole T (flushPendingToolCalls h).
Proof.
  intros Hw. apply lock_whole in Hw. unfold flushPendingToolCalls. cbv zeta. generalize (pendingToolCalls (lock h)). intros calls.
  assert (whole T ((lock h) <| pendingToolCalls := [] |>)) as Hw1 by by apply (whole_content _ (lock h)).
  revert Hw1. generalize ((lock h) <| pendingToolCalls := [] |>). clear. induction calls as [|call calls IH]; intros h Hw; [done|].
  cbn [foldl]. apply IH. rewrite (wh_stream _ _ Hw). by apply emitToolCallNonStream_whole.
Qed.

Lemma finalizeOutputTokens_whole T h : whole T h -> whole T (finalizeOutputTokens h).
Proof.
  intros Hw. apply lock_whole in Hw. unfold finalizeOutputTokens. cbv zeta. destruct (useUpstreamUsage _); [done|].
  by apply (whole_content _ (lock h)).
Qed.

Lemma finalizeCompletion_whole T h : whole T h -> whole T (finalizeCompletion h).
Proof.
  intros Hw. apply lock_whole in Hw. unfold finalizeCompletion. cbv zeta. destruct (completionLogged _); [done|].
  by apply (whole_content _ (lock h)).
Qed.

Lemma tool_call_whole T event h : whole T h -> whole T (tool_call event h).
Proof.
  intros Hw. unfold tool_call. cbv zeta. destruct (is_empty _); [done|]. destruct (bool_decide _); [done|].
  unfold shouldAcceptToolCall. cbv zeta. apply lock_whole in Hw. destruct (negb _); [done|].
  assert (whole T ((lock h) <| toolCallHandled := {[ string_of event "toolCallId" ]} ∪ toolCallHandled (lock h) |>)) as Hw1
    by by apply (whole_content _ (lock h)).
  revert Hw1. generalize ((lock h) <| toolCallHandled := {[ string_of event "toolCallId" ]} ∪ toolCallHandled (lock h) |>).
  clear h Hw. intros h Hw. apply lock_whole in Hw as Hl. destruct (streamingTools h !! _) as [idx|].
  - assert (writeSSEContentBlockStopLocked idx false (lock h) = lock h) as ->.
    { apply (payload_unsent "content_block_stop" (BlockStop idx)). by destruct Hl. }
    by apply (whole_content _ (lock h)).
  - rewrite (wh_stream _ _ Hw). unfold handleToolCallAfterChecks. cbv zeta. by apply (whole_content _ (lock h)).
Qed.

Lemma write_content text h : content (snd (write text h)) = content h.
Proof. unfold write. by destruct (io_left h) as [[|n]|]. Qed.

Lemma reportRequestFailure_whole T code message ra details h : whole T h -> whole T (reportRequestFailure code message ra details h).
Proof.
  intros Hw. unfold reportRequestFailure. rewrite (wh_stream _ _ Hw). cbv zeta. apply lock_whole in Hw.
  destruct (hasReturn _); [done|]. destruct (nonStreamOpened _); apply (whole_content _ (lock h)); try done. etrans; [apply write_content|done].
Qed.

Lemma claim_response_whole T r h : whole T h -> whole T (claim_response r h).
Proof.
  intros Hw. apply lock_whole in Hw. unfold claim_response. cbv zeta. destruct (hasReturn (lock h)); [done|].
  match goal with |- context [if isStream ?x then _ else _] => change (isStream x) with (isStream (lock h)) end.
  rewrite (wh_stream _ _ Hw). apply finalizeCompletion_whole, finalizeOutputTokens_whole, flushPendingToolCalls_whole.
  by apply (whole_content _ (lock h)).
Qed.

Lemma open_and_claim_whole T r h : whole T h -> whole T (open_and_claim r h).
Proof.
  intros Hw. apply lock_whole in Hw. unfold open_and_claim. pose proof (wh_stream _ _ Hw) as Hs.
  assert (ensureMessageStartLocked (lock h) = (messageStartWritten (lock h), lock h)) as ->.
  { unfold ensureMessageStartLocked. rewrite Hs. cbn [negb]. rewrite orb_true_r. by destruct (messageStartWritten (lock h)). }
  rewrite Hs. cbn [andb negb]. by apply claim_response_whole.
Qed.

Lemma finishResponse_whole T r h : whole T h -> whole T (finishResponse r h).
Proof.
  intros Hw. unfold finishResponse.
  assert (whole T (settled_reason r h).2) as Hw1 by (unfold settled_reason; destruct (String.eqb r "tool_use"); [by apply lock_whole|done]).
  destruct (settled_reason r h) as [r1 h1]. cbn [snd] in Hw1. unfold validateStructuredAnswer. cbv zeta. apply lock_whole in Hw1.
  destruct (structured (lock h1)) as [check|]; [|by apply open_and_claim_whole].
  destruct (if is_empty _ then _ else _); [by apply reportRequestFailure_whole|by apply open_and_claim_whole].
Qed.

Lemma closeActiveBlock_whole T h : whole T h -> whole T (closeActiveBlock h).
Proof. intros Hw. apply lock_whole in Hw. by apply close_whole. Qed.

Lemma finish_whole T event h : whole T h -> whole T (finish event h).
Proof.
  intros Hw. unfold finish. cbv zeta.
  assert (whole T (match get_map event "usage" with Some usage => applyUpstreamUsageTokens usage h | None => h end)) as Hw1
    by (destruct (get_map event "usage"); [by apply applyUpstreamUsageTokens_whole|done]).
  by apply finishResponse_whole, closeActiveBlock_whole, lock_whole.
Qed.

Lemma handleMessage_whole T msg h : whole T h -> whole (T +:+ added_text h (Upstream msg)) (handleMessage msg h).
Proof.
  intros Hw. unfold handleMessage. cbn [added_text]. destruct (returned h); [by rewrite sapp_nil_r|]. cbv zeta.
  assert (forall k, String.eqb (event_key msg) k = true -> String.eqb k "model.text-delta" = false ->
    String.eqb (event_key msg) "model.text-delta" = false) as Hne by by intros k ->%String.eqb_eq.
  repeat match goal with |- whole _ (if String.eqb _ ?k then _ else _) =>
    let E := fresh in destruct (String.eqb (event_key msg) k) eqn:E;
    [try rewrite (Hne k E eq_refl); rewrite ?sapp_nil_r|] end.
  - by apply reasoning_start_whole.
  - by apply reasoning_delta_whole.
  - by apply closeActiveBlock_whole.
  - by apply ensureBlock_text_whole.
  - by apply text_delta_whole.
  - by apply closeActiveBlock_whole.
  - unfold emitIncrementalTool. by rewrite (wh_stream _ _ Hw).
  - by apply tool_call_whole.
  - by apply applyUpstreamUsageTokens_whole.
  - by apply finish_whole.
  - by rewrite ?sapp_nil_r.
Qed.

(** * A request *)

(** The text of the attempt under way: an attempt that follows another starts anew. *)
Definition next_text (T : string) (h : streamHandler) (op : request_op) : string :=
  match op with
  | NextAttempt => if hasReturn (lock h) then T else ""
  | op => T +:+ added_text h op
  end.

Fixpoint said_last (T : string) (h : streamHandler) (ops : list request_op) : string :=
  match ops with
  | [] => T
  | op :: ops => said_last (next_text T h op) (run_op h op) ops
  end.

Lemma clear_round_whole T h : whole T h -> whole "" (clear_round h).
Proof. intros [Hs _ _ _ _]. by split. Qed.

Lemma run_op_whole T h op : whole T h -> whole (next_text T h op) (run_op h op).
Proof.
  intros Hw. apply lock_whole in Hw as Hl.
  destruct op as [|msg| |r|code message ra details|lastErr selectErr]; cbn [run_op next_text]; rewrite ?sapp_nil_r.
  - unfold next_attempt, terminalState. cbv zeta. cbn [fst]. destruct (hasReturn (lock h)); [done|]. unfold resetRoundState.
    apply (clear_round_whole T), close_whole, lock_whole, Hl.
  - by apply handleMessage_whole.
  - unfold forceFinishIfMissing. cbv zeta. destruct (hasReturn (lock h)); [done|]. by apply finishResponse_whole.
  - by apply finishResponse_whole.
  - by apply reportRequestFailure_whole.
  - unfold InjectNoAvailableAccountError. by apply reportRequestFailure_whole.
Qed.

Lemma run_whole ops T h : whole T h -> whole (said_last T h ops) (foldl run_op h ops).
Proof. revert T h. induction ops as [|op ops IH]; intros T h Hw; [done|]. by apply IH, run_op_whole. Qed.

Lemma start_whole rq io ticks : rq_stream rq = false -> whole "" (start_request rq io ticks).
Proof.
  intros Hs. apply (whole_content _ (newStreamHandler false (rq_can_flush rq) (rq_format rq) (rq_id rq) (rq_now rq) io [])).
  - unfold start_request, setUsageTokens. rewrite <- Hs. by destruct (0 <=? rq_input_tokens rq).
  - by split.
Qed.

Definition block_text_of (b : answer_block) : string := match b with AText text => text | _ => "" end.

(** The text of a body. *)
Definition answer_text (a : final_answer) : string :=
  match a with
  | AnthropicAnswer a => concat_map block_text_of (aa_content a)
  | OpenAIAnswer a => oa_content a
  end.

Lemma materialize_text h : concat_map block_text_of (materialize h) = kept_text h.
Proof.
  unfold materialize, kept_text, block_text_at. generalize (textBlockBuilders h), (thinkingBlockBuilders h), (contentBlocks h).
  intros tb thb blocks.
  assert (forall k : nat, concat_map block_text_of (imap (fun i b => match b with
      | CText => AText (default "" (builderAt tb (k + i)))
      | CThinking signature => AThinking (default "" (builderAt thb (k + i))) signature
      | CTool id name input => ATool id name input end) blocks)
    = concat_map id (imap (fun i b => match b with CText => default "" (builderAt tb (k + i)) | _ => "" end) blocks)) as H; [|exact (H 0%nat)].
  induction blocks as [|b blocks IH]; intros k; [done|]. rewrite !imap_cons, !concat_map_cons. f_equal; [by destruct b|].
  specialize (IH (S k)).
  etrans; [etrans; [|exact IH]|]; f_equal; apply imap_ext; intros i x _; unfold compose; by rewrite Nat.add_succ_r.
Qed.

Lemma final_response_text T model h : whole T h ->
  answer_text (final_response model h) = T
  \/ (responseFormat h = FormatOpenAI /\ answer_text (final_response model h) = "" /\ TrimSpace T = "").
Proof.
  intros [Hs Hk Ht _ _]. unfold final_response. cbv zeta.
  assert ((if bool_decide (contentBlocks h = []) && negb (is_empty (responseText h)) then [AText (responseText h)] else materialize h)
    = materialize h) as ->.
  { destruct (bool_decide (contentBlocks h = [])) eqn:E; [|done]. apply bool_decide_eq_true in E.
    unfold kept_text in Hk. rewrite E in Hk. cbn in Hk. by rewrite Ht, <- Hk. }
  pose proof (materialize_text h) as Hm. rewrite Hk in Hm.
  destruct (responseFormat h); [by left|]. cbn [answer_text]. unfold buildOpenAINonStreamResponse. cbv zeta. cbn [oa_content].
  change (concat_map (fun b => match b with AText text => text | _ => "" end) (materialize h))
    with (concat_map block_text_of (materialize h)). rewrite Hm.
  destruct (is_empty (TrimSpace T)) eqn:E; cbn [andb]; [|by left]. apply is_empty_true in E.
  case_match; [by right|by left].
Qed.

(** C13: the body of a request that is not streamed holds exactly the text deltas of
    its last attempt, in order, whatever else the upstream sent; an OpenAI body may
    leave out a text of white space. Without a body the request has failed. *)
Theorem whole_answer_text rq io ticks ops model (Hs : rq_stream rq = false) :
  let h := foldl run_op (start_request rq io ticks) ops in
  let T := said_last "" (start_request rq io ticks) ops in
  match cp_answer (finishMessages model h).1 with
  | Some a => answer_text a = T \/ (answer_text a = "" /\ TrimSpace T = "")
  | None => cp_success (finishMessages model h).1 = false
  end.
Proof.
  intros h T. assert (whole T (if hasReturn h then h else finishResponse "end_turn" h)) as Hw.
  { pose proof (run_whole ops "" _ (start_whole rq io ticks Hs)) as Hw. fold h T in Hw. destruct (hasReturn h); [done|by apply finishResponse_whole]. }
  unfold finishMessages. cbv zeta. revert Hw. generalize (if hasReturn h then h else finishResponse "end_turn" h). clear h. intros h Hw.
  rewrite (wh_stream _ _ Hw). cbn [negb andb]. destruct (requestFailed h) eqn:Hrf; cbn [negb].
  - cbn [fst cp_answer cp_success]. by rewrite Hrf.
  - assert (forall x : bool * streamHandler, (let '(ok, h0) := x in
      if ok then h0 else markWriteErrorLocked (lock h0)) = (if x.1 then x.2 else markWriteErrorLocked (lock x.2))) as -> by by intros [[] ?].
    cbn [fst cp_answer]. destruct (final_response_text T model h Hw) as [?|(_ & ? & ?)]; [by left|by right].
Qed.

Lemma whole_answer_text_witness :
  let h := foldl run_op (start_request (demo_request false) None [[]; [70 * Second]]) demo_ops in
  let T := said_last "" (start_request (demo_request false) None [[]; [70 * Second]]) demo_ops in
  match cp_answer (finishMessages "m" h).1 with
  | Some a => answer_text a = T \/ (answer_text a = "" /\ TrimSpace T = "")
  | None => cp_success (finishMessages "m" h).1 = false
  end.
Proof. apply (whole_answer_text (demo_request false) None [[]; [70 * Second]] demo_ops "m" eq_refl). Defined.

(** What the demonstration answers, streamed or not. *)
Example whole_demo :
  let h := foldl run_op (start_request (demo_request false) None [[]; [70 * Second]]) demo_ops in
  answer_text <$> cp_answer (finishMessages "m" h).1 = Some "Hi!"
  /\ said_last "" (start_request (demo_request false) None []) demo_ops = "Hi!"
  /\ said (start_request (demo_request true) None []) demo_ops = "Hi!".
Proof. vm_compute. repeat split. Qed.

(** A request whose answer is to be checked: the same upstream events are refused
    without streaming and pass unchecked with it. *)
Definition strict_request (stream : bool) : request_setup := {|
  rq_stream := stream; rq_can_flush := true; rq_format := FormatOpenAI; rq_id := "msg_1"; rq_now := 7;
  rq_model := "m"; rq_tools := []; rq_no_tools := false; rq_check := Some (fun _ => Some (mkErr "not the schema" None));
  rq_input_tokens := 3; rq_keep_alive_disabled := false
|}.

Lemma strict_stream_is_not_checked :
  let done stream := (finishMessages "m" (foldl run_op (start_request (strict_request stream) None [])
    [NextAttempt; Upstream (model_event [("type", VString "text-delta"); ("delta", VString "free text")]);
     Upstream (model_event [("type", VString "finish"); ("finishReason", VString "stop")])])).1 in
  cp_success (done false) = false /\ cp_success (done true) = true.
Proof. vm_compute. by split. Qed.

(** A keep-alive between the two critical sections of [reportRequestFailure]: the
    stream is open and the failure is answered with a status all the same. *)
Lemma status_after_the_opening :
  let h := foldl run_op (start_request (demo_request true) None [[]; []; []; [50 * Second]])
    [NextAttempt; Fail "overloaded" "busy" 0 []] in
  messageStartWritten h = true /\ length (wire h) = 2%nat /\ (exists a, answer h = Some a) /\ stream_failed h = false.
Proof. vm_compute. repeat split. by eexists. Qed.
