(* ===== verification/EgressNodes.v ===== *)
(** The registry of Grok egress nodes ([src/internal/grok/egressnodes/registry.go],
    [runtime.go], [src/internal/store/grok_egress.go]): the records the operators
    manage, the immutable routing snapshot built from them, the version counter
    every write bumps, and the instances that reload when they see it move.

    [instance_routes_by_the_store] is the promise of the version counter: an
    instance whose version is the store's routes by the nodes, profiles and
    settings the store holds, however the five reads of its reloads interleave
    with the operators' writes. *)

From Stdlib Require Import Ascii.
From stdpp Require Import sorting.
From S2P Require Import Prelude.

(** * Records *)

Definition GrokEgressScopeBuild : string := "grok_build".
Definition GrokEgressScopeWeb : string := "grok_web".
Definition GrokEgressScopeWebAsset : string := "grok_web_asset".
Definition GrokEgressScopes : list string :=
  [GrokEgressScopeBuild; GrokEgressScopeWeb; GrokEgressScopeWebAsset].

Definition ValidGrokEgressScope (scope : string) : bool := str_in scope GrokEgressScopes.

(** A stored exit; its two time stamps play no part in routing and are left out. *)
Record GrokEgressNode := mkGrokEgressNode {
  stored_ID : string; stored_Name : string; stored_Scope : string; Enabled : bool;
  stored_ProxyURL : string; ProxyProfileID : string; ProxyPool : bool;
  AccountCapacity : Z; stored_UserAgent : string; CloudflareCookies : string;
  stored_SourceID : string }.

Record GrokEgressProxyProfile := mkProfile {
  profile_ID : string; profile_Name : string; profile_ProxyURL : string }.

Record GrokEgressFallback := mkFallback { Mode : string; fallback_NodeID : string }.

Record GrokEgressOperations := mkOperations {
  ProbeProvider : string; ProbeIntervalSeconds : Z; AssignmentIntervalSeconds : Z;
  AutoAssignEnabled : bool; AutoBalanceEnabled : bool;
  Fallbacks : gmap string GrokEgressFallback }.

(** The last probe of a node: its identifier and its status
    (unknown, healthy, unhealthy). *)
Record GrokEgressProbe := mkProbe { probe_NodeID : string; Status : string }.

#[export] Instance eta_operations : Eta GrokEgressOperations := fun o =>
  mkOperations (ProbeProvider o) (ProbeIntervalSeconds o) (AssignmentIntervalSeconds o)
    (AutoAssignEnabled o) (AutoBalanceEnabled o) (Fallbacks o).

Definition DirectFallback : GrokEgressFallback := mkFallback "direct" "".

Definition DefaultGrokEgressOperations : GrokEgressOperations :=
  mkOperations "cloudflare" 900 300 false false
    (foldl (fun m scope => <[scope := DirectFallback]> m) ∅ GrokEgressScopes).

Definition clampSeconds (value fallback : Z) : Z :=
  if value <=? 0 then fallback else Z.min (Z.max value 60) 86400.

(** What [Normalize] keeps of a scope's fallback. *)
Definition normalize_fallback (m : gmap string GrokEgressFallback) (scope : string) : GrokEgressFallback :=
  match m !! scope with
  | None => default (mkFallback "" "") (Fallbacks DefaultGrokEgressOperations !! scope)
  | Some fallback =>
      if String.eqb (Mode fallback) "fixed" && negb (is_empty (TrimSpace (fallback_NodeID fallback)))
      then fallback
      else if String.eqb (Mode fallback) "none" then mkFallback (Mode fallback) ""
      else DirectFallback
  end.

Definition Normalize (o : GrokEgressOperations) : GrokEgressOperations :=
  let defaults := DefaultGrokEgressOperations in
  let filled := foldl (fun m scope => <[scope := normalize_fallback m scope]> m) (Fallbacks o) GrokEgressScopes in
  mkOperations
    (if String.eqb (ProbeProvider o) "ipinfo" then ProbeProvider o else "cloudflare")
    (clampSeconds (ProbeIntervalSeconds o) (ProbeIntervalSeconds defaults))
    (clampSeconds (AssignmentIntervalSeconds o) (AssignmentIntervalSeconds defaults))
    (AutoAssignEnabled o) (AutoBalanceEnabled o)
    (filter (fun kv => ValidGrokEgressScope (fst kv) = true) filled).

(** * The routing snapshot *)

Record Node := mkNode {
  ID : string; Name : string; Scope : string; ProxyURL : string; Pool : bool;
  Capacity : Z; UserAgent : string; Cookies : string; SourceID : string }.

Definition zero_node : Node := mkNode "" "" "" "" false 0 "" "" "".

#[export] Instance node_eq_dec : EqDecision Node.
Proof. solve_decision. Defined.

(** [LoadedAt] is only displayed and is left out. *)
Record Snapshot := mkSnapshot {
  Nodes : list Node; byID : gmap string Node; Invalid : gmap string string;
  Operations : GrokEgressOperations; Bindings : gmap string string }.

#[export] Instance eta_snapshot : Eta Snapshot := fun s =>
  mkSnapshot (Nodes s) (byID s) (Invalid s) (Operations s) (Bindings s).

Definition emptySnapshot : Snapshot := mkSnapshot [] ∅ ∅ DefaultGrokEgressOperations ∅.

(** [strings.Cut(s, sep)]. *)
Definition Cut (s sep : string) : option (string * string) :=
  match Index s sep with
  | Some i => Some (take_bytes i s, drop_bytes (i + String.length sep) s)
  | None => None
  end.

Definition tunnelSchemes : list string := ["trojan"; "vless"; "ss"; "vmess"].

Definition IsTunnelURL (raw : string) : bool :=
  match Cut (TrimSpace raw) "://" with
  | Some (scheme, _) => str_in (ToLower scheme) tunnelSchemes
  | None => false
  end.

(** [Node.Direct]. *)
Definition Direct (n : Node) : bool := is_empty (TrimSpace (ProxyURL n)).

(** The request scopes of the upstream clients. *)
Definition RegistryScope (scope : string) : string :=
  let s := ToLower (TrimSpace scope) in
  if str_in s ["cli"; "build"; GrokEgressScopeBuild] then GrokEgressScopeBuild
  else if str_in s ["asset"; GrokEgressScopeWebAsset] then GrokEgressScopeWebAsset
  else GrokEgressScopeWeb.

Definition in_scope (scope : string) (n : Node) : bool := String.eqb (Scope n) scope.

(** [Candidates]: asset downloads fall back on the Web nodes. *)
Definition Candidates (s : Snapshot) (scope : string) : list Node :=
  match List.filter (in_scope scope) (Nodes s) with
  | [] => if String.eqb scope GrokEgressScopeWebAsset
          then List.filter (in_scope GrokEgressScopeWeb) (Nodes s) else []
  | out => out
  end.

Definition Fallback (s : Snapshot) (scope : string) : GrokEgressFallback :=
  default DirectFallback (Fallbacks (Operations s) !! scope).

Definition Routes (s : Snapshot) (scope : string) : bool :=
  match Candidates s scope with
  | [] => negb (String.eqb (Mode (Fallback s scope)) "direct")
  | _ => true
  end.

Definition grokEgressBindingField (scope account : string) : string := scope +:+ "|" +:+ account.

Definition Binding (s : Snapshot) (scope account : string) : string :=
  if is_empty account then "" else default "" (Bindings s !! grokEgressBindingField scope account).

(** [out[node]++] over the values of a map. *)
Definition count_node (out : gmap string Z) (node : string) : gmap string Z :=
  <[node := default 0 (out !! node) + 1]> out.

Definition BoundCount (s : Snapshot) : gmap string Z :=
  map_fold (fun _ node out => count_node out node) ∅ (Bindings s).

Section registry.
(** What [proxy.go] and [tunnel.go] find wrong with a proxy address; the routing
    snapshot only keeps the text. *)
Context (ValidateProxyURL tunnelRoutable : string -> option string).

(** One stored node of [buildSnapshot]'s loop. *)
Definition add_node (profileURL : gmap string string) (snap : Snapshot) (stored : GrokEgressNode) : Snapshot :=
  if negb (Enabled stored) then snap
  else
    let invalid why := snap <| Invalid := <[stored_ID stored := why]> (Invalid snap) |> in
    let routed proxy :=
      match ValidateProxyURL proxy with
      | Some err => invalid err
      | None =>
          match (if IsTunnelURL proxy then tunnelRoutable proxy else None) with
          | Some err => invalid err
          | None =>
              let node := mkNode (stored_ID stored) (stored_Name stored) (stored_Scope stored) (TrimSpace proxy)
                            (ProxyPool stored) (AccountCapacity stored) (TrimSpace (stored_UserAgent stored))
                            (TrimSpace (CloudflareCookies stored)) (stored_SourceID stored) in
              snap <| Nodes := Nodes snap ++ [node] |> <| byID := <[ID node := node]> (byID snap) |>
          end
      end in
    if is_empty (ProxyProfileID stored) then routed (stored_ProxyURL stored)
    else match profileURL !! ProxyProfileID stored with
         | None => invalid "proxy profile missing"
         | Some resolved => routed resolved
         end.

Definition profile_urls (profiles : list GrokEgressProxyProfile) : gmap string string :=
  foldl (fun m p => <[profile_ID p := profile_ProxyURL p]> m) ∅ profiles.

(** The bindings to nodes that route. *)
Definition live_bindings (nodes : gmap string Node) (bindings : gmap string string) : gmap string string :=
  filter (fun kv => is_Some (nodes !! kv.2)) bindings.

Definition buildSnapshot (nodes : list GrokEgressNode) (profiles : list GrokEgressProxyProfile)
    (ops : GrokEgressOperations) (bindings : gmap string string) : Snapshot :=
  let snap := foldl (add_node (profile_urls profiles)) (mkSnapshot [] ∅ ∅ ops ∅) nodes in
  snap <| Bindings := live_bindings (byID snap) bindings |>.

(** ** The nodes of the retired configuration setting *)

Record EgressNodeConfig := mkNodeConfig { config_Name : string; config_URL : string; config_Scope : string }.

Definition legacy_scopes (legacy : EgressNodeConfig) : list string :=
  let s := ToLower (TrimSpace (config_Scope legacy)) in
  if str_in s ["cli"; "build"] then [GrokEgressScopeBuild]
  else if str_in s ["app_chat"; "web"] then [GrokEgressScopeWeb]
  else [GrokEgressScopeBuild; GrokEgressScopeWeb].

Definition legacy_node (legacy : EgressNodeConfig) (scope : string) : GrokEgressNode :=
  let name := TrimSpace (config_Name legacy) in
  mkGrokEgressNode name name scope true (TrimSpace (config_URL legacy)) "" false 0 "" "" "".

(** [SnapshotFromConfig]; the configuration is absent, or holds whether egress
    is enabled and the legacy nodes.  (The cache of built snapshots is keyed by
    all that the snapshot is built from.) *)
Definition SnapshotFromConfig (cfg : option (bool * list EgressNodeConfig)) : Snapshot :=
  match cfg with
  | Some (true, legacy) =>
      let nodes := legacy ≫= fun l => legacy_node l <$> legacy_scopes l in
      let ops := DefaultGrokEgressOperations in
      let closed := foldl (fun m scope => <[scope := mkFallback "none" ""]> m) (Fallbacks ops) GrokEgressScopes in
      buildSnapshot nodes [] (ops <| Fallbacks := closed |>) ∅
  | _ => emptySnapshot
  end.

(** * The store *)

(** The hashes of [grok:egress:*] by field, the settings and the version counter.
    Records are held decoded: their JSON and the sealing of proxy addresses and
    cookies are not modelled. *)
Record tables := mkTables {
  nodes_table : gmap string GrokEgressNode;
  profiles_table : gmap string GrokEgressProxyProfile;
  probes_table : gmap string GrokEgressProbe;
  bindings_table : gmap string string;
  operations_value : option GrokEgressOperations;
  version_counter : Z }.

#[export] Instance eta_tables : Eta tables := fun t =>
  mkTables (nodes_table t) (profiles_table t) (probes_table t) (bindings_table t) (operations_value t) (version_counter t).

Definition empty_tables : tables := mkTables ∅ ∅ ∅ ∅ None 0.

Definition bumpEgress (t : tables) : tables := t <| version_counter := version_counter t + 1 |>.

Definition hdel {A} (ids : list string) (m : gmap string A) : gmap string A := foldl (fun m id => delete id m) m ids.

(** One transaction per operation; [DeleteGrokEgressNodes] is three. *)
Definition SaveGrokEgressNode (node : GrokEgressNode) (t : tables) : go_error + tables :=
  if is_empty (TrimSpace (stored_ID node)) then inl (Errorf "egress node id is required")
  else inr (bumpEgress (t <| nodes_table := <[stored_ID node := node]> (nodes_table t) |>)).

Definition SaveGrokEgressNodes (nodes : list GrokEgressNode) (t : tables) : tables :=
  match nodes with
  | [] => t
  | _ => bumpEgress (t <| nodes_table := foldl (fun m n => <[stored_ID n := n]> m) (nodes_table t) nodes |>)
  end.

Definition drop_probes (ids : list string) (t : tables) : tables := t <| probes_table := hdel ids (probes_table t) |>.

(** [unbindGrokEgressNodes]: the bindings read, and the fields then removed. *)
Definition bound_fields (ids : list string) (bindings : gmap string string) : list string :=
  fst <$> map_to_list (filter (fun kv => kv.2 ∈ ids) bindings).

Definition drop_fields (fields : list string) (t : tables) : tables :=
  t <| bindings_table := hdel fields (bindings_table t) |>.

Definition drop_nodes (ids : list string) (t : tables) : tables :=
  match ids with
  | [] => t
  | _ => bumpEgress (t <| nodes_table := hdel ids (nodes_table t) |>)
  end.

(** [DeleteGrokEgressNodes] with nobody in between. *)
Definition DeleteGrokEgressNodes (ids : list string) (t : tables) : Z * tables :=
  let t1 := match ids with
            | [] => t
            | _ => let t' := drop_probes ids t in drop_fields (bound_fields ids (bindings_table t')) t'
            end in
  (Z.of_nat (length (List.filter (fun id => bool_decide (is_Some (nodes_table t1 !! id))) (remove_dups ids))), drop_nodes ids t1).

Definition SaveGrokEgressProxyProfile (profile : GrokEgressProxyProfile) (t : tables) : tables :=
  bumpEgress (t <| profiles_table := <[profile_ID profile := profile]> (profiles_table t) |>).

Definition ErrGrokEgressNotFound : go_error := Errorf "grok egress record not found".

Definition DeleteGrokEgressProxyProfile (id : string) (t : tables) : option go_error * tables :=
  (match profiles_table t !! id with Some _ => None | None => Some ErrGrokEgressNotFound end,
   bumpEgress (t <| profiles_table := delete id (profiles_table t) |>)).

Definition SaveGrokEgressOperations (ops : GrokEgressOperations) (t : tables) : tables :=
  bumpEgress (t <| operations_value := Some (Normalize ops) |>).

(** What follows does not bump the version. *)
Definition SaveGrokEgressProbe (probe : GrokEgressProbe) (t : tables) : tables :=
  t <| probes_table := <[probe_NodeID probe := probe]> (probes_table t) |>.

Definition SetGrokEgressBinding (scope account nodeID : string) (t : tables) : tables :=
  let field := grokEgressBindingField scope account in
  t <| bindings_table := if is_empty nodeID then delete field (bindings_table t)
                         else <[field := nodeID]> (bindings_table t) |>.

Definition ReplaceGrokEgressBindings (bindings : gmap string string) (t : tables) : tables :=
  t <| bindings_table := bindings |>.

(** ** Reads *)

Definition node_before (a b : GrokEgressNode) : bool :=
  if String.eqb (stored_Name a) (stored_Name b) then String.leb (stored_ID a) (stored_ID b)
  else String.leb (stored_Name a) (stored_Name b).

Definition profile_before (a b : GrokEgressProxyProfile) : bool := String.leb (profile_Name a) (profile_Name b).

(** [HGetAll] gives the fields in no order; the sort orders nodes by name and
    identifier. *)
Definition ListGrokEgressNodes (t : tables) : list GrokEgressNode :=
  merge_sort (fun a b => Is_true (node_before a b)) (snd <$> map_to_list (nodes_table t)).

Definition ListGrokEgressProxyProfiles (t : tables) : list GrokEgressProxyProfile :=
  merge_sort (fun a b => Is_true (profile_before a b)) (snd <$> map_to_list (profiles_table t)).

Definition GetGrokEgressOperations (t : tables) : GrokEgressOperations :=
  match operations_value t with
  | None => DefaultGrokEgressOperations
  | Some stored => Normalize stored
  end.

(** [out[probe.NodeID] = probe] over the probes. *)
Definition ListGrokEgressProbes (t : tables) : gmap string GrokEgressProbe :=
  map_fold (fun _ probe out => <[probe_NodeID probe := probe]> out) ∅ (probes_table t).

Definition ListGrokEgressBindings (t : tables) : gmap string string := bindings_table t.

(** * Instances *)

(** A reload reads the version, the nodes, the profiles, the settings and the
    bindings, each in its own command; [reloadMu] lets one run at a time. *)
Inductive reloading :=
| ReadVersion
| ReadNodes (version : Z)
| ReadProfiles (version : Z) (nodes : list GrokEgressNode)
| ReadOperations (version : Z) (nodes : list GrokEgressNode) (profiles : list GrokEgressProxyProfile)
| ReadBindings (version : Z) (nodes : list GrokEgressNode) (profiles : list GrokEgressProxyProfile)
    (ops : GrokEgressOperations).

(** [Registry]: the snapshot, its version, and the reload at work. *)
Record Registry := mkRegistry { snapshot : Snapshot; version : Z; at_work : option reloading }.

#[export] Instance eta_registry : Eta Registry := fun r => mkRegistry (snapshot r) (version r) (at_work r).

Definition new_registry : Registry := mkRegistry emptySnapshot 0 None.

(** The next read of [Reload] against the store. *)
Definition reload_read (t : tables) (stage : reloading) (r : Registry) : Registry :=
  match stage with
  | ReadVersion => r <| at_work := Some (ReadNodes (version_counter t)) |>
  | ReadNodes v => r <| at_work := Some (ReadProfiles v (ListGrokEgressNodes t)) |>
  | ReadProfiles v nodes => r <| at_work := Some (ReadOperations v nodes (ListGrokEgressProxyProfiles t)) |>
  | ReadOperations v nodes profiles =>
      r <| at_work := Some (ReadBindings v nodes profiles (GetGrokEgressOperations t)) |>
  | ReadBindings v nodes profiles ops =>
      mkRegistry (buildSnapshot nodes profiles ops (ListGrokEgressBindings t)) v None
  end.

(** A tick of [watch] ([true]: it starts a reload). *)
Definition watch_tick (t : tables) (r : Registry) : bool := negb (version_counter t =? version r).

Definition begin_reload (r : Registry) : Registry := r <| at_work := Some ReadVersion |>.

(** [Reload] with nobody in between. *)
Definition Reload (t : tables) (r : Registry) : Registry :=
  let read r := match at_work r with Some stage => reload_read t stage r | None => r end in
  Nat.iter 5 read (begin_reload r).

(** What the processes sharing the store do to it. *)
Inductive write : tables -> tables -> Prop :=
| write_node node t t' : SaveGrokEgressNode node t = inr t' -> write t t'
| write_nodes nodes t : write t (SaveGrokEgressNodes nodes t)
| write_drop_probes ids t : write t (drop_probes ids t)
| write_drop_fields fields t : write t (drop_fields fields t)
| write_drop_nodes ids t : write t (drop_nodes ids t)
| write_profile profile t : write t (SaveGrokEgressProxyProfile profile t)
| write_drop_profile id t : write t (DeleteGrokEgressProxyProfile id t).2
| write_operations ops t : write t (SaveGrokEgressOperations ops t)
| write_probe probe t : write t (SaveGrokEgressProbe probe t)
| write_binding scope account node t : write t (SetGrokEgressBinding scope account node t)
| write_bindings bindings t : write t (ReplaceGrokEgressBindings bindings t).

Record cluster := mkCluster { shared_store : tables; instances : list Registry }.

(** The steps of a cluster: a write, an instance starting, a tick or a local
    change ([Changed]) beginning a reload, a read of a reload, or a read that
    fails, which ends the reload. *)
Inductive cluster_step : cluster -> cluster -> Prop :=
| step_write t t' rs : write t t' -> cluster_step (mkCluster t rs) (mkCluster t' rs)
| step_init t rs : cluster_step (mkCluster t rs) (mkCluster t (rs ++ [new_registry]))
| step_begin t rs i r : rs !! i = Some r -> at_work r = None ->
    cluster_step (mkCluster t rs) (mkCluster t (<[i := begin_reload r]> rs))
| step_read t rs i r stage : rs !! i = Some r -> at_work r = Some stage ->
    cluster_step (mkCluster t rs) (mkCluster t (<[i := reload_read t stage r]> rs))
| step_fail t rs i r stage : rs !! i = Some r -> at_work r = Some stage ->
    cluster_step (mkCluster t rs) (mkCluster t (<[i := r <| at_work := None |>]> rs)).

Definition reachable_cluster : cluster -> Prop := rtc cluster_step (mkCluster empty_tables []).

(** The snapshot of the store's nodes, profiles and settings with these bindings. *)
Definition current_snapshot (t : tables) (bindings : gmap string string) : Snapshot :=
  buildSnapshot (ListGrokEgressNodes t) (ListGrokEgressProxyProfiles t) (GetGrokEgressOperations t) bindings.

(** ** The version counter *)

(** The tables a snapshot is built from, the bindings apart. *)
Definition routing_tables (t : tables) :=
  (nodes_table t, profiles_table t, operations_value t).

Lemma current_snapshot_routing t t' b :
  routing_tables t = routing_tables t' -> current_snapshot t b = current_snapshot t' b.
Proof.
  unfold current_snapshot, ListGrokEgressNodes, ListGrokEgressProxyProfiles, GetGrokEgressOperations.
  by intros [= -> -> ->].
Qed.

(** A write either moves the counter up or leaves the routing tables alone. *)
Definition bumped (t t' : tables) : Prop :=
  version_counter t < version_counter t' \/
  (version_counter t' = version_counter t /\ routing_tables t' = routing_tables t).

Lemma write_bumps t t' : write t t' -> bumped t t'.
Proof.
  unfold bumped. intros [node t0 t1 H|[|n ns] t0|ids t0|fields t0|[|id ids] t0|p t0|id t0|ops t0|p t0|scope account node t0|b t0].
  - unfold SaveGrokEgressNode in H. case_match; simplify_eq/=. left. cbn. lia.
  - by right.
  - left. cbn. lia.
  - by right.
  - by right.
  - by right.
  - left. cbn. lia.
  - left. cbn. lia.
  - left. cbn. lia.
  - left. cbn. lia.
  - by right.
  - by right.
  - by right.
Qed.

(** What the reads of a reload have gathered is current if its version is. *)
Definition gathered (t : tables) (stage : reloading) : Prop :=
  match stage with
  | ReadVersion => True
  | ReadNodes v => v <= version_counter t
  | ReadProfiles v ns => v <= version_counter t /\ (v = version_counter t -> ns = ListGrokEgressNodes t)
  | ReadOperations v ns ps =>
      v <= version_counter t /\
      (v = version_counter t -> ns = ListGrokEgressNodes t /\ ps = ListGrokEgressProxyProfiles t)
  | ReadBindings v ns ps ops =>
      v <= version_counter t /\
      (v = version_counter t ->
       ns = ListGrokEgressNodes t /\ ps = ListGrokEgressProxyProfiles t /\ ops = GetGrokEgressOperations t)
  end.

Record in_step (t : tables) (r : Registry) : Prop := {
  in_step_version : version r <= version_counter t;
  in_step_snapshot : version r = version_counter t -> exists b, snapshot r = current_snapshot t b;
  in_step_reload : forall stage, at_work r = Some stage -> gathered t stage }.

Lemma gathered_write t t' stage : bumped t t' -> gathered t stage -> gathered t' stage.
Proof.
  unfold gathered, ListGrokEgressNodes, ListGrokEgressProxyProfiles, GetGrokEgressOperations.
  intros [Hv|[Hv [= -> -> ->]]]; rewrite ?Hv; [|by destruct stage].
  destruct stage; [done|lia|..]; (intros [H _]; split; [lia|intros ->; lia]).
Qed.

Lemma in_step_write t t' r : bumped t t' -> in_step t r -> in_step t' r.
Proof.
  intros Hb [Hv Hs Hr]. split.
  - destruct Hb as [?|[-> _]]; lia.
  - intros He. destruct Hb as [?|[Hv' Ht]]; [lia|]. destruct Hs as [b ->]; [lia|].
    exists b. by apply current_snapshot_routing.
  - intros stage Hst. eapply gathered_write; [done|]. by apply Hr.
Qed.

Lemma in_step_reload_read t r stage :
  in_step t r -> at_work r = Some stage -> in_step t (reload_read t stage r).
Proof.
  intros [Hv Hs Hr] Hst. specialize (Hr stage Hst). destruct stage; cbn in Hr |- *.
  - split; [done..|]. intros ? [= <-]. cbn. lia.
  - split; [done..|]. intros ? [= <-]. by cbn.
  - split; [done..|]. intros ? [= <-]. cbn. destruct Hr as [? Hn]. split; [done|]. intros He. by rewrite Hn.
  - split; [done..|]. intros ? [= <-]. cbn. destruct Hr as [? Hn]. split; [done|]. intros He.
    by destruct (Hn He) as [-> ->].
  - destruct Hr as [? Hn]. split; cbn; [done|intros He|done].
    destruct (Hn He) as (-> & -> & ->). by eexists.
Qed.

(** A counter that never moved is an empty store's. *)
Definition counted_from_zero (t : tables) : Prop :=
  0 <= version_counter t /\ (version_counter t = 0 -> routing_tables t = routing_tables empty_tables).

Definition coherent (c : cluster) : Prop :=
  counted_from_zero (shared_store c) /\ Forall (in_step (shared_store c)) (instances c).

Lemma coherent_step c c' : cluster_step c c' -> coherent c -> coherent c'.
Proof.
  unfold coherent. intros [t t' rs Hw|t rs|t rs i r Hi Ha|t rs i r stage Hi Ha|t rs i r stage Hi Ha] [[H0 Hz] Hrs]; cbn in *.
  - pose proof (write_bumps _ _ Hw) as Hb. split.
    + unfold counted_from_zero. destruct Hb as [?|[Hv Ht]]; split; try lia. intros E. rewrite Ht. apply Hz. lia.
    + eapply Forall_impl; [exact Hrs|]. intros r. by apply in_step_write.
  - split; [done|]. apply Forall_app. split; [done|]. repeat constructor; cbn; [done| |done].
    intros E. exists ∅. symmetry in E. by rewrite (current_snapshot_routing _ empty_tables) by auto.
  - split; [done|]. apply Forall_insert; [done|].
    destruct (Forall_lookup_1 _ _ _ _ Hrs Hi) as [Hv Hs Hr]. split; [done..|]. by intros ? [= <-].
  - split; [done|]. apply Forall_insert; [done|]. apply in_step_reload_read; [|done].
    by apply (Forall_lookup_1 _ _ _ _ Hrs Hi).
  - split; [done|]. apply Forall_insert; [done|].
    destruct (Forall_lookup_1 _ _ _ _ Hrs Hi) as [Hv Hs Hr]. by split.
Qed.

Lemma reachable_coherent c : reachable_cluster c -> coherent c.
Proof.
  unfold reachable_cluster. intros H. remember (mkCluster empty_tables []) as c0 eqn:E.
  assert (coherent c0) as Hc0 by (subst; by repeat constructor). clear E.
  induction H as [|c0 c1 c2 Hst _ IH]; [done|]. apply IH. by eapply coherent_step.
Qed.

(** ** Snapshots are well formed *)

(** The address a stored node routes by, or why it cannot. *)
Definition node_proxy (profileURL : gmap string string) (stored : GrokEgressNode) : string + string :=
  let checked proxy :=
    match ValidateProxyURL proxy with
    | Some err => inl err
    | None => match (if IsTunnelURL proxy then tunnelRoutable proxy else None) with
              | Some err => inl err
              | None => inr proxy
              end
    end in
  if is_empty (ProxyProfileID stored) then checked (stored_ProxyURL stored)
  else match profileURL !! ProxyProfileID stored with
       | None => inl "proxy profile missing"
       | Some resolved => checked resolved
       end.

Definition routable (profileURL : gmap string string) (stored : GrokEgressNode) : option Node :=
  if Enabled stored then
    match node_proxy profileURL stored with
    | inr proxy =>
        Some (mkNode (stored_ID stored) (stored_Name stored) (stored_Scope stored) (TrimSpace proxy)
                (ProxyPool stored) (AccountCapacity stored) (TrimSpace (stored_UserAgent stored))
                (TrimSpace (CloudflareCookies stored)) (stored_SourceID stored))
    | inl _ => None
    end
  else None.

Lemma add_node_routable profileURL snap stored :
  (forall n, routable profileURL stored = Some n ->
     add_node profileURL snap stored
     = mkSnapshot (Nodes snap ++ [n]) (<[ID n := n]> (byID snap)) (Invalid snap) (Operations snap) (Bindings snap)) /\
  (routable profileURL stored = None -> exists invalid,
     add_node profileURL snap stored
     = mkSnapshot (Nodes snap) (byID snap) invalid (Operations snap) (Bindings snap)).
Proof.
  unfold routable, node_proxy, add_node. destruct snap as [ns ids inv ops bs]. cbn.
  split.
  - intros n H. repeat case_match; by simplify_eq/=.
  - intros H. repeat case_match; simplify_eq/=; by eexists.
Qed.

Record well_indexed (s : Snapshot) : Prop := {
  nodes_distinct : NoDup (ID <$> Nodes s);
  index_agrees : forall id n, byID s !! id = Some n <-> n ∈ Nodes s /\ ID n = id;
  bindings_live : forall field id, Bindings s !! field = Some id -> is_Some (byID s !! id) }.

Lemma add_nodes_spec profileURL stored snap :
  NoDup (ID <$> Nodes snap ++ omap (routable profileURL) stored) ->
  (forall id n, byID snap !! id = Some n <-> n ∈ Nodes snap /\ ID n = id) ->
  let s := foldl (add_node profileURL) snap stored in
  Nodes s = Nodes snap ++ omap (routable profileURL) stored /\
  (forall id n, byID s !! id = Some n <-> n ∈ Nodes s /\ ID n = id) /\
  Operations s = Operations snap.
Proof.
  revert snap. induction stored as [|st stored IH]; intros snap Hnd Hid; cbn.
  { by rewrite app_nil_r. }
  destruct (add_node_routable profileURL snap st) as [Hsome Hnone].
  destruct (routable profileURL st) as [n|] eqn:Er.
  - rewrite (Hsome n eq_refl). specialize (IH (mkSnapshot (Nodes snap ++ [n]) (<[ID n := n]> (byID snap)) (Invalid snap)
      (Operations snap) (Bindings snap))). cbn in IH. rewrite <- app_assoc in IH. cbn in Hnd. rewrite Er in Hnd.
    apply IH; [done|]. intros id m. rewrite lookup_insert_Some, Hid, elem_of_app, list_elem_of_singleton.
    assert (ID n ∉ ID <$> Nodes snap) as Hfresh.
    { rewrite fmap_app, NoDup_app in Hnd. destruct Hnd as (_ & Hd & _). intros Hin. apply (Hd _ Hin).
      rewrite fmap_cons. by left. }
    split.
    + intros [[<- <-]|[Hne [Hm He]]]; [by split; [right|]|by split; [left|]].
    + intros [[Hm| ->] <-]; [|by left]. right. split; [|done]. intros E. apply Hfresh. rewrite E.
      apply list_elem_of_fmap. by exists m.
  - destruct (Hnone eq_refl) as [inv ->]. cbn in Hnd. rewrite Er in Hnd.
    apply (IH (mkSnapshot (Nodes snap) (byID snap) inv (Operations snap) (Bindings snap))); [exact Hnd|exact Hid].
Qed.

Lemma buildSnapshot_spec nodes profiles ops bindings :
  NoDup (stored_ID <$> nodes) ->
  let s := buildSnapshot nodes profiles ops bindings in
  Nodes s = omap (routable (profile_urls profiles)) nodes /\ Operations s = ops /\ well_indexed s.
Proof.
  intros Hnd s.
  assert (forall n st, routable (profile_urls profiles) st = Some n -> ID n = stored_ID st) as Hids.
  { intros n st. unfold routable. repeat case_match; by intros [= <-]. }
  assert (NoDup (ID <$> omap (routable (profile_urls profiles)) nodes)) as Hnd'.
  { clear s. induction nodes as [|st nodes IH]; cbn; [constructor|]. rewrite fmap_cons, NoDup_cons in Hnd.
    destruct Hnd as [Hf Hnd]. destruct (routable _ st) as [n|] eqn:Er; [|by apply IH]. rewrite fmap_cons.
    constructor; [|by apply IH]. rewrite (Hids _ _ Er), list_elem_of_fmap. intros (m & E & Hm).
    apply list_elem_of_omap in Hm as (st' & Hst' & Em). apply Hf. rewrite E, (Hids _ _ Em). by apply list_elem_of_fmap_2. }
  destruct (add_nodes_spec (profile_urls profiles) nodes (mkSnapshot [] ∅ ∅ ops ∅)) as (Hn & Hid & Hops); [done| |].
  { intros id n. cbn. rewrite lookup_empty. split; [done|]. intros [H _]. by apply not_elem_of_nil in H. }
  split; [exact Hn|split; [exact Hops|]]. split.
  - cbn. rewrite Hn. exact Hnd'.
  - exact Hid.
  - intros field id. cbn. unfold live_bindings. rewrite map_lookup_filter_Some. by intros [_ H].
Qed.

(** A node is stored under its identifier. *)
Definition keyed (t : tables) : Prop := forall id n, nodes_table t !! id = Some n -> stored_ID n = id.

Lemma hdel_lookup {A} ids (m : gmap string A) k :
  hdel ids m !! k = if decide (k ∈ ids) then None else m !! k.
Proof.
  revert m. unfold hdel. induction ids as [|id ids IH]; intros m; cbn; [by rewrite decide_False by apply not_elem_of_nil|].
  rewrite IH. destruct (decide (k ∈ ids)) as [Hk|Hk]; [by rewrite decide_True by (by right)|].
  destruct (decide (k = id)) as [->|Hne]; [by rewrite lookup_delete_eq, decide_True by left|].
  rewrite lookup_delete_ne by done. rewrite decide_False; [done|]. rewrite elem_of_cons. naive_solver.
Qed.

Lemma write_keyed t t' : write t t' -> keyed t -> keyed t'.
Proof.
  unfold keyed. intros [node t0 t1 H|[|n ns] t0|ids t0|fields t0|[|id ids] t0|p t0|id t0|ops t0|p t0|scope account node t0|b t0] Hk;
    try exact Hk.
  - unfold SaveGrokEgressNode in H. case_match; simplify_eq/=. cbn. intros id n.
    rewrite lookup_insert_Some. intros [[<- <-]|[_ ?]]; auto.
  - cbn. assert (forall m : gmap string GrokEgressNode, (forall id n, m !! id = Some n -> stored_ID n = id) ->
      forall id k, foldl (fun m n => <[stored_ID n := n]> m) m (n :: ns) !! id = Some k -> stored_ID k = id) as Hf.
    { generalize (n :: ns). intros l. induction l as [|x l IH]; intros m Hm; cbn; [done|]. apply IH. intros id k.
      rewrite lookup_insert_Some. intros [[<- <-]|[_ ?]]; auto. }
    by apply Hf.
  - intros i n. change (nodes_table (drop_nodes (id :: ids) t0)) with (hdel (id :: ids) (nodes_table t0)).
    rewrite hdel_lookup. case_match; [done|]. apply Hk.
Qed.

Lemma keyed_distinct t : keyed t -> NoDup (stored_ID <$> ListGrokEgressNodes t).
Proof.
  intros Hk. unfold ListGrokEgressNodes. rewrite merge_sort_Permutation.
  assert (stored_ID <$> (snd <$> map_to_list (nodes_table t)) = (map_to_list (nodes_table t)).*1) as ->;
    [|apply NoDup_fst_map_to_list].
  rewrite <- list_fmap_compose. apply list_fmap_ext. intros i [id n] Hi. cbn.
  apply Hk, elem_of_map_to_list. by eapply list_elem_of_lookup_2.
Qed.

(** The nodes a reload has read are distinct. *)
Definition distinct_reads (stage : reloading) : Prop :=
  match stage with
  | ReadVersion | ReadNodes _ => True
  | ReadProfiles _ ns | ReadOperations _ ns _ | ReadBindings _ ns _ _ => NoDup (stored_ID <$> ns)
  end.

Definition well_formed_registry (r : Registry) : Prop :=
  well_indexed (snapshot r) /\ forall stage, at_work r = Some stage -> distinct_reads stage.

Lemma emptySnapshot_well_indexed : well_indexed emptySnapshot.
Proof.
  split; cbn; [constructor| |done]. intros id n. rewrite lookup_empty. split; [done|].
  intros [H _]. by apply not_elem_of_nil in H.
Qed.

Lemma well_formed_step c c' :
  cluster_step c c' -> keyed (shared_store c) /\ Forall well_formed_registry (instances c) ->
  keyed (shared_store c') /\ Forall well_formed_registry (instances c').
Proof.
  intros [t t' rs Hw|t rs|t rs i r Hi Ha|t rs i r stage Hi Ha|t rs i r stage Hi Ha] [Hk Hrs]; cbn in *.
  - split; [by eapply write_keyed|done].
  - split; [done|]. apply Forall_app. split; [done|]. constructor; [|constructor].
    split; [apply emptySnapshot_well_indexed|done].
  - split; [done|]. apply Forall_insert; [done|].
    destruct (Forall_lookup_1 _ _ _ _ Hrs Hi) as [Hs _]. split; [done|]. by intros ? [= <-].
  - split; [done|]. apply Forall_insert; [done|].
    destruct (Forall_lookup_1 _ _ _ _ Hrs Hi) as [Hs Hr]. specialize (Hr stage Ha).
    destruct stage; cbn in Hr |- *; (split; [try exact Hs|try by intros ? [= <-]]).
    + intros ? [= <-]. by apply keyed_distinct.
    + by apply buildSnapshot_spec.
  - split; [done|]. apply Forall_insert; [done|].
    by destruct (Forall_lookup_1 _ _ _ _ Hrs Hi) as [Hs _].
Qed.

Lemma reachable_well_formed c : reachable_cluster c -> Forall well_formed_registry (instances c).
Proof.
  unfold reachable_cluster. intros H. remember (mkCluster empty_tables []) as c0 eqn:E.
  assert (keyed (shared_store c0) /\ Forall well_formed_registry (instances c0)) as Hc0 by (subst; by split).
  clear E. induction H as [c0|c0 c1 c2 Hst _ IH]; [by destruct Hc0|]. apply IH. by eapply well_formed_step.
Qed.

(** A reload with nobody in between brings the instance up to date, its
    bindings too. *)
Lemma reload_alone t r :
  Reload t r = mkRegistry (current_snapshot t (bindings_table t)) (version_counter t) None.
Proof. reflexivity. Qed.

(** C28: An instance whose version is the store's routes by the nodes, profiles
    and settings the store holds, however the reads of its reloads interleave with
    writes and fail; when the versions differ a tick reloads and, with no write in
    between, leaves it with the store's snapshot and version.  Every snapshot,
    stale or not, has distinct nodes, an index that agrees with them and bindings
    to them only. *)
Theorem instance_routes_by_the_store c i r :
  reachable_cluster c -> instances c !! i = Some r ->
  let t := shared_store c in
  (watch_tick t r = false -> exists b, snapshot r = current_snapshot t b) /\
  (snapshot (Reload t r) = current_snapshot t (bindings_table t) /\ watch_tick t (Reload t r) = false) /\
  well_indexed (snapshot r).
Proof.
  intros Hc Hi t. destruct (reachable_coherent c Hc) as [_ Hrs].
  destruct (Forall_lookup_1 _ _ _ _ Hrs Hi) as [_ Hs _]. unfold watch_tick.
  destruct (Forall_lookup_1 _ _ _ _ (reachable_well_formed c Hc) Hi) as [Hw _]. split_and!; [..|done].
  - intros Hv%negb_false_iff%Z.eqb_eq. by apply Hs.
  - by rewrite reload_alone.
  - rewrite reload_alone. cbn. by rewrite Z.eqb_refl.
Qed.

(** A binding written by one instance moves no counter: the others' ticks
    go on seeing nothing to reload. *)
Lemma binding_change_goes_unnoticed scope account node bindings t r :
  watch_tick (SetGrokEgressBinding scope account node t) r = watch_tick t r /\
  watch_tick (ReplaceGrokEgressBindings bindings t) r = watch_tick t r.
Proof. done. Qed.

(** ** Settings survive the store *)

Lemma default_fallback scope :
  ValidGrokEgressScope scope = true -> Fallbacks DefaultGrokEgressOperations !! scope = Some DirectFallback.
Proof.
  unfold ValidGrokEgressScope. rewrite str_in_elem. unfold GrokEgressScopes.
  rewrite !elem_of_cons. intros [->|[->|[->|H%not_elem_of_nil]]]; done.
Qed.

Lemma normalize_fallback_lookup m m' scope :
  m !! scope = m' !! scope -> normalize_fallback m scope = normalize_fallback m' scope.
Proof. unfold normalize_fallback. by intros ->. Qed.

Lemma normalize_fallback_idem m m' scope :
  ValidGrokEgressScope scope = true -> m' !! scope = Some (normalize_fallback m scope) ->
  normalize_fallback m' scope = normalize_fallback m scope.
Proof.
  intros Hv Hm. unfold normalize_fallback at 1. rewrite Hm. unfold normalize_fallback.
  rewrite (default_fallback scope Hv). destruct (m !! scope) as [f|]; cbn; [|done].
  destruct (String.eqb (Mode f) "fixed" && negb (is_empty (TrimSpace (fallback_NodeID f)))) eqn:Ef;
    [by rewrite Ef|].
  destruct (String.eqb (Mode f) "none") eqn:En; cbn; [|done].
  rewrite En. cbn. by rewrite andb_false_r.
Qed.

Lemma normalized_fallbacks o scope :
  Fallbacks (Normalize o) !! scope
  = if ValidGrokEgressScope scope then Some (normalize_fallback (Fallbacks o) scope) else None.
Proof.
  unfold Normalize. cbn [Fallbacks]. set (filled := foldl _ _ _).
  destruct (ValidGrokEgressScope scope) eqn:Hv.
  - apply map_lookup_filter_Some. split; [|exact Hv]. unfold ValidGrokEgressScope in Hv.
    apply str_in_elem in Hv. unfold filled, GrokEgressScopes in *. cbn [foldl].
    rewrite !elem_of_cons in Hv. destruct Hv as [->|[->|[->|H%not_elem_of_nil]]]; [..|done];
      rewrite ?lookup_insert_eq, ?lookup_insert_ne by done; rewrite ?lookup_insert_eq; f_equal;
      apply normalize_fallback_lookup; by rewrite ?lookup_insert_ne by done.
  - apply map_lookup_filter_None. right. intros f _ Hx. change (ValidGrokEgressScope scope = true) in Hx. congruence.
Qed.

Lemma clampSeconds_idem v d : 60 <= d <= 86400 -> clampSeconds (clampSeconds v d) d = clampSeconds v d.
Proof. intros H. unfold clampSeconds. zcases. Qed.

Lemma Normalize_idem o : Normalize (Normalize o) = Normalize o.
Proof.
  assert (Fallbacks (Normalize (Normalize o)) = Fallbacks (Normalize o)) as Hf.
  { apply map_eq. intros scope. rewrite !normalized_fallbacks.
    destruct (ValidGrokEgressScope scope) eqn:Hv; [|done]. f_equal. apply normalize_fallback_idem; [done|].
    by rewrite normalized_fallbacks, Hv. }
  pose proof (clampSeconds_idem (ProbeIntervalSeconds o) 900 ltac:(lia)) as Hp.
  pose proof (clampSeconds_idem (AssignmentIntervalSeconds o) 300 ltac:(lia)) as Ha.
  destruct o as [provider pi ai auto bal fs]. unfold Normalize at 1 3. cbn [ProbeProvider ProbeIntervalSeconds
    AssignmentIntervalSeconds AutoAssignEnabled AutoBalanceEnabled] in *. f_equal; [|exact Hp|exact Ha|exact Hf].
  unfold Normalize. cbn [ProbeProvider]. by destruct (String.eqb provider "ipinfo") eqn:E; [rewrite E|].
Qed.

(** Loading gives back the settings that were saved. *)
Lemma saved_operations_are_loaded ops t :
  GetGrokEgressOperations (SaveGrokEgressOperations ops t) = Normalize ops.
Proof. unfold GetGrokEgressOperations. cbn [operations_value SaveGrokEgressOperations]. apply Normalize_idem. Qed.
End registry.

(** ** A run: an operator saves a node while an instance reloads *)

Definition accept_all (proxy : string) : option string := None.

Definition demo_node : GrokEgressNode :=
  mkGrokEgressNode "n1" "tokyo" GrokEgressScopeWeb true "http://10.0.0.1:8080" "" false 3 "" "" "".

Definition demo_tables : tables :=
  match SaveGrokEgressNode demo_node empty_tables with inr t => t | inl _ => empty_tables end.

(** The instance read the version before the save and the nodes after it. *)
Definition demo_instance : Registry :=
  let read t r := match at_work r with Some stage => reload_read accept_all accept_all t stage r | None => r end in
  Nat.iter 4 (read demo_tables) (read empty_tables (begin_reload new_registry)).

Lemma demo_cluster_reachable :
  reachable_cluster accept_all accept_all (mkCluster demo_tables [demo_instance]).
Proof.
  eapply rtc_l; [apply step_init|]. eapply rtc_l; [by apply (step_begin _ _ _ _ 0 new_registry)|].
  eapply rtc_l; [by eapply (step_read _ _ _ _ 0)|].
  eapply rtc_l; [by apply step_write, (write_node demo_node)|].
  do 4 (eapply rtc_l; [by eapply (step_read _ _ _ _ 0)|]). apply rtc_refl.
Qed.

(** It routes by the node already, but its version makes the next tick reload. *)
Lemma instance_routes_by_the_store_witness :
  watch_tick demo_tables demo_instance = true /\
  Nodes (snapshot (Reload accept_all accept_all demo_tables demo_instance))
  = [mkNode "n1" "tokyo" GrokEgressScopeWeb "http://10.0.0.1:8080" false 3 "" "" ""] /\
  well_indexed (snapshot demo_instance).
Proof.
  split; [reflexivity|].
  destruct (instance_routes_by_the_store accept_all accept_all _ 0 demo_instance demo_cluster_reachable eq_refl)
    as (_ & [Hr _] & Hw).
  split; [etrans; [exact (f_equal Nodes Hr)|vm_compute; reflexivity]|exact Hw].
Defined.
