(* ===== verification/EgressAssign.v ===== *)
(** Account bindings of the egress nodes ([src/internal/grok/egressnodes/assign.go]):
    [AutoBind], which pins an unbound account to the least-loaded node at request
    time, and [Rebalance], which recomputes the whole binding table.

    [rebalance_places_accounts] states what an assignment pass promises;
    [rebalance_is_stable] that a second pass changes nothing.  [moves_suffice]
    is why the ten thousand rounds of the balancing loop are enough: a node that
    received an account never becomes the busiest again, so no account moves
    twice. *)

From stdpp Require Import sorting.
From S2P Require Import Prelude EgressNodes.

(** * Rebalancing *)

Record AccountRef := mkRef { ref_Scope : string; Affinity : string; AccountID : Z }.

Record RebalanceResult := mkRebalance {
  Accounts : Z; Assigned : Z; Moved : Z; Released : Z; Unplaced : Z }.

#[export] Instance eta_rebalance : Eta RebalanceResult := fun r =>
  mkRebalance (Accounts r) (Assigned r) (Moved r) (Released r) (Unplaced r).

(** [load]: the affinities placed on each node. *)
Abbreviation loads := (gmap string (list string)).

Definition load_of (load : loads) (id : string) : list string := default [] (load !! id).
Definition count (load : loads) (id : string) : Z := Z.of_nat (length (load_of load id)).
Definition append_to (load : loads) (id affinity : string) : loads :=
  <[id := load_of load id ++ [affinity]]> load.

Section scope.
Context (nodes : list Node).

(** The nodes by identifier. *)
Definition valid : gmap string Node := foldl (fun m node => <[ID node := node]> m) ∅ nodes.

Definition is_full (load : loads) (node : Node) : bool :=
  (0 <? Capacity node) && (Capacity node <=? count load (ID node)).

Definition leastLoaded (load : loads) (exclude : string) : string :=
  foldl (fun best node =>
    if String.eqb (ID node) exclude || is_full load node then best
    else if is_empty best || (count load (ID node) <? count load best) then ID node else best) "" nodes.

Definition busiest (load : loads) : string :=
  foldl (fun best node =>
    if is_empty best || (count load best <? count load (ID node)) then ID node else best) "" nodes.

(** The first pass keeps the bindings that stand. *)
Definition keep_ref (bound_to : string -> string) (st : loads * list string * Z) (ref : AccountRef)
    : loads * list string * Z :=
  let '(load, unbound, moved) := st in
  let bound := bound_to (Affinity ref) in
  match valid !! bound with
  | Some node =>
      if (Capacity node =? 0) || (count load bound <? Capacity node)
      then (append_to load bound (Affinity ref), unbound, moved)
      else (load, unbound ++ [Affinity ref], moved + one_if (negb (is_empty bound)))
  | None => (load, unbound ++ [Affinity ref], moved + one_if (negb (is_empty bound)))
  end.

(** The second places the accounts left over. *)
Definition place_one (st : loads * Z * Z) (affinity : string) : loads * Z * Z :=
  let '(load, assigned, unplaced) := st in
  let target := leastLoaded load "" in
  if is_empty target then (load, assigned, unplaced + 1)
  else (append_to load target affinity, assigned + 1, unplaced).

(** A round of balancing; [None] is [break]. *)
Definition balance_round (load : loads) : option loads :=
  let from := busiest load in
  let target := leastLoaded load from in
  if is_empty from || is_empty target || (count load from - count load target <=? 1) then None
  else
    match last (load_of load from) with
    | Some moved =>
        let popped := <[from := take (length (load_of load from) - 1) (load_of load from)]> load in
        Some (append_to popped target moved)
    | None => None
    end.

Fixpoint balance_loop (rounds : nat) (load : loads) (moved : Z) : loads * Z :=
  match rounds with
  | O => (load, moved)
  | S rounds =>
      match balance_round load with
      | Some load => balance_loop rounds load (moved + 1)
      | None => (load, moved)
      end
  end.
End scope.

(** [for range 10000]. *)
Definition balance_rounds : nat := Z.to_nat 10000.

Section rebalance.
(** The order in which a map is ranged over. *)
Context (visit : loads -> list (string * list string)).

(** The nodes of a scope that take accounts. *)
Definition usable (snap : Snapshot) (probes : gmap string GrokEgressProbe) (scope : string) : list Node :=
  let unhealthy id := match probes !! id with Some p => String.eqb (Status p) "unhealthy" | None => false end in
  List.filter (fun node => negb (Pool node) && negb (unhealthy (ID node))) (Candidates snap scope).

Definition sort_refs (refs : list AccountRef) : list AccountRef :=
  merge_sort (fun a b => Is_true (AccountID a <=? AccountID b)) refs.

(** [byScope[scope]]. *)
Definition refs_of (accounts : list AccountRef) (scope : string) : list AccountRef :=
  List.filter (fun ref => String.eqb (ref_Scope ref) scope) accounts.

(** The placement of one scope: the loads, and the accounts assigned, moved and
    left without a node. *)
Definition place_scope (bound_to : string -> string) (nodes : list Node) (refs : list AccountRef)
    (balance : bool) : loads * Z * Z * Z :=
  let '(kept, unbound, moved) := foldl (keep_ref nodes bound_to) (∅, [], 0) (sort_refs refs) in
  let '(placed, assigned, unplaced) := foldl (place_one nodes) (kept, 0, 0) unbound in
  let '(load, moved) := if balance then balance_loop nodes balance_rounds placed moved else (placed, moved) in
  (load, assigned, moved, unplaced).

(** [next[scope|affinity] = node] over the loads. *)
Definition record_loads (scope : string) (next : gmap string string) (load : loads) : gmap string string :=
  foldl (fun next entry =>
    foldl (fun next affinity => <[grokEgressBindingField scope affinity := fst entry]> next) next (snd entry))
    next (visit load).

Definition rebalance_scope (snap : Snapshot) (probes : gmap string GrokEgressProbe) (accounts : list AccountRef)
    (balance : bool) (st : RebalanceResult * gmap string string) (scope : string)
    : RebalanceResult * gmap string string :=
  let '(result, next) := st in
  let nodes := usable snap probes scope in
  let refs := refs_of accounts scope in
  let bound_to := Binding snap scope in
  match nodes with
  | [] =>
      let released := List.filter (fun ref => negb (is_empty (bound_to (Affinity ref)))) refs in
      (result <| Released := Released result + Z.of_nat (length released) |>, next)
  | _ =>
      let '(load, assigned, moved, unplaced) := place_scope bound_to nodes refs balance in
      (mkRebalance (Accounts result) (Assigned result + assigned) (Moved result + moved) (Released result)
         (Unplaced result + unplaced), record_loads scope next load)
  end.

Definition rebalanced (snap : Snapshot) (probes : gmap string GrokEgressProbe) (accounts : list AccountRef)
    (balance : bool) : RebalanceResult * gmap string string :=
  foldl (rebalance_scope snap probes accounts balance)
    (mkRebalance (Z.of_nat (length accounts)) 0 0 0 0, ∅) GrokEgressScopes.

(** [Rebalance]: the accounts listed or the lister's error, the probes if they
    could be read, the reply to the write of the table, and the reload after it. *)
Definition Rebalance (ValidateProxyURL tunnelRoutable : string -> option string)
    (accounts : list AccountRef + go_error) (probes : option (gmap string GrokEgressProbe))
    (replace_error : option go_error) (balance : bool) (r : Registry) (t : tables)
    : RebalanceResult * option go_error * Registry * tables :=
  match accounts with
  | inr err => (mkRebalance 0 0 0 0 0, Some err, r, t)
  | inl accounts =>
      let '(result, next) := rebalanced (snapshot r) (default ∅ probes) accounts balance in
      match replace_error with
      | Some err => (result, Some err, r, t)
      | None =>
          let t := ReplaceGrokEgressBindings next t in
          (result, None, Reload ValidateProxyURL tunnelRoutable t r, t)
      end
  end.
End rebalance.

(** * Loads *)

Section load_lemmas.
Context (nodes : list Node).
Hypothesis distinct : NoDup (ID <$> nodes).
Hypothesis named : Forall (fun n => ID n <> ""%string) nodes.

Definition all_placed (load : loads) : list string := nodes ≫= fun n => load_of load (ID n).

Lemma load_of_insert load id l id' :
  load_of (<[id := l]> load) id' = if decide (id' = id) then l else load_of load id'.
Proof.
  unfold load_of. case_decide as H; [subst; by rewrite lookup_insert_eq|by rewrite lookup_insert_ne by done].
Qed.

Lemma all_placed_insert load n l :
  n ∈ nodes -> all_placed (<[ID n := l]> load) ++ load_of load (ID n) ≡ₚ all_placed load ++ l.
Proof.
  unfold all_placed. intros Hn. clear named. induction nodes as [|m ns IH]; [by apply not_elem_of_nil in Hn|].
  rewrite fmap_cons in distinct. apply NoDup_cons in distinct as [Hf Hd]. cbn. rewrite load_of_insert.
  destruct (decide (ID m = ID n)) as [He|Hne].
  - assert ((ns ≫= fun n0 => load_of (<[ID n := l]> load) (ID n0)) = ns ≫= fun n0 => load_of load (ID n0)) as ->.
    { rewrite <- He. clear -Hf. induction ns as [|k ns IH]; [done|]. rewrite fmap_cons, elem_of_cons in Hf. cbn.
      rewrite load_of_insert, decide_False by naive_solver. f_equal. apply IH. naive_solver. }
    rewrite He. by rewrite (Permutation_app_comm (l ++ _)), (Permutation_app_comm l), app_assoc.
  - apply elem_of_cons in Hn as [->|Hn]; [done|]. rewrite <- !app_assoc. apply Permutation_app_head. by apply IH.
Qed.

Lemma all_placed_append load n a :
  n ∈ nodes -> all_placed (append_to load (ID n) a) ≡ₚ a :: all_placed load.
Proof.
  intros Hn. unfold append_to. pose proof (all_placed_insert load n (load_of load (ID n) ++ [a]) Hn) as H.
  apply (Permutation_app_inv_r (load_of load (ID n))). rewrite H, (Permutation_app_comm (load_of load (ID n)) [a]), app_assoc.
  by rewrite (Permutation_app_comm _ [a]).
Qed.

Lemma count_append load id a id' :
  count (append_to load id a) id' = count load id' + one_if (bool_decide (id' = id)).
Proof.
  unfold count, append_to. rewrite load_of_insert. case_decide as H; subst.
  - rewrite bool_decide_true by done. rewrite length_app. cbn. lia.
  - rewrite bool_decide_false by done. cbn. lia.
Qed.

Lemma named_node n : n ∈ nodes -> is_empty (ID n) = false.
Proof. intros Hn. rewrite Forall_forall in named. by apply is_empty_false, named. Qed.

Lemma same_id n m : n ∈ nodes -> m ∈ nodes -> ID n = ID m -> n = m.
Proof.
  clear named. intros Hn Hm He. induction nodes as [|k ns IH]; [by apply not_elem_of_nil in Hn|].
  rewrite fmap_cons in distinct. apply NoDup_cons in distinct as [Hf Hd].
  apply elem_of_cons in Hn as [->|Hn], Hm as [->|Hm]; [done|..|by apply IH]; exfalso; apply Hf.
  - rewrite He. by apply list_elem_of_fmap_2.
  - rewrite <- He. by apply list_elem_of_fmap_2.
Qed.

Lemma valid_spec id n : valid nodes !! id = Some n <-> n ∈ nodes /\ ID n = id.
Proof.
  unfold valid. clear named.
  assert (forall ns (m : gmap string Node), NoDup (ID <$> ns) -> (forall k, k ∈ ns -> m !! ID k = None) ->
    foldl (fun m node => <[ID node := node]> m) m ns !! id = Some n <-> (n ∈ ns /\ ID n = id) \/ m !! id = Some n) as H.
  { clear distinct. intros ns. induction ns as [|k ns IH]; intros m Hd Hm; cbn.
    - split; [by right|]. intros [[H%not_elem_of_nil _]|H]; done.
    - rewrite fmap_cons in Hd. apply NoDup_cons in Hd as [Hf Hd]. rewrite IH; [|done|].
      + rewrite lookup_insert_Some, elem_of_cons. specialize (Hm k ltac:(by left)). split.
        * intros [[? ?]|[[<- <-]|[? ?]]]; auto.
        * intros [[[->|?] <-]|Hs]; auto. right. right. split; [|done]. intros <-. congruence.
      + intros j Hj. rewrite lookup_insert_ne; [apply Hm; by right|]. intros E. apply Hf. rewrite E. by apply list_elem_of_fmap_2. }
  rewrite H; [|done|by intros; apply lookup_empty]. rewrite lookup_empty. naive_solver.
Qed.

(** ** The choices *)

(** The node a scan has chosen so far. *)
Definition chosen (load : loads) (eligible : Node -> bool) (seen : list Node) (best : string) : Prop :=
  match best with
  | "" => forall m, m ∈ seen -> eligible m = false
  | _ => exists n, n ∈ seen /\ ID n = best /\ eligible n = true /\
         forall m, m ∈ seen -> eligible m = true -> count load best <= count load (ID m)
  end%string.

Lemma leastLoaded_spec load exclude :
  let best := leastLoaded nodes load exclude in
  (best = ""%string /\ (forall m, m ∈ nodes -> ID m <> exclude -> is_full load m = true)) \/
  (exists n, n ∈ nodes /\ ID n = best /\ best <> exclude /\ is_full load n = false /\
     forall m, m ∈ nodes -> ID m <> exclude -> is_full load m = false -> count load best <= count load (ID m)).
Proof.
  intros best. unfold leastLoaded in best.
  set (eligible := fun m => negb (String.eqb (ID m) exclude || is_full load m)).
  assert (forall seen rest b, Forall (fun n => ID n <> ""%string) rest -> chosen load eligible seen b ->
    chosen load eligible (seen ++ rest) (foldl (fun best node =>
      if String.eqb (ID node) exclude || is_full load node then best
      else if is_empty best || (count load (ID node) <? count load best) then ID node else best) b rest)) as H.
  { clear. intros seen rest. revert seen. induction rest as [|n rest IH]; intros seen b Hn Hb; cbn; [by rewrite app_nil_r|].
    apply list.Forall_cons in Hn as [Hn Hr]. rewrite (cons_middle n seen rest), app_assoc. apply IH; [done|].
    destruct (String.eqb (ID n) exclude || is_full load n) eqn:Ee.
    { assert (eligible n = false) as Hel by (unfold eligible; by rewrite Ee). destruct b as [|c b]; cbn in Hb |- *.
      - intros m. rewrite elem_of_app, list_elem_of_singleton. intros [Hm| ->]; auto.
      - destruct Hb as (k & Hk & <- & Hke & Hmin). exists k. split_and!; [by apply elem_of_app; left|done..|].
        intros m. rewrite elem_of_app, list_elem_of_singleton. intros [Hm| ->] Hme; [by apply Hmin|congruence]. }
    assert (eligible n = true) as Hel by (unfold eligible; by rewrite Ee).
    destruct (is_empty b || (count load (ID n) <? count load b)) eqn:Eb.
    - destruct (ID n) as [|c id] eqn:Eid; [done|]. exists n. split_and!; [apply elem_of_app; right; by left|done..|].
      intros m. rewrite elem_of_app, list_elem_of_singleton. intros [Hm| ->] Hme; [|by rewrite Eid].
      destruct b as [|c' b]; cbn in Hb; [rewrite Hb in Hme by done; done|].
      destruct Hb as (k & Hk & _ & _ & Hmin). cbn in Eb. to_prop. specialize (Hmin m Hm Hme). lia.
    - apply orb_false_iff in Eb as [Eb1 Eb2]. destruct b as [|c b]; [done|]. destruct Hb as (k & Hk & Ek & Hke & Hmin).
      exists k. split_and!; [by apply elem_of_app; left|done..|]. to_prop.
      intros m. rewrite elem_of_app, list_elem_of_singleton. intros [Hm| ->] Hme; [by apply Hmin|lia]. }
  specialize (H [] nodes ""%string named). cbn in H. specialize (H ltac:(by intros m Hm%not_elem_of_nil)).
  fold best in H. destruct best as [|c b]; cbn in H.
  - left. split; [done|]. intros m Hm Hne. specialize (H m Hm). unfold eligible in H. to_prop.
    destruct H as [H|H]; to_prop; done.
  - right. destruct H as (n & Hn & He & Hel & Hmin). unfold eligible in Hel. to_prop. exists n. split_and!; [done..|congruence|done|].
    intros m Hm Hne Hf. apply Hmin; [done|]. unfold eligible. rewrite Hf, orb_false_r. apply negb_true_iff. by apply String.eqb_neq.
Qed.

Lemma busiest_spec load :
  nodes <> [] -> exists n, n ∈ nodes /\ ID n = busiest nodes load /\
    forall m, m ∈ nodes -> count load (ID m) <= count load (ID n).
Proof.
  intros Hne. unfold busiest.
  assert (forall seen rest n, Forall (fun n => ID n <> ""%string) rest -> n ∈ seen -> ID n <> ""%string ->
    (forall m, m ∈ seen -> count load (ID m) <= count load (ID n)) ->
    exists n', n' ∈ seen ++ rest /\ ID n' = foldl (fun best node =>
      if is_empty best || (count load best <? count load (ID node)) then ID node else best) (ID n) rest /\
    forall m, m ∈ seen ++ rest -> count load (ID m) <= count load (ID n')) as H.
  { clear. intros seen rest. revert seen. induction rest as [|k rest IH]; intros seen n Hr Hn He Hmax; cbn.
    { exists n. by rewrite app_nil_r. }
    apply list.Forall_cons in Hr as [Hk Hr]. rewrite (cons_middle k seen rest), app_assoc.
    apply is_empty_false in He as He'. rewrite He'. cbn. destruct (count load (ID n) <? count load (ID k)) eqn:Ec; to_prop.
    - apply IH; [done|apply elem_of_app; right; by left|done|].
      intros m. rewrite elem_of_app, list_elem_of_singleton. intros [Hm| ->]; [specialize (Hmax m Hm); lia|lia].
    - apply IH; [done|by apply elem_of_app; left|done|].
      intros m. rewrite elem_of_app, list_elem_of_singleton. intros [Hm| ->]; [by apply Hmax|lia]. }
  destruct nodes as [|n ns]; [done|]. pose proof named as Hnm. apply list.Forall_cons in Hnm as [Hn Hns].
  destruct (H [n] ns n) as (n' & ? & ? & ?); [done|by left|done| |].
  { intros m ->%list_elem_of_singleton. done. }
  exists n'. done.
Qed.

(** ** The passes *)

Definition within_capacity (load : loads) : Prop :=
  forall n, n ∈ nodes -> 0 < Capacity n -> count load (ID n) <= Capacity n.
Definition only_nodes (load : loads) : Prop :=
  forall id, (forall n, n ∈ nodes -> ID n <> id) -> load_of load id = [].
Definition all_full (load : loads) : Prop := forall n, n ∈ nodes -> is_full load n = true.
(** Loads differ by at most one, unless the lighter node is full. *)
Definition leveled (load : loads) : Prop :=
  forall u v, u ∈ nodes -> v ∈ nodes -> is_full load v = false -> count load (ID u) <= count load (ID v) + 1.

Definition sound (load : loads) : Prop := within_capacity load /\ only_nodes load.

Lemma sound_append load n a :
  n ∈ nodes -> is_full load n = false \/ Capacity n = 0 \/ count load (ID n) < Capacity n ->
  sound load -> sound (append_to load (ID n) a).
Proof.
  intros Hn Hf [Hc Ho]. split.
  - intros m Hm Hp. rewrite count_append. specialize (Hc m Hm Hp). destruct (decide (ID m = ID n)) as [He|Hne].
    + rewrite bool_decide_true by done. apply same_id in He; [|done..]. subst m. cbn.
      destruct Hf as [Hf|[Hf|Hf]]; [|lia..]. unfold is_full in Hf. to_prop. destruct Hf; to_prop; lia.
    + rewrite bool_decide_false by done. cbn. lia.
  - intros id Hid. unfold append_to. rewrite load_of_insert, decide_False; [by apply Ho|]. intros ->. by apply (Hid n).
Qed.

Lemma keep_refs_spec bound_to refs load unbound moved :
  sound load ->
  let '(load', unbound', _) := foldl (keep_ref nodes bound_to) (load, unbound, moved) refs in
  sound load' /\ all_placed load' ++ unbound' ≡ₚ all_placed load ++ unbound ++ (Affinity <$> refs).
Proof.
  revert load unbound moved. induction refs as [|ref refs IH]; intros load unbound moved Hs; cbn [foldl].
  { split; [done|]. by rewrite app_nil_r. }
  assert (forall mv, let '(load', unbound', _) := foldl (keep_ref nodes bound_to) (load, unbound ++ [Affinity ref], mv) refs in
    sound load' /\ all_placed load' ++ unbound' ≡ₚ all_placed load ++ unbound ++ (Affinity <$> ref :: refs)) as Hun.
  { intros mv. specialize (IH load (unbound ++ [Affinity ref]) mv Hs). destruct (foldl _ _ _) as [[l' u'] m'].
    destruct IH as [? ->]. split; [done|]. by rewrite <- app_assoc. }
  unfold keep_ref at 2. destruct (valid nodes !! bound_to (Affinity ref)) as [n|] eqn:Ev; [|apply Hun].
  destruct ((Capacity n =? 0) || (count load (bound_to (Affinity ref)) <? Capacity n)) eqn:Ec; [|apply Hun].
  apply valid_spec in Ev as [Hn Ei]. rewrite <- Ei in *.
  specialize (IH (append_to load (ID n) (Affinity ref)) unbound moved).
  destruct (foldl _ _ _) as [[l' u'] m']. destruct IH as [Hs' Hp].
  { apply sound_append; [done| |done]. right. to_prop. destruct Ec; to_prop; auto. }
  split; [done|]. rewrite Hp, all_placed_append by done. cbn.
  by rewrite <- Permutation_middle, <- Permutation_middle.
Qed.

Lemma is_full_append load id a n : is_full load n = true -> is_full (append_to load id a) n = true.
Proof.
  unfold is_full. rewrite count_append. intros H. to_prop. apply andb_true_iff. split; [by apply Z.ltb_lt|].
  apply Z.leb_le. unfold one_if. case_match; lia.
Qed.

Lemma place_spec l load assigned unplaced :
  sound load ->
  let '(load', assigned', unplaced') := foldl (place_one nodes) (load, assigned, unplaced) l in
  sound load' /\ exists left, all_placed load' ++ left ≡ₚ all_placed load ++ l /\
    unplaced' = unplaced + Z.of_nat (length left) /\ (left = [] \/ all_full load') /\
    (all_full load -> left = l /\ load' = load /\ assigned' = assigned).
Proof.
  revert load assigned unplaced. induction l as [|a l IH]; intros load assigned unplaced Hs; cbn [foldl].
  { split; [done|]. exists []. cbn. split_and!; [done|lia|by left|done]. }
  unfold place_one at 2. destruct (leastLoaded_spec load "") as [[-> Hfull]|(n & Hn & He & Hne & Hf & _)].
  - cbn [is_empty String.eqb]. specialize (IH load assigned (unplaced + 1) Hs). destruct (foldl _ _ _) as [[l' a'] u'].
    destruct IH as (Hs' & left & Hp & -> & Hl & Hall). destruct Hall as (-> & -> & ->).
    { intros m Hm. apply Hfull; [done|]. by apply is_empty_false, named_node. }
    split; [done|]. exists (a :: l). split_and!; [done|cbn; lia| |done]. right. intros m Hm.
    apply Hfull; [done|]. by apply is_empty_false, named_node.
  - rewrite (proj2 (is_empty_false _) Hne), <- He.
    specialize (IH (append_to load (ID n) a) (assigned + 1) unplaced). destruct (foldl _ _ _) as [[l' a'] u'].
    destruct IH as (Hs' & left & Hp & -> & Hl & _); [apply sound_append; auto|].
    split; [done|]. exists left. rewrite Hp, all_placed_append by done. split_and!; [|done..|].
    + cbn. by rewrite <- Permutation_middle.
    + intros Hall. specialize (Hall n Hn). congruence.
Qed.

(** ** Balancing *)

(** One move: from the busiest node [b] to the lightest node [t] that has room. *)
Record move (load load' : loads) (b t : Node) : Prop := {
  move_from : b ∈ nodes;
  move_to : t ∈ nodes;
  move_apart : ID b <> ID t;
  move_room : is_full load t = false;
  move_gap : count load (ID t) + 2 <= count load (ID b);
  move_busiest : forall m, m ∈ nodes -> count load (ID m) <= count load (ID b);
  move_lightest : forall m, m ∈ nodes -> ID m <> ID b -> is_full load m = false -> count load (ID t) <= count load (ID m);
  move_count : forall id, count load' id
     = count load id - one_if (bool_decide (id = ID b)) + one_if (bool_decide (id = ID t));
  move_placed : all_placed load' ≡ₚ all_placed load;
  move_only : only_nodes load -> only_nodes load' }.

Lemma balance_round_spec load :
  nodes <> [] ->
  match balance_round nodes load with
  | None => leveled load
  | Some load' => exists b t, move load load' b t
  end.
Proof.
  intros Hne. unfold balance_round. destruct (busiest_spec load Hne) as (b & Hb & <- & Hmax).
  rewrite (named_node b Hb). cbn [orb].
  destruct (leastLoaded_spec load (ID b)) as [[-> Hfull]|(t & Ht & He & Hneb & Hf & Hmin)].
  { cbn. intros u v Hu Hv Hnf. destruct (decide (ID v = ID b)) as [->|Hv']; [specialize (Hmax u Hu); lia|].
    rewrite Hfull in Hnf; done. }
  rewrite <- He in *. rewrite (named_node t Ht). cbn [orb].
  destruct (count load (ID b) - count load (ID t) <=? 1) eqn:Eg; to_prop.
  { intros u v Hu Hv Hnf. specialize (Hmax u Hu). destruct (decide (ID v = ID b)) as [->|Hv']; [lia|].
    specialize (Hmin v Hv Hv' Hnf). lia. }
  destruct (last (load_of load (ID b))) as [a|] eqn:El; cycle 1.
  { apply last_None in El. unfold count in Eg. rewrite El in Eg. cbn in Eg. lia. }
  apply last_Some in El as [l' El]. rewrite El, length_app. cbn [length]. rewrite Nat.add_sub.
  rewrite take_app_length. set (popped := <[ID b := l']> load). exists b, t.
  assert (forall id, count popped id = count load id - one_if (bool_decide (id = ID b))) as Hpop.
  { intros id. unfold count, popped. rewrite load_of_insert. destruct (decide (id = ID b)) as [->|Hid].
    - rewrite bool_decide_true, El, length_app by done. cbn. lia.
    - rewrite bool_decide_false by done. cbn. lia. }
  split; [done..|congruence|done|lia|done|done| | |].
  - intros id. by rewrite count_append, Hpop.
  - rewrite all_placed_append by done. pose proof (all_placed_insert load b l' Hb) as Hp. fold popped in Hp.
    rewrite El in Hp. rewrite (Permutation_app_comm l' [a]), app_assoc in Hp. apply Permutation_app_inv_r in Hp.
    by rewrite <- Hp, (Permutation_app_comm _ [a]).
  - intros Ho id Hid. unfold append_to. rewrite load_of_insert, decide_False by (intros ->; by apply (Hid t)).
    unfold popped. rewrite load_of_insert, decide_False by (intros ->; by apply (Hid b)). by apply Ho.
Qed.

Lemma move_sound load load' b t : move load load' b t -> sound load -> sound load'.
Proof.
  intros [Hb Ht Hbt Hf Hg _ _ Hc _ Ho] [Hw Hon]. split; [|by apply Ho].
  intros m Hm Hp. rewrite Hc. specialize (Hw m Hm Hp). destruct (decide (ID m = ID t)) as [He|Hne].
  - apply same_id in He; [|done..]. subst m. rewrite bool_decide_false, bool_decide_true by done. cbn.
    unfold is_full in Hf. to_prop. destruct Hf; to_prop; lia.
  - rewrite (bool_decide_false (ID m = ID t)) by done. unfold one_if. case_match; lia.
Qed.

(** A node that received an account stays at most one above every node with
    room, so it never gives one away. *)
Definition settled_nodes (R : list string) (load : loads) : Prop :=
  forall u v, u ∈ nodes -> v ∈ nodes -> ID u ∈ R -> is_full load v = false ->
    count load (ID u) <= count load (ID v) + 1.

Lemma is_full_count load load' m :
  count load' (ID m) = count load (ID m) -> is_full load' m = is_full load m.
Proof. unfold is_full. by intros ->. Qed.

Lemma move_settles R load load' b t :
  move load load' b t -> settled_nodes R load -> settled_nodes (ID t :: R) load' /\ ID b ∉ R.
Proof.
  intros [Hb Ht Hbt Hf Hg Hmax Hmin Hc _ _] HR. split; cycle 1.
  { intros HbR. specialize (HR b t Hb Ht HbR Hf). lia. }
  intros u v Hu Hv HuR Hfv. rewrite !Hc.
  assert (count load (ID u) <= count load (ID v) + 1 \/ ID v = ID b \/ (ID u = ID t /\ count load (ID t) <= count load (ID v))) as Huv.
  { destruct (decide (ID v = ID b)) as [|Hvb]; [auto|]. destruct (decide (ID v = ID t)) as [Hvt|Hvt].
    - apply same_id in Hvt; [|done..]. subst v. apply elem_of_cons in HuR as [->|HuR]; [left; lia|]. left. by apply HR.
    - assert (is_full load v = false) as Hfv'.
      { rewrite <- Hfv. symmetry. apply is_full_count. rewrite Hc, !bool_decide_false by done. cbn. lia. }
      apply elem_of_cons in HuR as [Hut|HuR]; [right; right; split; [done|by apply Hmin]|left; by apply HR]. }
  destruct (decide (ID v = ID b)) as [Hvb|Hvb].
  - apply same_id in Hvb; [|done..]. subst v. rewrite (bool_decide_true (ID b = ID b)), (bool_decide_false (ID b = ID t)) by done.
    specialize (Hmax u Hu). destruct (decide (ID u = ID b)) as [Hub|Hub].
    + rewrite Hub, bool_decide_true, bool_decide_false by done. cbn. lia.
    + rewrite (bool_decide_false (ID u = ID b)) by done. destruct (decide (ID u = ID t)) as [Hut|Hut].
      * rewrite Hut, bool_decide_true by done. cbn. lia.
      * rewrite bool_decide_false by done. cbn. lia.
  - rewrite (bool_decide_false (ID v = ID b)) by done. destruct (decide (ID u = ID b)) as [Hub|Hub].
    + rewrite Hub, bool_decide_true, bool_decide_false by done.
      assert (ID u ∈ R) as HuR'. { apply elem_of_cons in HuR as [Hut|HuR]; [congruence|done]. }
      specialize (HR u t Hu Ht HuR' Hf). rewrite Hub in HR. lia.
    + rewrite (bool_decide_false (ID u = ID b)) by done. destruct (decide (ID u = ID t)) as [Hut|Hut].
      * rewrite Hut, bool_decide_true by done. destruct (decide (ID v = ID t)) as [->|Hvt].
        -- rewrite bool_decide_true by done. cbn. lia.
        -- rewrite bool_decide_false by done. cbn. rewrite Hut in Huv.
           destruct Huv as [?|[?|[_ ?]]]; [|done|lia].
           assert (is_full load v = false) as Hfv'.
           { rewrite <- Hfv. symmetry. apply is_full_count. rewrite Hc, !bool_decide_false by done. cbn. lia. }
           specialize (Hmin v Hv Hvb Hfv'). lia.
      * rewrite (bool_decide_false (ID u = ID t)) by done. unfold one_if. destruct Huv as [?|[?|[? _]]]; [case_match; lia|done..].
Qed.

(** The accounts on nodes that received none. *)
Definition movable (R : list string) (load : loads) : nat :=
  sum_list_with (fun n => if decide (ID n ∈ R) then 0 else length (load_of load (ID n)))%nat nodes.

Lemma sum_list_with_lt {A} (f g : A -> nat) l x :
  x ∈ l -> (forall y, y ∈ l -> f y <= g y)%nat -> (f x < g x)%nat -> (sum_list_with f l < sum_list_with g l)%nat.
Proof.
  clear. induction l as [|y l IH]; intros Hx Hle Hlt; [by apply not_elem_of_nil in Hx|]. cbn.
  assert (sum_list_with f l <= sum_list_with g l)%nat as Hl.
  { assert (forall z, z ∈ l -> (f z <= g z)%nat) as Hz by (intros; apply Hle; by right). clear -Hz.
    induction l as [|z l IH]; cbn; [lia|]. pose proof (Hz z ltac:(by left)). specialize (IH ltac:(intros; apply Hz; by right)). lia. }
  apply elem_of_cons in Hx as [->|Hx]; [lia|]. specialize (Hle y ltac:(by left)) as Hy.
  specialize (IH Hx ltac:(intros; apply Hle; by right) Hlt). lia.
Qed.

Lemma move_measure R load load' b t :
  move load load' b t -> ID b ∉ R -> (movable (ID t :: R) load' < movable R load)%nat.
Proof.
  intros [Hb Ht Hbt Hf Hg _ _ Hc _ _] HbR. unfold movable. unfold count in *.
  apply (sum_list_with_lt _ _ _ b Hb).
  - intros m Hm. specialize (Hc (ID m)). destruct (decide (ID m ∈ ID t :: R)) as [H1|H1]; [lia|].
    rewrite elem_of_cons in H1. destruct (decide (ID m ∈ R)) as [H2|H2]; [naive_solver|].
    assert (ID m <> ID t) as E by naive_solver. rewrite (bool_decide_false (ID m = ID t)) in Hc by done. unfold one_if in Hc. case_match; lia.
  - specialize (Hc (ID b)). rewrite (bool_decide_true (ID b = ID b)), (bool_decide_false (ID b = ID t)) in Hc by done. cbn in Hc.
    rewrite (decide_False (P := ID b ∈ R)) by done. destruct (decide (ID b ∈ ID t :: R)); lia.
Qed.

(** As many rounds as there are accounts suffice. *)
Lemma moves_suffice rounds R load moved :
  nodes <> [] -> settled_nodes R load -> (movable R load <= rounds)%nat ->
  leveled (balance_loop nodes rounds load moved).1.
Proof.
  intros Hne. revert R load moved. induction rounds as [|rounds IH]; intros R load moved HR Hm; cbn.
  - destruct (busiest_spec load Hne) as (b & Hb & _ & Hmax). intros u v Hu Hv Hf. specialize (Hmax u Hu).
    destruct (decide (ID b ∈ R)) as [HbR|HbR]; [specialize (HR b v Hb Hv HbR Hf); lia|].
    enough (count load (ID b) = 0) by (unfold count in *; lia). unfold count. revert Hm. unfold movable. intros Hm.
    assert (forall (f : Node -> nat) l, (sum_list_with f l <= 0)%nat -> forall x, x ∈ l -> f x = 0%nat) as Hz.
    { clear. intros f l. induction l as [|y l IH]; cbn; intros H x Hx; [by apply not_elem_of_nil in Hx|].
      apply elem_of_cons in Hx as [->|Hx]; [lia|apply IH; [lia|done]]. }
    specialize (Hz _ _ Hm b Hb). cbn in Hz. rewrite decide_False in Hz by done. lia.
  - pose proof (balance_round_spec load Hne) as Hr. destruct (balance_round nodes load) as [load'|]; [|done].
    destruct Hr as (b & t & Hmv). destruct (move_settles R load load' b t Hmv HR) as [HR' HbR].
    apply (IH (ID t :: R)); [done|]. pose proof (move_measure R load load' b t Hmv HbR). lia.
Qed.

Lemma balance_loop_spec rounds load moved :
  nodes <> [] -> sound load ->
  let load' := (balance_loop nodes rounds load moved).1 in
  sound load' /\ all_placed load' ≡ₚ all_placed load /\
  (all_full load -> load' = load) /\ (leveled load -> load' = load /\ (balance_loop nodes rounds load moved).2 = moved).
Proof.
  intros Hne. revert load moved. induction rounds as [|rounds IH]; intros load moved Hs; cbn; [done|].
  pose proof (balance_round_spec load Hne) as Hr. destruct (balance_round nodes load) as [load'|] eqn:Er; [|done].
  destruct Hr as (b & t & Hmv). pose proof (move_sound _ _ _ _ Hmv Hs) as Hs'. destruct Hmv.
  destruct (IH load' (moved + 1) Hs') as (? & Hp & _ & _). split_and!; [done|by rewrite Hp|..].
  - intros Hf. specialize (Hf t ltac:(done)). congruence.
  - intros Hl. specialize (Hl b t ltac:(done) ltac:(done) ltac:(done)). lia.
Qed.
End load_lemmas.

(** * One scope *)

Record placed_well (nodes : list Node) (affinities : list string) (load : loads) (unplaced : Z) (balance : bool) : Prop := {
  placed_all : exists left, all_placed nodes load ++ left ≡ₚ affinities /\ unplaced = Z.of_nat (length left) /\
                 (left = [] \/ all_full nodes load);
  placed_sound : sound nodes load;
  placed_leveled : balance = true -> (length affinities <= balance_rounds)%nat -> leveled nodes load }.

Lemma sound_empty nodes : sound nodes ∅.
Proof. split; [|done]. intros n _ Hp. unfold count, load_of. rewrite lookup_empty. cbn. lia. Qed.

Lemma all_placed_empty nodes : all_placed nodes ∅ = [].
Proof. unfold all_placed. induction nodes as [|n ns IH]; [done|]. cbn. unfold load_of at 1. by rewrite lookup_empty. Qed.

Lemma sort_refs_perm refs : sort_refs refs ≡ₚ refs.
Proof. apply merge_sort_Permutation. Qed.

Lemma movable_all nodes load : movable nodes [] load = length (all_placed nodes load).
Proof. unfold movable, all_placed. induction nodes as [|n ns IH]; [done|]. cbn. by rewrite length_app, IH. Qed.

Lemma place_scope_spec bound_to nodes refs balance :
  NoDup (ID <$> nodes) -> Forall (fun n => ID n <> ""%string) nodes -> nodes <> [] ->
  let '(load, _, _, unplaced) := place_scope bound_to nodes refs balance in
  placed_well nodes (Affinity <$> refs) load unplaced balance.
Proof.
  intros Hd Hn Hne. unfold place_scope.
  pose proof (keep_refs_spec nodes Hd bound_to (sort_refs refs) ∅ [] 0 (sound_empty nodes)) as Hk.
  destruct (foldl (keep_ref nodes bound_to) _ _) as [[kept unbound] moved]. destruct Hk as [Hks Hkp].
  pose proof (place_spec nodes Hd Hn unbound kept 0 0 Hks) as Hp.
  destruct (foldl (place_one nodes) _ _) as [[placed assigned] unplaced].
  destruct Hp as (Hps & left & Hpp & Hu & Hl & _). rewrite all_placed_empty in Hkp. cbn in Hkp.
  rewrite Hkp, sort_refs_perm in Hpp. destruct balance.
  - pose proof (balance_loop_spec nodes Hd Hn balance_rounds placed moved Hne Hps) as Hb.
    assert ((length (Affinity <$> refs) <= balance_rounds)%nat -> leveled nodes (balance_loop nodes balance_rounds placed moved).1) as Hlev.
    { intros Hr. apply (moves_suffice nodes Hd Hn _ []); [done|by intros ? ? ? ? ?%not_elem_of_nil|].
      rewrite movable_all. apply Permutation_length in Hpp. rewrite length_app in Hpp. lia. }
    destruct (balance_loop nodes balance_rounds placed moved) as [load moved']. cbn in Hb, Hlev.
    destruct Hb as (Hbs & Hbp & Hbf & _). split; [|done..]. exists left. rewrite Hbp. split_and!; [done|lia|].
    destruct Hl as [?|Hl]; [by left|right]. by rewrite Hbf.
  - split; [|done..]. exists left. split_and!; [done|lia|done].
Qed.

(** * The whole table *)

Section table.
Context (visit : loads -> list (string * list string)) (visit_order : forall load, visit load ≡ₚ map_to_list load).

Lemma load_of_visit load id a : a ∈ load_of load id <-> exists l, (id, l) ∈ visit load /\ a ∈ l.
Proof.
  unfold load_of. setoid_rewrite visit_order. setoid_rewrite elem_of_map_to_list. destruct (load !! id) as [l|]; cbn.
  - split; [by exists l|]. by intros (l' & [= ->] & ?).
  - split; [by intros ?%not_elem_of_nil|]. by intros (? & ? & ?).
Qed.

Lemma field_inj scope scope' a a' :
  scope ∈ GrokEgressScopes -> scope' ∈ GrokEgressScopes ->
  grokEgressBindingField scope a = grokEgressBindingField scope' a' -> scope = scope' /\ a = a'.
Proof.
  unfold GrokEgressScopes. rewrite !elem_of_cons.
  intros [->|[->|[->|H%not_elem_of_nil]]] [->|[->|[->|H'%not_elem_of_nil]]]; try done; unfold grokEgressBindingField; cbn;
    intros E; by inversion E.
Qed.

Definition record_entry (scope : string) (next : gmap string string) (entry : string * list string) : gmap string string :=
  foldl (fun next affinity => <[grokEgressBindingField scope affinity := fst entry]> next) next (snd entry).

Lemma record_entry_lookup scope next entry key id :
  record_entry scope next entry !! key = Some id <->
  (exists a, a ∈ snd entry /\ key = grokEgressBindingField scope a /\ id = fst entry) \/
  ((forall a, a ∈ snd entry -> key <> grokEgressBindingField scope a) /\ next !! key = Some id).
Proof.
  unfold record_entry. destruct entry as [n l]. cbn. revert next. induction l as [|a l IH]; intros next; cbn.
  { split; [intros H; right; split; [by intros ? ?%not_elem_of_nil|done]|]. intros [(? & ?%not_elem_of_nil & _)|[_ ?]]; done. }
  rewrite IH, lookup_insert_Some. setoid_rewrite elem_of_cons. split.
  - intros [(b & Hb & -> & ->)|[Hk [[<- <-]|[Hne Hn]]]]; [left; exists b; auto|left; exists a; auto|].
    right. split; [|done]. intros b [->|Hb]; [by apply not_eq_sym|by apply Hk].
  - intros [(b & [->|Hb] & -> & ->)|[Hk Hn]].
    + destruct (decide (Exists (fun b => grokEgressBindingField scope a = grokEgressBindingField scope b) l)) as [He|He].
      * apply Exists_exists in He as (b & Hb & E). left. by exists b.
      * right. split; [|by left]. intros b Hb E. apply He, Exists_exists. by exists b.
    + left. by exists b.
    + right. split; [auto|]. right. split; [apply not_eq_sym; auto|done].
Qed.

(** Every affinity is on one node. *)
Definition one_node (load : loads) : Prop :=
  forall a id id', a ∈ load_of load id -> a ∈ load_of load id' -> id = id'.

Lemma record_loads_lookup scope next load key id :
  scope ∈ GrokEgressScopes -> one_node load ->
  record_loads visit scope next load !! key = Some id <->
  (exists a, key = grokEgressBindingField scope a /\ a ∈ load_of load id) \/
  ((forall a id', key = grokEgressBindingField scope a -> a ∉ load_of load id') /\ next !! key = Some id).
Proof.
  intros Hsc Hone. unfold record_loads. change (fun next entry => foldl _ next (snd entry)) with (record_entry scope).
  setoid_rewrite load_of_visit.
  assert (forall a x y, x ∈ visit load -> y ∈ visit load -> a ∈ snd x -> a ∈ snd y -> fst x = fst y) as Hv.
  { intros a [i l] [j l'] Hi Hj Ha Ha'. apply (Hone a); apply load_of_visit; eauto. }
  clear Hone. revert next Hv. generalize (visit load). intros entries. induction entries as [|e entries IH]; intros next Hv; cbn.
  { split; [intros H; right; split; [by intros ? ? _ (? & ?%not_elem_of_nil & _)|done]|].
    intros [(? & _ & ? & ?%not_elem_of_nil & _)|[_ ?]]; done. }
  rewrite IH; [|intros a x y Hx Hy; apply Hv; by right]. rewrite record_entry_lookup. setoid_rewrite elem_of_cons. split.
  - intros [(a & -> & l & Hl & Ha)|[Hk [(a & Ha & -> & ->)|[He Hn]]]].
    + left. exists a. split; [done|]. exists l. auto.
    + left. exists a. split; [done|]. exists (snd e). split; [left; by destruct e|done].
    + right. split; [|done]. intros a id' -> (l & [<-|Hl] & Ha); [by apply (He a)|]. apply (Hk a id'); [done|]. by exists l.
  - intros [(a & -> & l & [<-|Hl] & Ha)|[Hk Hn]].
    + destruct (decide (Exists (fun x => a ∈ snd x) entries)) as [Hx|Hx].
      * apply Exists_exists in Hx as ([i l'] & Hi & Hal). left. exists a. split; [done|]. exists l'. split; [|done].
        assert (id = i) as ->; [|done]. apply (Hv a (id, l) (i, l')); [by left|by right|done|done].
      * right. split; [|left; by exists a]. intros b id' E (l' & Hl' & Hb). apply field_inj in E as [_ ->]; [|done..].
        apply Hx, Exists_exists. by exists (id', l').
    + left. exists a. split; [done|]. by exists l.
    + right. split.
      * intros a id' -> (l & Hl & Ha). apply (Hk a id'); [done|]. exists l. auto.
      * right. split; [|done]. intros a Ha ->. apply (Hk a (fst e)); [done|]. exists (snd e). split; [left; by destruct e|done].
Qed.

(** ** The loads behind the table *)

Definition scope_loads (snap : Snapshot) (probes : gmap string GrokEgressProbe) (accounts : list AccountRef)
    (balance : bool) (scope : string) : loads :=
  match usable snap probes scope with
  | [] => ∅
  | nodes => (place_scope (Binding snap scope) nodes (refs_of accounts scope) balance).1.1.1
  end.

Lemma record_loads_empty scope next : record_loads visit scope next ∅ = next.
Proof.
  unfold record_loads. assert (visit ∅ = []) as ->; [|done].
  apply Permutation_nil_r. by rewrite visit_order, map_to_list_empty.
Qed.

Lemma rebalanced_table snap probes accounts balance :
  (rebalanced visit snap probes accounts balance).2
  = foldl (fun next scope => record_loads visit scope next (scope_loads snap probes accounts balance scope))
      ∅ GrokEgressScopes.
Proof.
  unfold rebalanced. generalize (mkRebalance (Z.of_nat (length accounts)) 0 0 0 0), (∅ : gmap string string).
  induction GrokEgressScopes as [|scope scopes IH]; intros result next; [done|]. cbn [foldl].
  unfold rebalance_scope at 2, scope_loads at 2. destruct (usable snap probes scope) as [|n ns].
  - by rewrite IH, record_loads_empty.
  - destruct (place_scope _ _ _ _) as [[[load assigned] moved] unplaced]. by rewrite IH.
Qed.

Lemma record_scopes_lookup (L : string -> loads) scopes key id :
  (forall scope, scope ∈ scopes -> scope ∈ GrokEgressScopes /\ one_node (L scope)) ->
  foldl (fun next scope => record_loads visit scope next (L scope)) ∅ scopes !! key = Some id <->
  exists scope a, scope ∈ scopes /\ key = grokEgressBindingField scope a /\ a ∈ load_of (L scope) id.
Proof.
  induction scopes as [|s scopes IH] using rev_ind; intros H; cbn.
  { rewrite lookup_empty. split; [done|]. by intros (? & ? & ?%not_elem_of_nil & _). }
  rewrite foldl_app. cbn. setoid_rewrite elem_of_app in H. destruct (H s ltac:(right; by left)) as [Hs Hone].
  rewrite record_loads_lookup by done. rewrite IH by (intros; apply H; by left). clear IH.
  setoid_rewrite elem_of_app. setoid_rewrite list_elem_of_singleton. split.
  - intros [(a & -> & Ha)|[_ (s' & a & Hs' & -> & Ha)]]; [exists s, a; auto|exists s', a; auto].
  - intros (s' & a & [Hs'| ->] & -> & Ha); [|left; by exists a]. destruct (H s' (or_introl Hs')) as [Hs'g Hone'].
    destruct (decide (s = s')) as [->|Hne]; [left; by exists a|]. right. split; [|by exists s', a].
    intros a' id' E. by apply field_inj in E as [-> _].
Qed.

(** What a pass needs of its inputs. *)
Record ready (snap : Snapshot) (accounts : list AccountRef) : Prop := {
  ready_nodes : NoDup (ID <$> Nodes snap);
  ready_named : Forall (fun n => ID n <> ""%string) (Nodes snap);
  ready_accounts : forall scope, NoDup (Affinity <$> refs_of accounts scope) }.

Lemma sublist_filter {A} (f : A -> bool) l : List.filter f l `sublist_of` l.
Proof. induction l as [|x l IH]; cbn; [constructor|]. destruct (f x); by constructor. Qed.

Lemma sublist_elem {A} (l l' : list A) x : l `sublist_of` l' -> x ∈ l -> x ∈ l'.
Proof. intros Hs Hx. eapply elem_of_submseteq; [exact Hx|by apply sublist_submseteq]. Qed.

Lemma sublist_fmap_NoDup {A B} (f : A -> B) l l' : l `sublist_of` l' -> NoDup (f <$> l') -> NoDup (f <$> l).
Proof.
  induction 1 as [|x l l' Hs IH|x l l' Hs IH]; rewrite ?fmap_cons, ?NoDup_cons; [done| |naive_solver].
  intros [Hx Hn]. split; [|by apply IH]. intros (y & E & Hy)%list_elem_of_fmap. apply Hx. rewrite E.
  apply list_elem_of_fmap_2. by eapply sublist_elem.
Qed.

Lemma usable_sublist snap probes scope : usable snap probes scope `sublist_of` Nodes snap.
Proof.
  unfold usable. etrans; [apply sublist_filter|]. unfold Candidates.
  destruct (List.filter (in_scope scope) (Nodes snap)) eqn:E.
  - case_match; [apply sublist_filter|apply sublist_nil_l].
  - rewrite <- E. apply sublist_filter.
Qed.

Lemma usable_ready snap probes accounts scope :
  ready snap accounts ->
  NoDup (ID <$> usable snap probes scope) /\ Forall (fun n => ID n <> ""%string) (usable snap probes scope).
Proof.
  intros [Hd Hn _]. pose proof (usable_sublist snap probes scope) as Hs. split.
  - by eapply sublist_fmap_NoDup.
  - rewrite Forall_forall in *. intros n Hin. apply Hn. by eapply sublist_elem.
Qed.

Lemma one_node_placed nodes affinities load unplaced balance :
  NoDup affinities -> NoDup (ID <$> nodes) -> placed_well nodes affinities load unplaced balance -> one_node load.
Proof.
  intros Hnd Hd [(left & Hp & _) [_ Ho] _].
  assert (NoDup (all_placed nodes load)) as Hall by (rewrite <- Hp in Hnd; by apply NoDup_app in Hnd as [? _]).
  assert (forall a id, a ∈ load_of load id -> exists n, n ∈ nodes /\ ID n = id) as Hin.
  { intros a id Ha. destruct (decide (Exists (fun n => ID n = id) nodes)) as [He|He].
    - apply Exists_exists in He as (n & ? & ?). by exists n.
    - rewrite Ho in Ha; [by apply not_elem_of_nil in Ha|]. intros n Hn E. apply He, Exists_exists. by exists n. }
  intros a id id' Ha Ha'. destruct (Hin a id Ha) as (n & Hn & <-), (Hin a id' Ha') as (m & Hm & <-).
  clear Hin Ho Hp Hd Hnd. unfold all_placed in Hall.
  induction nodes as [|k ns IH]; [by apply not_elem_of_nil in Hn|]. cbn in Hall.
  apply NoDup_app in Hall as (Hk & Hdis & Hall).
  assert (forall j, j ∈ ns -> a ∈ load_of load (ID j) -> a ∈ ns ≫= fun n => load_of load (ID n)) as Hj.
  { intros j Hj Hja. apply list_elem_of_bind. by exists j. }
  apply elem_of_cons in Hn as [->|Hn], Hm as [->|Hm]; [done|..|by apply IH]; exfalso.
  - by apply (Hdis a Ha), (Hj m).
  - by apply (Hdis a Ha'), (Hj n).
Qed.

Lemma scope_loads_spec snap probes accounts balance scope :
  ready snap accounts ->
  let load := scope_loads snap probes accounts balance scope in
  let affinities := Affinity <$> refs_of accounts scope in
  one_node load /\
  (usable snap probes scope <> [] -> exists unplaced,
     placed_well (usable snap probes scope) affinities load unplaced balance) /\
  (forall a id, a ∈ load_of load id -> a ∈ affinities /\ exists n, n ∈ usable snap probes scope /\ ID n = id).
Proof.
  intros Hr load affinities. destruct (usable_ready snap probes accounts scope Hr) as [Hd Hn].
  unfold load, scope_loads. pose proof (place_scope_spec (Binding snap scope) (usable snap probes scope)
    (refs_of accounts scope) balance Hd Hn) as Hp. fold affinities in Hp.
  destruct (usable snap probes scope) as [|n ns] eqn:Eu.
  { assert (forall (P : Prop) a id, a ∈ load_of ∅ id -> P) as Hno.
    { intros P a id. unfold load_of. rewrite lookup_empty. by intros ?%not_elem_of_nil. }
    split_and!; [intros a id id' Ha; exact (Hno _ _ _ Ha)|done|intros a id Ha; exact (Hno _ _ _ Ha)]. }
  destruct (place_scope _ _ _ _) as [[[ld assigned] moved] unplaced]. specialize (Hp ltac:(done)). cbn.
  pose proof (one_node_placed _ _ _ _ _ (ready_accounts _ _ Hr scope) Hd Hp) as Hone.
  split_and!; [done|by exists unplaced|]. intros a id Ha. destruct Hp as [(left & Hp & _) [_ Ho] _].
  destruct (decide (Exists (fun k => ID k = id) (n :: ns))) as [He|He].
  - apply Exists_exists in He as (k & Hk & <-). split; [|by exists k]. rewrite <- Hp. apply elem_of_app. left.
    apply list_elem_of_bind. by exists k.
  - rewrite Ho in Ha; [by apply not_elem_of_nil in Ha|]. intros k Hk E. apply He, Exists_exists. by exists k.
Qed.

Lemma table_lookup snap probes accounts balance key id :
  ready snap accounts ->
  (rebalanced visit snap probes accounts balance).2 !! key = Some id <->
  exists scope a, scope ∈ GrokEgressScopes /\ key = grokEgressBindingField scope a /\
    a ∈ load_of (scope_loads snap probes accounts balance scope) id.
Proof.
  intros Hr. rewrite rebalanced_table. apply record_scopes_lookup. intros scope Hs. split; [done|].
  by apply scope_loads_spec.
Qed.

Lemma table_lookup_field snap probes accounts balance scope a id :
  ready snap accounts -> scope ∈ GrokEgressScopes ->
  (rebalanced visit snap probes accounts balance).2 !! grokEgressBindingField scope a = Some id <->
  a ∈ load_of (scope_loads snap probes accounts balance scope) id.
Proof.
  intros Hr Hs. rewrite table_lookup by done. split; [|by exists scope, a].
  intros (s & b & Hs' & E & Hb). by apply field_inj in E as [<- <-].
Qed.

(** The accounts of a scope bound to a node. *)
Definition bound_count (next : gmap string string) (scope : string) (refs : list AccountRef) (id : string) : Z :=
  Z.of_nat (length (List.filter (fun ref => bool_decide (next !! grokEgressBindingField scope (Affinity ref) = Some id)) refs)).

Lemma filter_NoDup_length {A B} (f : A -> B) (p : A -> bool) (refs : list A) (l : list B) :
  NoDup (f <$> refs) -> NoDup l -> (forall b, b ∈ l -> b ∈ f <$> refs) ->
  (forall r, r ∈ refs -> p r = true <-> f r ∈ l) -> length (List.filter p refs) = length l.
Proof.
  intros Hr Hl Hsub Hp. rewrite <- (length_fmap f (List.filter p refs)). apply Permutation_length, NoDup_Permutation; [|done|].
  - eapply sublist_fmap_NoDup; [apply sublist_filter|exact Hr].
  - intros b. rewrite list_elem_of_fmap. split.
    + intros (r & -> & Hin). apply list_elem_of_In, filter_In in Hin as [Hin Ht]. apply Hp; [by apply list_elem_of_In|done].
    + intros Hb. specialize (Hsub b Hb). apply list_elem_of_fmap in Hsub as (r & -> & Hin). exists r. split; [done|].
      apply list_elem_of_In, filter_In. split; [by apply list_elem_of_In|]. by apply Hp.
Qed.

Lemma bound_count_load snap probes accounts balance scope id :
  ready snap accounts -> scope ∈ GrokEgressScopes ->
  bound_count (rebalanced visit snap probes accounts balance).2 scope (refs_of accounts scope) id
  = count (scope_loads snap probes accounts balance scope) id.
Proof.
  intros Hr Hs. unfold bound_count, count. f_equal.
  destruct (scope_loads_spec snap probes accounts balance scope Hr) as (_ & Hpl & Hin).
  apply (filter_NoDup_length Affinity).
  - by apply ready_accounts with (snap := snap).
  - destruct (usable snap probes scope) as [|n ns] eqn:Eu.
    { destruct (load_of (scope_loads snap probes accounts balance scope) id) as [|a l] eqn:El; [constructor|].
      destruct (Hin a id) as [_ (k & Hk & _)]; [rewrite El; by left|]. by apply not_elem_of_nil in Hk. }
    destruct Hpl as (unplaced & [(left & Hp & _) [_ Ho] _]); [done|].
    destruct (decide (Exists (fun k => ID k = id) (n :: ns))) as [He|He].
    + apply Exists_exists in He as (k & Hk & <-). pose proof (ready_accounts _ _ Hr scope) as Hnd. rewrite <- Hp in Hnd.
      apply NoDup_app in Hnd as [Hnd _]. clear -Hnd Hk. unfold all_placed in Hnd.
      induction (n :: ns) as [|j l IH]; [by apply not_elem_of_nil in Hk|]. cbn in Hnd. apply NoDup_app in Hnd as (Hj & _ & Hl).
      apply elem_of_cons in Hk as [->|Hk]; [done|by apply IH].
    + rewrite Ho; [constructor|]. intros k Hk E. apply He, Exists_exists. by exists k.
  - intros b Hb. by apply (Hin b id).
  - intros r Hrin. rewrite bool_decide_eq_true. by apply table_lookup_field.
Qed.

Lemma refs_of_elem accounts scope ref : ref ∈ refs_of accounts scope <-> ref ∈ accounts /\ ref_Scope ref = scope.
Proof.
  unfold refs_of. rewrite list_elem_of_In, filter_In, <- list_elem_of_In. by rewrite String.eqb_eq.
Qed.

(** A pass writes no binding of a scope for which no account is listed: those
    [AutoBind] made for asset downloads, which the lister never names, are dropped
    however valid they are. *)
Lemma unlisted_scope_is_dropped snap probes accounts balance scope a :
  ready snap accounts -> scope ∈ GrokEgressScopes -> refs_of accounts scope = [] ->
  (rebalanced visit snap probes accounts balance).2 !! grokEgressBindingField scope a = None.
Proof.
  intros Hr Hs Hn. destruct (_ !! _) as [id|] eqn:El; [|done]. apply table_lookup_field in El; [|done..].
  destruct (scope_loads_spec snap probes accounts balance scope Hr) as (_ & _ & Hin).
  destruct (Hin a id El) as [Ha _]. rewrite Hn in Ha. by apply not_elem_of_nil in Ha.
Qed.

(** C25: An assignment pass binds listed accounts only, and to nodes of their
    scope that take accounts; no node gets more than its capacity; an account is
    left unbound only if every node of its scope is full; and with balancing on
    (up to ten thousand accounts in a scope, the rounds of the loop) the loads of
    two nodes differ by at most one unless the lighter one is full. *)
Theorem rebalance_places_accounts snap probes accounts balance scope :
  ready snap accounts -> scope ∈ GrokEgressScopes ->
  let next := (rebalanced visit snap probes accounts balance).2 in
  let refs := refs_of accounts scope in
  let nodes := usable snap probes scope in
  let bound n := bound_count next scope refs (ID n) in
  (forall key id, next !! key = Some id -> exists ref, ref ∈ accounts /\
     key = grokEgressBindingField (ref_Scope ref) (Affinity ref) /\
     exists n, n ∈ usable snap probes (ref_Scope ref) /\ ID n = id) /\
  (forall n, n ∈ nodes -> 0 < Capacity n -> bound n <= Capacity n) /\
  (forall ref, ref ∈ refs -> next !! grokEgressBindingField scope (Affinity ref) = None ->
     forall n, n ∈ nodes -> 0 < Capacity n /\ bound n = Capacity n) /\
  (balance = true -> Z.of_nat (length refs) <= 10000 -> forall u v, u ∈ nodes -> v ∈ nodes ->
     Capacity v <= 0 \/ bound v < Capacity v -> bound u <= bound v + 1).
Proof.
  intros Hr Hs next refs nodes bound. subst bound. cbn beta. unfold next, refs.
  destruct (scope_loads_spec snap probes accounts balance scope Hr) as (Hone & Hpl & Hin).
  setoid_rewrite (bound_count_load snap probes accounts balance scope _ Hr Hs).
  set (load := scope_loads snap probes accounts balance scope) in *. split.
  { intros key id Hk. apply table_lookup in Hk as (sc & a & Hsc & -> & Ha); [|done].
    destruct (scope_loads_spec snap probes accounts balance sc Hr) as (_ & _ & Hin').
    destruct (Hin' a id Ha) as [Haf Hn]. apply list_elem_of_fmap in Haf as (ref & -> & Href).
    apply refs_of_elem in Href as [Href <-]. by exists ref. }
  assert (forall n, n ∈ nodes -> exists unplaced, placed_well nodes (Affinity <$> refs_of accounts scope) load unplaced balance) as Hp.
  { intros n Hn. apply Hpl. intros E. unfold nodes in Hn. rewrite E in Hn. by apply not_elem_of_nil in Hn. }
  split_and!.
  - intros n Hn Hc. destruct (Hp n Hn) as (u & [_ [Hw _] _]). by apply Hw.
  - intros ref Href Hnone n Hn. destruct (Hp n Hn) as (u & [(left & Hperm & _ & Hl) [Hw _] _]).
    assert (is_full load n = true) as Hf.
    { destruct Hl as [->|Hf]; [|by apply Hf]. exfalso. rewrite app_nil_r in Hperm.
      assert (Affinity ref ∈ all_placed nodes load) as Ha by (rewrite Hperm; by apply list_elem_of_fmap_2).
      apply list_elem_of_bind in Ha as (k & Hk & _). apply (table_lookup_field _ probes _ balance) in Hk; [|done..]. congruence. }
    unfold is_full in Hf. to_prop. specialize (Hw n Hn ltac:(done)). lia.
  - intros Hb Hlen u v Hu Hv Hroom. destruct (Hp u Hu) as (x & [_ _ Hlev]). apply Hlev; [done| |done|done|].
    + rewrite length_fmap. unfold balance_rounds. lia.
    + unfold is_full. apply andb_false_iff. rewrite Z.ltb_ge, Z.leb_gt. done.
Qed.

(** ** A second pass *)

Definition bound_affinities (bound_to : string -> string) (id : string) (refs : list AccountRef) : list string :=
  Affinity <$> List.filter (fun ref => String.eqb (bound_to (Affinity ref)) id) refs.

Lemma keep_all nodes bound_to refs load unbound moved :
  NoDup (ID <$> nodes) -> Forall (fun n => ID n <> ""%string /\ 0 <= Capacity n) nodes ->
  (forall ref, ref ∈ refs -> bound_to (Affinity ref) = ""%string \/
     exists n, n ∈ nodes /\ ID n = bound_to (Affinity ref)) ->
  (forall n, n ∈ nodes -> 0 < Capacity n ->
     count load (ID n) + Z.of_nat (length (bound_affinities bound_to (ID n) refs)) <= Capacity n) ->
  exists load', foldl (keep_ref nodes bound_to) (load, unbound, moved) refs
    = (load', unbound ++ bound_affinities bound_to "" refs, moved) /\
    forall id, id <> ""%string -> load_of load' id = load_of load id ++ bound_affinities bound_to id refs.
Proof.
  intros Hd Hn. revert load unbound. induction refs as [|ref refs IH]; intros load unbound Hb Hc; cbn [foldl].
  { exists load. unfold bound_affinities. cbn. rewrite app_nil_r. split; [done|]. intros. by rewrite app_nil_r. }
  unfold keep_ref at 2.
  assert (forall id, bound_affinities bound_to id (ref :: refs) =
    (if String.eqb (bound_to (Affinity ref)) id then [Affinity ref] else []) ++ bound_affinities bound_to id refs) as Hcons.
  { intros id. unfold bound_affinities. cbn. by case_match. }
  rewrite Hcons. destruct (Hb ref ltac:(by left)) as [E|(n & Hin & E)].
  - rewrite E. assert (valid nodes !! ""%string = None) as ->.
    { destruct (valid nodes !! ""%string) as [n|] eqn:Ev; [|done]. apply valid_spec in Ev as [Hin Hid]; [|done].
      rewrite Forall_forall in Hn. by destruct (Hn n Hin). }
    cbn [is_empty negb String.eqb one_if]. rewrite Z.add_0_r, app_assoc.
    destruct (IH load (unbound ++ [Affinity ref])) as (load' & -> & Hl).
    { intros r Hr. apply Hb. by right. }
    { intros n Hin Hp. specialize (Hc n Hin Hp). rewrite Hcons, length_app in Hc. lia. }
    exists load'. split; [done|]. intros id Hid. rewrite Hcons, Hl, E by done.
    by rewrite (proj2 (String.eqb_neq _ _)) by (intros <-; done).
  - rewrite <- E. assert (valid nodes !! ID n = Some n) as -> by (by apply valid_spec).
    rewrite Forall_forall in Hn. destruct (Hn n Hin) as [Hne Hcap]. rewrite (proj2 (String.eqb_neq _ _) Hne). cbn [app].
    rewrite (proj2 (orb_true_iff _ _)); cycle 1.
    { destruct (decide (Capacity n = 0)) as [E0|E0]; [left; by apply Z.eqb_eq|right]. apply Z.ltb_lt.
      specialize (Hc n Hin ltac:(lia)). rewrite Hcons, <- E, String.eqb_refl, length_app in Hc. cbn in Hc. lia. }
    destruct (IH (append_to load (ID n) (Affinity ref)) unbound) as (load' & -> & Hl).
    { intros r Hr. apply Hb. by right. }
    { intros m Hm Hp. specialize (Hc m Hm Hp). rewrite Hcons, length_app, <- E in Hc. rewrite count_append.
      destruct (decide (ID m = ID n)) as [Em|Em].
      - rewrite Em, String.eqb_refl in Hc. rewrite Em, bool_decide_true by done. cbn in *. lia.
      - rewrite bool_decide_false by done. cbn. lia. }
    exists load'. split; [done|]. intros id Hid. rewrite Hl by done. unfold append_to. rewrite load_of_insert, Hcons, <- E.
    destruct (decide (id = ID n)) as [->|Hne']; [rewrite String.eqb_refl; by rewrite <- app_assoc|].
    by rewrite (proj2 (String.eqb_neq _ _)) by congruence.
Qed.

Lemma filter_none {A} (f : A -> bool) l : (forall x, x ∈ l -> f x = false) -> List.filter f l = [].
Proof.
  induction l as [|x l IH]; intros H; cbn; [done|]. rewrite (H x) by left. apply IH. intros y Hy. apply H. by right.
Qed.

Lemma bound_affinities_perm bound_to id refs refs' :
  refs ≡ₚ refs' -> bound_affinities bound_to id refs ≡ₚ bound_affinities bound_to id refs'.
Proof.
  intros Hp. unfold bound_affinities. apply fmap_Permutation.
  induction Hp as [|x l l' Hp IH|x y l|l1 l2 l3 H1 IH1 H2 IH2]; cbn;
    [done|case_match; [by constructor|done]|repeat case_match; first [done|by constructor]|by rewrite IH1].
Qed.

(** Placing again the accounts a sound placement bound. *)
Lemma place_again nodes bound_to refs load unplaced balance :
  NoDup (ID <$> nodes) -> Forall (fun n => ID n <> ""%string /\ 0 <= Capacity n) nodes -> nodes <> [] ->
  (balance = true -> (length refs <= balance_rounds)%nat) ->
  placed_well nodes (Affinity <$> refs) load unplaced balance ->
  (forall ref, ref ∈ refs -> bound_to (Affinity ref) = ""%string \/
     exists n, n ∈ nodes /\ ID n = bound_to (Affinity ref)) ->
  (forall n, n ∈ nodes -> Z.of_nat (length (bound_affinities bound_to (ID n) refs)) = count load (ID n)) ->
  exists load', place_scope bound_to nodes refs balance = (load', 0, 0, unplaced) /\
    forall id a, id <> ""%string -> a ∈ load_of load' id <-> a ∈ bound_affinities bound_to id refs.
Proof.
  intros Hd Hn Hne Hlen Hp Hb Hc.
  assert (Forall (fun n => ID n <> ""%string) nodes) as Hn' by (eapply Forall_impl; [exact Hn|]; by intros ? [? _]).
  destruct Hp as [(left & Hperm & Hu & Hl) [Hw Ho] Hlev].
  destruct (keep_all nodes bound_to (sort_refs refs) ∅ [] 0 Hd Hn) as (kept & Hk & Hkl).
  { intros ref Hr. apply Hb. by rewrite <- (sort_refs_perm refs). }
  { intros n Hin Hp. rewrite (bound_affinities_perm _ _ _ _ (sort_refs_perm refs)), Hc by done.
    unfold count at 1, load_of. rewrite lookup_empty. cbn. by apply Hw. }
  assert (forall id, id <> ""%string -> load_of kept id = bound_affinities bound_to id (sort_refs refs)) as Hkl'.
  { intros id Hid. rewrite Hkl by done. unfold load_of. by rewrite lookup_empty. }
  assert (forall n, n ∈ nodes -> count kept (ID n) = count load (ID n)) as Hcount.
  { intros n Hin. unfold count at 1. rewrite Hkl' by (rewrite Forall_forall in Hn'; by apply Hn').
    by rewrite (bound_affinities_perm _ _ _ _ (sort_refs_perm refs)), Hc. }
  assert (forall n, n ∈ nodes -> is_full kept n = is_full load n) as Hfull.
  { intros n Hin. by apply is_full_count, Hcount. }
  pose proof (keep_refs_spec nodes Hd bound_to (sort_refs refs) ∅ [] 0 (sound_empty nodes)) as Hks.
  rewrite Hk in Hks. destruct Hks as [Hks Hkp]. rewrite all_placed_empty in Hkp. cbn [app] in Hkp.
  set (unbound := bound_affinities bound_to "" (sort_refs refs)) in *.
  assert (length unbound = length left) as Hul.
  { assert (length (all_placed nodes kept) = length (all_placed nodes load)) as Hall.
    { unfold all_placed. clear -Hcount. induction nodes as [|n ns IH]; [done|]. cbn. rewrite !length_app.
      specialize (Hcount n ltac:(by left)) as Hc'. unfold count in Hc'. rewrite IH; [lia|]. intros; apply Hcount; by right. }
    rewrite sort_refs_perm in Hkp. rewrite <- Hperm in Hkp. apply Permutation_length in Hkp. rewrite !length_app in Hkp. lia. }
  exists kept. split; cycle 1.
  { intros id a Hid. rewrite Hkl' by done. by rewrite (bound_affinities_perm _ _ _ _ (sort_refs_perm refs)). }
  unfold place_scope. rewrite Hk. cbn [app].
  assert (foldl (place_one nodes) (kept, 0, 0) unbound = (kept, 0, unplaced)) as ->.
  { destruct Hl as [->|Hl].
    - destruct unbound; [|done]. cbn. by rewrite Hu.
    - assert (all_full nodes kept) as Hf by (intros n Hin; rewrite Hfull by done; by apply Hl).
      pose proof (place_spec nodes Hd Hn' unbound kept 0 0 Hks) as Hps.
      destruct (foldl (place_one nodes) _ _) as [[l' a'] u']. destruct Hps as (_ & lf & _ & -> & _ & Hall).
      destruct (Hall Hf) as (-> & -> & ->). by rewrite Hu, Hul. }
  destruct balance; [|done].
  pose proof (balance_loop_spec nodes Hd Hn' balance_rounds kept 0 Hne Hks) as (_ & _ & _ & Hlv).
  assert (leveled nodes kept) as Hlk.
  { rewrite length_fmap in Hlev. intros x y Hx Hy. rewrite Hfull, !Hcount by done. by apply Hlev; auto. }
  destruct (Hlv Hlk) as [E1 E2]. destruct (balance_loop nodes balance_rounds kept 0). cbn in E1, E2. by subst.
Qed.

Record settled_inputs (snap : Snapshot) (accounts : list AccountRef) : Prop := {
  settled_ready : ready snap accounts;
  settled_capacity : Forall (fun n => 0 <= Capacity n) (Nodes snap);
  settled_affinity : Forall (fun ref => Affinity ref <> ""%string) accounts }.

Lemma scope_again snap probes accounts balance scope :
  settled_inputs snap accounts -> scope ∈ GrokEgressScopes ->
  (balance = true -> Z.of_nat (length accounts) <= 10000) -> usable snap probes scope <> [] ->
  let next := (rebalanced visit snap probes accounts balance).2 in
  let refs := refs_of accounts scope in
  let nodes := usable snap probes scope in
  exists load', place_scope (Binding (snap <| Bindings := next |>) scope) nodes refs balance
    = (load', 0, 0, (place_scope (Binding snap scope) nodes refs balance).2) /\
    forall a id, a ∈ load_of load' id <-> a ∈ load_of (scope_loads snap probes accounts balance scope) id.
Proof.
  intros [Hr Hcap Haff] Hs Hlen Hne next refs nodes.
  destruct (usable_ready snap probes accounts scope Hr) as [Hd Hn].
  assert (Forall (fun n => ID n <> ""%string /\ 0 <= Capacity n) nodes) as Hnc.
  { rewrite Forall_forall in *. intros n Hin. split; [by apply Hn|]. apply Hcap. by eapply sublist_elem; [apply usable_sublist|]. }
  destruct (scope_loads_spec snap probes accounts balance scope Hr) as (_ & _ & Hin).
  pose proof (place_scope_spec (Binding snap scope) nodes refs balance Hd Hn Hne) as Hp.
  assert (scope_loads snap probes accounts balance scope = (place_scope (Binding snap scope) nodes refs balance).1.1.1) as Hl.
  { unfold scope_loads, nodes, refs. clear -Hne. by destruct (usable snap probes scope). }
  rewrite Hl in Hin |- *. destruct (place_scope (Binding snap scope) nodes refs balance) as [[[load as1] mv1] un1] eqn:Epl.
  cbn [fst snd] in *.
  assert (forall ref, ref ∈ refs -> Binding (snap <| Bindings := next |>) scope (Affinity ref)
    = default ""%string (next !! grokEgressBindingField scope (Affinity ref))) as Hb.
  { intros ref Href. unfold Binding. apply refs_of_elem in Href as [Href _]. rewrite Forall_forall in Haff.
    by rewrite (proj2 (is_empty_false _) (Haff ref Href)). }
  assert (forall a id, next !! grokEgressBindingField scope a = Some id <-> a ∈ load_of load id) as Hnext.
  { intros a id. unfold next. rewrite table_lookup_field by done. by rewrite Hl. }
  assert (forall id a, id <> ""%string -> a ∈ bound_affinities (Binding (snap <| Bindings := next |>) scope) id refs
    <-> a ∈ load_of load id) as Hba.
  { intros id a Hid. unfold bound_affinities. rewrite list_elem_of_fmap. setoid_rewrite list_elem_of_In.
    setoid_rewrite filter_In. setoid_rewrite String.eqb_eq. setoid_rewrite <- list_elem_of_In. split.
    - intros (ref & -> & Href & E). rewrite Hb in E by done. apply Hnext.
      destruct (next !! _) as [id'|]; cbn in E; [by subst|congruence].
    - intros Ha. destruct (Hin a id Ha) as [Haf _]. apply list_elem_of_fmap in Haf as (ref & -> & Href).
      exists ref. split_and!; [done|done|]. rewrite Hb by done. apply Hnext in Ha. by rewrite Ha. }
  destruct (place_again nodes (Binding (snap <| Bindings := next |>) scope) refs load un1 balance Hd Hnc Hne) as (load' & E & Hl').
  - intros Hbal. specialize (Hlen Hbal). unfold balance_rounds, refs, refs_of.
    pose proof (sublist_length _ _ (sublist_filter (fun ref => String.eqb (ref_Scope ref) scope) accounts)). lia.
  - done.
  - intros ref Href. rewrite Hb by done. destruct (next !! _) as [id|] eqn:En; [right|by left]. cbn.
    apply Hnext in En. by apply (Hin _ _ En).
  - intros n Hn0. unfold count. f_equal.
    pose proof (bound_count_load snap probes accounts balance scope (ID n) Hr Hs) as Hbc. rewrite Hl in Hbc. cbn [fst] in Hbc.
    fold next refs in Hbc. unfold bound_count, count in Hbc. rewrite Forall_forall in Hn.
    unfold bound_affinities. rewrite length_fmap. apply Nat2Z.inj. rewrite <- Hbc. f_equal. f_equal.
    apply filter_ext_in. intros ref Href%list_elem_of_In. rewrite Hb by done. clear -Hn Hn0.
    generalize (next !! grokEgressBindingField scope (Affinity ref)). intros [id|]; unfold default, Datatypes.id.
    + apply Bool.eq_iff_eq_true. rewrite String.eqb_eq, bool_decide_eq_true.
      split; [by intros ->|by intros [= ->]].
    + rewrite bool_decide_false by done. apply String.eqb_neq. apply not_eq_sym. by apply Hn.
  - exists load'. split; [done|]. intros a id. destruct (decide (id = ""%string)) as [->|Hid]; [|by rewrite Hl', Hba].
    pose proof (place_scope_spec (Binding (snap <| Bindings := next |>) scope) nodes refs balance Hd Hn Hne) as Hp'.
    rewrite E in Hp'. destruct Hp as [_ [_ Ho] _], Hp' as [_ [_ Ho'] _].
    rewrite Forall_forall in Hn. rewrite Ho, Ho'; [done|..]; intros n Hin0 E0; by apply (Hn n Hin0).
Qed.

(** A second pass over the same nodes, accounts and probes changes nothing:
    it writes the table the first one wrote and assigns, moves and releases
    nobody. *)
Theorem rebalance_is_stable snap probes accounts balance :
  settled_inputs snap accounts -> (balance = true -> Z.of_nat (length accounts) <= 10000) ->
  let first := rebalanced visit snap probes accounts balance in
  rebalanced visit (snap <| Bindings := first.2 |>) probes accounts balance
  = (mkRebalance (Z.of_nat (length accounts)) 0 0 0 (Unplaced first.1), first.2).
Proof.
  intros Hset Hlen first. set (snap' := snap <| Bindings := first.2 |>).
  pose proof (settled_ready _ _ Hset) as Hr.
  assert (ready snap' accounts) as Hr' by (destruct Hr; by split).
  assert (forall scope a id, scope ∈ GrokEgressScopes ->
    a ∈ load_of (scope_loads snap' probes accounts balance scope) id <->
    a ∈ load_of (scope_loads snap probes accounts balance scope) id) as Hloads.
  { intros scope a id Hs. unfold scope_loads at 1. change (usable snap' probes scope) with (usable snap probes scope).
    pose proof (scope_again snap probes accounts balance scope Hset Hs Hlen) as Ha. cbn zeta in Ha. fold first in Ha. fold snap' in Ha.
    destruct (usable snap probes scope) as [|n ns] eqn:Eu; [unfold scope_loads; by rewrite Eu|].
    destruct Ha as (load' & -> & Hl); [done|]. apply Hl. }
  assert ((rebalanced visit snap' probes accounts balance).2 = first.2) as Hnext.
  { apply map_eq. intros key. apply option_eq. intros id. unfold first. rewrite !table_lookup by done.
    split; intros (scope & a & Hs & -> & Ha); exists scope, a; (split_and!; [done..|]); by apply Hloads. }
  rewrite (surjective_pairing (rebalanced visit snap' probes accounts balance)), Hnext. f_equal.
  clear Hnext Hloads. unfold rebalanced, first.
  assert (forall scopes r r' m m', (forall s, s ∈ scopes -> s ∈ GrokEgressScopes) ->
    r' = mkRebalance (Accounts r) 0 0 0 (Unplaced r) ->
    (foldl (rebalance_scope visit snap' probes accounts balance) (r', m') scopes).1
    = mkRebalance (Accounts r) 0 0 0
        (Unplaced (foldl (rebalance_scope visit snap probes accounts balance) (r, m) scopes).1)) as H.
  { intros scopes. induction scopes as [|s scopes IH]; intros r r' m m' Hs ->; cbn [foldl]; [done|].
    unfold rebalance_scope at 2 4. change (usable snap' probes s) with (usable snap probes s).
    pose proof (scope_again snap probes accounts balance s Hset (Hs s ltac:(by left)) Hlen) as Ha.
    cbn zeta in Ha. fold first in Ha. fold snap' in Ha. destruct (usable snap probes s) as [|n ns] eqn:Eu.
    - assert (List.filter (fun ref => negb (is_empty (Binding snap' s (Affinity ref)))) (refs_of accounts s) = []) as ->.
      { apply filter_none. intros ref _. apply negb_false_iff, is_empty_true. unfold Binding. case_match; [done|].
        unfold snap'. cbn [Bindings set_field update_with]. destruct (first.2 !! _) as [id|] eqn:El; [|done].
        apply table_lookup_field in El; [|done|apply Hs; by left]. unfold scope_loads in El. rewrite Eu in El.
        unfold load_of in El. rewrite lookup_empty in El. by apply not_elem_of_nil in El. }
      match goal with |- (foldl _ (?r1, _) _).1 = mkRebalance _ _ _ _ (Unplaced (foldl _ (?r2, _) _).1) =>
        apply (IH r2 r1) end; [intros; apply Hs; by right|done].
    - destruct Ha as (load' & -> & _); [done|]. destruct (place_scope (Binding snap s) _ _ _) as [[[l1 a1] m1] u1]. cbn [snd].
      rewrite (IH (mkRebalance (Accounts r) (Assigned r + a1) (Moved r + m1) (Released r) (Unplaced r + u1)) _
        (record_loads visit s m l1)); [done|intros; apply Hs; by right|]. cbn. by rewrite !Z.add_0_r. }
  rewrite (H GrokEgressScopes (mkRebalance (Z.of_nat (length accounts)) 0 0 0 0) _ ∅); [done|done|done].
Qed.
End table.

(** * Binding at request time *)

(** [counts]: the stored bindings, and the pending ones the snapshot lacks. *)
Definition pending_counts (snap : Snapshot) (pending : gmap string string) : gmap string Z :=
  map_fold (fun field node counts => match Bindings snap !! field with
                                     | Some _ => counts
                                     | None => count_node counts node
                                     end) (BoundCount snap) pending.

Definition count_of (counts : gmap string Z) (id : string) : Z := default 0 (counts !! id).

(** The least-loaded candidate with spare capacity. *)
Definition best_candidate (snap : Snapshot) (counts : gmap string Z) (candidates : list string) : string :=
  foldl (fun best id =>
    match byID snap !! id with
    | None => best
    | Some node =>
        if (0 <? Capacity node) && (Capacity node <=? count_of counts id) then best
        else if is_empty best || (count_of counts id <? count_of counts best) then id else best
    end) "" candidates.

(** [AutoBind] once the registry exists: the snapshot it read, then the pending
    bindings it ranged over.  The result is the node and the pending bindings,
    with [true] where a goroutine saves the choice. *)
Definition AutoBind (snap : Snapshot) (pending : gmap string string) (scope affinity : string)
    (candidates : list string) : string * gmap string string * bool :=
  if is_empty affinity || negb (AutoAssignEnabled (Operations snap)) || bool_decide (candidates = [])
  then (""%string, pending, false)
  else
    let field := scope +:+ "|" +:+ affinity in
    match pending !! field with
    | Some node => (node, pending, false)
    | None =>
        let best := best_candidate snap (pending_counts snap pending) candidates in
        if is_empty best then (""%string, pending, false) else (best, <[field := best]> pending, true)
    end.

(** The goroutine of a choice: it saves the binding, reloads and forgets it. *)
Inductive saving := Save (scope affinity node : string) | Refresh (field node : string) | Forget (field node : string).

(** One instance: the store, its registry, the pending bindings and the
    goroutines at work. *)
Record binder := mkBinder { stored : tables; registry : Registry; pending : gmap string string; savers : list saving }.

(** The binding an instance loses sight of when it forgets one its snapshot lacks. *)
Definition lapse_of (snap : Snapshot) (field : string) : gset string :=
  match Bindings snap !! field with Some _ => ∅ | None => {[ field ]} end.

Section binding_steps.
Context (ValidateProxyURL tunnelRoutable : string -> option string).

(** A choice made on the snapshot and the pending bindings of one moment, for an
    account the snapshot has no node for, and the steps of the goroutines.  A save
    may fail without effect, or be applied although its reply is an error; the
    reload after it may fail, which [Changed] only logs; the binding is forgotten in
    every case.  The registry is also reloaded by its watch at any time.  The label says whether a
    reply or a reload was lost, and which binding was lost sight of. *)
Inductive binder_step : bool -> gset string -> binder -> binder -> Prop :=
| bind_choice t r p s scope affinity candidates node p' spawned :
    Bindings (snapshot r) !! (scope +:+ "|" +:+ affinity) = None ->
    AutoBind (snapshot r) p scope affinity candidates = (node, p', spawned) ->
    binder_step false ∅ (mkBinder t r p s) (mkBinder t r p' (if spawned then Save scope affinity node :: s else s))
| bind_save t r p s1 s2 scope affinity node :
    binder_step false ∅ (mkBinder t r p (s1 ++ Save scope affinity node :: s2))
      (mkBinder (SetGrokEgressBinding scope affinity node t) r p (s1 ++ Refresh (scope +:+ "|" +:+ affinity) node :: s2))
| bind_save_fails t r p s1 s2 scope affinity node :
    binder_step false ∅ (mkBinder t r p (s1 ++ Save scope affinity node :: s2))
      (mkBinder t r (delete (scope +:+ "|" +:+ affinity) p) (s1 ++ s2))
| bind_save_lost t r p s1 s2 scope affinity node :
    binder_step true ∅ (mkBinder t r p (s1 ++ Save scope affinity node :: s2))
      (mkBinder (SetGrokEgressBinding scope affinity node t) r p (s1 ++ Forget (scope +:+ "|" +:+ affinity) node :: s2))
| bind_refresh t r p s1 s2 field node :
    binder_step false ∅ (mkBinder t r p (s1 ++ Refresh field node :: s2))
      (mkBinder t (Reload ValidateProxyURL tunnelRoutable t r) p (s1 ++ Forget field node :: s2))
| bind_refresh_fails t r p s1 s2 field node :
    binder_step true ∅ (mkBinder t r p (s1 ++ Refresh field node :: s2)) (mkBinder t r p (s1 ++ Forget field node :: s2))
| bind_watch t r p s :
    binder_step false ∅ (mkBinder t r p s) (mkBinder t (Reload ValidateProxyURL tunnelRoutable t r) p s)
| bind_forget t r p s1 s2 field node :
    binder_step false (lapse_of (snapshot r) field)
      (mkBinder t r p (s1 ++ Forget field node :: s2)) (mkBinder t r (delete field p) (s1 ++ s2)).

(** Runs, with whether a reply or a reload was ever lost and the bindings lost
    sight of. *)
Inductive binder_runs (b0 : binder) : bool -> gset string -> binder -> Prop :=
| runs_start : binder_runs b0 false ∅ b0
| runs_step lost lapsed b lost' lapsed' b' :
    binder_runs b0 lost lapsed b -> binder_step lost' lapsed' b b' -> binder_runs b0 (lost || lost') (lapsed ∪ lapsed') b'.
End binding_steps.

(** The accounts a node has, stored or pending. *)
Definition on_node (snap : Snapshot) (p : gmap string string) (id : string) : Z :=
  Z.of_nat (size (filter (fun kv => kv.2 = id) (Bindings snap ∪ p))).

Definition capacity_respected (b : binder) : Prop :=
  forall id n, byID (snapshot (registry b)) !! id = Some n -> 0 < Capacity n ->
    on_node (snapshot (registry b)) (pending b) id <= Capacity n.

Lemma count_node_fold (base : gmap string Z) (m : gmap string string) id :
  count_of (map_fold (fun _ node out => count_node out node) base m) id
  = count_of base id + Z.of_nat (size (filter (fun kv => kv.2 = id) m)).
Proof.
  apply (map_fold_weak_ind (fun out m => count_of out id
    = count_of base id + Z.of_nat (size (filter (fun kv : string * string => kv.2 = id) m)))).
  { rewrite map_filter_empty, map_size_empty. lia. }
  intros k x m' out Hk IH. unfold count_of, count_node in *. destruct (decide (x = id)) as [->|Hne].
  - rewrite lookup_insert_eq, map_filter_insert_True, map_size_insert_None by (rewrite ?map_lookup_filter_None; auto). cbn. lia.
  - rewrite lookup_insert_ne by done. rewrite map_filter_insert_False by done.
    rewrite delete_id by done. done.
Qed.

Lemma pending_counts_spec snap p id :
  count_of (pending_counts snap p) id
  = count_of (BoundCount snap) id + Z.of_nat (size (filter (fun kv => kv.2 = id /\ Bindings snap !! kv.1 = None) p)).
Proof.
  unfold pending_counts.
  apply (map_fold_weak_ind (fun out m => count_of out id = count_of (BoundCount snap) id
    + Z.of_nat (size (filter (fun kv : string * string => kv.2 = id /\ Bindings snap !! kv.1 = None) m)))).
  { rewrite map_filter_empty, map_size_empty. lia. }
  intros k x m' out Hk IH. destruct (Bindings snap !! k) as [y|] eqn:Ek.
  { rewrite map_filter_insert_False by (cbn; naive_solver). by rewrite delete_id by done. }
  unfold count_of, count_node in *. destruct (decide (x = id)) as [->|Hne].
  - rewrite lookup_insert_eq, map_filter_insert_True, map_size_insert_None by (rewrite ?map_lookup_filter_None; auto). cbn. lia.
  - rewrite lookup_insert_ne by done. rewrite map_filter_insert_False by (cbn; naive_solver).
    rewrite delete_id by done. done.
Qed.

Lemma counts_on_node snap p id : count_of (pending_counts snap p) id = on_node snap p id.
Proof.
  rewrite pending_counts_spec. unfold BoundCount. rewrite count_node_fold. unfold on_node, count_of at 1.
  rewrite lookup_empty. cbn [default].
  assert (filter (fun kv : string * string => kv.2 = id) (Bindings snap ∪ p)
    = filter (fun kv : string * string => kv.2 = id) (Bindings snap)
      ∪ filter (fun kv : string * string => kv.2 = id /\ Bindings snap !! kv.1 = None) p) as ->.
  { apply map_eq. intros k. apply option_eq. intros x. rewrite map_lookup_filter_Some, !lookup_union_Some_raw,
      map_lookup_filter_None, !map_lookup_filter_Some. cbn. split.
    - intros [[Hb|[Hb Hp]] ->]; [by left|]. right. split; [|done]. left. done.
    - intros [[Hb ->]|[_ (Hp & -> & Hb)]]; [auto|]. split; [by right|done]. }
  rewrite map_size_disj_union; [cbn; lia|]. apply map_disjoint_spec. intros k x y.
  rewrite !map_lookup_filter_Some. cbn. intros [Hb _] (_ & _ & Hn). congruence.
Qed.

Lemma best_candidate_spec snap counts candidates :
  let best := best_candidate snap counts candidates in
  best = ""%string \/ exists n, byID snap !! best = Some n /\ (0 < Capacity n -> count_of counts best < Capacity n).
Proof.
  unfold best_candidate.
  assert (forall b, (b = ""%string \/ exists n, byID snap !! b = Some n /\ (0 < Capacity n -> count_of counts b < Capacity n)) ->
    let best := foldl (fun best id => match byID snap !! id with
      | None => best
      | Some node => if (0 <? Capacity node) && (Capacity node <=? count_of counts id) then best
          else if is_empty best || (count_of counts id <? count_of counts best) then id else best end) b candidates in
    best = ""%string \/ exists n, byID snap !! best = Some n /\ (0 < Capacity n -> count_of counts best < Capacity n)) as H.
  { induction candidates as [|id l IH]; intros b Hb; [done|]. cbn [foldl]. apply IH.
    destruct (byID snap !! id) as [n|] eqn:En; [|done].
    destruct ((0 <? Capacity n) && (Capacity n <=? count_of counts id)) eqn:Ec; [done|].
    destruct (is_empty b || _); [|done]. right. exists n. split; [done|]. intros Hp. to_prop. destruct Ec; to_prop; lia. }
  apply H. by left.
Qed.

Section binding_invariant.
Context (ValidateProxyURL tunnelRoutable : string -> option string).

Definition saving_field (s : saving) : string :=
  match s with Save scope affinity _ => scope +:+ "|" +:+ affinity | Refresh field _ | Forget field _ => field end.

Definition saving_node (s : saving) : string := match s with Save _ _ node | Refresh _ node | Forget _ node => node end.

Definition bound_live (b : binder) (field node : string) : Prop :=
  bindings_table (stored b) !! field = Some node /\ is_Some (byID (snapshot (registry b)) !! node).

(** The bindings the instance knows of. *)
Definition in_sight (b : binder) : gmap string string := Bindings (snapshot (registry b)) ∪ pending b.

(** What a goroutine can rely on, but for the bindings lost sight of before. *)
Definition saving_ok (lapsed : gset string) (b : binder) (s : saving) : Prop :=
  pending b !! saving_field s = Some (saving_node s) /\ saving_node s <> ""%string /\
  (saving_field s ∉ lapsed ->
   match s with
   | Save _ _ _ =>
       Bindings (snapshot (registry b)) !! saving_field s = None /\
       is_Some (byID (snapshot (registry b)) !! saving_node s) /\ forall n, ~ bound_live b (saving_field s) n
   | Refresh _ _ | Forget _ _ => bound_live b (saving_field s) (saving_node s)
   end).

(** The accounts of a node, but for the bindings lost sight of, fit its capacity. *)
Definition fits (lapsed : gset string) (snap : Snapshot) (p : gmap string string) : Prop :=
  forall id n, byID snap !! id = Some n -> 0 < Capacity n ->
    Z.of_nat (size (filter (fun kv => kv.2 = id /\ kv.1 ∉ lapsed) (Bindings snap ∪ p))) <= Capacity n.

Record binder_ok (lapsed : gset string) (b : binder) : Prop := {
  ok_current : exists m, snapshot (registry b) = current_snapshot ValidateProxyURL tunnelRoutable (stored b) m;
  ok_capacity : fits lapsed (snapshot (registry b)) (pending b);
  ok_stored : forall field node, field ∉ lapsed -> bound_live b field node -> in_sight b !! field = Some node;
  ok_snapshot : forall field node, field ∉ lapsed -> Bindings (snapshot (registry b)) !! field = Some node -> bound_live b field node;
  ok_savers : Forall (saving_ok lapsed b) (savers b);
  ok_fields : NoDup (saving_field <$> savers b) }.

(** Fewer bindings keep within capacity. *)
Lemma fits_subset lapsed lapsed' snap snap' p p' :
  byID snap' = byID snap -> lapsed ⊆ lapsed' ->
  (forall field node, field ∉ lapsed' -> (Bindings snap' ∪ p') !! field = Some node -> (Bindings snap ∪ p) !! field = Some node) ->
  fits lapsed snap p -> fits lapsed' snap' p'.
Proof.
  unfold fits. intros -> Hl Hsub Hc id n Hid Hp. specialize (Hc id n Hid Hp).
  etrans; [|exact Hc]. apply inj_le. apply map_subseteq_size, map_subseteq_spec. intros f nd.
  rewrite !map_lookup_filter_Some. cbn. intros (Hf & -> & Hn). split; [by apply Hsub|]. split; [done|]. set_solver.
Qed.

Lemma reload_binder t r m :
  snapshot r = current_snapshot ValidateProxyURL tunnelRoutable t m ->
  let r' := Reload ValidateProxyURL tunnelRoutable t r in
  byID (snapshot r') = byID (snapshot r) /\
  forall field node, Bindings (snapshot r') !! field = Some node <->
    bindings_table t !! field = Some node /\ is_Some (byID (snapshot r) !! node).
Proof.
  intros E. rewrite reload_alone, E. cbn. split; [done|]. intros field node. unfold live_bindings.
  by rewrite map_lookup_filter_Some.
Qed.

Lemma saver_split lapsed b s1 s s2 :
  savers b = s1 ++ s :: s2 -> binder_ok lapsed b ->
  saving_ok lapsed b s /\ Forall (saving_ok lapsed b) (s1 ++ s2) /\ NoDup (saving_field <$> s1 ++ s2) /\
  forall s', s' ∈ s1 ++ s2 -> saving_field s' <> saving_field s.
Proof.
  intros E [_ _ _ _ Hs Hf]. rewrite E in *. rewrite <- Permutation_middle in Hs, Hf.
  apply list.Forall_cons in Hs as [Hs Hr]. rewrite fmap_cons in Hf. apply NoDup_cons in Hf as [Hf Hn].
  split_and!; [done..|]. intros s' Hs' E'. apply Hf. rewrite <- E'. by apply list_elem_of_fmap_2.
Qed.

Lemma Forall_put_back {A} (P : A -> Prop) l1 x l2 : P x -> Forall P (l1 ++ l2) -> Forall P (l1 ++ x :: l2).
Proof. intros Hx [H1 H2]%Forall_app. apply Forall_app. split; [done|by constructor]. Qed.

(** Savers untouched by a change keep their promises. *)
Lemma saving_ok_kept lapsed lapsed' b b' s :
  saving_ok lapsed b s -> lapsed ⊆ lapsed' ->
  pending b' !! saving_field s = pending b !! saving_field s ->
  byID (snapshot (registry b')) = byID (snapshot (registry b)) ->
  bindings_table (stored b') !! saving_field s = bindings_table (stored b) !! saving_field s ->
  Bindings (snapshot (registry b')) !! saving_field s = Bindings (snapshot (registry b)) !! saving_field s ->
  saving_ok lapsed' b' s.
Proof.
  intros (Hp & Hne & Hs) Hl Ep Eid Et Eb. unfold saving_ok, bound_live in *. rewrite Ep, Eid, Et, Eb. split_and!; [done..|].
  intros Hn. apply Hs. set_solver.
Qed.

Lemma choice_ok lapsed t r p s scope affinity candidates node p' spawned :
  Bindings (snapshot r) !! (scope +:+ "|" +:+ affinity) = None ->
  AutoBind (snapshot r) p scope affinity candidates = (node, p', spawned) ->
  binder_ok lapsed (mkBinder t r p s) ->
  binder_ok lapsed (mkBinder t r p' (if spawned then Save scope affinity node :: s else s)).
Proof.
  intros Hnone. unfold AutoBind. case_match; [by intros [= <- <- <-]|].
  set (field := scope +:+ "|" +:+ affinity) in *.
  destruct (p !! field) as [n|] eqn:Ep; [by intros [= <- <- <-]|].
  set (best := best_candidate _ _ _). destruct (is_empty best) eqn:Ee; [by intros [= <- <- <-]|].
  intros [= <- <- <-] [Hcur Hcap Hst Hsn Hsv Hf]. unfold in_sight in *. cbn [stored registry pending savers] in *.
  destruct (best_candidate_spec (snapshot r) (pending_counts (snapshot r) p) candidates) as [E|(n & Hn & Hroom)];
    [fold best in E; by rewrite E in Ee|]. fold best in Hn, Hroom. rewrite counts_on_node in Hroom.
  assert (Bindings (snapshot r) ∪ <[field := best]> p = <[field := best]> (Bindings (snapshot r) ∪ p)) as Hun
    by (by rewrite insert_union_r).
  assert ((Bindings (snapshot r) ∪ p) !! field = None) as Hfree by (by apply lookup_union_None).
  assert (forall s', s' ∈ s -> saving_field s' <> field) as Hfresh.
  { intros s' Hin E. rewrite Forall_forall in Hsv. destruct (Hsv s' Hin) as [Hp _]. rewrite E in Hp. cbn in Hp. congruence. }
  split; unfold in_sight; cbn [stored registry pending savers]; [done|..].
  - unfold fits, on_node in *. intros id m Hid Hp. rewrite Hun. specialize (Hcap id m Hid Hp).
    destruct (decide (best = id /\ field ∉ lapsed)) as [[<- Hl]|Hne].
    + assert (m = n) as -> by congruence. rewrite map_filter_insert_True by done.
      rewrite map_size_insert_None by (apply map_lookup_filter_None; by left). specialize (Hroom Hp).
      assert (size (filter (fun kv : string * string => kv.2 = best /\ kv.1 ∉ lapsed) (Bindings (snapshot r) ∪ p))
        <= size (filter (fun kv : string * string => kv.2 = best) (Bindings (snapshot r) ∪ p)))%nat; [|lia].
      apply map_subseteq_size, map_subseteq_spec. intros f nd. rewrite !map_lookup_filter_Some. tauto.
    + rewrite map_filter_insert_False by done. by rewrite delete_id.
  - intros f nd Hl Hlive. rewrite Hun. specialize (Hst f nd Hl Hlive). rewrite lookup_insert_ne; [done|]. intros <-. congruence.
  - done.
  - constructor.
    + unfold saving_ok. cbn [saving_field saving_node stored registry pending savers]. fold field. rewrite lookup_insert_eq.
      split_and!; [done|by apply is_empty_false|]. intros Hl. split_and!; [done|by exists n|].
      intros nd Hlive. specialize (Hst field nd Hl Hlive). congruence.
    + rewrite Forall_forall in *. intros s' Hin. eapply saving_ok_kept; [by apply Hsv|done|cbn [pending]|done..].
      rewrite lookup_insert_ne; [done|]. apply not_eq_sym. by apply Hfresh.
  - rewrite fmap_cons. apply NoDup_cons. split; [|done]. rewrite list_elem_of_fmap. intros (s' & E & Hin). by apply (Hfresh s' Hin).
Qed.

(** The write of a binding; the goroutine goes on to reload or to forget. *)
Lemma save_ok lapsed t r p s1 s2 scope affinity node next :
  next = Refresh (scope +:+ "|" +:+ affinity) node \/ next = Forget (scope +:+ "|" +:+ affinity) node ->
  binder_ok lapsed (mkBinder t r p (s1 ++ Save scope affinity node :: s2)) ->
  binder_ok lapsed (mkBinder (SetGrokEgressBinding scope affinity node t) r p (s1 ++ next :: s2)).
Proof.
  intros Hnext Hok. destruct (saver_split lapsed (mkBinder _ _ _ _) s1 _ s2 eq_refl Hok) as ((Hp & Hne & Hprom) & Hrest & Hfs & Hfr).
  unfold saving_field at 1, saving_node at 1 in Hp. cbn [saving_field saving_node stored registry pending savers] in *.
  destruct Hok as [Hcur Hcap Hst Hsn _ Hf]. unfold in_sight, bound_live in *. cbn [stored registry pending savers] in *.
  set (field := scope +:+ "|" +:+ affinity) in *.
  assert (bindings_table (SetGrokEgressBinding scope affinity node t) = <[field := node]> (bindings_table t)) as Htab.
  { unfold SetGrokEgressBinding. cbn [bindings_table set_field update_with]. by rewrite (proj2 (is_empty_false _) Hne). }
  assert (saving_field next = field /\ saving_node next = node) as [Enf Enn] by (by destruct Hnext as [->| ->]).
  split; unfold in_sight, bound_live; cbn [stored registry pending savers]; rewrite ?Htab.
  - destruct Hcur as [m Hm]. exists m. rewrite Hm. done.
  - done.
  - intros f nd Hl [Ht Hi]. destruct (decide (f = field)) as [->|Hnf].
    + rewrite lookup_insert_eq in Ht. injection Ht as <-. destruct (Hprom Hl) as (Hb & _). apply lookup_union_Some_raw. by right.
    + rewrite lookup_insert_ne in Ht by done. by apply Hst.
  - intros f nd Hl Hb. destruct (decide (f = field)) as [->|Hnf]; [by destruct (Hprom Hl) as (? & _); congruence|].
    rewrite lookup_insert_ne by done. by apply Hsn.
  - apply Forall_put_back.
    + unfold saving_ok, bound_live. cbn [stored registry pending savers]. rewrite Enf, Enn, Htab, lookup_insert_eq. split_and!; [done..|].
      intros Hl. destruct (Hprom Hl) as (_ & Hi & _). by destruct Hnext as [->| ->].
    + rewrite Forall_forall in *. intros s' Hin. eapply saving_ok_kept; [by apply Hrest|done|done|done| |done].
      cbn [stored]. rewrite Htab. apply lookup_insert_ne. apply not_eq_sym. by apply Hfr.
  - rewrite fmap_app, fmap_cons in *. rewrite Enf. exact Hf.
Qed.

(** A pending binding goes, with its goroutine. *)
Lemma deletion_ok lapsed lapsed' t r p s1 s s2 :
  binder_ok lapsed (mkBinder t r p (s1 ++ s :: s2)) -> lapsed ⊆ lapsed' ->
  (saving_field s ∉ lapsed' -> forall nd, bound_live (mkBinder t r p (s1 ++ s :: s2)) (saving_field s) nd ->
     Bindings (snapshot r) !! saving_field s = Some nd) ->
  binder_ok lapsed' (mkBinder t r (delete (saving_field s) p) (s1 ++ s2)).
Proof.
  intros Hok Hsub Hknown. destruct (saver_split lapsed (mkBinder _ _ _ _) s1 _ s2 eq_refl Hok) as (_ & Hrest & Hfs & Hfr).
  destruct Hok as [Hcur Hcap Hst Hsn _ Hf]. unfold in_sight, bound_live in *. cbn [stored registry pending savers] in *.
  split; unfold in_sight, bound_live; cbn [stored registry pending savers].
  - done.
  - apply (fits_subset lapsed _ (snapshot r) _ p); [done|done| |done]. intros f nd _ Hu. revert f nd Hu. apply map_subseteq_spec.
    apply map_union_mono_l, delete_subseteq.
  - intros f nd Hl Hlive. destruct (decide (f = saving_field s)) as [->|Hne].
    + apply lookup_union_Some_raw. left. by apply Hknown.
    + specialize (Hst f nd ltac:(set_solver) Hlive). apply lookup_union_Some_raw in Hst as [Hst|[Hbn Hst]]; apply lookup_union_Some_raw; [by left|].
      right. by rewrite lookup_delete_ne.
  - intros f nd Hl. apply Hsn. set_solver.
  - rewrite Forall_forall in *. intros s' Hin. eapply saving_ok_kept; [by apply Hrest|done|cbn [pending]|done..].
    rewrite lookup_delete_ne; [done|]. apply not_eq_sym. by apply Hfr.
  - done.
Qed.

(** The goroutine whose reload is over, successful or not. *)
Lemma reloaded_ok lapsed t r p s1 s2 field node :
  binder_ok lapsed (mkBinder t r p (s1 ++ Refresh field node :: s2)) -> binder_ok lapsed (mkBinder t r p (s1 ++ Forget field node :: s2)).
Proof.
  intros Hok. destruct (saver_split lapsed (mkBinder _ _ _ _) s1 _ s2 eq_refl Hok) as (Hs & Hrest & _).
  destruct Hok as [Hcur Hcap Hst Hsn _ Hf]. split; try done; cbn [savers] in *.
  - by apply Forall_put_back.
  - rewrite fmap_app, fmap_cons in *. exact Hf.
Qed.

Lemma watch_ok lapsed t r p s :
  binder_ok lapsed (mkBinder t r p s) -> binder_ok lapsed (mkBinder t (Reload ValidateProxyURL tunnelRoutable t r) p s).
Proof.
  intros [[m Hcur] Hcap Hst Hsn Hsv Hf]. unfold in_sight, bound_live in *. cbn [stored registry pending savers] in *.
  destruct (reload_binder t r m Hcur) as [Hid Hbs].
  assert (exists m', snapshot (Reload ValidateProxyURL tunnelRoutable t r) = current_snapshot ValidateProxyURL tunnelRoutable t m')
    as Hcur' by (eexists; by rewrite reload_alone).
  generalize dependent (Reload ValidateProxyURL tunnelRoutable t r). intros r' Hid Hbs Hcur'.
  split; unfold in_sight, bound_live; cbn [stored registry pending savers]; rewrite ?Hid.
  - exact Hcur'.
  - apply (fits_subset lapsed _ (snapshot r) _ p); [done|done| |done]. intros f nd Hl Hu.
    apply lookup_union_Some_raw in Hu as [Hu|[Hu Hpf]]; [by apply Hst, Hbs|].
    apply lookup_union_Some_raw. destruct (Bindings (snapshot r) !! f) as [nd'|] eqn:Eb; [|by right].
    apply Hsn in Eb; [|done]. apply Hbs in Eb. congruence.
  - intros f nd Hl Hl'. apply lookup_union_Some_raw. left. by apply Hbs.
  - intros f nd Hl Hb. by apply Hbs.
  - rewrite Forall_forall in *. intros s' Hin. destruct (Hsv s' Hin) as (Hp & Hne & Hprom). split_and!; [done..|]. intros Hl. specialize (Hprom Hl).
    destruct s' as [sc af nd|fd nd|fd nd]; unfold bound_live in *; cbn [stored registry pending savers saving_field saving_node] in *; rewrite Hid; [|done..].
    destruct Hprom as (_ & Hi & Hno). split_and!; [|done..]. destruct (Bindings (snapshot r') !! (sc +:+ "|" +:+ af)) as [nd'|] eqn:Eb; [|done].
    exfalso. apply (Hno nd'). by apply Hbs.
  - done.
Qed.

Definition binder_start (t : tables) (r : Registry) : binder :=
  mkBinder t (Reload ValidateProxyURL tunnelRoutable t r) ∅ [].

Lemma start_ok t r : capacity_respected (binder_start t r) -> binder_ok ∅ (binder_start t r).
Proof.
  intros Hc. unfold binder_start in *.
  assert (forall f nd, Bindings (snapshot (Reload ValidateProxyURL tunnelRoutable t r)) !! f = Some nd <->
    bound_live (mkBinder t (Reload ValidateProxyURL tunnelRoutable t r) ∅ []) f nd) as Hb.
  { intros f nd. unfold bound_live. cbn [stored registry]. rewrite reload_alone. cbn [snapshot].
    unfold current_snapshot, buildSnapshot, live_bindings. cbn [Bindings byID set_field update_with].
    by rewrite map_lookup_filter_Some. }
  split; unfold in_sight; cbn [stored registry pending savers].
  - eexists. by rewrite reload_alone.
  - intros id n Hid Hp. specialize (Hc id n Hid Hp). unfold on_node in Hc. cbn [registry pending] in Hc. etrans; [|exact Hc].
    apply inj_le, map_subseteq_size, map_subseteq_spec. intros f nd. rewrite !map_lookup_filter_Some. tauto.
  - intros f nd _ Hl. apply lookup_union_Some_raw. left. by apply Hb.
  - intros f nd _ Hl. by apply Hb.
  - constructor.
  - constructor.
Qed.

Lemma binder_step_ok lost lapsed lapsed' b b' :
  binder_step ValidateProxyURL tunnelRoutable lost lapsed' b b' -> binder_ok lapsed b -> binder_ok (lapsed ∪ lapsed') b'.
Proof.
  intros [t r p s scope affinity candidates node p' spawned Hn Ha|t r p s1 s2 scope affinity node|t r p s1 s2 scope affinity node
    |t r p s1 s2 scope affinity node|t r p s1 s2 field node|t r p s1 s2 field node|t r p s|t r p s1 s2 field node] Hok; rewrite ?union_empty_r_L.
  - by eapply choice_ok.
  - apply save_ok; [by left|done].
  - apply (deletion_ok lapsed _ t r p s1 (Save scope affinity node) s2 Hok); [done|]. intros Hl nd Hlive. exfalso.
    destruct (saver_split _ (mkBinder _ _ _ _) s1 _ s2 eq_refl Hok) as ((_ & _ & Hprom) & _). destruct (Hprom Hl) as (_ & _ & Hno). by apply (Hno nd).
  - apply save_ok; [by right|done].
  - by apply reloaded_ok, watch_ok.
  - by apply reloaded_ok.
  - by apply watch_ok.
  - apply (deletion_ok lapsed _ t r p s1 (Forget field node) s2 Hok); [set_solver|]. cbn [saving_field]. unfold lapse_of.
    destruct (Bindings (snapshot r) !! field) as [nd'|] eqn:Eb; [|set_solver]. intros Hl nd Hlive. rewrite union_empty_r_L in Hl.
    pose proof (ok_stored _ _ Hok field nd Hl Hlive) as Hs. unfold in_sight in Hs. cbn [registry pending] in Hs.
    apply lookup_union_Some_raw in Hs as [Hs|[Hs _]]; congruence.
Qed.

(** What is forgotten is in the snapshot, as long as no reply and no reload is lost. *)
Definition reloaded_all (b : binder) : Prop :=
  forall field node, Forget field node ∈ savers b -> is_Some (Bindings (snapshot (registry b)) !! field).

Lemma watch_reloads t r p s field node :
  binder_ok ∅ (mkBinder t r p s) -> bound_live (mkBinder t r p s) field node ->
  is_Some (Bindings (snapshot (Reload ValidateProxyURL tunnelRoutable t r)) !! field).
Proof.
  intros [[m Hcur] _ _ _ _ _] Hl. destruct (reload_binder t r m Hcur) as [_ Hbs]. exists node. by apply Hbs.
Qed.

Lemma forget_live lapsed b field node : binder_ok lapsed b -> field ∉ lapsed ->
  Forget field node ∈ savers b \/ Refresh field node ∈ savers b -> bound_live b field node.
Proof.
  intros [_ _ _ _ Hsv _] Hl Hin. rewrite Forall_forall in Hsv. destruct Hin as [Hin|Hin]; destruct (Hsv _ Hin) as (_ & _ & Hprom); by apply Hprom.
Qed.

Lemma smooth_step lapsed' b b' :
  binder_step ValidateProxyURL tunnelRoutable false lapsed' b b' -> binder_ok ∅ b -> reloaded_all b -> lapsed' = ∅ /\ reloaded_all b'.
Proof.
  intros H. remember false as lost eqn:El. revert El.
  destruct H as [t r p s scope affinity candidates node p' spawned Hn Ha|t r p s1 s2 scope affinity node|t r p s1 s2 scope affinity node
    |t r p s1 s2 scope affinity node|t r p s1 s2 field node|t r p s1 s2 field node|t r p s|t r p s1 s2 field node]; intros El Hok Hall; try done;
    unfold reloaded_all in *; cbn [savers registry] in *.
  - split; [done|]. intros f nd Hin. destruct spawned; [|by apply (Hall f nd)]. apply elem_of_cons in Hin as [[=]|Hin]. by apply (Hall f nd).
  - split; [done|]. intros f nd Hin. apply (Hall f nd). rewrite elem_of_app, elem_of_cons in *. destruct Hin as [?|[[=]|?]]; auto.
  - split; [done|]. intros f nd Hin. apply (Hall f nd). rewrite elem_of_app, elem_of_cons in *. tauto.
  - split; [done|]. intros f nd Hin. apply (watch_reloads t r p (s1 ++ Refresh field node :: s2) f nd Hok).
    apply (forget_live ∅); [done|set_solver|]. cbn [savers]. rewrite !elem_of_app, !elem_of_cons in *.
    destruct Hin as [?|[[= -> ->]|?]]; auto.
  - split; [done|]. intros f nd Hin. apply (watch_reloads t r p s f nd Hok). apply (forget_live ∅); [done|set_solver|by left].
  - split.
    + unfold lapse_of. destruct (Hall field node) as [nd ->]; [|done]. rewrite elem_of_app, elem_of_cons. auto.
    + intros f nd Hin. apply (Hall f nd). rewrite elem_of_app, elem_of_cons in *. tauto.
Qed.

Lemma runs_ok b0 lost lapsed b :
  binder_ok ∅ b0 -> reloaded_all b0 -> binder_runs ValidateProxyURL tunnelRoutable b0 lost lapsed b ->
  binder_ok lapsed b /\ (lost = false -> lapsed = ∅ /\ reloaded_all b).
Proof.
  intros Hok Hall Hrun. induction Hrun as [|lost lapsed b lost' lapsed' b' _ IH Hst]; [done|]. destruct IH as [Hb Hsm].
  split; [by eapply binder_step_ok|]. intros [Hl Hl']%orb_false_iff. subst lost lost'. destruct (Hsm eq_refl) as [-> Hra].
  destruct (smooth_step _ _ _ Hst Hb Hra) as [-> ?]. split; [set_solver|done].
Qed.

Lemma on_node_bound (lapsed : gset string) snap p id :
  on_node snap p id <= Z.of_nat (size (filter (fun kv : string * string => kv.2 = id /\ kv.1 ∉ lapsed) (Bindings snap ∪ p))) + Z.of_nat (size lapsed).
Proof.
  unfold on_node. set (m := Bindings snap ∪ p).
  assert (filter (fun kv : string * string => kv.2 = id) m ⊆
    filter (fun kv : string * string => kv.2 = id /\ kv.1 ∉ lapsed) m ∪ gset_to_gmap id lapsed) as Hsub.
  { apply map_subseteq_spec. intros f nd [Hf E]%map_lookup_filter_Some. cbn in E. subst nd. apply lookup_union_Some_raw.
    destruct (decide (f ∈ lapsed)) as [Hin|Hin].
    - right. split; [apply map_lookup_filter_None; right; cbn; naive_solver|by apply lookup_gset_to_gmap_Some].
    - left. by apply map_lookup_filter_Some. }
  apply map_subseteq_size in Hsub. rewrite <- Nat2Z.inj_add. apply inj_le. etrans; [exact Hsub|].
  rewrite <- (size_dom (filter _ m ∪ _)), dom_union_L, <- (size_dom (filter (fun kv : string * string => kv.2 = id /\ kv.1 ∉ lapsed) m)).
  rewrite dom_gset_to_gmap. set (X := dom _). pose proof (size_union_alt X lapsed) as Hu. rewrite Hu.
  pose proof (subseteq_size (lapsed ∖ X) lapsed ltac:(set_solver)). lia.
Qed.

(** C36: With any number of accounts bound at request time while the goroutines
    save, reload and forget in any order, saves and reloads failing or their replies
    lost, no node is ever given more accounts, stored and pending, than its capacity,
    not counting those whose binding the process lost sight of: it forgot it while
    its snapshot lacked it.  Each of these can put a node one over its capacity.
    There are none as long as no reload fails and no reply of an applied save is
    lost.  Each choice sees the snapshot and the pending bindings of one moment. *)
Theorem autobind_respects_capacity t r lost (lapsed : gset string) b :
  capacity_respected (binder_start t r) ->
  binder_runs ValidateProxyURL tunnelRoutable (binder_start t r) lost lapsed b ->
  (forall id n, byID (snapshot (registry b)) !! id = Some n -> 0 < Capacity n ->
     Z.of_nat (size (filter (fun kv => kv.2 = id /\ kv.1 ∉ lapsed) (Bindings (snapshot (registry b)) ∪ pending b))) <= Capacity n /\
     on_node (snapshot (registry b)) (pending b) id <= Capacity n + Z.of_nat (size lapsed)) /\
  (lost = false -> lapsed = ∅ /\ capacity_respected b).
Proof.
  intros Hc Hrun. apply start_ok in Hc. destruct (runs_ok _ _ _ _ Hc ltac:(by intros ? ? ?%not_elem_of_nil) Hrun) as [Hb Hsm].
  assert (forall id n, byID (snapshot (registry b)) !! id = Some n -> 0 < Capacity n ->
    on_node (snapshot (registry b)) (pending b) id <= Capacity n + Z.of_nat (size lapsed)) as Hall.
  { intros id n Hid Hp. pose proof (on_node_bound lapsed (snapshot (registry b)) (pending b) id).
    pose proof (ok_capacity _ _ Hb id n Hid Hp). lia. }
  split; [|].
  - intros id n Hid Hp. split; [by apply (ok_capacity _ _ Hb)|by apply Hall].
  - intros Hl. destruct (Hsm Hl) as [-> _]. split; [done|]. intros id n Hid Hp. specialize (Hall id n Hid Hp). rewrite size_empty in Hall. lia.
Qed.
End binding_invariant.

(** * Runs *)

Definition choose (scope affinity : string) (candidates : list string) (b : binder) : binder :=
  let '(node, p', spawned) := AutoBind (snapshot (registry b)) (pending b) scope affinity candidates in
  mkBinder (stored b) (registry b) p' (if spawned then Save scope affinity node :: savers b else savers b).

Definition save_first (b : binder) : binder :=
  match savers b with
  | Save scope affinity node :: rest =>
      mkBinder (SetGrokEgressBinding scope affinity node (stored b)) (registry b) (pending b)
        (Refresh (scope +:+ "|" +:+ affinity) node :: rest)
  | _ => b
  end.

Lemma choose_step validate tunnel b scope affinity candidates :
  Bindings (snapshot (registry b)) !! (scope +:+ "|" +:+ affinity) = None ->
  binder_step validate tunnel false ∅ b (choose scope affinity candidates b).
Proof.
  destruct b as [t r p s]. unfold choose. cbn [stored registry pending savers]. intros H.
  destruct (AutoBind _ _ _ _ _) as [[node p'] spawned] eqn:E. by eapply bind_choice.
Qed.

Lemma save_first_step validate tunnel b :
  match savers b with Save _ _ _ :: _ => true | _ => false end = true ->
  binder_step validate tunnel false ∅ b (save_first b).
Proof.
  destruct b as [t r p [|[scope affinity node| |] s]]; try done. intros _. apply (bind_save _ _ t r p []).
Qed.

Definition demo_nodes : gmap string GrokEgressNode :=
  list_to_map ((fun id => (id, mkGrokEgressNode id id GrokEgressScopeWeb true "http://10.0.0.1:8080" "" false 3 "" "" "")) <$> ["a"; "b"]).

Definition demo_store : tables :=
  mkTables demo_nodes ∅ ∅ ∅ (Some (DefaultGrokEgressOperations <| AutoAssignEnabled := true |>)) 1.

Definition demo_snapshot : Snapshot := snapshot (Reload accept_all accept_all demo_store new_registry).

Definition demo_accounts (n : nat) : list AccountRef :=
  (fun i => mkRef GrokEgressScopeWeb (Itoa (Z.of_nat i)) (Z.of_nat i)) <$> seq 1 n.

Lemma demo_ready : settled_inputs demo_snapshot (demo_accounts 7).
Proof.
  split; [split|..].
  - closed_decide.
  - closed_decide.
  - intros scope. unfold refs_of. apply (sublist_fmap_NoDup _ _ (demo_accounts 7)); [apply sublist_filter|closed_decide].
  - closed_decide.
  - closed_decide.
Qed.

(** Seven accounts for two nodes of three places: six are placed evenly. *)
Lemma rebalance_places_accounts_witness :
  let next := (rebalanced map_to_list demo_snapshot ∅ (demo_accounts 7) true).2 in
  size next = 6%nat /\
  (forall n, n ∈ usable demo_snapshot ∅ GrokEgressScopeWeb -> 0 < Capacity n ->
     bound_count next GrokEgressScopeWeb (refs_of (demo_accounts 7) GrokEgressScopeWeb) (ID n) <= Capacity n).
Proof.
  split; [vm_compute; reflexivity|].
  apply (rebalance_places_accounts map_to_list (fun load => reflexivity _) demo_snapshot ∅ (demo_accounts 7) true
    GrokEgressScopeWeb); [exact (settled_ready _ _ demo_ready)|closed_decide].
Defined.

Lemma rebalance_is_stable_witness :
  let first := rebalanced map_to_list demo_snapshot ∅ (demo_accounts 7) true in
  rebalanced map_to_list (demo_snapshot <| Bindings := first.2 |>) ∅ (demo_accounts 7) true
  = (mkRebalance 7 0 0 0 1, first.2).
Proof.
  exact (rebalance_is_stable map_to_list (fun load => reflexivity _) demo_snapshot ∅ (demo_accounts 7) true demo_ready
    (fun _ => ltac:(vm_compute; discriminate))).
Defined.

(** Two accounts are bound, and the first choice saved, reloaded and forgotten. *)
Lemma runs_next validate tunnel b0 lapsed b b' :
  binder_runs validate tunnel b0 false lapsed b -> binder_step validate tunnel false ∅ b b' -> binder_runs validate tunnel b0 false lapsed b'.
Proof. intros Hr Hs. rewrite <- (union_empty_r_L lapsed). exact (runs_step _ _ _ false lapsed b false ∅ b' Hr Hs). Qed.

Lemma autobind_respects_capacity_witness :
  exists b, capacity_respected b /\ on_node (snapshot (registry b)) (pending b) "a" = 1
    /\ on_node (snapshot (registry b)) (pending b) "b" = 1.
Proof.
  set (b0 := binder_start accept_all accept_all demo_store new_registry).
  set (b1 := choose GrokEgressScopeWeb "x" ["a"; "b"] b0). set (b2 := save_first b1).
  exists (choose GrokEgressScopeWeb "y" ["a"; "b"] b2). split.
  - apply (autobind_respects_capacity accept_all accept_all demo_store new_registry false ∅); [| |reflexivity].
    + intros id n Hid Hp. unfold on_node. cbn [registry pending binder_start].
      assert (Bindings (snapshot (Reload accept_all accept_all demo_store new_registry)) = ∅) as -> by (vm_compute; reflexivity).
      rewrite (left_id_L ∅ (∪)), map_filter_empty, map_size_empty. lia.
    + apply (runs_next _ _ _ _ b2); [|apply choose_step; vm_compute; reflexivity].
      apply (runs_next _ _ _ _ b1); [|apply save_first_step; vm_compute; reflexivity].
      apply (runs_next _ _ _ _ b0); [|apply choose_step; vm_compute; reflexivity]. apply runs_start.
  - split; vm_compute; reflexivity.
Defined.

(** Where the reload after a save fails the binding is lost sight of, and the node
    takes one account more: the bound is reached.  Here a node of capacity one, so
    that two accounts suffice. *)
Definition narrow_store : tables :=
  mkTables {["a"%string := mkGrokEgressNode "a" "a" GrokEgressScopeWeb true "http://10.0.0.1:8080" "" false 1 "" "" ""]} ∅ ∅ ∅
    (Some (DefaultGrokEgressOperations <| AutoAssignEnabled := true |>)) 1.

Definition lose_first (b : binder) : binder :=
  match savers b with
  | Refresh field node :: rest => mkBinder (stored b) (registry b) (delete field (pending b)) rest
  | _ => b
  end.

Lemma failed_reload_exceeds_capacity :
  exists lapsed b, binder_runs accept_all accept_all (binder_start accept_all accept_all narrow_store new_registry) true lapsed b /\
    size lapsed = 1%nat /\
    (Capacity <$> byID (snapshot (registry b)) !! "a"%string) = Some 1 /\ on_node (snapshot (registry b)) (pending b) "a" = 2.
Proof.
  set (b1 := choose GrokEgressScopeWeb "x" ["a"] (binder_start accept_all accept_all narrow_store new_registry)).
  set (b3 := lose_first (save_first b1)). set (b4 := choose GrokEgressScopeWeb "y" ["a"] b3).
  set (b5 := mkBinder (stored b4) (Reload accept_all accept_all (stored b4) (registry b4)) (pending b4) (savers b4)).
  assert (binder_runs accept_all accept_all (binder_start accept_all accept_all narrow_store new_registry) false ∅ (save_first b1)) as H1.
  { apply (runs_next _ _ _ _ b1); [|apply save_first_step; vm_compute; reflexivity].
    apply (runs_next _ _ _ _ (binder_start accept_all accept_all narrow_store new_registry)); [apply runs_start|].
    apply choose_step. vm_compute. reflexivity. }
  pose proof (runs_step _ _ _ _ _ _ _ _ _ H1 (bind_refresh_fails accept_all accept_all (stored (save_first b1)) (registry b1) (pending b1)
    [] [] (GrokEgressScopeWeb +:+ "|" +:+ "x") "a")) as H2.
  pose proof (runs_step _ _ _ _ _ _ _ _ _ H2 (bind_forget accept_all accept_all _ _ _ [] [] _ _)) as H3.
  pose proof (runs_step _ _ _ _ _ _ _ _ _ H3 (choose_step accept_all accept_all b3 GrokEgressScopeWeb "y" ["a"] ltac:(vm_compute; reflexivity))) as H4.
  pose proof (runs_step _ _ _ _ _ _ _ _ _ H4 (bind_watch accept_all accept_all (stored b4) (registry b4) (pending b4) (savers b4))) as H5.
  eexists _, b5. split; [exact H5|]. split_and!; vm_compute; reflexivity.
Qed.

(** A choice that ranges over the pending bindings after the goroutine of another
    account reloaded and forgot, but read the snapshot before, counts neither: a
    node of capacity three gets a fourth account. *)
Lemma stale_choice_exceeds_capacity :
  let bind a t := SetGrokEgressBinding GrokEgressScopeWeb a "a" t in
  let before := bind "2" (bind "1" demo_store) in
  let old := snapshot (Reload accept_all accept_all before new_registry) in
  let new := snapshot (Reload accept_all accept_all (bind "3" before) new_registry) in
  exists p', AutoBind old ∅ GrokEgressScopeWeb "4" ["a"] = ("a"%string, p', true) /\ on_node new p' "a" = 4.
Proof. eexists. split; [vm_compute; reflexivity|vm_compute; reflexivity]. Qed.
