(* ===== verification/EgressPool.v ===== *)
(** The proxy node pool of the Grok egress managers
    ([src/internal/grok/egresspool/pool.go], [node.go], [health.go]): node
    selection, health scores in binary64, failure cooldowns, recovery probes, and
    the health snapshot that survives a restart.

    [pick_fails_closed] says what [Pick] may return; [exclusion_is_bounded] that a
    node is kept out for ten minutes at most after its last failure and probed
    once in thirty seconds at most.
    [tolerated_failure_starts_cooldown_later] shows where the zero score goes
    wrong. *)

From S2P Require Import Prelude GoFloat EgressNodes.

(** * Nodes *)

(** The pool's view of a node.  [Proxy], the parsed address, is left out: it is
    a function of the address. *)
Record PoolNode := mkPoolNode {
  pool_Name : string; Label : string; URL : string; Weight : Z; pool_Scope : string;
  Proxied : bool; pool_UserAgent : string; pool_Cookies : string }.

#[export] Instance pool_node_eq_dec : EqDecision PoolNode.
Proof. solve_decision. Defined.

Definition nodeFromRegistry (node : Node) : PoolNode :=
  mkPoolNode (ID node) (Name node) (ProxyURL node) 1 (Scope node) (negb (Direct node)) (UserAgent node) (Cookies node).

(** * Health *)

Definition f64_of_quot (n d : Z) : float64 := f64_div (f64_of_int n) (f64_of_int d).

Definition healthSkipThreshold : float64 := f64_of_quot 2 10.
Definition nodeCooldown : duration := 30 * Second.
Definition nodeCooldownMax : duration := 10 * Minute.
Definition healthPersistInterval : duration := 5 * Second.

Inductive Outcome :=
| OutcomeSuccess | OutcomeTransportError | OutcomeServerError | OutcomeChallenge
| OutcomeRateLimited | OutcomeAccountBlock | OutcomeForbidden.

Definition outcomeReason (outcome : Outcome) : string :=
  match outcome with
  | OutcomeServerError => "server"
  | OutcomeChallenge => "challenge"
  | _ => "transport"
  end.

(** [for i := 1; i < failures; i++]: [rounds] remain. *)
Fixpoint double_cooldown (rounds : nat) (cooldown : duration) : duration :=
  match rounds with
  | O => cooldown
  | S rounds =>
      let cooldown := cooldown * 2 in
      if nodeCooldownMax <=? cooldown then nodeCooldownMax else double_cooldown rounds cooldown
  end.

Definition nodeCooldownFor (failures : Z) : duration :=
  if failures <=? 1 then nodeCooldown else double_cooldown (Z.to_nat (failures - 1)) nodeCooldown.

(** [Pool]: the maps of one plane.  The configuration enters as the snapshot of
    the moment; the counters exported as metrics are left out. *)
Record Pool := mkPool {
  nodes : list PoolNode; health : gmap string float64; unhealthy : gmap string instant;
  failures : gmap string Z; lastError : gmap string string; lastProbe : gmap string instant;
  lastPersist : instant; usedCount : gmap string Z; sticky : gmap string string; snap : Snapshot }.

#[export] Instance eta_pool : Eta Pool := fun p =>
  mkPool (nodes p) (health p) (unhealthy p) (failures p) (lastError p) (lastProbe p) (lastPersist p)
    (usedCount p) (sticky p) (snap p).

Definition score_of (p : Pool) (name : string) : float64 := default f64_zero (health p !! name).
Definition failures_of (p : Pool) (name : string) : Z := default 0 (failures p !! name).
Definition until_of (p : Pool) (name : string) : instant := default Time.zero (unhealthy p !! name).

(** [refreshNodesLocked] with the snapshot [SnapshotFor] gives; converting the
    same snapshot again gives the same nodes. *)
Definition refreshNodes (current : Snapshot) (p : Pool) : Pool :=
  p <| snap := current |> <| nodes := nodeFromRegistry <$> Nodes current |>.

Definition targetScope (p : Pool) (scope : string) : string :=
  let target := RegistryScope scope in
  if String.eqb target "grok_web_asset"
  then if existsb (fun n => String.eqb (pool_Scope n) target) (nodes p) then target else "grok_web"
  else target.

Definition degraded (p : Pool) (name : string) (now : instant) : bool :=
  let score := score_of p name in
  if f64_leb healthSkipThreshold score || f64_eqb score f64_zero then false
  else Time.Before now (until_of p name).

(** [Feedback]. *)
Definition Feedback (nodeID : string) (outcome : Outcome) (now : instant) (p : Pool) : Pool :=
  if is_empty nodeID then p
  else
    let score := score_of p nodeID in
    let wasDegraded := f64_ltb score healthSkipThreshold && negb (f64_eqb score f64_zero) in
    match outcome with
    | OutcomeSuccess =>
        let p := p <| health := <[nodeID := f64_add score (f64_mul (f64_sub (f64_of_int 1) score) (f64_of_quot 1 10))]> (health p) |>
                   <| failures := <[nodeID := 0]> (failures p) |>
                   <| lastError := delete nodeID (lastError p) |> in
        if wasDegraded then p <| unhealthy := delete nodeID (unhealthy p) |> else p
    | OutcomeTransportError | OutcomeServerError | OutcomeChallenge =>
        let failed := i64 (failures_of p nodeID + 1) in
        p <| health := <[nodeID := f64_sub (f64_mul score (f64_of_quot 1 2)) (f64_of_quot 1 10)]> (health p) |>
          <| failures := <[nodeID := failed]> (failures p) |>
          <| lastError := <[nodeID := outcomeReason outcome]> (lastError p) |>
          <| unhealthy := <[nodeID := Time.Add now (nodeCooldownFor failed)]> (unhealthy p) |>
    | OutcomeRateLimited | OutcomeAccountBlock | OutcomeForbidden => p
    end.

(** * Picking *)

(** Weighted round robin: the first node at which the weights exceed the
    threshold, the last one otherwise. *)
Fixpoint weighted_pick (threshold : Z) (candidates : list PoolNode) : option PoolNode :=
  match candidates with
  | [] => None
  | c :: rest =>
      let threshold := threshold - Weight c in
      if threshold <? 0 then Some c
      else match weighted_pick threshold rest with Some n => Some n | None => Some c end
  end.

Definition totalWeight (candidates : list PoolNode) : Z := foldl (fun t c => t + Weight c) 0 candidates.

Definition named (name : string) (candidates : list PoolNode) : option PoolNode :=
  if is_empty name then None else List.find (fun c => String.eqb (pool_Name c) name) candidates.

(** The nodes of the scope that are not cooling down. *)
Definition candidates_of (p : Pool) (scope : string) (now : instant) : list PoolNode :=
  let target := targetScope p scope in
  List.filter (fun n => String.eqb (pool_Scope n) target && negb (degraded p (pool_Name n) now)) (nodes p).

Definition sticky_key (scope affinity : string) : string :=
  "scope:" +:+ scope +:+ ":" +:+ (if is_empty affinity then "default" else affinity).

(** [pickNode]; [autobind] is what [AutoBind] answers. *)
Definition pickNode (autobind : string -> string -> list string -> string) (current : Snapshot) (now : instant)
    (scope affinity : string) (p : Pool) : option PoolNode * Pool :=
  let p := refreshNodes current p in
  let scope := ToLower (TrimSpace scope) in
  let candidates := candidates_of p scope now in
  match candidates with
  | [] => (None, p)
  | _ =>
      let stored := Binding (snap p) (RegistryScope scope) affinity in
      let bound := if is_empty stored then autobind (RegistryScope scope) affinity (pool_Name <$> candidates) else stored in
      match named bound candidates with
      | Some node => (Some node, p)
      | None =>
          let key := sticky_key scope affinity in
          match named (default "" (sticky p !! key)) candidates with
          | Some node => (Some node, p)
          | None =>
              let seed := default 0 (usedCount p !! key) in
              let p := p <| usedCount := <[key := i64 (seed + 1)]> (usedCount p) |> in
              match weighted_pick (Z.rem (i64 (seed + 1)) (totalWeight candidates)) candidates with
              | Some node => (Some node, p <| sticky := <[key := pool_Name node]> (sticky p) |>)
              | None => (None, p)
              end
          end
      end
  end.

(** [probeRecovery] up to the probe: the cooling node whose cooldown ends first
    among those not probed lately, and the attempt recorded. *)
Definition probe_candidate (p : Pool) (scope : string) (now : instant) : option (PoolNode * instant) :=
  let target := targetScope p scope in
  foldl (fun best node =>
    if negb (String.eqb (pool_Scope node) target) then best
    else match unhealthy p !! pool_Name node with
         | None => best
         | Some until =>
             if match lastProbe p !! pool_Name node with
                | Some last => Time.Sub now last <? nodeCooldown
                | None => false
                end then best
             else match best with
                  | None => Some (node, until)
                  | Some (_, earliest) => if Time.Before until earliest then Some (node, until) else best
                  end
         end) None (nodes p).

Definition probe_begin (current : Snapshot) (now : instant) (scope : string) (p : Pool) : option PoolNode * Pool :=
  let p := refreshNodes current p in
  match probe_candidate p (ToLower (TrimSpace scope)) now with
  | None => (None, p)
  | Some (node, _) => (Some node, p <| lastProbe := <[pool_Name node := now]> (lastProbe p) |>)
  end.

(** After the probe, whose error is [failed]. *)
Definition probe_end (node : PoolNode) (failed : bool) (now : instant) (p : Pool) : Pool :=
  let name := pool_Name node in
  if failed then
    let n := i64 (failures_of p name + 1) in
    p <| failures := <[name := n]> (failures p) |>
      <| lastError := <[name := "probe"]> (lastError p) |>
      <| unhealthy := <[name := Time.Add now (nodeCooldownFor n)]> (unhealthy p) |>
  else
    p <| unhealthy := delete name (unhealthy p) |>
      <| health := <[name := healthSkipThreshold]> (health p) |>
      <| failures := <[name := 0]> (failures p) |>
      <| lastError := delete name (lastError p) |>.

Definition ErrNoHealthyNode : go_error := Errorf "egress no healthy node for scope".

(** The scope's fallback: a node, the general proxy ([direct]), or an error. *)
Definition fall_back (current : Snapshot) (scope : string) : option PoolNode * bool * option go_error :=
  let fallback := Fallback current (RegistryScope scope) in
  if String.eqb (Mode fallback) "direct" then (None, true, None)
  else if String.eqb (Mode fallback) "fixed" then
    match byID current !! fallback_NodeID fallback with
    | Some fixed => (Some (nodeFromRegistry fixed), false, None)
    | None => (None, false, Some ErrNoHealthyNode)
    end
  else (None, false, Some ErrNoHealthyNode).

(** What happens around one [Pick]: the snapshots and clock readings it sees, the
    answer of its probe, and what the rest of the process does to the pool while
    the lock is free (before and after the probe). *)
Record surroundings := mkSurroundings {
  snap_of : nat -> Snapshot; clock_at : nat -> instant;
  autobind_at : nat -> string -> string -> list string -> string;
  probe_fails : PoolNode -> bool; others : nat -> Pool -> Pool }.

Definition Pick (w : surroundings) (scope affinity : string) (p : Pool)
    : option PoolNode * bool * option go_error * Pool :=
  let '(node, p) := pickNode (autobind_at w 0) (snap_of w 0) (clock_at w 0) scope affinity p in
  let '(node, p) :=
    match node with
    | Some _ => (node, p)
    | None =>
        let '(candidate, p) := probe_begin (snap_of w 1) (clock_at w 1) scope (others w 1 p) in
        match candidate with
        | None => (None, p)
        | Some c =>
            let failed := probe_fails w c in
            let p := probe_end c failed (clock_at w 2) (others w 2 p) in
            if failed then (None, p)
            else pickNode (autobind_at w 1) (snap_of w 3) (clock_at w 3) scope affinity (others w 3 p)
        end
    end in
  match node with
  | Some _ => (node, false, None, p)
  | None => (fall_back (snap_of w 4) scope, p)
  end.

(** ** Persisted health *)

(** An entry of the snapshot file; RFC 3339 keeps the seconds of an instant. *)
Record egressHealthEntry := mkEntry {
  entry_Name : string; entry_Health : float64; entry_Failures : Z;
  CooldownUntil : option instant; entry_LastError : string }.

Definition whole_seconds (t : instant) : instant := t / Second * Second.

Definition health_entry (p : Pool) (now : instant) (node : PoolNode) : egressHealthEntry :=
  mkEntry (pool_Name node) (score_of p (pool_Name node)) (failures_of p (pool_Name node))
    (match unhealthy p !! pool_Name node with
     | Some until => if Time.After until now then Some (whole_seconds until) else None
     | None => None
     end)
    (default "" (lastError p !! pool_Name node)).

(** [persistHealthLocked] with a snapshot file: the entries written, if any. *)
Definition persistHealth (now : instant) (p : Pool) : option (list egressHealthEntry) * Pool :=
  if negb (Time.IsZero (lastPersist p)) && (Time.Sub now (lastPersist p) <? healthPersistInterval)
  then (None, p)
  else
    let p := p <| lastPersist := now |> in
    (Some (health_entry p now <$> nodes p), p).

Definition restore_entry (now : instant) (p : Pool) (e : egressHealthEntry) : Pool :=
  let name := entry_Name e in
  if negb (existsb (fun n => String.eqb (pool_Name n) name) (nodes p)) then p
  else
    let p := p <| health := <[name := entry_Health e]> (health p) |>
               <| failures := <[name := entry_Failures e]> (failures p) |>
               <| lastError := if is_empty (entry_LastError e) then lastError p
                               else <[name := entry_LastError e]> (lastError p) |> in
    match CooldownUntil e with
    | Some until => if Time.After until now then p <| unhealthy := <[name := until]> (unhealthy p) |> else p
    | None => p
    end.

Definition restoreHealth (now : instant) (entries : list egressHealthEntry) (p : Pool) : Pool :=
  foldl (restore_entry now) p entries.

(** [New]: an empty pool, its nodes, and the health of the file if there is one. *)
Definition New (current : Snapshot) (now : instant) (file : option (list egressHealthEntry)) : Pool :=
  restoreHealth now (default [] file)
    (refreshNodes current (mkPool [] ∅ ∅ ∅ ∅ ∅ Time.zero ∅ ∅ emptySnapshot)).

(** * Cooldowns *)

Lemma double_cooldown_bounds rounds c :
  nodeCooldown <= c <= nodeCooldownMax -> nodeCooldown <= double_cooldown rounds c <= nodeCooldownMax.
Proof.
  revert c. induction rounds as [|rounds IH]; intros c Hc; cbn; [done|].
  destruct (nodeCooldownMax <=? c * 2) eqn:E; to_prop; [unfold nodeCooldown, nodeCooldownMax, Second, Minute; lia|].
  apply IH. unfold nodeCooldown, Second in *. lia.
Qed.

Lemma nodeCooldownFor_bounds n : nodeCooldown <= nodeCooldownFor n <= nodeCooldownMax.
Proof.
  unfold nodeCooldownFor. case_match; [unfold nodeCooldown, nodeCooldownMax, Second, Minute; lia|].
  apply double_cooldown_bounds. unfold nodeCooldown, nodeCooldownMax, Second, Minute. lia.
Qed.

(** The cooldown doubles with each failure up to its cap. *)
Lemma double_cooldown_spec rounds c :
  0 < c <= nodeCooldownMax -> double_cooldown rounds c = Z.min (c * 2 ^ Z.of_nat rounds) nodeCooldownMax.
Proof.
  revert c. induction rounds as [|rounds IH]; intros c Hc; cbn [double_cooldown]; [cbn; lia|].
  rewrite Nat2Z.inj_succ, Z.pow_succ_r by lia. pose proof (Z.pow_pos_nonneg 2 (Z.of_nat rounds) ltac:(lia) ltac:(lia)).
  destruct (nodeCooldownMax <=? c * 2) eqn:E; to_prop; [nia|]. rewrite IH by lia. f_equal. lia.
Qed.

Lemma nodeCooldownFor_spec n :
  1 <= n -> nodeCooldownFor n = Z.min (nodeCooldown * 2 ^ (n - 1)) nodeCooldownMax.
Proof.
  intros Hn. unfold nodeCooldownFor. destruct (n <=? 1) eqn:E; to_prop.
  - replace n with 1 by lia. reflexivity.
  - rewrite double_cooldown_spec by (unfold nodeCooldown, nodeCooldownMax, Second, Minute; lia).
    by rewrite Z2Nat.id by lia.
Qed.

(** * What a pick may return *)

(** A node of the snapshot that serves the scope and is not cooling down. *)
Definition eligible (current : Snapshot) (now : instant) (scope : string) (p : Pool) (n : PoolNode) : Prop :=
  n ∈ candidates_of (refreshNodes current p) (ToLower (TrimSpace scope)) now.

Lemma eligible_spec current now scope p n :
  eligible current now scope p n <->
  (exists node, node ∈ Nodes current /\ n = nodeFromRegistry node) /\
  pool_Scope n = targetScope (refreshNodes current p) (ToLower (TrimSpace scope)) /\ degraded p (pool_Name n) now = false.
Proof.
  unfold eligible, candidates_of. rewrite list_elem_of_In, filter_In, <- list_elem_of_In, andb_true_iff, negb_true_iff, String.eqb_eq.
  change (nodes (refreshNodes current p)) with (nodeFromRegistry <$> Nodes current). rewrite list_elem_of_fmap.
  change (degraded (refreshNodes current p)) with (degraded p).
  split; [intros [(node & -> & Hn) [? ?]]; eauto|intros [(node & Hn & ->) [? ?]]; eauto].
Qed.

Lemma weighted_pick_in threshold c rest : exists n, weighted_pick threshold (c :: rest) = Some n /\ n ∈ c :: rest.
Proof.
  revert threshold c. induction rest as [|d rest IH]; intros threshold c; cbn [weighted_pick].
  { exists c. split; [by case_match|by left]. }
  case_match; [exists c; split; [done|by left]|]. destruct (IH (threshold - Weight c) d) as (n & E & Hn).
  cbn [weighted_pick] in E. rewrite E. exists n. split; [done|by right].
Qed.

Lemma named_in name candidates n : named name candidates = Some n -> n ∈ candidates /\ pool_Name n = name.
Proof.
  unfold named. destruct (is_empty name); [done|]. intros [Hin E]%find_some. split; [by apply list_elem_of_In|by apply String.eqb_eq].
Qed.

Lemma named_some name candidates n :
  n ∈ candidates -> pool_Name n = name -> name <> ""%string -> exists m, named name candidates = Some m.
Proof.
  intros Hn E Hne. unfold named. rewrite (proj2 (is_empty_false _) Hne). destruct (List.find _ _) as [m|] eqn:Ef; [by exists m|].
  pose proof (find_none _ _ Ef n (proj1 (list_elem_of_In _ _) Hn)) as Hx. cbn in Hx. by rewrite E, String.eqb_refl in Hx.
Qed.

Lemma pickNode_spec autobind current now scope affinity p :
  match (pickNode autobind current now scope affinity p).1 with
  | Some n => eligible current now scope p n
  | None => forall n, ~ eligible current now scope p n
  end.
Proof.
  unfold pickNode, eligible. destruct (candidates_of _ _ _) as [|c rest] eqn:Ec.
  { intros n. apply not_elem_of_nil. }
  set (bound := if is_empty _ then _ else _). destruct (named bound _) as [n|] eqn:En; [by apply named_in in En as [? _]|].
  destruct (named (default _ _) _) as [n|] eqn:Es; [by apply named_in in Es as [? _]|].
  destruct (weighted_pick_in (Z.rem (i64 (default 0 (usedCount (refreshNodes current p) !! sticky_key (ToLower (TrimSpace scope)) affinity) + 1))
    (totalWeight (c :: rest))) c rest) as (n & E & Hn). by rewrite E.
Qed.

(** An account bound to a node that can serve gets that node. *)
Lemma pickNode_bound autobind current now scope affinity p n :
  eligible current now scope p n -> pool_Name n <> ""%string ->
  Binding current (RegistryScope (ToLower (TrimSpace scope))) affinity = pool_Name n ->
  exists m, (pickNode autobind current now scope affinity p).1 = Some m /\ pool_Name m = pool_Name n.
Proof.
  unfold eligible, pickNode. intros Hn Hne Hb. destruct (candidates_of _ _ _) as [|c rest] eqn:Ec; [by apply not_elem_of_nil in Hn|].
  change (snap (refreshNodes current p)) with current. rewrite Hb, (proj2 (is_empty_false _) Hne).
  destruct (named_some (pool_Name n) (c :: rest) n Hn eq_refl Hne) as [m Hm]. rewrite Hm. exists m.
  by apply named_in in Hm as [_ ?].
Qed.

(** Nothing binds the account to a node that can serve now. *)
Definition unbound (autobind : string -> string -> list string -> string) (current : Snapshot) (now : instant)
    (scope affinity : string) (p : Pool) : Prop :=
  let candidates := candidates_of (refreshNodes current p) (ToLower (TrimSpace scope)) now in
  let stored := Binding current (RegistryScope (ToLower (TrimSpace scope))) affinity in
  named (if is_empty stored then autobind (RegistryScope (ToLower (TrimSpace scope))) affinity (pool_Name <$> candidates)
         else stored) candidates = None.

Lemma pickNode_unbound autobind current now scope affinity p n p' :
  unbound autobind current now scope affinity p -> pickNode autobind current now scope affinity p = (Some n, p') ->
  default "" (sticky p' !! sticky_key (ToLower (TrimSpace scope)) affinity) = pool_Name n.
Proof.
  unfold unbound, pickNode. destruct (candidates_of _ _ _) as [|c rest] eqn:Ec; [done|]. intros Hu.
  change (snap (refreshNodes current p)) with current. cbn zeta in Hu. rewrite Hu.
  destruct (named (default _ _) _) as [m|] eqn:Es.
  { intros [= <- <-]. apply named_in in Es as [_ E]. done. }
  destruct (weighted_pick _ _) as [m|]; [|done]. intros [= <- <-]. cbn. by rewrite lookup_insert_eq.
Qed.

(** An account no node is bound to keeps the node it was given: a later pick,
    whatever happened to the pool, the snapshot and other accounts meanwhile, gives
    it again as long as it can serve. *)
Lemma pickNode_sticky ab ab' current current' now now' scope affinity p p' q n :
  unbound ab current now scope affinity p -> pickNode ab current now scope affinity p = (Some n, p') ->
  pool_Name n <> ""%string ->
  sticky q !! sticky_key (ToLower (TrimSpace scope)) affinity = sticky p' !! sticky_key (ToLower (TrimSpace scope)) affinity ->
  unbound ab' current' now' scope affinity q -> (exists m, eligible current' now' scope q m /\ pool_Name m = pool_Name n) ->
  exists m, (pickNode ab' current' now' scope affinity q).1 = Some m /\ pool_Name m = pool_Name n.
Proof.
  intros Hu Hp Hne Hk Hu' (m & Hm & Em). pose proof (pickNode_unbound _ _ _ _ _ _ _ _ Hu Hp) as Hs.
  unfold unbound in Hu'. unfold pickNode, eligible in *. destruct (candidates_of (refreshNodes current' q) _ _) as [|c rest] eqn:Ec;
    [by apply not_elem_of_nil in Hm|].
  change (snap (refreshNodes current' q)) with current'. cbn zeta in Hu'. rewrite Hu'.
  change (sticky (refreshNodes current' q)) with (sticky q). rewrite Hk, Hs.
  destruct (named_some (pool_Name n) (c :: rest) m Hm Em Hne) as [k Hk']. rewrite Hk'. exists k.
  by apply named_in in Hk' as [_ ?].
Qed.

(** ** What a pick may return *)

(** A node is kept out while it has a score other than zero, not at the threshold or
    above, and the instant recorded for it has not come; a score of zero counts as
    never probed, whatever is recorded. *)
Definition kept_out (p : Pool) (name : string) (now : instant) : Prop :=
  f64_leb healthSkipThreshold (score_of p name) = false /\ f64_eqb (score_of p name) f64_zero = false /\ now < until_of p name.

(** A node of the snapshot that serves the scope and is not kept out. *)
Definition serves (current : Snapshot) (now : instant) (scope : string) (p : Pool) (n : PoolNode) : Prop :=
  (exists node, node ∈ Nodes current /\ n = nodeFromRegistry node) /\
  pool_Scope n = targetScope (refreshNodes current p) (ToLower (TrimSpace scope)) /\
  ~ kept_out p (pool_Name n) now.

Lemma serves_eligible current now scope p n : serves current now scope p n <-> eligible current now scope p n.
Proof.
  rewrite eligible_spec. unfold serves, kept_out.
  assert (degraded p (pool_Name n) now = false <->
    ~ (f64_leb healthSkipThreshold (score_of p (pool_Name n)) = false /\ f64_eqb (score_of p (pool_Name n)) f64_zero = false /\
       now < until_of p (pool_Name n))) as ->; [|done].
  unfold degraded. destruct (f64_leb _ _); cbn [orb]; [naive_solver|]. destruct (f64_eqb _ _); [naive_solver|].
  rewrite <- not_true_iff_false, Time.Before_true. naive_solver.
Qed.

(** A node of the scope with a cooldown recorded and no probe in the last thirty
    seconds. *)
Definition probeable (p : Pool) (scope : string) (now : instant) (n : PoolNode) (until : instant) : Prop :=
  pool_Scope n = targetScope p scope /\ unhealthy p !! pool_Name n = Some until /\
  forall last, lastProbe p !! pool_Name n = Some last -> nodeCooldown <= Time.Sub now last.

(** The probe goes to the one whose cooldown ends first. *)
Lemma probe_candidate_spec p scope now :
  match probe_candidate p scope now with
  | Some (n, until) => n ∈ nodes p /\ probeable p scope now n until /\
      forall m u, m ∈ nodes p -> probeable p scope now m u -> until <= u
  | None => forall m u, m ∈ nodes p -> ~ probeable p scope now m u
  end.
Proof.
  unfold probe_candidate. induction (nodes p) as [|x l IH] using rev_ind; [intros m u H; by apply not_elem_of_nil in H|].
  rewrite foldl_app. cbn [foldl]. set (best := foldl _ None l) in *.
  assert (forall m u, m ∈ l ++ [x] -> probeable p scope now m u -> m ∈ l \/ m = x) as Hsplit.
  { intros m u Hm _. by apply elem_of_app in Hm as [?|?%list_elem_of_singleton]; [left|right]. }
  assert ((forall u, ~ probeable p scope now x u) -> match best with
    | Some (n, until) => n ∈ l ++ [x] /\ probeable p scope now n until /\ forall m u, m ∈ l ++ [x] -> probeable p scope now m u -> until <= u
    | None => forall m u, m ∈ l ++ [x] -> ~ probeable p scope now m u end) as Hskip.
  { intros Hx. destruct best as [[n until]|].
    - destruct IH as (Hn & Hp & Hall). split_and!; [apply elem_of_app; by left|done|]. intros m u Hm Hpm.
      destruct (Hsplit m u Hm Hpm) as [?| ->]; [by apply (Hall m)|by destruct (Hx u)].
    - intros m u Hm Hpm. destruct (Hsplit m u Hm Hpm) as [Hl| ->]; [by apply (IH m u)|by destruct (Hx u)]. }
  destruct (String.eqb_spec (pool_Scope x) (targetScope p scope)) as [Hsc|Hsc]; cbn [negb]; [|apply Hskip; by intros u (? & _)].
  destruct (unhealthy p !! pool_Name x) as [until|] eqn:Eu; [|apply Hskip; intros u (_ & ? & _); congruence].
  destruct (match lastProbe p !! pool_Name x with Some last => Time.Sub now last <? nodeCooldown | None => false end) eqn:El.
  { apply Hskip. intros u (_ & _ & Hlast). destruct (lastProbe p !! pool_Name x) as [last|]; [|done].
    apply Z.ltb_lt in El. specialize (Hlast last eq_refl). lia. }
  assert (probeable p scope now x until) as Hx.
  { split_and!; [done..|]. intros last Hlast. rewrite Hlast in El. by apply Z.ltb_ge in El. }
  assert (forall u, probeable p scope now x u -> u = until) as Honly by (intros u (_ & ? & _); congruence).
  destruct best as [[n earliest]|]; [destruct (Time.Before until earliest) eqn:Eb|].
  - destruct IH as (Hn & Hp & Hall). split_and!; [apply elem_of_app; right; by left|done|]. intros m u Hm Hpm. apply Time.Before_true in Eb.
    destruct (Hsplit m u Hm Hpm) as [Hl| ->]; [specialize (Hall m u Hl Hpm); lia|by rewrite (Honly u Hpm)].
  - destruct IH as (Hn & Hp & Hall). split_and!; [apply elem_of_app; by left|done|]. intros m u Hm Hpm. apply Time.Before_false in Eb.
    destruct (Hsplit m u Hm Hpm) as [Hl| ->]; [by apply (Hall m)|by rewrite (Honly u Hpm)].
  - split_and!; [apply elem_of_app; right; by left|done|]. intros m u Hm Hpm.
    destruct (Hsplit m u Hm Hpm) as [Hl| ->]; [by destruct (IH m u)|by rewrite (Honly u Hpm)].
Qed.

(** The pool in which the probe of a pick that found no node chooses, and the pool
    the second pick sees once the probe of [c] succeeded. *)
Definition at_probe (w : surroundings) (p : Pool) : Pool :=
  refreshNodes (snap_of w 1) (others w 1 (refreshNodes (snap_of w 0) p)).

Definition after_probe (w : surroundings) (p : Pool) (c : PoolNode) : Pool :=
  let q := at_probe w p in
  others w 3 (probe_end c false (clock_at w 2) (others w 2 (q <| lastProbe := <[pool_Name c := clock_at w 1]> (lastProbe q) |>))).

(** The node probed. *)
Definition probed_node (w : surroundings) (scope : string) (p : Pool) : option PoolNode :=
  fst <$> probe_candidate (at_probe w p) (ToLower (TrimSpace scope)) (clock_at w 1).

(** No node serves, and no probe changes that: there is none to probe, or the probe
    fails, or no node serves after it either. *)
Definition no_node (w : surroundings) (scope : string) (p : Pool) : Prop :=
  (forall m, ~ serves (snap_of w 0) (clock_at w 0) scope p m) /\
  match probed_node w scope p with
  | Some c => probe_fails w c = true \/ forall m, ~ serves (snap_of w 3) (clock_at w 3) scope (after_probe w p c) m
  | None => forall m u, m ∈ nodes (at_probe w p) -> ~ probeable (at_probe w p) (ToLower (TrimSpace scope)) (clock_at w 1) m u
  end.

Lemma pickNode_none autobind current now scope affinity p :
  (forall m, ~ serves current now scope p m) -> pickNode autobind current now scope affinity p = (None, refreshNodes current p).
Proof.
  intros H. unfold pickNode. destruct (candidates_of _ _ _) as [|c rest] eqn:Ec; [done|]. exfalso. apply (H c), serves_eligible.
  unfold eligible. rewrite Ec. by left.
Qed.

Lemma pickNode_serves autobind current now scope affinity p :
  match (pickNode autobind current now scope affinity p).1 with
  | Some n => serves current now scope p n
  | None => forall n, ~ serves current now scope p n
  end.
Proof.
  pose proof (pickNode_spec autobind current now scope affinity p) as H.
  destruct (pickNode autobind current now scope affinity p).1 as [n|]; [by apply serves_eligible|intros n Hn; by apply (H n), serves_eligible].
Qed.

(** The node of a pick, before the fallback. *)
Definition found_node (w : surroundings) (scope affinity : string) (p : Pool) : option PoolNode :=
  match (pickNode (autobind_at w 0) (snap_of w 0) (clock_at w 0) scope affinity p).1 with
  | Some n => Some n
  | None =>
      match probed_node w scope p with
      | Some c =>
          if probe_fails w c then None
          else (pickNode (autobind_at w 1) (snap_of w 3) (clock_at w 3) scope affinity (after_probe w p c)).1
      | None => None
      end
  end.

Lemma Pick_found w scope affinity p :
  (Pick w scope affinity p).1 = match found_node w scope affinity p with Some n => (Some n, false, None) | None => fall_back (snap_of w 4) scope end.
Proof.
  unfold Pick, found_node. pose proof (pickNode_serves (autobind_at w 0) (snap_of w 0) (clock_at w 0) scope affinity p) as H0.
  destruct (pickNode (autobind_at w 0) _ _ _ _ _) as [[n|] p1] eqn:E0; cbn [fst] in H0 |- *; [done|].
  rewrite (pickNode_none _ _ _ _ _ _ H0) in E0. injection E0 as <-. unfold probe_begin, probed_node. cbv zeta. fold (at_probe w p).
  destruct (probe_candidate _ _ _) as [[c until]|]; cbn [fmap option_fmap option_map fst]; [|done].
  destruct (probe_fails w c); [done|]. fold (after_probe w p c).
  by destruct (pickNode (autobind_at w 1) _ _ _ _ _) as [[n|] p3].
Qed.

(** A node that serves the scope after a probe brought a node back. *)
Definition revived (w : surroundings) (scope : string) (p : Pool) (n : PoolNode) : Prop :=
  let q := at_probe w p in
  let scope' := ToLower (TrimSpace scope) in
  (forall m, ~ serves (snap_of w 0) (clock_at w 0) scope p m) /\
  exists c until, (c ∈ nodes q) /\ probeable q scope' (clock_at w 1) c until /\
    (forall m u, m ∈ nodes q -> probeable q scope' (clock_at w 1) m u -> until <= u) /\
    probe_fails w c = false /\ serves (snap_of w 3) (clock_at w 3) scope (after_probe w p c) n.

(** What the scope's fallback says. *)
Definition fallback_says (current : Snapshot) (scope : string) (node : option PoolNode) (direct : bool) (err : option go_error) : Prop :=
  let fallback := Fallback current (RegistryScope scope) in
  let fixed := byID current !! fallback_NodeID fallback in
  match node, direct, err with
  | Some n, false, None => Mode fallback = "fixed"%string /\ (nodeFromRegistry <$> fixed) = Some n
  | None, true, None => Mode fallback = "direct"%string
  | None, false, Some e => e = ErrNoHealthyNode /\ Mode fallback <> "direct"%string /\ (Mode fallback = "fixed"%string -> fixed = None)
  | _, _, _ => False
  end.

Lemma fall_back_says current scope :
  let '(node, direct, err) := fall_back current scope in fallback_says current scope node direct err.
Proof.
  unfold fall_back, fallback_says. destruct (String.eqb_spec (Mode (Fallback current (RegistryScope scope))) "direct"); [done|].
  destruct (String.eqb_spec (Mode (Fallback current (RegistryScope scope))) "fixed"); [|done].
  destruct (byID current !! _) as [fixed|]; done.
Qed.

Lemma found_node_spec w scope affinity p :
  match found_node w scope affinity p with
  | Some n => serves (snap_of w 0) (clock_at w 0) scope p n \/ revived w scope p n
  | None => no_node w scope p
  end.
Proof.
  unfold found_node, revived, no_node. pose proof (pickNode_serves (autobind_at w 0) (snap_of w 0) (clock_at w 0) scope affinity p) as H0.
  destruct (pickNode (autobind_at w 0) _ _ _ _ _).1 as [n|]; [by left|]. unfold probed_node.
  pose proof (probe_candidate_spec (at_probe w p) (ToLower (TrimSpace scope)) (clock_at w 1)) as Hc.
  destruct (probe_candidate _ _ _) as [[c until]|]; cbn [fmap option_fmap option_map fst]; [|by split].
  destruct (probe_fails w c) eqn:Ef; [by split; [|left]|].
  pose proof (pickNode_serves (autobind_at w 1) (snap_of w 3) (clock_at w 3) scope affinity (after_probe w p c)) as H3.
  destruct (pickNode (autobind_at w 1) _ _ _ _ _).1 as [n|]; [|by split; [|right]]. right. split; [done|].
  exists c, until. by destruct Hc as (? & ? & ?).
Qed.

(** C35: [Pick] returns a node of the snapshot that serves the scope and is not
    kept out whenever there is one, the node bound to the account if it is among
    them.  Else it probes a node of the scope, the one whose recorded cooldown ends
    first of those not probed in the last thirty seconds; if that succeeds and a node
    serves the scope in the pool then, it returns one.  Else the scope's fallback
    decides: its fixed node, the general proxy only where the fallback is direct, an
    error otherwise. *)
Theorem pick_fails_closed w scope affinity p :
  let '(node, direct, err) := fst (Pick w scope affinity p) in
  ((exists n, node = Some n /\ direct = false /\ err = None /\
      (serves (snap_of w 0) (clock_at w 0) scope p n \/ revived w scope p n)) \/
   no_node w scope p /\ fallback_says (snap_of w 4) scope node direct err) /\
  ((exists n, serves (snap_of w 0) (clock_at w 0) scope p n) ->
     exists n, node = Some n /\ serves (snap_of w 0) (clock_at w 0) scope p n) /\
  (forall n, serves (snap_of w 0) (clock_at w 0) scope p n -> pool_Name n <> ""%string ->
     Binding (snap_of w 0) (RegistryScope (ToLower (TrimSpace scope))) affinity = pool_Name n ->
     exists m, node = Some m /\ pool_Name m = pool_Name n).
Proof.
  rewrite Pick_found. pose proof (found_node_spec w scope affinity p) as Hf.
  pose proof (fall_back_says (snap_of w 4) scope) as Hs. destruct (fall_back (snap_of w 4) scope) as [[fnode fdirect] ferr].
  assert (forall m, serves (snap_of w 0) (clock_at w 0) scope p m -> exists n, found_node w scope affinity p = Some n /\
    (pickNode (autobind_at w 0) (snap_of w 0) (clock_at w 0) scope affinity p).1 = Some n /\ serves (snap_of w 0) (clock_at w 0) scope p n) as Hfirst.
  { intros m Hm. unfold found_node. pose proof (pickNode_serves (autobind_at w 0) (snap_of w 0) (clock_at w 0) scope affinity p) as H0.
    destruct (pickNode (autobind_at w 0) _ _ _ _ _).1 as [n|]; [by exists n|by destruct (H0 m)]. }
  destruct (found_node w scope affinity p) as [n|]; split_and!.
  - left. by exists n.
  - intros [m Hm]. destruct (Hfirst m Hm) as (k & [= <-] & _ & Hk). by exists n.
  - intros m Hm Hne Hb. destruct (Hfirst m Hm) as (k & [= <-] & Hk & _). exists n. split; [done|].
    destruct (pickNode_bound (autobind_at w 0) _ _ _ affinity _ m (proj1 (serves_eligible _ _ _ _ m) Hm) Hne Hb) as (k & Ek & ?). congruence.
  - by right.
  - intros [m Hm]. by destruct (Hfirst m Hm) as (? & ? & _).
  - intros m Hm. by destruct (Hfirst m Hm) as (? & ? & _).
Qed.

(** * The pool over time *)

(** What happened to nodes, in the order the lock was taken: failures recorded,
    recovery probes begun. *)
Inductive pool_entry := Failed (name : string) (at_ : instant) | Probed (name : string) (at_ : instant).

Definition is_failure (outcome : Outcome) : bool :=
  match outcome with OutcomeTransportError | OutcomeServerError | OutcomeChallenge => true | _ => false end.

(** A pool without a snapshot file, and any sequence of its operations with any
    clock readings: a probe reads the clock before it takes the lock, so readings
    need not follow the order of the operations. *)
Inductive pool_run : Pool -> list pool_entry -> Prop :=
| run_new current now : pool_run (New current now None) []
| run_pick p log ab current now scope affinity :
    pool_run p log -> pool_run (pickNode ab current now scope affinity p).2 log
| run_probe_begin p log current now scope :
    pool_run p log ->
    pool_run (probe_begin current now scope p).2
      (match (probe_begin current now scope p).1 with Some n => log ++ [Probed (pool_Name n) now] | None => log end)
| run_probe_end p log n failed now :
    pool_run p log ->
    pool_run (probe_end n failed now p) (if failed : bool then log ++ [Failed (pool_Name n) now] else log)
| run_feedback p log name outcome now :
    pool_run p log ->
    pool_run (Feedback name outcome now p)
      (if is_failure outcome && negb (is_empty name) then log ++ [Failed name now] else log)
| run_persist p log now : pool_run p log -> pool_run (persistHealth now p).2 log.

(** The last probe of a node. *)
Definition last_probe (name : string) (log : list pool_entry) : option instant :=
  foldl (fun last e => match e with
                       | Probed n t => if String.eqb n name then Some t else last
                       | Failed _ _ => last
                       end) None log.

Lemma last_probe_snoc name log e :
  last_probe name (log ++ [e])
  = match e with Probed n t => if String.eqb n name then Some t else last_probe name log | Failed _ _ => last_probe name log end.
Proof. unfold last_probe. by rewrite foldl_app. Qed.

Definition spaced (log : list pool_entry) : Prop :=
  forall l1 l2 name t t', log = l1 ++ Probed name t' :: l2 -> last_probe name l1 = Some t -> t + nodeCooldown <= t'.

Lemma spaced_snoc log e :
  spaced log ->
  (forall name t t', e = Probed name t' -> last_probe name log = Some t -> t + nodeCooldown <= t') -> spaced (log ++ [e]).
Proof.
  intros Hs He l1 l2 name t t' E Hl. destruct l2 as [|x l2 _] using rev_ind.
  - apply app_inj_tail in E as [-> ->]. by eapply He.
  - rewrite app_comm_cons, app_assoc in E. apply app_inj_tail in E as [-> _]. by eapply Hs.
Qed.

Lemma probe_candidate_lately p scope now n until :
  probe_candidate p scope now = Some (n, until) ->
  match lastProbe p !! pool_Name n with Some last => last + nodeCooldown <= now | None => True end.
Proof.
  unfold probe_candidate.
  set (lately := fun n : PoolNode => match lastProbe p !! pool_Name n with Some last => last + nodeCooldown <= now | None => True end).
  assert (forall l best, match best with Some (n, _) => lately n | None => True end ->
    match foldl (fun best node => if negb (String.eqb (pool_Scope node) (targetScope p scope)) then best
      else match unhealthy p !! pool_Name node with
           | None => best
           | Some until =>
               if match lastProbe p !! pool_Name node with Some last => Time.Sub now last <? nodeCooldown | None => false end then best
               else match best with
                    | None => Some (node, until)
                    | Some (_, earliest) => if Time.Before until earliest then Some (node, until) else best
                    end
           end) best l with Some (n, _) => lately n | None => True end) as H.
  { induction l as [|node l IH]; intros best Hb; cbn [foldl]; [done|]. apply IH.
    destruct (negb (String.eqb (pool_Scope node) (targetScope p scope))); [exact Hb|].
    destruct (unhealthy p !! pool_Name node) as [u|]; [|exact Hb].
    destruct (match lastProbe p !! pool_Name node with Some last => Time.Sub now last <? nodeCooldown | None => false end) eqn:El; [exact Hb|].
    assert (lately node) as Hn.
    { unfold lately. destruct (lastProbe p !! pool_Name node) as [last|]; [|done]. to_prop.
      apply Time.Sub_ge in El; [lia|]. unfold nodeCooldown, Second, max_int64. lia. }
    destruct best as [[m e]|]; [|exact Hn]. destruct (Time.Before u e); [exact Hn|exact Hb]. }
  intros E. specialize (H (nodes p) None I). rewrite E in H. exact H.
Qed.

Definition cooldowns_earned (p : Pool) (log : list pool_entry) : Prop :=
  forall name until, unhealthy p !! name = Some until ->
    exists t, Failed name t ∈ log /\ until <= t + nodeCooldownMax.

Lemma earned_add p p' log name now n :
  unhealthy p' = <[name := Time.Add now (nodeCooldownFor n)]> (unhealthy p) ->
  cooldowns_earned p log -> cooldowns_earned p' (log ++ [Failed name now]).
Proof.
  intros E Hc m until Hm. rewrite E in Hm. apply lookup_insert_Some in Hm as [[<- <-]|[_ Hm]].
  - exists now. split; [apply elem_of_app; right; by left|]. unfold Time.Add. pose proof (nodeCooldownFor_bounds n). lia.
  - destruct (Hc m until Hm) as (t & Ht & ?). exists t. split; [by apply elem_of_app; left|done].
Qed.

Lemma earned_less p p' log log' :
  unhealthy p' ⊆ unhealthy p -> (forall e, e ∈ log -> e ∈ log') -> cooldowns_earned p log -> cooldowns_earned p' log'.
Proof.
  intros Hs Hl Hc m until Hm. destruct (Hc m until) as (t & Ht & ?); [by eapply lookup_weaken|]. exists t. auto.
Qed.

Lemma pickNode_quiet ab current now scope affinity p :
  let p' := (pickNode ab current now scope affinity p).2 in
  unhealthy p' = unhealthy p /\ lastProbe p' = lastProbe p /\ health p' = health p.
Proof.
  unfold pickNode. destruct (candidates_of _ _ _); [done|]. destruct (named _ _); [done|]. destruct (named _ _); [done|].
  by destruct (weighted_pick _ _).
Qed.

Lemma Feedback_quiet name outcome now p :
  lastProbe (Feedback name outcome now p) = lastProbe p /\
  (if is_failure outcome && negb (is_empty name)
   then exists n, unhealthy (Feedback name outcome now p) = <[name := Time.Add now (nodeCooldownFor n)]> (unhealthy p)
   else unhealthy (Feedback name outcome now p) ⊆ unhealthy p).
Proof.
  unfold Feedback. destruct (is_empty name); [by rewrite andb_false_r|].
  destruct outcome; cbn [is_failure andb negb]; try (split; [done|by eexists]); try done.
  case_match; (split; [done|]); [apply delete_subseteq|done].
Qed.

Lemma pool_run_invariant p log :
  pool_run p log ->
  cooldowns_earned p log /\ (forall name, lastProbe p !! name = last_probe name log) /\ spaced log.
Proof.
  induction 1 as [current now|p log ab current now scope affinity _ (Hc & Hl & Hs)|p log current now scope _ (Hc & Hl & Hs)
    |p log n failed now _ (Hc & Hl & Hs)|p log name outcome now _ (Hc & Hl & Hs)|p log now _ (Hc & Hl & Hs)].
  - split_and!; [|intros; apply lookup_empty|].
    { intros name u H. change ((∅ : gmap string instant) !! name = Some u) in H. by rewrite lookup_empty in H. }
    intros l1 l2 ? ? ? E. by destruct l1.
  - destruct (pickNode_quiet ab current now scope affinity p) as (Eu & El & _).
    split_and!; [apply (earned_less p _ log); [by rewrite Eu|done|done]|intros; by rewrite El|done].
  - unfold probe_begin. destruct (probe_candidate _ _ _) as [[n until]|] eqn:Ec; [|exact (conj Hc (conj Hl Hs))]. cbn [fst snd].
    apply probe_candidate_lately in Ec. change (lastProbe (refreshNodes current p)) with (lastProbe p) in Ec.
    split_and!.
    + apply (earned_less p _ log); [done| |done]. intros e He. by apply elem_of_app; left.
    + intros name. rewrite last_probe_snoc. cbn. destruct (String.eqb (pool_Name n) name) eqn:E; to_prop.
      * subst. apply lookup_insert_eq.
      * rewrite lookup_insert_ne by done. apply Hl.
    + apply spaced_snoc; [done|]. intros name t t' [= <- <-] Hlast. by rewrite Hl, Hlast in Ec.
  - destruct failed; cbn [probe_end].
    + split_and!; [by eapply (earned_add p)|intros; rewrite last_probe_snoc; apply Hl|by apply spaced_snoc].
    + split_and!; [|apply Hl|done]. apply (earned_less p _ log); [apply delete_subseteq|done|done].
  - destruct (Feedback_quiet name outcome now p) as [El Hu]. destruct (is_failure outcome && negb (is_empty name)).
    + destruct Hu as [k Hu].
      split_and!; [by eapply (earned_add p)|intros; rewrite last_probe_snoc, El; apply Hl|by apply spaced_snoc].
    + split_and!; [by apply (earned_less p _ log)|intros; by rewrite El|done].
  - unfold persistHealth. case_match; exact (conj Hc (conj Hl Hs)).
Qed.

Lemma degraded_until p name now : degraded p name now = true -> now < until_of p name.
Proof. unfold degraded. case_match; [done|]. by rewrite Time.Before_true. Qed.

(** Whatever picks, probes and reports happen with whatever clock readings, a
    node is kept out only within ten minutes of a failure recorded for it, from
    whatever its score and however many its failures; successive probes of one node
    are thirty seconds apart or more; and while a node of the scope may serve, a pick
    returns one. *)
Theorem exclusion_is_bounded p log :
  pool_run p log ->
  (forall name now, 0 < now -> (forall t, Failed name t ∈ log -> t + nodeCooldownMax <= now) -> degraded p name now = false) /\
  spaced log /\
  (forall ab current now scope affinity n, 0 < now ->
     n ∈ nodeFromRegistry <$> Nodes current ->
     pool_Scope n = targetScope (refreshNodes current p) (ToLower (TrimSpace scope)) ->
     (forall t, Failed (pool_Name n) t ∈ log -> t + nodeCooldownMax <= now) ->
     is_Some (pickNode ab current now scope affinity p).1).
Proof.
  intros Hr. destruct (pool_run_invariant p log Hr) as (Hc & _ & Hs).
  assert (forall name now, 0 < now -> (forall t, Failed name t ∈ log -> t + nodeCooldownMax <= now) -> degraded p name now = false) as Hd.
  { intros name now Hpos Ht. destruct (degraded p name now) eqn:Ed; [|done]. apply degraded_until in Ed. unfold until_of in Ed.
    destruct (unhealthy p !! name) as [u|] eqn:Eu; cbn in Ed; [|unfold Time.zero in Ed; lia].
    destruct (Hc name u Eu) as (t & Hin & ?). specialize (Ht t Hin). lia. }
  split_and!; [done..|]. intros ab current now scope affinity n Hpos Hn Hsc Ht.
  pose proof (pickNode_spec ab current now scope affinity p) as Hp.
  destruct (pickNode ab current now scope affinity p).1 as [m|]; [done|]. exfalso. apply (Hp n), eligible_spec.
  apply list_elem_of_fmap in Hn as (node & -> & Hn). split_and!; [by exists node|done|by apply Hd].
Qed.

(** A success ends the cooldown of a node that was kept out. *)
Lemma success_ends_cooldown p name now now' t :
  name <> ""%string -> not_nan (score_of p name) = true -> degraded p name now = true -> 0 <= t ->
  degraded (Feedback name OutcomeSuccess now' p) name t = false.
Proof.
  intros Hne Hnan Hd Ht. unfold Feedback. rewrite (proj2 (is_empty_false _) Hne).
  assert (f64_ltb (score_of p name) healthSkipThreshold && negb (f64_eqb (score_of p name) f64_zero) = true) as ->.
  { unfold degraded in Hd. destruct (f64_leb _ _ || f64_eqb _ _) eqn:E; [done|]. apply orb_false_iff in E as [E1 E2].
    rewrite f64_ltb_leb, E1, E2; [done|done|]. vm_compute. reflexivity. }
  unfold degraded, until_of. case_match; [done|]. cbn [unhealthy set_field update_with]. rewrite lookup_delete_eq.
  apply Time.Before_false. unfold Time.zero. cbn. lia.
Qed.

(** ** Health survives a restart *)

Definition known (p : Pool) (name : string) : bool := existsb (fun n => String.eqb (pool_Name n) name) (nodes p).

(** The cooldown a restart at [now'] restores from a snapshot written at [now]. *)
Definition restored_until (p : Pool) (now now' : instant) (name : string) : option instant :=
  match unhealthy p !! name with
  | Some until => if Time.After until now && Time.After (whole_seconds until) now' then Some (whole_seconds until) else None
  | None => None
  end.

Lemma restore_entry_spec p now now' n q :
  known q (pool_Name n) = true ->
  let q' := restore_entry now' q (health_entry p now n) in
  nodes q' = nodes q /\
  health q' = <[pool_Name n := score_of p (pool_Name n)]> (health q) /\
  failures q' = <[pool_Name n := failures_of p (pool_Name n)]> (failures q) /\
  unhealthy q' = (match restored_until p now now' (pool_Name n) with
                  | Some until => <[pool_Name n := until]> (unhealthy q)
                  | None => unhealthy q
                  end).
Proof.
  intros Hk. unfold restore_entry. change (existsb _ _) with (known q (pool_Name n)). rewrite Hk. cbn [negb].
  unfold restored_until, health_entry. cbn [entry_Name entry_Health entry_Failures CooldownUntil entry_LastError].
  destruct (unhealthy p !! pool_Name n) as [u|]; [|done]. destruct (Time.After u now); [|done]. cbn [andb].
  by destruct (Time.After (whole_seconds u) now').
Qed.

Lemma restore_unknown p now now' n q :
  known q (pool_Name n) = false -> restore_entry now' q (health_entry p now n) = q.
Proof. intros Hk. unfold restore_entry. change (existsb _ _) with (known q (pool_Name n)). by rewrite Hk. Qed.

Lemma restore_entries p now now' l q name :
  let q' := foldl (restore_entry now') q (health_entry p now <$> l) in
  nodes q' = nodes q /\
  (name ∈ pool_Name <$> l -> known q name = true ->
     health q' !! name = Some (score_of p name) /\ failures q' !! name = Some (failures_of p name) /\
     (unhealthy q !! name = None \/ unhealthy q !! name = restored_until p now now' name ->
      unhealthy q' !! name = restored_until p now now' name)) /\
  (name ∉ pool_Name <$> l \/ known q name = false ->
     health q' !! name = health q !! name /\ failures q' !! name = failures q !! name /\
     unhealthy q' !! name = unhealthy q !! name).
Proof.
  induction l as [|n l IH] using rev_ind.
  { cbn. split_and!; [done|by intros ?%not_elem_of_nil|done]. }
  rewrite fmap_app, foldl_app. cbn. set (q1 := foldl (restore_entry now') q (health_entry p now <$> l)) in *.
  destruct IH as (Hn & Hin & Hout). rewrite fmap_app, elem_of_app. cbn. rewrite list_elem_of_singleton.
  assert (known q1 = known q) as Hk by (unfold known; by rewrite Hn).
  destruct (known q (pool_Name n)) eqn:Ek.
  - destruct (restore_entry_spec p now now' n q1) as (En & Eh & Ef & Eu); [by rewrite Hk|]. rewrite En, Eh, Ef, Eu.
    split_and!; [done|..].
    + intros Hname Hkn. destruct (decide (name = pool_Name n)) as [->|Hne].
      * rewrite !lookup_insert_eq. split_and!; [done..|]. intros Hq.
        destruct (restored_until p now now' (pool_Name n)) as [u|] eqn:Er; [by rewrite lookup_insert_eq|].
        destruct (decide (pool_Name n ∈ pool_Name <$> l)) as [Hl|Hl]; [by apply (Hin Hl Hkn)|].
        destruct (Hout (or_introl Hl)) as (_ & _ & ->). by destruct Hq.
      * rewrite !lookup_insert_ne by done. destruct Hname as [Hl|]; [|done]. destruct (Hin Hl Hkn) as (? & ? & Hu).
        split_and!; [done..|]. intros Hq. specialize (Hu Hq). case_match; [by rewrite lookup_insert_ne|done].
    + intros Hno. assert (name <> pool_Name n) as Hne by (intros ->; destruct Hno as [Hno|Hno]; [apply Hno; by right|congruence]).
      assert (name ∉ pool_Name <$> l \/ known q name = false) as Hno' by (destruct Hno as [Hno|]; [left; auto|by right]).
      destruct (Hout Hno') as (? & ? & ?). rewrite !lookup_insert_ne by done. split_and!; [done..|].
      case_match; [by rewrite lookup_insert_ne|done].
  - rewrite restore_unknown by (by rewrite Hk). split_and!; [done|..].
    + intros [Hl| ->] Hkn; [by apply Hin|congruence].
    + intros [Hno|Hno]; apply Hout; [left; auto|by right].
Qed.

(** A restarted pool has, for every node still in the registry, the score,
    the failure count and the remaining cooldown, to the second, that the last
    snapshot file recorded, and nothing for a node that was removed. *)
Theorem health_survives_restart current now now' p entries name :
  (persistHealth now p).1 = Some entries -> name ∈ pool_Name <$> nodes p ->
  let q := New current now' (Some entries) in
  (name ∈ ID <$> Nodes current ->
     score_of q name = score_of p name /\ failures_of q name = failures_of p name /\
     unhealthy q !! name = restored_until p now now' name) /\
  (name ∉ ID <$> Nodes current -> health q !! name = None /\ failures q !! name = None /\ unhealthy q !! name = None).
Proof.
  intros Hp Hin q. assert (entries = health_entry p now <$> nodes p) as ->.
  { unfold persistHealth in Hp. case_match; [done|]. by injection Hp as <-. }
  subst q. unfold New, restoreHealth.
  change (default [] (Some (health_entry p now <$> nodes p))) with (health_entry p now <$> nodes p).
  set (q0 := refreshNodes _ _).
  destruct (restore_entries p now now' (nodes p) q0 name) as (_ & Hyes & Hno).
  assert (known q0 name = true <-> name ∈ ID <$> Nodes current) as Hk.
  { unfold known, q0. rewrite existsb_exists, list_elem_of_fmap. cbn [nodes refreshNodes set_field update_with]. split.
    - intros (n & Hn%list_elem_of_In & E%String.eqb_eq). apply list_elem_of_fmap in Hn as (node & -> & Hn). by exists node.
    - intros (node & -> & Hn). exists (nodeFromRegistry node). split; [|apply String.eqb_refl].
      apply list_elem_of_In. by apply list_elem_of_fmap_2. }
  assert (health q0 !! name = None /\ failures q0 !! name = None /\ unhealthy q0 !! name = None) as (E1 & E2 & E3)
    by (split_and!; apply lookup_empty).
  split.
  - intros Hc. destruct (Hyes Hin (proj2 Hk Hc)) as (Eh & Ef & Eu). unfold score_of, failures_of. rewrite Eh, Ef.
    split_and!; [done..|]. apply Eu. by left.
  - intros Hc. assert (known q0 name = false) as Hf by (destruct (known q0 name); [by destruct Hc; apply Hk|done]).
    destruct (Hno (or_intror Hf)) as (-> & -> & ->). done.
Qed.

(** * Runs *)

Definition demo_registry : Snapshot :=
  buildSnapshot accept_all accept_all
    ((fun id => mkGrokEgressNode id id GrokEgressScopeBuild true "http://10.0.0.1:8080" "" false 0 "" "" "") <$> ["n1"; "n2"])
    [] (DefaultGrokEgressOperations <| Fallbacks := {[ GrokEgressScopeBuild := mkFallback "none" "" ]} |>) ∅.

Definition demo_pool : Pool := New demo_registry (1000 * Second) None.

Definition no_autobind (scope affinity : string) (candidates : list string) : string := "".

(** A failure on a fresh node cools it down for thirty seconds, a second one for
    a minute; the other node serves meanwhile. *)
Definition failed_twice : Pool :=
  Feedback "n1" OutcomeServerError (1010 * Second) (Feedback "n1" OutcomeTransportError (1000 * Second) demo_pool).

Lemma failed_twice_run : pool_run failed_twice [Failed "n1" (1000 * Second); Failed "n1" (1010 * Second)].
Proof.
  apply (run_feedback _ [Failed "n1" (1000 * Second)] "n1" OutcomeServerError (1010 * Second)).
  apply (run_feedback _ [] "n1" OutcomeTransportError (1000 * Second)). apply run_new.
Qed.

Lemma exclusion_is_bounded_witness :
  degraded failed_twice "n1" (1069 * Second) = true /\ degraded failed_twice "n1" (1610 * Second) = false /\
  is_Some (pickNode no_autobind demo_registry (1020 * Second) "cli" "acc" failed_twice).1.
Proof.
  split; [vm_compute; reflexivity|].
  destruct (exclusion_is_bounded failed_twice _ failed_twice_run) as (Hd & _ & Hp). split.
  - apply Hd; [unfold Second; lia|]. intros t. rewrite !elem_of_cons. unfold nodeCooldownMax, Minute, Second.
    intros [[= ->]|[[= ->]|H%not_elem_of_nil]]; [lia|lia|done].
  - apply (Hp no_autobind demo_registry (1020 * Second) "cli"%string "acc"%string
      (mkPoolNode "n2" "n2" "http://10.0.0.1:8080" 1 GrokEgressScopeBuild true "" "")).
    + unfold Second. lia.
    + closed_decide.
    + vm_compute. reflexivity.
    + intros t. rewrite !elem_of_cons. intros [[=]|[[=]|H%not_elem_of_nil]]; done.
Defined.

Lemma health_survives_restart_witness :
  let q := New demo_registry (1020 * Second)
    (Some (health_entry failed_twice (1015 * Second) <$> nodes failed_twice)) in
  failures_of q "n1" = 2 /\ unhealthy q !! "n1"%string = Some (1070 * Second).
Proof.
  assert ((persistHealth (1015 * Second) failed_twice).1 = Some (health_entry failed_twice (1015 * Second) <$> nodes failed_twice))
    as Hfile by (vm_compute; reflexivity).
  assert ("n1"%string ∈ pool_Name <$> nodes failed_twice) as Hin by closed_decide.
  assert ("n1"%string ∈ ID <$> Nodes demo_registry) as Hid by closed_decide.
  destruct (proj1 (health_survives_restart demo_registry (1015 * Second) (1020 * Second) failed_twice _ "n1" Hfile Hin) Hid)
    as (_ & Hf & Hu).
  split; [etrans; [exact Hf|vm_compute; reflexivity]|etrans; [exact Hu|vm_compute; reflexivity]].
Defined.

(** ** A score of zero

    A node a probe brought back has the score 0.2; its next failure gives
    0.2 * 0.5 - 0.1 = 0, which counts as never probed: the failure starts no
    cooldown.  The success that follows gives 0.1 and leaves the cooldown in the
    map, and the working node is kept out. *)
Lemma tolerated_failure_starts_cooldown_later :
  let n1 := mkPoolNode "n1" "n1" "http://10.0.0.1:8080" 1 GrokEgressScopeBuild true "" "" in
  let back := probe_end n1 false (1040 * Second) failed_twice in
  let failed := Feedback "n1" OutcomeTransportError (1050 * Second) back in
  let worked := Feedback "n1" OutcomeSuccess (1051 * Second) failed in
  unhealthy failed !! "n1"%string = Some (1080 * Second) /\
  degraded failed "n1" (1050 * Second) = false /\ degraded worked "n1" (1052 * Second) = true.
Proof. vm_compute. done. Qed.

(** Both nodes cooling down and the probe failing: the scope's fallback is to
    fail. *)
Lemma pick_fails_closed_witness :
  let w := mkSurroundings (fun _ => demo_registry) (fun _ => 1020 * Second) (fun _ => no_autobind) (fun _ => true) (fun _ p => p) in
  let p := Feedback "n2" OutcomeChallenge (1015 * Second) failed_twice in
  fst (Pick w "cli" "acc" p) = (None, false, Some ErrNoHealthyNode) /\ no_node w "cli" p.
Proof.
  intros w p. pose proof (pick_fails_closed w "cli" "acc" p) as H.
  assert (fst (Pick w "cli" "acc" p) = (None, false, Some ErrNoHealthyNode)) as E by (vm_compute; reflexivity).
  rewrite E in H. split; [exact E|]. destruct H as [[(n & [=] & _)|[H _]] _]. exact H.
Defined.
