(* ===== verification/AccountUnique.v ===== *)
(** Creating an account unless its identity is taken
    ([src/internal/store/account_unique.go]): the optimistic transaction that
    watches the membership sets and every row, scans them with the caller's
    identity rule, checks the types of the sets and publishes the row, as a
    transition system in which any number of creations and foreign writes
    interleave command by command.

    [accounts_stay_unique]: whatever other clients write, no step of a creation makes
    two listed rows match, and a creation that reports success published its row
    and both memberships. *)

From Stdlib Require Import Ascii.
From S2P Require Import Prelude GoFloat UpstreamErrors Account AccountMerge Redis AccountCodec AccountStore.

(** * The transaction *)

Section creation.
Context {V : Type} {Aead : AEAD} {B64 : Base64} {J : AccountJSON V}.
Context (prefix : string) (keyed : bool).
(** The caller's identity rule: [matches] of a candidate. *)
Context (same : Account -> Account -> bool).

Abbreviation ids_key := (accountsIDsKey prefix).
Abbreviation enabled_key := (accountsEnabledKey prefix).
Abbreviation row_key := (accountsKey prefix).

(** A set command on a key that holds a string is an error and does nothing;
    the commands after it in the transaction still run. *)
Definition wrong_type (c : command V) (s : keyspace V) : bool :=
  match c with
  | CmdSAdd k _ | CmdSRem k _ => bool_decide (is_Some (ks_strings s !! k))
  | _ => false
  end.

Definition typed_apply (s : keyspace V) (c : command V) : keyspace V :=
  if wrong_type c s then s else apply_command c s.

Definition exec_typed (cmds : list (command V)) (s : keyspace V) : keyspace V := foldl typed_apply s cmds.

Fixpoint exec_error (cmds : list (command V)) (s : keyspace V) : option go_error :=
  match cmds with
  | [] => None
  | c :: rest => if wrong_type c s then Some (Errorf "WRONGTYPE") else exec_error rest (typed_apply s c)
  end.

(** [TYPE]. *)
Definition kind_of (s : keyspace V) (key : string) : string :=
  if bool_decide (is_Some (ks_strings s !! key)) then "string"
  else if bool_decide (is_Some (ks_sets s !! key)) then "set" else "none".

Definition membership_kind (kind : string) : bool := String.eqb kind "none" || String.eqb kind "set".

(** The record a creation will publish. *)
Record draft := mkDraft { d_id : Z; d_candidate : Account; d_data : V }.

Definition make_candidate (id : Z) (created updated : instant) (acc : Account) : Account :=
  let acc := acc <| ID := id |> in
  let acc := acc <| CreatedAt := if Time.IsZero (CreatedAt acc) then created else CreatedAt acc |> in
  acc <| UpdatedAt := if Time.IsZero (UpdatedAt acc) then updated else UpdatedAt acc |>.

(** The scan of the rows read: the first that matches, or what stops it. *)
Fixpoint scan_rows (d : draft) (ids : list string) (rows : list (option V)) : option Account + go_error :=
  match ids, rows with
  | text :: ids, Some data :: rows =>
      match unmarshalAccount keyed data (default 0 (ParseInt text)) with
      | inr err => inr err
      | inl existing => if same (d_candidate d) existing then inl (Some existing) else scan_rows d ids rows
      end
  | _ :: ids, None :: rows => scan_rows d ids rows
  | _, _ => inl None
  end.

(** Where a call stands; [dirty] is the server's flag for a connection one of
    whose watched keys was written. *)
Inductive creator :=
| CStart
| CIdle (left : nat) (d : draft)
| CWatching (left : nat) (dirty : bool) (d : draft)
| CListed (left : nat) (dirty : bool) (d : draft) (ids : list string)
| CReading (left : nat) (dirty : bool) (d : draft) (ids : list string) (rows : list (option V))
| CScanned (left : nat) (dirty : bool) (d : draft) (ids : list string) (unchecked : list string)
| CDone (result : option Account + go_error).

Definition create_attempts : nat := 32.

Definition create_commands (d : draft) : list (command V) :=
  write_row prefix (d_id d) (Enabled (d_candidate d)) (d_data d).

Definition TxFailedErr : go_error := Errorf "redis: transaction failed".
Definition bad_member : go_error := Errorf "invalid account identity in membership".
Definition bad_type : go_error := Errorf "invalid account membership type".

Definition row_keys (ids : list string) : list string := (fun text => row_key (default 0 (ParseInt text))) <$> ids.

(** The keys a call watches. *)
Definition watched (c : creator) : list string :=
  let base d := [ids_key; enabled_key; row_key (d_id d)] in
  match c with
  | CWatching _ _ d | CListed _ _ d _ => base d
  | CReading _ _ d ids _ | CScanned _ _ d ids _ => base d ++ row_keys ids
  | _ => []
  end.

Definition set_dirty (hit : bool) (c : creator) : creator :=
  match c with
  | CWatching n dirty d => CWatching n (dirty || hit) d
  | CListed n dirty d ids => CListed n (dirty || hit) d ids
  | CReading n dirty d ids rows => CReading n (dirty || hit) d ids rows
  | CScanned n dirty d ids unchecked => CScanned n (dirty || hit) d ids unchecked
  | c => c
  end.

Definition notice (cmds : list (command V)) (c : creator) : creator :=
  set_dirty (existsb (fun key => touches key cmds) (watched c)) c.

Definition is_done (c : creator) : bool := match c with CDone _ => true | _ => false end.

(** The reply of SMEMBERS: the members in any order. *)
Definition lists (s : keyspace V) (ids : list string) : Prop :=
  NoDup ids /\ forall m, m ∈ ids <-> m ∈ members s ids_key.

(** A step of one call that reads. *)
Inductive reads (s : keyspace V) : creator -> creator -> Prop :=
| read_watch n d : reads s (CIdle (S n) d) (CWatching n false d)
| read_ids n dirty d ids :
    membership_kind (kind_of s ids_key) = true -> lists s ids -> reads s (CWatching n dirty d) (CListed n dirty d ids)
| read_bad_member n dirty d ids :
    existsb (fun text => match ParseInt text with Some _ => false | None => true end) ids = true ->
    reads s (CListed n dirty d ids) (CDone (inr bad_member))
| read_watch_rows n dirty d ids :
    Forall (fun text => is_Some (ParseInt text)) ids -> reads s (CListed n dirty d ids) (CReading n dirty d ids [])
| read_row n dirty d ids rows text :
    ids !! length rows = Some text -> ks_sets s !! row_key (default 0 (ParseInt text)) = None ->
    reads s (CReading n dirty d ids rows) (CReading n dirty d ids (rows ++ [ks_strings s !! row_key (default 0 (ParseInt text))]))
| read_scan n dirty d ids rows :
    length rows = length ids ->
    reads s (CReading n dirty d ids rows)
      (match scan_rows d ids rows with
       | inr err => CDone (inr err)
       | inl (Some existing) => CDone (inl (Some existing))
       | inl None => CScanned n dirty d ids [ids_key; enabled_key]
       end)
| read_type n dirty d ids key unchecked :
    reads s (CScanned n dirty d ids (key :: unchecked))
      (if membership_kind (kind_of s key) then CScanned n dirty d ids unchecked else CDone (inr bad_type))
| read_conflict n d ids : reads s (CScanned n true d ids []) (CIdle n d)
| read_exhausted d : reads s (CIdle 0 d) (CDone (inr TxFailedErr))
| read_fails c err : is_done c = false -> reads s c (CDone (inr err)).

Record creations := mkCreations { c_db : keyspace V; c_calls : nat -> creator }.

Definition set_call (p : nat) (c : creator) (calls : nat -> creator) : nat -> creator :=
  fun q => if decide (q = p) then c else calls q.

Definition notice_all (cmds : list (command V)) (calls : nat -> creator) : nat -> creator := fun q => notice cmds (calls q).

(** A row a reader of the store finds: its identifier is a member and its data
    decodes. *)
Definition listed (s : keyspace V) (id : Z) (row : Account) : Prop :=
  exists text data, text ∈ members s ids_key /\ ParseInt text = Some id /\
    ks_strings s !! row_key id = Some data /\ unmarshalAccount keyed data id = inl row.

Definition unique (s : keyspace V) : Prop :=
  forall i j a b, i <> j -> listed s i a -> listed s j b -> same a b = false.

(** The steps of the calls [requests] makes, each at its own command. *)
Inductive own_step (requests : nat -> Account) : creations -> creations -> Prop :=
| step_number db calls p id created updated nonces data :
    calls p = CStart -> in_i64 id ->
    marshalAccount keyed nonces (make_candidate id created updated (requests p)) = inl data ->
    own_step requests (mkCreations db calls)
      (mkCreations (mkKeyspace (ks_strings db) (ks_sets db) (<[accountsNextIDKey prefix := id]> (ks_counters db)))
         (set_call p (CIdle create_attempts (mkDraft id (make_candidate id created updated (requests p)) data)) calls))
| step_read db calls p c :
    reads db (calls p) c -> own_step requests (mkCreations db calls) (mkCreations db (set_call p c calls))
| step_exec db calls p n d ids heard :
    calls p = CScanned n false d ids [] ->
    own_step requests (mkCreations db calls)
      (mkCreations (exec_typed (create_commands d) db)
         (set_call p (CDone (match exec_error (create_commands d) db with
                             | Some err => inr err
                             | None => if heard : bool then inl None else inr (Errorf "i/o timeout")
                             end)) (notice_all (create_commands d) calls))).

(** They interleave with transactions of other clients, of any commands: plain
    creations and updates, deletions, anything that writes the keys. *)
Inductive create_step (requests : nat -> Account) : creations -> creations -> Prop :=
| step_own st st' : own_step requests st st' -> create_step requests st st'
| step_other db calls cmds :
    create_step requests (mkCreations db calls) (mkCreations (exec_typed cmds db) (notice_all cmds calls)).

Definition reachable_creations (requests : nat -> Account) (db : keyspace V) : creations -> Prop :=
  rtc (create_step requests) (mkCreations db (fun _ => CStart)).

(** ** What the server keeps *)

Lemma typed_apply_keeps c (s : keyspace V) k :
  k ∉ command_keys c -> ks_strings (typed_apply s c) !! k = ks_strings s !! k /\ ks_sets (typed_apply s c) !! k = ks_sets s !! k.
Proof.
  intros H. unfold typed_apply. case_match; [done|].
  destruct c as [k' v|ks|k' m|k' m]; cbn in *.
  - rewrite lookup_insert_ne, lookup_delete_ne by set_solver. done.
  - rewrite !delete_all_lookup, bool_decide_eq_false_2 by done. done.
  - rewrite lookup_insert_ne by set_solver. done.
  - rewrite lookup_insert_ne by set_solver. done.
Qed.

Lemma exec_typed_keeps cmds (s : keyspace V) k :
  touches k cmds = false -> ks_strings (exec_typed cmds s) !! k = ks_strings s !! k /\ ks_sets (exec_typed cmds s) !! k = ks_sets s !! k.
Proof.
  revert s. induction cmds as [|c cmds IH]; intros s; [done|].
  cbn [touches existsb]. intros [Hc Ht]%orb_false_iff. cbn [exec_typed foldl].
  apply bool_decide_eq_false_1 in Hc. destruct (typed_apply_keeps c s k Hc) as [<- <-]. by apply IH.
Qed.

Lemma kind_of_keeps (s s' : keyspace V) k :
  ks_strings s' !! k = ks_strings s !! k -> ks_sets s' !! k = ks_sets s !! k -> kind_of s' k = kind_of s k.
Proof. unfold kind_of. by intros -> ->. Qed.

Lemma lists_keeps (s s' : keyspace V) ids :
  ks_sets s' !! ids_key = ks_sets s !! ids_key -> lists s ids -> lists s' ids.
Proof. unfold lists, members. by intros ->. Qed.

(** ** What a clean call knows *)

Definition parsed (ids : list string) : Prop := Forall (fun text => is_Some (ParseInt text)) ids.

Definition row_of (s : keyspace V) (text : string) : option V := ks_strings s !! row_key (default 0 (ParseInt text)).

(** No row of a member matches the candidate. *)
Definition no_match (s : keyspace V) (d : draft) (ids : list string) : Prop :=
  forall text data, text ∈ ids -> row_of s text = Some data ->
    exists existing, unmarshalAccount keyed data (default 0 (ParseInt text)) = inl existing /\
      same (d_candidate d) existing = false.

Definition knows (s : keyspace V) (c : creator) : Prop :=
  match c with
  | CListed _ false d ids => lists s ids
  | CReading _ false d ids rows =>
      lists s ids /\ parsed ids /\ rows = row_of s <$> take (length rows) ids
  | CScanned _ false d ids unchecked =>
      lists s ids /\ parsed ids /\ no_match s d ids /\
      forall key, key ∈ [ids_key; enabled_key] -> key ∈ unchecked \/ membership_kind (kind_of s key) = true
  | _ => True
  end.

Definition draft_of (c : creator) : option draft :=
  match c with
  | CIdle _ d | CWatching _ _ d | CListed _ _ d _ | CReading _ _ d _ _ | CScanned _ _ d _ _ => Some d
  | _ => None
  end.

(** A draft is what marshalling the candidate gave. *)
Definition drafted (c : creator) : Prop :=
  forall d, draft_of c = Some d -> in_i64 (d_id d) /\ exists nonces, marshalAccount keyed nonces (d_candidate d) = inl (d_data d).

Lemma scan_rows_none s d ids :
  scan_rows d ids (row_of s <$> ids) = inl None -> no_match s d ids.
Proof.
  intros H text data Hin Hrow. induction ids as [|t ids IH]; [by apply not_elem_of_nil in Hin|]. cbn in H.
  destruct (row_of s t) as [v|] eqn:Ev; cycle 1.
  { apply elem_of_cons in Hin as [->|Hin]; [congruence|by apply IH]. }
  destruct (unmarshalAccount keyed v (default 0 (ParseInt t))) as [existing|] eqn:Eu; [|done].
  destruct (same (d_candidate d) existing) eqn:Es; [done|].
  apply elem_of_cons in Hin as [->|Hin]; [|by apply IH]. assert (v = data) as -> by congruence. by exists existing.
Qed.

Lemma knows_read s c c' : reads s c c' -> knows s c -> knows s c'.
Proof.
  intros [n d|n dirty d ids Hk Hl|n dirty d ids Hb|n dirty d ids Hp|n dirty d ids rows text Ht Hs|n dirty d ids rows Hlen
    |n dirty d ids key unchecked|n d ids|d|c0 err Hd] H; try done.
  - by destruct dirty.
  - destruct dirty; [done|]. cbn in *. split_and!; done.
  - destruct dirty; [done|]. cbn in *. destruct H as (Hl & Hp & E). split_and!; [done..|].
    rewrite length_app, Nat.add_comm. cbn [length Nat.add]. by rewrite (take_S_r _ _ _ Ht), fmap_app, <- E.
  - destruct (scan_rows d ids rows) as [[existing|]|err] eqn:Es; [done| |done]. destruct dirty; [done|]. cbn in *.
    destruct H as (Hl & Hp & E). rewrite Hlen, firstn_all in E. split_and!; [done..| |by intros key Hkey; left].
    apply scan_rows_none. by rewrite <- E.
  - destruct dirty; [by destruct (membership_kind _)|]. destruct (membership_kind (kind_of s key)) eqn:Ek; [|done].
    cbn in *. destruct H as (Hl & Hp & Hn & Hc). split_and!; [done..|]. intros key' Hkey.
    destruct (Hc key' Hkey) as [Hin|?]; [|by right]. apply elem_of_cons in Hin as [->|Hin]; [by right|by left].
Qed.

Lemma touched_false key (cmds : list (command V)) l : existsb (fun key => touches key cmds) l = false -> key ∈ l -> touches key cmds = false.
Proof.
  intros H Hin. destruct (touches key cmds) eqn:E; [|done]. exfalso.
  assert (existsb (fun key => touches key cmds) l = true) as Ht; [|congruence].
  apply existsb_exists. exists key. split; [by apply list_elem_of_In|done].
Qed.

(** A write either dirties a call or changes nothing it knows. *)
Lemma knows_notice s cmds c : knows s c -> knows (exec_typed cmds s) (notice cmds c).
Proof.
  intros H. unfold notice. destruct (existsb (fun key => touches key cmds) (watched c)) eqn:Et.
  { destruct c as [|n d|n dirty d|n dirty d ids|n dirty d ids rows|n dirty d ids unchecked|res]; cbn; rewrite ?orb_true_r; done. }
  assert (forall key, key ∈ watched c -> ks_strings (exec_typed cmds s) !! key = ks_strings s !! key /\
    ks_sets (exec_typed cmds s) !! key = ks_sets s !! key) as Hkeep.
  { intros key Hkey. apply exec_typed_keeps. by eapply touched_false. }
  clear Et. assert (forall ids, row_keys ids ⊆ watched c -> forall text, text ∈ ids -> row_of (exec_typed cmds s) text = row_of s text) as Hrows.
  { intros ids Hsub text Hin. apply Hkeep, Hsub. unfold row_keys. apply list_elem_of_fmap. by exists text. }
  destruct c as [|n d|n dirty d|n dirty d ids|n dirty d ids rows|n dirty d ids unchecked|res]; cbn; rewrite ?orb_false_r; try done;
    (destruct dirty; [done|]); cbn [watched] in *.
  - cbn in H. eapply lists_keeps; [|exact H]. apply (Hkeep ids_key). by left.
  - cbn in H. destruct H as (Hl & Hp & E). split_and!; [|done|].
    + eapply lists_keeps; [|exact Hl]. apply (Hkeep ids_key). by left.
    + rewrite E at 1. apply list_fmap_ext. intros i text Hi. symmetry. apply (Hrows ids); [set_solver|].
      apply lookup_take_Some in Hi as [Hi _]. by eapply list_elem_of_lookup_2.
  - cbn in H. destruct H as (Hl & Hp & Hn & Hc). split_and!; [|done|..].
    + eapply lists_keeps; [|exact Hl]. apply (Hkeep ids_key). by left.
    + intros text data Hin Hrow. apply Hn; [done|]. rewrite <- Hrow. symmetry. apply (Hrows ids); [set_solver|done].
    + intros key Hkey. destruct (Hc key Hkey) as [?|Hk]; [by left|right]. rewrite <- Hk. f_equal.
      destruct (Hkeep key) as [Hs Hse]; [set_solver|]. by apply kind_of_keeps.
Qed.

Lemma drafted_notice cmds c : drafted c -> drafted (notice cmds c).
Proof. unfold drafted, notice. by destruct c. Qed.

Lemma drafted_read s c c' : reads s c c' -> drafted c -> drafted c'.
Proof.
  unfold drafted. intros [n d|n dirty d ids Hk Hl|n dirty d ids Hb|n dirty d ids Hp|n dirty d ids rows text Ht Hs|n dirty d ids rows Hlen
    |n dirty d ids key unchecked|n d ids|d|c0 err Hd] H d' Hd'; cbn in *; repeat case_match; simplify_eq/=; try done; by apply H.
Qed.

(** ** Publishing *)

Hypothesis same_sym : forall a b, same a b = same b a.
(** A row matches what the candidate it was written from matches. *)
Hypothesis same_reads_back : forall nonces candidate data id row,
  marshalAccount keyed nonces candidate = inl data -> unmarshalAccount keyed data id = inl row ->
  forall x, same row x = same candidate x.

Lemma keys_apart id : row_key id <> ids_key /\ row_key id <> enabled_key /\ ids_key <> enabled_key.
Proof. split_and!; [apply akey_ids|apply akey_enabled|apply ids_enabled]. Qed.

Lemma sets_ok (s : keyspace V) key : membership_kind (kind_of s key) = true -> ks_strings s !! key = None.
Proof. unfold kind_of. case_bool_decide as H; [done|]. intros _. by apply eq_None_not_Some. Qed.

Lemma create_executes (s : keyspace V) d :
  membership_kind (kind_of s ids_key) = true -> membership_kind (kind_of s enabled_key) = true ->
  exec_error (create_commands d) s = None /\ exec_typed (create_commands d) s = apply_commands (create_commands d) s.
Proof.
  intros Hi%sets_ok He%sets_ok. destruct (keys_apart (d_id d)) as (N1 & N2 & N3).
  unfold create_commands, write_row, pipeAccountMembership, exec_typed, apply_commands.
  assert (forall k, k <> row_key (d_id d) -> ks_strings s !! k = None ->
    bool_decide (is_Some (<[row_key (d_id d) := d_data d]> (ks_strings s) !! k)) = false) as Hk.
  { intros k Hne Hn. apply bool_decide_eq_false_2. rewrite lookup_insert_ne, Hn by done. by intros [? ?]. }
  destruct (Enabled (d_candidate d)); cbn [exec_error foldl]; unfold typed_apply; cbn;
    rewrite !Hk by (try done; apply not_eq_sym; done); cbn; rewrite ?Hk by (try done; apply not_eq_sym; done); done.
Qed.

Lemma published_rows (s : keyspace V) d id :
  ks_strings (apply_commands (create_commands d) s) !! row_key id
  = if decide (id = d_id d) then Some (d_data d) else ks_strings s !! row_key id.
Proof.
  unfold create_commands. rewrite write_row_strings.
  destruct (decide (row_key id = row_key (d_id d))) as [E|E].
  - apply akey_inj in E as ->. by rewrite decide_True.
  - rewrite decide_False; [done|]. by intros ->.
Qed.

(** Rows that match after a row is published were listed before. *)
Definition pair_listed (s : keyspace V) (i j : Z) (a b : Account) : Prop :=
  i <> j /\ listed s i a /\ listed s j b /\ same a b = true.

Lemma published_pairs (s : keyspace V) d ids :
  lists s ids -> parsed ids -> no_match s d ids -> in_i64 (d_id d) ->
  (exists nonces, marshalAccount keyed nonces (d_candidate d) = inl (d_data d)) ->
  forall i j a b, pair_listed (apply_commands (create_commands d) s) i j a b -> pair_listed s i j a b.
Proof.
  intros Hl Hp Hn Hid [nonces Hm].
  assert (forall i a, listed (apply_commands (create_commands d) s) i a -> i <> d_id d -> listed s i a) as Hold.
  { intros i a (text & data & Hin & Ht & Hr & Ha) Hne. rewrite published_rows, decide_False in Hr by done.
    exists text, data. split_and!; [|done..]. unfold create_commands in Hin. rewrite write_row_ids in Hin.
    apply elem_of_union in Hin as [Hin|Hin]; [|done]. apply elem_of_singleton in Hin as ->.
    rewrite ParseInt_Itoa in Ht by done. congruence. }
  assert (forall i a, listed s i a -> same (d_candidate d) a = false) as Hother.
  { intros i a (text & data & Hin & Ht & Hr & Ha). destruct Hl as [_ Hl]. apply Hl in Hin.
    destruct (Hn text data Hin) as (existing & He & Hs); [unfold row_of; by rewrite Ht|]. rewrite Ht in He. cbn in He. congruence. }
  assert (forall a, listed (apply_commands (create_commands d) s) (d_id d) a -> forall x, same a x = same (d_candidate d) x) as Hnew.
  { intros a (text & data & Hin & Ht & Hr & Ha). rewrite published_rows, decide_True in Hr by done. injection Hr as <-.
    by eapply same_reads_back. }
  intros i j a b (Hij & Ha & Hb & Hs). destruct (decide (i = d_id d)) as [->|Hi].
  - rewrite (Hnew a Ha), (Hother j) in Hs by auto. done.
  - destruct (decide (j = d_id d)) as [->|Hj]; [|by split_and!; auto].
    rewrite same_sym, (Hnew b Hb), (Hother i) in Hs by auto. done.
Qed.

Record sound_creations (st : creations) : Prop := {
  sound_knows : forall p, knows (c_db st) (c_calls st p);
  sound_drafted : forall p, drafted (c_calls st p) }.

Lemma scanned_clean (s : keyspace V) n d ids :
  knows s (CScanned n false d ids []) ->
  lists s ids /\ parsed ids /\ no_match s d ids /\
  membership_kind (kind_of s ids_key) = true /\ membership_kind (kind_of s enabled_key) = true.
Proof.
  intros (Hl & Hp & Hn & Hc). split_and!; [done..| |].
  - destruct (Hc ids_key) as [H|H]; [by left|by apply not_elem_of_nil in H|done].
  - destruct (Hc enabled_key) as [H|H]; [right; by left|by apply not_elem_of_nil in H|done].
Qed.

Lemma sound_step requests st st' : create_step requests st st' -> sound_creations st -> sound_creations st'.
Proof.
  intros [st0 st1 [db calls p id created updated nonces data Hp Hid Hm|db calls p c Hr|db calls p n d ids heard Hp]|db calls cmds] [K D];
    cbn [c_db c_calls] in *; split; cbn [c_db c_calls]; intros q; unfold set_call, notice_all;
    try (destruct (decide (q = p)) as [->|Hne]); try apply K; try apply D; try done.
  - intros d [= <-]. cbn. split; [done|]. by exists nonces.
  - by eapply knows_read.
  - by eapply drafted_read.
  - by apply knows_notice.
  - by apply drafted_notice.
  - by apply knows_notice.
  - by apply drafted_notice.
Qed.

Lemma creations_sound requests db st : reachable_creations requests db st -> sound_creations st.
Proof.
  unfold reachable_creations. intros H. remember (mkCreations db (fun _ => CStart)) as st0 eqn:E.
  assert (sound_creations st0) as Hs by (subst; by split). clear E.
  induction H as [|st0 st1 st2 Hst _ IH]; [done|]. apply IH. by eapply sound_step.
Qed.

Lemma own_step_pairs requests st st' i j a b :
  sound_creations st -> own_step requests st st' -> pair_listed (c_db st') i j a b -> pair_listed (c_db st) i j a b.
Proof.
  intros Hsound Hown. revert Hsound.
  destruct Hown as [db calls p id created updated nonces data Hp Hid Hm|db calls p c Hr|db calls p n d ids heard Hp]; [done..|].
  intros [K D]. cbn [c_db c_calls] in *. specialize (K p). specialize (D p). rewrite Hp in K, D. destruct (scanned_clean db n d ids K) as (Hl & Hpa & Hn & Hk1 & Hk2).
  destruct (D d eq_refl) as [Hid Hm]. destruct (create_executes db d Hk1 Hk2) as [_ ->]. by apply (published_pairs db d ids).
Qed.

Lemma unique_pairs (s : keyspace V) : unique s <-> forall i j a b, ~ pair_listed s i j a b.
Proof.
  split.
  - intros Hu i j a b (Hij & Ha & Hb & Hs). rewrite (Hu i j) in Hs by done. done.
  - intros Hu i j a b Hij Ha Hb. destruct (same a b) eqn:E; [|done]. by destruct (Hu i j a b).
Qed.

(** A run in which the other clients' writes, too, make no two rows match. *)
Definition careful_step (requests : nat -> Account) (st st' : creations) : Prop :=
  create_step requests st st' /\ (own_step requests st st' \/ (unique (c_db st) -> unique (c_db st'))).

Lemma careful_unique requests st st' :
  rtc (careful_step requests) st st' -> sound_creations st -> unique (c_db st) -> unique (c_db st').
Proof.
  induction 1 as [|st0 st1 st2 [Hst Hcare] _ IH]; [done|]. intros Hs Hu. apply IH; [by eapply sound_step|].
  destruct Hcare as [Hown|Hcare]; [|by apply Hcare]. apply unique_pairs. intros i j a b Hp.
  by apply (proj1 (unique_pairs _) Hu i j a b), (own_step_pairs requests st0 st1).
Qed.

(** C38: However creations interleave with each other and with transactions of other
    clients, of any commands, at single commands: (1) two listed rows that match
    after a step of a creation were both listed, and matched, before it; (2) so no two
    listed rows ever match if none did at first and the other clients' writes make
    none match (a plain creation or update can); (3) a creation that reports success
    has just written its row and both its memberships. *)
Theorem accounts_stay_unique requests db st :
  reachable_creations requests db st ->
  (forall st' i j a b, own_step requests st st' -> i <> j -> listed (c_db st') i a -> listed (c_db st') j b -> same a b = true ->
     listed (c_db st) i a /\ listed (c_db st) j b) /\
  (unique db -> rtc (careful_step requests) (mkCreations db (fun _ => CStart)) st -> unique (c_db st)) /\
  forall st' p, create_step requests st st' -> c_calls st p <> CDone (inl None) -> c_calls st' p = CDone (inl None) ->
    exists d, ks_strings (c_db st') !! row_key (d_id d) = Some (d_data d) /\
      (exists nonces, marshalAccount keyed nonces (d_candidate d) = inl (d_data d)) /\
      Itoa (d_id d) ∈ members (c_db st') ids_key /\
      (Itoa (d_id d) ∈ members (c_db st') enabled_key <-> Enabled (d_candidate d) = true).
Proof.
  intros Hr. pose proof (creations_sound requests db st Hr) as Hsound. split; [|split].
  - intros st' i j a b Hown Hij Ha Hb Hs. by destruct (own_step_pairs requests st st' i j a b Hsound Hown) as (_ & ? & ? & _).
  - intros Hu Hrun. apply (careful_unique _ _ _ Hrun); [by split|done].
  - intros st' p Hst Hbefore Hafter. revert Hsound Hbefore Hafter. clear Hr.
    destruct Hst as [st st' [db0 calls q id created updated nonces data Hp Hid Hm|db0 calls q c Hrd|db0 calls q n d ids heard Hp]|db0 calls cmds]; intros [K D] Hbefore Hafter;
      cbn [c_db c_calls] in *.
    + unfold set_call in Hafter. by case_decide.
    + unfold set_call in Hafter. case_decide as E; [|done]. subst q c. exfalso.
      inversion Hrd; repeat case_match; congruence.
    + unfold set_call in Hafter. case_decide as E; cycle 1.
      { exfalso. apply Hbefore. revert Hafter. unfold notice_all, notice. by destruct (calls p). }
      subst q. pose proof (K p) as Kp. pose proof (D p) as Dp. rewrite Hp in Kp, Dp.
      destruct (scanned_clean db0 n d ids Kp) as (Hl & Hpa & Hn & Hk1 & Hk2).
      destruct (create_executes db0 d Hk1 Hk2) as [_ ->]. exists d. destruct (Dp d eq_refl) as [Hid Hm].
      rewrite published_rows, decide_True by done. split_and!; [done|done|..].
      * unfold create_commands. rewrite write_row_ids. set_solver.
      * unfold create_commands. rewrite write_row_enabled. destruct (Enabled (d_candidate d)); set_solver.
    + exfalso. apply Hbefore. revert Hafter. unfold notice_all, notice. by destruct (calls p).
Qed.
End creation.

(** * A run *)

Section demo.
#[local] Existing Instance plain_aead.
#[local] Existing Instance plain_base64.
#[local] Existing Instance plain_json.

(** Accounts are the same when they have one address. *)
Definition same_email (a b : Account) : bool := negb (is_empty (Email a)) && String.eqb (Email a) (Email b).

Lemma same_email_sym a b : same_email a b = same_email b a.
Proof.
  unfold same_email. rewrite (String.eqb_sym (Email b)). destruct (String.eqb (Email a) (Email b)) eqn:E; [|by rewrite !andb_false_r].
  apply String.eqb_eq in E. by rewrite E.
Qed.

Lemma map_fields_email f i fields a b :
  Forall (fun l => forall v x, Email (field_set l v x) = Email x) fields ->
  map_fields f i fields a = inl b -> Email b = Email a.
Proof.
  intros Hl. revert i a. induction Hl as [|l fields Hx _ IH]; intros i a; cbn; [by intros [= ->]|].
  destruct (f i (field_get l a)); [|done]. intros H. by rewrite (IH _ _ H), Hx.
Qed.

Lemma credential_fields_email : Forall (fun l => forall v x, Email (field_set l v x) = Email x) accountCredentialFields.
Proof. repeat constructor. Qed.

Lemma json_image_email a : Email (json_image a) = Email a.
Proof. reflexivity. Qed.

Lemma marshal_email nonces c (data : Account) : marshalAccount false nonces c = inl data -> Email data = Email c.
Proof.
  unfold marshalAccount. destruct (map_fields _ 0 accountCredentialFields c) as [s|] eqn:Es; [|done].
  apply (map_fields_email _ _ _ _ _ credential_fields_email) in Es. intros [= <-]. by rewrite json_image_email.
Qed.

Lemma unmarshal_email (data : Account) id row : unmarshalAccount false data id = inl row -> Email row = Email data.
Proof.
  unfold unmarshalAccount. change (json_Unmarshal data) with (inl data : Account + go_error). cbn iota.
  destruct (map_fields _ 0 accountCredentialFields data) as [t|] eqn:Et; [|done].
  apply (map_fields_email _ _ _ _ _ credential_fields_email) in Et. rewrite <- Et. clear.
  destruct (ID t =? 0); intros H; injection H as <-; reflexivity.
Qed.

Lemma email_reads_back nonces candidate (data : Account) id row :
  marshalAccount false nonces candidate = inl data -> unmarshalAccount false data id = inl row ->
  forall x, same_email row x = same_email candidate x.
Proof.
  intros Hm%marshal_email Hu%unmarshal_email x. unfold same_email. by rewrite Hu, Hm.
Qed.

Definition demo_login : Account := zero_account <| Email := "a@b.c" |> <| Enabled := true |>.
Definition nothing_stored : keyspace Account := mkKeyspace ∅ ∅ ∅.

Lemma demo_marshals : exists data, marshalAccount false no_nonce (make_candidate 1 5 5 demo_login) = inl data.
Proof.
  assert (match marshalAccount false no_nonce (make_candidate 1 5 5 demo_login) with inl _ => true | inr _ => false end = true)
    as H by (vm_compute; reflexivity).
  destruct (marshalAccount false no_nonce (make_candidate 1 5 5 demo_login)) as [data|]; [by exists data|done].
Qed.

Definition after_number : keyspace Account := mkKeyspace ∅ ∅ {[accountsNextIDKey "" := 1]}.

Lemma step_read_at p (db : keyspace Account) calls c c' requests :
  calls p = c -> reads "" false same_email db c c' ->
  create_step "" false same_email requests (mkCreations db calls) (mkCreations db (set_call p c' calls)).
Proof. intros <- H. by apply step_own, step_read. Qed.

Lemma demo_creation data :
  marshalAccount false no_nonce (make_candidate 1 5 5 demo_login) = inl data ->
  let d := mkDraft 1 (make_candidate 1 5 5 demo_login) data in
  exists calls, calls 0%nat = CScanned 31 false d [] [] /\
    reachable_creations "" false same_email (fun _ => demo_login) nothing_stored (mkCreations after_number calls).
Proof.
  intros Hm d. set (cand := make_candidate 1 5 5 demo_login) in *.
  eexists. split; cycle 1.
  - eapply rtc_l.
    { eapply step_own, (step_number _ _ _ _ _ _ 0 1 5 5 no_nonce data); [reflexivity|unfold in_i64, min_int64, max_int64; lia|exact Hm]. }
    fold cand. fold d.
    eapply rtc_l; [eapply (step_read_at 0); [reflexivity|apply (read_watch _ _ _ _ 31 d)]|].
    eapply rtc_l; [eapply (step_read_at 0); [reflexivity|apply (read_ids _ _ _ _ 31 false d [])]|].
    { reflexivity. }
    { split; [constructor|]. intros m. split; [by intros ?%not_elem_of_nil|]. intros H. by apply elem_of_empty in H. }
    eapply rtc_l; [eapply (step_read_at 0); [reflexivity|apply (read_watch_rows _ _ _ _ 31 false d []); constructor]|].
    eapply rtc_l; [eapply (step_read_at 0); [reflexivity|apply (read_scan _ _ _ _ 31 false d [] []); reflexivity]|].
    eapply rtc_l; [eapply (step_read_at 0); [reflexivity|apply (read_type _ _ _ _ 31 false d [])]|].
    eapply rtc_l; [eapply (step_read_at 0); [reflexivity|apply (read_type _ _ _ _ 31 false d [])]|].
    apply rtc_refl.
  - reflexivity.
Qed.

(** The creation publishes its row; two rows of one address never arise. *)
Lemma accounts_stay_unique_witness :
  exists (st : creations (V := Account)) (d : draft (V := Account)), c_calls st 0%nat = CDone (inl None) /\
    ks_strings (c_db st) !! accountsKey "" (d_id d) = Some (d_data d) /\
    Itoa (d_id d) ∈ members (c_db st) (accountsIDsKey "").
Proof.
  destruct demo_marshals as [data Hm]. destruct (demo_creation data Hm) as (calls & Hc & Hr).
  destruct (accounts_stay_unique "" false same_email same_email_sym email_reads_back (fun _ => demo_login) nothing_stored
    (mkCreations after_number calls)) as (_ & _ & H).
  - exact Hr.
  - set (d := mkDraft 1 (make_candidate 1 5 5 demo_login) data) in *.
    assert (exec_error (create_commands "" d) after_number = None) as He.
    { apply (create_executes "" after_number d); reflexivity. }
    destruct (H _ 0%nat (step_own _ _ _ _ _ _ (step_exec _ _ _ (fun _ => demo_login) after_number calls 0 31 d [] true Hc))) as (d' & Hrow & _ & Hin & _).
    + cbn. rewrite Hc. discriminate.
    + cbn [c_calls]. unfold set_call. by rewrite decide_True, He by done.
    + eexists _, d'. split_and!; [|exact Hrow|exact Hin]. cbn [c_calls]. unfold set_call. by rewrite decide_True, He by done.
Defined.
End demo.
