(* ===== verification/ProviderStream.v ===== *)
(** What the readers of the providers' streams share: lines of a response body
    ([bufio.Scanner]), decoding of frames ([encoding/json]), the accumulator of
    streamed tool calls ([src/internal/util/toolstream.go]) and the events they
    emit ([src/internal/upstream/emit.go], [tool_deltas.go]).

    [calls_are_the_fragments]: the calls the accumulator rebuilds for an index are
    its fragments, grouped by identity and put together, however calls interleave.
    [streamed_arguments]: what is streamed of a call is the beginning of its
    arguments, and all of them once its identity is known. *)

From Stdlib Require Import Ascii.
From Corelib Require Import SpecFloat.
From S2P Require Import Prelude GoFloat UpstreamErrors Json OpenAISSE StreamHandler.

(** * The lines of a response body *)

(** What arrives of a body: its bytes, the error other than EOF that ends it, and
    whether the scanner has met that error while it still hands out lines. *)
Record body := mkBody { delivered : string; broken : option go_error; broken_early : bool }.

(** The complete lines and what follows the last of them. *)
Fixpoint split_lines (s : string) : list string * string :=
  match s with
  | EmptyString => ([], "")
  | String c rest =>
      let '(lines, tail) := split_lines rest in
      if Ascii.eqb c (ascii_of_nat 10) then (""%string :: lines, tail)
      else
        match lines with
        | [] => ([], String c tail)
        | line :: lines => (String c line :: lines, tail)
        end
  end.

(** [dropCR]. *)
Definition drop_cr (line : string) : string :=
  if HasSuffix line (String (ascii_of_nat 13) "") then take_bytes (String.length line - 1) line else line.

(** [scanner.Buffer(buffer[:], 8*1024*1024)]. *)
Definition max_token : Z := 8 * 1024 * 1024.
Definition ErrTooLong : go_error := Errorf "bufio.Scanner: token too long".

(** The lines before the first that fills the buffer, with [false] where there is
    such a line. *)
Fixpoint fitting (lines : list string) : list string * bool :=
  match lines with
  | [] => ([], true)
  | line :: lines =>
      if max_token <=? Z.of_nat (String.length line) then ([], false)
      else let '(rest, fits) := fitting lines in (line :: rest, fits)
  end.

(** The lines [Scan] returns, and [Err] after the last. *)
Definition scan_body (b : body) : list string * option go_error :=
  let '(lines, tail) := split_lines (delivered b) in
  let '(tokens, fits) := fitting (lines ++ if is_empty tail then [] else [tail]) in
  (drop_cr <$> tokens, if fits then broken b else Some ErrTooLong).

(** [Err] when the reader stops before the last line. *)
Definition early_error (b : body) : option go_error := if broken_early b then broken b else None.

(** [util.Truncate]. *)
Definition Truncate (value : string) (limit : nat) : string :=
  let value := TrimSpace value in
  if (String.length value <=? limit)%nat then value else take_bytes limit value +:+ "...".

(** A [data:] line: what follows the prefix. *)
Definition data_of (line : string) : option string :=
  if HasPrefix line "data:" then Some (TrimSpace (drop_bytes 5 line)) else None.

(** A text between two characters that are no blanks is not trimmed. *)
Lemma TrimRight_keeps a c : is_space c = false -> TrimRight (a +:+ String c "") = a +:+ String c "".
Proof.
  intros Hc. induction a as [|d a IH]; [change ("" +:+ String c "") with (String c ""); cbn [TrimRight]; by rewrite Hc|].
  rewrite sapp_cons. cbn [TrimRight]. rewrite IH. by destruct a.
Qed.

Lemma TrimSpace_keeps d a c : is_space d = false -> is_space c = false -> TrimSpace (String d (a +:+ String c "")) = String d (a +:+ String c "").
Proof. intros Hd Hc. unfold TrimSpace. cbn [TrimLeft]. rewrite Hd. by apply (TrimRight_keeps (String d a)). Qed.

(** * Decoding *)

(** ** Numbers ([strconv.ParseFloat]) *)

(** The digits [s] begins with, and the rest. *)
Definition digit_run (s : string) : string * string :=
  let rest := digits_end s in (take_bytes (String.length s - String.length rest) s, rest).

(** The exponent as [readFloat] accumulates it. *)
Fixpoint exponent_value (acc : Z) (s : string) : Z :=
  match s with
  | String c s =>
      match digit_value c with
      | Some d => exponent_value (if acc <? 10000 then acc * 10 + d else acc) s
      | None => acc
      end
  | EmptyString => acc
  end.

Definition exponent_of (s : string) : Z :=
  match s with
  | String "e" rest | String "E" rest =>
      match rest with
      | String "-" rest => - exponent_value 0 rest
      | String "+" rest => exponent_value 0 rest
      | _ => exponent_value 0 rest
      end
  | _ => 0
  end.

(** [m * 10^e] rounded to nearest even.  For a negative [e] the quotient is taken
    to 56 bits at least, its last bit standing for the remainder. *)
Definition f64_of_decimal (m e : Z) : float64 :=
  if m =? 0 then f64_zero
  else if 0 <=? e then binary_normalize f64_prec f64_emax (m * 10 ^ e) 0 false
  else
    let d := 10 ^ (- e) in
    let shift := Z.max 0 (Z.log2 d - Z.log2 m + 56) in
    let q := m * 2 ^ shift / d in
    let r := m * 2 ^ shift mod d in
    binary_normalize f64_prec f64_emax (2 * q + (if r =? 0 then 0 else 1)) (- (shift + 1)) false.

Definition is_infinite (x : float64) : bool := match x with S754_infinity _ => true | _ => false end.

(** A JSON number as a float; [None] is a range error. *)
Definition ParseFloat (literal : string) : option float64 :=
  let '(whole, rest) := digit_run (unsigned literal) in
  let '(fraction, rest) := match rest with String "." rest => digit_run rest | _ => (""%string, rest) end in
  m ← parse_digits 0 (whole +:+ fraction);
  let x := f64_of_decimal m (exponent_of rest - Z.of_nat (String.length fraction)) in
  guard (is_infinite x = false);;
  Some (if HasPrefix literal "-" then SFopp x else x).

(** ** Values *)

(** [m[key] = value]. *)
Fixpoint map_set (key : string) (value : any) (m : list (string * any)) : list (string * any) :=
  match m with
  | [] => [(key, value)]
  | p :: m => if String.eqb p.1 key then (key, value) :: m else p :: map_set key value m
  end.

(** Decoding into an [any]. *)
Fixpoint to_any (v : json) : option any :=
  match v with
  | JNull => Some VNil
  | JBool b => Some (VBool b)
  | JNumber literal => VFloat <$> ParseFloat literal
  | JString s => Some (VString s)
  | JArray items =>
      VSlice <$> (fix go items :=
        match items with [] => Some [] | v :: items => x ← to_any v; xs ← go items; Some (x :: xs) end) items
  | JObject members =>
      VMap <$> (fix go acc members :=
        match members with
        | [] => Some acc
        | m :: members => x ← to_any m.2; go (map_set m.1 x acc) members
        end) [] members
  end.

(** Decoding into a [map[string]any]; [None] inside is the nil map, and what the
    map holds already stays. *)
Definition decode_map (v : json) (old : option (list (string * any))) : option (option (list (string * any))) :=
  match v with
  | JNull => Some None
  | JObject members =>
      Some <$> foldl (fun acc m => acc ← acc; x ← to_any m.2; Some (map_set m.1 x acc)) (Some (default [] old)) members
  | _ => None
  end.

(** Decoding into a slice of structs, element by element over what the slice
    holds; [None] inside is the nil slice. *)
Fixpoint decode_items {S} (zero : S) (f : string -> json -> S -> option S) (items : list json) (old : list S)
    : option (list S) :=
  match items with
  | [] => Some []
  | v :: items =>
      x ← decode_struct f v (default zero (head old)); xs ← decode_items zero f items (tail old); Some (x :: xs)
  end.

Definition decode_slice {S} (zero : S) (f : string -> json -> S -> option S) (v : json) (old : option (list S))
    : option (option (list S)) :=
  match v with
  | JNull => Some None
  | JArray items => Some <$> decode_items zero f items (default [] old)
  | _ => None
  end.

(** * Tool calls ([toolstream.go]) *)

Definition NewToolCallID (nanos sequence : Z) : string := "toolu_" +:+ Itoa nanos +:+ "_" +:+ Itoa sequence.

Record ToolCall := mkToolCall {
  StreamStarted : bool; StreamedBytes : nat; call_ID : string; call_Name : string; Arguments : string; emitted : bool }.

#[export] Instance eta_ToolCall : Eta ToolCall := fun c =>
  mkToolCall (StreamStarted c) (StreamedBytes c) (call_ID c) (call_Name c) (Arguments c) (emitted c).

Definition new_call : ToolCall := mkToolCall false 0 "" "" "" false.

(** [ToolCallAccumulator]: a pointer to a call is its position in [order]. *)
Record ToolCallAccumulator := mkAccumulator { order : list ToolCall; calls : gmap Z nat }.

#[export] Instance eta_accumulator : Eta ToolCallAccumulator := fun a => mkAccumulator (order a) (calls a).

Definition NewToolCallAccumulator : ToolCallAccumulator := mkAccumulator [] ∅.

(** Whether a delta with this identity starts another call. *)
Definition starts_another (trimmedID : string) (state : ToolCall) : bool :=
  emitted state || (negb (is_empty trimmedID) && negb (is_empty (call_ID state)) && negb (String.eqb (call_ID state) trimmedID)).

(** The call a delta goes on, if any. *)
Definition continued (index : Z) (trimmedID : string) (a : ToolCallAccumulator) : option nat :=
  p ← calls a !! index; state ← order a !! p; if starts_another trimmedID state then None else Some p.

Definition fold_delta (id name args : string) (state : ToolCall) : ToolCall :=
  let trimmedID := TrimSpace id in
  let trimmed := TrimSpace name in
  let state := if is_empty trimmedID then state else state <| call_ID := trimmedID |> in
  let state := if is_empty trimmed then state else state <| call_Name := trimmed |> in
  state <| Arguments := Arguments state +:+ args |>.

(** [Add]: the position of the call and the accumulator. *)
Definition Add (index : Z) (id name args : string) (a : ToolCallAccumulator) : nat * ToolCallAccumulator :=
  let '(p, a) :=
    match continued index (TrimSpace id) a with
    | Some p => (p, a)
    | None => (length (order a), mkAccumulator (order a ++ [new_call]) (<[index := length (order a)]> (calls a)))
    end in
  (p, a <| order := alter (fold_delta id name args) p (order a) |>).

(** The calls [CompleteAll] drains. *)
Definition completes (state : ToolCall) : bool := negb (emitted state) && negb (is_empty (call_Name state)).

Definition mark_emitted (state : ToolCall) : ToolCall := if completes state then state <| emitted := true |> else state.

Definition CompleteAll (a : ToolCallAccumulator) : list ToolCall * ToolCallAccumulator :=
  (mark_emitted <$> List.filter completes (order a), a <| order := mark_emitted <$> order a |>).

(** * Usage *)

Fixpoint UsageInt (values : list (string * any)) (keys : list string) : option Z :=
  match keys with
  | [] => None
  | key :: keys =>
      match map_get values key with
      | Some (VFloat x) => Some (f64_to_int64 x)
      | Some (VInt n) => Some n
      | Some (VNumber literal) => match ParseInt literal with Some n => Some n | None => UsageInt values keys end
      | _ => UsageInt values keys
      end
  end.

Fixpoint UsageMap (values : list (string * any)) (keys : list string) : option (list (string * any)) :=
  match keys with
  | [] => None
  | key :: keys => match get_map values key with Some nested => Some nested | None => UsageMap values keys end
  end.

Definition details_keys : list string :=
  ["completion_tokens_details"; "completionTokensDetails"; "output_tokens_details"; "outputTokensDetails"].

Definition details_usage (raw : list (string * any)) : option Z :=
  foldr (fun key rest =>
    match details ← UsageMap raw [key]; UsageInt details ["reasoning_tokens"; "reasoningTokens"; "thinking_tokens"; "thinkingTokens"] with
    | Some value => Some value
    | None => rest
    end) None details_keys.

Definition reasoningUsage (raw : list (string * any)) : option Z :=
  match UsageInt raw ["reasoning_tokens"; "reasoningTokens"; "completion_thinking_tokens"] with
  | Some value => Some value
  | None => details_usage raw
  end.

(** A count under both spellings of its key. *)
Definition count_pair (camel snake : string) (n : option Z) : list (string * any) :=
  match n with Some n => [(camel, VInt n); (snake, VInt n)] | None => [] end.

Definition NormalizeUsageMap (raw : option (list (string * any))) : list (string * any) :=
  let raw := default [] raw in
  match raw with
  | [] => []
  | _ =>
      let input := UsageInt raw ["prompt_tokens"; "promptTokens"; "input_tokens"; "inputTokens"] in
      let output := UsageInt raw ["completion_tokens"; "completionTokens"; "output_tokens"; "outputTokens"] in
      match input, output with
      | None, None => []
      | _, _ =>
          count_pair "inputTokens" "input_tokens" input ++ count_pair "outputTokens" "output_tokens" output
          ++ count_pair "cacheReadTokens" "cache_read_tokens" (UsageInt raw ["prompt_cache_hit_tokens"; "cached_tokens"])
          ++ count_pair "reasoningTokens" "reasoning_tokens" (reasoningUsage raw)
      end
  end.

(** * Events ([emit.go], [tool_deltas.go]) *)

Definition text_event (text : string) : SSEMessage :=
  {| Type_ := "model.text-delta"; Event := [("delta", VString text)] |}.
Definition reasoning_event (reasoning signature : string) : SSEMessage :=
  {| Type_ := "model.reasoning-delta"; Event := [("delta", VString reasoning); ("signature", VString signature)] |}.
Definition call_event (id : string) (call : ToolCall) : SSEMessage :=
  {| Type_ := "model.tool-call";
     Event := [("toolCallId", VString id); ("toolName", VString (call_Name call)); ("input", VString (Arguments call))] |}.
Definition delta_event (call : ToolCall) (delta : string) : SSEMessage :=
  {| Type_ := "model.tool-call-delta";
     Event := [("toolCallId", VString (call_ID call)); ("toolName", VString (call_Name call)); ("delta", VString delta)] |}.

(** The fields every reader's result has, the events sent so far and how many
    identifiers were minted for calls without one. *)
Record sink := mkSink {
  SawMeaningfulEvent : bool; ToolCallCount : Z; Usage : list (string * any); sent : list SSEMessage; minted : nat }.

#[export] Instance eta_sink : Eta sink := fun s =>
  mkSink (SawMeaningfulEvent s) (ToolCallCount s) (Usage s) (sent s) (minted s).

Definition new_sink : sink := mkSink false 0 [] [] 0.

Definition send (msg : SSEMessage) (s : sink) : sink := s <| sent := sent s ++ [msg] |>.

Definition EmitTextDelta (text : string) (s : sink) : sink :=
  if is_empty text then s else send (text_event text) (s <| SawMeaningfulEvent := true |>).

Section ids.
(** The clock and the process's counter at the n-th identifier of the stream. *)
Context (nanos sequence : nat -> Z).

Definition emit_call (s : sink) (call : ToolCall) : sink :=
  let s := s <| SawMeaningfulEvent := true |> <| ToolCallCount := i64 (ToolCallCount s + 1) |> in
  if is_empty (call_ID call)
  then send (call_event (NewToolCallID (nanos (minted s)) (sequence (minted s))) call) (s <| minted := S (minted s) |>)
  else send (call_event (call_ID call) call) s.

Definition EmitToolCalls (states : list ToolCall) (s : sink) : sink := foldl emit_call s states.
End ids.

Definition ApplyStreamUsage (usage : list (string * any)) (s : sink) : sink :=
  match usage with
  | [] => s
  | _ => send {| Type_ := "model.tokens-used"; Event := usage |} (s <| Usage := usage |> <| SawMeaningfulEvent := true |>)
  end.

(** Whether the identity of a call is settled enough to stream its arguments. *)
Definition streamable (call : ToolCall) : bool :=
  negb (is_empty (call_ID call) || is_empty (call_Name call) || String.eqb (call_Name call) "write_stdin").

(** The call after [EmitToolDelta], and the event. *)
Definition EmitToolDelta (call : ToolCall) : ToolCall * list SSEMessage :=
  if negb (streamable call) then (call, [])
  else
    let delta := drop_bytes (StreamedBytes call) (Arguments call) in
    if StreamStarted call && is_empty delta then (call, [])
    else (call <| StreamStarted := true |> <| StreamedBytes := String.length (Arguments call) |>, [delta_event call delta]).

Definition invalid_tools : go_error := Errorf "upstream returned invalid streamed tool arguments".

(** The first call whose streamed arguments are not a JSON object is an error. *)
Definition ValidateStreamedTools (states : list ToolCall) : option go_error :=
  if forallb (fun call => negb (StreamStarted call) ||
       match parse (Arguments call) with Some (JObject _) => true | _ => false end) states
  then None else Some invalid_tools.

(** With [stream], the reader streams what it can of the call just changed. *)
Definition stream_call (stream : bool) (p : nat) (st : ToolCallAccumulator * sink) : ToolCallAccumulator * sink :=
  let '(a, s) := st in
  if stream then
    match order a !! p with
    | Some call =>
        let '(call, msgs) := EmitToolDelta call in
        (a <| order := <[p := call]> (order a) |>, s <| sent := sent s ++ msgs |>)
    | None => (a, s)
    end
  else (a, s).

(** A delta of a call. *)
Record fragment := mkFragment { f_index : Z; f_id : string; f_name : string; f_args : string }.

#[export] Instance eta_fragment : Eta fragment := fun f => mkFragment (f_index f) (f_id f) (f_name f) (f_args f).
Definition no_fragment : fragment := mkFragment 0 "" "" "".

(** A field of a struct that is decoded and then not read. *)
Definition checked {A S} (x : option A) (s : S) : option S := x ← x; Some s.

(** A delta of a call, as the streams of both providers spell it. *)
Definition function_field (key : string) (v : json) (f : fragment) : option fragment :=
  if names "name" key then t ← decode_text v (f_name f); Some (f <| f_name := t |>)
  else if names "arguments" key then t ← decode_text v (f_args f); Some (f <| f_args := t |>)
  else Some f.

Definition tool_call_field (key : string) (v : json) (f : fragment) : option fragment :=
  if names "index" key then i ← decode_int v (f_index f); Some (f <| f_index := i |>)
  else if names "id" key then t ← decode_text v (f_id f); Some (f <| f_id := t |>)
  else if names "type" key then checked (decode_text v "") f
  else if names "function" key then decode_struct function_field v f
  else Some f.

Definition take_fragment (stream : bool) (f : fragment) (st : ToolCallAccumulator * sink) : ToolCallAccumulator * sink :=
  let '(p, a) := Add (f_index f) (f_id f) (f_name f) (f_args f) st.1 in stream_call stream p (a, st.2).

(** * The calls are the fragments *)

(** The value given last, of those that are not empty. *)
Definition last_given (values : list string) : string := foldl (fun old v => if is_empty v then old else v) "" values.

(** The identity and arguments of the fragments of one call. *)
Definition put_together (frs : list fragment) : string * string * string :=
  (last_given ((fun f => TrimSpace (f_id f)) <$> frs), last_given ((fun f => TrimSpace (f_name f)) <$> frs), concat_map f_args frs).

(** A fragment belongs to the call at work unless it bears another identifier. *)
Definition belongs (f : fragment) (group : list fragment) : bool :=
  let id := TrimSpace (f_id f) in
  let known := last_given ((fun f => TrimSpace (f_id f)) <$> group) in
  is_empty id || is_empty known || String.eqb known id.

Definition group_step (groups : list (list fragment)) (f : fragment) : list (list fragment) :=
  match last groups with
  | Some group => if belongs f group then take (length groups - 1) groups ++ [group ++ [f]] else groups ++ [[f]]
  | None => [[f]]
  end.

(** The fragments sent for one index, call by call. *)
Definition groups (frs : list fragment) : list (list fragment) := foldl group_step [] frs.
Definition of_index (i : Z) (frs : list fragment) : list fragment := List.filter (fun f => f_index f =? i) frs.

Definition told (c : ToolCall) : string * string * string := (call_ID c, call_Name c, Arguments c).

(** The calls of one index among all, [owners] being their indexes. *)
Definition owned {A} (i : Z) (owners : list Z) (cs : list A) : list A :=
  snd <$> List.filter (fun x => x.1 =? i) (zip owners cs).

Record built_by (frs : list fragment) (owners : list Z) (a : ToolCallAccumulator) : Prop := {
  built_length : length owners = length (order a);
  built_current : forall i, match calls a !! i with
    | Some p => exists o1 o2, owners = o1 ++ i :: o2 /\ p = length o1 /\ i ∉ o2
    | None => i ∉ owners
    end;
  built_calls : forall i, told <$> owned i owners (order a) = put_together <$> groups (of_index i frs);
  built_open : Forall (fun c => emitted c = false) (order a)
}.

Definition built (frs : list fragment) (a : ToolCallAccumulator) : Prop := exists owners, built_by frs owners a.

Lemma owned_app {A} i o1 o2 (c1 c2 : list A) : length o1 = length c1 -> owned i (o1 ++ o2) (c1 ++ c2) = owned i o1 c1 ++ owned i o2 c2.
Proof. intros H. unfold owned. by rewrite zip_with_app, List.filter_app, fmap_app by done. Qed.

Lemma owned_none {A} i owners (cs : list A) : i ∉ owners -> owned i owners cs = [].
Proof.
  intros H. unfold owned. revert cs. induction owners as [|o owners IH]; intros [|c cs]; try done.
  apply not_elem_of_cons in H as [Ho H]. cbn. rewrite (proj2 (Z.eqb_neq o i)) by done. by apply IH.
Qed.

Lemma owned_one {A} i j (c : A) : owned i [j] [c] = if j =? i then [c] else [].
Proof. unfold owned. cbn. by destruct (j =? i). Qed.

(** Its part of a call that [told] shows, the rest left alone. *)
Lemma told_insert p c c' (cs : list ToolCall) owners i :
  cs !! p = Some c -> told c' = told c -> told <$> owned i owners (<[p := c']> cs) = told <$> owned i owners cs.
Proof.
  intros Hp Ht. unfold owned. revert p owners Hp. induction cs as [|d cs IH]; intros [|p] [|o owners] Hp; try done; cbn in Hp |- *.
  - injection Hp as ->. destruct (o =? i); cbn; [by rewrite Ht|done].
  - destruct (o =? i); cbn; [f_equal|]; by apply IH.
Qed.

Lemma groups_snoc frs f : groups (frs ++ [f]) = group_step (groups frs) f.
Proof. unfold groups. by rewrite foldl_app. Qed.

Lemma of_index_snoc i frs f : of_index i (frs ++ [f]) = if f_index f =? i then of_index i frs ++ [f] else of_index i frs.
Proof. unfold of_index. rewrite List.filter_app. cbn. destruct (f_index f =? i); [done|]. by rewrite app_nil_r. Qed.

Lemma last_given_snoc vs v : last_given (vs ++ [v]) = if is_empty v then last_given vs else v.
Proof. unfold last_given. by rewrite foldl_app. Qed.

Lemma concat_map_snoc {A} (g : A -> string) l x : concat_map g (l ++ [x]) = concat_map g l +:+ g x.
Proof.
  induction l as [|y l IH]; [cbn; by rewrite sapp_nil_r|].
  change ((y :: l) ++ [x]) with (y :: (l ++ [x])). by rewrite !concat_map_cons, IH, sapp_assoc.
Qed.

Lemma told_fold_delta f c group :
  told c = put_together group -> told (fold_delta (f_id f) (f_name f) (f_args f) c) = put_together (group ++ [f]).
Proof.
  destruct c as [st sb id name args em]. unfold told, put_together. cbn. intros [= -> -> ->].
  rewrite !fmap_app. cbn. rewrite !last_given_snoc, concat_map_snoc.
  unfold fold_delta. by destruct (is_empty (TrimSpace (f_id f))), (is_empty (TrimSpace (f_name f))).
Qed.

Lemma starts_belongs f group c :
  told c = put_together group -> emitted c = false -> starts_another (TrimSpace (f_id f)) c = negb (belongs f group).
Proof.
  intros [= Hid _ _] He. unfold starts_another, belongs. rewrite He, <- Hid. cbn.
  by destruct (is_empty (TrimSpace (f_id f))), (is_empty (call_ID c)), (String.eqb (call_ID c) (TrimSpace (f_id f))).
Qed.

Lemma built_new : built [] NewToolCallAccumulator.
Proof.
  exists []. split; try done. intros i. change (calls NewToolCallAccumulator) with (∅ : gmap Z nat).
  rewrite lookup_empty. apply not_elem_of_nil.
Qed.

Lemma alter_middle {A} (g : A -> A) l1 c l2 : alter g (length l1) (l1 ++ c :: l2) = l1 ++ g c :: l2.
Proof. induction l1 as [|d l1 IH]; cbn; [done|]. f_equal. exact IH. Qed.

Lemma owned_middle {A} i o1 o2 l1 (c : A) l2 :
  length o1 = length l1 -> i ∉ o2 -> owned i (o1 ++ i :: o2) (l1 ++ c :: l2) = owned i o1 l1 ++ [c].
Proof.
  intros Hl Hn. rewrite owned_app by done. f_equal. change (i :: o2) with ([i] ++ o2). change (c :: l2) with ([c] ++ l2).
  rewrite owned_app, owned_one, Z.eqb_refl, (owned_none i o2) by done. done.
Qed.

Lemma owned_other {A} i j o1 o2 l1 (c c' : A) l2 :
  length o1 = length l1 -> i <> j -> owned i (o1 ++ j :: o2) (l1 ++ c :: l2) = owned i (o1 ++ j :: o2) (l1 ++ c' :: l2).
Proof.
  intros Hl Hn. rewrite !owned_app by done. f_equal. unfold owned. cbn. by rewrite (proj2 (Z.eqb_neq j i)) by done.
Qed.

(** Calls and groups side by side: a fragment goes on with the last group exactly
    where it goes on with the last call. *)
Lemma group_continues f gs cs group c :
  told <$> (cs ++ [c]) = put_together <$> gs -> last gs = Some group -> belongs f group = true ->
  told c = put_together group /\
  told <$> (cs ++ [fold_delta (f_id f) (f_name f) (f_args f) c]) = put_together <$> group_step gs f.
Proof.
  intros Ht Hg Hb. unfold group_step. rewrite Hg, Hb. apply last_Some in Hg as [gs' ->].
  rewrite !fmap_app in Ht. apply app_inj_2 in Ht as [Hcs Hc]; [|done]. cbn [fmap list_fmap] in Hc.
  assert (told c = put_together group) as E by congruence. split; [done|].
  rewrite length_app, Nat.add_sub, take_app_length, !fmap_app, Hcs. cbn [fmap list_fmap]. by rewrite (told_fold_delta f c group).
Qed.

Lemma group_opens f gs cs :
  told <$> cs = put_together <$> gs -> (forall group, last gs = Some group -> belongs f group = false) ->
  told <$> (cs ++ [fold_delta (f_id f) (f_name f) (f_args f) new_call]) = put_together <$> group_step gs f.
Proof.
  intros Ht Hb.
  assert (group_step gs f = gs ++ [[f]]) as ->.
  { unfold group_step. destruct (last gs) as [group|] eqn:El; [by rewrite (Hb group)|]. by apply last_None in El as ->. }
  rewrite !fmap_app, Ht. do 2 f_equal. cbn [fmap list_fmap]. by rewrite (told_fold_delta f new_call []).
Qed.

(** Where a fragment goes: on with a call in the middle, or to a new one. *)
Lemma Add_continues f a p :
  continued (f_index f) (TrimSpace (f_id f)) a = Some p ->
  (Add (f_index f) (f_id f) (f_name f) (f_args f) a)
  = (p, a <| order := alter (fold_delta (f_id f) (f_name f) (f_args f)) p (order a) |>).
Proof. intros E. unfold Add. by rewrite E. Qed.

Lemma Add_opens f a :
  continued (f_index f) (TrimSpace (f_id f)) a = None ->
  (Add (f_index f) (f_id f) (f_name f) (f_args f) a)
  = (length (order a), mkAccumulator (order a ++ [fold_delta (f_id f) (f_name f) (f_args f) new_call])
                         (<[f_index f := length (order a)]> (calls a))).
Proof. intros E. unfold Add. rewrite E. cbn [order set_field update_with]. by rewrite alter_middle. Qed.

Lemma fold_delta_emitted f c : emitted (fold_delta (f_id f) (f_name f) (f_args f) c) = emitted c.
Proof. unfold fold_delta. by destruct (is_empty _), (is_empty _). Qed.

(** The call at work for an index, and the group it stands for. *)
Lemma built_last frs owners a i p :
  built_by frs owners a -> calls a !! i = Some p ->
  exists o1 o2 l1 c l2 group, owners = o1 ++ i :: o2 /\ order a = l1 ++ c :: l2 /\ length o1 = length l1 /\ p = length l1 /\
    (i ∉ o2) /\ owned i owners (order a) = (owned i o1 l1 ++ [c]) /\ last (groups (of_index i frs)) = Some group /\
    told c = put_together group.
Proof.
  intros [Hl Hc Ht He] Hp. specialize (Hc i). rewrite Hp in Hc. destruct Hc as (o1 & o2 & -> & -> & Hn).
  rewrite length_app in Hl. cbn in Hl. destruct (lookup_lt_is_Some_2 (order a) (length o1)) as [c Hlook]; [lia|].
  apply list_elem_of_split_length in Hlook as (l1 & l2 & Eo & El).
  specialize (Ht i). rewrite Eo, owned_middle, fmap_app in Ht by done. cbn [fmap list_fmap] in Ht.
  destruct (last (groups (of_index i frs))) as [group|] eqn:Eg; cycle 1.
  { apply last_None in Eg. rewrite Eg in Ht. by apply app_nil in Ht as [_ ?]. }
  exists o1, o2, l1, c, l2, group. split_and!; try done.
  - rewrite Eo. by apply owned_middle.
  - apply last_Some in Eg as [gs' Eg]. rewrite Eg, fmap_app in Ht. apply app_inj_2 in Ht as [_ Ht]; [|done]. cbn in Ht. congruence.
Qed.

Lemma built_add frs a f :
  built frs a -> built (frs ++ [f]) (Add (f_index f) (f_id f) (f_name f) (f_args f) a).2.
Proof.
  intros [owners Hb]. pose proof Hb as [Hl Hc Ht He].
  destruct (continued (f_index f) (TrimSpace (f_id f)) a) as [p|] eqn:Ec.
  - rewrite (Add_continues _ _ _ Ec). unfold continued in Ec.
    destruct (calls a !! f_index f) as [q|] eqn:Ei; [|done]. cbn in Ec.
    destruct (built_last _ _ _ _ _ Hb Ei) as (o1 & o2 & l1 & c & l2 & group & -> & Eo & E1 & -> & Hn & Hown & Hg & Hgc).
    rewrite Eo, list_lookup_middle in Ec by done. cbn in Ec.
    destruct (starts_another (TrimSpace (f_id f)) c) eqn:Es; [done|]. injection Ec as <-.
    assert (emitted c = false) as Hec by (rewrite Eo in He; apply Forall_app in He as [_ He]; by inversion He).
    rewrite (starts_belongs f group c Hgc Hec) in Es. apply negb_false_iff in Es.
    exists (o1 ++ f_index f :: o2). cbn [snd]. rewrite Eo. cbn [order calls set_field update_with]. rewrite alter_middle.
    split; cbn [order calls].
    + rewrite Eo, !length_app in Hl. rewrite !length_app. cbn in *. lia.
    + exact Hc.
    + intros i. rewrite of_index_snoc. destruct (Z.eqb_spec (f_index f) i) as [<-|Hne]; cycle 1.
      { rewrite (owned_other i (f_index f) _ _ _ _ c) by (congruence || done). rewrite <- Eo. apply Ht. }
      rewrite owned_middle, groups_snoc by done.
      specialize (Ht (f_index f)). rewrite Hown in Ht. by apply (group_continues f _ _ group c).
    + rewrite Eo in He. apply Forall_app in He as [H1 H2]. inversion H2; subst. apply Forall_app. split; [done|].
      constructor; [|done]. by rewrite fold_delta_emitted.
  - rewrite (Add_opens _ _ Ec). exists (owners ++ [f_index f]). split; cbn [order calls snd].
    + rewrite !length_app. cbn. lia.
    + intros i. destruct (decide (i = f_index f)) as [->|Hne].
      * rewrite lookup_insert_eq. exists owners, []. split_and!; [done|by rewrite Hl|apply not_elem_of_nil].
      * rewrite lookup_insert_ne by done. specialize (Hc i). destruct (calls a !! i) as [p|].
        -- destruct Hc as (o1 & o2 & -> & -> & Hn). exists o1, (o2 ++ [f_index f]). split_and!; [by rewrite <- app_assoc|done|].
           rewrite elem_of_app, list_elem_of_singleton. tauto.
        -- rewrite elem_of_app, list_elem_of_singleton. tauto.
    + intros i. rewrite owned_app, of_index_snoc, owned_one by done. destruct (Z.eqb_spec (f_index f) i) as [<-|Hne]; cycle 1.
      { rewrite app_nil_r. apply Ht. }
      rewrite groups_snoc. apply group_opens; [apply Ht|]. intros group Hg.
      unfold continued in Ec. destruct (calls a !! f_index f) as [p|] eqn:Ei; cycle 1.
      { specialize (Hc (f_index f)). rewrite Ei in Hc. specialize (Ht (f_index f)). rewrite owned_none in Ht by done.
        destruct (groups _); [done|discriminate]. }
      destruct (built_last _ _ _ _ _ Hb Ei) as (o1 & o2 & l1 & c & l2 & group' & -> & Eo & E1 & -> & Hn & Hown & Hg' & Hgc).
      rewrite Hg in Hg'. injection Hg' as <-. cbn in Ec. rewrite Eo, list_lookup_middle in Ec by done. cbn in Ec.
      assert (emitted c = false) as Hec by (rewrite Eo in He; apply Forall_app in He as [_ He]; by inversion He).
      rewrite (starts_belongs f group c Hgc Hec) in Ec. by destruct (belongs f group).
    + apply Forall_app. split; [done|]. constructor; [|done]. by rewrite fold_delta_emitted.
Qed.

Lemma EmitToolDelta_told c : told (EmitToolDelta c).1 = told c /\ emitted (EmitToolDelta c).1 = emitted c.
Proof. unfold EmitToolDelta. by destruct (streamable c); cbn [negb]; [destruct (StreamStarted c && _)|]. Qed.

Lemma built_stream stream p frs a s : built frs a -> built frs (stream_call stream p (a, s)).1.
Proof.
  intros [owners [Hl Hc Ht He]]. unfold stream_call. destruct stream; [|by exists owners].
  destruct (order a !! p) as [c|] eqn:Ep; [|by exists owners]. destruct (EmitToolDelta_told c) as [Htold Hem].
  destruct (EmitToolDelta c) as [c' msgs]. cbn [fst] in *. exists owners. split; cbn [order calls set_field update_with].
  - by rewrite length_insert.
  - exact Hc.
  - intros i. by rewrite (told_insert p c).
  - apply Forall_insert; [done|]. rewrite Hem. by eapply Forall_lookup_1 in He.
Qed.

Lemma built_take stream frs f a s : built frs a -> built (frs ++ [f]) (take_fragment stream f (a, s)).1.
Proof.
  intros Hb. unfold take_fragment. cbn [fst snd]. pose proof (built_add _ _ f Hb) as Ha.
  destruct (Add _ _ _ _ a) as [p a']. by apply built_stream.
Qed.

(** The calls rebuilt for an index are its fragments: consecutive fragments that
    bear no other identifier are one call, its arguments are theirs put end to end,
    and fragments of other indexes in between do not matter. *)
Lemma calls_are_the_fragments frs a :
  built frs a -> exists owners, length owners = length (order a) /\
    forall i, told <$> owned i owners (order a) = put_together <$> groups (of_index i frs).
Proof. intros [owners [Hl _ Ht _]]. by exists owners. Qed.

(** * What is streamed of a call *)

(** The arguments streamed under an identifier. *)
Definition streamed_as (id : string) (msg : SSEMessage) : string :=
  if String.eqb (Type_ msg) "model.tool-call-delta" && String.eqb (string_of (Event msg) "toolCallId") id
  then string_of (Event msg) "delta" else "".
Definition streamed (id : string) (msgs : list SSEMessage) : string := concat_map (streamed_as id) msgs.

Definition holds (id : string) (a : ToolCallAccumulator) (p : nat) : Prop :=
  exists c, order a !! p = Some c /\ call_ID c = id.

(** At most one call of the stream has the identifier. *)
Definition sole (id : string) (a : ToolCallAccumulator) : Prop := forall p q, holds id a p -> holds id a q -> p = q.

Record in_step (stream : bool) (a : ToolCallAccumulator) (msgs : list SSEMessage) : Prop := {
  step_bound : forall p c, order a !! p = Some c -> (StreamedBytes c <= String.length (Arguments c))%nat;
  step_fresh : forall p c, order a !! p = Some c -> call_ID c = ""%string -> StreamedBytes c = 0%nat;
  step_told : forall id, id <> ""%string -> streamed id msgs <> ""%string -> exists p, holds id a p;
  step_same : forall id p c, id <> ""%string -> sole id a -> order a !! p = Some c -> call_ID c = id ->
                streamed id msgs = take_bytes (StreamedBytes c) (Arguments c);
  step_all : stream = true -> forall p c, order a !! p = Some c -> streamable c = true ->
                StreamStarted c = true /\ StreamedBytes c = String.length (Arguments c);
  step_off : stream = false -> forall p c, order a !! p = Some c -> StreamStarted c = false
}.

Lemma take_bytes_all s : take_bytes (String.length s) s = s.
Proof. induction s as [|c s IH]; [done|]. cbn. by rewrite IH. Qed.

Lemma take_bytes_shorter n a b : (n <= String.length a)%nat -> take_bytes n (a +:+ b) = take_bytes n a.
Proof.
  revert a. induction n as [|n IH]; intros a Hn; [by destruct a, b|].
  destruct a as [|c a]; cbn in Hn; [lia|]. rewrite sapp_cons. cbn. f_equal. apply IH. lia.
Qed.

Lemma take_drop_bytes n s : take_bytes n s +:+ drop_bytes n s = s.
Proof.
  revert s. induction n as [|n IH]; intros s; [by destruct s|]. destruct s as [|c s]; [done|].
  cbn [take_bytes drop_bytes]. by rewrite sapp_cons, IH.
Qed.

Lemma streamed_snoc id msgs msg : streamed id (msgs ++ [msg]) = streamed id msgs +:+ streamed_as id msg.
Proof. apply concat_map_snoc. Qed.

Lemma streamed_delta id c delta : streamed_as id (delta_event c delta) = if String.eqb (call_ID c) id then delta else "".
Proof. done. Qed.

(** The fields a delta of a call changes. *)
Lemma fold_delta_fields f c :
  let c' := fold_delta (f_id f) (f_name f) (f_args f) c in
  StreamedBytes c' = StreamedBytes c /\ StreamStarted c' = StreamStarted c /\
  Arguments c' = Arguments c +:+ f_args f /\
  call_ID c' = (if is_empty (TrimSpace (f_id f)) then call_ID c else TrimSpace (f_id f)).
Proof. unfold fold_delta. by destruct (is_empty (TrimSpace (f_id f))), (is_empty (TrimSpace (f_name f))). Qed.

(** A call that goes on keeps its identifier. *)
Lemma fold_delta_keeps_id f c :
  starts_another (TrimSpace (f_id f)) c = false -> call_ID c <> ""%string ->
  call_ID (fold_delta (f_id f) (f_name f) (f_args f) c) = call_ID c.
Proof.
  intros Hs Hid. destruct (fold_delta_fields f c) as (_ & _ & _ & ->).
  destruct (is_empty (TrimSpace (f_id f))) eqn:E; [done|]. unfold starts_another in Hs. rewrite E in Hs.
  apply is_empty_false in Hid. rewrite Hid in Hs. destruct (emitted c); [done|]. cbn in Hs.
  apply negb_false_iff, String.eqb_eq in Hs. done.
Qed.

(** The call a fragment changes, as it was; the others stay. *)
Lemma Add_place f a :
  let '(p, a') := Add (f_index f) (f_id f) (f_name f) (f_args f) a in
  exists c, (order a !! p = Some c /\ starts_another (TrimSpace (f_id f)) c = false \/ order a !! p = None /\ c = new_call) /\
    order a' !! p = Some (fold_delta (f_id f) (f_name f) (f_args f) c) /\
    forall q, q <> p -> order a' !! q = order a !! q.
Proof.
  destruct (continued (f_index f) (TrimSpace (f_id f)) a) as [p|] eqn:Ec.
  - rewrite (Add_continues _ _ _ Ec). unfold continued in Ec. destruct (calls a !! f_index f) as [r|]; [|done]. cbn in Ec.
    destruct (order a !! r) as [c|] eqn:Er; [|done]. cbn in Ec. destruct (starts_another _ c) eqn:Es; [done|].
    injection Ec as <-. exists c. cbn [order set_field update_with]. split_and!; [by left| |].
    + by rewrite list_lookup_alter_eq, Er.
    + intros q Hq. by apply list_lookup_alter_ne.
  - rewrite (Add_opens _ _ Ec). cbn [order]. exists new_call. split_and!.
    + right. split; [|done]. by apply lookup_ge_None_2.
    + by rewrite list_lookup_middle.
    + intros q Hq. destruct (decide (q < length (order a))%nat) as [Hlt|Hge]; [by rewrite lookup_app_l|].
      rewrite !lookup_ge_None_2; rewrite ?length_app; cbn; lia || done.
Qed.

(** What [EmitToolDelta] does to the accounts of a call. *)
Lemma EmitToolDelta_spec c :
  (StreamedBytes c <= String.length (Arguments c))%nat ->
  let '(c', msgs) := EmitToolDelta c in
  told c' = told c /\ (StreamedBytes c <= StreamedBytes c' <= String.length (Arguments c))%nat /\
  (streamable c = true -> StreamStarted c' = true /\ StreamedBytes c' = String.length (Arguments c)) /\
  (forall id, streamed id msgs = if String.eqb (call_ID c) id
     then take_bytes (StreamedBytes c' - StreamedBytes c) (drop_bytes (StreamedBytes c) (Arguments c)) else "") /\
  (call_ID c = ""%string -> c' = c).
Proof.
  intros Hb. unfold EmitToolDelta. destruct (streamable c) eqn:Es; cbn [negb]; cycle 1.
  { split_and!; try done. intros id. rewrite Nat.sub_diag. by destruct (drop_bytes _ _), (String.eqb _ _). }
  set (delta := drop_bytes (StreamedBytes c) (Arguments c)).
  assert (String.length delta = (String.length (Arguments c) - StreamedBytes c)%nat) as Hd by apply drop_bytes_length.
  destruct (StreamStarted c) eqn:Est, (is_empty delta) eqn:Ed; cbn [andb].
  1: { apply is_empty_true in Ed. rewrite Ed in Hd. cbn in Hd. split_and!; try done; try lia.
    - intros _. split; [done|lia].
    - intros id. rewrite Nat.sub_diag. by destruct delta, (String.eqb _ _). }
  all: assert (call_ID c <> ""%string) as Hid by (intros E; unfold streamable in Es; by rewrite E in Es).
  all: split_and!; cbn [told StreamedBytes StreamStarted set_field update_with]; try done; try lia.
  all: intros id; change (streamed id [delta_event c delta]) with (streamed_as id (delta_event c delta) +:+ "");
    rewrite sapp_nil_r, streamed_delta, <- Hd, take_bytes_all; done.
Qed.

Lemma streamed_app id l1 l2 : streamed id (l1 ++ l2) = streamed id l1 +:+ streamed id l2.
Proof.
  unfold streamed. induction l1 as [|m l1 IH]; [done|].
  change ((m :: l1) ++ l2) with (m :: (l1 ++ l2)). by rewrite !concat_map_cons, IH, sapp_assoc.
Qed.

Lemma drop_bytes_app_le n a b : (n <= String.length a)%nat -> drop_bytes n (a +:+ b) = drop_bytes n a +:+ b.
Proof.
  revert a. induction n as [|n IH]; intros a Hn; [by destruct a, b|].
  destruct a as [|c a]; cbn in Hn; [lia|]. rewrite sapp_cons. cbn. apply IH. lia.
Qed.

Lemma take_bytes_split n m s : (n <= m)%nat -> take_bytes n s +:+ take_bytes (m - n) (drop_bytes n s) = take_bytes m s.
Proof.
  revert m s. induction n as [|n IH]; intros m s Hnm; [by rewrite Nat.sub_0_r; destruct s, m|].
  destruct m as [|m]; [lia|]. destruct s as [|c s]; [by cbn; destruct (m - n)%nat|]. cbn [take_bytes drop_bytes Nat.sub].
  rewrite sapp_cons. f_equal. apply IH. lia.
Qed.

(** A call before and after a fragment is taken and, with [stream], streamed. *)
Definition after_fragment (stream : bool) (f : fragment) (c : ToolCall) : ToolCall * list SSEMessage :=
  let c := fold_delta (f_id f) (f_name f) (f_args f) c in if stream then EmitToolDelta c else (c, []).

Lemma take_place stream f a s :
  let '(a', s') := take_fragment stream f (a, s) in
  exists p c, (order a !! p = Some c /\ starts_another (TrimSpace (f_id f)) c = false \/ order a !! p = None /\ c = new_call) /\
    order a' !! p = Some (after_fragment stream f c).1 /\ sent s' = sent s ++ (after_fragment stream f c).2 /\
    forall q, q <> p -> order a' !! q = order a !! q.
Proof.
  unfold take_fragment, stream_call, after_fragment. cbn [fst snd]. pose proof (Add_place f a) as Hp.
  destruct (Add _ _ _ _ a) as [p a']. destruct Hp as (c & Hc & Hp & Hq). destruct stream; cycle 1.
  { exists p, c. split_and!; try done. by rewrite app_nil_r. }
  rewrite Hp. destruct (EmitToolDelta _) as [c' msgs] eqn:E. exists p, c. cbn [order sent fst snd set_field update_with]. rewrite E.
  split_and!; [done| |done|].
  - apply list_lookup_insert_eq. by eapply lookup_lt_Some.
  - intros q Hne. rewrite list_lookup_insert_ne by done. by apply Hq.
Qed.

Lemma after_fragment_spec stream f c :
  (StreamedBytes c <= String.length (Arguments c))%nat ->
  let '(c', msgs) := after_fragment stream f c in
  let args := Arguments c +:+ f_args f in
  Arguments c' = args /\
  call_ID c' = (if is_empty (TrimSpace (f_id f)) then call_ID c else TrimSpace (f_id f)) /\
  (StreamedBytes c <= StreamedBytes c' <= String.length args)%nat /\
  (stream = true -> streamable c' = true -> StreamStarted c' = true /\ StreamedBytes c' = String.length args) /\
  (forall id, streamed id msgs = if String.eqb (call_ID c') id
     then take_bytes (StreamedBytes c' - StreamedBytes c) (drop_bytes (StreamedBytes c) args) else "") /\
  (call_ID c' = ""%string -> StreamedBytes c' = StreamedBytes c) /\
  (stream = false -> StreamStarted c' = StreamStarted c).
Proof.
  intros Hb. unfold after_fragment. destruct (fold_delta_fields f c) as (Esb & Est & Ea & Ei).
  set (c1 := fold_delta _ _ _ c) in *. clearbody c1.
  assert (StreamedBytes c1 <= String.length (Arguments c1))%nat as Hb1 by (rewrite Esb, Ea, string_length_app; lia).
  destruct stream; cycle 1.
  { rewrite Esb, Ea in *. split_and!; try done. intros id. rewrite Nat.sub_diag. by destruct (drop_bytes _ _), (String.eqb _ _). }
  pose proof (EmitToolDelta_spec c1 Hb1) as H. destruct (EmitToolDelta c1) as [c' msgs].
  destruct H as ([= Hid Hn Ha] & Hsb & Hs & Hm & He). rewrite Ha, Hid, <- Ea, <- Esb. split_and!; try done; try lia.
  - intros _ Hst. apply Hs. revert Hst. unfold streamable. by rewrite Hid, Hn.
  - intros E. by rewrite He.
Qed.

Lemma in_step_new stream : in_step stream NewToolCallAccumulator [].
Proof. by split. Qed.

(** Identifiers stay with their calls. *)
Lemma holds_kept stream f a s id p :
  id <> ""%string -> holds id a p -> holds id (take_fragment stream f (a, s)).1 p.
Proof.
  intros Hid (c & Hp & Hc). pose proof (take_place stream f a s) as Ht. destruct (take_fragment stream f (a, s)) as [a' s'].
  destruct Ht as (q & c0 & Hq & Hq' & _ & Hne). destruct (decide (p = q)) as [->|Hpq]; cycle 1.
  { exists c. cbn [fst]. by rewrite Hne. }
  destruct Hq as [[Hq Hs]|[Hq _]]; [|congruence]. rewrite Hp in Hq. injection Hq as <-.
  exists (after_fragment stream f c).1. split; [done|]. subst id. rewrite <- (fold_delta_keeps_id f c Hs Hid).
  unfold after_fragment. destruct stream; [|done]. by destruct (EmitToolDelta_told (fold_delta (f_id f) (f_name f) (f_args f) c)) as [[=] _].
Qed.

Lemma take_in_step stream f a s :
  in_step stream a (sent s) ->
  in_step stream (take_fragment stream f (a, s)).1 (sent (take_fragment stream f (a, s)).2).
Proof.
  intros [Hb Hf Ht Hs Ha Ho]. pose proof (take_place stream f a s) as Hp.
  assert (forall id p, id <> ""%string -> holds id a p -> holds id (take_fragment stream f (a, s)).1 p) as Hk
    by (intros; by apply holds_kept).
  destruct (take_fragment stream f (a, s)) as [a' s']. cbn [fst snd] in *.
  destruct Hp as (p & c & Hc & Hp & Hsent & Hne).
  assert (StreamedBytes c <= String.length (Arguments c))%nat as Hbc.
  { destruct Hc as [[Hc _]|[_ ->]]; [by eapply Hb|done]. }
  pose proof (after_fragment_spec stream f c Hbc) as Hspec. destruct (after_fragment stream f c) as [c' msgs]. cbn [fst snd] in *.
  destruct Hspec as (Eargs & Eid & Hsb & Hall & Hmsgs & Hempty & Hoff).
  assert (forall id, streamed id (sent s') = streamed id (sent s) +:+ streamed id msgs) as Happ
    by (intros; by rewrite Hsent, streamed_app).
  assert (call_ID c = ""%string -> StreamedBytes c = 0%nat) as Hc0 by (destruct Hc as [[Hc _]|[_ ->]]; [by eapply Hf|done]).
  split.
  - intros q d Hq. destruct (decide (q = p)) as [->|?]; [|rewrite Hne in Hq by done; by eapply Hb].
    rewrite Hp in Hq. injection Hq as <-. rewrite Eargs. lia.
  - intros q d Hq Hd. destruct (decide (q = p)) as [->|?]; [|rewrite Hne in Hq by done; by eapply Hf].
    rewrite Hp in Hq. injection Hq as <-. rewrite Hempty by done. apply Hc0. rewrite Eid in Hd.
    destruct (is_empty (TrimSpace (f_id f))) eqn:E; [done|]. by apply is_empty_false in E.
  - intros id Hid Hst. rewrite Happ in Hst. destruct (decide (streamed id msgs = ""%string)) as [E|E].
    + rewrite E, sapp_nil_r in Hst. destruct (Ht id Hid Hst) as [q Hq]. exists q. by apply Hk.
    + rewrite Hmsgs in E. destruct (String.eqb_spec (call_ID c') id) as [Ee|]; [|done]. by exists p, c'.
  - intros id q d Hid Hsole Hq Hd.
    assert (sole id a) as Hsole0 by (intros x y Hx Hy; apply Hsole; by apply Hk).
    rewrite Happ, Hmsgs. destruct (decide (q = p)) as [->|Hqp]; cycle 1.
    + rewrite Hne in Hq by done. destruct (String.eqb_spec (call_ID c') id) as [E|_].
      * exfalso. apply Hqp, Hsole; [exists d; split; [by rewrite Hne|done]|by exists c'].
      * rewrite sapp_nil_r. by apply (Hs id q d).
    + rewrite Hp in Hq. injection Hq as <-. rewrite Hd, String.eqb_refl, Eargs.
      destruct (decide (call_ID c = id)) as [Eold|Enew].
      * destruct Hc as [[Hc _]|[_ ->]]; [|by destruct Hid]. rewrite (Hs id p c) by done.
        rewrite <- (take_bytes_shorter (StreamedBytes c) (Arguments c) (f_args f)) by done. apply take_bytes_split. lia.
      * assert (streamed id (sent s) = ""%string) as ->.
        { destruct (decide (streamed id (sent s) = ""%string)) as [?|Hn]; [done|]. destruct (Ht id Hid Hn) as [r Hr]. exfalso.
          destruct (decide (r = p)) as [->|Hrp].
          - destruct Hr as (d & Hd' & Hdid). destruct Hc as [[Hc _]|[Hc _]]; congruence.
          - apply Hrp, Hsole; [by apply Hk|by exists c']. }
        rewrite Hc0; [by rewrite Nat.sub_0_r|].
        rewrite Eid in Hd. destruct (is_empty (TrimSpace (f_id f))) eqn:E; [congruence|].
        destruct Hc as [[Hc Hst]|[_ ->]]; [|done]. destruct (decide (call_ID c = ""%string)) as [?|Hcid]; [done|].
        exfalso. apply Enew. pose proof (fold_delta_keeps_id f c Hst Hcid) as Hkeep.
        destruct (fold_delta_fields f c) as (_ & _ & _ & Ef). rewrite E in Ef. congruence.
  - intros Hst q d Hq Hd. destruct (decide (q = p)) as [->|?]; [|rewrite Hne in Hq by done; by eapply Ha].
    rewrite Hp in Hq. injection Hq as <-. rewrite Eargs. by apply Hall.
  - intros Hst q d Hq. destruct (decide (q = p)) as [->|?]; [|rewrite Hne in Hq by done; by eapply Ho].
    rewrite Hp in Hq. injection Hq as <-. rewrite Hoff by done. destruct Hc as [[Hc _]|[_ ->]]; [by eapply Ho|done].
Qed.

(** What is streamed under an identifier only one call bears is the beginning of
    the call's arguments, and all of them once its name is known too. *)
Lemma streamed_arguments stream a msgs id p c :
  in_step stream a msgs -> id <> ""%string -> sole id a -> order a !! p = Some c -> call_ID c = id ->
  exists rest, Arguments c = streamed id msgs +:+ rest /\ (stream = true -> streamable c = true -> rest = ""%string).
Proof.
  intros [Hb Hf Ht Hs Ha _] Hid Hsole Hp Hc. exists (drop_bytes (StreamedBytes c) (Arguments c)).
  rewrite (Hs id p c), take_drop_bytes by done. split; [done|]. intros Hst Hcall.
  destruct (Ha Hst p c Hp Hcall) as [_ ->]. by apply drop_bytes_nil.
Qed.

(** * Reading the events *)

Definition is_type (type : string) (msg : SSEMessage) : bool := String.eqb (Type_ msg) type.
Definition delta_text (type : string) (msg : SSEMessage) : string :=
  if is_type type msg then string_of (Event msg) "delta" else "".

(** The text and the reasoning of a run of events. *)
Definition text_of (msgs : list SSEMessage) : string := concat_map (delta_text "model.text-delta") msgs.
Definition reasoning_of (msgs : list SSEMessage) : string := concat_map (delta_text "model.reasoning-delta") msgs.
Definition calls_of (msgs : list SSEMessage) : list SSEMessage := List.filter (is_type "model.tool-call") msgs.

(** A call is delivered by an event with its name and arguments, under its own
    identifier or, where the upstream gave none, a minted one. *)
Definition delivers (c : ToolCall) (msg : SSEMessage) : Prop :=
  exists id, msg = call_event id c /\ (call_ID c <> ""%string -> id = call_ID c).

Definition named (c : ToolCall) : bool := negb (is_empty (call_Name c)).

Lemma concat_map_join {A} (g : A -> string) l1 l2 : concat_map g (l1 ++ l2) = concat_map g l1 +:+ concat_map g l2.
Proof.
  induction l1 as [|m l1 IH]; [done|].
  change ((m :: l1) ++ l2) with (m :: (l1 ++ l2)). by rewrite !concat_map_cons, IH, sapp_assoc.
Qed.

(** A run of events that says nothing of its own kind. *)
Record silent (msgs : list SSEMessage) : Prop := {
  silent_text : text_of msgs = ""%string;
  silent_reasoning : reasoning_of msgs = ""%string;
  silent_calls : calls_of msgs = []
}.

Lemma silent_one msg :
  is_type "model.text-delta" msg = false -> is_type "model.reasoning-delta" msg = false -> is_type "model.tool-call" msg = false ->
  silent [msg].
Proof.
  intros H1 H2 H3. split; unfold text_of, reasoning_of, calls_of; cbn; unfold delta_text; by rewrite ?H1, ?H2, ?H3.
Qed.

Lemma EmitToolDelta_silent c : silent (EmitToolDelta c).2.
Proof.
  unfold EmitToolDelta. destruct (streamable c); cbn [negb]; [|by split]. destruct (StreamStarted c && _); [by split|].
  by apply silent_one.
Qed.

Lemma take_silent stream f a s :
  exists msgs, sent (take_fragment stream f (a, s)).2 = sent s ++ msgs /\ silent msgs.
Proof.
  pose proof (take_place stream f a s) as H. destruct (take_fragment stream f (a, s)) as [a' s'].
  destruct H as (p & c & _ & _ & Hs & _). eexists. split; [exact Hs|]. unfold after_fragment.
  destruct stream; [apply EmitToolDelta_silent|by split].
Qed.

Lemma text_of_silent l msgs : silent msgs -> text_of (l ++ msgs) = text_of l.
Proof. intros [H _ _]. unfold text_of in *. by rewrite concat_map_join, H, sapp_nil_r. Qed.

Lemma reasoning_of_silent l msgs : silent msgs -> reasoning_of (l ++ msgs) = reasoning_of l.
Proof. intros [_ H _]. unfold reasoning_of in *. by rewrite concat_map_join, H, sapp_nil_r. Qed.

Lemma calls_of_silent l msgs : silent msgs -> calls_of (l ++ msgs) = calls_of l.
Proof. intros [_ _ H]. unfold calls_of in *. by rewrite List.filter_app, H, app_nil_r. Qed.

(** Events that stream no arguments leave the accounts of the calls alone. *)
Lemma in_step_same stream a l msgs :
  (forall id, streamed id msgs = ""%string) -> in_step stream a l -> in_step stream a (l ++ msgs).
Proof.
  intros Hn [Hb Hf Ht Hs Ha Ho]. assert (forall id, streamed id (l ++ msgs) = streamed id l) as E
    by (intros; by rewrite streamed_app, Hn, sapp_nil_r).
  split; try done.
  - intros id Hid. rewrite E. by apply Ht.
  - intros id p c Hid Hsole Hp Hc. rewrite E. by apply (Hs id p c).
Qed.

(** The calls drained, as events. *)
Lemma EmitToolCalls_spec nanos sequence states s :
  exists msgs, sent (EmitToolCalls nanos sequence states s) = sent s ++ msgs /\ Forall2 delivers states msgs /\
    calls_of msgs = msgs /\ text_of msgs = ""%string /\ reasoning_of msgs = ""%string /\ (forall id, streamed id msgs = ""%string).
Proof.
  revert s. induction states as [|c states IH]; intros s.
  - exists []. split_and!; try done. by rewrite app_nil_r.
  - cbn [EmitToolCalls foldl]. destruct (IH (emit_call nanos sequence s c)) as (msgs & Hs & Hf & Hc & Ht & Hr & Hd).
    fold (EmitToolCalls nanos sequence states (emit_call nanos sequence s c)).
    assert (exists id, sent (emit_call nanos sequence s c) = sent s ++ [call_event id c] /\ (call_ID c <> ""%string -> id = call_ID c))
      as (id & He & Hid).
    { unfold emit_call. destruct (is_empty (call_ID c)) eqn:E; [|by exists (call_ID c)].
      eexists. split; [done|]. by apply is_empty_true in E as ->. }
    exists (call_event id c :: msgs). split_and!.
    + by rewrite Hs, He, <- app_assoc.
    + constructor; [by exists id|done].
    + unfold calls_of in *. cbn. by rewrite Hc.
    + unfold text_of in *. rewrite concat_map_cons, Ht. done.
    + unfold reasoning_of in *. rewrite concat_map_cons, Hr. done.
    + intros i. unfold streamed in *. rewrite concat_map_cons, Hd. done.
Qed.

(** A call that was drained is told as before. *)
Lemma mark_emitted_told c : told (mark_emitted c) = told c.
Proof. unfold mark_emitted. by destruct (completes c). Qed.

Lemma usage_silent usage s : exists msgs, sent (ApplyStreamUsage usage s) = sent s ++ msgs /\ silent msgs /\ (forall id, streamed id msgs = ""%string).
Proof.
  unfold ApplyStreamUsage. destruct usage as [|u usage]; [by exists []; split_and!; [by rewrite app_nil_r| |]|].
  eexists. split_and!; [done|by apply silent_one|done].
Qed.

Lemma EmitTextDelta_spec text s :
  exists msgs, sent (EmitTextDelta text s) = sent s ++ msgs /\
    text_of msgs = text /\ reasoning_of msgs = ""%string /\ calls_of msgs = [] /\ (forall id, streamed id msgs = ""%string).
Proof.
  unfold EmitTextDelta. destruct (is_empty text) eqn:E.
  - apply is_empty_true in E as ->. exists []. split_and!; try done. by rewrite app_nil_r.
  - eexists; split_and!; try done. cbn. by rewrite sapp_nil_r.
Qed.
