(* ===== verification/WorkBuddyStream.v ===== *)
(** The WorkBuddy response reader ([src/internal/workbuddy/stream.go]) with the
    part of [runChat] ([client.go]) that handles the response and the typed
    failures of [auth.go].

    [workbuddy_answer_is_whole]: an attempt that succeeds has read the whole answer,
    up to a closing chunk and [DONE], and has reported all of it once.
    [restriction_reaches_the_classifier]: the business code of a restricted
    account is recognised in every text it is reported with. *)

From Stdlib Require Import Ascii.
From S2P Require Import Prelude GoFloat UpstreamErrors Json OpenAISSE StreamHandler ProviderStream.

(** * Failures ([auth.go]) *)

Definition CodeLoginPending : Z := 11217.
Definition CodeModelThrottle : Z := 6004.
Definition CodePolicyBlocked : Z := 11128.
Definition CodeAccountRestricted : Z := 11140.
Definition CodeSessionDead : Z := 12153.

Definition errorHints (code : Z) : string :=
  if code =? CodeLoginPending then "workbuddy login has not completed; finish the browser authorization"
  else if code =? CodeModelThrottle then "this model hit the per-model frequency limit; wait for the window reset or use another model"
  else if code =? CodePolicyBlocked then "workbuddy blocked the request by security policy (unapproved channel); the prompt may carry a client identity marker"
  else if code =? CodeSessionDead then "workbuddy session is dead (Offline user session not found); re-login the account"
  else if code =? CodeAccountRestricted then "workbuddy account is restricted due to unusual activity; skip requests during the restriction window"
  else "".

Record APIError := mkAPIError { HTTPStatus : Z; Code : Z; Message : string; RetryDelay : duration }.

#[export] Instance eta_APIError : Eta APIError := fun e => mkAPIError (HTTPStatus e) (Code e) (Message e) (RetryDelay e).

(** [util.FirstNonEmptyUntrimmed]. *)
Definition FirstNonEmptyUntrimmed (values : list string) : string :=
  default "" (List.find (fun value => negb (is_empty (TrimSpace value))) values).

Definition status_parts (e : APIError) : list string :=
  let wire := ("upstream_status=" +:+ Itoa (HTTPStatus e))%string in
  if (Code e =? CodeAccountRestricted) && negb (HTTPStatus e =? 403) then ["status=403"%string; wire]
  else if (Code e =? CodeSessionDead) && negb (HTTPStatus e =? 401) then ["status=401"%string; wire]
  else if (Code e =? CodeModelThrottle) && negb (HTTPStatus e =? 429) then ["status=429"%string; wire]
  else [("status=" +:+ Itoa (HTTPStatus e))%string].

Definition Join (parts : list string) : string :=
  match parts with [] => "" | p :: parts => p +:+ concat_map (fun p => ", " +:+ p) parts end.

(** [Error] of a non-nil error. *)
Definition APIError_Error (e : APIError) : string :=
  let parts := status_parts e
    ++ (if Code e =? 0 then [] else [("code=" +:+ Itoa (Code e))%string])
    ++ (if is_empty (Message e) then [] else [("message=" +:+ Truncate (Message e) 300)%string]) in
  let hint := errorHints (Code e) in
  "workbuddy API error: " +:+ Join parts +:+ (if is_empty hint then "" else " (" +:+ hint +:+ ")").

(** [envelope]: code and message; the data is any value. *)
Definition envelope_field (key : string) (v : json) (e : Z * string) : option (Z * string) :=
  if names "code" key then code ← decode_int v e.1; Some (code, e.2)
  else if names "msg" key then msg ← decode_text v e.2; Some (e.1, msg)
  else Some e.

Definition read_envelope (text : string) : option (Z * string) :=
  v ← parse text; decode_struct envelope_field v (0, ""%string).

Definition apiErrorWithRetry (status : Z) (raw : string) (retryDelay : duration) : APIError :=
  let body := TrimSpace raw in
  let trimmed := TrimSpace body in
  let '(code, msg) :=
    if HasPrefix trimmed "{"
    then match read_envelope trimmed with Some (code, msg) => (code, TrimSpace msg) | None => (0, ""%string) end
    else (0, ""%string) in
  let msg := if negb (code =? 0) && is_empty msg then body else msg in
  mkAPIError status code (FirstNonEmptyUntrimmed [msg; body]) retryDelay.

Definition apiError (status : Z) (raw : string) : APIError := apiErrorWithRetry status raw 0.

(** * Chunks ([stream.go]) *)

Record stream_delta := mkDelta { Content : string; ReasoningContent : string; ToolCalls : option (list fragment) }.
Record choice := mkChoice { FinishReason : string; Delta : stream_delta }.
Record streamChunk := mkChunk {
  chunk_Model : string; chunk_Code : Z; Choices : option (list choice);
  chunk_Usage : option (list (string * any)); Error_Message : string }.

#[export] Instance eta_delta : Eta stream_delta := fun d => mkDelta (Content d) (ReasoningContent d) (ToolCalls d).
#[export] Instance eta_choice : Eta choice := fun c => mkChoice (FinishReason c) (Delta c).
#[export] Instance eta_chunk : Eta streamChunk := fun c =>
  mkChunk (chunk_Model c) (chunk_Code c) (Choices c) (chunk_Usage c) (Error_Message c).


Definition delta_fields (key : string) (v : json) (d : stream_delta) : option stream_delta :=
  if names "role" key then checked (decode_text v "") d
  else if names "content" key then t ← decode_text v (Content d); Some (d <| Content := t |>)
  else if names "reasoning_content" key then t ← decode_text v (ReasoningContent d); Some (d <| ReasoningContent := t |>)
  else if names "tool_calls" key then l ← decode_slice no_fragment tool_call_field v (ToolCalls d); Some (d <| ToolCalls := l |>)
  else Some d.

Definition choice_field (key : string) (v : json) (c : choice) : option choice :=
  if names "index" key then checked (decode_int v 0) c
  else if names "finish_reason" key then t ← decode_text v (FinishReason c); Some (c <| FinishReason := t |>)
  else if names "delta" key then d ← decode_struct delta_fields v (Delta c); Some (c <| Delta := d |>)
  else Some c.

Definition no_choice : choice := mkChoice "" (mkDelta "" "" None).

Definition error_field (key : string) (v : json) (message : string) : option string :=
  if names "message" key then decode_text v message else Some message.

Definition chunk_field (key : string) (v : json) (c : streamChunk) : option streamChunk :=
  if names "id" key || names "object" key || names "msg" key then checked (decode_text v "") c
  else if names "model" key then t ← decode_text v (chunk_Model c); Some (c <| chunk_Model := t |>)
  else if names "code" key then n ← decode_int v (chunk_Code c); Some (c <| chunk_Code := n |>)
  else if names "choices" key then l ← decode_slice no_choice choice_field v (Choices c); Some (c <| Choices := l |>)
  else if names "usage" key then m ← decode_map v (chunk_Usage c); Some (c <| chunk_Usage := m |>)
  else if names "error" key then m ← decode_struct error_field v (Error_Message c); Some (c <| Error_Message := m |>)
  else Some c.

Definition no_chunk : streamChunk := mkChunk "" 0 None None "".
Definition read_chunk (payload : string) : option streamChunk := v ← parse payload; decode_struct chunk_field v no_chunk.

(** * The reader *)

Inductive stream_error := Typed (e : APIError) | Plain (e : go_error).

(** [streamResult] with the reader's locals; the fields of the result that the
    emitters touch are in the sink. *)
Record reader := mkReader {
  Model : string; ThinkingSignature : string; FinishReasonValue : string; out : sink;
  tools : ToolCallAccumulator; sawDone : bool; sawFinish : bool }.

#[export] Instance eta_reader : Eta reader := fun r =>
  mkReader (Model r) (ThinkingSignature r) (FinishReasonValue r) (out r) (tools r) (sawDone r) (sawFinish r).

Definition new_reader : reader := mkReader "" "" "" new_sink NewToolCallAccumulator false false.

(** [streamResult.FinishReason]. *)
Definition result_FinishReason (r : reader) : string :=
  if (0 <? ToolCallCount (out r)) || EqualFold (FinishReasonValue r) "tool_calls" then "tool_use"
  else
    let reason := ToLower (TrimSpace (FinishReasonValue r)) in
    if str_in reason ["length"; "max_tokens"] then "max_tokens"
    else if String.eqb reason "content_filter" then "refusal"
    else "end_turn".

(** What a line does to the loop. *)
Inductive progress := Goes (r : reader) | Breaks (r : reader) | Fails (e : stream_error) (r : reader).

Section reader.
(** The identifiers minted, the signature drawn for the stream, and the text of a
    decoding error. *)
Context (nanos sequence : nat -> Z) (signature : string) (json_error : string -> string) (streamToolDeltas : bool).

Definition emitTools (r : reader) : reader * option stream_error :=
  let '(calls, a) := CompleteAll (tools r) in
  let r := r <| tools := a |> in
  match ValidateStreamedTools calls with
  | Some err => (r, Some (Plain err))
  | None => (r <| out := EmitToolCalls nanos sequence calls (out r) |>, None)
  end.

Definition emit_reasoning (reasoning : string) (r : reader) : reader :=
  if is_empty reasoning then r
  else
    let r := r <| out := (out r) <| SawMeaningfulEvent := true |> |> in
    let r := if is_empty (ThinkingSignature r) then r <| ThinkingSignature := signature |> else r in
    r <| out := send (reasoning_event reasoning (ThinkingSignature r)) (out r) |>.

Definition take_call (r : reader) (f : fragment) : reader :=
  let '(a, s) := take_fragment streamToolDeltas f (tools r, (out r) <| SawMeaningfulEvent := true |>) in
  r <| tools := a |> <| out := s |>.

(** A chunk with choices, before the finish. *)
Definition take_choice (c : choice) (r : reader) : progress :=
  let r := emit_reasoning (ReasoningContent (Delta c)) r in
  let r := r <| out := EmitTextDelta (Content (Delta c)) (out r) |> in
  let r := foldl take_call r (default [] (ToolCalls (Delta c))) in
  let reason := TrimSpace (FinishReason c) in
  if is_empty reason then Goes r
  else
    match emitTools (r <| FinishReasonValue := reason |> <| sawFinish := true |>) with
    | (r, Some err) => Fails err r
    | (r, None) => Goes r
    end.

Definition take_chunk (payload : string) (chunk : streamChunk) (r : reader) : progress :=
  let model := TrimSpace (chunk_Model chunk) in
  let r := if is_empty model then r else r <| Model := model |> in
  if negb (chunk_Code chunk =? 0) then Fails (Typed (apiError 200 payload)) r
  else
    let msg := TrimSpace (Error_Message chunk) in
    if negb (is_empty msg) then Fails (Plain (Errorf ("workbuddy stream error: " +:+ msg))) r
    else
      let r := r <| out := ApplyStreamUsage (NormalizeUsageMap (chunk_Usage chunk)) (out r) |> in
      match default [] (Choices chunk) with
      | [] => Goes r
      | c :: _ =>
          if sawFinish r then Fails (Plain (Errorf "workbuddy stream protocol error: choice data after finish")) r
          else take_choice c r
      end.

(** A line that is not [data:]: a business envelope sent as plain JSON fails. *)
Definition take_other (line : string) (r : reader) : progress :=
  match (if HasPrefix line "{" then read_envelope line else None) with
  | Some (code, _) => if code =? 0 then Goes r else Fails (Typed (apiError 200 line)) r
  | None => Goes r
  end.

Definition take_line (text : string) (r : reader) : progress :=
  let line := TrimSpace text in
  if is_empty line || HasPrefix line ":" then Goes r
  else
    match data_of line with
    | None => take_other line r
    | Some payload =>
        if String.eqb payload "[DONE]" then Breaks (r <| sawDone := true |>)
        else if is_empty payload then Goes r
        else
          match read_chunk payload with
          | None => Fails (Plain (Errorf ("workbuddy stream protocol error: invalid JSON: " +:+ json_error payload))) r
          | Some chunk => take_chunk payload chunk r
          end
    end.

Fixpoint take_lines (lines : list string) (r : reader) : progress :=
  match lines with
  | [] => Goes r
  | line :: lines => match take_line line r with Goes r => take_lines lines r | stop => stop end
  end.

Definition read_failed (e : go_error) : stream_error := Plain (Errorf ("failed to read workbuddy stream: " +:+ err_text e)).
Definition ended_early : stream_error := Plain (Errorf "workbuddy stream ended before terminal finish").

(** After the loop; [err] is [scanner.Err()]. *)
Definition end_of_stream (err : option go_error) (r : reader) : reader * option stream_error :=
  match err with
  | Some e => (r, Some (read_failed e))
  | None => if negb (sawDone r) || negb (sawFinish r) then (r, Some ended_early) else (r, None)
  end.

Definition consumeStream (b : body) : reader * option stream_error :=
  let '(lines, err) := scan_body b in
  match take_lines lines new_reader with
  | Fails e r => (r, Some e)
  | Breaks r => end_of_stream (early_error b) r
  | Goes r => end_of_stream err r
  end.

(** * The response ([runChat]) *)

Record http_response := mkResponse { StatusCode : Z; retryAfter : duration; raw_head : string; Body : body }.

Definition no_events : stream_error := Plain (Errorf "workbuddy API returned no usable stream events").

Definition finish_event (r : reader) : SSEMessage :=
  {| Type_ := "model.finish";
     Event := ("finishReason"%string, VString (result_FinishReason r))
       :: match Usage (out r) with [] => [] | usage => [("usage"%string, VMap usage)] end |}.

(** The failure of the stream with the delay of the response where it has none. *)
Definition with_delay (delay : duration) (e : stream_error) : stream_error :=
  match e with
  | Typed e => Typed (if RetryDelay e =? 0 then e <| RetryDelay := delay |> else e)
  | e => e
  end.

(** The events the caller gets and the error, from the response on. *)
Definition handle_response (resp : http_response) : list SSEMessage * option stream_error :=
  if 400 <=? StatusCode resp then ([], Some (Typed (apiErrorWithRetry (StatusCode resp) (raw_head resp) (retryAfter resp))))
  else
    match consumeStream (Body resp) with
    | (r, Some e) => (sent (out r), Some (with_delay (retryAfter resp) e))
    | (r, None) =>
        if negb (SawMeaningfulEvent (out r)) then (sent (out r), Some no_events)
        else (sent (out r) ++ [finish_event r], None)
    end.
End reader.

(** * What a success means *)

(** What a line of the response is. *)
Inductive frame := Skipped | ChunkFrame (chunk : streamChunk) | DoneFrame | Refused.

Definition refuses (c : streamChunk) : bool :=
  negb (chunk_Code c =? 0) || negb (is_empty (TrimSpace (Error_Message c))).

Definition frame_of (text : string) : frame :=
  let line := TrimSpace text in
  if is_empty line || HasPrefix line ":" then Skipped
  else
    match data_of line with
    | None =>
        match (if HasPrefix line "{" then read_envelope line else None) with
        | Some (code, _) => if code =? 0 then Skipped else Refused
        | None => Skipped
        end
    | Some payload =>
        if String.eqb payload "[DONE]" then DoneFrame
        else if is_empty payload then Skipped
        else match read_chunk payload with Some c => if refuses c then Refused else ChunkFrame c | None => Refused end
    end.

(** The chunks of a complete answer: those before [DONE], if no line before it is
    refused. *)
Fixpoint answer_chunks (lines : list string) : option (list streamChunk) :=
  match lines with
  | [] => None
  | line :: lines =>
      match frame_of line with
      | Skipped => answer_chunks lines
      | ChunkFrame c => cs ← answer_chunks lines; Some (c :: cs)
      | DoneFrame => Some []
      | Refused => None
      end
  end.

(** The choice of a chunk, its text, reasoning, fragments and end. *)
Definition turn_of (c : streamChunk) : option choice := head (default [] (Choices c)).
Definition turns (chunks : list streamChunk) : list choice := omap turn_of chunks.
Definition contents (ts : list choice) : string := concat_map (fun t => Content (Delta t)) ts.
Definition reasonings (ts : list choice) : string := concat_map (fun t => ReasoningContent (Delta t)) ts.
Definition fragments (ts : list choice) : list fragment := flat_map (fun t => default [] (ToolCalls (Delta t))) ts.
Definition closes (t : choice) : bool := negb (is_empty (TrimSpace (FinishReason t))).

Section answer.
Context (nanos sequence : nat -> Z) (signature : string) (json_error : string -> string) (deltas : bool).

Abbreviation take_line := (take_line nanos sequence signature json_error deltas).
Abbreviation take_lines := (take_lines nanos sequence signature json_error deltas).
Abbreviation take_chunk := (take_chunk nanos sequence signature deltas).
Abbreviation take_choice := (take_choice nanos sequence signature deltas).
Abbreviation consumeStream := (consumeStream nanos sequence signature json_error deltas).

(** The reader before the closing chunk. *)
Record reading (ts : list choice) (r : reader) : Prop := {
  rd_text : text_of (sent (out r)) = contents ts;
  rd_reasoning : reasoning_of (sent (out r)) = reasonings ts;
  rd_calls : calls_of (sent (out r)) = [];
  rd_built : built (fragments ts) (tools r);
  rd_streamed : in_step deltas (tools r) (sent (out r))
}.

(** The reader after it. *)
Record closed_by (ts : list choice) (t : choice) (r : reader) : Prop := {
  cl_reason : FinishReasonValue r = TrimSpace (FinishReason t);
  cl_text : text_of (sent (out r)) = contents (ts ++ [t]);
  cl_reasoning : reasoning_of (sent (out r)) = reasonings (ts ++ [t]);
  cl_calls : exists a, built (fragments (ts ++ [t])) a /\ in_step deltas a (sent (out r)) /\
    Forall2 delivers (List.filter named (order a)) (calls_of (sent (out r))) /\
    ValidateStreamedTools (List.filter named (order a)) = None
}.

Definition stands (ts : list choice) (r : reader) : Prop :=
  if sawFinish r
  then exists ts' t, ts = ts' ++ [t] /\ Forall (fun t => closes t = false) ts' /\ closes t = true /\ closed_by ts' t r
  else Forall (fun t => closes t = false) ts /\ reading ts r.

Lemma fragments_snoc ts t : fragments (ts ++ [t]) = fragments ts ++ default [] (ToolCalls (Delta t)).
Proof. unfold fragments. rewrite flat_map_app. cbn. by rewrite app_nil_r. Qed.

(** The calls of a chunk. *)
Lemma take_calls_spec frs0 frs r :
  built frs0 (tools r) -> in_step deltas (tools r) (sent (out r)) ->
  let r' := foldl (take_call deltas) r frs in
  (exists msgs, sent (out r') = sent (out r) ++ msgs /\ silent msgs) /\
  built (frs0 ++ frs) (tools r') /\ in_step deltas (tools r') (sent (out r')) /\ sawFinish r' = sawFinish r /\ sawDone r' = sawDone r.
Proof.
  revert frs0 r. induction frs as [|f frs IH]; intros frs0 r Hb Hs r'.
  { subst r'. cbn. rewrite app_nil_r. split_and!; try done. exists []. rewrite app_nil_r. split; [done|by split]. }
  subst r'. cbn [foldl]. replace (frs0 ++ f :: frs) with ((frs0 ++ [f]) ++ frs) by (by rewrite <- app_assoc).
  set (s := (out r) <| SawMeaningfulEvent := true |>).
  assert (in_step deltas (tools r) (sent s)) as Hs1 by exact Hs.
  pose proof (built_take deltas frs0 f (tools r) s Hb) as Hb2. pose proof (take_in_step deltas f (tools r) s Hs1) as Hs2.
  destruct (take_silent deltas f (tools r) s) as (m1 & Em1 & Sm1).
  assert (exists a' s', take_fragment deltas f (tools r, s) = (a', s') /\ take_call deltas r f = r <| tools := a' |> <| out := s' |>)
    as (a' & s' & E & Er).
  { unfold take_call. fold s. destruct (take_fragment deltas f (tools r, s)) as [a' s']. by exists a', s'. }
  rewrite E in *. cbn [fst snd] in *.
  destruct (IH (frs0 ++ [f]) (take_call deltas r f)) as ((m2 & Em2 & Sm2) & Hb3 & Hs3 & Hf3 & Hd3); rewrite ?Er; [done..|].
  rewrite Er in *. split_and!; try done. exists (m1 ++ m2). split.
  - rewrite Em2. cbn [out set_field update_with]. rewrite Em1. by rewrite app_assoc.
  - destruct Sm1 as [T1 R1 C1], Sm2 as [T2 R2 C2]. split.
    + unfold text_of in *. by rewrite concat_map_join, T1, T2.
    + unfold reasoning_of in *. by rewrite concat_map_join, R1, R2.
    + unfold calls_of in *. by rewrite List.filter_app, C1, C2.
Qed.

(** The text and the reasoning of a chunk. *)
Lemma emit_reasoning_spec reasoning r :
  exists msgs, sent (out (emit_reasoning signature reasoning r)) = sent (out r) ++ msgs /\
    text_of msgs = ""%string /\ reasoning_of msgs = reasoning /\ calls_of msgs = [] /\ (forall id, streamed id msgs = ""%string) /\
    tools (emit_reasoning signature reasoning r) = tools r /\ sawFinish (emit_reasoning signature reasoning r) = sawFinish r /\
    sawDone (emit_reasoning signature reasoning r) = sawDone r.
Proof.
  unfold emit_reasoning. destruct (is_empty reasoning) eqn:E.
  - apply is_empty_true in E as ->. exists []. split_and!; try done. by rewrite app_nil_r.
  - cbv zeta. cbn [ThinkingSignature set_field update_with]. destruct (is_empty (ThinkingSignature r)); eexists; (split_and!; [done|done|cbn; by rewrite sapp_nil_r|done..]).
Qed.

Lemma contents_snoc ts t : contents (ts ++ [t]) = contents ts +:+ Content (Delta t).
Proof. apply (concat_map_snoc (fun t => Content (Delta t))). Qed.

Lemma reasonings_snoc ts t : reasonings (ts ++ [t]) = reasonings ts +:+ ReasoningContent (Delta t).
Proof. apply (concat_map_snoc (fun t => ReasoningContent (Delta t))). Qed.

(** The reader with the content of a chunk taken, before its finish. *)
Lemma take_content ts t r :
  reading ts r ->
  let r := emit_reasoning signature (ReasoningContent (Delta t)) r in
  let r := r <| out := EmitTextDelta (Content (Delta t)) (out r) |> in
  let r' := foldl (take_call deltas) r (default [] (ToolCalls (Delta t))) in
  reading (ts ++ [t]) r' /\ sawFinish r' = sawFinish r /\ sawDone r' = sawDone r.
Proof.
  intros [Ht Hr Hc Hb Hs]. destruct (emit_reasoning_spec (ReasoningContent (Delta t)) r) as (m1 & E1 & T1 & R1 & C1 & D1 & Et & Ef & Ed).
  set (r1 := emit_reasoning signature _ r) in *. clearbody r1. cbv zeta.
  destruct (EmitTextDelta_spec (Content (Delta t)) (out r1)) as (m2 & E2 & T2 & R2 & C2 & D2).
  set (r2 := r1 <| out := _ |>). assert (sent (out r2) = sent (out r) ++ m1 ++ m2) as E3.
  { subst r2. cbn [out set_field update_with]. by rewrite E2, E1, app_assoc. }
  assert (tools r2 = tools r) as Et2 by exact Et.
  destruct (take_calls_spec (fragments ts) (default [] (ToolCalls (Delta t))) r2) as ((m3 & E4 & S4) & Hb4 & Hs4 & Hf4 & Hd4).
  - by rewrite Et2.
  - rewrite Et2, E3. apply in_step_same; [|done]. intros id. by rewrite streamed_app, D1, D2.
  - split; [|done]. split.
    + rewrite E4, text_of_silent, E3, contents_snoc by done. unfold text_of in *. by rewrite !concat_map_join, Ht, T1, T2.
    + rewrite E4, reasoning_of_silent, E3, reasonings_snoc by done. unfold reasoning_of in *.
      by rewrite !concat_map_join, Hr, R1, R2, sapp_nil_r.
    + rewrite E4, calls_of_silent, E3 by done. unfold calls_of in *. by rewrite !List.filter_app, Hc, C1, C2.
    + by rewrite fragments_snoc.
    + done.
Qed.

Lemma open_completes frs a : built frs a -> List.filter completes (order a) = List.filter named (order a).
Proof.
  intros [owners [_ _ _ He]]. induction He as [|c cs Hc _ IH]; [done|]. cbn. unfold completes at 1, named at 1. rewrite Hc. cbn [negb andb].
  by rewrite IH.
Qed.

Lemma mark_delivers cs msgs : Forall2 delivers (mark_emitted <$> cs) msgs -> Forall2 delivers cs msgs.
Proof.
  revert msgs. induction cs as [|c cs IH]; intros msgs H; [by inversion H|].
  cbn in H. inversion H as [|? msg ? msgs' (id & -> & Hid) Hrest]; subst. constructor; [|by apply IH].
  exists id. pose proof (mark_emitted_told c) as [= Ei En Ea]. unfold call_event. rewrite En, Ea. split; [done|].
  intros Hne. rewrite Hid; [done|]. by rewrite Ei.
Qed.

Lemma mark_validates cs : ValidateStreamedTools (mark_emitted <$> cs) = ValidateStreamedTools cs.
Proof.
  unfold ValidateStreamedTools. assert (forall f : ToolCall -> bool, (forall c, f (mark_emitted c) = f c) ->
    forallb f (mark_emitted <$> cs) = forallb f cs) as H.
  { intros f Hf. induction cs as [|c cs IH]; [done|]. cbn. by rewrite Hf, <- IH. }
  rewrite H; [done|]. intros c. unfold mark_emitted. by destruct (completes c).
Qed.

Lemma take_choice_stands ts t r r' :
  sawFinish r = false -> Forall (fun t => closes t = false) ts -> reading ts r ->
  take_choice t r = Goes r' -> stands (ts ++ [t]) r' /\ sawDone r' = sawDone r.
Proof.
  intros Hf Hall Hrd. unfold WorkBuddyStream.take_choice.
  destruct (take_content ts t r Hrd) as (Hrd' & Hf' & Hd'). cbv zeta in *.
  pose proof (emit_reasoning_spec (ReasoningContent (Delta t)) r) as (_ & _ & _ & _ & _ & _ & _ & Ef & Ed).
  set (r1 := emit_reasoning signature _ r) in *. clearbody r1.
  set (r2 := foldl (take_call deltas) _ _) in *. clearbody r2. cbn [sawFinish sawDone set_field update_with] in Hf', Hd'.
  destruct (is_empty (TrimSpace (FinishReason t))) eqn:Ee.
  - intros [= <-]. split; [|congruence]. unfold stands. rewrite Hf', Ef, Hf. split; [|done].
    apply Forall_app. split; [done|]. constructor; [|done]. unfold closes. by rewrite Ee.
  - unfold emitTools. cbn [CompleteAll tools set_field update_with].
    destruct Hrd' as [Ht Hr Hc Hb Hs]. rewrite (open_completes _ _ Hb), mark_validates.
    destruct (ValidateStreamedTools _) eqn:Ev; [done|]. intros [= <-].
    destruct (EmitToolCalls_spec nanos sequence (mark_emitted <$> List.filter named (order (tools r2))) (out r2))
      as (msgs & Em & Hdel & Hcall & Htext & Hreas & Hst).
    split; [|cbn; congruence]. unfold stands. cbn [sawFinish set_field update_with]. exists ts, t.
    split_and!; [done|done|by unfold closes; rewrite Ee|]. split; cbn [FinishReasonValue out set_field update_with].
    + done.
    + rewrite Em. unfold text_of in *. by rewrite concat_map_join, Ht, Htext, sapp_nil_r.
    + rewrite Em. unfold reasoning_of in *. by rewrite concat_map_join, Hr, Hreas, sapp_nil_r.
    + exists (tools r2). split_and!; [done| | |done].
      * rewrite Em. by apply in_step_same.
      * rewrite Em. unfold calls_of in *. rewrite List.filter_app, Hc, Hcall. by apply mark_delivers.
Qed.

(** A reader that only said something else, or noted the model. *)
Lemma stands_quiet ts r r' msgs :
  sent (out r') = sent (out r) ++ msgs -> silent msgs -> (forall id, streamed id msgs = ""%string) ->
  tools r' = tools r -> sawFinish r' = sawFinish r -> FinishReasonValue r' = FinishReasonValue r ->
  stands ts r -> stands ts r'.
Proof.
  intros Em Hsil Hst Et Ef Er. unfold stands. rewrite Ef. destruct (sawFinish r).
  - intros (ts' & t & -> & Hall & Hcl & [Hr Ht Hre (a & Hb & Hs & Hd & Hv)]). exists ts', t. split_and!; [done..|]. split.
    + by rewrite Er.
    + by rewrite Em, text_of_silent.
    + by rewrite Em, reasoning_of_silent.
    + exists a. rewrite Em, calls_of_silent by done. split_and!; [done|by apply in_step_same|done..].
  - intros [Hall [Ht Hre Hc Hb Hs]]. split; [done|]. split; rewrite ?Em, ?Et.
    + by rewrite text_of_silent.
    + by rewrite reasoning_of_silent.
    + by rewrite calls_of_silent.
    + done.
    + by apply in_step_same.
Qed.

Lemma turns_cons c cs : turns (c :: cs) = (match turn_of c with Some t => [t] | None => [] end) ++ turns cs.
Proof. unfold turns. cbn. by destruct (turn_of c). Qed.

Lemma turns_one c cs : turns (c :: cs) = turns [c] ++ turns cs.
Proof. rewrite !turns_cons. change (turns []) with (@nil choice). by rewrite app_nil_r. Qed.

Lemma take_chunk_stands payload chunk ts r r' :
  sawDone r = false -> stands ts r -> take_chunk payload chunk r = Goes r' ->
  refuses chunk = false /\ stands (ts ++ turns [chunk]) r' /\ sawDone r' = false.
Proof.
  intros Hd Hs. unfold WorkBuddyStream.take_chunk, refuses.
  destruct (chunk_Code chunk =? 0); cbn [negb orb]; [|done]. destruct (is_empty (TrimSpace (Error_Message chunk))); cbn [negb]; [|done].
  set (r1 := if is_empty (TrimSpace (chunk_Model chunk)) then r else _).
  assert (out r1 = out r /\ tools r1 = tools r /\ sawFinish r1 = sawFinish r /\ FinishReasonValue r1 = FinishReasonValue r /\ sawDone r1 = sawDone r)
    as (E1 & E2 & E3 & E4 & E5) by (subst r1; by destruct (is_empty _)). clearbody r1. cbv zeta.
  destruct (usage_silent (NormalizeUsageMap (chunk_Usage chunk)) (out r1)) as (msgs & Em & Hsil & Hst).
  set (r2 := r1 <| out := _ |>). assert (stands ts r2) as Hs2.
  { apply (stands_quiet ts r r2 msgs); try done. subst r2. cbn [out set_field update_with]. by rewrite Em, E1. }
  assert (sawDone r2 = false) as Hd2 by (subst r2; cbn; congruence). clearbody r2.
  rewrite turns_cons. unfold turn_of. destruct (default [] (Choices chunk)) as [|t rest]; cbn [head].
  - intros [= <-]. rewrite app_nil_r. by split_and!.
  - destruct (sawFinish r2) eqn:Ef; [done|]. intros Hgo. unfold stands in Hs2. rewrite Ef in Hs2. destruct Hs2 as [Hall Hrd].
    destruct (take_choice_stands ts t r2 r' Ef Hall Hrd Hgo) as [? ?]. split_and!; [done|done|congruence].
Qed.

(** What a line does, by what it is. *)
Lemma take_line_frame text r :
  match frame_of text with
  | Skipped => take_line text r = Goes r
  | ChunkFrame chunk => refuses chunk = false /\ exists payload, take_line text r = take_chunk payload chunk r
  | DoneFrame => take_line text r = Breaks (r <| sawDone := true |>)
  | Refused => exists e r', take_line text r = Fails e r'
  end.
Proof.
  unfold WorkBuddyStream.take_line, frame_of. cbv zeta. destruct (is_empty (TrimSpace text) || _); [done|].
  destruct (data_of (TrimSpace text)) as [payload|]; cycle 1.
  - unfold take_other. destruct (if HasPrefix (TrimSpace text) "{" then _ else None) as [[code msg]|]; [|done].
    destruct (code =? 0); [done|eauto].
  - destruct (String.eqb payload "[DONE]"); [done|]. destruct (is_empty payload); [done|].
    destruct (read_chunk payload) as [chunk|]; [|eauto]. destruct (refuses chunk) eqn:E; [|by split; [|exists payload]].
    unfold WorkBuddyStream.take_chunk. unfold refuses in E. destruct (chunk_Code chunk =? 0); cbn [negb orb] in *; [|eauto].
    rewrite E. eauto.
Qed.

Lemma take_chunk_goes_on payload chunk r r' : take_chunk payload chunk r <> Breaks r'.
Proof.
  unfold WorkBuddyStream.take_chunk. cbv zeta.
  destruct (negb (chunk_Code chunk =? 0)); [done|]. destruct (negb (is_empty (TrimSpace (Error_Message chunk)))); [done|].
  destruct (default [] (Choices chunk)); [done|]. destruct (sawFinish _); [done|]. unfold WorkBuddyStream.take_choice. cbv zeta.
  destruct (is_empty _); [done|]. by destruct (emitTools _ _ _) as [? [|]].
Qed.

Lemma take_lines_stands lines ts r :
  sawDone r = false -> stands ts r ->
  match take_lines lines r with
  | Goes r' => sawDone r' = false
  | Breaks r' => sawDone r' = true /\ exists chunks, answer_chunks lines = Some chunks /\ stands (ts ++ turns chunks) r'
  | Fails _ _ => True
  end.
Proof.
  revert ts r. induction lines as [|line lines IH]; intros ts r Hd Hs; [done|]. cbn [WorkBuddyStream.take_lines answer_chunks].
  pose proof (take_line_frame line r) as Hl. destruct (frame_of line) as [|chunk| |].
  - rewrite Hl. by apply IH.
  - destruct Hl as [_ [payload Hl]]. rewrite Hl. destruct (take_chunk payload chunk r) as [r1|r1|e r1] eqn:E; [| |done].
    + destruct (take_chunk_stands payload chunk ts r r1 Hd Hs E) as (_ & Hs1 & Hd1). specialize (IH _ _ Hd1 Hs1).
      destruct (take_lines lines r1); [done| |done]. destruct IH as [? (chunks & -> & Hc)].
      split; [done|]. exists (chunk :: chunks). split; [done|]. by rewrite turns_one, app_assoc.
    + by destruct (take_chunk_goes_on payload chunk r r1).
  - rewrite Hl. split; [done|]. exists []. split; [done|].
    change (turns []) with (@nil choice). rewrite app_nil_r. apply (stands_quiet ts r _ []); try done. by rewrite app_nil_r.
  - by destruct Hl as (e & r' & ->).
Qed.

Lemma new_reader_stands : stands [] new_reader.
Proof. split; [done|]. split; [done..|apply built_new|apply in_step_new]. Qed.

(** C16: An attempt that succeeds has read a whole answer: every line before [DONE]
    is a chunk of the answer or carries nothing, and one chunk, the last that has a
    choice, closes it.  The events reported hold exactly the text and the reasoning
    of the chunks, in order, and one call for each that the upstream named; the
    calls of an index are its fragments, put together, whatever comes in between.
    What was streamed of a call beforehand is the beginning of its arguments, and
    where calls are streamed all of them, and it is a JSON object. *)
Theorem workbuddy_answer_is_whole b r :
  consumeStream b = (r, None) ->
  exists chunks ts t owners cs,
    answer_chunks (scan_body b).1 = Some chunks /\ turns chunks = ts ++ [t] /\
    Forall (fun t => closes t = false) ts /\ closes t = true /\ FinishReasonValue r = TrimSpace (FinishReason t) /\
    text_of (sent (out r)) = contents (ts ++ [t]) /\ reasoning_of (sent (out r)) = reasonings (ts ++ [t]) /\
    Forall2 delivers (List.filter named cs) (calls_of (sent (out r))) /\
    length owners = length cs /\
    (forall i, told <$> owned i owners cs = put_together <$> groups (of_index i (fragments (ts ++ [t])))) /\
    (forall p c, cs !! p = Some c -> call_ID c <> ""%string ->
       (forall q d, cs !! q = Some d -> call_ID d = call_ID c -> p = q) ->
       exists rest, Arguments c = streamed (call_ID c) (sent (out r)) +:+ rest /\
         (deltas = true -> streamable c = true -> rest = ""%string /\ exists members, parse (Arguments c) = Some (JObject members))).
Proof.
  unfold WorkBuddyStream.consumeStream. destruct (scan_body b) as [lines err]. cbn [fst].
  pose proof (take_lines_stands lines [] new_reader eq_refl new_reader_stands) as H.
  destruct (take_lines lines new_reader) as [r1|r1|e r1]; [| |done].
  { unfold end_of_stream. rewrite H. by destruct err. }
  destruct H as [Hd (chunks & Hch & Hs)]. unfold end_of_stream. destruct (early_error b); [done|].
  rewrite Hd. cbn [negb orb]. unfold stands in Hs. destruct (sawFinish r1); [|done]. cbn [negb]. intros [= <-].
  destruct Hs as (ts & t & Et & Hall & Hcl & [Hr Htext Hre (a & Hb & Hst & Hdel & Hval)]).
  destruct (calls_are_the_fragments _ _ Hb) as (owners & Hlen & Hown).
  exists chunks, ts, t, owners, (order a). split_and!; try done.
  intros p c Hp Hid Hone. assert (sole (call_ID c) a) as Hsole.
  { intros x y (cx & Hx & Ex) (cy & Hy & Ey). transitivity p; [symmetry|]; by eapply Hone. }
  destruct (streamed_arguments _ _ _ _ _ _ Hst Hid Hsole Hp eq_refl) as (rest & Ea & Hrest).
  exists rest. split; [done|]. intros Hdel' Hcall. split; [by apply Hrest|].
  destruct (step_all _ _ _ Hst Hdel' p c Hp Hcall) as [Hstarted _].
  unfold ValidateStreamedTools in Hval. destruct (forallb _ _) eqn:Ef; [|done]. rewrite forallb_forall in Ef.
  assert (named c = true) as Hn.
  { unfold streamable in Hcall. apply negb_true_iff in Hcall. apply orb_false_iff in Hcall as [Hcall _].
    apply orb_false_iff in Hcall as [_ Hname]. unfold named. by rewrite Hname. }
  specialize (Ef c). rewrite Hstarted in Ef. cbn [negb orb] in Ef.
  assert (In c (List.filter named (order a))) as Hin.
  { apply filter_In. split; [|done]. by apply list_elem_of_In, (list_elem_of_lookup_2 _ p). }
  specialize (Ef Hin). destruct (parse (Arguments c)) as [[]|]; try done. by eexists.
Qed.

(** ** A whole answer is accepted *)

(** A choice says something of the answer; a chunk does, or counts tokens. *)
Definition says_anything (t : choice) : bool :=
  negb (is_empty (ReasoningContent (Delta t))) || negb (is_empty (Content (Delta t)))
  || match default [] (ToolCalls (Delta t)) with [] => false | _ => true end.
Definition holds_anything (c : streamChunk) : bool :=
  match NormalizeUsageMap (chunk_Usage c) with [] => false | _ => true end || from_option says_anything false (turn_of c).

Definition noticed (r : reader) : bool := SawMeaningfulEvent (out r).
(** A call at work has been noticed. *)
Definition heeds (r : reader) : Prop := order (tools r) = [] \/ noticed r = true.

Lemma take_fragment_notices stream f a s : SawMeaningfulEvent (take_fragment stream f (a, s)).2 = SawMeaningfulEvent s.
Proof.
  unfold take_fragment, stream_call. cbn [fst snd]. destruct (Add _ _ _ _ a) as [p a']. destruct stream; [|done].
  destruct (order a' !! p) as [c|]; [|done]. by destruct (EmitToolDelta c).
Qed.

Lemma take_calls_notice frs r :
  heeds r -> let r' := foldl (take_call deltas) r frs in
  heeds r' /\ noticed r' = noticed r || match frs with [] => false | _ => true end.
Proof.
  destruct frs as [|f frs]; [intros H; by rewrite orb_false_r|]. intros _. rewrite orb_true_r. cbn [foldl]. cbv zeta.
  assert (forall r f, noticed (take_call deltas r f) = true) as Hone.
  { clear. intros r f. unfold take_call, noticed. pose proof (take_fragment_notices deltas f (tools r) ((out r) <| SawMeaningfulEvent := true |>)) as H.
    by destruct (take_fragment deltas f _) as [a s]. }
  assert (noticed (foldl (take_call deltas) (take_call deltas r f) frs) = true) as ->; [|split; [|done]].
  - generalize (Hone r f). generalize (take_call deltas r f). clear r f. induction frs as [|f frs IH]; intros r H; [done|]. cbn. by apply IH.
  - right. generalize (Hone r f). generalize (take_call deltas r f). clear r f. induction frs as [|f frs IH]; intros r H; [done|]. cbn. by apply IH.
Qed.

Lemma EmitToolCalls_notices states s : SawMeaningfulEvent s = true -> SawMeaningfulEvent (EmitToolCalls nanos sequence states s) = true.
Proof.
  revert s. induction states as [|c states IH]; intros s H; [done|]. cbn. apply IH. unfold emit_call. by destruct (is_empty (call_ID c)).
Qed.

Lemma emitTools_notices r : heeds r -> heeds (emitTools nanos sequence r).1 /\ noticed (emitTools nanos sequence r).1 = noticed r.
Proof.
  intros H. unfold emitTools. cbn [CompleteAll]. destruct (ValidateStreamedTools _).
  - split; [|done]. destruct H as [H|H]; [left|by right]. cbn. by rewrite H.
  - cbn [fst]. unfold heeds, noticed in *. cbn [out tools set_field update_with]. destruct H as [H|H]; cycle 1.
    + rewrite H, EmitToolCalls_notices by done. by split; [right|].
    + rewrite H. by split; [left|].
Qed.

Lemma take_choice_notices t r :
  heeds r -> match take_choice t r with
  | Goes r' | Breaks r' | Fails _ r' => heeds r' /\ noticed r' = noticed r || says_anything t
  end.
Proof.
  intros H. unfold WorkBuddyStream.take_choice. set (r1 := emit_reasoning signature _ r).
  assert (heeds r1 /\ noticed r1 = noticed r || negb (is_empty (ReasoningContent (Delta t)))) as [H1 E1].
  { subst r1. unfold emit_reasoning. destruct (is_empty _); [by rewrite orb_false_r|]. rewrite orb_true_r. cbv zeta.
    cbn [ThinkingSignature set_field update_with]. by destruct (is_empty (ThinkingSignature r)); split; [right| |right|]. }
  clearbody r1. set (r2 := r1 <| out := _ |>).
  assert (heeds r2 /\ noticed r2 = noticed r1 || negb (is_empty (Content (Delta t)))) as [H2 E2].
  { subst r2. unfold heeds, noticed, EmitTextDelta in *. cbn [out tools set_field update_with]. destruct (is_empty (Content (Delta t))).
    - by rewrite orb_false_r.
    - rewrite orb_true_r. by split; [right|]. }
  clearbody r2. destruct (take_calls_notice (default [] (ToolCalls (Delta t))) r2 H2) as [H3 E3]. cbv zeta in *.
  set (r3 := foldl _ _ _) in *. clearbody r3. unfold says_anything.
  assert (noticed r3 = noticed r || (negb (is_empty (ReasoningContent (Delta t))) || negb (is_empty (Content (Delta t)))
    || match default [] (ToolCalls (Delta t)) with [] => false | _ => true end)) as <- by (by rewrite E3, E2, E1, !orb_assoc).
  destruct (is_empty (TrimSpace _)); [done|]. set (r4 := r3 <| FinishReasonValue := _ |> <| sawFinish := true |>).
  assert (heeds r4) as H4 by exact H3. pose proof (emitTools_notices r4 H4) as H5.
  by destruct (emitTools nanos sequence r4) as [r5 [e|]].
Qed.

Lemma take_chunk_notices payload chunk r r' :
  heeds r -> take_chunk payload chunk r = Goes r' -> heeds r' /\ noticed r' = noticed r || holds_anything chunk.
Proof.
  intros H. unfold WorkBuddyStream.take_chunk, holds_anything, turn_of. cbv zeta.
  set (r1 := if is_empty (TrimSpace (chunk_Model chunk)) then r else _).
  assert (heeds r1 /\ noticed r1 = noticed r) as [H1 <-] by (subst r1; by destruct (is_empty _)). clearbody r1.
  destruct (chunk_Code chunk =? 0); cbn [negb]; [|done]. destruct (is_empty (TrimSpace (Error_Message chunk))); cbn [negb]; [|done].
  set (r2 := r1 <| out := _ |>).
  assert (heeds r2 /\ noticed r2 = noticed r1 || match NormalizeUsageMap (chunk_Usage chunk) with [] => false | _ => true end) as [H2 E2].
  { subst r2. unfold heeds, noticed, ApplyStreamUsage in *. cbn [out tools set_field update_with].
    destruct (NormalizeUsageMap _); [by rewrite orb_false_r|]. rewrite orb_true_r. by split; [right|]. }
  clearbody r2. rewrite orb_assoc, <- E2. destruct (default [] (Choices chunk)) as [|t rest]; cbn [head from_option].
  - intros [= <-]. by rewrite orb_false_r.
  - destruct (sawFinish r2); [done|]. intros E. pose proof (take_choice_notices t r2 H2) as Hn. rewrite E in Hn. exact Hn.
Qed.

(** A call of the turns whose streamed arguments are no JSON object. *)
Definition broken_call (ts : list choice) : Prop :=
  exists (owners : list Z) (cs : list ToolCall) (c : ToolCall), length owners = length cs /\
    (forall i, told <$> owned i owners cs = put_together <$> groups (of_index i (fragments ts))) /\
    (c ∈ cs) /\ named c = true /\ StreamStarted c = true /\ forall members, parse (Arguments c) <> Some (JObject members).

Definition refused_call (ts : list choice) (e : stream_error) : Prop := deltas = true /\ e = Plain invalid_tools /\ broken_call ts.

Lemma emitTools_result ts r :
  built (fragments ts) (tools r) -> in_step deltas (tools r) (sent (out r)) ->
  match emitTools nanos sequence r with
  | (r', None) => sawFinish r' = sawFinish r
  | (_, Some e) => refused_call ts e
  end.
Proof.
  intros Hb Hs. unfold emitTools. cbn [CompleteAll]. rewrite (open_completes _ _ Hb), mark_validates.
  unfold ValidateStreamedTools. destruct (forallb _ _) eqn:E; [done|].
  apply not_true_iff_false in E. rewrite forallb_forall in E.
  assert (exists c, In c (List.filter named (order (tools r))) /\ StreamStarted c = true /\ forall members, parse (Arguments c) <> Some (JObject members))
    as (c & Hin & Hst & Hbad).
  { destruct (existsb (fun c => negb (negb (StreamStarted c) || match parse (Arguments c) with Some (JObject _) => true | _ => false end))
      (List.filter named (order (tools r)))) eqn:Ex.
    - apply existsb_exists in Ex as (c & Hin & Hc). exists c. apply negb_true_iff, orb_false_iff in Hc as [H1 H2].
      apply negb_false_iff in H1. split_and!; [done..|]. intros members Em. by rewrite Em in H2.
    - exfalso. apply E. intros c Hin. destruct (negb _ || _) eqn:Ec; [done|]. apply not_true_iff_false in Ex. destruct Ex.
      apply existsb_exists. exists c. by rewrite Ec. }
  apply filter_In in Hin as [Hin Hn]. split_and!; [|done|].
  - destruct deltas eqn:Ed; [done|]. apply list_elem_of_In, list_elem_of_lookup in Hin as [p Hp].
    by rewrite (step_off _ _ _ Hs eq_refl p c Hp) in Hst.
  - destruct (calls_are_the_fragments _ _ Hb) as (owners & Hlen & Hown). exists owners, (order (tools r)), c.
    split_and!; try done. by apply list_elem_of_In.
Qed.

Lemma take_choice_accepts ts t r :
  reading ts r ->
  match take_choice t r with
  | Goes _ => True
  | Breaks _ => False
  | Fails e _ => closes t = true /\ refused_call (ts ++ [t]) e
  end.
Proof.
  intros Hrd. unfold WorkBuddyStream.take_choice. destruct (take_content ts t r Hrd) as ([_ _ _ Hb Hs] & _ & _). cbv zeta in *.
  set (r2 := foldl (take_call deltas) _ _) in *. clearbody r2. unfold closes. destruct (is_empty _); [done|].
  set (r3 := r2 <| FinishReasonValue := _ |> <| sawFinish := true |>).
  pose proof (emitTools_result _ r3 Hb Hs) as H. by destruct (emitTools nanos sequence r3) as [r4 [e|]].
Qed.

(** A list whose last element alone satisfies [closes]. *)
Definition ends_closed (ts : list choice) : Prop :=
  exists ts' t, ts = ts' ++ [t] /\ Forall (fun t => closes t = false) ts' /\ closes t = true.

Lemma ends_closed_unique ts more : ends_closed ts -> ends_closed (ts ++ more) -> more = [].
Proof.
  intros (ts1 & t1 & -> & _ & H1) (ts2 & t2 & E & H2 & _). destruct more as [|x more _] using rev_ind; [done|].
  rewrite app_assoc in E. apply app_inj_tail in E as [E _]. exfalso. rewrite <- E in H2.
  apply Forall_app in H2 as [H2 _]. apply Forall_app in H2 as [_ H2]. inversion H2; congruence.
Qed.

Lemma stands_finish ts r : stands ts r -> if sawFinish r then ends_closed ts else ~ ends_closed ts.
Proof.
  unfold stands. destruct (sawFinish r).
  - intros (ts' & t & -> & Hall & Hcl & _). by exists ts', t.
  - intros [Hall _] (ts' & t & -> & _ & Hcl). apply Forall_app in Hall as [_ Hall]. inversion Hall; congruence.
Qed.

Lemma take_chunk_accepts payload chunk ts more r :
  sawDone r = false -> stands ts r -> refuses chunk = false -> ends_closed (ts ++ turns [chunk] ++ more) ->
  match take_chunk payload chunk r with
  | Goes _ => True
  | Breaks _ => False
  | Fails e _ => refused_call (ts ++ turns [chunk] ++ more) e
  end.
Proof.
  intros Hd Hs Href Hend. unfold WorkBuddyStream.take_chunk. unfold refuses in Href. apply orb_false_iff in Href as [-> ->].
  set (r1 := if is_empty (TrimSpace (chunk_Model chunk)) then r else _).
  assert (out r1 = out r /\ tools r1 = tools r /\ sawFinish r1 = sawFinish r /\ FinishReasonValue r1 = FinishReasonValue r)
    as (E1 & E2 & E3 & E4) by (subst r1; by destruct (is_empty _)). clearbody r1. cbv zeta.
  destruct (usage_silent (NormalizeUsageMap (chunk_Usage chunk)) (out r1)) as (msgs & Em & Hsil & Hst).
  set (r2 := r1 <| out := _ |>). assert (stands ts r2) as Hs2.
  { apply (stands_quiet ts r r2 msgs); try done. subst r2. cbn [out set_field update_with]. by rewrite Em, E1. }
  clearbody r2. rewrite turns_cons in *. unfold turn_of in *. destruct (default [] (Choices chunk)) as [|t rest]; [done|].
  cbn [head] in *. pose proof (stands_finish _ _ Hs2) as Hf. unfold stands in Hs2. destruct (sawFinish r2).
  - by pose proof (ends_closed_unique _ _ Hf Hend).
  - destruct Hs2 as [Hall Hrd]. change (turns []) with (@nil choice) in *. rewrite app_nil_r in *.
    pose proof (take_choice_accepts ts t r2 Hrd) as Hacc. destruct (take_choice t r2) as [r3|r3|e r3]; [done|done|].
    destruct Hacc as [Hcl Hbad]. assert (more = []) as ->.
    { apply (ends_closed_unique (ts ++ [t])); [by exists ts, t|]. by rewrite <- app_assoc. }
    by rewrite app_nil_r.
Qed.

Lemma take_lines_accepts lines chunks ts r :
  sawDone r = false -> stands ts r -> heeds r -> answer_chunks lines = Some chunks -> ends_closed (ts ++ turns chunks) ->
  match take_lines lines r with
  | Goes _ => False
  | Breaks r' => sawDone r' = true /\ sawFinish r' = true /\ noticed r' = noticed r || existsb holds_anything chunks
  | Fails e _ => refused_call (ts ++ turns chunks) e
  end.
Proof.
  revert chunks ts r. induction lines as [|line lines IH]; intros chunks ts r Hd Hs Hh Hch Hend; [done|].
  cbn [WorkBuddyStream.take_lines answer_chunks] in *.
  pose proof (take_line_frame line r) as Hl. destruct (frame_of line) as [|chunk| |]; [| | |done].
  - rewrite Hl. by apply (IH chunks ts).
  - destruct (answer_chunks lines) as [cs|] eqn:Ecs; [|done]. injection Hch as <-. destruct Hl as [Href [payload ->]].
    rewrite turns_one in *. pose proof (take_chunk_accepts payload chunk ts (turns cs) r Hd Hs Href Hend) as Hacc.
    destruct (take_chunk payload chunk r) as [r1|r1|e r1] eqn:E; [|done|done].
    destruct (take_chunk_stands payload chunk ts r r1 Hd Hs E) as (_ & Hs1 & Hd1).
    destruct (take_chunk_notices payload chunk r r1 Hh E) as [Hh1 En].
    cbn [existsb]. rewrite orb_assoc, <- En, app_assoc. apply (IH cs (ts ++ turns [chunk])); [done..|by rewrite <- app_assoc].
  - rewrite Hl. injection Hch as <-. split; [done|]. change (turns []) with (@nil choice) in *. rewrite app_nil_r in *.
    pose proof (stands_finish _ _ Hs) as Hf. cbn [existsb]. rewrite orb_false_r. by destruct (sawFinish r) eqn:Ef.
Qed.

(** C32: Conversely what becomes of a whole answer: chunks up to [DONE], none refused
    and the closing one last, in a response below 400 whose last bytes do not come
    with a read error.  The attempt succeeds exactly where some chunk holds anything
    (text, reasoning, a fragment of a call, a count of tokens); an answer that holds
    nothing fails as one without usable events; only where calls are streamed can a
    named call, put together from its fragments, whose arguments are no JSON object
    refuse it.  What the connection does after [DONE] is no matter. *)
Theorem whole_answer_is_accepted resp chunks :
  StatusCode resp < 400 -> answer_chunks (scan_body (Body resp)).1 = Some chunks -> ends_closed (turns chunks) ->
  early_error (Body resp) = None ->
  (handle_response nanos sequence signature json_error deltas resp).2
    = (if existsb holds_anything chunks then None else Some no_events) \/
  (handle_response nanos sequence signature json_error deltas resp).2 = Some (Plain invalid_tools) /\
    deltas = true /\ broken_call (turns chunks).
Proof.
  intros Hstatus Hch Hend He. unfold handle_response. rewrite (proj2 (Z.leb_gt 400 (StatusCode resp)) Hstatus).
  unfold WorkBuddyStream.consumeStream. destruct (scan_body (Body resp)) as [lines err]. cbn [fst] in Hch.
  pose proof (take_lines_accepts lines chunks [] new_reader eq_refl new_reader_stands (or_introl eq_refl) Hch Hend) as H.
  destruct (take_lines lines new_reader) as [r|r|e r]; [done| |].
  - left. unfold end_of_stream. rewrite He. destruct H as (-> & -> & Hn). cbn [negb orb].
    change (noticed new_reader) with false in Hn. cbn [orb] in Hn. unfold noticed in Hn. rewrite Hn. by destruct (existsb _ _).
  - right. by destruct H as (Hd & -> & Hb).
Qed.
End answer.

(** * The restricted account *)

Lemma ToLower_sapp a b : ToLower (a +:+ b) = ToLower a +:+ ToLower b.
Proof. induction a as [|c a IH]; [done|]. rewrite !sapp_cons. cbn. by rewrite IH. Qed.

(** The code delimited by blanks, commas or parentheses is found wherever it
    stands. *)
Lemma restricted_code_found a c rest b :
  Ascii.eqb c " " || Ascii.eqb c "," || Ascii.eqb c ")" = true ->
  restricted_code_from b (a +:+ " code=11140" +:+ String c rest) = true.
Proof.
  intros Hc. revert b. induction a as [|d a IH]; intros b; cbn [restricted_code_from]; apply orb_true_iff; right.
  - cbn [restricted_code_from]. apply orb_true_iff. left. exact Hc.
  - apply IH.
Qed.

(** The text of an error with the code of a restricted account. *)
Lemma restricted_text e :
  Code e = CodeAccountRestricted ->
  exists W M, APIError_Error e = "workbuddy API error: status=403" +:+ W +:+ ", code=11140" +:+ M
      +:+ " (workbuddy account is restricted due to unusual activity; skip requests during the restriction window)" /\
    (M = ""%string \/ exists M', M = (", " +:+ M')%string).
Proof.
  intros Hc. unfold APIError_Error. rewrite Hc. change (errorHints CodeAccountRestricted) with
    "workbuddy account is restricted due to unusual activity; skip requests during the restriction window"%string.
  change (CodeAccountRestricted =? 0) with false. change (Itoa CodeAccountRestricted) with "11140"%string. cbv iota.
  set (msg := if is_empty (Message e) then [] else _).
  exists (if HTTPStatus e =? 403 then "" else ", upstream_status=" +:+ Itoa (HTTPStatus e)), (concat_map (fun p => ", " +:+ p) msg).
  split; cycle 1.
  { subst msg. destruct (is_empty (Message e)); [by left|right]. rewrite concat_map_cons. cbn [concat_map foldr].
    eexists. by rewrite sapp_nil_r. }
  assert (status_parts e = if HTTPStatus e =? 403 then ["status=403"%string]
                           else ["status=403"%string; ("upstream_status=" +:+ Itoa (HTTPStatus e))%string]) as ->.
  { unfold status_parts. rewrite Hc. by destruct (Z.eqb_spec (HTTPStatus e) 403) as [->|]. }
  clearbody msg. destruct (HTTPStatus e =? 403); cbn [app Join]; rewrite !concat_map_cons, ?sapp_assoc; reflexivity.
Qed.

(** The account's restriction is recognised in the text of the error, whatever
    status the response had and whatever message it carried. *)
Lemma restriction_reaches_the_classifier e :
  Code e = CodeAccountRestricted ->
  IsWorkBuddyRestricted (APIError_Error e) = true /\ TrimSpace (APIError_Error e) = APIError_Error e.
Proof.
  intros Hc. destruct (restricted_text e Hc) as (W & M & -> & HM). split.
  - unfold IsWorkBuddyRestricted. rewrite !ToLower_sapp.
    set (tail := ToLower W +:+ _). change (ToLower "workbuddy API error: status=403") with "workbuddy api error: status=403"%string.
    assert (contains ("workbuddy api error: status=403" +:+ tail) "workbuddy" = true) as ->.
    { apply contains_spec. by exists "", (" api error: status=403" +:+ tail). }
    assert (HasExplicitHTTPStatus ("workbuddy api error: status=403" +:+ tail) "403" = true) as ->.
    { change (existsb (fun p => contains ("workbuddy api error: status=403" +:+ tail) p) (explicit_status_patterns "403") = true).
      rewrite existsb_exists. exists "status=403"%string. split; [cbn; tauto|]. apply contains_spec. by exists "workbuddy api error: ", tail. }
    cbn [andb]. unfold workBuddyRestrictedCode. subst tail.
    change (ToLower ", code=11140") with ("," +:+ " code=11140")%string. rewrite !sapp_assoc.
    rewrite <- (sapp_assoc (ToLower W) ","), <- (sapp_assoc "workbuddy api error: status=403").
    destruct HM as [->|[M' ->]]; by apply restricted_code_found.
  - change ("workbuddy API error: status=403" +:+ W +:+ ", code=11140" +:+ M +:+
      " (workbuddy account is restricted due to unusual activity; skip requests during the restriction window)")
      with (String "w" ("orkbuddy API error: status=403" +:+ W +:+ ", code=11140" +:+ M +:+
      " (workbuddy account is restricted due to unusual activity; skip requests during the restriction window" +:+ ")")).
    rewrite <- !sapp_assoc. by apply TrimSpace_keeps.
Qed.

(** * A short answer *)

Definition text_line (s : string) : string := lit s +:+ newline.

Definition demo_answer : string :=
  text_line "data: {'model':'glm','choices':[{'delta':{'reasoning_content':'hm','content':'He'}}]}"
  +:+ newline
  +:+ text_line "data: {'choices':[{'delta':{'content':'y','tool_calls':[{'index':0,'id':'c1','function':{'name':'ls','arguments':'{'}}]}}]}"
  +:+ text_line "data: {'choices':[{'delta':{'tool_calls':[{'index':0,'function':{'arguments':'}'}}]},'finish_reason':'tool_calls'}],'usage':{'prompt_tokens':12,'completion_tokens':3}}"
  +:+ text_line "data: [DONE]".

Definition demo_body : body := mkBody demo_answer None false.

Definition demo_run : reader * option stream_error :=
  consumeStream (fun _ => 0) (fun n => Z.of_nat n) "workbuddy-v1:0" (fun _ => ""%string) true demo_body.

Lemma workbuddy_answer_is_whole_witness :
  text_of (sent (out demo_run.1)) = "Hey"%string /\
  exists chunks ts t, answer_chunks (scan_body demo_body).1 = Some chunks /\ turns chunks = ts ++ [t] /\
    text_of (sent (out demo_run.1)) = contents (ts ++ [t]).
Proof.
  split; [vm_compute; reflexivity|].
  assert (consumeStream (fun _ => 0) (fun n => Z.of_nat n) "workbuddy-v1:0" (fun _ => ""%string) true demo_body = (demo_run.1, None)) as E
    by (vm_compute; reflexivity).
  destruct (workbuddy_answer_is_whole (fun _ => 0) (fun n => Z.of_nat n) "workbuddy-v1:0" (fun _ => ""%string) true demo_body _ E)
    as (chunks & ts & t & _ & _ & Hc & Ht & _ & _ & _ & Htext & _).
  exists chunks, ts, t. split; [exact Hc|]. split; [exact Ht|exact Htext].
Defined.

Definition demo_turns : list choice := turns (default [] (answer_chunks (scan_body demo_body).1)).

(** The connection breaking after [DONE] does not matter. *)
Definition demo_response : http_response := mkResponse 200 0 "" (mkBody demo_answer (Some (Errorf "unexpected EOF")) false).

Lemma whole_answer_is_accepted_witness :
  (handle_response (fun _ => 0) (fun n => Z.of_nat n) "workbuddy-v1:0" (fun _ => ""%string) false demo_response).2 = None.
Proof.
  assert (answer_chunks (scan_body (Body demo_response)).1 = Some (default [] (answer_chunks (scan_body demo_body).1))) as E by (vm_compute; reflexivity).
  assert (ends_closed demo_turns) as Hend.
  { exists (take 2 demo_turns), (default no_choice (last demo_turns)). split; [vm_compute; reflexivity|].
    split; [|vm_compute; reflexivity]. apply List.Forall_forall. intros t Hin.
    assert (forallb (fun t => negb (closes t)) (take 2 demo_turns) = true) as Hall by (vm_compute; reflexivity).
    rewrite forallb_forall in Hall. apply negb_true_iff, Hall, Hin. }
  destruct (whole_answer_is_accepted (fun _ => 0) (fun n => Z.of_nat n) "workbuddy-v1:0" (fun _ => ""%string) false demo_response _ eq_refl E Hend eq_refl)
    as [H|(_ & H & _)]; [|discriminate H].
  rewrite H. assert (existsb holds_anything (default [] (answer_chunks (scan_body demo_body).1)) = true) as -> by (vm_compute; reflexivity).
  reflexivity.
Defined.

(** The handler knows no stop reason [refusal]: an answer the upstream filtered ends
    as if it were complete. *)
Lemma refusal_is_lost (r : reader) :
  ToolCallCount (out r) = 0 -> FinishReasonValue r = "content_filter"%string ->
  result_FinishReason r = "refusal"%string /\ finish_reason (Event (finish_event r)) = "end_turn"%string.
Proof.
  intros Ht Hf. assert (result_FinishReason r = "refusal"%string) as E by (unfold result_FinishReason; rewrite Ht, Hf; reflexivity).
  split; [done|]. unfold finish_event, finish_reason. by rewrite E.
Qed.
