(* ===== verification/WorkBuddyRestriction.v ===== *)
(** Remembering a restricted WorkBuddy account ([src/internal/workbuddy/restriction.go])
    and refusing to call it ([ensureAccessToken] in [client.go]).

    [restricted_account_is_left_alone]: once the upstream has answered with the
    code of a restriction, the account is held and not called for a day, and the
    refusals of that day do not prolong it. *)

From S2P Require Import Prelude GoFloat UpstreamErrors Account AccountPolicy ProviderStream WorkBuddyStream.

(** The error a caller sees of a typed failure. *)
Definition api_go_error (e : APIError) : go_error := mkErr (APIError_Error e) (Some (RetryDelay e)).

(** [refreshqueue.LatestAccount]: the stored row, none where the owner cannot be
    read that way, or an error. *)
Abbreviation latest_row := (option Account + go_error)%type.

(** [persistRestriction] with the clock at [now]: the client's account afterwards
    and the row written. *)
Definition persistRestriction (now : instant) (err : option go_error) (account : option Account) (latest : latest_row)
    : option Account * option Account :=
  match err, account, latest with
  | Some err, Some own, inl latest =>
      if negb (IsWorkBuddyRestricted (err_text err)) then (account, None)
      else
        let acc := default own latest in
        let alreadyRestricted := Time.After (WorkBuddyRestrictionUntil (Some acc)) now in
        let acc := if alreadyRestricted then acc else Apply now (Classify now (Some acc) (Some err) "") acc in
        (Some (own <| WorkBuddyRestrictedUntil := WorkBuddyRestrictionUntil (Some acc) |>),
         if alreadyRestricted then None else Some acc)
  | _, _, _ => (account, None)
  end.

(** The test [ensureAccessToken] makes before it hands out a token. *)
Definition restriction_gate (rfc3339 : instant -> string) (now : instant) (acc : Account) : option APIError :=
  let until := WorkBuddyRestrictionUntil (Some acc) in
  if Time.After until now
  then Some (mkAPIError 403 CodeAccountRestricted ("account restricted; skipped until " +:+ rfc3339 until) (Time.Sub until now))
  else None.

Lemma Classify_restricted now acc e model :
  EqualFold (AccountType acc) "workbuddy" = true -> Code e = CodeAccountRestricted ->
  Classify now (Some acc) (Some (api_go_error e)) model
  = account_verdict "403" (APIError_Error e) true WorkBuddyRestrictionCooldown now.
Proof.
  intros Ht Hc. destruct (restriction_reaches_the_classifier e Hc) as [Hr Htrim]. unfold Classify, api_go_error. cbn [err_text].
  rewrite Htrim, Hr. unfold accountType. by rewrite Ht.
Qed.

(** C31: A response with the code of a restricted account, under any status and with
    any message, makes the account restricted for twenty-four hours from then: until
    the end the pool holds it and the client refuses to call it, and the refusals
    the client makes up meanwhile write nothing; from the end on the client calls it
    again, and the pool holds it only if its login was lost already. *)
Theorem restricted_account_is_left_alone (rfc3339 : instant -> string) now e own acc latest :
  acc = default own latest -> EqualFold (AccountType acc) "workbuddy" = true -> Code e = CodeAccountRestricted ->
  0 < now -> Time.After (WorkBuddyRestrictionUntil (Some acc)) now = false ->
  exists row, (persistRestriction now (Some (api_go_error e)) (Some own) (inl latest)).2 = Some row /\
    let until := now + WorkBuddyRestrictionCooldown in
    WorkBuddyRestrictionUntil (Some row) = until /\ Account.StatusCode row = "403"%string /\
    forall t, 0 < t ->
      AccountHeld (Some row) t = negb (AccountAuthActive (Some acc)) || (t <? until) /\
      (t < until -> exists refusal, restriction_gate rfc3339 t row = Some refusal /\
           forall own', (persistRestriction t (Some (api_go_error refusal)) (Some own') (inl (Some row))).2 = None) /\
      (until <= t -> restriction_gate rfc3339 t row = None).
Proof.
  intros -> Ht Hc Hnow Hun. set (acc := default own latest) in *.
  destruct (restriction_reaches_the_classifier e Hc) as [Hr _].
  assert (exists row, row = Apply now (Classify now (Some acc) (Some (api_go_error e)) "") acc) as [row Erow] by eauto.
  exists row. split.
  { unfold persistRestriction. cbn [api_go_error err_text]. rewrite Hr. cbn [negb snd]. fold acc. rewrite Hun. by rewrite Erow. }
  rewrite (Classify_restricted now acc e "" Ht Hc) in Erow. set (v := account_verdict _ _ _ _ _) in Erow.
  assert (verdict_instant now v = now) as Hv by (unfold verdict_instant; cbn; by destruct (Time.IsZero now)).
  assert (restriction_after now v acc = now + WorkBuddyRestrictionCooldown) as Hafter.
  { unfold restriction_after. rewrite Hv, Ht. change (v_Message v) with (APIError_Error e). by rewrite Hr, Hun. }
  destruct (Apply_fields now v acc) as (_ & Htype & Huntil & Hauth). rewrite <- Erow, Hafter in *.
  assert (WorkBuddyRestrictionUntil (Some row) = now + WorkBuddyRestrictionCooldown) as Hu.
  { rewrite <- Huntil. apply WorkBuddyRestrictionUntil_ne0; [|by rewrite Htype].
    rewrite Huntil. unfold WorkBuddyRestrictionCooldown, Hour. lia. }
  assert (Account.StatusCode row = "403"%string /\ StatusMessage row = WorkBuddyRestrictionMessage) as [Hcode Hmsg].
  { rewrite Erow. apply Apply_restricted. rewrite Hafter, Hv. apply Time.After_true. unfold WorkBuddyRestrictionCooldown, Hour. lia. }
  cbv zeta. split_and!; [done|done|]. intros t Hpos. split_and!.
  - unfold AccountHeld. assert (AccountAuthActive (Some row) = AccountAuthActive (Some acc)) as -> by (unfold AccountAuthActive; by rewrite Hauth).
    destruct (AccountAuthActive (Some acc)); [|done]. cbn [negb orb]. rewrite Hu, Hcode, Hmsg.
    assert (Time.IsZero (now + WorkBuddyRestrictionCooldown) = false) as -> by (apply Time.IsZero_false; unfold WorkBuddyRestrictionCooldown, Hour; lia).
    change (String.eqb "403" "403" && IsWorkBuddyRestricted WorkBuddyRestrictionMessage) with true. by rewrite orb_true_r.
  - intros Hlt. assert (Time.After (now + WorkBuddyRestrictionCooldown) t = true) as Ha by by apply Time.After_true.
    unfold restriction_gate. rewrite Hu, Ha. eexists. split; [done|]. intros own'. unfold persistRestriction.
    change (default own' (Some row)) with row. rewrite Hu, Ha. by destruct (negb _).
  - intros Hge. unfold restriction_gate. rewrite Hu.
    by assert (Time.After (now + WorkBuddyRestrictionCooldown) t = false) as -> by by apply Time.After_false.
Qed.

(** A stream answered 200 with the business code. *)
Lemma restricted_account_is_left_alone_witness :
  let own := zero_account <| ID := 7 |> <| AccountType := "workbuddy" |> in
  let e := mkAPIError 200 CodeAccountRestricted "unusual activity" 0 in
  exists row, (persistRestriction (1000 * Second) (Some (api_go_error e)) (Some own) (inl None)).2 = Some row /\
    AccountHeld (Some row) (2000 * Second) = true /\ AccountHeld (Some row) (1000 * Second + 24 * Hour) = false.
Proof.
  intros own e.
  destruct (restricted_account_is_left_alone (fun _ => "") (1000 * Second) e own own None eq_refl eq_refl eq_refl eq_refl eq_refl)
    as (row & Hw & _ & _ & Hheld).
  exists row. split; [exact Hw|]. destruct (Hheld (2000 * Second) eq_refl) as [-> _]. destruct (Hheld (1000 * Second + 24 * Hour) eq_refl) as [-> _].
  split; vm_compute; reflexivity.
Defined.
