(* ===== verification/ClineSplitter.v ===== *)
(** The splitter of Cline's content ([clineThinkingSplitter] in
    [src/internal/cline/stream.go]): reasoning between [<think>] tags is separated
    from the answer while the content streams in, tags cut in two included.

    [splitter_ignores_fragments]: however the content is cut into fragments, what
    comes out, in order and channel by channel, is what the whole content gives. *)

From Stdlib Require Import Ascii.
From S2P Require Import Prelude UpstreamErrors Json ProviderStream.

(** * The splitter *)

Definition open_tag : string := "<think>".
Definition close_tag : string := "</think>".

(** The tag that ends the channel at work. *)
Definition tag_of (thinking : bool) : string := if thinking then close_tag else open_tag.

(** A piece of content, [true] for reasoning. *)
Abbreviation piece := (bool * string)%type.

Record clineThinkingSplitter := mkSplitter { thinking : bool; pending : string }.

(** The longest suffix of [s], of [n] bytes at most, that begins the tag. *)
Fixpoint keep_suffix (n : nat) (s tag : string) : nat :=
  match n with
  | O => 0
  | S n' => if HasSuffix s (take_bytes n tag) then n else keep_suffix n' s tag
  end.

(** The loop of [feed] on the pending bytes. *)
Fixpoint feed_loop (fuel : nat) (final th : bool) (s : string) : list piece * clineThinkingSplitter :=
  match fuel with
  | O => ([], mkSplitter th s)
  | S fuel =>
      if is_empty s then ([], mkSplitter th s)
      else
        let tag := tag_of th in
        match Index s tag with
        | Some idx =>
            let '(pieces, st) := feed_loop fuel final (negb th) (drop_bytes (idx + String.length tag) s) in
            ((th, take_bytes idx s) :: pieces, st)
        | None =>
            let keep := if final then 0%nat else keep_suffix (Nat.min (String.length s) (String.length tag - 1)) s tag in
            let cut := (String.length s - keep)%nat in
            ([(th, take_bytes cut s)], mkSplitter th (drop_bytes cut s))
        end
  end.

Definition feed (content : string) (final : bool) (sp : clineThinkingSplitter) : list piece * clineThinkingSplitter :=
  let s := pending sp +:+ content in feed_loop (String.length s) final (thinking sp) s.

Definition new_splitter : clineThinkingSplitter := mkSplitter false "".

(** Fragments fed one after another, and the flush at the end of the stream. *)
Fixpoint feed_all (fragments : list string) (sp : clineThinkingSplitter) : list piece :=
  match fragments with
  | [] => (feed "" true sp).1
  | f :: fragments => let '(pieces, sp) := feed f false sp in pieces ++ feed_all fragments sp
  end.

(** * The reference: the content in one piece *)

(** Each byte with its channel. *)
Definition tagged (pieces : list piece) : list (bool * ascii) :=
  flat_map (fun p => pair p.1 <$> String.list_ascii_of_string p.2) pieces.

(** [split_go] follows the tags of a whole text. *)
Fixpoint split_go (fuel : nat) (th : bool) (s : string) : list piece :=
  match fuel with
  | O => [(th, s)]
  | S fuel =>
      match Index s (tag_of th) with
      | Some idx => (th, take_bytes idx s) :: split_go fuel (negb th) (drop_bytes (idx + String.length (tag_of th)) s)
      | None => [(th, s)]
      end
  end.

Definition split_think (s : string) : list piece := split_go (String.length s) false s.

(** * Strings *)

Lemma list_ascii_sapp a b :
  String.list_ascii_of_string (a +:+ b) = String.list_ascii_of_string a ++ String.list_ascii_of_string b.
Proof. induction a as [|c a IH]; [done|]. rewrite sapp_cons. cbn. by rewrite IH. Qed.

Lemma Index_Some s p i : Index s p = Some i -> HasPrefix (drop_bytes i s) p = true /\ forall j, (j < i)%nat -> HasPrefix (drop_bytes j s) p = false.
Proof.
  revert i. induction s as [|c s IH]; intros i; cbn [Index].
  - destruct (HasPrefix "" p) eqn:E; [|done]. intros [= <-]. split; [done|lia].
  - destruct (HasPrefix (String c s) p) eqn:E.
    + intros [= <-]. split; [done|lia].
    + destruct (Index s p) as [k|]; [|done]. intros [= <-]. destruct (IH k eq_refl) as [H1 H2]. split; [done|].
      intros [|j] Hj; [done|]. apply H2. lia.
Qed.

Lemma Index_None s p : Index s p = None -> forall j, HasPrefix (drop_bytes j s) p = false.
Proof.
  induction s as [|c s IH]; cbn [Index]; intros H j.
  - destruct (HasPrefix "" p) eqn:E; [done|]. by destruct j.
  - destruct (HasPrefix (String c s) p) eqn:E; [done|]. destruct (Index s p); [done|]. destruct j as [|j]; [done|]. by apply IH.
Qed.

Lemma Index_is s p i :
  (i <= String.length s)%nat -> HasPrefix (drop_bytes i s) p = true -> (forall j, (j < i)%nat -> HasPrefix (drop_bytes j s) p = false) ->
  Index s p = Some i.
Proof.
  revert i. induction s as [|c s IH]; intros i Hi Hp Hj; cbn [Index].
  - assert (i = 0)%nat as -> by (cbn in Hi; lia). cbn in Hp. by rewrite Hp.
  - destruct i as [|i]; [cbn in Hp; by rewrite Hp|]. assert (HasPrefix (String c s) p = false) as -> by (apply (Hj 0%nat); lia).
    rewrite (IH i); [done|cbn in Hi; lia|exact Hp|]. intros j Hlt. apply (Hj (S j)). lia.
Qed.

Lemma Index_absent s p : (forall j, (j <= String.length s)%nat -> HasPrefix (drop_bytes j s) p = false) -> Index s p = None.
Proof.
  induction s as [|c s IH]; intros H; cbn [Index].
  - assert (HasPrefix "" p = false) as -> by (apply (H 0%nat); lia). done.
  - assert (HasPrefix (String c s) p = false) as -> by (apply (H 0%nat); lia). rewrite IH; [done|]. intros j Hj. apply (H (S j)). cbn. lia.
Qed.

(** Text in front that no occurrence begins in shifts the index. *)
Lemma Index_shift e t p :
  (forall j, (j < String.length e)%nat -> HasPrefix (drop_bytes j (e +:+ t)) p = false) ->
  Index (e +:+ t) p = (fun i => String.length e + i)%nat <$> Index t p.
Proof.
  induction e as [|c e IH]; intros H; [change ("" +:+ t) with t; by destruct (Index t p)|]. rewrite sapp_cons in *. cbn [Index].
  assert (HasPrefix (String c (e +:+ t)) p = false) as -> by (apply (H 0%nat); cbn; lia). rewrite IH.
  - by destruct (Index t p).
  - intros j Hj. apply (H (S j)). cbn. lia.
Qed.

(** Whether a text begins with [p] does not depend on what follows its length. *)
Lemma HasPrefix_long a b p : (String.length p <= String.length a)%nat -> HasPrefix (a +:+ b) p = HasPrefix a p.
Proof.
  revert a. induction p as [|c p IH]; intros a Ha; [by destruct a, b|]. destruct a as [|d a]; cbn in Ha; [lia|].
  rewrite sapp_cons. cbn. f_equal. apply IH. lia.
Qed.

(** ... and a shorter one begins it. *)
Lemma HasPrefix_short a b p :
  HasPrefix (a +:+ b) p = true -> (String.length a <= String.length p)%nat -> take_bytes (String.length a) p = a.
Proof.
  revert p. induction a as [|c a IH]; intros p Hp Ha; [by destruct p|]. destruct p as [|d p]; cbn in Ha; [lia|].
  rewrite sapp_cons in Hp. cbn in Hp |- *. apply andb_true_iff in Hp as [->%Ascii.eqb_eq Hp]. f_equal. apply IH; [done|lia].
Qed.

Lemma HasSuffix_drop j s : HasSuffix s (drop_bytes j s) = true.
Proof.
  revert s. induction j as [|j IH]; intros s; [destruct s; cbn [HasSuffix]; by rewrite String.eqb_refl|].
  destruct s as [|c s]; [done|]. cbn [drop_bytes HasSuffix]. by rewrite IH, orb_true_r.
Qed.

(** * Fragments do not matter *)

Lemma tag_length th : (0 < String.length (tag_of th))%nat.
Proof. destruct th; cbn; lia. Qed.

Lemma tag_nonempty th : tag_of th <> ""%string.
Proof. by destruct th. Qed.

Lemma take_bytes_app_l n a b : (n <= String.length a)%nat -> take_bytes n (a +:+ b) = take_bytes n a.
Proof. apply take_bytes_shorter. Qed.

Lemma after_tag_shorter th s idx :
  Index s (tag_of th) = Some idx -> (String.length (drop_bytes (idx + String.length (tag_of th)) s) < String.length s)%nat.
Proof.
  intros H%Index_bound; [|apply tag_nonempty]. rewrite drop_bytes_length. pose proof (tag_length th). lia.
Qed.

(** Fuel beyond the length of the text does not change what is split. *)
Lemma split_go_fuel n m th s : (String.length s <= n)%nat -> (String.length s <= m)%nat -> split_go n th s = split_go m th s.
Proof.
  revert m th s. induction n as [|n IH]; intros m th s Hn Hm.
  - destruct s; [|cbn in Hn; lia]. destruct m as [|m]; [done|]. by destruct th.
  - destruct m as [|m]; [destruct s; [by destruct th|cbn in Hm; lia]|]. cbn [split_go].
    destruct (Index s (tag_of th)) as [idx|] eqn:E; [|done]. f_equal. apply after_tag_shorter in E. apply IH; lia.
Qed.

(** What a text is split into, in the channel [th]. *)
Definition split_from (th : bool) (s : string) : list (bool * ascii) := tagged (split_go (String.length s) th s).

Definition bytes_in (th : bool) (s : string) : list (bool * ascii) := pair th <$> String.list_ascii_of_string s.

Lemma bytes_in_app th a b : bytes_in th (a +:+ b) = bytes_in th a ++ bytes_in th b.
Proof. unfold bytes_in. by rewrite list_ascii_sapp, fmap_app. Qed.

Lemma split_from_eq th s :
  split_from th s = match Index s (tag_of th) with
                    | Some idx => bytes_in th (take_bytes idx s) ++ split_from (negb th) (drop_bytes (idx + String.length (tag_of th)) s)
                    | None => bytes_in th s
                    end.
Proof.
  unfold split_from at 1. destruct s as [|c s]; [by destruct th|]. cbn [String.length split_go].
  destruct (Index (String c s) (tag_of th)) as [idx|] eqn:E; [|cbn; by rewrite app_nil_r]. cbn [tagged flat_map fst snd].
  fold (tagged (split_go (String.length s) (negb th) (drop_bytes (idx + String.length (tag_of th)) (String c s)))).
  apply after_tag_shorter in E. rewrite (split_go_fuel _ (String.length (drop_bytes (idx + String.length (tag_of th)) (String c s)))); [done| |lia].
  cbn [String.length] in E. lia.
Qed.

(** Bytes in which no tag begins belong to the channel. *)
Lemma split_from_emit th e t :
  (forall j, (j < String.length e)%nat -> HasPrefix (drop_bytes j (e +:+ t)) (tag_of th) = false) ->
  split_from th (e +:+ t) = bytes_in th e ++ split_from th t.
Proof.
  intros H. rewrite !split_from_eq, Index_shift by done. destruct (Index t (tag_of th)) as [i|]; cbn [fmap option_fmap option_map].
  - rewrite <- Nat.add_assoc, drop_bytes_add, drop_bytes_app, app_assoc. f_equal.
    rewrite <- bytes_in_app. f_equal. clear H. induction e as [|c e IH]; [done|]. rewrite !sapp_cons. cbn. by rewrite <- IH.
  - apply bytes_in_app.
Qed.

Lemma keep_suffix_bound n s tag : (keep_suffix n s tag <= n)%nat.
Proof. induction n as [|n IH]; [done|]. cbn [keep_suffix]. destruct (HasSuffix _ _); lia. Qed.

(** No longer suffix, of [n] bytes at most, begins the tag. *)
Lemma keep_suffix_longest n s tag k :
  (keep_suffix n s tag < k <= n)%nat -> HasSuffix s (take_bytes k tag) = false.
Proof.
  induction n as [|n IH]; cbn [keep_suffix]; [lia|]. destruct (HasSuffix s (take_bytes (S n) tag)) eqn:E; [lia|].
  intros Hk. destruct (decide (k = S n)) as [->|Hne]; [done|]. apply IH. lia.
Qed.

(** A tag that begins in the bytes let through would have been seen or held. *)
Lemma emitted_without_tag th s c j :
  Index s (tag_of th) = None ->
  (j < String.length s - keep_suffix (Nat.min (String.length s) (String.length (tag_of th) - 1)) s (tag_of th))%nat ->
  HasPrefix (drop_bytes j s +:+ c) (tag_of th) = false.
Proof.
  intros Hn Hj. set (tag := tag_of th) in *. assert (0 < String.length tag)%nat as Htag by apply tag_length.
  destruct (HasPrefix (drop_bytes j s +:+ c) tag) eqn:E; [|done]. exfalso.
  pose proof (drop_bytes_length j s) as Hl.
  destruct (decide (String.length tag <= String.length (drop_bytes j s))%nat) as [Hlong|Hshort].
  - rewrite HasPrefix_long in E by done. by rewrite (Index_None _ _ Hn j) in E.
  - pose proof (HasPrefix_short _ _ _ E ltac:(lia)) as Ht.
    assert (HasSuffix s (take_bytes (String.length (drop_bytes j s)) tag) = false) as Hf by (apply (keep_suffix_longest (Nat.min (String.length s) (String.length tag - 1))); lia).
    rewrite Ht, HasSuffix_drop in Hf. done.
Qed.

Lemma tagged_cons th s ps : tagged ((th, s) :: ps) = bytes_in th s ++ tagged ps.
Proof. done. Qed.

Lemma tagged_app ps qs : tagged (ps ++ qs) = tagged ps ++ tagged qs.
Proof. apply flat_map_app. Qed.

(** What [feed] lets out, and what it keeps, amount to the bytes fed so far. *)
Lemma feed_loop_spec fuel th s c :
  (String.length s <= fuel)%nat ->
  let '(pieces, sp) := feed_loop fuel false th s in
  split_from th (s +:+ c) = tagged pieces ++ split_from (thinking sp) (pending sp +:+ c).
Proof.
  revert th s. induction fuel as [|fuel IH]; intros th s Hf; cbn [feed_loop]; [done|].
  destruct (is_empty s) eqn:Ee; [done|]. cbv zeta. destruct (Index s (tag_of th)) as [idx|] eqn:E.
  - pose proof (after_tag_shorter _ _ _ E) as Hlt. specialize (IH (negb th) (drop_bytes (idx + String.length (tag_of th)) s) ltac:(lia)).
    destruct (feed_loop fuel false (negb th) _) as [ps sp]. destruct (Index_Some _ _ _ E) as [Hp Hbefore].
    assert (idx + String.length (tag_of th) <= String.length s)%nat as Hlen.
    { apply HasPrefix_spec in Hp as [t Ht]. pose proof (drop_bytes_length idx s) as Hl. rewrite Ht, string_length_app in Hl.
      pose proof (tag_length th). lia. }
    rewrite split_from_eq, (Index_is _ _ idx).
    + rewrite tagged_cons, <- app_assoc, drop_bytes_app_le, take_bytes_app_l by lia. by rewrite <- IH.
    + rewrite string_length_app. lia.
    + rewrite drop_bytes_app_le by lia. by apply HasPrefix_app.
    + intros j Hj. rewrite drop_bytes_app_le, HasPrefix_long by (rewrite ?drop_bytes_length; lia). by apply Hbefore.
  - set (keep := keep_suffix _ s (tag_of th)). set (cut := (String.length s - keep)%nat).
    cbn [thinking pending]. rewrite tagged_cons. cbn [tagged flat_map]. rewrite app_nil_r.
    rewrite <- split_from_emit.
    + by rewrite <- sapp_assoc, take_drop_bytes.
    + intros j Hj. rewrite <- sapp_assoc, take_drop_bytes.
      assert (j < cut /\ cut <= String.length s)%nat as [Hj' Hc].
      { split; [|lia]. revert Hj. generalize cut. intros m Hj. clear - Hj. revert s j Hj. induction m as [|m IHm]; intros s j Hj; [by destruct s|].
        destruct s as [|x s]; cbn in Hj; [lia|]. destruct j as [|j]; [lia|]. specialize (IHm s j ltac:(lia)). lia. }
      rewrite drop_bytes_app_le by lia. by apply emitted_without_tag.
Qed.

Lemma feed_loop_final fuel th s :
  (String.length s <= fuel)%nat -> tagged (feed_loop fuel true th s).1 = split_from th s.
Proof.
  revert th s. induction fuel as [|fuel IH]; intros th s Hf; cbn [feed_loop].
  - destruct s; [by destruct th|cbn in Hf; lia].
  - destruct (is_empty s) eqn:Ee; [apply is_empty_true in Ee as ->; by destruct th|]. cbv zeta. rewrite split_from_eq.
    destruct (Index s (tag_of th)) as [idx|] eqn:E.
    + pose proof (after_tag_shorter _ _ _ E) as Hlt. specialize (IH (negb th) (drop_bytes (idx + String.length (tag_of th)) s) ltac:(lia)).
      destruct (feed_loop fuel true (negb th) _) as [ps sp]. cbn [fst] in *. by rewrite tagged_cons, IH.
    + cbn [fst]. rewrite Nat.sub_0_r, take_bytes_all, tagged_cons. apply app_nil_r.
Qed.

Lemma feed_all_spec fragments sp :
  tagged (feed_all fragments sp) = split_from (thinking sp) (pending sp +:+ concat_map id fragments).
Proof.
  revert sp. induction fragments as [|f fragments IH]; intros sp.
  - cbn [feed_all concat_map foldr]. unfold feed. rewrite sapp_nil_r. by apply feed_loop_final.
  - cbn [feed_all]. unfold feed. pose proof (feed_loop_spec (String.length (pending sp +:+ f)) (thinking sp) (pending sp +:+ f)
      (concat_map id fragments) (le_n _)) as H.
    destruct (feed_loop _ _ _ _) as [ps sp']. rewrite tagged_app, IH, <- H, concat_map_cons. by rewrite sapp_assoc.
Qed.

(** C30: However the content is cut into fragments, tags included, the bytes that
    come out by the end of the stream, in their order and each in its channel, are
    those of the whole content split at its tags: nothing held back is lost, no
    piece of a tag leaks into the answer. *)
Theorem splitter_ignores_fragments fragments :
  tagged (feed_all fragments new_splitter) = tagged (split_think (concat_map id fragments)).
Proof. apply (feed_all_spec fragments new_splitter). Qed.

(** At most seven bytes are held back: one less than the closing tag. *)
Lemma held_back content sp : (String.length (pending (feed content false sp).2) <= 7)%nat.
Proof.
  unfold feed. set (s := pending sp +:+ content). assert (String.length s <= String.length s)%nat as Hf by done.
  revert Hf. generalize (String.length s) at 2 3 as fuel. generalize (thinking sp) as th. clearbody s. intros th fuel. revert th s.
  induction fuel as [|fuel IH]; intros th s Hf; cbn [feed_loop]; [cbn; lia|].
  destruct (is_empty s) eqn:Ee; [apply is_empty_true in Ee as ->; cbn; lia|]. cbv zeta.
  destruct (Index s (tag_of th)) as [idx|] eqn:E.
  - pose proof (after_tag_shorter _ _ _ E) as Hlt. specialize (IH (negb th) (drop_bytes (idx + String.length (tag_of th)) s) ltac:(lia)).
    by destruct (feed_loop fuel false (negb th) _) as [ps sp'].
  - cbn [snd pending]. rewrite drop_bytes_length.
    pose proof (keep_suffix_bound (Nat.min (String.length s) (String.length (tag_of th) - 1)) s (tag_of th)).
    assert (String.length (tag_of th) <= 8)%nat by (destruct th; cbn; lia). lia.
Qed.

(** A closing tag cut in three. *)
Lemma splitter_demo :
  feed_all ["a<thi"; "nk>why</th"; "ink>b<"]%string new_splitter
  = [(false, "a"%string); (false, ""%string); (true, "why"%string); (true, ""%string); (false, "b"%string); (false, "<"%string)].
Proof. reflexivity. Qed.
