(* ===== verification/ClineCalls.v ===== *)
(** The calls of a stream that completes them more than once
    ([src/internal/util/toolstream.go], as [src/internal/cline/stream.go] uses it).

    A Cline answer may have several closing chunks: each completes the calls that
    have a name by then, and a call completed is closed, so that what follows for
    its index starts another.  [call_groups] is the rule the accumulator follows,
    said of the fragments alone; [kept] is the invariant of the accumulator, with
    the one call whose arguments a repair replaced. *)

From S2P Require Import Prelude UpstreamErrors OpenAISSE StreamHandler ProviderStream.

(** * The rule *)

(** A fragment comes, or the calls with a name are completed. *)
Inductive deed := Piece (f : fragment) | Close.

Definition has_name (t : string * string * string) : bool := negb (is_empty t.1.2).

(** The fragments of a call, and whether it was completed. *)
Definition seal_group (g : list fragment * bool) : list fragment * bool := (g.1, g.2 || has_name (put_together g.1)).

Definition piece_step (gs : list (list fragment * bool)) (f : fragment) : list (list fragment * bool) :=
  match last gs with
  | Some (group, sealed) =>
      if negb sealed && belongs f group then take (length gs - 1) gs ++ [(group ++ [f], sealed)] else gs ++ [([f], false)]
  | None => [([f], false)]
  end.

Definition deed_step (i : Z) (gs : list (list fragment * bool)) (d : deed) : list (list fragment * bool) :=
  match d with
  | Piece f => if f_index f =? i then piece_step gs f else gs
  | Close => seal_group <$> gs
  end.

(** The calls of one index. *)
Definition call_groups (i : Z) (ds : list deed) : list (list fragment * bool) := foldl (deed_step i) [] ds.

Lemma call_groups_snoc i ds d : call_groups i (ds ++ [d]) = deed_step i (call_groups i ds) d.
Proof. unfold call_groups. by rewrite foldl_app. Qed.

(** * The calls as they are seen *)

Abbreviation seen := (string * string * string * bool)%type.
Definition view (c : ToolCall) : seen := (told c, emitted c).
Definition shown (g : list fragment * bool) : seen := (put_together g.1, g.2).

Definition fold_seen (f : fragment) (v : seen) : seen :=
  let '(id, name, args, e) := v in
  (if is_empty (TrimSpace (f_id f)) then id else TrimSpace (f_id f),
   if is_empty (TrimSpace (f_name f)) then name else TrimSpace (f_name f), args +:+ f_args f, e).
Definition new_seen : seen := view new_call.
Definition seal_seen (v : seen) : seen := (v.1, v.2 || has_name v.1).

Definition starts_seen (f : fragment) (v : seen) : bool :=
  let id := TrimSpace (f_id f) in
  v.2 || (negb (is_empty id) && negb (is_empty v.1.1.1) && negb (String.eqb v.1.1.1 id)).

Lemma view_fold f c : view (fold_delta (f_id f) (f_name f) (f_args f) c) = fold_seen f (view c).
Proof. unfold view, told, fold_delta. cbn. by destruct (is_empty (TrimSpace (f_id f))), (is_empty (TrimSpace (f_name f))). Qed.

Lemma starts_view f c : starts_another (TrimSpace (f_id f)) c = starts_seen f (view c).
Proof. done. Qed.

Lemma view_seal c : view (mark_emitted c) = seal_seen (view c).
Proof.
  destruct c as [st sb id name args e]. unfold mark_emitted, completes, seal_seen, view, has_name, told.
  cbn [emitted call_Name call_ID Arguments fst snd]. destruct e; [done|]. cbn [negb andb orb]. by destruct (is_empty name).
Qed.

Lemma shown_snoc f group e : shown (group ++ [f], e) = fold_seen f (shown (group, e)).
Proof. unfold shown, put_together, fold_seen. cbn [fst snd]. rewrite !fmap_app. cbn [fmap list_fmap]. by rewrite !last_given_snoc, concat_map_snoc. Qed.

Lemma shown_one f : shown ([f], false) = fold_seen f new_seen.
Proof. exact (shown_snoc f [] false). Qed.

Lemma starts_shown f group e : starts_seen f (shown (group, e)) = negb (negb e && belongs f group).
Proof.
  unfold starts_seen, shown, belongs. cbn [fst snd put_together]. destruct e; [done|]. cbn.
  destruct (is_empty (TrimSpace (f_id f))), (is_empty (last_given _)); cbn; done.
Qed.

Lemma piece_goes_on f gs group e :
  last gs = Some (group, e) -> negb e && belongs f group = true ->
  exists gs', gs = gs' ++ [(group, e)] /\ piece_step gs f = gs' ++ [(group ++ [f], e)].
Proof.
  intros Hl Hb. unfold piece_step. rewrite Hl, Hb. apply last_Some in Hl as [gs' ->]. exists gs'. split; [done|].
  by rewrite length_app, Nat.add_sub, take_app_length.
Qed.

Lemma piece_opens f gs :
  (forall group e, last gs = Some (group, e) -> negb e && belongs f group = false) -> piece_step gs f = gs ++ [([f], false)].
Proof.
  intros H. unfold piece_step. destruct (last gs) as [[group e]|] eqn:El; [by rewrite (H group e)|]. by apply last_None in El as ->.
Qed.

(** * The accumulator follows the rule *)

Record tracked (ds : list deed) (owners : list Z) (vs : list seen) (cs : gmap Z nat) : Prop := {
  tr_length : length owners = length vs;
  tr_current : forall i, match cs !! i with
    | Some p => exists o1 o2, owners = o1 ++ i :: o2 /\ p = length o1 /\ i ∉ o2
    | None => i ∉ owners
    end;
  tr_calls : forall i, owned i owners vs = shown <$> call_groups i ds
}.

Definition goes_on (f : fragment) (cs : gmap Z nat) (vs : list seen) : option nat :=
  p ← cs !! f_index f; v ← vs !! p; if starts_seen f v then None else Some p.

(** The call at work for an index. *)
Lemma tracked_last ds owners vs cs i p :
  tracked ds owners vs cs -> cs !! i = Some p ->
  exists o1 o2 l1 v l2 group e, owners = o1 ++ i :: o2 /\ vs = l1 ++ v :: l2 /\ length o1 = length l1 /\ p = length l1 /\
    (i ∉ o2) /\ last (call_groups i ds) = Some (group, e) /\ v = shown (group, e).
Proof.
  intros [Hl Hc Ht] Hp. specialize (Hc i). rewrite Hp in Hc. destruct Hc as (o1 & o2 & -> & -> & Hn).
  rewrite length_app in Hl. cbn in Hl. destruct (lookup_lt_is_Some_2 vs (length o1)) as [v Hlook]; [lia|].
  apply list_elem_of_split_length in Hlook as (l1 & l2 & -> & El).
  specialize (Ht i). rewrite owned_middle in Ht by done.
  destruct (last (call_groups i ds)) as [[group e]|] eqn:Eg; cycle 1.
  { apply last_None in Eg. rewrite Eg in Ht. by apply app_nil in Ht as [_ ?]. }
  exists o1, o2, l1, v, l2, group, e. split_and!; try done. apply last_Some in Eg as [gs Eg]. rewrite Eg, fmap_app in Ht.
  apply app_inj_2 in Ht as [_ Ht]; [|done]. cbn in Ht. congruence.
Qed.

Lemma tracked_goes_on ds owners vs cs f p :
  tracked ds owners vs cs -> goes_on f cs vs = Some p -> tracked (ds ++ [Piece f]) owners (alter (fold_seen f) p vs) cs.
Proof.
  intros H Hg. unfold goes_on in Hg. destruct (cs !! f_index f) as [q|] eqn:Ei; [|done]. cbn in Hg.
  destruct (tracked_last _ _ _ _ _ _ H Ei) as (o1 & o2 & l1 & v & l2 & group & e & -> & -> & Hl1 & -> & Hn & Hlast & ->).
  rewrite list_lookup_middle in Hg by done. cbn [mbind option_bind] in Hg. rewrite starts_shown in Hg.
  destruct (negb e && belongs f group) eqn:Eb; [|done]. cbn [negb] in Hg. injection Hg as <-.
  destruct H as [Hl Hc Ht]. rewrite alter_middle. split; [|done|].
  - rewrite !length_app in *. exact Hl.
  - intros i. rewrite call_groups_snoc. cbn [deed_step]. destruct (Z.eqb_spec (f_index f) i) as [<-|Hne]; cycle 1.
    { rewrite (owned_other i (f_index f) _ _ _ _ (shown (group, e))) by (congruence || done). apply Ht. }
    specialize (Ht (f_index f)). rewrite owned_middle in * by done.
    destruct (piece_goes_on f _ group e Hlast Eb) as (gs & Egs & ->). rewrite Egs, !fmap_app in *. cbn [fmap list_fmap] in *.
    apply app_inj_2 in Ht as [-> _]; [|done]. by rewrite shown_snoc.
Qed.

Lemma tracked_opens ds owners vs cs f :
  tracked ds owners vs cs -> goes_on f cs vs = None ->
  tracked (ds ++ [Piece f]) (owners ++ [f_index f]) (vs ++ [fold_seen f new_seen]) (<[f_index f := length vs]> cs).
Proof.
  intros H Hg. pose proof H as [Hl Hc Ht]. split.
  - rewrite !length_app. cbn. lia.
  - intros i. destruct (decide (i = f_index f)) as [->|Hne].
    + rewrite lookup_insert_eq. exists owners, []. split_and!; [done|done|apply not_elem_of_nil].
    + rewrite lookup_insert_ne by done. specialize (Hc i). destruct (cs !! i) as [p|].
      * destruct Hc as (o1 & o2 & -> & -> & Hn). exists o1, (o2 ++ [f_index f]). split_and!; [by rewrite <- app_assoc|done|].
        rewrite elem_of_app, list_elem_of_singleton. tauto.
      * rewrite elem_of_app, list_elem_of_singleton. tauto.
  - intros i. rewrite owned_app, call_groups_snoc, owned_one by done. cbn [deed_step].
    destruct (Z.eqb_spec (f_index f) i) as [<-|Hne]; [|by rewrite app_nil_r].
    rewrite piece_opens; [by rewrite fmap_app, Ht; cbn [fmap list_fmap]; rewrite shown_one|]. intros group e Hlast.
    unfold goes_on in Hg. destruct (cs !! f_index f) as [p|] eqn:Ei; cycle 1.
    { specialize (Hc (f_index f)). rewrite Ei in Hc. specialize (Ht (f_index f)). rewrite owned_none in Ht by done.
      apply last_Some in Hlast as [gs Eg]. rewrite Eg, fmap_app in Ht. by destruct (shown <$> gs). }
    destruct (tracked_last _ _ _ _ _ _ H Ei) as (o1 & o2 & l1 & v & l2 & group' & e' & -> & -> & Hl1 & -> & Hn & Hlast' & ->).
    rewrite Hlast in Hlast'. injection Hlast' as <- <-. cbn in Hg. rewrite list_lookup_middle in Hg by done. cbn [mbind option_bind] in Hg.
    rewrite starts_shown in Hg. by destruct (negb e && belongs f group).
Qed.

Lemma owned_fmap {A B} (g : A -> B) i owners (xs : list A) : owned i owners (g <$> xs) = g <$> owned i owners xs.
Proof.
  unfold owned. revert owners. induction xs as [|x xs IH]; intros [|o owners]; try done. cbn. destruct (o =? i); cbn; [f_equal|]; apply IH.
Qed.

Lemma tracked_close ds owners vs cs : tracked ds owners vs cs -> tracked (ds ++ [Close]) owners (seal_seen <$> vs) cs.
Proof.
  intros [Hl Hc Ht]. split; [by rewrite length_fmap|done|]. intros i. rewrite owned_fmap, Ht, call_groups_snoc. cbn [deed_step].
  rewrite <- !list_fmap_compose. by apply list_fmap_ext.
Qed.

(** * The one call whose arguments were replaced *)

(** Which call, its arguments before and after, and the text they were read from. *)
Record repair := mkRepair { re_call : nat; re_old : string; re_new : string; re_held : string }.

Definition fixed (w : option repair) (vs : list seen) : list seen :=
  match w with Some w => alter (fun v => (v.1.1, re_new w, v.2)) (re_call w) vs | None => vs end.

(** It is closed ([settled]), or will be at the next completion. *)
Definition fix_stands (settled : bool) (w : option repair) (vs : list seen) : Prop :=
  match w with
  | Some w => exists id name e, vs !! re_call w = Some (id, name, re_old w, e) /\ (if settled then e else has_name (id, name, re_old w)) = true
  | None => True
  end.

(** The accumulator after the deeds [ds], with [msgs] the calls delivered. *)
Record kept_upto (settled : bool) (ds : list deed) (w : option repair) (a : ToolCallAccumulator) (msgs : list SSEMessage) : Prop := {
  kept_calls : exists owners vs, tracked ds owners vs (calls a) /\ view <$> order a = fixed w vs /\ fix_stands settled w vs;
  kept_sent : exists cs, cs ≡ₚ List.filter emitted (order a) /\ Forall2 delivers cs msgs;
  kept_named : Forall (fun c => emitted c = true -> named c = true) (order a)
}.

Abbreviation kept := (kept_upto true).

Lemma kept_new : kept [] None NewToolCallAccumulator [].
Proof.
  split; [|by exists []|done]. exists [], []. split_and!; [|done|done]. split; [done| |done]. intros i.
  change (calls NewToolCallAccumulator) with (∅ : gmap Z nat). rewrite lookup_empty. apply not_elem_of_nil.
Qed.

Lemma filter_emitted_alter_open g p (cs : list ToolCall) :
  (forall c, cs !! p = Some c -> emitted c = false /\ emitted (g c) = false) ->
  List.filter emitted (alter g p cs) = List.filter emitted cs.
Proof.
  revert p. induction cs as [|c cs IH]; intros [|p] H; try done.
  - change (alter g 0%nat (c :: cs)) with (g c :: cs). cbn. by destruct (H c eq_refl) as [-> ->].
  - change (alter g (S p) (c :: cs)) with (c :: alter g p cs). cbn. by rewrite (IH p H).
Qed.

Lemma alter_apart {A} (g h : A -> A) p q (l : list A) : p <> q -> alter g p (alter h q l) = alter h q (alter g p l).
Proof.
  intros Hne. apply list_eq. intros i. destruct (decide (i = p)) as [->|Hp].
  - by rewrite list_lookup_alter_eq, !list_lookup_alter_ne, list_lookup_alter_eq by done.
  - rewrite list_lookup_alter_ne by done. destruct (decide (i = q)) as [->|Hq].
    + by rewrite !list_lookup_alter_eq, list_lookup_alter_ne.
    + by rewrite !list_lookup_alter_ne.
Qed.

Lemma goes_on_fixed f w vs cs settled :
  fix_stands settled w vs -> goes_on f cs (fixed w vs) = goes_on f cs vs.
Proof.
  intros Hw. destruct w as [w|]; [|done]. unfold goes_on, fixed. destruct (cs !! f_index f) as [p|]; [|done]. cbn [mbind option_bind].
  destruct (decide (p = re_call w)) as [->|Hne]; [|by rewrite list_lookup_alter_ne].
  destruct Hw as (id & name & e & E & _). by rewrite list_lookup_alter_eq, E.
Qed.

Lemma continued_view f a : continued (f_index f) (TrimSpace (f_id f)) a = goes_on f (calls a) (view <$> order a).
Proof.
  unfold continued, goes_on. destruct (calls a !! f_index f) as [p|]; [|done]. cbn. rewrite list_lookup_fmap.
  by destruct (order a !! p).
Qed.

(** A fragment of a call. *)
Lemma kept_add ds w a msgs f :
  kept ds w a msgs -> kept (ds ++ [Piece f]) w (Add (f_index f) (f_id f) (f_name f) (f_args f) a).2 msgs.
Proof.
  intros [(owners & vs & Ht & Hv & Hw) (cs & Hp & Hd) Hn]. pose proof (continued_view f a) as Ec. rewrite Hv, (goes_on_fixed _ _ _ _ true) in Ec by done.
  destruct (goes_on f (calls a) vs) as [p|] eqn:Eg.
  - rewrite (Add_continues _ _ _ Ec). cbn [snd]. pose proof (tracked_goes_on _ _ _ _ _ _ Ht Eg) as Ht'.
    unfold goes_on in Eg. destruct (calls a !! f_index f) as [q|]; [|done]. cbn in Eg. destruct (vs !! q) as [v|] eqn:Ev; [|done]. cbn in Eg.
    destruct (starts_seen f v) eqn:Es; [done|]. injection Eg as ->.
    assert (w = None \/ exists w', w = Some w' /\ re_call w' <> p) as Hne.
    { destruct w as [w|]; [right|by left]. exists w. split; [done|]. intros <-. destruct Hw as (id & name & e & E & ->).
      rewrite E in Ev. injection Ev as <-. done. }
    assert (forall c, order a !! p = Some c -> emitted c = false) as Hopen.
    { intros c Hc. assert ((view <$> order a) !! p = Some v) as Hvv.
      { rewrite Hv. destruct Hne as [->|(w' & -> & Hne)]; [done|]. cbn [fixed]. by rewrite list_lookup_alter_ne. }
      rewrite list_lookup_fmap, Hc in Hvv. injection Hvv as <-. unfold starts_seen in Es. cbn in Es. by destruct (emitted c). }
    split.
    + exists owners, (alter (fold_seen f) p vs). split_and!; [done| |].
      * cbn [order set_field update_with].
        assert (view <$> alter (fold_delta (f_id f) (f_name f) (f_args f)) p (order a) = alter (fold_seen f) p (view <$> order a)) as ->.
        { apply list_eq. intros i. rewrite list_lookup_fmap. destruct (decide (i = p)) as [->|?].
          - rewrite !list_lookup_alter_eq, list_lookup_fmap. destruct (order a !! p); [|done]. cbn. by rewrite view_fold.
          - by rewrite !list_lookup_alter_ne, list_lookup_fmap by done. }
        rewrite Hv. destruct Hne as [->|(w' & -> & Hne)]; [done|]. cbn [fixed]. by apply alter_apart.
      * destruct Hne as [->|(w' & -> & Hne)]; [done|]. cbn [fix_stands] in *. by rewrite list_lookup_alter_ne.
    + exists cs. split; [|done]. cbn [order set_field update_with]. rewrite filter_emitted_alter_open; [done|].
      intros c Hc. split; [by apply Hopen|]. rewrite fold_delta_emitted. by apply Hopen.
    + cbn [order set_field update_with]. apply Forall_alter; [done|]. intros c Hc _. by rewrite fold_delta_emitted, (Hopen c Hc).
  - rewrite (Add_opens _ _ Ec). pose proof (tracked_opens _ _ _ _ _ Ht Eg) as Ht'.
    assert (length (order a) = length vs) as El.
    { rewrite <- (length_fmap view (order a)), Hv. destruct w; cbn [fixed]; [apply length_alter|done]. }
    cbn [snd]. split; cbn [order calls].
    + eexists _, _. rewrite El. split_and!; [exact Ht'| |].
      * rewrite fmap_app, Hv. cbn [fmap list_fmap]. rewrite view_fold. destruct w as [w|]; [|done]. cbn [fixed].
        destruct Hw as (id & name & e & E & _). apply lookup_lt_Some in E. by rewrite alter_app_l.
      * destruct w as [w|]; [|done]. destruct Hw as (id & name & e & E & He). exists id, name, e. by rewrite lookup_app_l by (by eapply lookup_lt_Some).
    + exists cs. split; [|done]. rewrite List.filter_app. cbn [List.filter]. rewrite fold_delta_emitted. cbn. by rewrite app_nil_r.
    + apply Forall_app. split; [done|]. constructor; [|done]. by rewrite fold_delta_emitted.
Qed.

(** Streaming a call shows nothing else of it. *)
Lemma stream_view stream p a s : view <$> order (stream_call stream p (a, s)).1 = view <$> order a.
Proof.
  unfold stream_call. destruct stream; [|done]. destruct (order a !! p) as [c|] eqn:Ep; [|done].
  destruct (EmitToolDelta_told c) as [Ht He]. destruct (EmitToolDelta c) as [c' msgs]. cbn [fst order set_field update_with] in *.
  rewrite list_fmap_insert. apply list_insert_id. rewrite list_lookup_fmap, Ep. cbn. unfold view. by rewrite Ht, He.
Qed.

Lemma delivers_told c c' msg : told c' = told c -> delivers c msg -> delivers c' msg.
Proof. intros [= Ei En Ea] (id & -> & Hid). exists id. unfold call_event. rewrite En, Ea, Ei. by split. Qed.

(** What is known of an accumulator is in what is seen of its calls. *)
Lemma emitted_views cs cs' :
  view <$> cs' = view <$> cs -> Forall2 (fun c c' => told c' = told c) (List.filter emitted cs) (List.filter emitted cs').
Proof.
  revert cs'. induction cs as [|c cs IH]; intros [|c' cs'] H; try done. cbn [fmap list_fmap] in H.
  injection H as Hi Hn Ha He Hcs. cbn. rewrite He. destruct (emitted c); [constructor; [unfold told; congruence|by apply IH]|by apply IH].
Qed.

Lemma kept_view ds w a a' msgs :
  view <$> order a' = view <$> order a -> calls a' = calls a -> kept ds w a msgs -> kept ds w a' msgs.
Proof.
  intros Ev Ec [Hc (cs & Hp & Hd) Hn]. split.
  - by rewrite Ev, Ec.
  - pose proof (emitted_views _ _ Ev) as Hf. symmetry in Hp.
    destruct (Permutation_Forall2 Hp Hf) as (cs' & Hp' & Hf').
    exists cs'. split; [by symmetry|]. clear -Hd Hf'. revert msgs Hd. induction Hf'; intros msgs Hd; inversion Hd; subst; constructor; [|by apply IHHf'].
    by eapply delivers_told.
  - revert Hn. generalize (order a) (order a') Ev. clear. induction l as [|c cs IH]; intros [|c' cs'] H Hn; try done. cbn in H. injection H as Hi Hnm Ha He Hcs.
    inversion Hn; subst. constructor; [|by apply IH]. unfold named in *. by rewrite He, Hnm.
Qed.

(** ** Completion *)

Lemma completed_filter cs :
  List.filter emitted (mark_emitted <$> cs) ≡ₚ List.filter emitted cs ++ (mark_emitted <$> List.filter completes cs).
Proof.
  induction cs as [|c cs IH]; [done|]. cbn [fmap list_fmap List.filter]. destruct (completes c) eqn:Ec; cbn [fmap list_fmap].
  - assert (emitted (mark_emitted c) = true /\ emitted c = false) as [-> ->].
    { unfold mark_emitted. rewrite Ec. unfold completes in Ec. by destruct (emitted c). }
    rewrite IH. apply Permutation_middle.
  - assert (mark_emitted c = c) as -> by (unfold mark_emitted; by rewrite Ec). destruct (emitted c); [|done]. cbn [app]. by rewrite IH.
Qed.

Lemma seal_fixed w vs : seal_seen <$> fixed w vs = fixed w (seal_seen <$> vs).
Proof.
  destruct w as [w|]; [|done]. cbn [fixed]. apply list_eq. intros i. rewrite list_lookup_fmap.
  destruct (decide (i = re_call w)) as [->|Hne].
  - rewrite !list_lookup_alter_eq, list_lookup_fmap. by destruct (vs !! re_call w) as [[[[? ?] ?] ?]|].
  - by rewrite !list_lookup_alter_ne, list_lookup_fmap by done.
Qed.

Lemma kept_complete settled ds w a msgs more :
  kept_upto settled ds w a msgs -> Forall2 delivers (CompleteAll a).1 more ->
  kept (ds ++ [Close]) w (CompleteAll a).2 (msgs ++ more) /\ List.filter emitted (order (CompleteAll a).2) = List.filter named (order (CompleteAll a).2).
Proof.
  intros [(owners & vs & Ht & Hv & Hw) (cs & Hp & Hd) Hn] Hmore. cbn [CompleteAll fst snd order calls set_field update_with] in *. split.
  - split; cbn [order calls set_field update_with].
    + exists owners, (seal_seen <$> vs). split_and!; [by apply tracked_close| |].
      * rewrite <- seal_fixed, <- Hv, <- !list_fmap_compose. apply list_fmap_ext. intros _ c _. apply view_seal.
      * destruct w as [w|]; [|done]. destruct Hw as (id & name & e & E & He). exists id, name, true. rewrite list_lookup_fmap, E. split; [|done].
        cbn. unfold seal_seen. cbn [fst snd]. do 2 f_equal. destruct settled; rewrite He; [done|apply orb_true_r].
    + exists (cs ++ (mark_emitted <$> List.filter completes (order a))). split; [by rewrite completed_filter, Hp|]. by apply Forall2_app.
    + apply Forall_fmap. eapply Forall_impl; [exact Hn|]. intros c Hc. cbn. unfold mark_emitted. destruct (completes c) eqn:Ec; [|done].
      intros _. unfold completes in Ec. apply andb_true_iff in Ec as [_ Ec]. exact Ec.
  - clear -Hn. induction Hn as [|c cs Hc _ IH]; [done|]. cbn [fmap list_fmap List.filter].
    assert (emitted (mark_emitted c) = named (mark_emitted c)) as ->; [|by rewrite IH].
    destruct c as [st sb id name args e]. unfold mark_emitted, completes, named in *. cbn [emitted call_Name] in *.
    destruct e; cbn [negb andb emitted call_Name]; [by rewrite Hc|]. by destruct (is_empty name) eqn:En; cbn [negb emitted call_Name set_field update_with]; rewrite En.
Qed.

(** The arguments of an open call with a name are replaced. *)
Lemma kept_repair ds a msgs p c held args :
  kept ds None a msgs -> order a !! p = Some c -> emitted c = false -> named c = true ->
  kept_upto false ds (Some (mkRepair p (Arguments c) args held)) (a <| order := alter (fun c => c <| Arguments := args |>) p (order a) |>) msgs.
Proof.
  intros [(owners & vs & Ht & Hv & _) (cs & Hp & Hd) Hn] Hc He Hname. cbn [fixed] in Hv. split; cbn [order calls set_field update_with].
  - exists owners, vs. split_and!; [done| |].
    + cbn [fixed re_call re_new]. rewrite <- Hv. apply list_eq. intros i. rewrite list_lookup_fmap. destruct (decide (i = p)) as [->|?].
      * by rewrite !list_lookup_alter_eq, list_lookup_fmap, Hc.
      * by rewrite !list_lookup_alter_ne, list_lookup_fmap by done.
    + cbn [fix_stands re_call re_old]. exists (call_ID c), (call_Name c), (emitted c). split; [|done]. by rewrite <- Hv, list_lookup_fmap, Hc.
  - exists cs. split; [|done]. rewrite filter_emitted_alter_open; [done|]. intros d Hd'. rewrite Hc in Hd'. injection Hd' as <-. by split.
  - apply Forall_alter; [done|]. intros d Hd' Hnd Hed. rewrite Hc in Hd'. injection Hd' as <-. exact Hname.
Qed.
