(* ===== verification/ClineStream.v ===== *)
(** The Cline response reader ([src/internal/cline/stream.go]) with the repair of
    broken control-character calls ([control_tool_recovery.go]).

    [cline_text_is_the_content]: what the reader reports as answer and as reasoning
    is the content split at its thinking tags, each byte once.
    [broken_call_repaired]: a call cut off at its control character takes its
    arguments from the markup in the content, which is then no answer text. *)

From Stdlib Require Import Ascii.
From S2P Require Import Prelude GoFloat UpstreamErrors Json OpenAISSE RetryWait StreamHandler ProviderStream ClineCalls ClineSplitter.

(** * Broken control-character calls ([control_tool_recovery.go]) *)

Record controlToolRecovery := mkRecovery {
  rec_call : option nat; rec_text : string; ambiguous : bool; overflow : bool; resolved : bool; disabled : bool }.

#[export] Instance eta_recovery : Eta controlToolRecovery := fun r =>
  mkRecovery (rec_call r) (rec_text r) (ambiguous r) (overflow r) (resolved r) (disabled r).

Definition new_recovery : controlToolRecovery := mkRecovery None "" false false false false.

(** The arguments of a call the upstream cut off at the control character. *)
Definition broken_arguments : string := lit "{'chars':".

Definition is_broken (call : ToolCall) : bool := String.eqb (TrimSpace (Arguments call)) broken_arguments.

(** [observe] of the call at position [p]. *)
Definition observe (p : nat) (call : ToolCall) (r : controlToolRecovery) : controlToolRecovery :=
  if resolved r || is_empty (call_ID call) || negb (String.eqb (call_Name call) "write_stdin") || negb (is_broken call) then r
  else
    match rec_call r with
    | Some q => if (q =? p)%nat then r else r <| ambiguous := true |>
    | None => r <| rec_call := Some p |>
    end.

Definition ETX : string := String (ascii_of_nat 3) "".
Definition prolog : string := "<tool_call><function=write_stdin><parameter=chars>" +:+ ETX +:+ "</parameter>".

(** [capture]: what is let through, [None] where the text is held. *)
Definition capture (text : string) (r : controlToolRecovery) : option string * controlToolRecovery :=
  if is_empty text || resolved r || disabled r then (Some text, r)
  else
    let combined := rec_text r +:+ text in
    if negb (HasPrefix prolog combined) && negb (HasPrefix combined prolog)
    then (Some combined, r <| rec_text := "" |> <| disabled := true |>)
    else if 16 * 1024 <? Z.of_nat (String.length combined)
    then
      let r := r <| overflow := true |> <| disabled := true |> <| rec_text := "" |> in
      (match rec_call r with None => Some combined | Some _ => None end, r)
    else (None, r <| rec_text := combined |>).

Definition call_prefix : string := "<tool_call><function=write_stdin>".
Definition call_suffix : string := "</function></tool_call>".

(** [strings.Cut] at a non-empty separator. *)
Definition cut_at (s sep : string) : option (string * string) :=
  idx ← Index s sep; Some (take_bytes idx s, drop_bytes (idx + String.length sep) s).

(** The value of a parameter, none where it is not acceptable. *)
Definition parameter_value (name value : string) : option json :=
  if String.eqb name "chars" then guard (value = ETX);; Some (JString value)
  else if str_in name ["session_id"; "max_output_tokens"; "yield_time_ms"]%string then
    v ← ParseInt value;
    guard (0 <= v /\ ~ (name = "session_id"%string /\ v = 0));;
    Some (JNumber (Itoa v))
  else None.

Fixpoint parse_parameters (fuel : nat) (text : string) (values : gmap string json) : option (gmap string json) :=
  match fuel with
  | O => None
  | S fuel =>
      if is_empty text then Some values
      else if negb (HasPrefix text "<parameter=") then None
      else
        named ← cut_at (drop_bytes 11 text) ">";
        valued ← cut_at named.2 "</parameter>";
        guard (values !! named.1 = None);;
        v ← parameter_value named.1 valued.1;
        parse_parameters fuel valued.2 (<[named.1 := v]> values)
  end.

(** [json.Marshal] of the four parameters, in the order of their names. *)
Definition parameters_json (values : gmap string json) : option string :=
  chars ← values !! "chars"%string; most ← values !! "max_output_tokens"%string;
  session ← values !! "session_id"%string; wait ← values !! "yield_time_ms"%string;
  Some (encode (JObject [("chars"%string, chars); ("max_output_tokens"%string, most);
                         ("session_id"%string, session); ("yield_time_ms"%string, wait)])).

Definition parseControlToolFallback (text : string) : option string :=
  if negb (HasPrefix text call_prefix) || negb (HasSuffix text call_suffix) then None
  else
    let inner := drop_bytes (String.length call_prefix) (take_bytes (String.length text - String.length call_suffix) text) in
    values ← parse_parameters (S (String.length inner)) inner ∅;
    if (size values =? 4)%nat then parameters_json values else None.

Definition ambiguous_call : go_error := Errorf "cline stream protocol error: ambiguous control-character tool call".
Definition incomplete_call : go_error := Errorf "cline stream protocol error: incomplete control-character tool call".

(** [resolve]: the text held, or an error; the arguments of the call are replaced
    in the accumulator. *)
Definition resolve (r : controlToolRecovery) (a : ToolCallAccumulator)
    : (string + go_error) * controlToolRecovery * ToolCallAccumulator :=
  if resolved r then (inl ""%string, r, a)
  else
    let r := r <| resolved := true |> in
    match rec_call r with
    | None => (inl (rec_text r), r, a)
    | Some p =>
        let broken := match order a !! p with Some call => is_broken call | None => false end in
        if (is_empty (rec_text r) && negb (overflow r)) || negb broken then (inl (rec_text r), r, a)
        else if ambiguous r || overflow r then (inr ambiguous_call, r, a)
        else
          match parseControlToolFallback (rec_text r) with
          | None => (inr incomplete_call, r, a)
          | Some args => (inl ""%string, r, a <| order := alter (fun c => c <| Arguments := args |>) p (order a) |>)
          end
    end.

(** * Chunks ([stream.go]) *)

Record cline_delta := mkDelta {
  Content : string; ReasoningContent : string; Reasoning : string; Thinking : string; ToolCalls : option (list fragment) }.
Record cline_choice := mkChoice { FinishReason : string; Delta : cline_delta }.

(** A [json.RawMessage] is its value; an empty one is [None]. *)
Record streamChunk := mkChunk {
  Data : option json; ProviderMetadata : option json; ProviderMetadataCamel : option json;
  chunk_ID : string; Object_ : string; chunk_Model : string; Choices : option (list cline_choice);
  chunk_Usage : option (list (string * any)); Error_Message : string }.

#[export] Instance eta_delta : Eta cline_delta := fun d =>
  mkDelta (Content d) (ReasoningContent d) (Reasoning d) (Thinking d) (ToolCalls d).
#[export] Instance eta_choice : Eta cline_choice := fun c => mkChoice (FinishReason c) (Delta c).
#[export] Instance eta_chunk : Eta streamChunk := fun c =>
  mkChunk (Data c) (ProviderMetadata c) (ProviderMetadataCamel c) (chunk_ID c) (Object_ c) (chunk_Model c) (Choices c)
    (chunk_Usage c) (Error_Message c).

Definition delta_fields (key : string) (v : json) (d : cline_delta) : option cline_delta :=
  if names "role" key then checked (decode_text v "") d
  else if names "content" key then t ← decode_text v (Content d); Some (d <| Content := t |>)
  else if names "reasoning_content" key then t ← decode_text v (ReasoningContent d); Some (d <| ReasoningContent := t |>)
  else if names "reasoning" key then t ← decode_text v (Reasoning d); Some (d <| Reasoning := t |>)
  else if names "thinking" key then t ← decode_text v (Thinking d); Some (d <| Thinking := t |>)
  else if names "tool_calls" key
  then l ← decode_slice no_fragment tool_call_field v (ToolCalls d); Some (d <| ToolCalls := l |>)
  else Some d.

Definition choice_field (key : string) (v : json) (c : cline_choice) : option cline_choice :=
  if names "index" key then checked (decode_int v 0) c
  else if names "finish_reason" key then t ← decode_text v (FinishReason c); Some (c <| FinishReason := t |>)
  else if names "delta" key then d ← decode_struct delta_fields v (Delta c); Some (c <| Delta := d |>)
  else Some c.

Definition no_choice : cline_choice := mkChoice "" (mkDelta "" "" "" "" None).

Definition error_field (key : string) (v : json) (message : string) : option string :=
  if names "message" key then decode_text v message else Some message.

Definition chunk_field (key : string) (v : json) (c : streamChunk) : option streamChunk :=
  if names "data" key then Some (c <| Data := Some v |>)
  else if names "provider_metadata" key then Some (c <| ProviderMetadata := Some v |>)
  else if names "providerMetadata" key then Some (c <| ProviderMetadataCamel := Some v |>)
  else if names "id" key then t ← decode_text v (chunk_ID c); Some (c <| chunk_ID := t |>)
  else if names "object" key then t ← decode_text v (Object_ c); Some (c <| Object_ := t |>)
  else if names "model" key then t ← decode_text v (chunk_Model c); Some (c <| chunk_Model := t |>)
  else if names "choices" key then l ← decode_slice no_choice choice_field v (Choices c); Some (c <| Choices := l |>)
  else if names "usage" key then m ← decode_map v (chunk_Usage c); Some (c <| chunk_Usage := m |>)
  else if names "error" key then m ← decode_struct error_field v (Error_Message c); Some (c <| Error_Message := m |>)
  else Some c.

Definition no_chunk : streamChunk := mkChunk None None None "" "" "" None None "".

Definition decoded (c : streamChunk) : bool :=
  bool_decide (is_Some (Choices c)) || bool_decide (is_Some (chunk_Usage c)) || negb (is_empty (chunk_ID c))
  || negb (is_empty (Object_ c)) || negb (is_empty (chunk_Model c)) || negb (is_empty (Error_Message c)).

Definition chunkLooksDecoded (v : json) : bool :=
  match v with
  | JObject members => existsb (fun key => existsb (fun m => String.eqb m.1 key) members) ["choices"; "usage"; "id"; "object"; "model"]%string
  | _ => false
  end.

Definition invalid_chunk : go_error := Errorf "cline stream protocol error: invalid chunk".
Definition invalid_wrapped : go_error := Errorf "cline stream protocol error: invalid wrapped chunk".

(** The chunk of a payload, taken out of its envelope where it has one. *)
Definition read_chunk (payload : string) : streamChunk + go_error :=
  match v ← parse payload; c ← decode_struct chunk_field v no_chunk; Some (v, c) with
  | None => inr invalid_chunk
  | Some (v, c) =>
      if decoded c then inl c
      else
        match Data c with
        | Some inner =>
            match decode_struct chunk_field inner no_chunk with
            | Some c => if decoded c || chunkLooksDecoded inner then inl c else inr invalid_wrapped
            | None => inr invalid_wrapped
            end
        | None => if chunkLooksDecoded v then inl c else inr invalid_chunk
        end
  end.

(** ** The provider that served ([gatewayRouting]) *)

Definition routing_field (key : string) (v : json) (routing : option (list (string * any))) : option (option (list (string * any))) :=
  if names "routing" key then decode_map v routing else Some routing.
Definition gateway_field (key : string) (v : json) (routing : option (list (string * any))) : option (option (list (string * any))) :=
  if names "gateway" key then decode_struct routing_field v routing else Some routing.

Definition routing_attempts (routing : list (string * any)) : Z :=
  match map_get routing "totalProviderAttemptCount" with
  | Some (VFloat count) => if f64_ltb f64_zero count then f64_to_int64 count else 0
  | _ => 0
  end.

Definition routed (routing : list (string * any)) : option (string * Z) :=
  let named key :=
    let provider := TrimSpace (string_of routing key) in
    if is_empty provider then None else Some (provider, routing_attempts routing) in
  match named "finalProvider"%string with Some x => Some x | None => named "resolvedProvider"%string end.

Fixpoint gatewayRouting (blocks : list (option json)) : string * Z :=
  match blocks with
  | [] => (""%string, 0)
  | block :: blocks =>
      match v ← block; m ← decode_struct gateway_field v None; routing ← m; routed routing with
      | Some x => x
      | None => gatewayRouting blocks
      end
  end.

(** * The reader *)

Inductive cline_error :=
| AttemptError (err : go_error) (unauth : bool) (detail : string)   (* [attemptStreamError] *)
| OtherError (err : go_error).

Definition error_text (e : cline_error) : string := match e with AttemptError err _ _ | OtherError err => err_text err end.

Definition ErrStreamTruncated : go_error := Errorf "cline stream ended before the finish event".

(** [streamResult] with the reader's locals. *)
Record reader := mkReader {
  Model : string; Provider : string; ProviderAttempts : Z; UpstreamFinishReason : string; ThinkingSignature : string;
  out : sink; tools : ToolCallAccumulator; splitter : clineThinkingSplitter; recovery : controlToolRecovery; sawFinish : bool }.

#[export] Instance eta_reader : Eta reader := fun r =>
  mkReader (Model r) (Provider r) (ProviderAttempts r) (UpstreamFinishReason r) (ThinkingSignature r) (out r) (tools r)
    (splitter r) (recovery r) (sawFinish r).

(** [streamResult.FinishReason]. *)
Definition result_FinishReason (r : reader) : string :=
  if 0 <? ToolCallCount (out r) then "tool_use"
  else
    let reason := ToLower (TrimSpace (UpstreamFinishReason r)) in
    if str_in reason ["length"; "max_tokens"; "max_token_limit"]%string then "max_tokens"
    else if str_in reason ["stop"; "stop_sequence"; "end_turn"; ""]%string then "end_turn"
    else UpstreamFinishReason r.

Inductive progress := Goes (r : reader) | Breaks (r : reader) | Fails (e : cline_error) (r : reader).

Section reader.
(** The identifiers minted, the signature drawn for the stream, whether the request
    declares tools, the original names of its tools, and whether calls stream. *)
Context (nanos sequence : nat -> Z) (signature : string) (toolsEnabled : bool) (toolNames : gmap string string)
  (streamToolDeltas : bool).

Definition new_reader : reader :=
  mkReader "" "" 0 "" "" new_sink NewToolCallAccumulator new_splitter (new_recovery <| disabled := negb toolsEnabled |>) false.

Definition emit_text (text : string) (r : reader) : reader :=
  let '(output, rec) := capture text (recovery r) in
  let r := r <| recovery := rec |> in
  match output with Some text => r <| out := EmitTextDelta text (out r) |> | None => r end.

Definition emit_reasoning (reasoning : string) (r : reader) : reader :=
  if is_empty reasoning then r
  else
    let r := r <| out := (out r) <| SawMeaningfulEvent := true |> |> in
    let r := if is_empty (ThinkingSignature r) then r <| ThinkingSignature := signature |> else r in
    r <| out := send (reasoning_event reasoning (ThinkingSignature r)) (out r) |>.

Definition emit_piece (r : reader) (p : piece) : reader := if p.1 then emit_reasoning p.2 r else emit_text p.2 r.

Definition feed_content (content : string) (final : bool) (r : reader) : reader :=
  let '(pieces, sp) := feed content final (splitter r) in foldl emit_piece (r <| splitter := sp |>) pieces.

Definition emitTools (r : reader) : reader * option cline_error :=
  match resolve (recovery r) (tools r) with
  | (inr err, rec, a) => (r <| recovery := rec |> <| tools := a |>, Some (OtherError err))
  | (inl text, rec, a) =>
      let '(calls, a) := CompleteAll a in
      let r := r <| recovery := rec |> <| out := EmitTextDelta text (out r) |> <| tools := a |> in
      match ValidateStreamedTools calls with
      | Some err => (r, Some (OtherError err))
      | None => (r <| out := EmitToolCalls nanos sequence calls (out r) |>, None)
      end
  end.

(** A delta of a call: its name restored, the repair informed. *)
Definition take_call (r : reader) (f : fragment) : reader :=
  let r := r <| out := (out r) <| SawMeaningfulEvent := true |> |> in
  let '(p, a) := Add (f_index f) (f_id f) (default (f_name f) (toolNames !! f_name f)) (f_args f) (tools r) in
  let r :=
    match order a !! p with
    | Some state => if toolsEnabled then r <| recovery := observe p state (recovery r) |> else r
    | None => r
    end in
  let '(a, s) := stream_call streamToolDeltas p (a, out r) in
  r <| tools := a |> <| out := s |>.

(** The reasoning of a delta, under the first name that carries any. *)
Definition reasoning_of_delta (d : cline_delta) : string :=
  if negb (is_empty (ReasoningContent d)) then ReasoningContent d
  else if negb (is_empty (Reasoning d)) then Reasoning d
  else Thinking d.

Definition take_choice (c : cline_choice) (r : reader) : progress :=
  let d := Delta c in
  let r := emit_reasoning (reasoning_of_delta d) r in
  let r := foldl take_call r (default [] (ToolCalls d)) in
  let r := if is_empty (Content d) then r else feed_content (Content d) false r in
  let finishReason := TrimSpace (FinishReason c) in
  if is_empty finishReason then Goes r
  else
    match emitTools (r <| UpstreamFinishReason := finishReason |> <| sawFinish := true |>) with
    | (r, Some err) => Fails err r
    | (r, None) => Goes r
    end.

Definition stream_failed (msg detail : string) : cline_error :=
  AttemptError (Errorf ("cline stream error: " +:+ msg)) false detail.

Definition take_chunk (chunk : streamChunk) (r : reader) : progress :=
  let model := TrimSpace (chunk_Model chunk) in
  let r := if is_empty model then r else r <| Model := model |> in
  let '(provider, attempts) := gatewayRouting [ProviderMetadata chunk; ProviderMetadataCamel chunk] in
  let r := if is_empty provider then r else r <| Provider := provider |> <| ProviderAttempts := attempts |> in
  let msg := TrimSpace (Error_Message chunk) in
  if negb (is_empty msg) then Fails (stream_failed msg msg) r
  else
    let r := r <| out := ApplyStreamUsage (NormalizeUsageMap (chunk_Usage chunk)) (out r) |> in
    match default [] (Choices chunk) with
    | [] => Goes r
    | c :: _ => take_choice c r
    end.

(** A refusal in place of the first chunk. *)
Definition initial_refusal (payload : string) (r : reader) : bool :=
  negb (SawMeaningfulEvent (out r)) && contains payload "Missing required parameter"
  && negb (contains payload (lit "'choices'")).

Definition take_line (text : string) (r : reader) : progress :=
  let line := TrimSpace text in
  if is_empty line || HasPrefix line ":" then Goes r
  else
    match data_of line with
    | None => Goes r
    | Some payload =>
        if String.eqb payload "[DONE]" then Breaks (r <| sawFinish := true |>)
        else if is_empty payload then Goes r
        else if initial_refusal payload r then Fails (stream_failed (Truncate payload 300) payload) r
        else
          match read_chunk payload with
          | inr err => Fails (OtherError err) r
          | inl chunk => take_chunk chunk r
          end
    end.

Fixpoint take_lines (lines : list string) (r : reader) : progress :=
  match lines with
  | [] => Goes r
  | line :: lines => match take_line line r with Goes r => take_lines lines r | stop => stop end
  end.

(** After the loop; [err] is [scanner.Err()]. *)
Definition end_of_stream (err : option go_error) (r : reader) : reader * option cline_error :=
  match err with
  | Some e => (r, Some (OtherError (Errorf ("failed to read cline stream: " +:+ err_text e))))
  | None =>
      if negb (sawFinish r) then (r, Some (OtherError ErrStreamTruncated))
      else emitTools (feed_content "" true r)
  end.

Definition consumeStreamWithToolNames (b : body) : reader * option cline_error :=
  let '(lines, err) := scan_body b in
  match take_lines lines new_reader with
  | Fails e r => (r, Some e)
  | Breaks r => end_of_stream (early_error b) r
  | Goes r => end_of_stream err r
  end.
End reader.

(** * What a success means *)

Inductive frame := Skipped | ChunkFrame (chunk : streamChunk) | DoneFrame | Refused.

Definition frame_of (text : string) : frame :=
  let line := TrimSpace text in
  if is_empty line || HasPrefix line ":" then Skipped
  else
    match data_of line with
    | None => Skipped
    | Some payload =>
        if String.eqb payload "[DONE]" then DoneFrame
        else if is_empty payload then Skipped
        else
          match read_chunk payload with
          | inl c => if is_empty (TrimSpace (Error_Message c)) then ChunkFrame c else Refused
          | inr _ => Refused
          end
    end.

(** The chunks up to [DONE] or the end of the body, with whether [DONE] came. *)
Fixpoint answer_chunks (lines : list string) : option (list streamChunk * bool) :=
  match lines with
  | [] => Some ([], false)
  | line :: lines =>
      match frame_of line with
      | Skipped => answer_chunks lines
      | ChunkFrame c => x ← answer_chunks lines; Some (c :: x.1, x.2)
      | DoneFrame => Some ([], true)
      | Refused => None
      end
  end.

Definition turn_of (c : streamChunk) : option cline_choice := head (default [] (Choices c)).
Definition turns (chunks : list streamChunk) : list cline_choice := omap turn_of chunks.
Definition contents (ts : list cline_choice) : string := concat_map (fun t => Content (Delta t)) ts.
Definition closes (t : cline_choice) : bool := negb (is_empty (TrimSpace (FinishReason t))).
(** Whether the reasoning comes in the content only. *)
Definition inline_only (ts : list cline_choice) : Prop := Forall (fun t => reasoning_of_delta (Delta t) = ""%string) ts.

(** The text of one channel. *)
Definition channel (th : bool) (ps : list piece) : string := concat_map (fun p => if Bool.eqb p.1 th then p.2 else "") ps.

(** Feeding without the flush. *)
Fixpoint feed_run (fragments : list string) (sp : clineThinkingSplitter) : list piece * clineThinkingSplitter :=
  match fragments with
  | [] => ([], sp)
  | f :: fragments =>
      let '(ps, sp) := feed f false sp in let '(qs, sp) := feed_run fragments sp in (ps ++ qs, sp)
  end.

Lemma feed_run_snoc fragments f sp :
  feed_run (fragments ++ [f]) sp
  = (let '(ps, sp) := feed_run fragments sp in let '(qs, sp) := feed f false sp in (ps ++ qs, sp)).
Proof.
  revert sp. induction fragments as [|g fragments IH]; intros sp; cbn [app feed_run].
  - destruct (feed f false sp) as [qs sp']. by rewrite app_nil_r.
  - destruct (feed g false sp) as [ps sp1]. rewrite IH. destruct (feed_run fragments sp1) as [qs sp2].
    destruct (feed f false sp2) as [rs sp3]. by rewrite app_assoc.
Qed.

Lemma feed_all_run fragments sp :
  feed_all fragments sp = (feed_run fragments sp).1 ++ (feed "" true (feed_run fragments sp).2).1.
Proof.
  revert sp. induction fragments as [|f fragments IH]; intros sp; cbn [feed_all feed_run]; [done|].
  destruct (feed f false sp) as [ps sp1]. rewrite IH. destruct (feed_run fragments sp1) as [qs sp2]. cbn [fst snd]. by rewrite app_assoc.
Qed.

Lemma channel_app th ps qs : channel th (ps ++ qs) = channel th ps +:+ channel th qs.
Proof. apply (concat_map_join (fun p : piece => if Bool.eqb p.1 th then p.2 else "")). Qed.

(** A channel can be read off the tagged bytes. *)
Lemma channel_tagged th ps :
  channel th ps = String.string_of_list_ascii (snd <$> List.filter (fun x => Bool.eqb x.1 th) (tagged ps)).
Proof.
  induction ps as [|[b s] ps IH]; [done|]. change (channel th ((b, s) :: ps)) with ((if Bool.eqb b th then s else "") +:+ channel th ps).
  rewrite tagged_cons, List.filter_app, fmap_app, IH. generalize (snd <$> List.filter (fun x => Bool.eqb x.1 th) (tagged ps)) as l. intros l.
  unfold bytes_in. induction s as [|c s IHs]; cbn; [by destruct (Bool.eqb b th)|]. destruct (Bool.eqb b th) eqn:E; cbn; [|done].
  rewrite sapp_cons. f_equal. exact IHs.
Qed.

(** The text dropped where the repair overflowed: it began like the markup, was longer
    than the limit, and a broken call was at hand. *)
Definition dropped (rec : controlToolRecovery) (sent T : string) : Prop :=
  exists held, HasPrefix held prolog = true /\ 16 * 1024 < Z.of_nat (String.length held) /\ is_Some (rec_call rec) /\ T = held +:+ sent.

(** What has become of the answer's text [T] so far: held as a possible repair, or
    sent.  The exceptions are the markup of the repaired call and the overflow of
    the repair. *)
Definition accounted (rec : controlToolRecovery) (w : option repair) (sent T : string) : Prop :=
  if resolved rec then match w with Some w => T = re_held w +:+ sent | None => sent = T \/ dropped rec sent T end
  else w = None /\
    if disabled rec then rec_text rec = ""%string /\ (sent = T \/ dropped rec sent T)
    else rec_text rec = T /\ sent = ""%string /\ overflow rec = false.

(** The call was cut off at the control character, and its arguments were read from
    the text. *)
Definition repairs (w : option repair) : Prop :=
  match w with Some w => TrimSpace (re_old w) = broken_arguments /\ parseControlToolFallback (re_held w) = Some (re_new w) | None => True end.

(** Before the repair is resolved no call has been completed, and the call at hand
    has a name. *)
Definition at_hand (rec : controlToolRecovery) (a : ToolCallAccumulator) : Prop :=
  (resolved rec = false -> Forall (fun v : seen => v.2 = false) (view <$> order a)) /\
  forall p, rec_call rec = Some p -> exists v : seen, (view <$> order a) !! p = Some v /\ has_name v.1 = true.

(** With no tools declared nothing is held. *)
Definition inert (rec : controlToolRecovery) : Prop :=
  rec_call rec = None /\ disabled rec = true /\ rec_text rec = ""%string /\ overflow rec = false.

Lemma dropped_more rec rec' sent T text :
  (is_Some (rec_call rec) -> is_Some (rec_call rec')) -> dropped rec sent T -> dropped rec' (sent +:+ text) (T +:+ text).
Proof. intros Hr (held & Hp & Hl & Hc & ->). exists held. rewrite sapp_assoc. auto. Qed.

Lemma prefix_no_longer s pre : HasPrefix s pre = true -> (String.length pre <= String.length s)%nat.
Proof. revert s. induction pre as [|c pre IH]; intros [|d s]; cbn; try done; try lia. intros [_ H%IH]%andb_true_iff. lia. Qed.

Lemma capture_accounted text rec w sent T :
  accounted rec w sent T ->
  let '(output, rec') := capture text rec in
  accounted rec' w (sent +:+ default "" output) (T +:+ text) /\ (inert rec -> rec' = rec /\ output = Some text) /\
  rec_call rec' = rec_call rec /\ resolved rec' = resolved rec.
Proof.
  intros Ha. unfold capture. destruct (is_empty text) eqn:Et; cbn [orb].
  { apply is_empty_true in Et as ->. cbn [default]. by rewrite !sapp_nil_r. }
  destruct (resolved rec) eqn:Er; cbn [orb].
  { split; [|done]. unfold accounted in *. rewrite Er in *. cbn [default]. destruct w as [w|]; [by rewrite Ha, sapp_assoc|].
    destruct Ha as [->|Hd]; [by left|right; by apply (dropped_more rec)]. }
  destruct (disabled rec) eqn:Ed; cbn [orb].
  { split; [|done]. unfold accounted in *. rewrite Er, Ed in *. cbn [default]. destruct Ha as (-> & -> & [->|Hd]); (split_and!; [done..|]).
    - by left.
    - right. by apply (dropped_more rec). }
  unfold accounted in Ha. rewrite Er, Ed in Ha. destruct Ha as (-> & <- & -> & Ho).
  assert (inert rec -> False) as Hin by (intros (_ & Hd & _); congruence).
  destruct (negb _ && negb _) eqn:Epre; [|destruct (_ <? _) eqn:Elong]; (split; [|split; [by intros ?%Hin|done]]); unfold accounted; cbn [resolved disabled rec_text overflow set_field update_with]; rewrite ?Er, ?Ed.
  - split_and!; [done..|by left].
  - split_and!; [done..|]. destruct (rec_call rec) as [p|] eqn:Ec; [|by left]. right. exists (rec_text rec +:+ text). split_and!.
    + apply andb_false_iff in Epre as [Epre|Epre]; apply negb_false_iff in Epre; [|exact Epre]. exfalso.
      apply prefix_no_longer in Epre. apply Z.ltb_lt in Elong. assert (Z.of_nat (String.length prolog) < 16 * 1024) by (vm_compute; reflexivity). lia.
    + by apply Z.ltb_lt.
    + by exists p.
    + cbn [default]. by rewrite sapp_nil_r.
  - by split_and!.
Qed.

(** Text longer than the limit that begins like the markup is dropped while a broken
    call is at hand, and stays dropped where the call is then completed by the
    upstream itself. *)
Lemma overflow_drops_text p call text a :
  HasPrefix text prolog = true -> 16 * 1024 < Z.of_nat (String.length text) -> order a !! p = Some call -> is_broken call = false ->
  let rec := new_recovery <| rec_call := Some p |> in
  (capture text rec).1 = None /\ (resolve (capture text rec).2 a).1.1 = inl ""%string.
Proof.
  intros Hp Hl Hc Hb. cbv zeta. assert (text <> ""%string) as Hne by (intros ->; cbn in Hl; lia).
  unfold capture. cbn [rec_text resolved disabled rec_call new_recovery set_field update_with]. destruct (is_empty text) eqn:Ee; [by apply is_empty_true in Ee|].
  change ("" +:+ text) with text. rewrite Hp, andb_false_r. apply Z.ltb_lt in Hl. rewrite Hl. cbn [orb fst snd]. split; [done|].
  unfold resolve. cbn. by rewrite Hc, Hb.
Qed.

Section answer.
Context (nanos sequence : nat -> Z) (signature : string) (toolsEnabled : bool) (toolNames : gmap string string)
  (streamToolDeltas : bool).

Abbreviation take_line := (take_line nanos sequence signature toolsEnabled toolNames streamToolDeltas).
Abbreviation take_lines := (take_lines nanos sequence signature toolsEnabled toolNames streamToolDeltas).
Abbreviation take_chunk := (take_chunk nanos sequence signature toolsEnabled toolNames streamToolDeltas).
Abbreviation take_choice := (take_choice nanos sequence signature toolsEnabled toolNames streamToolDeltas).
Abbreviation take_call := (take_call toolsEnabled toolNames streamToolDeltas).
Abbreviation emitTools := (emitTools nanos sequence).
Abbreviation feed_content := (feed_content signature).
Abbreviation emit_piece := (emit_piece signature).
Abbreviation consume := (consumeStreamWithToolNames nanos sequence signature toolsEnabled toolNames streamToolDeltas).

(** The reader with the answer's text [T], the reasoning [R] and the calls of [ds]
    taken; [w] is the repair made, if any. *)
Record has_taken (ds : list deed) (w : option repair) (T R : string) (r : reader) : Prop := {
  ht_text : accounted (recovery r) w (text_of (sent (out r))) T;
  ht_plain : toolsEnabled = false -> inert (recovery r) /\ text_of (sent (out r)) = T /\ w = None;
  ht_reasoning : reasoning_of (sent (out r)) = R;
  ht_calls : kept ds w (tools r) (calls_of (sent (out r)));
  ht_repair : repairs w;
  ht_at_hand : at_hand (recovery r) (tools r)
}.

(** What an operation leaves alone. *)
Record same_course (r r' : reader) : Prop := {
  sc_splitter : splitter r' = splitter r;
  sc_finish : sawFinish r' = sawFinish r
}.

#[local] Instance same_course_refl : Reflexive same_course.
Proof. by split. Qed.
#[local] Instance same_course_trans : Transitive same_course.
Proof. intros r1 r2 r3 [] []. split; congruence. Qed.

Lemma emit_text_takes ds w T R r text :
  has_taken ds w T R r -> has_taken ds w (T +:+ text) R (emit_text text r) /\ same_course r (emit_text text r).
Proof.
  intros [Ht Hp Hr Hc Hw Hh]. unfold emit_text.
  pose proof (capture_accounted text _ _ _ _ Ht) as H. destruct (capture text (recovery r)) as [output rec] eqn:E.
  destruct H as (Ha & Hin & Hcall & Hres).
  destruct (EmitTextDelta_spec (default "" output) (out r)) as (msgs & Em & T1 & R1 & C1 & _).
  assert (sent (out (match output with
    | Some text => (r <| recovery := rec |>) <| out := EmitTextDelta text (out (r <| recovery := rec |>)) |>
    | None => r <| recovery := rec |> end)) = sent (out r) ++ msgs) as Es.
  { destruct output; exact Em. }
  split; [|by destruct output]. split.
  - rewrite Es. unfold text_of in *. rewrite concat_map_join, T1. by destruct output.
  - intros Hdis. destruct (Hp Hdis) as (Hi & Hs & Hno). destruct (Hin Hi) as [-> ->]. split; [done|]. split; [|done].
    rewrite Es. unfold text_of in *. by rewrite concat_map_join, T1, Hs.
  - rewrite Es. unfold reasoning_of in *. by rewrite concat_map_join, R1, sapp_nil_r.
  - rewrite Es. unfold calls_of in *. rewrite List.filter_app, C1, app_nil_r. by destruct output.
  - done.
  - unfold at_hand in *. rewrite <- Hcall, <- Hres in Hh. by destruct output.
Qed.

Lemma has_taken_send ds w T R r r' msgs :
  sent (out r') = sent (out r) ++ msgs -> text_of msgs = ""%string -> calls_of msgs = [] ->
  recovery r' = recovery r -> tools r' = tools r ->
  has_taken ds w T R r -> has_taken ds w T (R +:+ reasoning_of msgs) r'.
Proof.
  intros Es T1 C1 Erec Et [Ht Hp Hr Hc Hw Hh]. split; rewrite ?Es, ?Erec, ?Et; try done.
  - unfold text_of in *. by rewrite concat_map_join, T1, sapp_nil_r.
  - unfold text_of in *. by rewrite concat_map_join, T1, sapp_nil_r.
  - unfold reasoning_of in *. by rewrite concat_map_join, Hr.
  - unfold calls_of in *. by rewrite List.filter_app, C1, app_nil_r.
Qed.

Lemma emit_reasoning_takes ds w T R r reasoning :
  has_taken ds w T R r ->
  has_taken ds w T (R +:+ reasoning) (emit_reasoning signature reasoning r) /\ same_course r (emit_reasoning signature reasoning r).
Proof.
  intros H. unfold emit_reasoning. destruct (is_empty reasoning) eqn:E.
  { apply is_empty_true in E as ->. by rewrite sapp_nil_r. }
  cbv zeta. cbn [ThinkingSignature set_field update_with].
  assert (forall s, reasoning_of [reasoning_event reasoning s] = reasoning) as Hs by (intros; cbn; by rewrite sapp_nil_r).
  destruct (is_empty (ThinkingSignature r)); (split; [|done]).
  - pose proof (has_taken_send ds w T R r (r <| out := send (reasoning_event reasoning signature) ((out r) <| SawMeaningfulEvent := true |>) |>
      <| ThinkingSignature := signature |>) [reasoning_event reasoning signature]) as Hx.
    rewrite Hs in Hx. destruct (Hx eq_refl eq_refl eq_refl eq_refl eq_refl H). by split.
  - pose proof (has_taken_send ds w T R r (r <| out := send (reasoning_event reasoning (ThinkingSignature r)) ((out r) <| SawMeaningfulEvent := true |>) |>)
      [reasoning_event reasoning (ThinkingSignature r)]) as Hx.
    rewrite Hs in Hx. destruct (Hx eq_refl eq_refl eq_refl eq_refl eq_refl H). by split.
Qed.

Lemma emit_pieces_take ds w T R r ps :
  has_taken ds w T R r ->
  has_taken ds w (T +:+ channel false ps) (R +:+ channel true ps) (foldl emit_piece r ps) /\ same_course r (foldl emit_piece r ps).
Proof.
  revert T R r. induction ps as [|[th s] ps IH]; intros T R r H; cbn [foldl]; [by rewrite !sapp_nil_r|].
  assert (has_taken ds w (T +:+ (if th then "" else s)) (R +:+ (if th then s else "")) (emit_piece r (th, s)) /\ same_course r (emit_piece r (th, s)))
    as [H1 C1].
  { unfold ClineStream.emit_piece. destruct th; cbn [fst snd]; rewrite sapp_nil_r; [by apply emit_reasoning_takes|by apply emit_text_takes]. }
  destruct (IH _ _ _ H1) as [H2 C2]. split; [|by etrans].
  change (channel false ((th, s) :: ps)) with ((if Bool.eqb th false then s else "") +:+ channel false ps).
  change (channel true ((th, s) :: ps)) with ((if Bool.eqb th true then s else "") +:+ channel true ps).
  rewrite <- !sapp_assoc. by destruct th.
Qed.

(** [observe] never holds or lets go of text, nor forgets the call at hand. *)
Lemma observe_text p call rec :
  let rec' := observe p call rec in
  rec_text rec' = rec_text rec /\ resolved rec' = resolved rec /\ disabled rec' = disabled rec /\ overflow rec' = overflow rec /\
  (is_Some (rec_call rec) -> is_Some (rec_call rec')) /\
  (rec_call rec' = rec_call rec \/ (rec_call rec' = Some p /\ named call = true)).
Proof.
  unfold observe. destruct (resolved rec || _); cbn [orb]; [by auto 7|].
  destruct (String.eqb_spec (call_Name call) "write_stdin") as [En|]; cbn [negb orb]; [|by auto 7].
  destruct (negb (is_broken call)); [by auto 7|]. destruct (rec_call rec) as [q|] eqn:Ec.
  - destruct (q =? p)%nat; split_and!; try done; by left.
  - split_and!; try done. right. split; [done|]. unfold named. by rewrite En.
Qed.

Lemma accounted_same rec rec' w sent T :
  rec_text rec' = rec_text rec -> resolved rec' = resolved rec -> disabled rec' = disabled rec -> overflow rec' = overflow rec ->
  (is_Some (rec_call rec) -> is_Some (rec_call rec')) ->
  accounted rec w sent T -> accounted rec' w sent T.
Proof.
  intros H1 H2 H3 H4 H5. unfold accounted. rewrite H1, H2, H3, H4.
  assert (dropped rec sent T -> dropped rec' sent T) as Hd by (intros (held & ? & ? & ? & ?); exists held; auto).
  destruct (resolved rec); [destruct w; tauto|]. destruct (disabled rec); tauto.
Qed.

Lemma fold_seen_name f v : has_name v.1 = true -> has_name (fold_seen f v).1 = true.
Proof.
  destruct v as [[[id name] args] e]. unfold has_name. cbn [fold_seen fst snd]. destruct (is_empty (TrimSpace (f_name f))) eqn:E; [done|]. by rewrite E.
Qed.

(** What stays of the calls when a fragment is added, and the call it belongs to. *)
Lemma Add_at_hand f rec a :
  at_hand rec a -> at_hand rec (Add (f_index f) (f_id f) (f_name f) (f_args f) a).2.
Proof.
  intros [Ho Hc]. pose proof (Add_place f a) as Hp. destruct (Add _ _ _ _ a) as [p a']. destruct Hp as (c & Hc0 & Hp & Hne). cbn [snd]. split.
  - intros Hr. specialize (Ho Hr). apply Forall_lookup. intros i v Hi. rewrite list_lookup_fmap in Hi. rewrite Forall_lookup in Ho.
    destruct (decide (i = p)) as [->|?]; [|rewrite Hne in Hi by done; apply (Ho i); by rewrite list_lookup_fmap].
    rewrite Hp in Hi. injection Hi as <-. change (emitted (fold_delta (f_id f) (f_name f) (f_args f) c) = false). rewrite fold_delta_emitted. destruct Hc0 as [[Hc0 _]|[_ ->]]; [|done].
    apply (Ho p (view c)). by rewrite list_lookup_fmap, Hc0.
  - intros q Hq. destruct (Hc q Hq) as (v & Hv & Hn). destruct (decide (q = p)) as [->|?].
    + exists (fold_seen f v). rewrite list_lookup_fmap, Hp. cbn [fmap option_fmap option_map]. rewrite list_lookup_fmap in Hv.
      destruct Hc0 as [[Hc0 _]|[Hc0 _]]; rewrite Hc0 in Hv; [|done]. injection Hv as <-. rewrite view_fold. split; [done|]. by apply fold_seen_name.
    + exists v. by rewrite list_lookup_fmap, Hne, <- list_lookup_fmap by done.
Qed.

Lemma stream_call_quiet stream p a s :
  exists msgs, sent (stream_call stream p (a, s)).2 = sent s ++ msgs /\ silent msgs /\ calls (stream_call stream p (a, s)).1 = calls a.
Proof.
  unfold stream_call. destruct stream; [|exists []; rewrite app_nil_r; split_and!; [done|by split|done]].
  destruct (order a !! p) as [c|] eqn:Ep; [|exists []; rewrite app_nil_r; split_and!; [done|by split|done]].
  pose proof (EmitToolDelta_silent c) as Hs. destruct (EmitToolDelta c) as [c' msgs]. by exists msgs.
Qed.

(** A fragment under the original name of its tool. *)
Definition renamed (f : fragment) : fragment :=
  mkFragment (f_index f) (f_id f) (default (f_name f) (toolNames !! f_name f)) (f_args f).

Lemma take_call_takes ds w T R r f :
  has_taken ds w T R r -> has_taken (ds ++ [Piece (renamed f)]) w T R (take_call r f) /\ same_course r (take_call r f).
Proof.
  intros [Ht Hp Hr Hc Hw Hh]. unfold ClineStream.take_call.
  pose proof (kept_add _ _ _ _ (renamed f) Hc) as Hadd. pose proof (Add_at_hand (renamed f) _ _ Hh) as Hhand.
  pose proof (Add_place (renamed f) (tools r)) as Hplace. cbn [f_index f_id f_name f_args renamed] in Hadd, Hhand, Hplace. cbv zeta.
  set (r1 := r <| out := (out r) <| SawMeaningfulEvent := true |> |>). change (tools r1) with (tools r).
  destruct (Add _ _ _ _ (tools r)) as [p a]. cbn [snd] in Hadd, Hhand. destruct Hplace as (c0 & _ & Hp0 & _). rewrite Hp0.
  set (state := fold_delta _ _ _ c0) in *. clearbody state.
  set (r2 := if toolsEnabled then r1 <| recovery := observe p state (recovery r1) |> else r1).
  assert (out r2 = out r1 /\ splitter r2 = splitter r /\ sawFinish r2 = sawFinish r /\
    recovery r2 = if toolsEnabled then observe p state (recovery r) else recovery r) as (Eo & Esp & Ef & Erec).
  { subst r2. by destruct toolsEnabled. }
  clearbody r2. destruct (stream_call_quiet streamToolDeltas p a (out r2)) as (msgs & Es & [Hmt Hmr Hmc] & Ecalls).
  pose proof (stream_view streamToolDeltas p a (out r2)) as Ev.
  destruct (stream_call streamToolDeltas p (a, out r2)) as [a' s']. cbn [fst snd] in *. rewrite Eo in Es.
  change (sent (out r1)) with (sent (out r)) in Es. split; [|by split].
  split; cbn [recovery out tools set_field update_with]; rewrite ?Es, ?Erec; try done.
  - unfold text_of in *. rewrite concat_map_join, Hmt, sapp_nil_r. destruct toolsEnabled; [|done].
    destruct (observe_text p state (recovery r)) as (? & ? & ? & ? & ? & _). by apply (accounted_same (recovery r)).
  - intros Hdis. rewrite Hdis in *. destruct (Hp eq_refl) as (Hi & Hs & Hno). split; [done|].
    unfold text_of in *. by rewrite concat_map_join, Hmt, sapp_nil_r.
  - unfold reasoning_of in *. by rewrite concat_map_join, Hmr, sapp_nil_r.
  - unfold calls_of in *. rewrite List.filter_app, Hmc, app_nil_r. by apply (kept_view _ _ a).
  - unfold at_hand in *. rewrite Ev. destruct toolsEnabled; [|done]. destruct (observe_text p state (recovery r)) as (_ & -> & _ & _ & _ & Hcall).
    split; [apply Hhand|]. intros q Hq. destruct Hcall as [Hcall|[Hcall Hn]]; rewrite Hcall in Hq; [by apply Hhand|].
    injection Hq as <-. exists (view state). by rewrite list_lookup_fmap, Hp0.
Qed.

Lemma take_calls_take ds w T R r frs :
  has_taken ds w T R r ->
  has_taken (ds ++ (Piece ∘ renamed <$> frs)) w T R (foldl take_call r frs) /\ same_course r (foldl take_call r frs).
Proof.
  revert ds r. induction frs as [|f frs IH]; intros ds r H; cbn [foldl]; [by rewrite app_nil_r|].
  destruct (take_call_takes ds w T R r f H) as [H1 C1]. destruct (IH _ _ H1) as [H2 C2]. rewrite <- app_assoc in H2. split; [exact H2|by etrans].
Qed.

(** Resolving the repair gives back the text it held, unless the text is the
    markup of the call it repaired. *)
Lemma resolve_accounted rec ds w a sent T msgs :
  accounted rec w sent T -> repairs w -> kept ds w a msgs -> at_hand rec a ->
  match resolve rec a with
  | (inl text, rec', a') =>
      exists w' settled, accounted rec' w' (sent +:+ text) T /\ repairs w' /\ kept_upto settled ds w' a' msgs /\
        resolved rec' = true /\ at_hand rec' a' /\ (inert rec -> inert rec' /\ text = ""%string /\ w' = w)
  | (inr _, _, _) => True
  end.
Proof.
  destruct rec as [call text amb over res dis]. unfold resolve, accounted, inert. cbn [resolved rec_call rec_text ambiguous overflow disabled].
  destruct res; [intros Ha Hw Hk Hh; rewrite sapp_nil_r; by exists w, true; split_and!|].
  intros (-> & Ha) _ Hk Hh. cbn [set_field update_with rec_call rec_text ambiguous overflow resolved disabled].
  set (rec' := mkRecovery call text amb over true dis).
  assert (at_hand rec' a) as Hh' by (destruct Hh as [_ Hh]; by split).
  assert (sent +:+ text = T \/ dropped rec' (sent +:+ text) T) as Hgive.
  { destruct dis; [|by destruct Ha as (-> & -> & _); left]. destruct Ha as (-> & [->|(held & ? & ? & ? & ?)]); rewrite sapp_nil_r; [by left|].
    right. by exists held. }
  assert (exists w' settled, match w' with Some w => T = re_held w +:+ (sent +:+ text) | None => sent +:+ text = T \/ dropped rec' (sent +:+ text) T end /\
    repairs w' /\ kept_upto settled ds w' a msgs /\ true = true /\ at_hand rec' a /\
    (call = None /\ dis = true /\ text = ""%string /\ over = false -> (call = None /\ dis = true /\ text = ""%string /\ over = false) /\ text = ""%string /\ w' = None)) as Hplain.
  { exists None, true. split_and!; try done. by intros (-> & -> & -> & ->). }
  destruct call as [p|]; [|exact Hplain]. destruct (_ || _) eqn:Eb; [exact Hplain|]. destruct (amb || over) eqn:Ea; [done|].
  destruct (parseControlToolFallback text) as [args|] eqn:Ep; [|done]. apply orb_false_iff in Eb as [Eb Ebr], Ea as [_ ->].
  cbn [negb] in Eb. rewrite andb_true_r in Eb. apply negb_false_iff in Ebr. destruct (order a !! p) as [c|] eqn:Ec; [|done].
  assert (emitted c = false /\ named c = true) as [He Hn].
  { destruct Hh as [Ho Hc]. destruct (Hc p eq_refl) as (v & Hv & Hn). specialize (Ho eq_refl). rewrite Forall_lookup in Ho. specialize (Ho p v Hv).
    rewrite list_lookup_fmap, Ec in Hv. injection Hv as <-. done. }
  exists (Some (mkRepair p (Arguments c) args text)), false. cbn [rec_call rec_text ambiguous overflow resolved disabled repairs re_old re_new re_held]. split_and!.
  - rewrite sapp_nil_r. destruct dis; [by destruct Ha as [-> _]|]. destruct Ha as (-> & -> & _). by rewrite sapp_nil_r.
  - by apply String.eqb_eq.
  - done.
  - by apply kept_repair.
  - done.
  - destruct Hh' as [_ Hc]. split; [done|]. intros q Hq. destruct (Hc q Hq) as (v & Hv & Hname). cbn [order set_field update_with].
    rewrite list_lookup_fmap in *. destruct (decide (q = p)) as [->|?]; [|rewrite list_lookup_alter_ne by done; by exists v].
    rewrite list_lookup_alter_eq, Ec in *. cbn in Hv |- *. injection Hv as <-. eexists. split; [done|]. exact Hname.
  - by intros (? & _).
Qed.

Lemma complete_at_hand rec a : resolved rec = true -> at_hand rec a -> at_hand rec (CompleteAll a).2.
Proof.
  intros Hr [_ Hc]. split; [congruence|]. intros p Hp. destruct (Hc p Hp) as (v & Hv & Hn). exists (seal_seen v). split; [|done].
  cbn [CompleteAll snd order set_field update_with]. rewrite <- list_fmap_compose.
  rewrite (list_fmap_ext _ (seal_seen ∘ view) _) by (intros _ c _; apply view_seal). by rewrite list_fmap_compose, list_lookup_fmap, Hv.
Qed.

Lemma emitTools_takes ds w T R r r' :
  has_taken ds w T R r -> emitTools r = (r', None) ->
  exists w', has_taken (ds ++ [Close]) w' T R r' /\ same_course r r' /\ List.filter emitted (order (tools r')) = List.filter named (order (tools r')).
Proof.
  intros [Ht Hp Hr Hc Hw Hh]. unfold ClineStream.emitTools.
  pose proof (resolve_accounted (recovery r) _ _ (tools r) _ _ _ Ht Hw Hc Hh) as Hres.
  destruct (resolve (recovery r) (tools r)) as [[[text|err] rec] a]; [|done].
  destruct Hres as (w' & settled & Ha & Hw' & Hk & Hdone & Hh' & Hin).
  pose proof (complete_at_hand rec a Hdone Hh') as Hh2. pose proof (fun more => kept_complete _ _ _ _ _ more Hk) as Hk2.
  destruct (CompleteAll a) as [cs a'] eqn:Ecs. cbn [fst snd] in *.
  destruct (ValidateStreamedTools cs); [done|]. intros [= <-].
  destruct (EmitTextDelta_spec text (out r)) as (m1 & E1 & T1 & R1 & C1 & _).
  destruct (EmitToolCalls_spec nanos sequence cs (EmitTextDelta text (out r))) as (m2 & E2 & F2 & C2 & T2 & R2 & _).
  destruct (Hk2 m2 F2) as [Hk3 Hall]. exists w'. split; [|split; [by split|exact Hall]].
  split; cbn [recovery out tools set_field update_with]; try done.
  - rewrite E2, E1. unfold text_of in *. by rewrite !concat_map_join, T1, T2, sapp_nil_r.
  - intros Hdis. destruct (Hp Hdis) as (Hi & Hs & ->). destruct (Hin Hi) as (Hi' & -> & ->). split; [done|]. split; [|done].
    rewrite E2, E1. unfold text_of in *. by rewrite !concat_map_join, T1, T2, !sapp_nil_r.
  - rewrite E2, E1. unfold reasoning_of in *. by rewrite !concat_map_join, Hr, R1, R2, !sapp_nil_r.
  - rewrite E2, E1. unfold calls_of in *. by rewrite !List.filter_app, C1, C2, app_nil_r.
Qed.

(** The fragments of the turns and the completions between them. *)
Definition deeds_of (t : cline_choice) : list deed :=
  (Piece ∘ renamed <$> default [] (ToolCalls (Delta t))) ++ if closes t then [Close] else [].
Definition deeds (ts : list cline_choice) : list deed := flat_map deeds_of ts.

Lemma deeds_snoc ts t : deeds (ts ++ [t]) = deeds ts ++ deeds_of t.
Proof. unfold deeds. rewrite flat_map_app. cbn. by rewrite app_nil_r. Qed.

(** ** The turns taken so far *)

(** The reader after the turns [ts]. *)
Record reading (ts : list cline_choice) (fed : list string) (R : string) (w : option repair) (r : reader) : Prop := {
  rd_fed : concat_map id fed = contents ts;
  rd_splitter : splitter r = (feed_run fed new_splitter).2;
  rd_taken : has_taken (deeds ts) w (channel false (feed_run fed new_splitter).1) R r;
  rd_inline : inline_only ts -> R = channel true (feed_run fed new_splitter).1;
  rd_closed : sawFinish r = existsb closes ts
}.

Definition stands (ts : list cline_choice) (r : reader) : Prop := exists fed R w, reading ts fed R w r.

Lemma cline_new_reader_stands : stands [] (new_reader toolsEnabled).
Proof.
  exists [], ""%string, None. split; try done. split; try done; cbn.
  - unfold accounted. cbn. split; [done|]. destruct toolsEnabled; cbn; [done|by split; [|left]].
  - intros ->. by split_and!.
  - apply kept_new.
Qed.

Lemma feed_content_takes ds w fed f R r :
  splitter r = (feed_run fed new_splitter).2 -> has_taken ds w (channel false (feed_run fed new_splitter).1) R r ->
  exists R', has_taken ds w (channel false (feed_run (fed ++ [f]) new_splitter).1) R' (feed_content f false r) /\
    splitter (feed_content f false r) = (feed_run (fed ++ [f]) new_splitter).2 /\ sawFinish (feed_content f false r) = sawFinish r /\
    (R = channel true (feed_run fed new_splitter).1 -> R' = channel true (feed_run (fed ++ [f]) new_splitter).1).
Proof.
  intros Hs Ht. rewrite feed_run_snoc. unfold ClineStream.feed_content. rewrite Hs. destruct (feed_run fed new_splitter) as [ps sp]. cbn [fst snd] in *.
  destruct (feed f false sp) as [qs sp']. cbn [fst snd]. assert (has_taken ds w (channel false ps) R (r <| splitter := sp' |>)) as H by (by destruct Ht).
  destruct (emit_pieces_take _ _ _ _ _ qs H) as [H1 [C1 C2]]. exists (R +:+ channel true qs). rewrite !channel_app. split_and!; [exact H1|exact C1|exact C2|].
  by intros ->.
Qed.

Lemma has_taken_of ds w T R r r' :
  recovery r' = recovery r -> out r' = out r -> tools r' = tools r -> has_taken ds w T R r -> has_taken ds w T R r'.
Proof. intros E1 E2 E3 [H1 H2 H3 H4 H5 H6]. split; by rewrite ?E1, ?E2, ?E3. Qed.

Lemma cline_take_choice_stands ts c r r' : stands ts r -> take_choice c r = Goes r' -> stands (ts ++ [c]) r'.
Proof.
  intros (fed & R & w & [Hf Hs Ht Hi Hc]). unfold ClineStream.take_choice.
  destruct (emit_reasoning_takes _ _ _ _ _ (reasoning_of_delta (Delta c)) Ht) as [H1 [S1 F1]].
  destruct (take_calls_take _ _ _ _ _ (default [] (ToolCalls (Delta c))) H1) as [H2 [S2 F2]].
  set (r2 := foldl take_call _ _) in *. set (ds := deeds ts ++ (Piece ∘ renamed <$> _)) in *. rewrite S1, Hs in S2. rewrite F1, Hc in F2. clearbody r2.
  assert (exists fed' R', concat_map id fed' = contents (ts ++ [c]) /\
    let r3 := if is_empty (Content (Delta c)) then r2 else feed_content (Content (Delta c)) false r2 in
    splitter r3 = (feed_run fed' new_splitter).2 /\ has_taken ds w (channel false (feed_run fed' new_splitter).1) R' r3 /\
    (inline_only (ts ++ [c]) -> R' = channel true (feed_run fed' new_splitter).1) /\ sawFinish r3 = existsb closes ts)
    as (fed' & R' & Hf' & Hs' & Ht' & Hi' & Hc').
  { unfold contents. rewrite concat_map_snoc. fold (contents ts). rewrite <- Hf.
    assert (inline_only (ts ++ [c]) -> R +:+ reasoning_of_delta (Delta c) = channel true (feed_run fed new_splitter).1) as Hin.
    { intros [Hts Hone]%Forall_app. apply Forall_singleton in Hone as ->. rewrite sapp_nil_r. by apply Hi. }
    destruct (is_empty (Content (Delta c))) eqn:Ec.
    - apply is_empty_true in Ec as ->. exists fed, (R +:+ reasoning_of_delta (Delta c)). rewrite sapp_nil_r. by split_and!.
    - destruct (feed_content_takes ds w fed (Content (Delta c)) _ r2 S2 H2) as (R' & HR & HS & HF & HI).
      exists (fed ++ [Content (Delta c)]), R'. rewrite concat_map_snoc. cbv zeta. split_and!; try done; [|congruence].
      intros H. by apply HI, Hin. }
  cbv zeta in *. set (r3 := if is_empty _ then _ else _) in *. clearbody r3.
  assert (existsb closes (ts ++ [c]) = existsb closes ts || closes c) as Hclosed by (rewrite existsb_app; cbn; by rewrite orb_false_r).
  destruct (is_empty (TrimSpace (FinishReason c))) eqn:Efin.
  - intros [= <-]. assert (closes c = false) as Hno by (unfold closes; by rewrite Efin).
    exists fed', R', w. split; try done; [|by rewrite Hclosed, Hc', Hno, orb_false_r].
    rewrite deeds_snoc. unfold deeds_of. by rewrite Hno, app_nil_r.
  - set (r4 := r3 <| UpstreamFinishReason := _ |> <| sawFinish := true |>).
    assert (has_taken ds w (channel false (feed_run fed' new_splitter).1) R' r4) as H4 by by apply (has_taken_of _ _ _ _ r3).
    destruct (emitTools r4) as [r5 [e|]] eqn:Et; [done|]. intros [= <-]. destruct (emitTools_takes _ _ _ _ _ _ H4 Et) as (w' & H5 & [S5 F5] & _).
    assert (closes c = true) as Hyes by (unfold closes; by rewrite Efin).
    exists fed', R', w'. split; try done; [by rewrite S5| |by rewrite F5, Hclosed, Hyes, orb_true_r].
    rewrite deeds_snoc. unfold deeds_of. by rewrite Hyes, app_assoc.
Qed.

Lemma stands_of ts r r' :
  recovery r' = recovery r -> tools r' = tools r -> splitter r' = splitter r -> sawFinish r' = sawFinish r ->
  (exists msgs, sent (out r') = sent (out r) ++ msgs /\ silent msgs) -> stands ts r -> stands ts r'.
Proof.
  intros E1 E2 E3 E4 (msgs & E5 & [T1 R1 C1]) (fed & R & w & [Hf Hs Ht Hi Hc]). exists fed, R, w. split; try done; [by rewrite E3| |by rewrite E4].
  pose proof (has_taken_send _ _ _ _ _ _ _ E5 T1 C1 E1 E2 Ht) as H. by rewrite R1, sapp_nil_r in H.
Qed.

Lemma cline_take_chunk_stands ts c r r' :
  stands ts r -> take_chunk c r = Goes r' -> is_empty (TrimSpace (Error_Message c)) = true /\ stands (ts ++ turns [c]) r'.
Proof.
  intros H. unfold ClineStream.take_chunk. set (r1 := if is_empty (TrimSpace (chunk_Model c)) then r else _).
  destruct (gatewayRouting _) as [provider attempts]. cbv zeta. set (r2 := if is_empty provider then r1 else _).
  assert (stands ts r2) as H2.
  { subst r2 r1. destruct (is_empty provider), (is_empty (TrimSpace (chunk_Model c))); (apply (stands_of _ r); [done..| |done]);
      by exists []; rewrite app_nil_r; split. }
  clearbody r2. clear r1. destruct (is_empty (TrimSpace (Error_Message c))); [|done]. cbn [negb].
  destruct (usage_silent (NormalizeUsageMap (chunk_Usage c)) (out r2)) as (msgs & E & S & _).
  assert (stands ts (r2 <| out := ApplyStreamUsage (NormalizeUsageMap (chunk_Usage c)) (out r2) |>)) as H3
    by (apply (stands_of _ r2); [done..|by exists msgs|done]).
  intros Hgo. split; [done|]. revert H3 Hgo. generalize (r2 <| out := ApplyStreamUsage (NormalizeUsageMap (chunk_Usage c)) (out r2) |>) as r3.
  intros r3 H3. unfold turns, turn_of. cbn [omap list_omap]. destruct (default [] (Choices c)) as [|t l]; cbn [head].
  - intros [= <-]. by rewrite app_nil_r.
  - by apply cline_take_choice_stands.
Qed.

Lemma cline_take_chunk_goes_on c r : match take_chunk c r with Breaks _ => False | _ => True end.
Proof.
  unfold ClineStream.take_chunk. destruct (gatewayRouting _). cbv zeta. destruct (negb _); [done|]. destruct (default [] (Choices c)) as [|t l]; [done|].
  unfold ClineStream.take_choice. cbv zeta. destruct (is_empty (TrimSpace (FinishReason t))); [done|]. by destruct (emitTools _) as [? [?|]].
Qed.

Lemma emitTools_resolves r r' : emitTools r = (r', None) -> resolved (recovery r') = true.
Proof.
  unfold ClineStream.emitTools, resolve. destruct (resolved (recovery r)) eqn:Er.
  - cbn [CompleteAll]. destruct (ValidateStreamedTools _); [done|]. by intros [= <-].
  - cbv zeta. destruct (rec_call _) as [p|]; [destruct (_ || _); [|destruct (_ || _); [done|destruct (parseControlToolFallback _); [|done]]]|];
      cbn [CompleteAll]; (destruct (ValidateStreamedTools _); [done|]); by intros [= <-].
Qed.

(** A line that does not stop the reader is a frame of the answer. *)
Lemma take_line_stands ts text r :
  stands ts r ->
  match take_line text r with
  | Goes r' =>
      match frame_of text with
      | Skipped => stands ts r'
      | ChunkFrame c => stands (ts ++ turns [c]) r'
      | _ => False
      end
  | Breaks r' => frame_of text = DoneFrame /\ sawFinish r' = true /\ stands ts (r' <| sawFinish := sawFinish r |>)
  | Fails _ _ => True
  end.
Proof.
  intros H. unfold ClineStream.take_line, frame_of. cbv zeta. destruct (_ || _); [done|]. destruct (data_of (TrimSpace text)) as [payload|]; [|done].
  destruct (String.eqb payload "[DONE]"); [split_and!; [done..|]; by apply (stands_of _ r); [done..|exists []; rewrite app_nil_r|]|].
  destruct (is_empty payload); [done|]. destruct (initial_refusal payload r); [done|].
  destruct (read_chunk payload) as [c|e]; [|done]. pose proof (cline_take_chunk_stands ts c r) as Hc.
  pose proof (cline_take_chunk_goes_on c r) as Hb. destruct (take_chunk c r) as [r'|r'|e r']; [|done|done].
  destruct (Hc r' H eq_refl) as [-> Hs]. exact Hs.
Qed.

Lemma cline_take_lines_stands lines ts r :
  stands ts r ->
  match take_lines lines r with
  | Goes r' => exists chunks, answer_chunks lines = Some (chunks, false) /\ stands (ts ++ turns chunks) r'
  | Breaks r' =>
      exists chunks, answer_chunks lines = Some (chunks, true) /\ sawFinish r' = true /\
        exists before, stands (ts ++ turns chunks) (r' <| sawFinish := before |>)
  | Fails _ _ => True
  end.
Proof.
  revert ts r. induction lines as [|line lines IH]; intros ts r H; cbn [ClineStream.take_lines answer_chunks].
  { exists []. by rewrite app_nil_r. }
  pose proof (take_line_stands ts line r H) as Hl. destruct (take_line line r) as [r'|r'|e r']; [| |done].
  - destruct (frame_of line) as [|c| |]; [by apply IH| |done..]. specialize (IH _ _ Hl). revert IH.
    assert (forall chunks, (ts ++ turns [c]) ++ turns chunks = ts ++ turns (c :: chunks)) as Eapp.
    { intros chunks. rewrite <- app_assoc. f_equal. unfold turns. by rewrite <- omap_app. }
    destruct (take_lines lines r') as [r''|r''|e r'']; [| |done].
    + intros (chunks & -> & Hs). exists (c :: chunks). rewrite <- Eapp. by split.
    + intros (chunks & -> & Hd & Hs). exists (c :: chunks). rewrite <- Eapp. by split_and!.
  - destruct Hl as (-> & Hd & Hs). exists []. rewrite app_nil_r. split_and!; [done..|]. by exists (sawFinish r).
Qed.

(** The end of the stream: the splitter is flushed, the calls are completed. *)
Lemma finish_reads ts r r' :
  (exists before, stands ts (r <| sawFinish := before |>)) -> emitTools (feed_content "" true r) = (r', None) ->
  exists w R, has_taken (deeds ts ++ [Close]) w (channel false (split_think (contents ts))) R r' /\
    (inline_only ts -> R = channel true (split_think (contents ts))) /\
    List.filter emitted (order (tools r')) = List.filter named (order (tools r')).
Proof.
  intros (before & fed & R & w & [Hf Hs Ht Hi _]) He. cbn [splitter set_field update_with] in Hs.
  apply (has_taken_of _ _ _ _ _ r) in Ht; [|done..].
  assert (forall th, channel th (feed_run fed new_splitter).1 +:+ channel th (feed "" true (feed_run fed new_splitter).2).1
    = channel th (split_think (contents ts))) as Hall.
  { intros th. rewrite <- channel_app, <- feed_all_run, !channel_tagged, <- Hf. do 3 f_equal. apply (feed_all_spec fed new_splitter). }
  unfold ClineStream.feed_content in He. rewrite Hs in He. specialize (Hall true) as Htrue. specialize (Hall false).
  destruct (feed "" true (feed_run fed new_splitter).2) as [ps sp]. cbn [fst] in *.
  assert (has_taken (deeds ts) w (channel false (feed_run fed new_splitter).1) R (r <| splitter := sp |>)) as H1 by (by apply (has_taken_of _ _ _ _ r)).
  destruct (emit_pieces_take _ _ _ _ _ ps H1) as [H2 _]. destruct (emitTools_takes _ _ _ _ _ _ H2 He) as (w' & H3 & _ & Hem).
  exists w', (R +:+ channel true ps). rewrite <- Hall, <- Htrue. split; [exact H3|]. split; [|exact Hem]. intros Hin. by rewrite (Hi Hin).
Qed.

(** What the accepted answer is: its calls, text and reasoning.  [tolds] are the
    calls the fragments make, [owners] their indexes. *)
Definition answers (ts : list cline_choice) (r : reader) (owners : list Z) (tolds : list (string * string * string)) (w : option repair) : Prop :=
  let said := text_of (sent (out r)) in
  let answer := channel false (split_think (contents ts)) in
  (length owners = length tolds /\
   (forall i, owned i owners tolds = (fun g => put_together g.1) <$> call_groups i (deeds ts)) /\
   (exists cs, cs ≡ₚ List.filter named (order (tools r)) /\ Forall2 delivers cs (calls_of (sent (out r))))) /\
  match w with
  | None => told <$> order (tools r) = tolds /\
      (said = answer \/
       (toolsEnabled = true /\ exists held, HasPrefix held prolog = true /\ 16 * 1024 < Z.of_nat (String.length held) /\
          is_Some (rec_call (recovery r)) /\ answer = held +:+ said))
  | Some w => toolsEnabled = true /\ answer = re_held w +:+ said /\ parseControlToolFallback (re_held w) = Some (re_new w) /\
      (exists id name, tolds !! re_call w = Some (id, name, re_old w)) /\ TrimSpace (re_old w) = broken_arguments /\
      told <$> order (tools r) = alter (fun t => (t.1, re_new w)) (re_call w) tolds
  end /\
  (inline_only ts -> reasoning_of (sent (out r)) = channel true (split_think (contents ts))).

Lemma answer_of ts r r' :
  (exists before, stands ts (r <| sawFinish := before |>)) -> emitTools (feed_content "" true r) = (r', None) ->
  exists owners tolds w, answers ts r' owners tolds w.
Proof.
  intros Hs He. pose proof (emitTools_resolves _ _ He) as Hr.
  destruct (finish_reads _ _ _ Hs He) as (w & R & [Ht Hp Hre [(owners & vs & [Hl _ Hc] & Hv & Hw) (cs & Hcs & Hd) _] Hrep _] & Hi & Hem).
  exists owners, (fst <$> vs), w. split; [split_and!|split].
  - by rewrite length_fmap.
  - intros i. rewrite owned_fmap, Hc, call_groups_snoc. cbn [deed_step]. rewrite <- !list_fmap_compose. by apply list_fmap_ext.
  - exists cs. by rewrite <- Hem.
  - assert (told <$> order (tools r') = fst <$> fixed w vs) as Htold by (rewrite <- Hv, <- list_fmap_compose; by apply list_fmap_ext).
    unfold accounted in Ht. rewrite Hr in Ht. destruct w as [w|].
    + destruct Hrep as [Hold Hnew], Hw as (id & name & e & Hat & _). split_and!; try done.
      * destruct toolsEnabled; [done|]. by destruct (Hp eq_refl) as (_ & _ & ?).
      * exists id, name. by rewrite list_lookup_fmap, Hat.
      * rewrite Htold. cbn [fixed]. apply list_eq. intros i. rewrite list_lookup_fmap. destruct (decide (i = re_call w)) as [->|?].
        -- by rewrite !list_lookup_alter_eq, list_lookup_fmap, Hat.
        -- by rewrite !list_lookup_alter_ne, list_lookup_fmap by done.
    + split; [exact Htold|]. destruct Ht as [?|(held & ? & ? & ? & ?)]; [by left|]. destruct toolsEnabled; [|left; by apply Hp].
      right. split; [done|]. by exists held.
  - intros Hin. rewrite Hre. by apply Hi.
Qed.

(** C18: An answer that is accepted was read to its end: every line of it up to
    [DONE] is a chunk without error or carries nothing, and [DONE] or a finish reason
    has come.  The calls are the fragments put together: those of one index, under
    the tools' original names, belong to one call until one bears another
    identifier or the call was completed; and each call with a name was delivered
    by exactly one event, with its identifier, name and arguments.  What was reported
    as text is the content of the chunks split at the thinking tags, nothing of it
    lost or said twice, with two exceptions where tools are declared: the markup in
    front that one call cut off at its control character was repaired from is left
    out, and its arguments are the markup's; and while such a call was at hand, text
    in front that began like the markup and grew past the limit is dropped, though
    not a byte after it.  Where the reasoning comes in the content, the rest of the
    content is what was reported as reasoning. *)
Theorem cline_text_is_the_content b r :
  consume b = (r, None) ->
  exists chunks done owners tolds w, answer_chunks (scan_body b).1 = Some (chunks, done) /\
    (done || existsb closes (turns chunks)) = true /\ answers (turns chunks) r owners tolds w.
Proof.
  unfold consumeStreamWithToolNames. destruct (scan_body b) as [lines err]. cbn [fst].
  pose proof (cline_take_lines_stands lines [] _ cline_new_reader_stands) as H.
  destruct (take_lines lines (new_reader toolsEnabled)) as [r1|r1|e r1]; [| |done]; cbn [app] in H.
  - destruct H as (chunks & -> & Hs). unfold end_of_stream. destruct err; [done|]. destruct (sawFinish r1) eqn:Ef; [|done]. cbn [negb]. intros He.
    destruct (answer_of (turns chunks) r1 r) as (owners & tolds & w & Ha); [|done|].
    { exists true. destruct r1. cbn in Ef. by subst. }
    exists chunks, false, owners, tolds, w. split; [done|]. split; [|exact Ha]. destruct Hs as (? & ? & ? & [_ _ _ _ Hc]). by rewrite <- Hc.
  - destruct H as (chunks & -> & Hd & Hs). unfold end_of_stream. destruct (early_error b); [done|]. rewrite Hd. cbn [negb]. intros He.
    destruct (answer_of (turns chunks) r1 r Hs He) as (owners & tolds & w & Ha). by exists chunks, true, owners, tolds, w.
Qed.
End answer.

(** * A stream *)

Definition data_line (payload : string) : string := lit "data: " +:+ lit payload +:+ String (ascii_of_nat 10) "".

(** Reasoning in the content with its tags cut, an unusual provider, a call. *)
Definition cline_answer : string :=
  concat_map data_line [
    "{'id':'c1','choices':[{'delta':{'content':'<thi'}}]}";
    "{'data':{'id':'c1','model':'glm','choices':[{'delta':{'content':'nk>why</think>so'}}]}}";
    "{'choices':[{'delta':{'tool_calls':[{'index':0,'id':'t1','function':{'name':'run','arguments':'{}'}}]}}]}";
    "{'choices':[{'delta':{'content':' it is <'},'finish_reason':'tool_calls'}]}";
    "{'choices':[],'usage':{'prompt_tokens':3,'completion_tokens':2}}";
    "[DONE]" ]%string.

Definition cline_body : body := mkBody cline_answer None false.
Definition cline_run : reader * option cline_error :=
  consumeStreamWithToolNames (fun _ => 0) (fun n => Z.of_nat n) "cline-v1:0" true {["run"%string := "Bash"%string]} false cline_body.

Lemma cline_text_is_the_content_witness :
  text_of (sent (out cline_run.1)) = "so it is <"%string /\ reasoning_of (sent (out cline_run.1)) = "why"%string /\
  exists chunks last owners tolds w, answer_chunks (scan_body cline_body).1 = Some (chunks, last) /\
    answers true {["run"%string := "Bash"%string]} (turns chunks) cline_run.1 owners tolds w.
Proof.
  split; [vm_compute; reflexivity|]. split; [vm_compute; reflexivity|].
  assert (consumeStreamWithToolNames (fun _ => 0) (fun n => Z.of_nat n) "cline-v1:0" true {["run"%string := "Bash"%string]} false cline_body
    = (cline_run.1, None)) as E by (vm_compute; reflexivity).
  destruct (cline_text_is_the_content (fun _ => 0) (fun n => Z.of_nat n) "cline-v1:0" true {["run"%string := "Bash"%string]} false cline_body _ E)
    as (chunks & last & owners & tolds & w & Hc & _ & Ha).
  exists chunks, last, owners, tolds, w. split; [exact Hc|exact Ha].
Defined.

(** The markup of a broken call is not answer text: the call takes its arguments. *)
Definition broken_answer : string :=
  concat_map data_line [
    "{'choices':[{'delta':{'tool_calls':[{'index':0,'id':'t1','function':{'name':'write_stdin','arguments':'{\'chars\':'}}]}}]}";
    "{'choices':[{'delta':{'content':'<tool_call><function=write_stdin><parameter=chars>\u0003</parameter><parameter=session_id>7</parameter>'}}]}";
    "{'choices':[{'delta':{'content':'<parameter=yield_time_ms>5</parameter><parameter=max_output_tokens>9</parameter></function></tool_call>'},'finish_reason':'stop'}]}"
    ]%string.

Definition broken_run (toolsEnabled : bool) : reader * option cline_error :=
  consumeStreamWithToolNames (fun _ => 0) (fun n => Z.of_nat n) "cline-v1:0" toolsEnabled ∅ false (mkBody broken_answer None false).

Lemma broken_call_repaired :
  (broken_run true).2 = None /\ text_of (sent (out (broken_run true).1)) = ""%string /\
  (Arguments <$> order (tools (broken_run true).1))
  = [lit "{'chars':'\u0003','max_output_tokens':9,'session_id':7,'yield_time_ms':5}"] /\
  (broken_run false).2 = None /\ text_of (sent (out (broken_run false).1)) <> ""%string.
Proof. split_and!; vm_compute; done. Qed.
