(* ===== verification/ClineCall.v ===== *)
(** One call to Cline ([src/internal/cline]): the attempts of [runChat] and
    [attemptChat] ([client.go]), the refusals of [classifyStatus] and the repairs of
    a refused request ([request.go]), the inference cap ([auth.go]).

    [cline_call_is_sent_once]: a call ends after five requests at most and within
    its budget, and nothing is sent again once events reached the client.
    [repaired_request_differs_in_one_field]: a repair changes its one field of the
    request and nothing else.
    [shown_wait_is_read_back]: the wait shown in a cap refusal is read back from its
    text, to the precision shown. *)

From Stdlib Require Import Ascii.
From S2P Require Import Prelude UpstreamErrors Json OpenAISSE RetryWait StreamHandler ProviderStream ClineSplitter ClineStream.

(** * The inference cap ([auth.go]) *)

(** A byte of the text: total, the number being read, whether a unit was seen. *)
Definition duration_step (st : duration * Z * bool) (c : ascii) : duration * Z * bool :=
  let '(total, number, valid) := st in
  let n := byte_of c in
  let unit d := (i64 (total + i64 (number * d)), 0, true) in
  if (48 <=? n) && (n <=? 57) then (total, i64 (i64 (number * 10) + (n - 48)), valid)
  else if (n =? 100) || (n =? 68) then unit (24 * Hour)
  else if (n =? 104) || (n =? 72) then unit Hour
  else if (n =? 109) || (n =? 77) then unit Minute
  else if (n =? 115) || (n =? 83) then unit Second
  else (total, 0, valid).

Definition read_duration (st : duration * Z * bool) (s : string) : duration * Z * bool :=
  foldl duration_step st (String.list_ascii_of_string s).

Definition ParseHumanDuration (value : string) : duration :=
  let '(total, _, valid) := read_duration (0, 0, false) (TrimSpace value) in if valid then total else 0.

(** The text before the first quote, line break or closing brace. *)
Fixpoint until_stop (s : string) : string :=
  match s with
  | EmptyString => EmptyString
  | String c s => if existsb (Z.eqb (byte_of c)) [34; 10; 13; 125] then EmptyString else String c (until_stop s)
  end.

Definition ParseInferenceCapDuration (body : string) : duration :=
  match cut_at body "Try again in" with
  | None => 0
  | Some (_, after) => ParseHumanDuration (TrimSpace (until_stop after))
  end.

(** [Duration.Round] of a positive duration to the second. *)
Definition round_second (wait : duration) : duration :=
  let r := wait mod Second in
  if r + r <? Second then wait - r
  else let up := i64 (wait + Second - r) in if wait <? up then up else max_int64.

Definition formatCapWait (wait : duration) : string :=
  if wait <=? 0 then "a moment"
  else
    let wait := round_second wait in
    let hours := wait `div` Hour in
    let minutes := (wait mod Hour) `div` Minute in
    if (0 <? hours) && (0 <? minutes) then Itoa hours +:+ "h " +:+ Itoa minutes +:+ "m"
    else if 0 <? hours then Itoa hours +:+ "h"
    else if 0 <? minutes then Itoa minutes +:+ "m"
    else Itoa (wait `div` Second) +:+ "s".

(** [InferenceCapError]: its text, and the wait the account policy reads. *)
Definition InferenceCapError_Error (wait : duration) : string :=
  if wait <=? 0 then "cline inference cap reached" else "cline inference cap reached: try again in " +:+ formatCapWait wait.

Definition inferenceCapError (wait : duration) : go_error := mkErr (InferenceCapError_Error wait) (Some wait).

(** * Refusals ([oauth.go], [request.go]) *)

Definition ErrCredentialMissing : go_error := Errorf "cline account is missing an OAuth credential; sign in again".

Definition apiError (method path : string) (status : Z) (raw : string) : go_error :=
  let body := TrimSpace raw in
  Errorf ("cline API error: status=" +:+ Itoa status +:+ ", method=" +:+ method +:+ ", path=" +:+ path
          +:+ (if is_empty body then "" else ", message=" +:+ Truncate body 300)).

Definition isUnauthorized (e : cline_error) : bool := match e with AttemptError _ unauth _ => unauth | OtherError _ => false end.

Definition states_cap (detail : string) : bool :=
  (0 <? ParseInferenceCapDuration detail) || contains (ToLower detail) "inference cap"
  || contains detail "INFERENCE_CAP" || contains detail "Try again in".

Definition classifyStatus (status : Z) (raw : string) : cline_error :=
  let detail := TrimSpace raw in
  let wrapped := apiError "POST" "/chat/completions" status raw in
  if status =? 401 then AttemptError (Errorf (err_text ErrCredentialMissing +:+ ": " +:+ err_text wrapped)) true ""
  else if status =? 403 then AttemptError wrapped false detail
  else if (status =? 429) && states_cap detail then OtherError (inferenceCapError (ParseInferenceCapDuration detail))
  else AttemptError wrapped false detail.

(** The provider named in an error reply. *)
Definition reply_error_field (key : string) (v : json) (block : option json) : option (option json) :=
  if names "provider_metadata" key then Some (Some v) else Some block.

Definition reply_field (key : string) (v : json) (b : option json * option json * option json)
    : option (option json * option json * option json) :=
  let '(snake, camel, inner) := b in
  if names "provider_metadata" key then Some (Some v, camel, inner)
  else if names "providerMetadata" key then Some (snake, Some v, inner)
  else if names "error" key then inner ← decode_struct reply_error_field v inner; Some (snake, camel, inner)
  else Some b.

Definition gatewayRoutingFromBody (raw : string) : string * Z :=
  match v ← parse raw; decode_struct reply_field v (None, None, None) with
  | None => (""%string, 0)
  | Some (snake, camel, inner) => gatewayRouting [snake; camel; inner]
  end.

(** * Repairs ([request.go]) *)

Inductive repair := repairReasoningReplay | repairReasoningEffort | repairMaxTokens.

#[export] Instance repair_eq_dec : EqDecision repair.
Proof. solve_decision. Defined.

Definition reasoningReplayPlaceholder : string := ".".
Definition repairMaxTokensBudget : Z := 32000.

Record chatPayload := mkPayload { payload_body : string; toolNames : gmap string string; defaultMaxTokens : bool }.

Definition refusal_text (e : cline_error) : string :=
  ToLower (match e with AttemptError err _ detail => if is_empty detail then err_text err else detail | OtherError err => err_text err end).

Definition repairKind (e : cline_error) (p : chatPayload) : option repair :=
  let text := refusal_text e in
  if contains text "reasoning_content" && contains text "missing required parameter" then Some repairReasoningReplay
  else if contains text "reasoning_effort" || contains text "reasoning effort" then Some repairReasoningEffort
  else if defaultMaxTokens p
       && (contains text "max_tokens" || contains text "maxoutputtokens" || contains text "max_output_tokens"
           || contains text "context length" || contains text "context window") then Some repairMaxTokens
  else None.

(** ** A [map[string]any] *)

(** A map is kept as its members in the order of their keys, which is the order
    they are rendered in. *)
Fixpoint set_member (key : string) (v : json) (members : list (string * json)) : list (string * json) :=
  match members with
  | [] => [(key, v)]
  | m :: rest =>
      if String.eqb m.1 key then (key, v) :: rest
      else if String.ltb key m.1 then (key, v) :: m :: rest
      else m :: set_member key v rest
  end.

(** A decoded value: each object a map, a repeated key keeping its last value. *)
Fixpoint as_maps (v : json) : json :=
  match v with
  | JArray items => JArray (map as_maps items)
  | JObject members => JObject ((fix go acc members :=
      match members with [] => acc | m :: members => go (set_member m.1 (as_maps m.2) acc) members end) [] members)
  | _ => v
  end.

Definition member (key : string) (members : list (string * json)) : option json :=
  snd <$> List.find (fun m => String.eqb m.1 key) members.

Definition delete_member (key : string) (members : list (string * json)) : list (string * json) :=
  List.filter (fun m => negb (String.eqb m.1 key)) members.

(** [Decode] into a map: the first value of the text. *)
Definition decode_body (body : string) : option (list (string * json)) :=
  match parse_value (String.length body) body with
  | Some (JObject members, _) => match as_maps (JObject members) with JObject members => Some members | _ => None end
  | Some (JNull, _) => Some []
  | _ => None
  end.

(** [strings.TrimSpace(util.StringValue(v)) == ""]. *)
Definition blank_value (v : option json) : bool :=
  match v with None | Some JNull => true | Some (JString s) => is_empty (TrimSpace s) | Some _ => false end.

Definition lacks_reasoning (message : json) : bool :=
  match message with
  | JObject members =>
      match member "role" members with Some (JString role) => String.eqb role "assistant" | _ => false end
      && blank_value (member "reasoning_content" members)
  | _ => false
  end.

Definition fill_reasoning (message : json) : json :=
  match message with
  | JObject members =>
      if lacks_reasoning message then JObject (set_member "reasoning_content" (JString reasoningReplayPlaceholder) members) else message
  | _ => message
  end.

(** The body after the repair, [None] where there was nothing to change. *)
Definition repair_members (kind : repair) (decoded : list (string * json)) : option (list (string * json)) :=
  match kind with
  | repairReasoningReplay =>
      match member "messages" decoded with
      | Some (JArray messages) =>
          if existsb lacks_reasoning messages then Some (set_member "messages" (JArray (map fill_reasoning messages)) decoded) else None
      | _ => None
      end
  | repairReasoningEffort => if member "reasoning_effort" decoded is Some _ then Some (delete_member "reasoning_effort" decoded) else None
  | repairMaxTokens =>
      match member "max_tokens" decoded with
      | Some (JNumber literal) =>
          match ParseInt literal with
          | Some budget =>
              if repairMaxTokensBudget <? budget then Some (set_member "max_tokens" (JNumber (Itoa repairMaxTokensBudget)) decoded) else None
          | None => None
          end
      | _ => None
      end
  end.

Definition repairChatBody (body : string) (kind : repair) : option string :=
  decoded ← decode_body body; repaired ← repair_members kind decoded; Some (encode (JObject repaired)).

(** * The attempts ([client.go]) *)

Record Credentials := mkCredentials { AccessToken : string; RefreshToken : string }.

Definition HasCredential (c : Credentials) : bool := negb (is_empty (TrimSpace (AccessToken c))) || negb (is_empty (TrimSpace (RefreshToken c))).
Definition Bearer (c : Credentials) : string := "workos:" +:+ TrimSpace (AccessToken c).

(** What becomes of a request: it cannot be built, cannot be sent, or is answered. *)
Inductive reply := NotBuilt (text : string) | NotSent (text : string) | Answered (status : Z) (b : body).

Definition tools_field (key : string) (v : json) (count : nat) : option nat :=
  if names "tools" key then match v with JArray items => Some (length items) | JNull => Some O | _ => None end else Some count.

Definition requestCarriesTools (body : string) : bool :=
  match v ← parse body; decode_struct tools_field v O with Some count => (0 <? count)%nat | None => false end.

(** An attempt: the request sent, what was read, and the failure. *)
Record attempt_made := mkAttempt { request : option (string * string); read : reader; failure : option cline_error }.

Record outcome := mkOutcome { attempts_made : list attempt_made; said : list SSEMessage; result : option cline_error; budget_left : option (Z * Z) }.

Definition no_usable_events : cline_error := OtherError (Errorf "cline stream produced no usable events").

Definition finish_event (r : reader) : SSEMessage :=
  {| Type_ := "model.finish";
     Event := ("finishReason"%string, VString (result_FinishReason r))
       :: match Usage (out r) with [] => [] | usage => [("usage"%string, VMap usage)] end |}.

Section call.
(** The identifiers and the signature minted, whether calls stream; what the
    upstream makes of the [n]th request, with its bearer and its body; the
    credentials at hand and the outcome of a refresh then; whether the context has
    ended. *)
Context (nanos sequence : nat -> Z) (signature : string) (streamToolDeltas : bool)
  (upstream : nat -> string -> string -> reply) (currentCredentials : nat -> Credentials)
  (refresh : nat -> Credentials -> option go_error) (ctx_err : nat -> option go_error).

(** [streamResult{}]. *)
Definition nothing_read : reader := new_reader false.

(** [upstream.BeginAttempt] with or without a budget in the context. *)
Definition begin_attempt (n : nat) (budget : option (Z * Z)) : option go_error * option (Z * Z) :=
  match budget with
  | Some (limit, used) => let '(err, used) := BeginAttempt (ctx_err n) limit used in (err, Some (limit, used))
  | None => (ctx_err n, None)
  end.

Definition read_reply (p : chatPayload) (status : Z) (b : body) : reader * option cline_error :=
  if status =? 200 then
    consumeStreamWithToolNames nanos sequence signature (requestCarriesTools (payload_body p)) (toolNames p) streamToolDeltas b
  else
    let raw := take_bytes (8 * 1024) (delivered b) in
    let '(provider, attempts) := gatewayRoutingFromBody raw in
    (nothing_read <| Provider := provider |> <| ProviderAttempts := attempts |>, Some (classifyStatus status raw)).

Definition attemptChat (n : nat) (p : chatPayload) (creds : Credentials) (budget : option (Z * Z)) : attempt_made * option (Z * Z) :=
  match upstream n (Bearer creds) (payload_body p) with
  | NotBuilt text =>
      (mkAttempt None nothing_read (Some (AttemptError (Errorf ("build cline request: " +:+ text)) false "")), budget)
  | answer =>
      match begin_attempt n budget with
      | (Some err, budget) => (mkAttempt None nothing_read (Some (OtherError err)), budget)
      | (None, budget) =>
          let sent_now := Some (Bearer creds, payload_body p) in
          match answer with
          | Answered status b => let '(r, err) := read_reply p status b in (mkAttempt sent_now r err, budget)
          | NotBuilt text | NotSent text =>
              (mkAttempt sent_now nothing_read (Some (AttemptError (Errorf ("send cline request: " +:+ text)) false "")), budget)
          end
      end
  end.

Definition forceRefresh (n : nat) (rejected : Credentials) : option go_error :=
  if is_empty (TrimSpace (RefreshToken rejected)) then Some ErrCredentialMissing else refresh n rejected.

(** What the loop remembers from one attempt to the next. *)
Record call_state := mkCall { payload : chatPayload; creds : Credentials; refreshed : bool; repaired : list repair; budget : option (Z * Z) }.

(** What follows a failure: the call ends with an error, or goes on. *)
Definition after_failure (n : nat) (emitted : bool) (err : cline_error) (c : call_state) : cline_error + call_state :=
  if emitted || (RemainingAttempts (budget c) =? 0) then inl err
  else if isUnauthorized err then
    if refreshed c then inl err
    else
      match forceRefresh n (creds c) with
      | Some refreshErr => inl (OtherError refreshErr)
      | None => inr (mkCall (payload c) (creds c) true (repaired c) (budget c))
      end
  else
    match repairKind err (payload c) with
    | None => inl err
    | Some kind =>
        if bool_decide (kind ∈ repaired c) then inl err
        else
          match repairChatBody (payload_body (payload c)) kind with
          | None => inl err
          | Some body => inr (mkCall (mkPayload body (toolNames (payload c)) (defaultMaxTokens (payload c))) (creds c)
                                (refreshed c) (kind :: repaired c) (budget c))
          end
    end.

Fixpoint chat_loop (fuel n : nat) (emitted : bool) (c : call_state) : option outcome :=
  match fuel with
  | O => None
  | S fuel =>
      let current := currentCredentials n in
      let cr := if HasCredential current then current else creds c in
      let '(a, rest) := attemptChat n (payload c) cr (budget c) in
      let events := sent (out (read a)) in
      match failure a with
      | None =>
          Some (if negb (SawMeaningfulEvent (out (read a))) then mkOutcome [a] events (Some no_usable_events) rest
                else mkOutcome [a] (events ++ [finish_event (read a)]) None rest)
      | Some err =>
          let emitted := emitted || negb (length events =? 0)%nat in
          match after_failure n emitted err (mkCall (payload c) cr (refreshed c) (repaired c) rest) with
          | inl err => Some (mkOutcome [a] events (Some err) rest)
          | inr c =>
              o ← chat_loop fuel (S n) emitted c;
              Some (mkOutcome (a :: attempts_made o) (events ++ said o) (result o) (budget_left o))
          end
      end
  end.

(** One refresh and one repair of each kind: five attempts are enough. *)
Definition max_attempts : nat := 5.

Definition runChat (p : chatPayload) (creds : Credentials) (budget : option (Z * Z)) : option outcome :=
  chat_loop max_attempts 0 false (mkCall p creds false [] budget).
End call.

(** * The call ends *)

Section call_facts.
Context (nanos sequence : nat -> Z) (signature : string) (streamToolDeltas : bool)
  (upstream : nat -> string -> string -> reply) (currentCredentials : nat -> Credentials)
  (refresh : nat -> Credentials -> option go_error) (ctx_err : nat -> option go_error).

Abbreviation consume := (consumeStreamWithToolNames nanos sequence signature).
Abbreviation attemptChat := (attemptChat nanos sequence signature streamToolDeltas upstream ctx_err).
Abbreviation chat_loop := (chat_loop nanos sequence signature streamToolDeltas upstream currentCredentials refresh ctx_err).
Abbreviation runChat := (runChat nanos sequence signature streamToolDeltas upstream currentCredentials refresh ctx_err).

Lemma repairs_few (l : list repair) : NoDup l -> (length l <= 3)%nat.
Proof.
  intros H. apply (submseteq_length l [repairReasoningReplay; repairReasoningEffort; repairMaxTokens]), NoDup_submseteq; [done|].
  intros [] _; set_solver.
Qed.

(** The times the call may still go on. *)
Definition allowance (c : call_state) : nat := ((if refreshed c then 0 else 1) + (3 - length (repaired c)))%nat.

Lemma after_failure_goes_on n emitted err c c' :
  NoDup (repaired c) -> after_failure refresh n emitted err c = inr c' ->
  emitted = false /\ NoDup (repaired c') /\ (allowance c' < allowance c)%nat /\
  toolNames (payload c') = toolNames (payload c) /\ budget c' = budget c.
Proof.
  intros Hn. unfold after_failure. destruct emitted; [done|]. cbn [orb]. destruct (_ =? 0); [done|].
  destruct (isUnauthorized err).
  - destruct (refreshed c) eqn:Er; [done|]. destruct (forceRefresh _ _); [done|]. intros [= <-]. split_and!; try done.
    unfold allowance. rewrite Er. cbn. lia.
  - destruct (repairKind err (payload c)) as [kind|]; [|done]. destruct (bool_decide _) eqn:Eb; [done|].
    apply bool_decide_eq_false in Eb. destruct (repairChatBody _ kind); [|done]. intros [= <-].
    assert (NoDup (kind :: repaired c)) as Hn' by by constructor. split_and!; try done.
    apply repairs_few in Hn'. unfold allowance. cbn in *. lia.
Qed.

(** The [n]th attempt was answered with status 200 and its answer read to the end. *)
Definition read_whole (n : nat) (a : attempt_made) (names : gmap string string) : Prop :=
  exists bearer body b, request a = Some (bearer, body) /\ upstream n bearer body = Answered 200 b /\
    consume (requestCarriesTools body) names streamToolDeltas b = (read a, None).

Lemma attempt_read_whole n p cr b a rest :
  attemptChat n p cr b = (a, rest) -> failure a = None <-> read_whole n a (toolNames p).
Proof.
  unfold ClineCall.attemptChat, read_whole. destruct (upstream n (Bearer cr) (payload_body p)) as [text|text|status bd] eqn:Eu.
  { intros [= <- _]. split; [done|]. by intros (? & ? & ? & ? & _). }
  all: destruct (begin_attempt _ n b) as [[err|] b'];
    [intros [= <- _]; split; [done|]; by intros (? & ? & ? & ? & _)|].
  { intros [= <- _]. split; [done|]. intros (bearer & body & bd & [= <- <-] & E & _). congruence. }
  unfold read_reply. destruct (status =? 200) eqn:Es.
  - apply Z.eqb_eq in Es as ->. destruct (consume _ _ _ bd) as [r err] eqn:Ec. intros [= <- _]. cbn. split.
    + intros ->. by exists (Bearer cr), (payload_body p), bd.
    + intros (bearer & body & bd' & [= <- <-] & E & Hc). congruence.
  - destruct (gatewayRoutingFromBody _). intros [= <- _]. split; [done|].
    intros (bearer & body & bd' & [= <- <-] & E & _). apply Z.eqb_neq in Es. congruence.
Qed.

Definition requested (a : attempt_made) : bool := if request a is Some _ then true else false.
Definition requests_of (l : list attempt_made) : Z := Z.of_nat (length (List.filter requested l)).

(** The budget after some requests. *)
Definition charged (requests : Z) (b rest : option (Z * Z)) : Prop :=
  forall limit used, b = Some (limit, used) -> 0 <= used <= limit -> limit <= max_int64 ->
    rest = Some (limit, used + requests) /\ used + requests <= limit.

Lemma attempt_charged n p cr b a rest : attemptChat n p cr b = (a, rest) -> charged (requests_of [a]) b rest.
Proof.
  intros Ha limit used -> Hu Hl. revert Ha. unfold ClineCall.attemptChat, begin_attempt, BeginAttempt, requests_of, requested.
  destruct (upstream n (Bearer cr) (payload_body p)) as [text|text|status bd].
  { intros [= <- <-]. cbn. rewrite Z.add_0_r. by split; [|lia]. }
  all: destruct (ctx_err n) as [e|]; [intros [= <- <-]; cbn; rewrite Z.add_0_r; by split; [|lia]|].
  all: destruct (limit <=? used) eqn:El; [intros [= <- <-]; cbn; rewrite Z.add_0_r; by split; [|lia]|].
  all: apply Z.leb_gt in El; rewrite (i64_small (used + 1)) by (unfold in_i64, min_int64 in *; lia).
  - intros [= <- <-]. cbn. split; [done|lia].
  - destruct (read_reply _ _ _ _ _ _ _). intros [= <- <-]. cbn. split; [done|lia].
Qed.

(** What is true of the attempts of a call that has [left] repairs to go. *)
Record one_sent (n : nat) (names : gmap string string) (left : nat) (b : option (Z * Z)) (o : outcome) (init : list attempt_made) (last : attempt_made)
  : Prop := {
  os_attempts : attempts_made o = init ++ [last];
  os_few : (length init <= left)%nat;
  os_quiet : Forall (fun a => sent (out (read a)) = []) init;
  os_said : said o = sent (out (read last)) ++ (if result o is None then [finish_event (read last)] else []);
  os_whole : result o = None <-> SawMeaningfulEvent (out (read last)) = true /\ read_whole (n + length init) last names;
  os_charged : charged (requests_of (attempts_made o)) b (budget_left o)
}.

Lemma charged_trans x y b b' b'' : 0 <= x -> charged x b b' -> charged y b' b'' -> charged (x + y) b b''.
Proof.
  intros Hx H1 H2 limit used -> Hu Hl. destruct (H1 limit used eq_refl Hu Hl) as [-> H]. destruct (H2 limit (used + x) eq_refl ltac:(lia) Hl) as [-> H'].
  split; [by rewrite Z.add_assoc|lia].
Qed.

Lemma chat_loop_ends fuel n c :
  NoDup (repaired c) -> (allowance c < fuel)%nat ->
  exists o init last, chat_loop fuel n false c = Some o /\ one_sent n (toolNames (payload c)) (allowance c) (budget c) o init last.
Proof.
  revert n c. induction fuel as [|fuel IH]; intros n c Hn Hf; [lia|]. cbn [ClineCall.chat_loop].
  set (cr := if HasCredential _ then _ else _). destruct (attemptChat n (payload c) cr (budget c)) as [a rest] eqn:Ea.
  pose proof (attempt_charged _ _ _ _ _ _ Ea) as Hc. destruct (failure a) as [err|] eqn:Ef.
  - cbn [orb]. set (quiet := (length (sent (out (read a))) =? 0)%nat).
    destruct (after_failure _ n _ err _) as [err'|c'] eqn:Eg.
    + eexists _, [], a. split; [done|]. split; cbn [attempts_made said result budget_left app length]; try done; [lia|by rewrite app_nil_r|].
      rewrite Nat.add_0_r, <- (attempt_read_whole _ _ _ _ _ _ Ea), Ef. split; [done|by intros [_ ?]].
    + apply after_failure_goes_on in Eg as (Eq & Hn' & Hlt & Ht & Eb); [|done]. cbn [payload budget] in Ht, Eb.
      change (allowance (mkCall (payload c) cr (refreshed c) (repaired c) rest)) with (allowance c) in Hlt.
      rewrite Eq. destruct (IH (S n) c' Hn' ltac:(lia)) as (o & init & last & -> & [H1 H2 H3 H4 H5 H6]).
      apply negb_false_iff, Nat.eqb_eq, nil_length_inv in Eq.
      eexists _, (a :: init), last. split; [done|]. split; cbn.
      * by rewrite H1.
      * lia.
      * by constructor.
      * by rewrite Eq, H4.
      * rewrite <- Ht. by replace (n + S (length init))%nat with (S n + length init)%nat by lia.
      * rewrite Eb in H6. change (a :: attempts_made o) with ([a] ++ attempts_made o). unfold requests_of in *.
        rewrite List.filter_app, length_app, Nat2Z.inj_add. by eapply charged_trans; [lia|exact Hc|].
  - pose proof (proj1 (attempt_read_whole _ _ _ _ _ _ Ea) Ef) as Hw. destruct (SawMeaningfulEvent (out (read a))) eqn:Es; cbn [negb];
      (eexists _, [], a; split; [done|]; split; cbn [attempts_made said result budget_left app length]; rewrite ?app_nil_r, ?Nat.add_0_r, ?Es; try done; try lia).
    split; [done|]. by intros [? _].
Qed.

(** C17: Whatever the upstream answers, a call to Cline ends, after five requests at
    most, each of them counted against the budget of the request, which they stay
    within.  An attempt is followed by another only when none of its events
    reached the client: what the client gets is what the last attempt read, and
    the finish event where the call succeeds.  It succeeds exactly when that
    attempt was answered with status 200, read to its end without an error, and
    held anything for the client. *)
Theorem cline_call_is_sent_once p cr b :
  exists o init last, runChat p cr b = Some o /\ attempts_made o = init ++ [last] /\ (length (attempts_made o) <= 5)%nat /\
    Forall (fun a => sent (out (read a)) = []) init /\
    said o = sent (out (read last)) ++ (if result o is None then [finish_event (read last)] else []) /\
    (result o = None <-> SawMeaningfulEvent (out (read last)) = true /\ read_whole (length init) last (toolNames p)) /\
    charged (requests_of (attempts_made o)) b (budget_left o).
Proof.
  destruct (chat_loop_ends 5 0 (mkCall p cr false [] b) (NoDup_nil_2) ltac:(cbn; lia)) as (o & init & last & H & [H1 H2 H3 H4 H5 H6]).
  exists o, init, last. split_and!; try done. rewrite H1, length_app. cbn in *. lia.
Qed.
End call_facts.

(** * What a repair changes *)

Lemma member_cons key m members : member key (m :: members) = if String.eqb m.1 key then Some m.2 else member key members.
Proof. unfold member. cbn [List.find]. by destruct (String.eqb m.1 key). Qed.

Lemma member_set key v members : member key (set_member key v members) = Some v.
Proof.
  induction members as [|m members IH]; cbn [set_member]; [by rewrite member_cons, String.eqb_refl|].
  destruct (String.eqb m.1 key) eqn:E; [by rewrite member_cons, String.eqb_refl|].
  destruct (String.ltb key m.1); [by rewrite member_cons, String.eqb_refl|]. by rewrite member_cons, E.
Qed.

Lemma member_set_other key key' v members : key' <> key -> member key' (set_member key v members) = member key' members.
Proof.
  intros Hne. assert (String.eqb key key' = false) as Hk by (apply String.eqb_neq; congruence).
  induction members as [|m members IH]; cbn [set_member]; [rewrite member_cons; cbn [fst]; by rewrite Hk|].
  destruct (String.eqb m.1 key) eqn:E.
  - apply String.eqb_eq in E. rewrite !member_cons. cbn [fst]. by rewrite E, Hk.
  - destruct (String.ltb key m.1); rewrite !member_cons; cbn [fst snd]; [by rewrite Hk|by rewrite IH].
Qed.

Lemma member_delete key members : member key (delete_member key members) = None.
Proof.
  induction members as [|m members IH]; [done|]. cbn [delete_member List.filter]. destruct (String.eqb m.1 key) eqn:E; [done|].
  cbn [negb]. by rewrite member_cons, E.
Qed.

Lemma member_delete_other key key' members : key' <> key -> member key' (delete_member key members) = member key' members.
Proof.
  intros Hne. induction members as [|m members IH]; [done|]. cbn [delete_member List.filter]. rewrite (member_cons key' m).
  destruct (String.eqb m.1 key) eqn:E; cbn [negb].
  - apply String.eqb_eq in E. assert (String.eqb m.1 key' = false) as -> by (apply String.eqb_neq; congruence). exact IH.
  - rewrite member_cons. by destruct (String.eqb m.1 key').
Qed.

(** The field a repair is about. *)
Definition repaired_field (kind : repair) : string :=
  match kind with
  | repairReasoningReplay => "messages"
  | repairReasoningEffort => "reasoning_effort"
  | repairMaxTokens => "max_tokens"
  end.

(** A message of the history and what it is replayed as. *)
Definition replayed (m m' : json) : Prop :=
  m' = m \/ exists members members', m = JObject members /\ m' = JObject members' /\
    member "role" members = Some (JString "assistant") /\ blank_value (member "reasoning_content" members) = true /\
    member "reasoning_content" members' = Some (JString reasoningReplayPlaceholder) /\
    forall key, key <> "reasoning_content"%string -> member key members' = member key members.

Definition field_repaired (kind : repair) (before after : option json) : Prop :=
  match kind with
  | repairReasoningReplay =>
      exists ms ms', before = Some (JArray ms) /\ after = Some (JArray ms') /\ Forall2 replayed ms ms' /\
        existsb lacks_reasoning ms = true /\ existsb lacks_reasoning ms' = false
  | repairReasoningEffort => is_Some before /\ after = None
  | repairMaxTokens =>
      exists literal budget, before = Some (JNumber literal) /\ ParseInt literal = Some budget /\
        repairMaxTokensBudget < budget /\ after = Some (JNumber (Itoa repairMaxTokensBudget))
  end.

Lemma fill_replayed m : replayed m (fill_reasoning m) /\ lacks_reasoning (fill_reasoning m) = false.
Proof.
  destruct m as [| | | | |members]; try (by split; [left|]). unfold fill_reasoning. destruct (lacks_reasoning (JObject members)) eqn:E; [|by split; [left|]].
  cbn [lacks_reasoning] in E. apply andb_true_iff in E as [Er Eb]. cbn [lacks_reasoning].
  rewrite member_set, member_set_other by done. split; [|by rewrite andb_false_r].
  right. exists members, (set_member "reasoning_content" (JString reasoningReplayPlaceholder) members). split_and!; try done.
  - destruct (member "role" members) as [[| | |role| |]|]; try done. by apply String.eqb_eq in Er as ->.
  - apply member_set.
  - intros key Hk. by apply member_set_other.
Qed.

Lemma repair_members_spec kind decoded after :
  repair_members kind decoded = Some after ->
  field_repaired kind (member (repaired_field kind) decoded) (member (repaired_field kind) after) /\
  (forall key, key <> repaired_field kind -> member key after = member key decoded).
Proof.
  destruct kind; cbn [repair_members repaired_field field_repaired].
  - destruct (member "messages" decoded) as [[| | | |ms|]|] eqn:Em; try done. destruct (existsb lacks_reasoning ms) eqn:El; [|done].
    intros [= <-]. split; [|intros key Hk; by apply member_set_other]. exists ms, (map fill_reasoning ms). rewrite member_set. split_and!; try done.
    + clear. induction ms as [|m ms IH]; [constructor|]. constructor; [by apply fill_replayed|exact IH].
    + clear. induction ms as [|m ms IH]; [done|]. cbn. destruct (fill_replayed m) as [_ ->]. exact IH.
  - destruct (member "reasoning_effort" decoded) as [v|] eqn:Em; [|done]. intros [= <-]. rewrite member_delete. split; [by split|].
    intros key Hk. by apply member_delete_other.
  - destruct (member "max_tokens" decoded) as [[| |literal| | |]|] eqn:Em; try done. destruct (ParseInt literal) as [n|] eqn:Ep; [|done].
    destruct (_ <? n) eqn:El; [|done]. apply Z.ltb_lt in El. intros [= <-]. split; [|intros key Hk; by apply member_set_other].
    rewrite member_set. by exists literal, n.
Qed.

(** C33: A request repaired after a refusal is the request refused with one field
    changed: of the history, a placeholder where an assistant turn has no reasoning,
    every other message and field kept; or the reasoning effort gone; or
    the answer's budget lowered to 32000, and that one only where the budget is not
    the client's.  The repair had something to change and leaves nothing that it
    would change again. *)
Theorem repaired_request_differs_in_one_field e p kind body' :
  repairKind e p = Some kind -> repairChatBody (payload_body p) kind = Some body' ->
  exists before after, decode_body (payload_body p) = Some before /\ body' = encode (JObject after) /\
    field_repaired kind (member (repaired_field kind) before) (member (repaired_field kind) after) /\
    (forall key, key <> repaired_field kind -> member key after = member key before) /\
    repair_members kind after = None /\ (kind = repairMaxTokens -> defaultMaxTokens p = true).
Proof.
  intros Hk. unfold repairChatBody. destruct (decode_body (payload_body p)) as [before|]; [|done]. cbn.
  destruct (repair_members kind before) as [after|] eqn:Er; [|done]. cbn. intros [= <-].
  destruct (repair_members_spec _ _ _ Er) as [Hf Ho]. exists before, after. split_and!; try done.
  - destruct kind; cbn [field_repaired repaired_field repair_members] in *.
    + destruct Hf as (ms & ms' & _ & -> & _ & _ & ->). done.
    + by destruct Hf as [_ ->].
    + destruct Hf as (l & n & _ & _ & _ & ->). rewrite ParseInt_Itoa; done.
  - intros ->. revert Hk. unfold repairKind. destruct (_ && _); [done|]. destruct (_ || _); [done|]. by destruct (defaultMaxTokens p).
Qed.

(** * The stated wait *)

Lemma parse_digits_grows acc s n : 0 <= acc -> parse_digits acc s = Some n -> acc <= n.
Proof.
  revert acc. induction s as [|c s IH]; intros acc Ha; cbn [parse_digits]; [intros [= <-]; lia|].
  destruct (digit_value c) as [d|] eqn:Ed; [|done]. cbn. intros H. assert (0 <= d) as Hd.
  { unfold digit_value in Ed. destruct (_ && _) eqn:E; [|done]. injection Ed as <-. apply andb_true_iff in E as [E%Z.leb_le _]. lia. }
  apply IH in H; lia.
Qed.

(** Digits are read as the number they spell. *)
Lemma read_digits acc s n t v :
  parse_digits acc s = Some n -> 0 <= acc -> n <= max_int64 -> read_duration (t, acc, v) s = (t, n, v).
Proof.
  unfold read_duration. revert acc. induction s as [|c s IH]; intros acc; cbn [parse_digits String.list_ascii_of_string foldl]; [by intros [= ->]|].
  destruct (digit_value c) as [d|] eqn:Ed; [|done]. cbn. intros Hp Ha Hn.
  assert (0 <= d /\ byte_of c - 48 = d /\ (48 <=? byte_of c) && (byte_of c <=? 57) = true) as (Hd & Eq & Eb).
  { unfold digit_value in Ed. fold (byte_of c) in Ed. destruct ((48 <=? byte_of c) && (byte_of c <=? 57)) eqn:E; [|done].
    injection Ed as <-. apply andb_true_iff in E as [E%Z.leb_le _]. split_and!; [lia|done|done]. }
  pose proof (parse_digits_grows (acc * 10 + d) s n ltac:(lia) Hp) as Hle.
  rewrite Eb, Eq, (i64_small (acc * 10)), i64_small by (unfold in_i64, min_int64, max_int64 in *; lia). apply IH; [done|lia|done].
Qed.

Lemma read_Itoa n t v : 0 <= n <= max_int64 -> read_duration (t, 0, v) (Itoa n) = (t, n, v).
Proof.
  intros Hn. apply read_digits; [|lia..]. pose proof (ParseInt_Itoa n ltac:(unfold in_i64, min_int64 in *; lia)) as H. unfold Itoa in *.
  destruct n as [|n|n]; [done| |lia]. change (pretty (Z.pos n)) with (pretty (N.pos n)).
  destruct (pretty_N_head (N.pos n)) as (d & s & E & Hd & Hp). by rewrite E in Hp |- *.
Qed.

Lemma read_duration_app st a b : read_duration st (a +:+ b) = read_duration (read_duration st a) b.
Proof. unfold read_duration. by rewrite list_ascii_sapp, foldl_app. Qed.

Lemma trimmed_number n mid c : is_space c = false -> TrimSpace (Itoa n +:+ (mid +:+ String c "")) = Itoa n +:+ (mid +:+ String c "").
Proof.
  intros Hc. pose proof (Itoa_no_space n) as Hn. destruct (Itoa n) as [|d t] eqn:E.
  { exfalso. assert (Itoa n <> "") as H; [|done]. unfold Itoa. destruct n as [|n|n]; [done| |done].
    change (pretty (N.pos n) <> ""). destruct (pretty_N_head (N.pos n)) as (d & t & -> & _). done. }
  cbn in Hn. apply andb_true_iff in Hn as [Hd%negb_true_iff _]. rewrite sapp_cons, <- sapp_assoc. by apply TrimSpace_keeps.
Qed.

(** What is left of a wait when it is rendered: the seconds go as soon as there are
    minutes. *)
Definition shown_wait (wait : duration) : duration :=
  let wait := round_second wait in if wait <? Minute then wait else wait - wait mod Minute.

Lemma round_second_whole w : 0 < w <= max_int64 - Second -> 0 <= round_second w <= max_int64 /\ round_second w mod Second = 0.
Proof.
  intros Hw. unfold round_second. pose proof (Z.div_mod w Second ltac:(done)) as Hd. pose proof (Z.mod_pos_bound w Second ltac:(done)) as Hm.
  set (q := w `div` Second) in *. set (r := w mod Second) in *. assert (0 <= q) by (apply Z.div_pos; unfold Second in *; lia).
  destruct (r + r <? Second) eqn:E.
  - replace (w - r) with (q * Second) by lia. split; [unfold Second, max_int64 in *; lia|apply Z.mod_mul; done].
  - cbv zeta. rewrite (i64_small (w + Second - r)) by (unfold in_i64, min_int64, max_int64, Second in *; lia).
    assert ((w <? w + Second - r) = true) as -> by (apply Z.ltb_lt; lia).
    replace (w + Second - r) with ((q + 1) * Second) by lia. split; [unfold Second, max_int64 in *; lia|apply Z.mod_mul; done].
Qed.

(** A number and its unit at the end of a text. *)
Lemma ParseHumanDuration_one n c d :
  0 <= n -> 0 <= n * d <= max_int64 -> 0 < d -> is_space c = false ->
  duration_step (0, n, false) c = (i64 (0 + i64 (n * d)), 0, true) ->
  ParseHumanDuration (Itoa n +:+ String c "") = n * d.
Proof.
  intros Hn Hd Hpos Hc Hstep. unfold ParseHumanDuration. pose proof (trimmed_number n "" c Hc) as Ht.
  change ("" +:+ String c "") with (String c "") in Ht. rewrite Ht, read_duration_app, read_Itoa by nia.
  change (read_duration (0, n, false) (String c "")) with (duration_step (0, n, false) c). rewrite Hstep.
  by rewrite (i64_small (n * d)), i64_small by (unfold in_i64, min_int64; lia).
Qed.

Lemma ParseHumanDuration_two h m :
  0 <= h -> 0 <= m -> h * Hour + m * Minute <= max_int64 ->
  ParseHumanDuration (Itoa h +:+ "h " +:+ Itoa m +:+ "m") = h * Hour + m * Minute.
Proof.
  intros Hh Hm Hle. assert (0 <= h * Hour <= max_int64 /\ 0 <= m * Minute <= max_int64 /\ h <= max_int64 /\ m <= max_int64) as (H1 & H2 & H3 & H4)
    by (unfold Hour, Minute in *; lia).
  unfold ParseHumanDuration. change "m"%string with (String "m" "") at 1. rewrite <- (sapp_assoc "h ").
  rewrite (trimmed_number h ("h " +:+ Itoa m) "m" eq_refl), (sapp_assoc "h "), read_duration_app, read_Itoa by lia.
  rewrite read_duration_app. change (read_duration (0, h, false) "h ") with (i64 (0 + i64 (h * Hour)), 0, true).
  rewrite read_duration_app, read_Itoa by lia.
  change (read_duration (i64 (0 + i64 (h * Hour)), m, true) (String "m" "")) with (i64 (i64 (0 + i64 (h * Hour)) + i64 (m * Minute)), 0, true).
  rewrite (i64_small (h * Hour)), (i64_small (m * Minute)), (i64_small (0 + _)), i64_small by (unfold in_i64, min_int64; lia). done.
Qed.

(** The text a wait is shown as is read back as that wait, rounded to the second
    and, from a minute on, cut to whole minutes, for every wait that can be
    represented. *)
Theorem shown_wait_is_read_back w : 0 < w <= max_int64 - Second -> ParseHumanDuration (formatCapWait w) = shown_wait w.
Proof.
  intros Hw. destruct (round_second_whole w Hw) as [Hr Hs]. unfold formatCapWait, shown_wait.
  assert ((w <=? 0) = false) as -> by (apply Z.leb_gt; lia). cbv zeta. revert Hr Hs. generalize (round_second w) as r. clear w Hw. intros r Hr Hs.
  pose proof (Z.div_mod r Hour ltac:(done)) as Hh. pose proof (Z.mod_pos_bound r Hour ltac:(done)) as Hm.
  pose proof (Z.div_mod (r mod Hour) Minute ltac:(done)) as Hmm. pose proof (Z.mod_pos_bound (r mod Hour) Minute ltac:(done)) as Hmb.
  assert ((r mod Hour) mod Minute = r mod Minute) as Emod by (apply Z.mod_mod_divide; by exists 60).
  assert (0 <= r `div` Hour) as Hh0 by (apply Z.div_pos; [lia|done]). assert (0 <= (r mod Hour) `div` Minute) as Hm0 by (apply Z.div_pos; [lia|done]).
  rewrite Emod in Hmm, Hmb. revert Hh Hm Hmm Hmb Hh0 Hm0. clear Emod.
  generalize ((r mod Hour) `div` Minute) as m. generalize (r mod Minute) as x, (r mod Hour) as y, (r `div` Hour) as h. intros x y h m Hh Hy Hm Hx Hh0 Hm0.
  assert (r - x = h * Hour + m * Minute) as Er by (unfold Hour, Minute in *; lia).
  destruct (0 <? h) eqn:Eh; [destruct (0 <? m) eqn:Em|destruct (0 <? m) eqn:Em]; cbn [andb].
  - rewrite ParseHumanDuration_two by lia. assert ((r <? Minute) = false) as -> by (unfold Hour, Minute in *; lia). lia.
  - assert (m = 0) as -> by lia. rewrite (ParseHumanDuration_one h _ Hour) by (done || unfold Hour, Minute in *; lia).
    assert ((r <? Minute) = false) as -> by (unfold Hour, Minute in *; lia). lia.
  - assert (h = 0) as -> by lia. rewrite (ParseHumanDuration_one m _ Minute) by (done || unfold Hour, Minute in *; lia).
    assert ((r <? Minute) = false) as -> by (unfold Hour, Minute in *; lia). lia.
  - assert (h = 0) as -> by lia. assert (m = 0) as -> by lia.
    assert ((r <? Minute) = true) as -> by (unfold Hour, Minute in *; lia).
    pose proof (Z.div_mod r Second ltac:(done)) as Hsec. rewrite Hs in Hsec. assert (0 <= r `div` Second) by (apply Z.div_pos; [lia|done]).
    rewrite (ParseHumanDuration_one (r `div` Second) _ Second) by (done || unfold Second in *; lia). lia.
Qed.

Lemma shown_wait_is_read_back_witness : ParseHumanDuration (formatCapWait (18 * Hour - Minute - 1)) = 17 * Hour + 59 * Minute.
Proof. rewrite (shown_wait_is_read_back (18 * Hour - Minute - 1)); [vm_compute; reflexivity|split; [vm_compute; reflexivity|vm_compute; discriminate]]. Defined.

(** * A call *)

(** The credential is refused, then the history, then the call is answered. *)
Definition demo_payload : chatPayload :=
  mkPayload (lit "{'messages':[{'role':'user','content':'hi'},{'role':'assistant','content':'yo'}],'max_tokens':64000}") ∅ true.

Definition demo_reply (n : nat) (bearer body : string) : reply :=
  match n with
  | O => Answered 401 (mkBody "expired" None false)
  | S O => Answered 400 (mkBody "Missing required parameter: 'messages[1].reasoning_content'" None false)
  | _ => Answered 200 cline_body
  end.

Definition demo_creds (n : nat) : Credentials := mkCredentials (match n with O => "old" | _ => "new" end) "r".

Definition demo_call : option outcome :=
  runChat (fun _ => 0) (fun n => Z.of_nat n) "cline-v1:0" false demo_reply demo_creds (fun _ _ => None) (fun _ => None)
    demo_payload (mkCredentials "" "") (Some (4, 0)).

Lemma demo_call_repaired :
  exists o, demo_call = Some o /\ result o = None /\ budget_left o = Some (4, 3) /\
    (request <$> attempts_made o) =
      [Some ("workos:old"%string, payload_body demo_payload); Some ("workos:new"%string, payload_body demo_payload);
       Some ("workos:new"%string,
         lit "{'max_tokens':64000,'messages':[{'content':'hi','role':'user'},{'content':'yo','reasoning_content':'.','role':'assistant'}]}")] /\
    text_of (said o) = "so it is <"%string.
Proof. eexists. split; [vm_compute; reflexivity|]. split_and!; vm_compute; reflexivity. Qed.

(** A budget of one attempt: the refusal is final. *)
Lemma demo_call_exhausted :
  exists o, runChat (fun _ => 0) (fun n => Z.of_nat n) "cline-v1:0" false demo_reply demo_creds (fun _ _ => None) (fun _ => None)
      demo_payload (mkCredentials "" "") (Some (1, 0)) = Some o /\ length (attempts_made o) = 1%nat /\ result o <> None.
Proof. eexists. split; [vm_compute; reflexivity|]. split; [vm_compute; reflexivity|discriminate]. Qed.

Lemma repaired_request_differs_in_one_field_witness :
  exists before after, decode_body (payload_body demo_payload) = Some before /\
    member "max_tokens" before = Some (JNumber "64000") /\ member "max_tokens" after = Some (JNumber "32000") /\
    member "messages" after = member "messages" before.
Proof.
  destruct (repaired_request_differs_in_one_field (OtherError (Errorf "max_tokens is too large")) demo_payload repairMaxTokens
    (default "" (repairChatBody (payload_body demo_payload) repairMaxTokens)) eq_refl eq_refl)
    as (before & after & Hb & _ & Hf & Ho & _).
  exists before, after. split; [exact Hb|]. vm_compute in Hb. injection Hb as <-. split; [reflexivity|].
  destruct Hf as (l & n & Hl & Hn & _ & Ha). split; [exact Ha|apply Ho; discriminate].
Defined.
